(* ===== verification/_CoqProject ===== *)
-Q . S2P
Prelude.v
Vint.v
IobufParser.v
Record.v
RecordBatch.v
BatchAdapter.v
BatchReader.v
BatchBuilder.v
Errors.v
ProduceValidation.v
Produce.v
ProduceProps.v
OffsetTranslator.v
ProducerState.v
GroupConfiguration.v
GroupConfigurationProps.v
ConfigurationManager.v
VoterPriority.v
RaftState.v
RaftVote.v
RaftElection.v
RaftAppend.v
RaftAppendProps.v
RaftGroup.v
FetchSession.v
FetchSessionProps.v
FetchResponse.v
FetchResponseProps.v
SegmentIndex.v
SegmentIndexProps.v
GroupOffsets.v
GroupOffsetsProps.v
GroupMembership.v
GroupMembershipProps.v
GroupMembershipSound.v
GroupEvents.v
KeyOffsetMap.v
CompactionIndex.v
Compaction.v
CompactionWindow.v
CompactionFilter.v
CompactionSafety.v
