(* ===== verification/Prelude.v ===== *)
(** * Redpanda's producer and consumer paths: a verification library

    The repository studies how a record travels through Redpanda: a producer sends a
    request, the Kafka API decodes and validates it, the broker routes each batch to a
    partition, the partition's leader replicates and stores it, and consumers fetch it
    back.  The broker's sources are under
    src/report/4_Experiment-Modification/redpanda/src/v; the file names below are
    relative to that directory.  The produce handler there carries the authors'
    experiments: a size limit five times as large, a check for repeated keys, and
    routing by the number of messages.

    ** Parts and files

    - Prelude.v (this file): results of fallible code ([res]), machine integers with
      their wrap-around ([uwrap], [swrap]), byte strings, and the tactics and hint
      databases the other files use.
    - Vint.v: utils/vint.h, the LEB128 and zigzag codecs.
    - IobufParser.v: the cursor and parsers over fragmented buffers
      (bytes/iobuf_parser.h, bytes/details/io_iterator_consumer.h, bytes/iobuf.cc).
      Class [Parser] is what the record parsers ask of a parser and [ParserLaws] what
      they rely on; the owning and the constant parser are its instances.
    - Record.v: one record (model/record.h, model/record_utils.cc), its encoding and the
      two ways of parsing it, for any [Parser].
    - RecordBatch.v: the batch, its header, attributes, checksums, iteration,
      compression and identity (model/record.{h,cc}, model/record_utils.cc,
      model/batch_compression.cc).
    - BatchAdapter.v: a batch on the wire: kafka/protocol/kafka_batch_adapter.cc reads
      it, kafka/protocol/wire.h and batch_consumer.h write it.
    - BatchReader.v: kafka/protocol/batch_reader.{h,cc}, the reader of a fetched record
      set.
    - BatchBuilder.v: storage/record_batch_builder.{h,cc} and the conversion of legacy
      message sets (kafka/protocol/legacy_message.h, kafka_batch_adapter.cc).
    - Errors.v: the error codes of the Kafka protocol, raft, the cluster layer and
      transactions.
    - ProduceValidation.v: kafka/server/handlers/produce_validation.cc, the three
      validation modes.
    - Produce.v: kafka/server/handlers/produce.cc.  [handle] is the handler on a decoded
      request; [shard_state] the thread-local state of a shard; [task] and [task_step]
      a partition's coroutine between its suspension points; [sys_step] the
      interleaving of coroutines on a shard.  What the handler calls (authorization,
      metadata, shard table, schema validator, replication) is the record [env].
    - ProduceProps.v: the properties of the handler.
    - OffsetTranslator.v: storage/offset_translator_state.{h,cc}.
    - ProducerState.v: cluster/producer_state.{h,cc} and do_idempotent_replicate of
      cluster/rm_stm.cc; [leader_step] interleaves requests, raft's answers and the
      batches the log applies during one term of a leader, and [leader_start] is how it begins.
    - GroupConfiguration.v, GroupConfigurationProps.v: raft/group_configuration.{h,cc}.
      Modules [v3] to [v6] are the change strategies; [majority] and [quorum_match] decide
      for the group; [leader_step] is what a leader does to a configuration on its way.  Module
      [consensus] has the requests to cancel and abort a change with their guards (raft/consensus.cc).
    - ConfigurationManager.v: raft/configuration_manager.{h,cc}, with what it stores in
      the key-value store ([kv_state]) and the recovery from it.
    - VoterPriority.v: raft/voter_priority_tracker.{h,cc}.
    - RaftState.v: the members of raft/consensus.h that elections and replication use,
      the leader's view of its followers, and the log as raft sees it: its batches with
      offsets and terms ([raft_log]).
    - RaftVote.v: voters and candidates (do_vote of raft/consensus.cc, raft/vote_stm.cc).
    - RaftElection.v: the runs of a whole group ([world], [step]): members, messages that
      may be lost, repeated and reordered, crashes and disk errors.
    - RaftAppend.v, RaftAppendProps.v: append_entries on the follower, the indices of the
      followers on the leader, commit and visible index (raft/consensus.cc).
    - RaftGroup.v: replication as part of the runs of RaftElection.v.
    - FetchSession.v, FetchSessionProps.v: kafka/server/fetch_session.h and
      fetch_session_cache.{h,cc}; sessions are shared objects in a store.
    - FetchResponse.v, FetchResponseProps.v: the response of kafka/server/handlers/fetch.cc.
    - SegmentIndex.v, SegmentIndexProps.v: the sparse index of a log segment
      (storage/index_state.{h,cc}, storage/segment_index.{h,cc}); [indexed] relates it to the
      batches of the segment.
    - GroupOffsets.v, GroupOffsetsProps.v: the committed offsets of consumer groups
      (kafka/server/group.{h,cc}, group_stm.{h,cc}, group_recovery_consumer.cc and
      do_recover_group of group_manager.cc): commits, transactions, expiry, deletion and
      fetches in memory, and what recovery makes of the log.  [coordinator_step] interleaves
      requests, appends, raft's answers, transactions that are committed and other batches; what it asks of
      requests and failures concerns a set of partitions that are watched.
    - GroupMembership.v: the members of a consumer group (kafka/server/group.{h,cc},
      member.{h,cc}).  [membership] is the group, with the promises, timers and writes in
      flight of its members; each request handler, timer and continuation of a write is a
      function on it.
    - GroupMembershipProps.v: what is [sound] of a group, the loops over its members, the vote
      and the end of the join phase.  GroupMembershipSound.v: every operation keeps a group
      sound.  GroupEvents.v: runs of a group's events and the theorems about them.
    - KeyOffsetMap.v: compaction/key_offset_map.{h,cc}.  Class [key_offset_map] is the
      interface and [KeyOffsetMapLaws] what its comments promise; the map of whole keys and
      the hash table of digests are its instances.
    - CompactionIndex.v: a segment's compaction index: the writer that spills
      (storage/spill_key_index.{h,cc}), the file and its reader
      (storage/compacted_index.h, compacted_index_chunk_reader.cc) and self compaction of
      the index (storage/compaction_reducers.cc, compacted_offset_list.h).
    - Compaction.v: which records are kept and how batches are filtered, rewritten and
      copied (storage/compaction_reducers.cc, segment_utils.h, compaction/utils.cc).
      CompactionWindow.v: segments and the passes over them (storage/segment_utils.cc,
      segment_deduplication_utils.cc, disk_log_impl.cc), against the interface of
      KeyOffsetMap.v.
    - CompactionFilter.v: a copy described by the records batches decode to ([stored],
      [remaining]).  CompactionSafety.v: the passes over segments that hold known records
      ([segment_holds]) and the theorems about them.

    The files build on each other in that order: the handler validates with
    ProduceValidation.v, which iterates batches of RecordBatch.v, which parses records of
    Record.v through the interface of IobufParser.v.  In raft, the configuration manager
    keeps configurations, and votes and commits are counted by the majorities of the
    latest one; the log's changes reach the manager through appends and truncations.  A
    fetch response reads and rotates the partitions of the session that the cache holds.
    Compaction rewrites batches of RecordBatch.v and the index of SegmentIndex.v.

    ** How code is modelled

    An integer of w bits is a [Z], and the conversions and the arithmetic that can leave
    its range wrap.  A C++ exception is [Throw], a failed [vassert] is [Crash], and an
    error code is a value.  Coroutines are cut at their [co_await]s; state shared
    between them is passed explicitly, and objects behind shared pointers live in a
    store (ProducerState.v).  An ordered map is an association list in key order
    (OffsetTranslator.v), an unordered set a [gset] (the keys seen).

    Code outside the repository is a parameter: CRC-32C ([crc_extend]), the compression
    codecs ([uncompress], [compress]), [std::partition] (class [PartitionLaws]), the order
    of iteration of hash maps (classes [HashOrder] and [IterationOrder]) and the memory that containers report
    (class [Containers]), SHA-256 (class [DigestLaws] for the keys of which the digests differ).  So is the content of memory that is allocated and not written
    ([uninit]).  Where a
    property needs more of a parameter than its type, the hypothesis is named and a
    witness instantiates it.

    ** What is shown

    - The wire format: integers, records, batches and record sets are read back as they
      were written ([vint_is_prefix_code], [record_roundtrip], [record_set_roundtrip],
      [compression_roundtrip_batch]), however buffers are fragmented
      ([fragmentation_invisible]); arbitrary bytes are rejected unless their checksum
      matches ([adapt_accepts_only_checked]); cut-off input is reported
      ([partial_last_batch]); the reader ends ([load_slice_terminates]).
    - Validation: exactly the batches whose timestamps lie in the window are accepted
      ([validate_accepts_iff_in_window]), only readable ones
      ([validate_accepts_only_readable]), and checksums stay valid
      ([validate_keeps_checksums]).
    - The handler: what reaches replication is authorized ([writes_are_authorized]) and
      sent once ([produce_appends_once]); every topic is answered
      ([response_is_complete]); no key is appended twice under any interleaving
      ([no_key_appended_twice]); and the consequences of the experiments a producer
      would not expect ([retry_is_swallowed], [compressed_batch_crashes],
      [messages_routed_by_count], [size_limit_wraps]).
    - Idempotence: within an epoch a producer's sequence numbers reach raft in order, each once, from
      where earlier terms ended, or where an unknown producer begins ([idempotent_in_sequence]), while a late
      batch of an older epoch can stand in for one of the new ([late_batch_answers_new_epoch]);
      retries get the first attempt's request or offset
      ([retry_gets_same_request], [applied_request_answers_retry]); transactions and
      snapshots ([transaction_range], [snapshot_roundtrip]).
    - Offset translation is an order-preserving bijection ([translation_is_bijective]) that
      refines counting the hidden offsets of the log ([delta_counts_gaps],
      [updates_refine_log]).
    - Reconfiguration: majorities before and after a change share a replica
      ([majorities_overlap_across_change]), [quorum_match] is the largest value a majority
      has reached ([quorum_match_is_majority]), a replacement of replicas ends where it
      should ([reconfiguration_reaches_target]), cancelling it is refused or turns it around
      ([cancellation_reverses_reconfiguration]), aborting it restores the replicas
      ([abort_restores_replicas]), and restarts
      find the configurations again ([recovery_finds_configurations]).
    - Elections: one winner per term in every run of a group ([election_safety]), by
      rule induction over [step] with the invariant [group_ok]; votes outlive restarts
      ([votes_survive_restart]); priorities do not block elections for good
      ([every_replica_becomes_eligible]).
    - Replication: followers keep what is committed ([append_keeps_committed]) and vouch
      only for what they have ([append_success_matches]); leaders commit exactly what a
      majority has flushed in their term ([leader_commits_majority]); all of it happens
      within the runs of a group ([replication_refines_group]).
    - Fetching: a session holds what its requests asked for ([session_follows_requests]),
      the cache stays consistent ([cache_stays_consistent]), a request is accepted once
      ([request_accepted_once]), responses keep to their budget
      ([response_within_budget]) and no partition starves ([starvation_is_bounded]).
    - The segment index: lookups by offset and by time never lead a reader past a batch it
      asks for ([index_never_skips], [timequery_never_skips]), except after a truncation that
      drops the entry of a batch it keeps ([truncation_hides_kept_batch]).
    - Consumer groups: an acknowledged commit of a partition is fetched until one with a later log offset is
      there, of a request or of a transaction ([acknowledged_commits_are_fetched]), and for partitions
      without transactions a new coordinator answers fetches as the old one did
      ([failover_keeps_offsets]).  Both are for partitions that requests name once, with different offsets in flight,
      and of which no commit fails while another is in flight: a failure can hide an acknowledged commit
      ([later_failure_hides_commit]), and a failover can change what a transaction has committed
      ([transaction_lost_until_failover], [transaction_of_unknown_group_is_lost]).  Over all
      sequences of requests, timers and write results that meet [events_ok] the group's state machine keeps its
      invariant and never throws ([group_stays_sound]); when the join timer fires it is armed again or the join
      phase ends with everybody answered ([join_timer_ends_phase]), the sync phase with everybody's assignment
      ([assignments_reach_members]), and the metadata in the log restores the group
      ([recovery_restores_group]).  A static member whose new id cannot be written is told it
      is fenced ([failed_rejoin_is_fenced]); what the invariant has to assume of requests and
      failed writes is shown to be needed ([repeated_protocol_blocks_group],
      [late_failure_blocks_sync], [expired_sync_is_dropped]).
    - Compaction: a pass over a window of segments keeps the latest record of every key and
      invents none, whatever its outcome ([window_pass_keeps_latest]), self compaction keeps, of
      the keys its index knows, the latest record or one of the same batch
      ([self_compaction_keeps_latest]), a deduplicated
      segment is exactly what it should be, and its new index knows the kept records of compactible
      batches ([deduplication_is_exact]), the hash table of digests answers as a map of keys does
      ([hash_map_answers_as_simple_map]), and compaction in chunks ends
      ([chunked_compaction_ends]).  Rewriting a batch moves the times of its records
      ([compaction_shifts_times]), and an index whose reducer runs out of memory can lose the latest
      of two entries of one key and batch ([same_batch_entry_is_lost]).

    ** Bounds

    Loops that are not structural carry fuel.  [serialize_loop] and [size_loop] shift by
    seven bits a round and have ten rounds or more for 64 bits; [consume_loop] takes at
    most two rounds per fragment; [partition_loop] halves a range whose length is its fuel;
    [iobuf_copy_loop] copies at least 16 KiB a round;
    [load_loop] consumes at least a byte a round ([load_slice_terminates] proves that
    more fuel changes nothing); the record loops run once per record announced; the search
    for a session id ([next_free_id]) has a round more than there are sessions;
    [remove_members] has a round per member; [grow_loop] adds at least an element a
    round and has a round per byte asked for ([initialize_total]); [spill_loop] erases an entry
    a round and has a round per entry; [read_entries] consumes at least a byte a round.  In each
    case a lemma shows that the loop ends by its own condition.  The caller chooses the fuel of
    [chunk_loop]; [chunked_compaction_ends] gives a bound from which on it does not matter.

    ** Not modelled

    Logging, metrics, error messages and latency statistics; decoding of request frames,
    whose code is generated; sockets, quotas and the seastar runtime; the serde
    envelopes around persisted structures.  The produce handler reaches raft, storage and
    the cluster's metadata through [env] and the events of [task_step].  Of raft, the
    batching of writes, the recovery of followers beyond its start, snapshots and
    leadership transfer are left out: in the runs of RaftElection.v logs and configurations
    change freely within what elections rely on ([housekeeping]).  The log under raft is the
    sequence of its batches; its files are not modelled, nor is the encoding of a segment's
    index.  Of the fetch handler, reading
    from partitions and the planning of reads are left out.  Of consumer groups, the
    decoding of subscriptions (a field of the group that the deletion of offsets reads),
    descriptions for clients, and the group manager's routing of requests and
    attachment of partitions are left out; raft's answers and the expiry of timers come as
    events in any order.

    Of compaction, locks, the swap of files and the races with truncation that they guard
    against are left out, as are merging adjacent segments, the encoding of an index's footer,
    and the reducers of compaction/ for level-one storage.

    What would come next are the log with its segments (storage/disk_log_impl.cc) under
    [raft_log], the rest of cluster/rm_stm.cc (transactional requests, producer table), reads
    of the fetch handler, and raft's replication and recovery state machines. *)

From stdpp Require Export base tactics numbers list option gmap strings.
From stdpp Require Import sorting.
From Stdlib Require Export ZArith Lia.

Global Set Default Goal Selector "!".
Global Open Scope Z_scope.

(** ** Results of fallible code

    [Throw e] is a C++ exception, which an enclosing [try] may catch;
    [Crash] is a failed [vassert] (base/vassert.h), which ends the process and
    cannot be caught. *)

Inductive exn :=
  | out_of_range
  | runtime_error
  | invalid_argument
  | bad_alloc
  | corrupt_message
  | bad_optional_access
  | segment_closed_exception
  | zero_segments_indexed_exception.

Inductive res (A : Type) :=
  | Ok (a : A)
  | Throw (e : exn)
  | Crash.
Arguments Ok {_} _.
Arguments Throw {_} _.
Arguments Crash {_}.

#[global] Instance exn_eq_dec : EqDecision exn.
Proof. solve_decision. Defined.

#[global] Instance res_ret : MRet res := @Ok.
#[global] Instance res_bind : MBind res := fun A B f m =>
  match m with Ok a => f a | Throw e => Throw e | Crash => Crash end.
#[global] Instance res_fmap : FMap res := fun A B f m =>
  match m with Ok a => Ok (f a) | Throw e => Throw e | Crash => Crash end.

(** [vassert(b, ...)]. *)
Definition vassert (b : bool) : res unit := if b then Ok tt else Crash.

(** Access through a [std::optional], which must hold a value. *)
Definition deref {A} (o : option A) : res A := match o with Some a => Ok a | None => Crash end.

(** [std::optional::value], which checks. *)
Definition opt_value {A} (o : option A) : res A := match o with Some a => Ok a | None => Throw bad_optional_access end.

(** [if (b) throw e;]. *)
Definition throw_if (b : bool) (e : exn) : res unit :=
  if b then Throw e else Ok tt.

Lemma res_bind_Ok {A B} (m : res A) (f : A -> res B) b :
  m ≫= f = Ok b <-> exists a, m = Ok a /\ f a = Ok b.
Proof. destruct m; naive_solver. Qed.

Lemma throw_if_Ok b e u : throw_if b e = Ok u <-> b = false.
Proof. destruct b, u; naive_solver. Qed.

Lemma vassert_Ok b u : vassert b = Ok u <-> b = true.
Proof. destruct b, u; naive_solver. Qed.

(** ** Machine integers

    A w-bit integer is a [Z]; conversions wrap as two's complement does.  Signed
    overflow, which C++ leaves undefined, is modelled as wrap-around. *)

Definition uwrap (w : Z) (x : Z) : Z := x mod 2 ^ w.
Definition swrap (w : Z) (x : Z) : Z := (x + 2 ^ (w - 1)) mod 2 ^ w - 2 ^ (w - 1).

Abbreviation u8 := (uwrap 8).
Abbreviation u16 := (uwrap 16).
Abbreviation u32 := (uwrap 32).
Abbreviation u64 := (uwrap 64).
Abbreviation s8 := (swrap 8).
Abbreviation s16 := (swrap 16).
Abbreviation s32 := (swrap 32).
Abbreviation s64 := (swrap 64).

Definition is_u (w x : Z) : Prop := 0 <= x < 2 ^ w.
Definition is_s (w x : Z) : Prop := - 2 ^ (w - 1) <= x < 2 ^ (w - 1).

#[global] Instance is_u_dec w x : Decision (is_u w x).
Proof. unfold is_u. apply _. Defined.
#[global] Instance is_s_dec w x : Decision (is_s w x).
Proof. unfold is_s. apply _. Defined.

Definition int32_max : Z := 2 ^ 31 - 1.
Definition int64_max : Z := 2 ^ 63 - 1.
Definition int64_min : Z := - 2 ^ 63.

Lemma pow2_pos w : 0 <= w -> 0 < 2 ^ w.
Proof. intros. apply Z.pow_pos_nonneg; lia. Qed.

Lemma pow2_half w : 1 <= w -> 2 ^ w = 2 * 2 ^ (w - 1).
Proof. intros. rewrite <- Z.pow_succ_r by lia. f_equal. lia. Qed.

Lemma uwrap_range w x : 0 <= w -> is_u w (uwrap w x).
Proof. intros. apply Z.mod_pos_bound, pow2_pos; lia. Qed.

Lemma uwrap_id w x : is_u w x -> uwrap w x = x.
Proof. apply Z.mod_small. Qed.

Lemma swrap_range w x : 1 <= w -> is_s w (swrap w x).
Proof.
  intros Hw. unfold is_s, swrap. pose proof (pow2_half w Hw).
  pose proof (Z.mod_pos_bound (x + 2 ^ (w - 1)) (2 ^ w) (pow2_pos w ltac:(lia))).
  lia.
Qed.

Lemma swrap_id w x : 1 <= w -> is_s w x -> swrap w x = x.
Proof.
  intros Hw [? ?]. unfold swrap. pose proof (pow2_half w Hw).
  rewrite Z.mod_small; lia.
Qed.

(** A signed conversion only looks at the low w bits. *)
Lemma swrap_uwrap w x : 1 <= w -> swrap w (uwrap w x) = swrap w x.
Proof.
  intros. unfold swrap, uwrap. f_equal.
  rewrite Zplus_mod_idemp_l. done.
Qed.

(** Wrap-around commutes with addition. *)
Lemma swrap_add_l w x y : swrap w (swrap w x + y) = swrap w (x + y).
Proof.
  unfold swrap. f_equal. set (h := 2 ^ (w - 1)).
  replace ((x + h) mod 2 ^ w - h + y + h) with ((x + h) mod 2 ^ w + y) by lia.
  rewrite Zplus_mod_idemp_l. f_equal. lia.
Qed.

(** Narrowing after a conversion to a wider unsigned type. *)
Lemma swrap_uwrap_le w w' x : 1 <= w <= w' -> swrap w (uwrap w' x) = swrap w x.
Proof.
  intros. unfold swrap, uwrap. f_equal.
  pose proof (pow2_pos w ltac:(lia)). pose proof (pow2_pos (w' - w) ltac:(lia)).
  replace (2 ^ w') with (2 ^ w * 2 ^ (w' - w))
    by (rewrite <- Z.pow_add_r by lia; f_equal; lia).
  rewrite Z.rem_mul_r, <- Z.add_assoc, (Z.add_comm (_ * _)), Z.add_assoc by lia.
  rewrite (Z.mul_comm (2 ^ w)), Z_mod_plus_full, Zplus_mod_idemp_l. done.
Qed.

Lemma swrap_cases w x : 1 <= w -> is_u w x ->
  swrap w x = if decide (x < 2 ^ (w - 1)) then x else x - 2 ^ w.
Proof.
  intros Hw [? ?]. pose proof (pow2_half w Hw). case_decide.
  - apply swrap_id; unfold is_s; lia.
  - unfold swrap.
    replace (x + 2 ^ (w - 1)) with (x - 2 ^ (w - 1) + 1 * 2 ^ w) by lia.
    rewrite Z_mod_plus_full, Z.mod_small; lia.
Qed.

Lemma uwrap_neg w x : 0 <= w -> - 2 ^ w <= x < 0 -> uwrap w x = x + 2 ^ w.
Proof.
  intros. unfold uwrap. rewrite <- (Z_mod_plus_full x 1), Z.mod_small; lia.
Qed.

(** Bring a constant power of two into view of [lia]. *)
Ltac pow2s :=
  repeat match goal with
  | H : context [2 ^ ?n] |- _ =>
      let v := eval vm_compute in (2 ^ n) in
      lazymatch v with Zpos _ => change (2 ^ n) with v in H end
  | |- context [2 ^ ?n] =>
      let v := eval vm_compute in (2 ^ n) in
      lazymatch v with Zpos _ => change (2 ^ n) with v end
  end.

(** Range goals and hypotheses over constant widths, decided by [lia]. *)
Ltac ranges :=
  unfold is_u, is_s, int32_max, int64_max, int64_min in *;
  cbn [Z.sub Z.add Z.opp Z.pos_sub Pos.pred_double] in *; pow2s; lia.

(** Closed facts about concrete integers, by evaluation. *)
Ltac concrete :=
  vm_compute; repeat split; solve [reflexivity | discriminate | intros ?; discriminate].

Create HintDb ints.
#[export] Hint Rewrite uwrap_id swrap_id using ranges : ints.
#[export] Hint Resolve uwrap_range swrap_range : ints.

(** Disjoint bits add up: the low part of a word joined with a shifted one. *)
Lemma lor_shiftl_add r x s :
  0 <= s -> 0 <= r < 2 ^ s -> 0 <= x -> Z.lor r (x ≪ s) = r + x * 2 ^ s.
Proof.
  intros Hs Hr Hx.
  assert (Hland : Z.land r (x ≪ s) = 0).
  { apply Z.bits_inj'. intros n Hn. rewrite Z.land_spec, Z.bits_0.
    destruct (decide (n < s)).
    - rewrite (Z.shiftl_spec_low x) by lia. apply andb_false_r.
    - rewrite <- (Z.mod_small r (2 ^ s)), Z.mod_pow2_bits_high by lia. done. }
  rewrite <- Z.lxor_lor, <- Z.add_nocarry_lxor, Z.shiftl_mul_pow2 by done. done.
Qed.

(** Complementing all bits of a w-bit word. *)
Lemma lxor_ones w x : 0 <= w -> is_u w x -> Z.lxor x (2 ^ w - 1) = 2 ^ w - 1 - x.
Proof.
  intros Hw [? ?]. replace (2 ^ w - 1) with (Z.ones w) by (rewrite Z.ones_equiv; lia).
  assert (Hd : Z.ldiff x (Z.ones w) = 0).
  { destruct (decide (x = 0)) as [->|]; [done|].
    apply Z.ldiff_ones_r_low; [lia|]. apply Z.log2_lt_pow2; lia. }
  rewrite Z.sub_nocarry_ldiff by done.
  apply Z.bits_inj'. intros n Hn. rewrite Z.lxor_spec, Z.ldiff_spec.
  apply (f_equal (fun z => Z.testbit z n)) in Hd.
  rewrite Z.ldiff_spec, Z.bits_0 in Hd.
  destruct (Z.testbit x n), (Z.testbit (Z.ones w) n); done.
Qed.

(** ** Bytes

    A byte is a [Z] in [0, 256); an iobuf is identified with the sequence of the
    bytes its fragments hold, except where the fragments are the subject. *)

Abbreviation byte := Z (only parsing).
Abbreviation bytes := (list Z) (only parsing).

Definition blen {A} (b : list A) : Z := Z.of_nat (length b).
#[global] Arguments blen {_} _ : simpl never.

Lemma blen_nonneg {A} (b : list A) : 0 <= blen b.
Proof. unfold blen. lia. Qed.

Lemma blen_app {A} (a b : list A) : blen (a ++ b) = blen a + blen b.
Proof. unfold blen. rewrite length_app. lia. Qed.

Lemma blen_cons {A} (x : A) b : blen (x :: b) = 1 + blen b.
Proof. unfold blen. cbn. lia. Qed.

Definition btake {A} (n : Z) (b : list A) : list A := take (Z.to_nat n) b.
Definition bdrop {A} (n : Z) (b : list A) : list A := drop (Z.to_nat n) b.

Lemma btake_app {A} (a b : list A) : btake (blen a) (a ++ b) = a.
Proof. unfold btake, blen. rewrite Nat2Z.id, take_app_length. done. Qed.

Lemma bdrop_app {A} (a b : list A) : bdrop (blen a) (a ++ b) = b.
Proof. unfold bdrop, blen. rewrite Nat2Z.id, drop_app_length. done. Qed.

Lemma blen_btake {A} n (b : list A) : 0 <= n <= blen b -> blen (btake n b) = n.
Proof. unfold blen, btake. intros. rewrite length_take. lia. Qed.

Lemma blen_bdrop {A} n (b : list A) : 0 <= n <= blen b -> blen (bdrop n b) = blen b - n.
Proof. unfold blen, bdrop. intros. rewrite length_drop. lia. Qed.

Lemma bdrop_bdrop {A} n m (b : list A) :
  0 <= n -> 0 <= m -> bdrop m (bdrop n b) = bdrop (n + m) b.
Proof. intros. unfold bdrop. rewrite drop_drop. f_equal. lia. Qed.

#[export] Hint Rewrite @blen_app @btake_app @bdrop_app : bytes.

(** ** Lists *)

Lemma filter_all {A} (P : A -> Prop) `{forall x, Decision (P x)} (l : list A) :
  (forall x, x ∈ l -> P x) -> filter P l = l.
Proof.
  induction l as [|x l IH]; intros Hl; [done|]. rewrite filter_cons_True by (apply Hl; by left).
  f_equal. apply IH. intros y Hy. apply Hl. by right.
Qed.

Lemma filter_none {A} (P : A -> Prop) `{forall x, Decision (P x)} (l : list A) :
  (forall x, x ∈ l -> ~ P x) -> filter P l = [].
Proof.
  induction l as [|x l IH]; intros Hl; [done|]. rewrite filter_cons_False by (apply Hl; by left).
  apply IH. intros y Hy. apply Hl. by right.
Qed.

