(* ===== verification/Vint.v ===== *)
(** * Variable-length integers (utils/vint.h)

    Module [unsigned_vint] is the LEB128 codec of the namespace of that name and
    module [vint] the zigzag codec built on it, which is the one the Kafka record
    format uses.  The buffer [out] of [serialize] is the list of the bytes the
    function writes, and its return value [bytes_used] the length of that list.

    [serialize_loop] and [size_loop] carry fuel.  Each round shifts the value
    right by seven bits, so ten rounds exhaust any 64-bit value; the theorems
    below are about the result with that fuel, and [serialize_loop_done] shows
    that the loop then ends by its own condition. *)

From S2P Require Import Prelude.

Module unsigned_vint.

Definition max_length : Z := 5.

Record var_decoder := {
  result : Z;
  bytes_read : Z;
  shift : Z;
  limit : Z;
}.

Definition new_decoder (limit : Z) : var_decoder :=
  {| result := 0; bytes_read := 0; shift := 0; limit := limit |}.

(** [accept]: [true] when the outer loop should break. *)
Definition accept (d : var_decoder) (byte : Z) : bool * var_decoder :=
  if shift d >? limit d then (true, d)
  else if negb (Z.land byte 128 =? 0) then
    (false, {| result := Z.lor (result d) (u64 (Z.land byte 127 ≪ shift d));
               bytes_read := bytes_read d + 1;
               shift := shift d + 7;
               limit := limit d |})
  else
    (true, {| result := Z.lor (result d) (u64 (byte ≪ shift d));
              bytes_read := bytes_read d + 1;
              shift := shift d;
              limit := limit d |}).

Fixpoint deserialize_loop (d : var_decoder) (r : bytes) : var_decoder :=
  match r with
  | [] => d
  | b :: r => let '(stop, d') := accept d b in
              if stop : bool then d' else deserialize_loop d' r
  end.

(** [detail::deserialize]. *)
Definition deserialize_detail (r : bytes) (max_bytes : Z) : Z * Z :=
  let d := deserialize_loop (new_decoder ((max_bytes - 1) * 7)) r in
  (result d, bytes_read d).

(** The [do ... while (value >= 0x80)] loop and the byte after it. *)
Fixpoint serialize_loop (fuel : nat) (value : Z) : option bytes :=
  match fuel with
  | O => None
  | S fuel =>
      let b := u8 (Z.lor value 0x80) in
      let value := value ≫ 7 in
      if value >=? 0x80 then cons b <$> serialize_loop fuel value
      else Some [b; u8 value]
  end.

Definition serialize (value : Z) : bytes :=
  if value <? 0x80 then [u8 value]
  else
    let b0 := u8 (Z.lor value 0x80) in
    let value := value ≫ 7 in
    if value <? 0x80 then [b0; u8 value]
    else b0 :: default [] (serialize_loop 10 value).

Definition deserialize (r : bytes) : Z * Z :=
  let '(result, bytes_read) := deserialize_detail r max_length in
  (u32 result, bytes_read).

Fixpoint size_loop (fuel : nat) (v len : Z) : Z :=
  match fuel with
  | O => len
  | S fuel => if v >=? 128 then size_loop fuel (v ≫ 7) (len + 1) else len
  end.

Definition size (v : Z) : Z := size_loop 10 v 1.

Definition to_bytes (value : Z) : bytes := serialize value.

(** ** The codec as a plain recursion

    [encode n v] is what [serialize] writes when the value has at most [n] groups
    of seven bits. *)

Fixpoint encode (n : nat) (v : Z) : bytes :=
  match n with
  | O => []
  | S n => if v <? 128 then [v] else (v mod 128 + 128) :: encode n (v / 128)
  end.

Lemma cont_byte v : 0 <= v -> u8 (Z.lor v 0x80) = v mod 128 + 128.
Proof.
  intros Hv. assert (0 <= v mod 128 < 128) by (apply Z.mod_pos_bound; lia).
  replace (v mod 128 + 128) with (v mod 128 + 1 * 2 ^ 7) by lia.
  rewrite <- lor_shiftl_add by (cbn; lia).
  apply Z.bits_inj'. intros n Hn. unfold uwrap. change 128 with (2 ^ 7).
  destruct (decide (n < 8)).
  - rewrite Z.mod_pow2_bits_low, !Z.lor_spec by lia.
    change 0x80 with (1 ≪ 7).
    destruct (decide (n < 7)); [by rewrite Z.mod_pow2_bits_low by lia|].
    assert (n = 7) as -> by lia. by rewrite !orb_true_r.
  - rewrite Z.mod_pow2_bits_high, Z.lor_spec, Z.mod_pow2_bits_high by lia.
    rewrite Z.shiftl_spec by lia. symmetry. apply Z.bits_above_log2; cbn; lia.
Qed.

Lemma shiftr7 v : v ≫ 7 = v / 128.
Proof. by rewrite Z.shiftr_div_pow2. Qed.

Lemma div128_pow v n : 0 <= v < 128 ^ Z.of_nat (S n) -> 0 <= v / 128 < 128 ^ Z.of_nat n.
Proof.
  rewrite Nat2Z.inj_succ, Z.pow_succ_r by lia. intros [? ?].
  split; [apply Z.div_pos; lia|]. apply Z.div_lt_upper_bound; lia.
Qed.

Lemma serialize_loop_done n v :
  0x80 <= v < 128 ^ Z.of_nat (S n) ->
  serialize_loop n v = Some (encode (S n) v).
Proof.
  revert v. induction n as [|n IH]; intros v Hv; [cbn in Hv; lia|].
  pose proof (div128_pow v (S n) ltac:(lia)) as Hd.
  cbn [serialize_loop]. rewrite cont_byte, shiftr7 by lia.
  rewrite Z.geb_leb. change (encode (S (S n)) v) with
    (if v <? 128 then [v] else (v mod 128 + 128) :: encode (S n) (v / 128)).
  destruct (Z.ltb_spec v 128); [lia|].
  destruct (Z.leb_spec 0x80 (v / 128)).
  - rewrite IH by lia. done.
  - cbn [encode]. destruct (Z.ltb_spec (v / 128) 128); [|lia].
    autorewrite with ints. done.
Qed.

Lemma pow128_10 : 2 ^ 64 < 128 ^ 10.
Proof. done. Qed.

Lemma div128_bound v : is_u 64 v -> 0 <= v / 128 < 2 ^ 57.
Proof.
  intros [? ?]. split; [apply Z.div_pos; lia|].
  apply Z.div_lt_upper_bound; [lia|]. by change (128 * 2 ^ 57) with (2 ^ 64).
Qed.

Lemma serialize_encode v : is_u 64 v -> serialize v = encode 12 v.
Proof.
  intros Hv. pose proof (div128_bound v Hv) as Hd. destruct Hv as [H0 H1].
  unfold serialize. rewrite cont_byte, shiftr7 by lia.
  change (encode 12 v) with
    (if v <? 128 then [v] else (v mod 128 + 128) :: encode 11 (v / 128)).
  destruct (Z.ltb_spec v 0x80) as [Hs|Hs].
  - by rewrite uwrap_id by ranges.
  - change (encode 11 (v / 128)) with
      (if v / 128 <? 128 then [v / 128]
       else (v / 128 mod 128 + 128) :: encode 10 (v / 128 / 128)).
    destruct (Z.ltb_spec (v / 128) 0x80) as [Hs2|Hs2].
    + by rewrite uwrap_id by ranges.
    + rewrite (serialize_loop_done 10).
      * cbn [default]. change (encode 11 (v / 128)) with
          (if v / 128 <? 128 then [v / 128]
           else (v / 128 mod 128 + 128) :: encode 10 (v / 128 / 128)).
        by destruct (Z.ltb_spec (v / 128) 128); [lia|].
      * split; [lia|]. change (128 ^ Z.of_nat 11) with (2 ^ 77). 
        assert (2 ^ 57 < 2 ^ 77) by done. lia.
Qed.

Lemma encode_fuel n m v :
  0 <= v < 128 ^ Z.of_nat (S n) -> 0 <= v < 128 ^ Z.of_nat (S m) ->
  encode (S n) v = encode (S m) v.
Proof.
  revert m v. induction n as [|n IH]; intros m v Hn Hm; cbn [encode];
    destruct (Z.ltb_spec v 128); try done.
  - cbn in Hn. lia.
  - apply div128_pow in Hn, Hm. f_equal. destruct m as [|m]; [|by apply IH].
    cbn in Hm. assert (1 <= v / 128) by (apply Z.div_le_lower_bound; lia). lia.
Qed.

Lemma u64_pow128 n v : is_u 64 v -> (9 <= n)%nat -> 0 <= v < 128 ^ Z.of_nat (S n).
Proof.
  intros [? ?] ?. split; [lia|]. pose proof pow128_10.
  assert (128 ^ 10 <= 128 ^ Z.of_nat (S n)) by (apply Z.pow_le_mono_r; lia). lia.
Qed.

(** Writing a 64-bit value is the recursion with ten groups. *)
Lemma serialize_eq v : is_u 64 v -> serialize v = encode 10 v.
Proof.
  intros Hv. rewrite serialize_encode by done.
  apply encode_fuel; apply u64_pow128; (done || lia).
Qed.

Lemma encode_length n v : (length (encode n v) <= n)%nat.
Proof.
  revert v. induction n as [|n IH]; intros v; cbn; [done|].
  destruct (v <? 128); cbn; [lia|]. specialize (IH (v / 128)). lia.
Qed.

Lemma encode_nonempty n v : encode (S n) v <> [].
Proof. cbn. by destruct (v <? 128). Qed.

Lemma size_loop_encode n v l :
  0 <= v < 128 ^ Z.of_nat (S n) ->
  size_loop n v l = l - 1 + blen (encode (S n) v).
Proof.
  revert v l. induction n as [|n IH]; intros v l Hv.
  - cbn in Hv |- *. unfold blen. destruct (Z.ltb_spec v 128); cbn; lia.
  - change (encode (S (S n)) v) with
      (if v <? 128 then [v] else (v mod 128 + 128) :: encode (S n) (v / 128)).
    cbn [size_loop]. rewrite Z.geb_leb, shiftr7.
    destruct (Z.leb_spec 128 v), (Z.ltb_spec v 128); try lia; [|unfold blen; cbn; lia].
    rewrite IH by (by apply div128_pow). unfold blen. cbn [length]. lia.
Qed.

(** [size] is the number of bytes [serialize] writes. *)
Lemma size_serialize v : is_u 64 v -> size v = blen (serialize v).
Proof.
  intros Hv. unfold size. rewrite serialize_eq, size_loop_encode by (apply u64_pow128; (done || lia)) || done.
  rewrite (encode_fuel 10 9); [lia|apply u64_pow128; (done || lia)..].
Qed.

Lemma size_loop_mono n v l : l <= size_loop n v l.
Proof.
  revert v l. induction n as [|n IH]; intros v l; cbn; [lia|].
  destruct (_ >=? _); [|lia]. specialize (IH (v ≫ 7) (l + 1)). lia.
Qed.

Lemma unsigned_size_bounds v : is_u 64 v -> 1 <= size v <= 10.
Proof.
  intros Hv. rewrite size_serialize, serialize_eq by done. unfold blen.
  pose proof (encode_length 10 v). pose proof (encode_nonempty 9 v).
  destruct (encode 10 v); cbn in *; [done|lia].
Qed.

(** The continuation bit of the bytes [encode] writes. *)
Lemma cont_bit_set x : 0 <= x < 128 -> Z.land (x + 128) 128 =? 0 = false.
Proof.
  intros. apply Z.eqb_neq. intros Hb.
  assert (Z.testbit (Z.land (x + 128) 128) 7 = true); [|by rewrite Hb in *].
  rewrite Z.land_spec. change (Z.testbit 128 7) with true. rewrite andb_true_r.
  rewrite Z.testbit_true by lia. change (2 ^ 7) with 128.
  replace (x + 128) with (x + 1 * 128) by lia.
  rewrite Z.div_add, Z.div_small by lia. done.
Qed.

Lemma cont_bit_clear x : 0 <= x < 128 -> Z.land x 128 =? 0 = true.
Proof.
  intros. apply Z.eqb_eq, Z.bits_inj'. intros n Hn.
  rewrite Z.land_spec, Z.bits_0. change 128 with (2 ^ 7).
  rewrite Z.pow2_bits_eqb by lia. destruct (Z.eqb_spec 7 n) as [<-|]; [|by rewrite andb_false_r].
  rewrite andb_true_r, Z.testbit_false by lia. change (2 ^ 7) with 128.
  by rewrite Z.div_small by lia.
Qed.

Lemma low_bits x : 0 <= x < 128 -> Z.land (x + 128) 127 = x.
Proof.
  intros. change 127 with (Z.ones 7). rewrite Z.land_ones by lia.
  change (2 ^ 7) with 128. replace (x + 128) with (x + 1 * 128) by lia.
  rewrite Z_mod_plus_full, Z.mod_small by lia. done.
Qed.

(** One group added to what the decoder holds. *)
Lemma decoder_group r x s :
  0 <= s -> 0 <= r < 2 ^ s -> 0 <= x -> r + x * 2 ^ s < 2 ^ 64 ->
  Z.lor r (u64 (x ≪ s)) = r + x * 2 ^ s.
Proof.
  intros. rewrite uwrap_id.
  - apply lor_shiftl_add; lia.
  - rewrite Z.shiftl_mul_pow2 by lia. split; [nia|lia].
Qed.

Lemma deserialize_loop_encode n v d rest :
  0 <= v < 128 ^ Z.of_nat n -> (0 < n)%nat ->
  0 <= shift d -> shift d + 7 * (Z.of_nat n - 1) <= limit d ->
  0 <= result d < 2 ^ shift d -> result d + v * 2 ^ shift d < 2 ^ 64 ->
  let d' := deserialize_loop d (encode n v ++ rest) in
  result d' = result d + v * 2 ^ shift d /\
  bytes_read d' = bytes_read d + blen (encode n v).
Proof.
  revert v d. induction n as [|n IH]; intros v d Hv Hn Hs Hl Hr Hb; [lia|].
  cbn [encode]. destruct (Z.ltb_spec v 128) as [Hlt|Hge]; cbn [app deserialize_loop];
    unfold accept; destruct (Z.gtb_spec (shift d) (limit d)); try lia.
  - rewrite cont_bit_clear by lia. cbn [negb]. rewrite decoder_group by lia.
    unfold blen. cbn. lia.
  - assert (Hm : 0 <= v mod 128 < 128) by (apply Z.mod_pos_bound; lia).
    pose proof (Z.div_mod v 128 ltac:(lia)) as Hdm.
    pose proof (div128_pow v n Hv) as Hv'.
    assert (0 < v / 128) by (apply Z.div_str_pos; lia).
    assert (Hp : 2 ^ (shift d + 7) = 128 * 2 ^ shift d)
      by (rewrite Z.pow_add_r by lia; lia).
    pose proof (pow2_pos (shift d) Hs) as Hpos.
    rewrite cont_bit_set, low_bits by lia. cbn [negb].
    assert (n <> 0%nat) by (intros ->; cbn in Hv'; lia).
    rewrite decoder_group by (try lia; nia).
    edestruct (IH (v / 128)) as [HR HB]; [| | | | | |split; [etrans; [exact HR|]|etrans; [exact HB|]]];
      cbn [result shift limit bytes_read]; try lia; rewrite ?Hp; try nia.
    unfold blen. cbn [length]. lia.
Qed.

(** Reading back what was written, when the length bound of the reader admits the
    value; whatever follows in the buffer is left alone. *)
Lemma deserialize_detail_serialize k v rest :
  is_u 64 v -> v < 128 ^ Z.of_nat (S k) ->
  deserialize_detail (serialize v ++ rest) (Z.of_nat (S k)) = (v, size v).
Proof.
  intros Hv Hk. pose proof Hv as [? ?]. unfold deserialize_detail.
  rewrite size_serialize, serialize_eq by done.
  rewrite (encode_fuel 9 k) by (done || (apply u64_pow128; (done || lia))).
  edestruct (deserialize_loop_encode (S k) v
    (new_decoder ((Z.of_nat (S k) - 1) * 7)) rest) as [HR HB];
    [done|lia|cbn -[Z.of_nat]; lia..|].
  f_equal; [etrans; [exact HR|]|etrans; [exact HB|]]; cbn; lia.
Qed.

(** The 32-bit reader of at most five bytes. *)
Lemma unsigned_deserialize_serialize v rest :
  is_u 32 v -> deserialize (to_bytes v ++ rest) = (v, size v).
Proof.
  intros Hv. unfold deserialize, to_bytes, max_length. change 5 with (Z.of_nat 5).
  rewrite deserialize_detail_serialize by (cbn; ranges).
  by rewrite uwrap_id.
Qed.

End unsigned_vint.

(** ** Zigzag integers (namespace vint) *)

Module vint.

Definition max_length : Z := 10.

Definition encode_zigzag (v : Z) : Z := Z.lxor (u64 (u64 v ≪ 1)) (u64 (v ≫ 63)).

Definition decode_zigzag (v : Z) : Z :=
  s64 (Z.lxor (v ≫ 1) (u64 (u64 (Z.lnot (Z.land v 1)) + 1))).

Definition vint_size (value : Z) : Z := unsigned_vint.size (encode_zigzag value).

Definition serialize (x : Z) : bytes := unsigned_vint.serialize (encode_zigzag x).

Definition deserialize (r : bytes) : Z * Z :=
  let '(result, bytes_read) := unsigned_vint.deserialize_detail r max_length in
  (decode_zigzag result, bytes_read).

Definition to_bytes (value : Z) : bytes := serialize value.

(** The code as arithmetic: non-negative numbers are doubled, negative ones take
    the odd codes. *)
Lemma encode_zigzag_eq v : is_s 64 v ->
  encode_zigzag v = if decide (0 <= v) then 2 * v else - 2 * v - 1.
Proof.
  intros Hv. unfold encode_zigzag. rewrite Z.shiftl_mul_pow2 by lia.
  change (2 ^ 1) with 2. case_decide.
  - assert (v ≫ 63 = 0) as -> by (rewrite Z.shiftr_div_pow2 by lia; apply Z.div_small; ranges).
    rewrite (uwrap_id 64 v), (uwrap_id 64 0), uwrap_id by ranges. rewrite Z.lxor_0_r. lia.
  - assert (v ≫ 63 = -1) as ->.
    { rewrite Z.shiftr_div_pow2 by lia. symmetry.
      apply (Z.div_unique _ _ _ (v + 2 ^ 63)); ranges. }
    change (u64 (-1)) with (2 ^ 64 - 1).
    rewrite (uwrap_neg 64 v) by ranges.
    assert (u64 ((v + 2 ^ 64) * 2) = 2 * v + 2 ^ 64) as ->.
    { unfold uwrap. symmetry. apply (Z.mod_unique _ _ 1); ranges. }
    rewrite lxor_ones by ranges. lia.
Qed.

Lemma encode_zigzag_range v : is_s 64 v -> is_u 64 (encode_zigzag v).
Proof. intros. rewrite encode_zigzag_eq by done. case_decide; ranges. Qed.

Lemma decode_zigzag_eq v : is_u 64 v ->
  decode_zigzag v = if decide (v mod 2 = 0) then v / 2 else - (v / 2) - 1.
Proof.
  intros Hv. unfold decode_zigzag.
  rewrite Z.shiftr_div_pow2 by lia. change (2 ^ 1) with 2.
  change 1 with (Z.ones 1) at 1. rewrite Z.land_ones by lia. change (2 ^ 1) with 2.
  assert (0 <= v / 2 < 2 ^ 63)
    by (split; [apply Z.div_pos|apply Z.div_lt_upper_bound]; ranges).
  assert (v mod 2 = 0 \/ v mod 2 = 1) as [E|E]
    by (pose proof (Z.mod_pos_bound v 2); lia); rewrite E; case_decide; try lia.
  - change (u64 (u64 (Z.lnot 0) + 1)) with 0. rewrite Z.lxor_0_r, swrap_id by ranges. done.
  - change (u64 (u64 (Z.lnot 1) + 1)) with (2 ^ 64 - 1).
    rewrite lxor_ones, swrap_cases by ranges. case_decide; ranges.
Qed.

(** The zigzag code is a bijection between signed and unsigned 64-bit words. *)
Lemma decode_encode_zigzag v : is_s 64 v -> decode_zigzag (encode_zigzag v) = v.
Proof.
  intros Hv. rewrite decode_zigzag_eq by (by apply encode_zigzag_range).
  rewrite encode_zigzag_eq by done. repeat case_decide; Z.div_mod_to_equations; lia.
Qed.

Lemma encode_decode_zigzag v : is_u 64 v -> encode_zigzag (decode_zigzag v) = v.
Proof.
  intros Hv. rewrite decode_zigzag_eq by done.
  assert (0 <= v / 2 < 2 ^ 63)
    by (split; [apply Z.div_pos|apply Z.div_lt_upper_bound]; ranges).
  rewrite encode_zigzag_eq by (case_decide; ranges).
  repeat case_decide; Z.div_mod_to_equations; lia.
Qed.

Lemma size_bounds v : is_s 64 v -> 1 <= vint_size v <= max_length.
Proof. intros. by apply unsigned_vint.unsigned_size_bounds, encode_zigzag_range. Qed.

Lemma length_serialize v : is_s 64 v -> blen (serialize v) = vint_size v.
Proof.
  intros. unfold vint_size, serialize.
  by rewrite unsigned_vint.size_serialize by (by apply encode_zigzag_range).
Qed.

Lemma deserialize_serialize v rest :
  is_s 64 v -> deserialize (serialize v ++ rest) = (v, vint_size v).
Proof.
  intros Hv. pose proof (encode_zigzag_range v Hv). unfold deserialize, serialize.
  change max_length with (Z.of_nat 10).
  rewrite unsigned_vint.deserialize_detail_serialize; [|done|].
  - by rewrite decode_encode_zigzag.
  - pose proof unsigned_vint.pow128_10. change (Z.of_nat 10) with 10. ranges.
Qed.

(** [serialize] writes nothing but the value: no two values share a code word. *)
Lemma serialize_inj v w r1 r2 :
  is_s 64 v -> is_s 64 w -> serialize v ++ r1 = serialize w ++ r2 -> v = w /\ r1 = r2.
Proof.
  intros Hv Hw E. assert (v = w) as ->.
  { pose proof (deserialize_serialize v r1 Hv) as E1.
    rewrite E, deserialize_serialize in E1 by done. by simplify_eq. }
  split; [done|]. by apply app_inv_head in E.
Qed.

(** Reading never claims more than the buffer holds, and at most ten bytes. *)
Lemma deserialize_loop_read d r :
  unsigned_vint.bytes_read d <=
    unsigned_vint.bytes_read (unsigned_vint.deserialize_loop d r) <=
    unsigned_vint.bytes_read d + blen r.
Proof.
  revert d. unfold blen. induction r as [|b r IH]; intros d; cbn; [lia|].
  unfold unsigned_vint.accept.
  destruct (_ >? _); [lia|]. destruct (negb _); [|cbn; lia].
  match goal with |- context [unsigned_vint.deserialize_loop ?x r] =>
    pose proof (IH x) as Hr end.
  cbn in Hr. lia.
Qed.

Lemma deserialize_read r v n : deserialize r = (v, n) -> 0 <= n <= blen r.
Proof.
  unfold deserialize, unsigned_vint.deserialize_detail. intros E; simplify_eq.
  apply (deserialize_loop_read (unsigned_vint.new_decoder _) r).
Qed.

Lemma deserialize_nil : deserialize [] = (0, 0).
Proof. done. Qed.

Lemma deserialize_loop_max d r :
  0 <= unsigned_vint.shift d -> unsigned_vint.bytes_read d * 7 = unsigned_vint.shift d ->
  unsigned_vint.bytes_read (unsigned_vint.deserialize_loop d r) * 7
    <= Z.max (unsigned_vint.limit d + 7) (unsigned_vint.shift d).
Proof.
  revert d. induction r as [|b r IH]; intros d Hs Hr; cbn; [lia|]. unfold unsigned_vint.accept.
  destruct (Z.gtb_spec (unsigned_vint.shift d) (unsigned_vint.limit d)); [lia|].
  destruct (negb _); [|cbn; lia].
  match goal with |- context [unsigned_vint.deserialize_loop ?x r] => pose proof (IH x) as IHr end.
  cbn in IHr. lia.
Qed.

(** The zigzag varint is a prefix code for the signed 64-bit integers: each has a code
    word of one to ten bytes, of the announced size, which is read back exactly
    whatever follows it, and different integers have different code words none of
    which starts another. *)
Theorem vint_is_prefix_code v w r1 r2 :
  is_s 64 v -> is_s 64 w ->
  deserialize (serialize v ++ r1) = (v, vint_size v) /\
  blen (serialize v) = vint_size v /\ 1 <= vint_size v <= max_length /\
  (serialize v ++ r1 = serialize w ++ r2 -> v = w /\ r1 = r2).
Proof.
  intros Hv Hw. split_and!; [by apply deserialize_serialize|by apply length_serialize|
    apply size_bounds, Hv..|by apply serialize_inj].
Qed.

Lemma vint_is_prefix_code_witness :
  deserialize (serialize (-300) ++ [7]) = (-300, vint_size (-300)) /\ vint_size (-300) = 2.
Proof.
  split; [apply (vint_is_prefix_code (-300) 5 [7] []); ranges|vm_compute; reflexivity].
Defined.

(** Reading a varint is safe on every buffer: the value is a signed 64-bit integer, and
    no more than ten bytes, nor more than there are, are consumed. *)
Theorem vint_read_bounded r :
  is_s 64 (deserialize r).1 /\ 0 <= (deserialize r).2 <= Z.min max_length (blen r).
Proof.
  split; [apply swrap_range; lia|]. destruct (deserialize r) as [v n] eqn:E. cbn [snd].
  pose proof (deserialize_read r v n E) as Hn.
  unfold deserialize, unsigned_vint.deserialize_detail in E. injection E as _ <-.
  pose proof (deserialize_loop_max (unsigned_vint.new_decoder ((max_length - 1) * 7)) r) as Hm.
  cbn -[unsigned_vint.deserialize_loop] in Hm. unfold max_length in *. lia.
Qed.

End vint.
