(* ===== verification/IobufParser.v ===== *)
(** * Reading a fragmented buffer (bytes/iobuf_parser.h and what it is built on)

    An iobuf is a list of fragments.  Module [io_iterator_consumer] is the cursor
    of bytes/details/io_iterator_consumer.h over such a list, and module
    [iobuf_parser] the two parsers of bytes/iobuf_parser.h: [iobuf_parser], which
    owns its buffer and hands out shared slices, and [iobuf_const_parser], which
    reads a buffer in place and hands out copies.

    The class [Parser] lists the operations the templates of
    model/record_utils.cc ask of their [Parser] argument; [ParserLaws] says what
    they rely on: the parser behaves as a cursor over one flat byte string.  The
    refinement lemmas of this file are the instances of [ParserLaws] for the two
    fragmented parsers. *)

From S2P Require Import Prelude Vint.

(** ** The interface *)

Class Parser (P : Type) := {
  bytes_left : P -> Z;
  bytes_consumed : P -> Z;
  byte_range : P -> bytes;
  skip : Z -> P -> res P;
  consume_to : Z -> P -> res (bytes * P);
  parser_data : Z -> P -> res (bytes * P);
}.

(** [view p r k]: the bytes still to be read from [p] are [r], and [k] bytes have
    been read. *)
Class ParserLaws (P : Type) `{Parser P} := {
  view : P -> bytes -> Z -> Prop;
  view_left p r k : view p r k -> bytes_left p = blen r;
  view_consumed p r k : view p r k -> bytes_consumed p = k;
  view_range p r k : view p r k -> byte_range p = r;
  skip_ok p r k n : view p r k -> 0 <= n <= blen r ->
    exists p', skip n p = Ok p' /\ view p' (bdrop n r) (k + n);
  skip_err p r k n : view p r k -> blen r < n -> skip n p = Throw out_of_range;
  consume_to_ok p r k n : view p r k -> 0 <= n <= blen r ->
    exists p', consume_to n p = Ok (btake n r, p') /\ view p' (bdrop n r) (k + n);
  consume_to_err p r k n : view p r k -> blen r < n ->
    consume_to n p = Throw out_of_range;
  parser_data_ok p r k n : view p r k -> 0 <= n <= blen r -> n <= int32_max ->
    exists p', parser_data n p = Ok (btake n r, p') /\ view p' (bdrop n r) (k + n);
}.

(** [iobuf_parser_base::read_varlong]. *)
Definition read_varlong `{Parser P} (p : P) : res (Z * Z * P) :=
  let '(val, length_size) := vint.deserialize (byte_range p) in
  p ← skip length_size p; Ok (val, u8 length_size, p).

(** [iobuf_parser_base::read_unsigned_varint]. *)
Definition read_unsigned_varint `{Parser P} (p : P) : res (Z * Z * P) :=
  let '(val, length_size) := unsigned_vint.deserialize (byte_range p) in
  p ← skip length_size p; Ok (val, u8 length_size, p).

(** The value of [n] bytes in little-endian order, as [consume_type] reads an
    integer on the machines redpanda runs on, and in big-endian order. *)
Fixpoint le_value (b : bytes) : Z :=
  match b with [] => 0 | x :: b => x + 256 * le_value b end.
Definition be_value (b : bytes) : Z := le_value (rev b).

Definition consume_type `{Parser P} (width : Z) (p : P) : res (Z * P) :=
  '(b, p) ← consume_to (width / 8) p; Ok (le_value b, p).

Definition consume_be_type `{Parser P} (width : Z) (p : P) : res (Z * P) :=
  '(b, p) ← consume_to (width / 8) p; Ok (be_value b, p).

(** ** The cursor over fragments *)

Module io_iterator_consumer.

(** [frags] is [_frag, _frag_end), its head cut down to
    [_frag_index, _frag_index_end); an exhausted cursor has no fragment. *)
Record consumer := {
  frags : list bytes;
  consumed : Z;
}.

Definition make (begin_end : list bytes) : consumer :=
  {| frags := begin_end; consumed := 0 |}.

Section consume.
Context {A : Type} (f : A -> bytes -> A * bool).

(** The loop of [consume]; [f] returns [true] for [stop_iteration::yes]. *)
Fixpoint consume_loop (fuel : nat) (n i : Z) (acc : A) (c : consumer)
    : option (Z * A * consumer) :=
  match fuel with
  | O => None
  | S fuel =>
      if i <? n then
        match frags c with
        | [] => Some (i, acc, c)
        | [] :: fs => consume_loop fuel n i acc {| frags := fs; consumed := consumed c |}
        | b :: fs =>
            let step := Z.min (n - i) (blen b) in
            let '(acc, stop) := f acc (btake step b) in
            let c := {| frags := bdrop step b :: fs; consumed := consumed c + step |} in
            if stop : bool then Some (i + step, acc, c)
            else consume_loop fuel n (i + step) acc c
        end
      else Some (i, acc, c)
  end.

(** Leaving the loop at the end of a fragment moves on to the next one. *)
Definition next_frag (c : consumer) : consumer :=
  match frags c with
  | [] :: fs => {| frags := fs; consumed := consumed c |}
  | _ => c
  end.

(** A fragment takes at most two rounds, one to read it and one to leave it. *)
Definition consume (n : Z) (acc : A) (c : consumer) : Z * A * consumer :=
  match consume_loop (2 * length (frags c) + 2) n 0 acc c with
  | Some (i, acc, c) => (i, acc, next_frag c)
  | None => (0, acc, c)
  end.
End consume.

Definition skip (n : Z) (c : consumer) : res consumer :=
  let '(k, _, c) := consume (fun (_ : unit) _ => (tt, false)) n tt c in
  if k =? n then Ok c else Throw out_of_range.

Definition consume_to (n : Z) (c : consumer) : res (bytes * consumer) :=
  let '(k, out, c) := consume (fun out src => (out ++ src, false)) n [] c in
  if k =? n then Ok (out, c) else Throw out_of_range.

(** [begin()] to [end()] of the byte iterator (details/io_byte_iterator.h). *)
Fixpoint byte_iterator (fs : list bytes) : bytes :=
  match fs with [] => [] | b :: fs => b ++ byte_iterator fs end.

(** *** Refinement to a flat cursor *)

Definition unread (c : consumer) : bytes := concat (frags c).

Lemma byte_iterator_unread c : byte_iterator (frags c) = unread c.
Proof. unfold unread. induction (frags c); cbn; congruence. Qed.

Lemma unread_next_frag c : unread (next_frag c) = unread c.
Proof. destruct c as [[|[|x b] fs] k]; done. Qed.

Lemma consumed_next_frag c : consumed (next_frag c) = consumed c.
Proof. destruct c as [[|[|x b] fs] k]; done. Qed.

Lemma consumed_parts {A} n (b fs : list A) :
  0 <= n ->
  btake n (b ++ fs) = btake (Z.min n (blen b)) b ++ btake (n - Z.min n (blen b)) fs /\
  bdrop n (b ++ fs) = bdrop (Z.min n (blen b)) b ++ bdrop (n - Z.min n (blen b)) fs.
Proof.
  intros. unfold btake, bdrop, blen. rewrite take_app, drop_app.
  split; (f_equal; [|f_equal; lia]).
  - destruct (decide (n <= Z.of_nat (length b))); [f_equal; lia|].
    rewrite !take_ge by lia. done.
  - destruct (decide (n <= Z.of_nat (length b))); [f_equal; lia|].
    rewrite !drop_ge by lia. done.
Qed.

(** Rounds the loop needs: two for a fragment with bytes left, one for an empty
    one. *)
Fixpoint rounds (fs : list bytes) : nat :=
  match fs with
  | [] => 0
  | [] :: fs => 1 + rounds fs
  | _ :: fs => 2 + rounds fs
  end.

Lemma rounds_le fs : (rounds fs <= 2 * length fs)%nat.
Proof. induction fs as [|[|x b] fs IH]; cbn in *; lia. Qed.

Section consume_refines.
Context {A : Type} (g : A -> bytes -> A).
Hypothesis g_nil : forall acc, g acc [] = acc.
Hypothesis g_app : forall acc a b, g (g acc a) b = g acc (a ++ b).

Abbreviation f := (fun acc src => (g acc src, false)).

Lemma consume_loop_spec fuel n i acc c :
  0 <= i <= n -> (0 < fuel)%nat -> (i < n -> (rounds (frags c) < fuel)%nat) ->
  let k := Z.min (n - i) (blen (unread c)) in
  exists c', consume_loop f fuel n i acc c = Some (i + k, g acc (btake k (unread c)), c') /\
    unread c' = bdrop k (unread c) /\ consumed c' = consumed c + k.
Proof.
  revert i acc c. induction fuel as [|fuel IH]; intros i acc [fs kc] Hi Hf Hr; [lia|].
  cbn [consume_loop frags consumed] in *. unfold unread; cbn [frags].
  destruct (Z.ltb_spec i n) as [Hlt|Hge].
  2:{ assert (Z.min (n - i) (blen (concat fs)) = 0) as ->
        by (pose proof (blen_nonneg (concat fs)); lia).
      eexists; split; [by rewrite g_nil, Z.add_0_r|]. cbn. split; [done|lia]. }
  destruct fs as [|[|x b] fs].
  - cbn. rewrite Z.min_r by (unfold blen; cbn; lia). change (blen []) with 0.
    eexists; split; [by rewrite g_nil, Z.add_0_r|]. split; [done|cbn; lia].
  - specialize (Hr ltac:(lia)). cbn [rounds] in Hr.
    destruct (IH i acc {| frags := fs; consumed := kc |}) as (c' & -> & Hu & Hc);
      [lia|lia|cbn; lia|]. by exists c'.
  - specialize (Hr ltac:(lia)). cbn [rounds] in Hr.
    set (b' := x :: b) in *. set (st := Z.min (n - i) (blen b')).
    assert (0 < blen b') by (unfold blen, b'; cbn; lia).
    assert (Hst : 0 < st <= blen b') by lia.
    destruct (IH (i + st) (g acc (btake st b'))
      {| frags := bdrop st b' :: fs; consumed := kc + st |}) as (c' & HR & Hu & Hc);
      [lia|lia| |].
    { intros Hlt'. cbn [frags]. assert (st = blen b') by lia.
      replace (bdrop st b') with (@nil Z); [cbn [rounds]; lia|].
      unfold bdrop. rewrite drop_ge; [done|unfold blen in *; lia]. }
    exists c'. rewrite HR. unfold unread in *. cbn [frags consumed concat] in *.
    pose proof (blen_nonneg (concat fs)).
    rewrite !blen_app, blen_bdrop in * by lia.
    set (k := Z.min (n - i) (blen b' + blen (concat fs))).
    assert (Hk' : Z.min (n - (i + st)) (blen b' - st + blen (concat fs)) = k - st) by lia.
    rewrite Hk' in *. rewrite g_app in *.
    assert (Hsplit : b' ++ concat fs = btake st b' ++ (bdrop st b' ++ concat fs))
      by (rewrite app_assoc; unfold btake, bdrop; by rewrite take_drop).
    assert (Hbt : blen (btake st b') = st) by (apply blen_btake; lia).
    destruct (consumed_parts k (btake st b') (bdrop st b' ++ concat fs)) as [Ht Hd]; [lia|].
    rewrite Hbt, Z.min_r in Ht, Hd by lia.
    assert (Hall : btake st (btake st b') = btake st b')
      by (unfold btake; rewrite take_take; f_equal; lia).
    assert (Hnone : bdrop st (btake st b') = [])
      by (unfold bdrop; rewrite drop_ge; [done|unfold blen in Hbt; lia]).
    rewrite Hsplit, Ht, Hd, Hall, Hnone.
    split; [f_equal; f_equal; f_equal; lia|]. split; [done|lia].
Qed.

Lemma consume_spec n acc c :
  0 <= n ->
  let k := Z.min n (blen (unread c)) in
  exists c', consume f n acc c = (k, g acc (btake k (unread c)), c') /\
    unread c' = bdrop k (unread c) /\ consumed c' = consumed c + k.
Proof.
  intros Hn. unfold consume.
  destruct (consume_loop_spec (2 * length (frags c) + 2) n 0 acc c) as (c' & -> & Hu & Hc);
    [lia|lia|pose proof (rounds_le (frags c)); lia|].
  rewrite Z.sub_0_r, Z.add_0_l in *.
  exists (next_frag c'). by rewrite unread_next_frag, consumed_next_frag.
Qed.
End consume_refines.

Lemma skip_spec n c :
  0 <= n <= blen (unread c) ->
  exists c', skip n c = Ok c' /\ unread c' = bdrop n (unread c) /\ consumed c' = consumed c + n.
Proof.
  intros Hn. unfold skip.
  destruct (consume_spec (fun (_ : unit) _ => tt)) with n tt c as (c' & -> & Hu & Hc);
    [by intros []|done|lia|].
  rewrite Z.min_l in * by lia. rewrite Z.eqb_refl. eauto.
Qed.

Lemma skip_short n c : blen (unread c) < n -> skip n c = Throw out_of_range.
Proof.
  intros Hn. unfold skip. pose proof (blen_nonneg (unread c)).
  destruct (consume_spec (fun (_ : unit) _ => tt)) with n tt c as (c' & -> & _);
    [by intros []|done|lia|].
  rewrite Z.min_r by lia. by destruct (Z.eqb_spec (blen (unread c)) n); [lia|].
Qed.

Lemma app_g_app {B} (acc a b : list B) : (acc ++ a) ++ b = acc ++ (a ++ b).
Proof. by rewrite app_assoc. Qed.

Lemma consume_to_spec n c :
  0 <= n <= blen (unread c) ->
  exists c', consume_to n c = Ok (btake n (unread c), c') /\
    unread c' = bdrop n (unread c) /\ consumed c' = consumed c + n.
Proof.
  intros Hn. unfold consume_to.
  destruct (consume_spec (fun out src : bytes => out ++ src)) with n (@nil Z) c
    as (c' & -> & Hu & Hc); [apply app_nil_r|apply app_g_app|lia|].
  rewrite Z.min_l in * by lia. rewrite Z.eqb_refl. eauto.
Qed.

Lemma consume_to_short n c : blen (unread c) < n -> consume_to n c = Throw out_of_range.
Proof.
  intros Hn. unfold consume_to. pose proof (blen_nonneg (unread c)).
  destruct (consume_spec (fun out src : bytes => out ++ src)) with n (@nil Z) c
    as (c' & -> & _); [apply app_nil_r|apply app_g_app|lia|].
  rewrite Z.min_r by lia. by destruct (Z.eqb_spec (blen (unread c)) n); [lia|].
Qed.

End io_iterator_consumer.

(** ** The parsers of iobuf_parser.h *)

Module iobuf.

(** [iobuf::share(pos, len)]: the fragments of a slice of the buffer. *)
Fixpoint share (fs : list bytes) (pos left : Z) : list bytes :=
  match fs with
  | [] => []
  | frag :: fs =>
      if left =? 0 then []
      else if pos >=? blen frag then share fs (pos - blen frag) left
      else
        let left_in_frag := blen frag - pos in
        if left >=? left_in_frag
        then btake left_in_frag (bdrop pos frag) :: share fs 0 (left - left_in_frag)
        else [btake left (bdrop pos frag)]
  end.

(** [io_allocation_size::ss_next_allocation_size]. *)
Definition max_chunk_size : Z := 128 * 1024.
Definition ss_max_small_allocation : Z := 16384.
Definition ss_next_allocation_size (size : Z) : Z :=
  if size <=? ss_max_small_allocation then size
  else Z.min (1 ≪ Z.log2 size) max_chunk_size.

Section copy.
(** What a freshly allocated buffer holds before it is written: the source copies
  fewer bytes than it allocates when the input ends early. *)
Variable uninit : nat -> byte.

(** One round of [iobuf_copy]: a new buffer of [sz] bytes filled from the cursor. *)
Definition fill_buffer (sz : Z) (c : io_iterator_consumer.consumer)
    : bytes * io_iterator_consumer.consumer :=
  let '(k, out, c) :=
    io_iterator_consumer.consume (fun out src => (out ++ src, false)) sz [] c in
  (out ++ (uninit <$> seq (Z.to_nat k) (Z.to_nat sz - Z.to_nat k)), c).

Fixpoint iobuf_copy_loop (fuel : nat) (bytes_left : Z) (acc : bytes)
    (c : io_iterator_consumer.consumer)
    : option (bytes * io_iterator_consumer.consumer) :=
  match fuel with
  | O => None
  | S fuel =>
      if bytes_left =? 0 then Some (acc, c)
      else
        let sz := ss_next_allocation_size bytes_left in
        let '(buf, c) := fill_buffer sz c in
        iobuf_copy_loop fuel (bytes_left - sz) (acc ++ buf) c
  end.

(** [iobuf_copy]; [bytes_left] is an [int], and a length that does not fit makes
  it negative, so that the loop allocates until memory is exhausted.  A round
  above the small-allocation bound takes at least that bound, which gives the
  fuel. *)
Definition iobuf_copy (len : Z) (c : io_iterator_consumer.consumer)
    : res (bytes * io_iterator_consumer.consumer) :=
  let bytes_left := s32 len in
  if bytes_left <? 0 then Throw bad_alloc
  else match iobuf_copy_loop (Z.to_nat (bytes_left / ss_max_small_allocation) + 3)
               bytes_left [] c with
       | Some r => Ok r
       | None => Throw bad_alloc
       end.
End copy.

(** *** Slices and copies are [btake]/[bdrop] on the flat contents *)

Lemma share_spec fs pos left :
  0 <= pos -> 0 <= left ->
  concat (share fs pos left) = btake left (bdrop pos (concat fs)).
Proof.
  revert pos left. induction fs as [|frag fs IH]; intros pos left Hp Hl; cbn [share concat].
  - unfold btake, bdrop. by rewrite drop_nil, take_nil.
  - pose proof (blen_nonneg frag). rewrite !Z.geb_leb.
    destruct (Z.eqb_spec left 0) as [->|Hnz]; [done|].
    destruct (io_iterator_consumer.consumed_parts pos frag (concat fs) Hp) as [_ ->].
    destruct (Z.leb_spec (blen frag) pos).
    { rewrite IH by lia. rewrite Z.min_r by lia. f_equal. unfold bdrop at 2.
      rewrite (drop_ge frag) by (unfold blen in *; lia). done. }
    rewrite Z.min_l, Z.sub_diag by lia. change (bdrop 0 (concat fs)) with (concat fs).
    destruct (io_iterator_consumer.consumed_parts left (bdrop pos frag) (concat fs) Hl) as [-> _].
    rewrite blen_bdrop by lia.
    destruct (Z.leb_spec (blen frag - pos) left).
    + rewrite Z.min_r by lia. cbn [concat]. by rewrite IH by lia.
    + rewrite Z.min_l, Z.sub_diag by lia. done.
Qed.

Lemma allocation_size_bounds n : 0 < n ->
  0 < ss_next_allocation_size n <= n /\
  Z.min n ss_max_small_allocation <= ss_next_allocation_size n.
Proof.
  intros Hn. unfold ss_next_allocation_size, ss_max_small_allocation, max_chunk_size.
  destruct (Z.leb_spec n 16384); [lia|].
  pose proof (Z.log2_spec n Hn) as [H1 H2].
  rewrite Z.shiftl_1_l. assert (16384 <= 2 ^ Z.log2 n).
  { change 16384 with (2 ^ 14). apply Z.pow_le_mono_r; [lia|].
    apply Z.log2_le_pow2; lia. }
  lia.
Qed.

Section copy_refines.
Variable uninit : nat -> byte.
Import io_iterator_consumer.

Lemma fill_buffer_spec sz c :
  0 <= sz <= blen (unread c) ->
  exists c', fill_buffer uninit sz c = (btake sz (unread c), c') /\
    unread c' = bdrop sz (unread c) /\ consumed c' = consumed c + sz.
Proof.
  intros Hs. unfold fill_buffer.
  destruct (consume_spec (fun out src : bytes => out ++ src)) with sz (@nil Z) c
    as (c' & -> & Hu & Hc); [apply app_nil_r|apply app_g_app|lia|].
  rewrite Z.min_l in * by lia. rewrite Nat.sub_diag. cbn [seq fmap list_fmap app].
  rewrite app_nil_r. eauto.
Qed.

Lemma iobuf_copy_loop_spec fuel n acc c :
  0 <= n <= blen (unread c) -> n <= (Z.of_nat fuel - 1) * ss_max_small_allocation ->
  exists c', iobuf_copy_loop uninit fuel n acc c = Some (acc ++ btake n (unread c), c') /\
    unread c' = bdrop n (unread c) /\ consumed c' = consumed c + n.
Proof.
  revert n acc c. induction fuel as [|fuel IH]; intros n acc c Hn Hf.
  { unfold ss_max_small_allocation in Hf. lia. }
  cbn [iobuf_copy_loop]. destruct (Z.eqb_spec n 0) as [->|Hnz].
  { exists c. change (btake 0 (unread c)) with (@nil Z).
    rewrite app_nil_r, Z.add_0_r. done. }
  pose proof (allocation_size_bounds n ltac:(lia)) as [Hsz Hmin].
  set (sz := ss_next_allocation_size n) in *.
  destruct (fill_buffer_spec sz c ltac:(lia)) as (c1 & -> & Hu1 & Hc1).
  destruct (IH (n - sz) (acc ++ btake sz (unread c)) c1) as (c2 & -> & Hu2 & Hc2).
  { rewrite Hu1, blen_bdrop by lia. lia. }
  { unfold ss_max_small_allocation in *. destruct (decide (sz = n)); lia. }
  exists c2. rewrite Hu2, Hc2, Hu1, Hc1, bdrop_bdrop by lia.
  replace (sz + (n - sz)) with n by lia.
  split; [|split; [done|lia]]. f_equal. f_equal.
  rewrite <- app_assoc. f_equal. symmetry.
  unfold btake, bdrop. rewrite take_take_drop. f_equal. lia.
Qed.

Lemma iobuf_copy_spec n c :
  0 <= n <= blen (unread c) -> n <= int32_max ->
  exists c', iobuf_copy uninit n c = Ok (btake n (unread c), c') /\
    unread c' = bdrop n (unread c) /\ consumed c' = consumed c + n.
Proof.
  intros Hn Hm. unfold iobuf_copy. rewrite swrap_id by ranges.
  destruct (Z.ltb_spec n 0); [lia|].
  destruct (iobuf_copy_loop_spec (Z.to_nat (n / ss_max_small_allocation) + 3) n [] c)
    as (c' & -> & H1 & H2); [done| |eauto].
  pose proof (Z.div_pos n ss_max_small_allocation).
  pose proof (Z.mul_succ_div_gt n ss_max_small_allocation).
  unfold ss_max_small_allocation in *. lia.
Qed.
End copy_refines.
End iobuf.

Module iobuf_parser.

(** [iobuf_parser_base]: the buffer, the cursor over it and its size. *)
Record base := {
  buf : list bytes;
  in_ : io_iterator_consumer.consumer;
  original_size : Z;
}.

Definition make (b : list bytes) : base :=
  {| buf := b; in_ := io_iterator_consumer.make b; original_size := blen (concat b) |}.

Definition set_in (p : base) (c : io_iterator_consumer.consumer) : base :=
  {| buf := buf p; in_ := c; original_size := original_size p |}.

Definition base_consumed (p : base) : Z := io_iterator_consumer.consumed (in_ p).
Definition base_left (p : base) : Z := original_size p - base_consumed p.
Definition base_skip (n : Z) (p : base) : res base :=
  set_in p <$> io_iterator_consumer.skip n (in_ p).
Definition base_consume_to (n : Z) (p : base) : res (bytes * base) :=
  '(b, c) ← io_iterator_consumer.consume_to n (in_ p); Ok (b, set_in p c).

(** [iobuf_parser::share] and [iobuf_parser_base::copy]: the two functions the
    record parsers are instantiated with. *)
Definition share (len : Z) (p : base) : res (bytes * base) :=
  let ret := concat (iobuf.share (buf p) (base_consumed p) len) in
  p ← base_skip len p; Ok (ret, p).

Definition copy (uninit : nat -> byte) (len : Z) (p : base) : res (bytes * base) :=
  '(b, c) ← iobuf.iobuf_copy uninit len (in_ p); Ok (b, set_in p c).

(** The owning parser and the parser of a constant buffer. *)
Record iobuf_parser := Owned { owned : base }.
Record iobuf_const_parser := ConstRef { cref : base }.

#[global] Instance owned_parser : Parser iobuf_parser := {
  bytes_left p := base_left (owned p);
  bytes_consumed p := base_consumed (owned p);
  byte_range p := io_iterator_consumer.byte_iterator (io_iterator_consumer.frags (in_ (owned p)));
  skip n p := Owned <$> base_skip n (owned p);
  consume_to n p := prod_map id Owned <$> base_consume_to n (owned p);
  parser_data n p := prod_map id Owned <$> share n (owned p);
}.

Definition const_parser (uninit : nat -> byte) : Parser iobuf_const_parser := {|
  bytes_left p := base_left (cref p);
  bytes_consumed p := base_consumed (cref p);
  byte_range p := io_iterator_consumer.byte_iterator (io_iterator_consumer.frags (in_ (cref p)));
  skip n p := ConstRef <$> base_skip n (cref p);
  consume_to n p := prod_map id ConstRef <$> base_consume_to n (cref p);
  parser_data n p := prod_map id ConstRef <$> copy uninit n (cref p);
|}.

(** *** Both are cursors over the flat contents *)

Definition base_view (p : base) (r : bytes) (k : Z) : Prop :=
  io_iterator_consumer.unread (in_ p) = r /\ base_consumed p = k /\
  original_size p = blen (concat (buf p)) /\
  0 <= k <= blen (concat (buf p)) /\ bdrop k (concat (buf p)) = r.

Lemma make_view b : base_view (make b) (concat b) 0.
Proof.
  pose proof (blen_nonneg (concat b)).
  repeat split; cbn; try done; lia.
Qed.

Lemma base_view_left p r k : base_view p r k -> base_left p = blen r.
Proof.
  intros (Hu & Hk & Ho & Hb & Hd). unfold base_left. rewrite Ho, Hk, <- Hd, blen_bdrop; lia.
Qed.

(** Moving the cursor of a parser by [n] bytes. *)
Lemma base_view_advance p r k n c :
  base_view p r k -> 0 <= n <= blen r ->
  io_iterator_consumer.unread c = bdrop n r -> io_iterator_consumer.consumed c = base_consumed p + n ->
  base_view (set_in p c) (bdrop n r) (k + n).
Proof.
  intros (Hu & Hk & Ho & Hb & Hd) Hn Hu' Hc'.
  assert (blen r = blen (concat (buf p)) - k) by (rewrite <- Hd, blen_bdrop; lia).
  repeat split; cbn; [done|unfold base_consumed in *; cbn; lia|done|lia|lia|].
  by rewrite <- Hd, bdrop_bdrop by lia.
Qed.

Lemma base_skip_ok p r k n : base_view p r k -> 0 <= n <= blen r ->
  exists p', base_skip n p = Ok p' /\ base_view p' (bdrop n r) (k + n) /\ buf p' = buf p.
Proof.
  intros Hv Hn. pose proof Hv as (Hu & _). rewrite <- Hu in Hn.
  destruct (io_iterator_consumer.skip_spec n (in_ p) Hn) as (c & Hs & Hu' & Hc').
  unfold base_skip. rewrite Hs. eexists. split; [done|]. rewrite Hu in *.
  split; [by eapply base_view_advance|done].
Qed.

Lemma base_skip_err p r k n : base_view p r k -> blen r < n ->
  base_skip n p = Throw out_of_range.
Proof.
  intros (Hu & _) Hn. unfold base_skip.
  by rewrite io_iterator_consumer.skip_short by (by rewrite Hu).
Qed.

Lemma base_consume_ok p r k n : base_view p r k -> 0 <= n <= blen r ->
  exists p', base_consume_to n p = Ok (btake n r, p') /\ base_view p' (bdrop n r) (k + n).
Proof.
  intros Hv Hn. pose proof Hv as (Hu & _). rewrite <- Hu in Hn.
  destruct (io_iterator_consumer.consume_to_spec n (in_ p) Hn) as (c & Hs & Hu' & Hc').
  unfold base_consume_to. rewrite Hs. cbn. rewrite Hu in *.
  eexists. split; [done|]. by eapply base_view_advance.
Qed.

Lemma base_consume_err p r k n : base_view p r k -> blen r < n ->
  base_consume_to n p = Throw out_of_range.
Proof.
  intros (Hu & _) Hn. unfold base_consume_to.
  by rewrite io_iterator_consumer.consume_to_short by (by rewrite Hu).
Qed.

Lemma share_ok p r k n : base_view p r k -> 0 <= n <= blen r ->
  exists p', share n p = Ok (btake n r, p') /\ base_view p' (bdrop n r) (k + n).
Proof.
  intros Hv Hn. destruct (base_skip_ok p r k n Hv Hn) as (p' & Hs & Hv' & _).
  pose proof Hv as (Hu & Hk & Ho & Hb & Hd).
  exists p'. split; [|done]. unfold share. rewrite Hs. cbn.
  rewrite iobuf.share_spec by lia. by rewrite Hk, Hd.
Qed.

Lemma copy_ok uninit p r k n : base_view p r k -> 0 <= n <= blen r -> n <= int32_max ->
  exists p', copy uninit n p = Ok (btake n r, p') /\ base_view p' (bdrop n r) (k + n).
Proof.
  intros Hv Hn Hm. pose proof Hv as (Hu & _). rewrite <- Hu in Hn.
  destruct (iobuf.iobuf_copy_spec uninit n (in_ p) Hn Hm) as (c & Hs & Hu' & Hc').
  unfold copy. rewrite Hs. cbn. rewrite Hu in *.
  eexists. split; [done|]. by eapply base_view_advance.
Qed.

#[global, refine] Instance owned_laws : ParserLaws iobuf_parser := {
  view p := base_view (owned p);
}.
Proof.
  - intros [p] r k. apply base_view_left.
  - intros [p] r k Hv. apply Hv.
  - intros [p] r k Hv. cbn. rewrite io_iterator_consumer.byte_iterator_unread. apply Hv.
  - intros [p] r k n Hv Hn. destruct (base_skip_ok p r k n Hv Hn) as (p' & E & Hv' & _).
    exists (Owned p'). cbn in *. by rewrite E.
  - intros [p] r k n Hv Hn. cbn in *. by rewrite (base_skip_err p r k).
  - intros [p] r k n Hv Hn. destruct (base_consume_ok p r k n Hv Hn) as (p' & E & Hv').
    exists (Owned p'). cbn in *. by rewrite E.
  - intros [p] r k n Hv Hn. cbn in *. by rewrite (base_consume_err p r k).
  - intros [p] r k n Hv Hn _. destruct (share_ok p r k n Hv Hn) as (p' & E & Hv').
    exists (Owned p'). cbn in *. by rewrite E.
Defined.

#[refine] Definition const_laws (uninit : nat -> byte) :
    @ParserLaws iobuf_const_parser (const_parser uninit) :=
  @Build_ParserLaws _ (const_parser uninit) (fun p => base_view (cref p)) _ _ _ _ _ _ _ _.
Proof.
  - intros [p] r k. apply base_view_left.
  - intros [p] r k Hv. apply Hv.
  - intros [p] r k Hv. cbn. rewrite io_iterator_consumer.byte_iterator_unread. apply Hv.
  - intros [p] r k n Hv Hn. destruct (base_skip_ok p r k n Hv Hn) as (p' & E & Hv' & _).
    exists (ConstRef p'). cbn in *. by rewrite E.
  - intros [p] r k n Hv Hn. cbn in *. by rewrite (base_skip_err p r k).
  - intros [p] r k n Hv Hn. destruct (base_consume_ok p r k n Hv Hn) as (p' & E & Hv').
    exists (ConstRef p'). cbn in *. by rewrite E.
  - intros [p] r k n Hv Hn. cbn in *. by rewrite (base_consume_err p r k).
  - intros [p] r k n Hv Hn Hm. destruct (copy_ok uninit p r k n Hv Hn Hm) as (p' & E & Hv').
    exists (ConstRef p'). cbn in *. by rewrite E.
Defined.

(** A parser made from a buffer starts at its first byte. *)
Lemma owned_make_view b : view (Owned (make b)) (concat b) 0.
Proof. exact (make_view b). Qed.

Lemma const_make_view uninit b :
  @view _ _ (const_laws uninit) (ConstRef (make b)) (concat b) 0.
Proof. exact (make_view b). Qed.

(** *** Fragmentation cannot be observed *)

(** The requests a client makes of an owning parser. *)
Inductive op :=
  | Skip (n : Z) | Consume (n : Z) | Share (n : Z) | Varlong | UnsignedVarint | BigEndian (width : Z).

(** Lengths are unsigned in the source. *)
Definition op_ok (o : op) : Prop :=
  match o with Skip n | Consume n | Share n => 0 <= n | BigEndian w => 0 <= w | _ => True end.

Definition run_op (o : op) (p : iobuf_parser) : res (bytes * iobuf_parser) :=
  match o with
  | Skip n => p ← skip n p; Ok ([], p)
  | Consume n => consume_to n p
  | Share n => parser_data n p
  | Varlong => '(v, n, p) ← read_varlong p; Ok ([v; n], p)
  | UnsignedVarint => '(v, n, p) ← read_unsigned_varint p; Ok ([v; n], p)
  | BigEndian w => '(v, p) ← consume_be_type w p; Ok ([v], p)
  end.

(** The answers up to the first exception, with the bytes consumed and left. *)
Fixpoint run_ops (os : list op) (p : iobuf_parser) : list (bytes * Z * Z) * option exn :=
  match os with
  | [] => ([], None)
  | o :: os =>
      match run_op o p with
      | Ok (b, p) => let '(l, e) := run_ops os p in ((b, bytes_consumed p, bytes_left p) :: l, e)
      | Throw e => ([], Some e)
      | Crash => ([], None)
      end
  end.

Lemma share_err p r k n : base_view p r k -> blen r < n -> share n p = Throw out_of_range.
Proof. intros Hv Hn. unfold share. by rewrite (base_skip_err p r k n Hv Hn). Qed.

(** What an operation does depends on the unread bytes only. *)
Lemma run_op_view o r k :
  op_ok o ->
  (exists b n, 0 <= n <= blen r /\ forall p, view p r k ->
     exists p', run_op o p = Ok (b, p') /\ view p' (bdrop n r) (k + n)) \/
  (exists e, forall p, view p r k -> run_op o p = Throw e).
Proof.
  assert (Hlen : forall n, 0 <= n -> 0 <= n <= blen r \/ blen r < n) by lia.
  assert (Hvar : 0 <= (vint.deserialize r).2 <= blen r).
  { destruct (vint.deserialize r) as [v n] eqn:E. by apply vint.deserialize_read in E. }
  assert (Huvar : 0 <= (unsigned_vint.deserialize r).2 <= blen r).
  { exact (vint.deserialize_loop_read (unsigned_vint.new_decoder _) r). }
  destruct o as [n|n|n| | |w]; cbn [op_ok run_op]; intros Ho.
  - destruct (Hlen n Ho) as [Hn|Hn]; [left|right].
    + exists [], n. split; [done|]. intros p Hp. destruct (skip_ok p r k n Hp Hn) as (p' & -> & Hp'). eauto.
    + eexists. intros p Hp. by rewrite (skip_err p r k n Hp Hn).
  - destruct (Hlen n Ho) as [Hn|Hn]; [left|right].
    + eexists _, n. split; [done|]. intros p Hp. exact (consume_to_ok p r k n Hp Hn).
    + eexists. intros p Hp. exact (consume_to_err p r k n Hp Hn).
  - destruct (Hlen n Ho) as [Hn|Hn]; [left|right].
    + exists (btake n r), n. split; [done|]. intros [p] Hp. cbn.
      destruct (share_ok p r k n Hp Hn) as (p' & -> & Hp'). exists (Owned p'). split; [reflexivity|done].
    + eexists. intros [p] Hp. cbn. by rewrite (share_err p r k n Hp Hn).
  - left. exists [(vint.deserialize r).1; u8 (vint.deserialize r).2], (vint.deserialize r).2. split; [done|]. intros p Hp.
    unfold read_varlong. rewrite (view_range p r k Hp). destruct (vint.deserialize r) as [v n].
    destruct (skip_ok p r k n Hp Hvar) as (p' & -> & Hp'). exists p'. split; [reflexivity|done].
  - left. exists [(unsigned_vint.deserialize r).1; u8 (unsigned_vint.deserialize r).2], (unsigned_vint.deserialize r).2.
    split; [done|]. intros p Hp.
    unfold read_unsigned_varint. rewrite (view_range p r k Hp).
    destruct (unsigned_vint.deserialize r) as [v n].
    destruct (skip_ok p r k n Hp Huvar) as (p' & -> & Hp'). exists p'. split; [reflexivity|done].
  - unfold consume_be_type. destruct (Hlen (w / 8) ltac:(apply Z.div_pos; lia)) as [Hn|Hn]; [left|right].
    + exists [be_value (btake (w / 8) r)], (w / 8). split; [done|]. intros p Hp.
      destruct (consume_to_ok p r k _ Hp Hn) as (p' & -> & Hp'). exists p'. split; [reflexivity|done].
    + eexists. intros p Hp. by rewrite (consume_to_err p r k _ Hp Hn).
Qed.

(** How a buffer is cut into fragments cannot be observed: the same operations on two
    parsers of the same bytes give the same answers, positions and exceptions. *)
Theorem fragmentation_invisible b1 b2 os :
  concat b1 = concat b2 -> Forall op_ok os ->
  run_ops os (Owned (make b1)) = run_ops os (Owned (make b2)).
Proof.
  intros Hb Hos. assert (H : forall p1 p2 r k, view p1 r k -> view p2 r k -> run_ops os p1 = run_ops os p2).
  { induction Hos as [|o os Ho _ IH]; intros p1 p2 r k H1 H2; [done|]. cbn [run_ops].
    destruct (run_op_view o r k Ho) as [(b & n & Hn & H)|[e H]].
    - destruct (H p1 H1) as (p1' & -> & V1), (H p2 H2) as (p2' & -> & V2).
      rewrite (IH p1' p2' _ _ V1 V2).
      by rewrite (view_left _ _ _ V1), (view_left _ _ _ V2), (view_consumed _ _ _ V1), (view_consumed _ _ _ V2).
    - by rewrite (H p1 H1), (H p2 H2). }
  eapply H; [apply owned_make_view|]. rewrite Hb. apply owned_make_view.
Qed.

Lemma fragmentation_invisible_witness :
  run_ops [Varlong; Skip 1; Share 2; BigEndian 16; Consume 9]
      (Owned (make [[1]; []; [2; 3; 4]; [5; 6; 7]]))
    = run_ops [Varlong; Skip 1; Share 2; BigEndian 16; Consume 9] (Owned (make [[1; 2; 3; 4; 5; 6; 7]])) /\
  (run_ops [Varlong; Skip 1; Share 2; BigEndian 16; Consume 9] (Owned (make [[1; 2; 3; 4; 5; 6; 7]]))).2
    = Some out_of_range.
Proof.
  split; [|vm_compute; reflexivity].
  apply fragmentation_invisible; [vm_compute; reflexivity|]. repeat (apply Forall_cons; split; [cbn; lia|]).
  apply Forall_nil. exact I.
Defined.

End iobuf_parser.
