(* ===== verification/Record.v ===== *)
(** * Records and their encoding (model/record.h, model/record_utils.cc)

    A record of the Kafka v2 format: its data type, the constructor that computes
    its size, the encoder [append_record_to_buffer] and the parsers.  The parsers
    are templates over the buffer parser in the source and are written here over
    the class [Parser]; their theorems use [ParserLaws] only.

    Loops over the header count run a number of times known before they start;
    they recurse on that count. *)

From S2P Require Import Prelude Vint IobufParser.

(** ** Data *)

(** [record_attributes]: a [bitset<8>], held as an unsigned byte. *)
Definition record_attributes (v : Z) : Z := u8 v.
Definition record_attributes_value (a : Z) : Z := s8 a.

Record record_header := {
  h_key_size : Z;
  h_key : bytes;
  h_val_size : Z;
  h_value : bytes;
}.

Record record_metadata := {
  m_size_bytes : Z;
  m_attributes : Z;
  m_timestamp_delta : Z;
  m_offset_delta : Z;
}.

Record record := {
  size_bytes : Z;
  attributes : Z;
  timestamp_delta : Z;
  offset_delta : Z;
  key_size : Z;
  key : bytes;
  val_size : Z;
  value : bytes;
  headers : list record_header;
}.

#[global] Instance record_header_eq_dec : EqDecision record_header.
Proof. solve_decision. Defined.
#[global] Instance record_eq_dec : EqDecision record.
Proof. solve_decision. Defined.

Definition has_key (r : record) : bool := key_size r >=? 0.
Definition has_value (r : record) : bool := val_size r >=? 0.
Definition is_tombstone (r : record) : bool := negb (has_value r).

(** The two constructors from optional buffers. *)
Definition optional_size (b : option bytes) : Z :=
  match b with Some b => s32 (blen b) | None => -1 end.

Definition make_record_header (k v : option bytes) : record_header := {|
  h_key_size := optional_size k; h_key := default [] k;
  h_val_size := optional_size v; h_value := default [] v;
|}.

Definition header_size_bytes (h : record_header) : Z :=
  vint.vint_size (h_key_size h) + Z.max (h_key_size h) 0
  + vint.vint_size (h_val_size h) + Z.max (h_val_size h) 0.

(** The sum the constructor computes, before it is cast to [int32_t]. *)
Definition record_size_sum (ts_delta off_delta ks vs : Z) (hdrs : list record_header) : Z :=
  1 + vint.vint_size ts_delta + vint.vint_size off_delta
  + vint.vint_size ks + Z.max ks 0
  + vint.vint_size vs + Z.max vs 0
  + vint.vint_size (blen hdrs)
  + foldl (fun acc h => acc + header_size_bytes h) 0 hdrs.

Definition make_record (attrs ts_delta off_delta : Z) (k v : option bytes)
    (hdrs : list record_header) : record :=
  let ks := optional_size k in
  let vs := optional_size v in
  {| size_bytes := s32 (record_size_sum ts_delta off_delta ks vs hdrs);
     attributes := attrs;
     timestamp_delta := ts_delta;
     offset_delta := off_delta;
     key_size := ks; key := default [] k;
     val_size := vs; value := default [] v;
     headers := hdrs |}.

(** ** Encoding *)

Definition append_vint_to_iobuf (b : bytes) (v : Z) : bytes := b ++ vint.to_bytes v.

(** A length and, when it is positive, the data. *)
Definition append_sized (a : bytes) (size : Z) (data : bytes) : bytes :=
  let a := append_vint_to_iobuf a size in
  if size >? 0 then a ++ data else a.

Definition append_record_to_buffer (a : bytes) (r : record) : bytes :=
  let a := append_vint_to_iobuf a (size_bytes r) in
  let a := a ++ [u8 (record_attributes_value (attributes r))] in
  let a := append_vint_to_iobuf a (timestamp_delta r) in
  let a := append_vint_to_iobuf a (offset_delta r) in
  let a := append_sized a (key_size r) (key r) in
  let a := append_sized a (val_size r) (value r) in
  let a := append_vint_to_iobuf a (blen (headers r)) in
  foldl (fun a h =>
    let a := append_sized a (h_key_size h) (h_key h) in
    append_sized a (h_val_size h) (h_value h)) a (headers r).

(** ** Parsing *)

Section parse.
Context `{Parser P}.

(** A length and, when it is positive, that many bytes. *)
Definition read_sized (p : P) : res (Z * bytes * P) :=
  '(len, _, p) ← read_varlong p;
  if len >? 0 then '(d, p) ← parser_data len p; Ok (len, d, p)
  else Ok (len, [], p).

Fixpoint parse_headers_loop (n : nat) (hs : list record_header) (p : P)
    : res (list record_header * P) :=
  match n with
  | O => Ok (hs, p)
  | S n =>
      '(key_length, k, p) ← read_sized p;
      '(value_length, v, p) ← read_sized p;
      parse_headers_loop n
        (hs ++ [{| h_key_size := s32 key_length; h_key := k;
                   h_val_size := s32 value_length; h_value := v |}]) p
  end.

Definition parse_record_headers (p : P) : res (list record_header * P) :=
  '(header_count, _, p) ← read_varlong p;
  _ ← throw_if (u64 header_count >? bytes_left p) out_of_range;
  parse_headers_loop (Z.to_nat header_count) [] p.

Definition do_parse_one_record_from_buffer (record_size attr : Z) (p : P)
    : res (record * P) :=
  '(ts_delta, _, p) ← read_varlong p;
  '(off_delta, _, p) ← read_varlong p;
  '(key_length, _, p) ← read_varlong p;
  '(k, p) ← (if key_length >? 0 then
               _ ← throw_if (key_length >? record_size) out_of_range;
               parser_data key_length p
             else Ok ([], p));
  '(value_length, _, p) ← read_varlong p;
  '(v, p) ← (if value_length >? 0 then
               _ ← throw_if (value_length >? record_size) out_of_range;
               parser_data value_length p
             else Ok ([], p));
  '(hs, p) ← parse_record_headers p;
  Ok ({| size_bytes := record_size;
         attributes := record_attributes attr;
         timestamp_delta := ts_delta;
         offset_delta := s32 off_delta;
         key_size := s32 key_length; key := k;
         val_size := s32 value_length; value := v;
         headers := hs |}, p).

Definition parse_record_meta_from_buffer (p : P) : res (Z * Z * P) :=
  '(record_size, _, p) ← read_varlong p;
  _ ← throw_if (u64 record_size >? bytes_left p) out_of_range;
  '(attr, p) ← consume_type 8 p;
  Ok (record_size, s8 attr, p).

(** [parse_one_record_from_buffer] with an [iobuf_parser] and
  [parse_one_record_copy_from_buffer] with an [iobuf_const_parser]. *)
Definition parse_one_record_from_buffer (p : P) : res (record * P) :=
  '(record_size, attr, p) ← parse_record_meta_from_buffer p;
  do_parse_one_record_from_buffer (s32 record_size) attr p.

Fixpoint skip_headers_loop (n : nat) (p : P) : res P :=
  match n with
  | O => Ok p
  | S n =>
      '(hk_len, _, p) ← read_varlong p;
      p ← (if hk_len >? 0 then skip hk_len p else Ok p);
      '(hv_len, _, p) ← read_varlong p;
      p ← (if hv_len >? 0 then skip hv_len p else Ok p);
      skip_headers_loop n p
  end.

(** The walk over key, value and headers of the fully parsing mode. *)
Definition skip_record_fields (record_size : Z) (p : P) : res P :=
  '(key_length, _, p) ← read_varlong p;
  _ ← throw_if (key_length >? record_size) out_of_range;
  p ← (if key_length >? 0 then skip key_length p else Ok p);
  '(value_length, _, p) ← read_varlong p;
  _ ← throw_if (value_length >? record_size) out_of_range;
  p ← (if value_length >? 0 then skip value_length p else Ok p);
  '(header_count, _, p) ← read_varlong p;
  _ ← throw_if (u64 header_count >? bytes_left p) out_of_range;
  skip_headers_loop (Z.to_nat header_count) p.

Definition parse_record_metadata_from_buffer (fully_parse_record : bool) (p : P)
    : res (record_metadata * P) :=
  '(record_size, attr, p) ← parse_record_meta_from_buffer p;
  '(ts_delta, tv, p) ← read_varlong p;
  '(off_delta, ov, p) ← read_varlong p;
  p ← (if negb fully_parse_record then
         let total_bytes_read := 1 + tv + ov in
         _ ← throw_if (record_size <=? total_bytes_read) out_of_range;
         skip (record_size - total_bytes_read) p
       else
         let start := u64 (bytes_consumed p - (tv + ov)) in
         p ← skip_record_fields record_size p;
         let bytes_parsed := u64 (bytes_consumed p - start + 1) in
         _ ← throw_if (negb (bytes_parsed =? u64 record_size)) out_of_range;
         Ok p);
  Ok ({| m_size_bytes := s32 record_size;
         m_attributes := record_attributes attr;
         m_timestamp_delta := ts_delta;
         m_offset_delta := s32 off_delta |}, p).
End parse.

(** ** Well-formed records

    The sizes stored in a record are those of its data, and [size_bytes] is the
    length of everything the encoder writes after it. *)

Definition sized (size : Z) (data : bytes) : Prop :=
  - 2 ^ 31 <= size < 2 ^ 31 /\ (size < 0 /\ data = [] \/ size = blen data).

Definition header_wf (h : record_header) : Prop :=
  sized (h_key_size h) (h_key h) /\ sized (h_val_size h) (h_value h).

(** What the encoder writes after the size, as one byte string. *)
Definition sized_bytes (size : Z) (data : bytes) : bytes :=
  vint.serialize size ++ (if size >? 0 then data else []).
Definition header_bytes (h : record_header) : bytes :=
  sized_bytes (h_key_size h) (h_key h) ++ sized_bytes (h_val_size h) (h_value h).
Definition record_body (r : record) : bytes :=
  vint.serialize (timestamp_delta r) ++ vint.serialize (offset_delta r) ++
  sized_bytes (key_size r) (key r) ++ sized_bytes (val_size r) (value r) ++
  vint.serialize (blen (headers r)) ++ concat (header_bytes <$> headers r).

Record record_wf (r : record) : Prop := {
  wf_attributes : is_u 8 (attributes r);
  wf_timestamp_delta : is_s 64 (timestamp_delta r);
  wf_offset_delta : is_s 32 (offset_delta r);
  wf_key : sized (key_size r) (key r);
  wf_value : sized (val_size r) (value r);
  wf_headers : Forall header_wf (headers r);
  wf_size : size_bytes r = 1 + blen (record_body r);
  wf_size_range : size_bytes r <= int32_max;
}.

Lemma append_sized_eq a size data :
  append_sized a size data = a ++ sized_bytes size data.
Proof.
  unfold append_sized, append_vint_to_iobuf, sized_bytes, vint.to_bytes.
  destruct (size >? 0); [by rewrite app_assoc|by rewrite app_nil_r].
Qed.

Lemma foldl_headers a hs :
  foldl (fun a h => append_sized (append_sized a (h_key_size h) (h_key h))
                                 (h_val_size h) (h_value h)) a hs
  = a ++ concat (header_bytes <$> hs).
Proof.
  revert a. induction hs as [|h hs IH]; intros a; cbn; [by rewrite app_nil_r|].
  rewrite IH, !append_sized_eq. unfold header_bytes. by rewrite !app_assoc.
Qed.

Lemma attribute_byte a : is_u 8 a -> u8 (record_attributes_value a) = a.
Proof.
  intros Ha. unfold record_attributes_value. rewrite swrap_cases by (done || lia).
  case_decide; [by apply uwrap_id|]. rewrite uwrap_neg by ranges. lia.
Qed.

Lemma append_record_eq a r :
  is_u 8 (attributes r) ->
  append_record_to_buffer a r
  = a ++ vint.serialize (size_bytes r) ++ attributes r :: record_body r.
Proof.
  intros Ha. unfold append_record_to_buffer, append_vint_to_iobuf, vint.to_bytes.
  rewrite foldl_headers, !append_sized_eq, attribute_byte by done.
  unfold record_body. by rewrite <- !app_assoc.
Qed.

Lemma sized_s64 size data : sized size data -> is_s 64 size.
Proof. intros [? _]. ranges. Qed.

Lemma sized_bytes_length size data : sized size data ->
  blen (sized_bytes size data) = vint.vint_size size + Z.max size 0.
Proof.
  intros Hs. pose proof (sized_s64 _ _ Hs). destruct Hs as [Hr Hd].
  unfold sized_bytes. rewrite blen_app, vint.length_serialize by done. f_equal.
  rewrite Z.gtb_ltb. destruct (Z.ltb_spec 0 size); [lia|]. change (blen []) with 0. lia.
Qed.

Lemma header_bytes_length h : header_wf h -> blen (header_bytes h) = header_size_bytes h.
Proof.
  intros [Hk Hv]. unfold header_bytes, header_size_bytes.
  rewrite blen_app, !sized_bytes_length by done. lia.
Qed.

Lemma header_bytes_min h : header_wf h -> 2 <= blen (header_bytes h).
Proof.
  intros Hh. rewrite header_bytes_length by done. destruct Hh as [Hk Hv].
  pose proof (vint.size_bounds _ (sized_s64 _ _ Hk)).
  pose proof (vint.size_bounds _ (sized_s64 _ _ Hv)). unfold header_size_bytes. lia.
Qed.

Lemma headers_length a hs : Forall header_wf hs ->
  foldl (fun acc h => acc + header_size_bytes h) a hs = a + blen (concat (header_bytes <$> hs)).
Proof.
  intros Hh. revert a. induction Hh as [|h hs Hh _ IH]; intros a; cbn -[Z.add].
  - change (blen []) with 0. lia.
  - rewrite IH, blen_app, header_bytes_length by done. lia.
Qed.

Lemma headers_count hs : Forall header_wf hs ->
  2 * blen hs <= blen (concat (header_bytes <$> hs)).
Proof.
  induction 1 as [|h hs Hh _ IH]; cbn; [done|].
  rewrite blen_app. pose proof (header_bytes_min h Hh). unfold blen in *. cbn. lia.
Qed.

Lemma record_body_length r :
  is_s 64 (timestamp_delta r) -> is_s 32 (offset_delta r) ->
  sized (key_size r) (key r) -> sized (val_size r) (value r) ->
  Forall header_wf (headers r) -> blen (headers r) <= int32_max ->
  blen (record_body r) =
    vint.vint_size (timestamp_delta r) + vint.vint_size (offset_delta r)
    + vint.vint_size (key_size r) + Z.max (key_size r) 0
    + vint.vint_size (val_size r) + Z.max (val_size r) 0
    + vint.vint_size (blen (headers r))
    + foldl (fun acc h => acc + header_size_bytes h) 0 (headers r).
Proof.
  intros Ht Ho Hk Hv Hh Hc. pose proof (blen_nonneg (headers r)). unfold record_body.
  rewrite !blen_app, !sized_bytes_length, !vint.length_serialize, headers_length by (done || ranges).
  lia.
Qed.

(** ** Stepping a parser over what the encoder wrote *)

(** Close [view p r k] with a hypothesis whose count is equal by arithmetic. *)
Ltac view_at H :=
  match goal with |- view _ _ ?k =>
    match type of H with view _ _ ?k' => replace k with k' by lia; exact H end end.

Section stepping.
Context {P : Type} {HP : Parser P} {HL : ParserLaws P}.

Lemma read_varlong_view (p : P) v r k :
  is_s 64 v -> view p (vint.serialize v ++ r) k ->
  exists p', read_varlong p = Ok (v, vint.vint_size v, p') /\ view p' r (k + vint.vint_size v).
Proof.
  intros Hv Hp. pose proof (vint.size_bounds v Hv) as Hb. unfold vint.max_length in Hb.
  unfold read_varlong. rewrite (view_range _ _ _ Hp), vint.deserialize_serialize by done.
  pose proof (vint.length_serialize v Hv) as Hl.
  destruct (skip_ok _ _ _ (vint.vint_size v) Hp) as (p' & E & Hv').
  { rewrite blen_app, Hl. pose proof (blen_nonneg r). lia. }
  rewrite E. cbn [mbind res_bind]. rewrite (uwrap_id 8 (vint.vint_size v)) by ranges.
  exists p'. split; [done|].
  assert (bdrop (vint.vint_size v) (vint.serialize v ++ r) = r) as Hr
    by (rewrite <- Hl; apply bdrop_app).
  by rewrite Hr in Hv'.
Qed.

Lemma consume_to_view (p : P) d r k :
  view p (d ++ r) k ->
  exists p', consume_to (blen d) p = Ok (d, p') /\ view p' r (k + blen d).
Proof.
  intros Hp. pose proof (blen_nonneg r). pose proof (blen_nonneg d).
  destruct (consume_to_ok _ _ _ (blen d) Hp) as (p' & E & Hv'); [rewrite blen_app; lia|].
  rewrite btake_app in E. rewrite bdrop_app in Hv'. eauto.
Qed.

Lemma parser_data_view (p : P) d r k :
  blen d <= int32_max -> view p (d ++ r) k ->
  exists p', parser_data (blen d) p = Ok (d, p') /\ view p' r (k + blen d).
Proof.
  intros Hd Hp. pose proof (blen_nonneg r). pose proof (blen_nonneg d).
  destruct (parser_data_ok _ _ _ (blen d) Hp) as (p' & E & Hv'); [rewrite blen_app; lia|done|].
  rewrite btake_app in E. rewrite bdrop_app in Hv'. eauto.
Qed.

Lemma skip_view (p : P) d r k :
  view p (d ++ r) k -> exists p', skip (blen d) p = Ok p' /\ view p' r (k + blen d).
Proof.
  intros Hp. pose proof (blen_nonneg r). pose proof (blen_nonneg d).
  destruct (skip_ok _ _ _ (blen d) Hp) as (p' & E & Hv'); [rewrite blen_app; lia|].
  rewrite bdrop_app in Hv'. eauto.
Qed.

(** The bytes behind a length: nothing for a null or empty field. *)
Lemma sized_cases size data : sized size data ->
  size = blen data /\ 0 < size <= int32_max /\ (if size >? 0 then data else []) = data \/
  size <= 0 /\ data = [] /\ (if size >? 0 then data else []) = [].
Proof.
  intros [Hr Hd]. rewrite Z.gtb_ltb. destruct (Z.ltb_spec 0 size).
  - left. destruct Hd as [[? ?]|?]; [lia|]. split_and!; (done || ranges).
  - right. split; [done|]. split; [|done]. destruct Hd as [[_ ?]|E]; [done|].
    apply length_zero_iff_nil. unfold blen in E. lia.
Qed.

Lemma guarded_data_view (p : P) size data r k limit :
  sized size data -> size <= limit -> view p ((if size >? 0 then data else []) ++ r) k ->
  exists p', (if size >? 0 then _ ← throw_if (size >? limit) out_of_range; parser_data size p
              else Ok ([], p)) = Ok (data, p') /\ view p' r (k + Z.max size 0).
Proof.
  intros Hs Hl Hp. destruct (sized_cases size data Hs) as [(E & Hb & Ed)|(Hz & -> & Ed)];
    rewrite Ed in Hp; rewrite !Z.gtb_ltb.
  - destruct (parser_data_view p data r k) as (p' & Ep & Hp'); [lia|done|].
    destruct (Z.ltb_spec 0 size), (Z.ltb_spec limit size); try lia. cbn.
    rewrite E, Ep. exists p'. by rewrite Z.max_l by lia.
  - destruct (Z.ltb_spec 0 size); [lia|]. exists p. by rewrite Z.max_r, Z.add_0_r by lia.
Qed.

Lemma read_sized_view (p : P) size data r k :
  sized size data -> view p (sized_bytes size data ++ r) k ->
  exists p', read_sized p = Ok (size, data, p') /\
    view p' r (k + vint.vint_size size + Z.max size 0).
Proof.
  intros Hs Hp. unfold sized_bytes in Hp. rewrite <- app_assoc in Hp.
  destruct (read_varlong_view p size _ k (sized_s64 _ _ Hs) Hp) as (p1 & E1 & Hp1).
  unfold read_sized. rewrite E1. cbn [mbind res_bind].
  destruct (sized_cases size data Hs) as [(E & Hb & Ed)|(Hz & -> & Ed)]; rewrite Ed in Hp1;
    rewrite Z.gtb_ltb; destruct (Z.ltb_spec 0 size); try lia.
  - destruct (parser_data_view p1 data r (k + vint.vint_size size)) as (p2 & E2 & Hp2);
      [lia|done|].
    rewrite E, E2 in *. cbn. exists p2. by rewrite Z.max_l by lia.
  - exists p1. by rewrite Z.max_r, Z.add_0_r by lia.
Qed.

Lemma skip_sized_view (p : P) size data r k :
  sized size data -> view p ((if size >? 0 then data else []) ++ r) k ->
  exists p', (if size >? 0 then skip size p else Ok p) = Ok p' /\ view p' r (k + Z.max size 0).
Proof.
  intros Hs Hp. destruct (sized_cases size data Hs) as [(E & Hb & Ed)|(Hz & -> & Ed)];
    rewrite Ed in Hp; rewrite Z.gtb_ltb; destruct (Z.ltb_spec 0 size); try lia.
  - destruct (skip_view p data r k Hp) as (p' & Ep & Hp').
    rewrite E, Ep. exists p'. by rewrite Z.max_l by (rewrite <- E; lia).
  - exists p. by rewrite Z.max_r, Z.add_0_r by lia.
Qed.

Lemma parse_headers_view hs (p : P) acc r k :
  Forall header_wf hs -> view p (concat (header_bytes <$> hs) ++ r) k ->
  exists p', parse_headers_loop (length hs) acc p = Ok (acc ++ hs, p') /\
    view p' r (k + blen (concat (header_bytes <$> hs))).
Proof.
  intros Hh. revert p acc k. induction Hh as [|h hs [Hk Hv] _ IH]; intros p acc k Hp.
  - exists p. cbn. by rewrite app_nil_r, Z.add_0_r.
  - cbn [fmap list_fmap concat length parse_headers_loop] in *.
    unfold header_bytes in Hp at 1. rewrite <- !app_assoc in Hp.
    destruct (read_sized_view p _ _ _ k Hk Hp) as (p1 & E1 & Hp1).
    destruct (read_sized_view p1 _ _ _ _ Hv Hp1) as (p2 & E2 & Hp2).
    rewrite E1. cbn [mbind res_bind]. rewrite E2. cbn [mbind res_bind].
    destruct Hk as [Hkr Hkd], Hv as [Hvr Hvd].
    rewrite !swrap_id by ranges.
    destruct (IH p2 (acc ++ [h]) _ Hp2) as (p3 & E3 & Hp3).
    destruct h as [hk hkd hv hvd]; cbn in *. rewrite E3, <- app_assoc. exists p3. split; [done|].
    rewrite blen_app, header_bytes_length by done. unfold header_size_bytes; cbn.
    view_at Hp3.
Qed.
End stepping.

(** ** Round trip *)

Section roundtrip.
Context {P : Type} {HP : Parser P} {HL : ParserLaws P}.

Lemma parse_meta_view (p : P) size attr r k :
  0 <= size <= 1 + blen r -> is_s 64 size ->
  view p (vint.serialize size ++ attr :: r) k ->
  exists p', parse_record_meta_from_buffer p = Ok (size, s8 attr, p') /\
    view p' r (k + vint.vint_size size + 1).
Proof.
  intros Hb Hs Hp. destruct (read_varlong_view p size _ k Hs Hp) as (p1 & E1 & Hp1).
  unfold parse_record_meta_from_buffer. rewrite E1. cbn [mbind res_bind].
  rewrite (view_left _ _ _ Hp1), uwrap_id by ranges.
  change (blen (attr :: r)) with (Z.of_nat (S (length r))). rewrite Z.gtb_ltb.
  destruct (Z.ltb_spec (Z.of_nat (S (length r))) size); [unfold blen in Hb; lia|].
  destruct (consume_to_view p1 [attr] r _ Hp1) as (p2 & E2 & Hp2).
  unfold consume_type. change (8 / 8) with (blen [attr]). cbn [throw_if mbind res_bind].
  rewrite E2. cbn [mbind res_bind]. exists p2. split; [|done].
  change (le_value [attr]) with (attr + 0). by rewrite Z.add_0_r.
Qed.

Lemma attributes_roundtrip a : is_u 8 a -> record_attributes (s8 a) = a.
Proof. apply attribute_byte. Qed.

Lemma record_size_bounds r : record_wf r ->
  key_size r <= size_bytes r /\ val_size r <= size_bytes r /\
  blen (headers r) <= int32_max /\ is_s 64 (size_bytes r) /\ 0 <= size_bytes r.
Proof.
  intros [Ha Ht Ho Hk Hv Hh Hs Hm].
  pose proof (headers_count _ Hh) as Hc.
  pose proof (blen_nonneg (headers r)).
  assert (Hb : blen (record_body r) <= int32_max) by lia.
  assert (blen (concat (header_bytes <$> headers r)) <= blen (record_body r)).
  { unfold record_body. rewrite !blen_app.
    repeat match goal with |- context [blen (?x) + _] =>
      lazymatch goal with H : 0 <= blen x |- _ => fail | _ => pose proof (blen_nonneg x) end end.
    lia. }
  pose proof (record_body_length r Ht Ho Hk Hv Hh ltac:(lia)) as Hl.
  rewrite headers_length in Hl by done.
  pose proof (vint.size_bounds _ Ht). pose proof (vint.size_bounds (offset_delta r) ltac:(ranges)).
  pose proof (vint.size_bounds _ (sized_s64 _ _ Hk)).
  pose proof (vint.size_bounds _ (sized_s64 _ _ Hv)).
  pose proof (vint.size_bounds (blen (headers r)) ltac:(ranges)).
  split_and!; (lia || ranges).
Qed.

Lemma parse_record_headers_view (p : P) hs r k :
  Forall header_wf hs -> blen hs <= int32_max ->
  view p (vint.serialize (blen hs) ++ concat (header_bytes <$> hs) ++ r) k ->
  exists p', parse_record_headers p = Ok (hs, p') /\
    view p' r (k + vint.vint_size (blen hs) + blen (concat (header_bytes <$> hs))).
Proof.
  intros Hh Hc Hp. pose proof (blen_nonneg hs). pose proof (headers_count _ Hh).
  destruct (read_varlong_view p (blen hs) _ k ltac:(ranges) Hp) as (p1 & E1 & Hp1).
  unfold parse_record_headers. rewrite E1. cbn [mbind res_bind].
  rewrite (view_left _ _ _ Hp1), uwrap_id, blen_app, Z.gtb_ltb by ranges.
  pose proof (blen_nonneg r).
  destruct (Z.ltb_spec (blen (concat (header_bytes <$> hs)) + blen r) (blen hs)); [lia|].
  unfold blen at 1. rewrite Nat2Z.id. cbn [throw_if mbind res_bind].
  destruct (parse_headers_view hs p1 [] r _ Hh Hp1) as (p2 & E2 & Hp2). eauto.
Qed.

(** Parsing what the encoder wrote returns the record, and leaves the parser at
    what follows. *)
Lemma parse_append_view (p : P) r rest k :
  record_wf r -> view p (append_record_to_buffer [] r ++ rest) k ->
  exists p', parse_one_record_from_buffer p = Ok (r, p') /\
    view p' rest (k + blen (append_record_to_buffer [] r)).
Proof.
  intros Hwf Hp. pose proof (record_size_bounds r Hwf) as (Hks & Hvs & Hhc & Hsr & Hs0).
  destruct Hwf as [Ha Ht Ho Hk Hv Hh Hs Hm].
  rewrite append_record_eq in Hp |- * by done. cbn [app] in Hp |- *.
  rewrite <- app_assoc in Hp. cbn [app] in Hp.
  destruct (parse_meta_view p (size_bytes r) (attributes r) (record_body r ++ rest) k)
    as (p0 & E0 & Hp0); [rewrite blen_app; pose proof (blen_nonneg rest); lia|done|done|].
  unfold parse_one_record_from_buffer. rewrite E0. cbn [mbind res_bind].
  unfold do_parse_one_record_from_buffer. unfold record_body in Hp0 at 1.
  unfold sized_bytes in Hp0. rewrite <- !app_assoc in Hp0.
  destruct (read_varlong_view p0 _ _ _ Ht Hp0) as (p1 & -> & Hp1).
  cbn [mbind res_bind]. clear Hp0.
  destruct (read_varlong_view p1 (offset_delta r) _ _ ltac:(ranges) Hp1) as (p2 & -> & Hp2).
  cbn [mbind res_bind]. clear Hp1.
  destruct (read_varlong_view p2 (key_size r) _ _ (sized_s64 _ _ Hk) Hp2) as (p3 & -> & Hp3).
  cbn [mbind res_bind]. clear Hp2. rewrite (swrap_id 32 (size_bytes r)) by ranges.
  destruct (guarded_data_view p3 _ _ _ _ (size_bytes r) Hk Hks Hp3) as (p4 & -> & Hp4).
  cbn [mbind res_bind]. clear Hp3.
  destruct (read_varlong_view p4 (val_size r) _ _ (sized_s64 _ _ Hv) Hp4) as (p5 & -> & Hp5).
  cbn [mbind res_bind]. clear Hp4.
  destruct (guarded_data_view p5 _ _ _ _ (size_bytes r) Hv Hvs Hp5) as (p6 & -> & Hp6).
  cbn [mbind res_bind]. clear Hp5.
  destruct (parse_record_headers_view p6 _ _ _ Hh Hhc Hp6) as (p7 & -> & Hp7).
  pose proof (record_body_length r Ht Ho Hk Hv Hh Hhc) as Hl.
  rewrite headers_length in Hl by done.
  cbn [mbind res_bind]. exists p7. destruct Hk as [Hk1 _], Hv as [Hv1 _].
  rewrite attributes_roundtrip, !swrap_id by (done || ranges).
  split; [by destruct r|].
  rewrite blen_app, blen_cons, vint.length_serialize by done. view_at Hp7.
Qed.
End roundtrip.

(** ** Metadata iteration agrees with full parsing *)

Definition metadata_of (r : record) : record_metadata := {|
  m_size_bytes := size_bytes r;
  m_attributes := attributes r;
  m_timestamp_delta := timestamp_delta r;
  m_offset_delta := offset_delta r;
|}.

(** The part of the body after the two deltas. *)
Definition record_tail (r : record) : bytes :=
  sized_bytes (key_size r) (key r) ++ sized_bytes (val_size r) (value r) ++
  vint.serialize (blen (headers r)) ++ concat (header_bytes <$> headers r).

Lemma record_body_tail r :
  record_body r = vint.serialize (timestamp_delta r) ++ vint.serialize (offset_delta r) ++ record_tail r.
Proof. done. Qed.

Section metadata.
Context {P : Type} {HP : Parser P} {HL : ParserLaws P}.

Lemma skip_headers_view hs (p : P) r k :
  Forall header_wf hs -> view p (concat (header_bytes <$> hs) ++ r) k ->
  exists p', skip_headers_loop (length hs) p = Ok p' /\
    view p' r (k + blen (concat (header_bytes <$> hs))).
Proof.
  intros Hh. revert p k. induction Hh as [|h hs [Hk Hv] _ IH]; intros p k Hp.
  - exists p. cbn. by rewrite Z.add_0_r.
  - cbn [fmap list_fmap concat length skip_headers_loop] in *.
    unfold header_bytes in Hp at 1. unfold sized_bytes in Hp. rewrite <- !app_assoc in Hp.
    destruct (read_varlong_view p _ _ _ (sized_s64 _ _ Hk) Hp) as (p1 & -> & Hp1).
    cbn [mbind res_bind].
    destruct (skip_sized_view p1 _ _ _ _ Hk Hp1) as (p2 & -> & Hp2). cbn [mbind res_bind].
    destruct (read_varlong_view p2 _ _ _ (sized_s64 _ _ Hv) Hp2) as (p3 & -> & Hp3).
    cbn [mbind res_bind].
    destruct (skip_sized_view p3 _ _ _ _ Hv Hp3) as (p4 & -> & Hp4). cbn [mbind res_bind].
    destruct (IH p4 _ Hp4) as (p5 & -> & Hp5). exists p5. split; [done|].
    rewrite blen_app, header_bytes_length by done. unfold header_size_bytes. view_at Hp5.
Qed.

Lemma strict_tail_view (p : P) r rest k :
  record_wf r -> view p (record_tail r ++ rest) k ->
  exists p', skip_record_fields (size_bytes r) p = Ok p' /\
    view p' rest (k + blen (record_tail r)).
Proof.
  intros Hwf Hp. pose proof (record_size_bounds r Hwf) as (Hks & Hvs & Hhc & Hsr & Hs0).
  destruct Hwf as [Ha Ht Ho Hk Hv Hh Hs Hm].
  assert (Hl : blen (record_tail r) = blen (sized_bytes (key_size r) (key r))
    + blen (sized_bytes (val_size r) (value r)) + vint.vint_size (blen (headers r))
    + blen (concat (header_bytes <$> headers r))).
  { pose proof (blen_nonneg (headers r)). unfold record_tail.
    rewrite !blen_app, vint.length_serialize by ranges. lia. }
  unfold record_tail, sized_bytes in Hp. rewrite <- !app_assoc in Hp.
  unfold skip_record_fields.
  destruct (read_varlong_view p _ _ _ (sized_s64 _ _ Hk) Hp) as (p1 & -> & Hp1).
  cbn [mbind res_bind]. rewrite !(Z.gtb_ltb _ (size_bytes r)).
  destruct (Z.ltb_spec (size_bytes r) (key_size r)); [lia|]. cbn [throw_if].
  destruct (skip_sized_view p1 _ _ _ _ Hk Hp1) as (p2 & -> & Hp2). cbn [mbind res_bind].
  destruct (read_varlong_view p2 _ _ _ (sized_s64 _ _ Hv) Hp2) as (p3 & -> & Hp3).
  cbn [mbind res_bind]. rewrite !(Z.gtb_ltb _ (size_bytes r)).
  destruct (Z.ltb_spec (size_bytes r) (val_size r)); [lia|]. cbn [throw_if].
  destruct (skip_sized_view p3 _ _ _ _ Hv Hp3) as (p4 & -> & Hp4). cbn [mbind res_bind].
  pose proof (blen_nonneg (headers r)). pose proof (headers_count _ Hh).
  pose proof (blen_nonneg rest).
  destruct (read_varlong_view p4 (blen (headers r)) _ _ ltac:(ranges) Hp4) as (p5 & -> & Hp5).
  cbn [mbind res_bind]. rewrite (view_left _ _ _ Hp5), uwrap_id, blen_app, Z.gtb_ltb by ranges.
  destruct (Z.ltb_spec (blen (concat (header_bytes <$> headers r)) + blen rest)
    (blen (headers r))); [lia|]. cbn [throw_if].
  unfold blen at 1. rewrite Nat2Z.id.
  destruct (skip_headers_view _ p5 rest _ Hh Hp5) as (p6 & E6 & Hp6).
  exists p6. split; [exact E6|]. rewrite Hl, !sized_bytes_length by done. view_at Hp6.
Qed.

Lemma record_tail_min r : record_wf r -> 3 <= blen (record_tail r).
Proof.
  intros Hwf. pose proof (record_size_bounds r Hwf) as (_ & _ & Hhc & _).
  destruct Hwf as [Ha Ht Ho Hk Hv Hh Hs Hm]. pose proof (blen_nonneg (headers r)).
  unfold record_tail. rewrite !blen_app, !sized_bytes_length, vint.length_serialize by (done || ranges).
  pose proof (vint.size_bounds _ (sized_s64 _ _ Hk)).
  pose proof (vint.size_bounds _ (sized_s64 _ _ Hv)).
  pose proof (vint.size_bounds (blen (headers r)) ltac:(ranges)).
  pose proof (blen_nonneg (concat (header_bytes <$> headers r))). lia.
Qed.

Lemma metadata_view full (p : P) r rest k :
  record_wf r -> view p (append_record_to_buffer [] r ++ rest) k ->
  0 <= k < 2 ^ 62 ->
  exists p', parse_record_metadata_from_buffer full p = Ok (metadata_of r, p') /\
    view p' rest (k + blen (append_record_to_buffer [] r)).
Proof.
  intros Hwf Hp Hk0. pose proof (record_tail_min r Hwf) as Hmin.
  pose proof (record_size_bounds r Hwf) as (_ & _ & _ & Hsr & Hs0).
  pose proof (wf_size _ Hwf) as Hs. pose proof (wf_size_range _ Hwf) as Hm.
  pose proof (wf_timestamp_delta _ Hwf) as Ht. pose proof (wf_offset_delta _ Hwf) as Ho.
  assert (Ho64 : is_s 64 (offset_delta r)) by ranges.
  rewrite append_record_eq in Hp |- * by apply Hwf. cbn [app] in Hp |- *.
  rewrite <- app_assoc in Hp. cbn [app] in Hp.
  destruct (parse_meta_view p (size_bytes r) (attributes r) (record_body r ++ rest) k)
    as (p0 & E0 & Hp0); [rewrite blen_app; pose proof (blen_nonneg rest); lia|done|done|].
  unfold parse_record_metadata_from_buffer. rewrite E0. cbn [mbind res_bind].
  rewrite record_body_tail in Hp0, Hs |- *. rewrite <- !app_assoc in Hp0.
  rewrite !blen_app, !vint.length_serialize in Hs by done.
  rewrite blen_app, blen_cons, !blen_app, !vint.length_serialize by done.
  destruct (read_varlong_view p0 _ _ _ Ht Hp0) as (p1 & -> & Hp1). cbn [mbind res_bind].
  destruct (read_varlong_view p1 _ _ _ Ho64 Hp1) as (p2 & -> & Hp2). cbn [mbind res_bind].
  pose proof (vint.size_bounds _ Hsr) as B1. pose proof (vint.size_bounds _ Ht) as B2.
  pose proof (vint.size_bounds _ Ho64) as B3. unfold vint.max_length in *.
  rewrite attributes_roundtrip, !swrap_id by (apply Hwf || ranges). destruct full; cbn [negb].
  - destruct (strict_tail_view p2 r rest _ Hwf Hp2) as (p3 & -> & Hp3). cbn [mbind res_bind].
    rewrite (view_consumed _ _ _ Hp2), (view_consumed _ _ _ Hp3).
    rewrite (uwrap_id 64 (size_bytes r)) by ranges.
    rewrite (uwrap_id 64 (_ - (_ + _))) by ranges. rewrite uwrap_id by ranges.
    match goal with |- context [?x =? size_bytes r] =>
      destruct (Z.eqb_spec x (size_bytes r)); [|lia] end.
    cbn [negb throw_if mbind res_bind]. exists p3. split; [done|]. view_at Hp3.
  - destruct (Z.leb_spec (size_bytes r)
      (1 + vint.vint_size (timestamp_delta r) + vint.vint_size (offset_delta r))); [lia|].
    cbn [throw_if mbind res_bind].
    replace (size_bytes r - _) with (blen (record_tail r)) by lia.
    destruct (skip_view p2 (record_tail r) rest _ Hp2) as (p3 & -> & Hp3). cbn [mbind res_bind].
    exists p3. split; [done|]. view_at Hp3.
Qed.
End metadata.

(** ** The constructor builds well-formed records *)

(** What a caller passes: attributes, deltas and sizes within their types, and a
    record that fits the 32-bit size field. *)
Record record_args_ok (attrs ts_delta off_delta : Z) (k v : option bytes)
    (hdrs : list record_header) : Prop := {
  ok_attrs : is_u 8 attrs;
  ok_ts : is_s 64 ts_delta;
  ok_off : is_s 32 off_delta;
  ok_hdrs : Forall header_wf hdrs;
  ok_key : blen (default [] k) <= int32_max;
  ok_value : blen (default [] v) <= int32_max;
  ok_size : record_size_sum ts_delta off_delta (optional_size k) (optional_size v) hdrs <= int32_max;
}.

Lemma optional_sized b : blen (default [] b) <= int32_max -> sized (optional_size b) (default [] b).
Proof.
  destruct b as [b|]; cbn; intros Hb.
  - pose proof (blen_nonneg b). rewrite swrap_id by ranges. split; [ranges|by right].
  - split; [ranges|left; done].
Qed.

Lemma make_record_wf attrs ts od k v hdrs :
  record_args_ok attrs ts od k v hdrs -> record_wf (make_record attrs ts od k v hdrs).
Proof.
  intros [Ha Ht Ho Hh Hk Hv Hs].
  pose proof (optional_sized k Hk) as Hks. pose proof (optional_sized v Hv) as Hvs.
  set (r := make_record attrs ts od k v hdrs).
  pose proof (headers_count _ Hh). pose proof (blen_nonneg hdrs).
  pose proof (vint.size_bounds _ Ht) as B1. pose proof (vint.size_bounds od ltac:(ranges)) as B2.
  pose proof (vint.size_bounds _ (sized_s64 _ _ Hks)) as B3.
  pose proof (vint.size_bounds _ (sized_s64 _ _ Hvs)) as B4.
  pose proof (unsigned_vint.size_loop_mono 10 (vint.encode_zigzag (blen hdrs)) 1) as B5.
  change (unsigned_vint.size_loop 10 (vint.encode_zigzag (blen hdrs)) 1)
    with (vint.vint_size (blen hdrs)) in B5.
  unfold record_size_sum in Hs. rewrite headers_length in Hs by done.
  assert (Hhc : blen (headers r) <= int32_max) by (change (headers r) with hdrs; lia).
  pose proof (record_body_length r Ht Ho Hks Hvs Hh Hhc) as Hl.
  cbn [headers r make_record timestamp_delta offset_delta key_size val_size] in Hl.
  rewrite headers_length in Hl by done.
  assert (size_bytes r = 1 + blen (record_body r)).
  { cbn [size_bytes r make_record]. unfold record_size_sum.
    rewrite headers_length by done. rewrite swrap_id; [lia|lia|].
    pose proof (blen_nonneg (record_body r)). ranges. }
  split; try done. lia.
Qed.

(** ** Properties *)

(** A record made by the constructor and encoded is parsed back to itself, by the
    sharing parser and by the copying parser alike, however the bytes are split
    into fragments, and the parser is left at the first byte after the record. *)
Theorem record_roundtrip uninit attrs ts od k v hdrs frags rest :
  record_args_ok attrs ts od k v hdrs ->
  let r := make_record attrs ts od k v hdrs in
  concat frags = append_record_to_buffer [] r ++ rest ->
  (exists p, parse_one_record_from_buffer (iobuf_parser.Owned (iobuf_parser.make frags)) = Ok (r, p)
     /\ byte_range p = rest) /\
  (exists p, @parse_one_record_from_buffer _ (iobuf_parser.const_parser uninit)
       (iobuf_parser.ConstRef (iobuf_parser.make frags)) = Ok (r, p)
     /\ @byte_range _ (iobuf_parser.const_parser uninit) p = rest).
Proof.
  intros Hok r E. pose proof (make_record_wf _ _ _ _ _ _ Hok) as Hwf.
  split.
  - pose proof (iobuf_parser.owned_make_view frags) as Hv. rewrite E in Hv.
    destruct (parse_append_view (iobuf_parser.Owned (iobuf_parser.make frags)) r rest 0 Hwf Hv)
      as (p & Ep & Hp). exists p. split; [done|]. by eapply view_range.
  - pose proof (iobuf_parser.const_make_view uninit frags) as Hv. rewrite E in Hv.
    destruct (@parse_append_view _ _ (iobuf_parser.const_laws uninit)
      (iobuf_parser.ConstRef (iobuf_parser.make frags)) r rest 0 Hwf Hv) as (p & Ep & Hp).
    exists p. split; [done|].
    exact (@view_range _ _ (iobuf_parser.const_laws uninit) _ _ _ Hp).
Qed.

Lemma record_roundtrip_witness :
  let r := make_record 0 5 0 (Some [107; 49]) (Some [7]) [make_record_header (Some [1]) None] in
  exists p, parse_one_record_from_buffer (iobuf_parser.Owned (iobuf_parser.make
    [[24]; [0; 10; 0; 4; 107; 49; 2; 7]; []; [2; 2; 1; 1; 42]])) = Ok (r, p) /\ byte_range p = [42].
Proof.
  eapply (record_roundtrip (fun _ => 0)); [|reflexivity].
  split; [concrete..| |concrete|concrete|concrete].
  constructor; [|constructor]. split; (split; [concrete|vm_compute; auto]).
Defined.

(** Reading only the metadata of a record gives what full parsing gives and
    leaves the parser at the same place, in the skipping mode and in the mode
    that walks the whole record. *)
Theorem metadata_agrees full attrs ts od k v hdrs frags rest :
  record_args_ok attrs ts od k v hdrs ->
  let r := make_record attrs ts od k v hdrs in
  concat frags = append_record_to_buffer [] r ++ rest ->
  exists p1 p2,
    parse_one_record_from_buffer (iobuf_parser.Owned (iobuf_parser.make frags)) = Ok (r, p1) /\
    parse_record_metadata_from_buffer full (iobuf_parser.Owned (iobuf_parser.make frags))
      = Ok (metadata_of r, p2) /\
    byte_range p1 = byte_range p2 /\ bytes_consumed p1 = bytes_consumed p2.
Proof.
  intros Hok r E. pose proof (make_record_wf _ _ _ _ _ _ Hok) as Hwf.
  pose proof (iobuf_parser.owned_make_view frags) as Hv. rewrite E in Hv.
  set (p0 := iobuf_parser.Owned (iobuf_parser.make frags)).
  destruct (parse_append_view p0 r rest 0 Hwf Hv) as (p1 & E1 & V1).
  destruct (metadata_view full p0 r rest 0 Hwf Hv) as (p2 & E2 & V2); [lia|].
  exists p1, p2. split_and!; [done|done|..].
  - by rewrite (view_range _ _ _ V1), (view_range _ _ _ V2).
  - by rewrite (view_consumed _ _ _ V1), (view_consumed _ _ _ V2).
Qed.

Lemma metadata_agrees_witness :
  let r := make_record 0 (-3) 1 None (Some [7; 8]) [] in
  let p0 := iobuf_parser.Owned (iobuf_parser.make [append_record_to_buffer [] r]) in
  exists p1 p2, parse_one_record_from_buffer p0 = Ok (r, p1) /\
    parse_record_metadata_from_buffer true p0 = Ok (metadata_of r, p2) /\
    byte_range p1 = byte_range p2 /\ bytes_consumed p1 = bytes_consumed p2.
Proof.
  apply (metadata_agrees true 0 (-3) 1 None (Some [7; 8]) [] _ []); [|reflexivity].
  split; [concrete..|constructor|concrete|concrete|concrete].
Defined.

Section truncated.
Context {P : Type} {HP : Parser P} {HL : ParserLaws P}.

(** Reading an integer past the end of the buffer yields zero, not an error. *)
Lemma read_varlong_end (p : P) k : view p [] k ->
  exists p', read_varlong p = Ok (0, 0, p') /\ view p' [] k.
Proof.
  intros Hp. unfold read_varlong. rewrite (view_range _ _ _ Hp), vint.deserialize_nil.
  destruct (skip_ok _ _ _ 0 Hp) as (p' & -> & Hp'); [by change (blen []) with 0|].
  exists p'. split; [done|]. by rewrite Z.add_0_r in Hp'.
Qed.

Lemma skip_record_fields_end (p : P) size k : 0 <= size -> view p [] k ->
  exists p', skip_record_fields size p = Ok p' /\ view p' [] k.
Proof.
  intros Hs Hp. unfold skip_record_fields.
  destruct (read_varlong_end p k Hp) as (p1 & -> & Hp1). cbn [mbind res_bind].
  rewrite !Z.gtb_ltb. destruct (Z.ltb_spec size 0); [lia|]. cbn [throw_if mbind res_bind Z.ltb Z.compare].
  destruct (read_varlong_end p1 k Hp1) as (p2 & -> & Hp2). cbn [mbind res_bind].
  rewrite !Z.gtb_ltb. destruct (Z.ltb_spec size 0); [lia|]. cbn [throw_if mbind res_bind Z.ltb Z.compare].
  destruct (read_varlong_end p2 k Hp2) as (p3 & -> & Hp3). cbn [mbind res_bind].
  rewrite (view_left _ _ _ Hp3). cbn. eauto.
Qed.
End truncated.

(** A buffer that ends right after the two deltas of a record, with a size field
    that counts just those, has no key length, value length or header count; the
    fully parsing mode accepts it, the skipping mode rejects it. *)
Theorem truncated_record_modes attrs ts od frags :
  is_u 8 attrs -> is_s 64 ts -> is_s 32 od ->
  let size := 1 + vint.vint_size ts + vint.vint_size od in
  concat frags = vint.serialize size ++ attrs :: vint.serialize ts ++ vint.serialize od ->
  let p := iobuf_parser.Owned (iobuf_parser.make frags) in
  (exists p', parse_record_metadata_from_buffer true p
     = Ok ({| m_size_bytes := size; m_attributes := attrs;
              m_timestamp_delta := ts; m_offset_delta := od |}, p')) /\
  parse_record_metadata_from_buffer false p = Throw out_of_range.
Proof.
  intros Ha Ht Ho size E p. assert (Ho64 : is_s 64 od) by ranges.
  pose proof (vint.size_bounds _ Ht) as B1. pose proof (vint.size_bounds _ Ho64) as B2.
  unfold vint.max_length in B1, B2.
  assert (Hsz : is_s 64 size) by ranges. pose proof (vint.size_bounds _ Hsz) as B3.
  unfold vint.max_length in B3.
  pose proof (iobuf_parser.owned_make_view frags : view p _ 0) as Hv. rewrite E in Hv.
  rewrite <- (app_nil_r (vint.serialize od)) in Hv.
  assert (Hlen : 0 <= size <= 1 + blen (vint.serialize ts ++ vint.serialize od ++ [])).
  { rewrite !blen_app, !vint.length_serialize by done. change (blen []) with 0. lia. }
  destruct (parse_meta_view p size attrs _ 0 Hlen Hsz Hv) as (p0 & E0 & V0).
  destruct (read_varlong_view p0 _ _ _ Ht V0) as (p1 & E1 & V1).
  destruct (read_varlong_view p1 _ _ _ Ho64 V1) as (p2 & E2 & V2).
  unfold parse_record_metadata_from_buffer.
  rewrite E0; cbn [mbind res_bind]. rewrite E1; cbn [mbind res_bind].
  rewrite E2; cbn [mbind res_bind negb].
  rewrite attributes_roundtrip, !swrap_id by (done || ranges). split.
  - destruct (skip_record_fields_end p2 size _ ltac:(lia) V2) as (p3 & -> & V3).
    cbn [mbind res_bind]. rewrite (view_consumed _ _ _ V2), (view_consumed _ _ _ V3).
    rewrite (uwrap_id 64 size), (uwrap_id 64 (_ - (_ + _))) by ranges. rewrite uwrap_id by ranges.
    match goal with |- context [?x =? size] => destruct (Z.eqb_spec x size); [|lia] end.
    cbn. eauto.
  - by destruct (Z.leb_spec size (1 + vint.vint_size ts + vint.vint_size od)); [|lia].
Qed.

Lemma truncated_record_modes_witness :
  parse_record_metadata_from_buffer false
    (iobuf_parser.Owned (iobuf_parser.make [[6; 0]; [2; 0]])) = Throw out_of_range.
Proof. apply (truncated_record_modes 0 1 0 [[6; 0]; [2; 0]]); [concrete..|reflexivity]. Defined.
