(* ===== verification/RecordBatch.v ===== *)
(** * Record batches (model/record.h, model/record.cc, model/record_utils.cc,
      model/batch_compression.cc)

    The batch attributes and header, the producer and batch identities, the
    batch with its checksums and its iteration over records, and batch
    compression.  The payload is an iobuf, so [records] is a list of fragments.

    [crc32c::Extend] of the crc32c library and the codecs behind
    [compression::compressor] are not part of the repository: they are the
    parameters [crc_extend], [uncompress] and [compress]. *)

From S2P Require Import Prelude Vint IobufParser Record.

(** ** Enumerations *)

Inductive compression := none | gzip | snappy | lz4 | zstd | count | producer.
Inductive timestamp_type := create_time | append_time.

#[global] Instance compression_eq_dec : EqDecision compression.
Proof. solve_decision. Defined.
#[global] Instance timestamp_type_eq_dec : EqDecision timestamp_type.
Proof. solve_decision. Defined.

(** The underlying value of [model::compression]. *)
Definition compression_code (c : compression) : Z :=
  match c with
  | none => 0 | gzip => 1 | snappy => 2 | lz4 => 3 | zstd => 4 | count => 5
  | producer => 255
  end.

(** [model::timestamp::missing()]. *)
Definition missing_timestamp : Z := -1.

(** The batch types named here; the enumeration is an [int8_t]. *)
Definition raft_data : Z := 1.

(** ** Batch attributes: a [bitset<16>] held as an unsigned 16-bit word *)

Module record_batch_attributes.

Definition compression_mask : Z := 0x7.
Definition timestamp_type_mask : Z := 0x8.
Definition transactional_mask : Z := 0x10.
Definition control_mask : Z := 0x20.

Definition make (v : Z) : Z := u16 v.
Definition value (a : Z) : Z := s16 a.

Definition is_control (a : Z) : bool := negb (Z.land a control_mask =? 0).
Definition is_transactional (a : Z) : bool := negb (Z.land a transactional_mask =? 0).
Definition is_valid_compression (a : Z) : bool :=
  let at_ := Z.land a compression_mask in (at_ >=? 0) && (at_ <=? 4).

Definition get_compression (a : Z) : res compression :=
  match Z.land a compression_mask with
  | 0 => Ok none
  | 1 => Ok gzip
  | 2 => Ok snappy
  | 3 => Ok lz4
  | 4 => Ok zstd
  | _ => Throw runtime_error
  end.

Definition get_timestamp_type (a : Z) : timestamp_type :=
  if Z.testbit a 3 then append_time else create_time.

Definition set_timestamp_type (a : Z) (t : timestamp_type) : Z :=
  if decide (t = append_time) then Z.setbit a 3 else Z.clearbit a 3.

Definition set_control_type (a : Z) : Z := Z.lor a control_mask.
Definition set_transactional_type (a : Z) : Z := Z.lor a transactional_mask.
Definition remove_transactional_type (a : Z) : Z := Z.land a (u16 (Z.lnot transactional_mask)).

(** [operator|=(model::compression)] and [remove_compression]. *)
Definition or_compression (a : Z) (c : compression) : Z :=
  Z.lor a (Z.land (compression_code c) compression_mask).
Definition remove_compression (a : Z) : Z := Z.land a (u16 (Z.lnot compression_mask)).

(** [operator|=(model::timestamp_type)]. *)
Definition or_timestamp_type (a : Z) (t : timestamp_type) : Z :=
  Z.lor a (Z.land ((if decide (t = append_time) then 1 else 0) ≪ 3) timestamp_type_mask).

Lemma get_set_timestamp_type a t : get_timestamp_type (set_timestamp_type a t) = t.
Proof.
  unfold get_timestamp_type, set_timestamp_type. case_decide as Ht.
  - by rewrite Z.setbit_eq by lia.
  - rewrite Z.clearbit_eq. by destruct t.
Qed.

End record_batch_attributes.

(** ** The header *)

Record record_batch_header := {
  header_crc : Z;
  b_size_bytes : Z;
  base_offset : Z;
  type : Z;
  crc : Z;
  attrs : Z;
  last_offset_delta : Z;
  first_timestamp : Z;
  max_timestamp : Z;
  producer_id : Z;
  producer_epoch : Z;
  base_sequence : Z;
  record_count : Z;
  ctx_term : Z;
  ctx_owner_shard : option Z;
}.

#[global] Instance record_batch_header_eq_dec : EqDecision record_batch_header.
Proof. solve_decision. Defined.

Definition packed_record_batch_header_size : Z := 61.

Definition last_offset (h : record_batch_header) : Z :=
  s64 (base_offset h + last_offset_delta h).

Definition contains (h : record_batch_header) (offset : Z) : bool :=
  (base_offset h <=? offset) && (offset <=? last_offset h).

(** Copies of a header with some fields replaced. *)
Definition with_timestamp (h : record_batch_header) (a ts : Z) : record_batch_header :=
  {| header_crc := header_crc h; b_size_bytes := b_size_bytes h; base_offset := base_offset h;
     type := type h; crc := crc h; attrs := a; last_offset_delta := last_offset_delta h;
     first_timestamp := first_timestamp h; max_timestamp := ts; producer_id := producer_id h;
     producer_epoch := producer_epoch h; base_sequence := base_sequence h;
     record_count := record_count h; ctx_term := ctx_term h; ctx_owner_shard := ctx_owner_shard h |}.

Definition with_attrs (h : record_batch_header) (a : Z) : record_batch_header :=
  with_timestamp h a (max_timestamp h).

Definition with_checksums (h : record_batch_header) (hc sz c : Z) : record_batch_header :=
  {| header_crc := hc; b_size_bytes := sz; base_offset := base_offset h;
     type := type h; crc := c; attrs := attrs h; last_offset_delta := last_offset_delta h;
     first_timestamp := first_timestamp h; max_timestamp := max_timestamp h;
     producer_id := producer_id h; producer_epoch := producer_epoch h;
     base_sequence := base_sequence h; record_count := record_count h;
     ctx_term := ctx_term h; ctx_owner_shard := ctx_owner_shard h |}.

(** ** Identities *)

Record producer_identity := { pid_id : Z; pid_epoch : Z }.

#[global] Instance producer_identity_eq_dec : EqDecision producer_identity.
Proof. solve_decision. Defined.

Definition no_producer_id : Z := -1.
Definition no_producer_epoch : Z := -1.

Definition with_next_epoch (p : producer_identity) : producer_identity :=
  {| pid_id := pid_id p; pid_epoch := s16 (pid_epoch p + 1) |}.
Definition has_exhausted_epoch (p : producer_identity) : bool :=
  pid_epoch p >=? (2 ^ 15 - 1) - 1.

Record batch_identity := {
  pid : producer_identity;
  first_seq : Z;
  last_seq : Z;
  bid_record_count : Z;
  bid_max_timestamp : Z;
  bid_is_transactional : bool;
}.

Definition increment_sequence (sequence increment : Z) : Z :=
  if sequence >? s32 (int32_max - increment)
  then s32 (s32 (increment - s32 (int32_max - sequence)) - 1)
  else s32 (sequence + increment).

Definition batch_identity_from (hdr : record_batch_header) : batch_identity := {|
  pid := {| pid_id := producer_id hdr; pid_epoch := producer_epoch hdr |};
  first_seq := base_sequence hdr;
  last_seq := increment_sequence (base_sequence hdr) (last_offset_delta hdr);
  bid_record_count := record_count hdr;
  bid_max_timestamp := max_timestamp hdr;
  bid_is_transactional := record_batch_attributes.is_transactional (attrs hdr);
|}.

Definition is_idempotent (b : batch_identity) : bool := pid_id (pid b) >? no_producer_id.

(** ** The batch *)

Record record_batch := {
  header : record_batch_header;
  records : list bytes;
  compressed : bool;
}.

#[global] Instance record_batch_eq_dec : EqDecision record_batch.
Proof. solve_decision. Defined.

Definition batch_size_bytes (b : record_batch) : Z := b_size_bytes (header b).
Definition batch_record_count (b : record_batch) : Z := record_count (header b).

Definition contains_transactional_data (b : record_batch) : bool :=
  record_batch_attributes.is_transactional (attrs (header b))
  || (record_batch_attributes.is_control (attrs (header b)) && (producer_id (header b) >=? 0)).

(** The size assertion of both constructors. *)
Definition size_matches (h : record_batch_header) (recs : list bytes) : bool :=
  b_size_bytes h =? s32 (packed_record_batch_header_size + blen (concat recs)).

(** The constructor from a list of records, which encodes them into one buffer. *)
Definition make_batch_from_records (h : record_batch_header) (recs : list record)
    : res record_batch :=
  _ ← vassert (record_count h =? s32 (blen recs));
  let payload := [foldl append_record_to_buffer [] recs] in
  _ ← vassert (size_matches h payload);
  Ok {| header := h; records := payload; compressed := false |}.

(** The constructor with [tag_ctor_ng]. *)
Definition make_batch (h : record_batch_header) (recs : list bytes) : res record_batch :=
  c ← record_batch_attributes.get_compression (attrs h);
  _ ← vassert (size_matches h recs);
  Ok {| header := h; records := recs; compressed := bool_decide (c <> none) |}.

(** ** Integers in memory order *)

Fixpoint le_bytes (n : nat) (v : Z) : bytes :=
  match n with O => [] | S n => v mod 256 :: le_bytes n (v / 256) end.
Definition be_bytes (n : nat) (v : Z) : bytes := rev (le_bytes n v).

Lemma le_bytes_length n v : length (le_bytes n v) = n.
Proof. revert v. induction n as [|n IH]; intros v; cbn; [done|]. by rewrite IH. Qed.

Lemma be_bytes_length n v : length (be_bytes n v) = n.
Proof. unfold be_bytes. by rewrite length_rev, le_bytes_length. Qed.

Lemma be_bytes_blen n v : blen (be_bytes n v) = Z.of_nat n.
Proof. unfold blen. by rewrite be_bytes_length. Qed.

(** A fixed-width integer read back from memory. *)
Lemma le_value_le_bytes n v : le_value (le_bytes n v) = uwrap (8 * Z.of_nat n) v.
Proof.
  revert v. induction n as [|n IH]; intros v.
  - unfold uwrap. change (2 ^ (8 * Z.of_nat 0)) with 1. by rewrite Z.mod_1_r.
  - cbn [le_bytes le_value]. rewrite IH. unfold uwrap.
    replace (8 * Z.of_nat (S n)) with (8 + 8 * Z.of_nat n) by lia.
    rewrite Z.pow_add_r by lia. change (2 ^ 8) with 256.
    rewrite Z.rem_mul_r by lia. done.
Qed.

Lemma be_value_be_bytes n v : be_value (be_bytes n v) = uwrap (8 * Z.of_nat n) v.
Proof. unfold be_value, be_bytes. rewrite rev_involutive. apply le_value_le_bytes. Qed.

(** ** Checksums *)

Section crc.
Variable crc_extend : Z -> bytes -> Z.

(** [internal_header_only_crc]: the fields in order, each extended little-endian. *)
Definition internal_header_only_crc (h : record_batch_header) : Z :=
  foldl crc_extend 0
    [le_bytes 4 (b_size_bytes h); le_bytes 8 (base_offset h); le_bytes 1 (type h);
     le_bytes 4 (crc h); le_bytes 2 (record_batch_attributes.value (attrs h));
     le_bytes 4 (last_offset_delta h); le_bytes 8 (first_timestamp h);
     le_bytes 8 (max_timestamp h); le_bytes 8 (producer_id h);
     le_bytes 2 (producer_epoch h); le_bytes 4 (base_sequence h);
     le_bytes 4 (record_count h)].

Definition crc_record_batch_header (c : Z) (h : record_batch_header) : Z :=
  foldl crc_extend c
    [be_bytes 2 (record_batch_attributes.value (attrs h)); be_bytes 4 (last_offset_delta h);
     be_bytes 8 (first_timestamp h); be_bytes 8 (max_timestamp h);
     be_bytes 8 (producer_id h); be_bytes 2 (producer_epoch h);
     be_bytes 4 (base_sequence h); be_bytes 4 (record_count h)].

(** [crc_extend_iobuf] extends by one chunk per non-empty fragment. *)
Definition crc_extend_iobuf (c : Z) (buf : list bytes) : Z :=
  let '(_, c, _) := io_iterator_consumer.consume (fun c src => (crc_extend c src, false))
                      (blen (concat buf)) c (io_iterator_consumer.make buf) in c.

Definition crc_record_batch (h : record_batch_header) (recs : list bytes) : Z :=
  crc_extend_iobuf (crc_record_batch_header 0 h) recs.

(** [record_batch_header::reset_size_checksum_metadata]. *)
Definition reset_size_checksum_metadata (h : record_batch_header) (recs : list bytes)
    : record_batch_header :=
  let h := with_checksums h (header_crc h)
             (s32 (packed_record_batch_header_size + blen (concat recs))) (crc h) in
  let h := with_checksums h (header_crc h) (b_size_bytes h) (crc_record_batch h recs) in
  with_checksums h (internal_header_only_crc h) (b_size_bytes h) (crc h).

(** [record_batch::set_max_timestamp]. *)
Definition set_max_timestamp (b : record_batch) (t : timestamp_type) (ts : Z) : record_batch :=
  let h := header b in
  if bool_decide (record_batch_attributes.get_timestamp_type (attrs h) = t)
     && (max_timestamp h =? ts)
  then b
  else
    let h := with_timestamp h (record_batch_attributes.set_timestamp_type (attrs h) t) ts in
    let h := with_checksums h (header_crc h) (b_size_bytes h) (crc_record_batch h (records b)) in
    let h := with_checksums h (internal_header_only_crc h) (b_size_bytes h) (crc h) in
    {| header := h; records := records b; compressed := compressed b |}.

(** One call of [record_batch_crc_checker], on a checker that has seen no error. *)
Definition crc_checker (verify_internal_header : bool) (rb : record_batch) : bool :=
  let header_crc_pass :=
    negb verify_internal_header
    || (header_crc (header rb) =? internal_header_only_crc (header rb)) in
  header_crc_pass && (crc (header rb) =? crc_record_batch (header rb) (records rb)).

(** *** Facts *)

(** The payload checksum reads only the fields it covers. *)
Lemma crc_record_batch_with_checksums h recs hc sz c :
  crc_record_batch (with_checksums h hc sz c) recs = crc_record_batch h recs.
Proof. done. Qed.

Lemma internal_crc_with_header_crc h hc :
  internal_header_only_crc (with_checksums h hc (b_size_bytes h) (crc h))
  = internal_header_only_crc h.
Proof. done. Qed.

Lemma reset_checksums_valid v h recs c :
  crc_checker v {| header := reset_size_checksum_metadata h recs;
                   records := recs; compressed := c |} = true.
Proof.
  unfold crc_checker, reset_size_checksum_metadata; cbn [header records].
  rewrite !crc_record_batch_with_checksums, !internal_crc_with_header_crc.
  cbn [header_crc crc with_checksums]. rewrite !Z.eqb_refl. by destruct v.
Qed.

Lemma reset_size h recs :
  size_matches (reset_size_checksum_metadata h recs) recs = true.
Proof. unfold size_matches. apply Z.eqb_refl. Qed.

Lemma set_max_timestamp_fields b t ts :
  let b' := set_max_timestamp b t ts in
  max_timestamp (header b') = ts /\
  record_batch_attributes.get_timestamp_type (attrs (header b')) = t /\
  first_timestamp (header b') = first_timestamp (header b) /\
  records b' = records b /\ compressed b' = compressed b.
Proof.
  unfold set_max_timestamp.
  destruct (bool_decide_reflect (record_batch_attributes.get_timestamp_type
    (attrs (header b)) = t)); [destruct (Z.eqb_spec (max_timestamp (header b)) ts)|];
    cbn [andb]; [done|..];
    (split_and!; try done; apply record_batch_attributes.get_set_timestamp_type).
Qed.

Lemma set_max_timestamp_valid v b t ts :
  crc_checker v b = true -> crc_checker v (set_max_timestamp b t ts) = true.
Proof.
  intros Hb. unfold set_max_timestamp. destruct (_ && _); [done|].
  unfold crc_checker; cbn [header records].
  rewrite !crc_record_batch_with_checksums, !internal_crc_with_header_crc.
  cbn [header_crc crc with_checksums]. rewrite !Z.eqb_refl. by destruct v.
Qed.
End crc.

(** The payload checksum does not depend on how the payload is fragmented, by the
    documented law of [crc32c::Extend]: extending by two pieces is extending by
    their concatenation. *)
Class CrcLaws (crc_extend : Z -> bytes -> Z) : Prop := {
  crc_extend_nil c : crc_extend c [] = c;
  crc_extend_app c a b : crc_extend (crc_extend c a) b = crc_extend c (a ++ b);
}.

Lemma crc_extend_iobuf_flat `{CrcLaws crc_extend} c buf :
  crc_extend_iobuf crc_extend c buf = crc_extend c (concat buf).
Proof.
  unfold crc_extend_iobuf. pose proof (blen_nonneg (concat buf)).
  destruct (io_iterator_consumer.consume_spec crc_extend) with
    (blen (concat buf)) c (io_iterator_consumer.make buf) as (c' & -> & _);
    [apply crc_extend_nil|apply crc_extend_app|done|].
  change (io_iterator_consumer.unread (io_iterator_consumer.make buf)) with (concat buf).
  rewrite Z.min_id. unfold btake, blen. rewrite Nat2Z.id, firstn_all. done.
Qed.

(** ** Iteration over the records of a batch *)

Section iterate.
Variable uninit : nat -> byte.

#[local] Existing Instance iobuf_parser.const_parser.
Abbreviation CP := (iobuf_parser.const_parser uninit).

(** [record_batch_copy_iterator::create]. *)
Definition copy_iterator_create (b : record_batch) : res iobuf_parser.iobuf_const_parser :=
  _ ← vassert (negb (compressed b));
  Ok (iobuf_parser.ConstRef (iobuf_parser.make (records b))).

(** [record_batch_copy_iterator::next], with [n] records to come after this one. *)
Definition copy_iterator_next (n : nat) (p : iobuf_parser.iobuf_const_parser)
    : res (record * iobuf_parser.iobuf_const_parser) :=
  '(r, p) ← @parse_one_record_from_buffer _ CP p;
  _ ← throw_if ((n =? 0)%nat && negb (@bytes_left _ CP p =? 0)) out_of_range;
  Ok (r, p).

Section for_each.
Context {A : Type} (f : A -> record -> A * bool).

(** The loop of [for_each_record]; [f] answers [true] to stop. *)
Fixpoint for_each_record_loop (n : nat) (acc : A) (p : iobuf_parser.iobuf_const_parser)
    : res A :=
  match n with
  | O => Ok acc
  | S n =>
      '(r, p) ← copy_iterator_next n p;
      let '(acc, stop) := f acc r in
      if stop : bool then Ok acc else for_each_record_loop n acc p
  end.

Definition for_each_record (b : record_batch) (acc : A) : res A :=
  p ← copy_iterator_create b;
  for_each_record_loop (Z.to_nat (batch_record_count b)) acc p.
End for_each.

Definition copy_records (b : record_batch) : res (list record) :=
  for_each_record (fun ret r => (ret ++ [r], false)) b [].

Section for_each_metadata.
Context {A : Type} (f : A -> record_metadata -> A * bool) (fully_parse_records : bool).

(** The loop of [for_each_record_metadata]: the accumulator, whether every record
was visited ([i == rc]), and the parser. *)
Fixpoint for_each_metadata_loop (n : nat) (acc : A) (p : iobuf_parser.iobuf_const_parser)
    : res (A * bool * iobuf_parser.iobuf_const_parser) :=
  match n with
  | O => Ok (acc, true, p)
  | S n =>
      '(m, p) ← @parse_record_metadata_from_buffer _ CP fully_parse_records p;
      let '(acc, stop) := f acc m in
      if stop : bool then Ok (acc, false, p) else for_each_metadata_loop n acc p
  end.

Definition for_each_record_metadata (b : record_batch) (acc : A) : res A :=
  let rc := batch_record_count b in
  let p := iobuf_parser.ConstRef (iobuf_parser.make (records b)) in
  '(acc, all, p) ← for_each_metadata_loop (Z.to_nat rc) acc p;
  _ ← throw_if (all && (rc >=? 0) && negb (@bytes_left _ CP p =? 0)) out_of_range;
  Ok acc.
End for_each_metadata.
End iterate.

(** *** Iterating over encoded records *)

Definition encode_records (recs : list record) : bytes := foldl append_record_to_buffer [] recs.

Lemma foldl_append_records a recs : Forall record_wf recs ->
  foldl append_record_to_buffer a recs = a ++ concat (append_record_to_buffer [] <$> recs).
Proof.
  intros Hr. revert a. induction Hr as [|r recs Hr _ IH]; intros a; cbn; [by rewrite app_nil_r|].
  rewrite IH, !append_record_eq by apply Hr. by rewrite <- !app_assoc.
Qed.

Lemma encode_records_eq recs : Forall record_wf recs ->
  encode_records recs = concat (append_record_to_buffer [] <$> recs).
Proof. intros. unfold encode_records. by rewrite foldl_append_records. Qed.

Section iterate_facts.
Variable uninit : nat -> byte.
Abbreviation CP := (iobuf_parser.const_parser uninit).
#[local] Existing Instance iobuf_parser.const_laws.
Abbreviation cview := (@view _ CP (iobuf_parser.const_laws uninit)).

Lemma copy_iterator_next_view n p r (recs : list record) k :
  record_wf r -> length recs = n ->
  cview p (append_record_to_buffer [] r ++ concat (append_record_to_buffer [] <$> recs)) k ->
  exists p', copy_iterator_next uninit n p = Ok (r, p') /\
    cview p' (concat (append_record_to_buffer [] <$> recs)) (k + blen (append_record_to_buffer [] r)).
Proof.
  intros Hr Hn Hp. unfold copy_iterator_next.
  destruct (@parse_append_view _ CP (iobuf_parser.const_laws uninit) p r _ k Hr Hp) as (p' & -> & Hp').
  cbn [mbind res_bind]. exists p'. split; [|done].
  rewrite (@view_left _ CP (iobuf_parser.const_laws uninit) _ _ _ Hp').
  by destruct recs; cbn in Hn; subst n.
Qed.

Lemma copy_records_loop_view recs acc p k :
  Forall record_wf recs -> cview p (concat (append_record_to_buffer [] <$> recs)) k ->
  for_each_record_loop uninit (fun ret r => (ret ++ [r], false)) (length recs) acc p
  = Ok (acc ++ recs).
Proof.
  intros Hr. revert acc p k. induction Hr as [|r recs Hr _ IH]; intros acc p k Hp;
    cbn [length for_each_record_loop].
  - by rewrite app_nil_r.
  - destruct (copy_iterator_next_view (length recs) p r recs k Hr eq_refl Hp) as (p' & -> & Hp').
    cbn [mbind res_bind]. rewrite (IH _ _ _ Hp'), <- app_assoc. done.
Qed.

Lemma copy_records_encoded b recs :
  Forall record_wf recs -> compressed b = false ->
  concat (records b) = encode_records recs -> batch_record_count b = blen recs ->
  copy_records uninit b = Ok recs.
Proof.
  intros Hr Hc Hrec Hcnt. unfold copy_records, for_each_record, copy_iterator_create.
  rewrite Hc, Hcnt. cbn [negb vassert mbind res_bind]. unfold blen. rewrite Nat2Z.id.
  pose proof (iobuf_parser.const_make_view uninit (records b)) as Hv.
  rewrite Hrec, encode_records_eq in Hv by done.
  exact (copy_records_loop_view recs [] _ _ Hr Hv).
Qed.

(** The iteration as a fold that may stop early: the accumulator, and whether every
    element was visited. *)
Fixpoint fold_stop {A B} (f : A -> B -> A * bool) (acc : A) (l : list B) : A * bool :=
  match l with
  | [] => (acc, true)
  | x :: l => let '(acc, stop) := f acc x in
              if stop : bool then (acc, false) else fold_stop f acc l
  end.

Lemma fold_stop_never {A B} (f : A -> B -> A) acc l :
  fold_stop (fun a x => (f a x, false)) acc l = (foldl f acc l, true).
Proof. revert acc. induction l as [|x l IH]; intros acc; cbn; [done|]. by rewrite IH. Qed.

Lemma metadata_loop_view {A} (f : A -> record_metadata -> A * bool) full recs acc p k :
  Forall record_wf recs -> cview p (concat (append_record_to_buffer [] <$> recs)) k ->
  0 <= k -> k + blen (concat (append_record_to_buffer [] <$> recs)) < 2 ^ 62 ->
  let r := fold_stop f acc (metadata_of <$> recs) in
  exists p', for_each_metadata_loop uninit f full (length recs) acc p = Ok (r.1, r.2, p') /\
    (r.2 = true -> exists k', cview p' [] k').
Proof.
  intros Hr. revert acc p k. induction Hr as [|r recs Hr _ IH]; intros acc p k Hp Hk Hb;
    cbn [length for_each_metadata_loop].
  - exists p. eauto.
  - cbn in Hp, Hb. rewrite blen_app in Hb.
    pose proof (blen_nonneg (append_record_to_buffer [] r)).
    pose proof (blen_nonneg (concat (append_record_to_buffer [] <$> recs))).
    destruct (@metadata_view _ CP (iobuf_parser.const_laws uninit) full p r _ k Hr Hp ltac:(lia))
      as (p' & -> & Hp').
    cbn [mbind res_bind]. rewrite fmap_cons. cbn [fold_stop].
    destruct (f acc (metadata_of r)) as [acc' [|]].
    + exists p'. done.
    + apply (IH _ _ _ Hp'); lia.
Qed.

(** The metadata iteration over encoded records visits their metadata in order. *)
Lemma for_each_metadata_stop {A} (f : A -> record_metadata -> A * bool) full b recs acc :
  Forall record_wf recs -> concat (records b) = encode_records recs ->
  batch_record_count b = blen recs -> blen (encode_records recs) < 2 ^ 62 ->
  for_each_record_metadata uninit f full b acc = Ok (fold_stop f acc (metadata_of <$> recs)).1.
Proof.
  intros Hr Hrec Hcnt Hb. unfold for_each_record_metadata. rewrite Hcnt.
  replace (Z.to_nat (blen recs)) with (length recs) by (unfold blen; lia).
  pose proof (iobuf_parser.const_make_view uninit (records b)) as Hv.
  rewrite Hrec, encode_records_eq in Hv by done. rewrite encode_records_eq in Hb by done.
  destruct (metadata_loop_view f full recs acc _ 0 Hr Hv) as (p' & -> & Hp'); [lia|lia|].
  cbn [mbind res_bind]. destruct (fold_stop f acc (metadata_of <$> recs)) as [acc' [|]]; [|done].
  destruct (Hp' eq_refl) as (k' & Hk). cbn [snd fst].
  rewrite (@view_left _ CP (iobuf_parser.const_laws uninit) _ _ _ Hk). by rewrite andb_false_r.
Qed.

Lemma for_each_metadata_encoded {A} (f : A -> record_metadata -> A) full b recs acc :
  Forall record_wf recs -> concat (records b) = encode_records recs ->
  batch_record_count b = blen recs -> blen (encode_records recs) < 2 ^ 62 ->
  for_each_record_metadata uninit (fun a m => (f a m, false)) full b acc
  = Ok (foldl f acc (metadata_of <$> recs)).
Proof.
  intros. rewrite for_each_metadata_stop with (recs := recs) by done. by rewrite fold_stop_never.
Qed.
End iterate_facts.

(** ** Batch compression (model/batch_compression.cc) *)

Inductive compression_type := t_gzip | t_java_snappy | t_lz4 | t_zstd.

Definition to_compression_type (c : compression) : res compression_type :=
  match c with
  | gzip => Ok t_gzip
  | snappy => Ok t_java_snappy
  | lz4 => Ok t_lz4
  | zstd => Ok t_zstd
  | none | count | producer => Throw runtime_error
  end.

Section batch_compression.
Variable crc_extend : Z -> bytes -> Z.
Variable uncompress : compression_type -> list bytes -> res (list bytes).
Variable compress : compression_type -> list bytes -> res (list bytes).

Definition decompress_batch (b : record_batch) : res record_batch :=
  _ ← throw_if (negb (compressed b)) runtime_error;
  c ← record_batch_attributes.get_compression (attrs (header b));
  t ← to_compression_type c;
  body_buf ← uncompress t (records b);
  let h := with_attrs (header b)
             (record_batch_attributes.remove_compression (attrs (header b))) in
  let h := reset_size_checksum_metadata crc_extend h body_buf in
  make_batch h body_buf.

Definition compress_batch (c : compression) (b : record_batch) : res record_batch :=
  _ ← throw_if (compressed b) runtime_error;
  _ ← throw_if (bool_decide (c = none)) runtime_error;
  t ← to_compression_type c;
  payload ← compress t (records b);
  let h := with_attrs (header b)
             (record_batch_attributes.or_compression (attrs (header b)) c) in
  let h := reset_size_checksum_metadata crc_extend h payload in
  make_batch h payload.
End batch_compression.

(** The compression bits of the attributes. *)
Lemma get_or_compression a c t :
  Z.land a 7 = 0 -> to_compression_type c = Ok t ->
  record_batch_attributes.get_compression (record_batch_attributes.or_compression a c) = Ok c.
Proof.
  intros Ha Ht. unfold record_batch_attributes.get_compression,
    record_batch_attributes.or_compression, record_batch_attributes.compression_mask.
  rewrite Z.land_lor_distr_l, Ha. destruct c; try discriminate; done.
Qed.

Lemma remove_or_compression a c :
  is_u 16 a -> Z.land a 7 = 0 ->
  record_batch_attributes.remove_compression (record_batch_attributes.or_compression a c) = a.
Proof.
  intros Hu Ha. unfold record_batch_attributes.remove_compression,
    record_batch_attributes.or_compression, record_batch_attributes.compression_mask.
  change (u16 (Z.lnot 7)) with 0xFFF8. rewrite Z.land_lor_distr_l.
  replace (Z.land (Z.land (compression_code c) 7) 0xFFF8) with 0 by (by destruct c).
  rewrite Z.lor_0_r. transitivity (Z.land a 0xFFFF).
  - change 0xFFFF with (Z.lor 0xFFF8 7). by rewrite Z.land_lor_distr_r, Ha, Z.lor_0_r.
  - change 0xFFFF with (Z.ones 16). rewrite Z.land_ones by lia. apply uwrap_id. done.
Qed.

(** Size and checksums depend on the contents of the payload only. *)
Lemma reset_concat `{CrcLaws crc_extend} h recs recs' :
  concat recs = concat recs' ->
  reset_size_checksum_metadata crc_extend h recs = reset_size_checksum_metadata crc_extend h recs'.
Proof.
  intros E. unfold reset_size_checksum_metadata, crc_record_batch.
  by rewrite !crc_extend_iobuf_flat, E.
Qed.

(** What the code relies on from the codecs: decompressing what was compressed
    returns the same bytes, possibly in other fragments. *)
Class CodecLaws (uncompress compress : compression_type -> list bytes -> res (list bytes)) : Prop := {
  codec_roundtrip t p q : compress t p = Ok q ->
    exists p', uncompress t q = Ok p' /\ concat p' = concat p;
}.

Lemma make_batch_reset crc_extend h recs c :
  record_batch_attributes.get_compression (attrs h) = Ok c ->
  make_batch (reset_size_checksum_metadata crc_extend h recs) recs
  = Ok {| header := reset_size_checksum_metadata crc_extend h recs; records := recs;
          compressed := bool_decide (c <> none) |}.
Proof.
  intros Hc. unfold make_batch.
  change (attrs (reset_size_checksum_metadata crc_extend h recs)) with (attrs h).
  rewrite Hc. cbn [mbind res_bind]. by rewrite reset_size.
Qed.

Lemma attrs_none a : Z.land a 7 = 0 -> record_batch_attributes.get_compression a = Ok none.
Proof.
  intros E. unfold record_batch_attributes.get_compression,
    record_batch_attributes.compression_mask. by rewrite E.
Qed.

Section compression_roundtrip.
Context (crc_extend : Z -> bytes -> Z) {HC : CrcLaws crc_extend}.
Context (uncompress compress : compression_type -> list bytes -> res (list bytes)).
Context {HK : CodecLaws uncompress compress}.

Lemma decompress_compress b c b' :
  is_u 16 (attrs (header b)) -> Z.land (attrs (header b)) 7 = 0 ->
  compress_batch crc_extend compress c b = Ok b' ->
  exists body, concat body = concat (records b) /\
    decompress_batch crc_extend uncompress b' =
    Ok {| header := reset_size_checksum_metadata crc_extend (header b) body;
          records := body; compressed := false |}.
Proof.
  intros Hu Ha E. unfold compress_batch in E.
  destruct (compressed b); [done|]. destruct (decide (c = none)) as [->|Hn]; [done|].
  rewrite bool_decide_eq_false_2 in E by done. cbn [throw_if mbind res_bind] in E.
  destruct (to_compression_type c) as [t| |] eqn:Et; try done. cbn [mbind res_bind] in E.
  destruct (compress t (records b)) as [payload| |] eqn:Ep; try done. cbn [mbind res_bind] in E.
  rewrite (make_batch_reset _ _ _ c) in E
    by (cbn [attrs with_attrs with_timestamp]; by eapply get_or_compression).
  rewrite bool_decide_eq_true_2 in E by done. injection E as <-.
  destruct (codec_roundtrip _ _ _ Ep) as (body & Eb & Hb). exists body. split; [done|].
  unfold decompress_batch. cbn [compressed negb throw_if mbind res_bind header records].
  cbn [attrs with_attrs with_timestamp reset_size_checksum_metadata with_checksums].
  rewrite (get_or_compression _ _ t) by done. cbn [mbind res_bind].
  rewrite Et. cbn [mbind res_bind]. rewrite Eb. cbn [mbind res_bind].
  rewrite remove_or_compression by done.
  rewrite (make_batch_reset _ _ _ none) by (cbn; by apply attrs_none).
  rewrite bool_decide_eq_false_2 by naive_solver. do 2 f_equal.
Qed.
End compression_roundtrip.

(** ** Properties *)

(** The sequence number after a batch is computed modulo 2^31: it never becomes
    negative, and it wraps from the largest sequence number to zero. *)
Theorem increment_sequence_mod seq inc :
  0 <= seq <= int32_max -> 0 <= inc <= int32_max ->
  increment_sequence seq inc = (seq + inc) mod 2 ^ 31.
Proof.
  intros Hs Hi. unfold increment_sequence.
  rewrite (swrap_id 32 (int32_max - inc)), (swrap_id 32 (int32_max - seq)) by ranges.
  rewrite Z.gtb_ltb. destruct (Z.ltb_spec (int32_max - inc) seq).
  - rewrite (swrap_id 32 (inc - (int32_max - seq))), swrap_id by ranges.
    apply (Z.mod_unique _ _ 1); ranges.
  - rewrite swrap_id by ranges. symmetry. apply Z.mod_small. ranges.
Qed.

Lemma increment_sequence_mod_witness : increment_sequence (2 ^ 31 - 2) 4 = 2.
Proof. rewrite increment_sequence_mod; [reflexivity|concrete|concrete]. Defined.

(** A batch built from a list of well-formed records iterates over exactly those
    records: [copy_records] returns the list, and the metadata iteration visits
    their metadata in order, in either mode, with no error. *)
Theorem batch_iterates_its_records uninit h recs b full :
  Forall record_wf recs -> blen recs <= int32_max ->
  blen (encode_records recs) < 2 ^ 31 - packed_record_batch_header_size ->
  make_batch_from_records h recs = Ok b ->
  copy_records uninit b = Ok recs /\
  for_each_record_metadata uninit (fun ms m => (ms ++ [m], false)) full b []
    = Ok (metadata_of <$> recs).
Proof.
  intros Hr Hn Hsz E. unfold make_batch_from_records in E.
  apply res_bind_Ok in E as ([] & Hcnt%vassert_Ok & E).
  apply res_bind_Ok in E as ([] & Hs%vassert_Ok & E). injection E as <-.
  pose proof (blen_nonneg recs). rewrite swrap_id in Hcnt by ranges.
  apply Z.eqb_eq in Hcnt.
  assert (Hc : concat [foldl append_record_to_buffer [] recs] = encode_records recs)
    by (cbn; apply app_nil_r).
  split.
  - by apply copy_records_encoded.
  - rewrite for_each_metadata_encoded with (f := fun ms m => ms ++ [m]) (recs := recs);
      [|done..|unfold packed_record_batch_header_size in Hsz; ranges].
    f_equal. assert (Hf : forall (l acc : list record_metadata),
      foldl (fun ms m => ms ++ [m]) acc l = acc ++ l); [|by rewrite Hf].
    induction l as [|x l IH]; intros acc; cbn; [by rewrite app_nil_r|].
    by rewrite IH, <- app_assoc.
Qed.

Definition example_records : list record :=
  [make_record 0 0 0 (Some [107]) (Some [1; 2]) []; make_record 0 3 1 None (Some [9]) []].
Definition example_header : record_batch_header := {|
  header_crc := 0; b_size_bytes := 61 + 18; base_offset := 0; type := raft_data; crc := 0;
  attrs := 0; last_offset_delta := 1; first_timestamp := 1000; max_timestamp := 1003;
  producer_id := 7; producer_epoch := 0; base_sequence := 0; record_count := 2;
  ctx_term := 1; ctx_owner_shard := None |}.

Lemma example_records_wf : Forall record_wf example_records.
Proof.
  repeat apply Forall_cons_2; [apply make_record_wf..|constructor];
    (split; [concrete..|constructor|concrete|concrete|concrete]).
Qed.

Lemma batch_iterates_its_records_witness :
  exists b, make_batch_from_records example_header example_records = Ok b /\
    copy_records (fun _ => 0) b = Ok example_records.
Proof.
  eexists. split; [reflexivity|].
  eapply (batch_iterates_its_records (fun _ => 0) example_header example_records _ true);
    [exact example_records_wf|concrete|concrete|reflexivity].
Defined.

(** Changing the maximum timestamp leaves a batch whose checksums are valid with
    valid checksums, sets the timestamp and its type, and touches nothing else of
    the payload. *)
Theorem set_max_timestamp_sound crc_extend v b t ts :
  crc_checker crc_extend v b = true ->
  let b' := set_max_timestamp crc_extend b t ts in
  crc_checker crc_extend v b' = true /\
  max_timestamp (header b') = ts /\
  record_batch_attributes.get_timestamp_type (attrs (header b')) = t /\
  first_timestamp (header b') = first_timestamp (header b) /\ records b' = records b.
Proof.
  intros Hv b'. pose proof (set_max_timestamp_fields crc_extend b t ts) as (? & ? & ? & ? & ?).
  split; [by apply set_max_timestamp_valid|]. done.
Qed.

(** A checksum good enough for examples: the sum of the bytes. *)
Definition sum_extend (c : Z) (b : bytes) : Z := foldl Z.add c b.

#[export] Instance sum_extend_laws : CrcLaws sum_extend.
Proof. split; intros; unfold sum_extend; [done|by rewrite foldl_app]. Qed.

Definition example_batch : record_batch :=
  let recs := [encode_records example_records] in
  {| header := reset_size_checksum_metadata sum_extend example_header recs;
     records := recs; compressed := false |}.

Lemma set_max_timestamp_sound_witness :
  max_timestamp (header (set_max_timestamp sum_extend example_batch append_time 77)) = 77.
Proof. apply (set_max_timestamp_sound sum_extend true); reflexivity. Defined.

(** Decompressing a batch that was compressed gives the batch back: the same
    records and the same header, sizes and checksums included, whenever the
    original carried up-to-date size and checksums. *)
Theorem compression_roundtrip_batch crc_extend uncompress compress c b b'
    (HC : CrcLaws crc_extend) (HK : CodecLaws uncompress compress) :
  is_u 16 (attrs (header b)) -> Z.land (attrs (header b)) 7 = 0 ->
  header b = reset_size_checksum_metadata crc_extend (header b) (records b) ->
  compress_batch crc_extend compress c b = Ok b' ->
  exists b'', decompress_batch crc_extend uncompress b' = Ok b'' /\
    header b'' = header b /\ concat (records b'') = concat (records b) /\ compressed b'' = false.
Proof.
  intros Hu Ha Hh E.
  destruct (decompress_compress crc_extend uncompress compress b c b' Hu Ha E) as (body & Hb & Hd).
  eexists. split; [exact Hd|]. cbn [header records compressed]. split; [|done].
  rewrite Hh at 2. by apply reset_concat.
Qed.

(** A codec for the example: compression marks the payload with one byte. *)
Definition mark_compress (t : compression_type) (p : list bytes) : res (list bytes) := Ok ([1] :: p).
Definition mark_uncompress (t : compression_type) (p : list bytes) : res (list bytes) :=
  match p with [1] :: p => Ok p | _ => Throw runtime_error end.
Lemma mark_codec : CodecLaws mark_uncompress mark_compress.
Proof. split. intros t p q E. injection E as <-. by exists p. Qed.

Lemma compression_roundtrip_batch_witness :
  exists b'', (b' ← compress_batch sum_extend mark_compress lz4 example_batch;
               decompress_batch sum_extend mark_uncompress b') = Ok b'' /\
    header b'' = header example_batch /\
    concat (records b'') = concat (records example_batch) /\ compressed b'' = false.
Proof.
  exact (compression_roundtrip_batch sum_extend mark_uncompress mark_compress lz4 example_batch _
    sum_extend_laws mark_codec ltac:(concrete) eq_refl eq_refl eq_refl).
Defined.
