(* ===== verification/BatchAdapter.v ===== *)
(** * Batches on the Kafka wire (kafka/protocol/kafka_batch_adapter.{h,cc},
      kafka/protocol/legacy_message.h, kafka/protocol/batch_consumer.h,
      [writer_serialize_batch] of kafka/protocol/wire.h,
      storage/record_batch_builder.{h,cc})

    A produce request carries batches in Kafka's format; [adapt] turns the bytes
    of one batch into a [record_batch], and legacy message sets go through
    [convert_message_set] and a [record_batch_builder].  In the other direction
    [writer_serialize_batch] and the [kafka_batch_serializer] write the batches
    of a fetch response.

    Parameters: [crc_extend] is [crc32c::Extend], [crc32_extend] the update of
    boost's crc32, [this_shard] the shard the code runs on, [now] the clock, and
    [uncompress], [compress] the codecs. *)

From S2P Require Import Prelude Vint IobufParser Record RecordBatch.

(** ** Slices and trimming of iobufs *)

(** [iobuf::trim_back]: drops whole fragments from the back, then cuts one. *)
Fixpoint trim_back_rev (rfs : list bytes) (n : Z) : list bytes :=
  match rfs with
  | [] => []
  | f :: rfs =>
      if blen f >? n then btake (blen f - n) f :: rfs
      else trim_back_rev rfs (n - blen f)
  end.
Definition trim_back (fs : list bytes) (n : Z) : list bytes :=
  rev (trim_back_rev (rev fs) n).

(** [iobuf_parser::share], keeping the fragments of the slice. *)
Definition share_iobuf (len : Z) (p : iobuf_parser.base) : res (list bytes * iobuf_parser.base) :=
  let ret := iobuf.share (iobuf_parser.buf p) (iobuf_parser.base_consumed p) len in
  p ← iobuf_parser.base_skip len p; Ok (ret, p).

(** [iobuf_parser::share_no_consume]. *)
Definition share_no_consume (len : Z) (p : iobuf_parser.base) : list bytes :=
  iobuf.share (iobuf_parser.buf p) (iobuf_parser.base_consumed p) len.

Abbreviation parser := iobuf_parser.iobuf_parser.
Abbreviation make_parser b := (iobuf_parser.Owned (iobuf_parser.make b)).

(** Big-endian integers of the signed types. *)
Definition read_s `{Parser P} (w : Z) (p : P) : res (Z * P) :=
  '(v, p) ← consume_be_type w p; Ok (swrap w v, p).

(** ** The v2 batch adapter *)

Definition kafka_header_size : Z := 8 + 4 + 4 + 1 + 4 + 2 + 4 + 8 + 8 + 8 + 2 + 4 + 4.

Record kafka_batch_adapter := {
  v2_format : bool;
  valid_crc : bool;
  legacy_error : bool;
  short_read : bool;
  batch : option record_batch;
}.

Definition new_adapter : kafka_batch_adapter :=
  {| v2_format := false; valid_crc := false; legacy_error := false; short_read := false;
     batch := None |}.

Definition set_v2_format (a : kafka_batch_adapter) (b : bool) : kafka_batch_adapter :=
  {| v2_format := b; valid_crc := valid_crc a; legacy_error := legacy_error a;
     short_read := short_read a; batch := batch a |}.
Definition set_valid_crc (a : kafka_batch_adapter) (b : bool) : kafka_batch_adapter :=
  {| v2_format := v2_format a; valid_crc := b; legacy_error := legacy_error a;
     short_read := short_read a; batch := batch a |}.
Definition set_legacy_error (a : kafka_batch_adapter) (b : bool) : kafka_batch_adapter :=
  {| v2_format := v2_format a; valid_crc := valid_crc a; legacy_error := b;
     short_read := short_read a; batch := batch a |}.
Definition set_short_read (a : kafka_batch_adapter) (b : bool) : kafka_batch_adapter :=
  {| v2_format := v2_format a; valid_crc := valid_crc a; legacy_error := legacy_error a;
     short_read := b; batch := batch a |}.
Definition set_batch (a : kafka_batch_adapter) (b : record_batch) : kafka_batch_adapter :=
  {| v2_format := v2_format a; valid_crc := valid_crc a; legacy_error := legacy_error a;
     short_read := short_read a; batch := Some b |}.

Section adapter.
Variable crc_extend : Z -> bytes -> Z.
Variable this_shard : Z.

(** [read_header]; [None] is the empty header of the early return, taken when the
    magic byte is not 2. *)
Definition read_header (p : parser) : res (option record_batch_header * parser) :=
  let initial_bytes_consumed := bytes_consumed p in
  '(base_offset, p) ← read_s 64 p;
  '(batch_length, p) ← read_s 32 p;
  '(partition_leader_epoch, p) ← read_s 32 p;
  '(magic, p) ← consume_type 8 p;
  if negb (s8 magic =? 2) then Ok (None, p)
  else
    '(crc, p) ← consume_be_type 32 p;
    '(attrs, p) ← read_s 16 p;
    '(last_offset_delta, p) ← read_s 32 p;
    '(first_timestamp, p) ← read_s 64 p;
    '(max_timestamp, p) ← read_s 64 p;
    '(producer_id, p) ← read_s 64 p;
    '(producer_epoch, p) ← read_s 16 p;
    '(base_sequence, p) ← read_s 32 p;
    let size_bytes := s32 (s32 (batch_length - kafka_header_size)
                           + (packed_record_batch_header_size + 8 + 4)) in
    '(record_count, p) ← read_s 32 p;
    let h := {|
      header_crc := 0; b_size_bytes := size_bytes; base_offset := base_offset;
      type := raft_data; crc := crc; attrs := record_batch_attributes.make attrs;
      last_offset_delta := last_offset_delta; first_timestamp := first_timestamp;
      max_timestamp := max_timestamp; producer_id := producer_id;
      producer_epoch := producer_epoch; base_sequence := base_sequence;
      record_count := record_count; ctx_term := partition_leader_epoch;
      ctx_owner_shard := Some this_shard |} in
    let total_bytes_consumed := u64 (bytes_consumed p - initial_bytes_consumed) in
    _ ← throw_if (negb (total_bytes_consumed =? kafka_header_size)) runtime_error;
    Ok (Some h, p).

(** The number of bytes before the checksummed part of a batch. *)
Definition checksum_data_offset_start : Z := 21.

(** [verify_crc]: the value [valid_crc] gets. *)
Definition verify_crc (h : record_batch_header) (p : parser) : res bool :=
  p ← skip checksum_data_offset_start p;
  let '(_, c, _) := io_iterator_consumer.consume (fun c src => (crc_extend c src, false))
                      (bytes_left p) 0 (iobuf_parser.in_ (iobuf_parser.owned p)) in
  Ok (crc h =? c).

(** The size of the fields the batch length does not count. *)
Definition kafka_length_diff : Z := 8 + 4.

(** The second half of [adapt]: [kbatch] holds the bytes of exactly one batch. *)
Definition adapt_batch (kbatch remainder : list bytes) (a : kafka_batch_adapter)
    : res (list bytes * kafka_batch_adapter) :=
  let p := make_parser (iobuf.share kbatch 0 (blen (concat kbatch))) in
  '(h, p) ← read_header p;
  match h with
  | None => Ok (remainder, set_v2_format a false)
  | Some h =>
      let a := set_v2_format a true in
      ok ← verify_crc h (make_parser kbatch);
      let a := set_valid_crc a ok in
      if negb ok then Ok (remainder, a)
      else
        let records_size := u32 (b_size_bytes h - packed_record_batch_header_size) in
        '(records, _) ← share_iobuf records_size (iobuf_parser.owned p);
        new_batch ← make_batch h records;
        Ok (remainder, set_batch a new_batch)
  end.

(** [adapt]: the remainder of the buffer and the adapter. *)
Definition adapt (kbatch : list bytes) (a : kafka_batch_adapter)
    : res (list bytes * kafka_batch_adapter) :=
  let size := blen (concat kbatch) in
  if size <? kafka_length_diff then Ok ([], set_short_read a true)
  else
    peeker ← skip 8 (make_parser (iobuf.share kbatch 0 kafka_length_diff));
    '(len, _) ← read_s 32 peeker;
    let batch_length := u64 (len + kafka_length_diff) in
    if batch_length >? size then Ok ([], set_short_read a true)
    else
      let remainder := iobuf.share kbatch batch_length (size - batch_length) in
      let trimmed_bytes := blen (concat remainder) in
      adapt_batch (trim_back kbatch trimmed_bytes) remainder a.
End adapter.

(** ** Serialization of a batch (wire.h, batch_consumer.h) *)

Definition invalid_leader_epoch : Z := -1.

(** [leader_epoch_from_term] of an engaged term. *)
Definition leader_epoch_from_term (term : Z) : Z :=
  if bool_decide (is_s 32 term) then term else invalid_leader_epoch.

(** [writer_serialize_batch]: the fields are appended to the buffer one by one, the
    payload last. *)
Definition kafka_header_bytes (b : record_batch) : bytes :=
  let h := header b in
  let size := u64 (b_size_bytes h - packed_record_batch_header_size + kafka_header_size - 8 - 4) in
  be_bytes 8 (base_offset h) ++ be_bytes 4 size ++
  be_bytes 4 (leader_epoch_from_term (ctx_term h)) ++ be_bytes 1 2 ++ be_bytes 4 (crc h) ++
  be_bytes 2 (record_batch_attributes.value (attrs h)) ++ be_bytes 4 (last_offset_delta h) ++
  be_bytes 8 (first_timestamp h) ++ be_bytes 8 (max_timestamp h) ++ be_bytes 8 (producer_id h) ++
  be_bytes 2 (producer_epoch h) ++ be_bytes 4 (base_sequence h) ++ be_bytes 4 (record_count h).

Definition writer_serialize_batch (out : bytes) (b : record_batch) : bytes :=
  out ++ kafka_header_bytes b ++ concat (records b).

Module kafka_batch_serializer.

Record serializer := {
  buf : bytes;
  sbase_offset : Z;
  slast_offset : Z;
  sfirst_timestamp : Z;
  first_tx_batch_offset : option Z;
  srecord_count : Z;
  sbatch_count : Z;
}.

Definition offset_min : Z := int64_min.

(** A default-constructed offset is the minimum offset, a timestamp -1. *)
Definition make : serializer :=
  {| buf := []; sbase_offset := offset_min; slast_offset := offset_min;
     sfirst_timestamp := missing_timestamp; first_tx_batch_offset := None;
     srecord_count := 0; sbatch_count := 0 |}.

(** [operator()]. *)
Definition call (s : serializer) (b : record_batch) : serializer :=
  let h := header b in
  let first := srecord_count s =? 0 in
  {| buf := writer_serialize_batch (buf s) b;
     sbase_offset := if first then base_offset h else sbase_offset s;
     slast_offset := last_offset h;
     sfirst_timestamp := if first then first_timestamp h else sfirst_timestamp s;
     first_tx_batch_offset :=
       if bool_decide (first_tx_batch_offset s = None)
          && record_batch_attributes.is_transactional (attrs h)
       then Some (base_offset h) else first_tx_batch_offset s;
     srecord_count := u32 (srecord_count s + record_count h);
     sbatch_count := u32 (sbatch_count s + 1) |}.

End kafka_batch_serializer.

(** ** Reading what was written *)

(** Fixed-width integers through the parser interface. *)
Section read_view.
Context {P : Type} {HP : Parser P} {HL : ParserLaws P}.

Lemma consume_be_view (p : P) n v rest k w :
  w = 8 * Z.of_nat n -> view p (be_bytes n v ++ rest) k ->
  exists p', consume_be_type w p = Ok (uwrap w v, p') /\ view p' rest (k + Z.of_nat n).
Proof.
  intros -> Hv. unfold consume_be_type.
  assert (Hl : blen (be_bytes n v) = Z.of_nat n) by (unfold blen; by rewrite be_bytes_length).
  assert (8 * Z.of_nat n / 8 = blen (be_bytes n v)) as -> by (rewrite Hl, Z.mul_comm; by apply Z.div_mul).
  destruct (consume_to_ok p _ k (blen (be_bytes n v)) Hv) as (p' & -> & Hp').
  { rewrite blen_app. pose proof (blen_nonneg rest). lia. }
  rewrite btake_app, bdrop_app in *. cbn [mbind res_bind]. rewrite be_value_be_bytes.
  exists p'. by rewrite <- Hl.
Qed.

Lemma read_s_view (p : P) n v rest k w :
  w = 8 * Z.of_nat n -> 1 <= w -> view p (be_bytes n v ++ rest) k ->
  exists p', read_s w p = Ok (swrap w v, p') /\ view p' rest (k + Z.of_nat n).
Proof.
  intros Hw Hw1 Hp. destruct (consume_be_view p n v rest k w Hw Hp) as (p' & E & Hp').
  exists p'. unfold read_s. rewrite E. cbn [mbind res_bind]. by rewrite swrap_uwrap.
Qed.

End read_view.

Lemma consume_byte_view (p : parser) x rest k :
  view p (x :: rest) k -> exists p', consume_type 8 p = Ok (x, p') /\ view p' rest (k + 1).
Proof.
  intros Hp. unfold consume_type. change (8 / 8) with 1.
  destruct (consume_to_ok p _ k 1 Hp) as (p' & -> & Hp').
  { rewrite blen_cons. pose proof (blen_nonneg rest). lia. }
  exists p'. cbn [mbind res_bind]. split; [|done].
  change (le_value (btake 1 (x :: rest))) with (x + 256 * 0). do 2 f_equal. lia.
Qed.

(** The header fields a batch on the wire can carry. *)
Record wire_header (h : record_batch_header) : Prop := {
  wire_size : is_s 32 (b_size_bytes h);
  wire_base : is_s 64 (base_offset h);
  wire_crc : is_u 32 (crc h);
  wire_attrs : is_u 16 (attrs h);
  wire_delta : is_s 32 (last_offset_delta h);
  wire_first : is_s 64 (first_timestamp h);
  wire_max : is_s 64 (max_timestamp h);
  wire_pid : is_s 64 (producer_id h);
  wire_epoch : is_s 16 (producer_epoch h);
  wire_seq : is_s 32 (base_sequence h);
  wire_count : is_s 32 (record_count h);
}.

(** What the reader makes of a header: the fields that do not travel are reset. *)
Definition received_header (this_shard : Z) (h : record_batch_header) : record_batch_header :=
  {| header_crc := 0; b_size_bytes := b_size_bytes h; base_offset := base_offset h;
     type := raft_data; crc := crc h; attrs := attrs h;
     last_offset_delta := last_offset_delta h; first_timestamp := first_timestamp h;
     max_timestamp := max_timestamp h; producer_id := producer_id h;
     producer_epoch := producer_epoch h; base_sequence := base_sequence h;
     record_count := record_count h;
     ctx_term := leader_epoch_from_term (ctx_term h); ctx_owner_shard := Some this_shard |}.

Lemma leader_epoch_range t : is_s 32 (leader_epoch_from_term t).
Proof. unfold leader_epoch_from_term. case_bool_decide; [done|]. concrete. Qed.

Lemma attrs_wire a : is_u 16 a ->
  record_batch_attributes.make (record_batch_attributes.value a) = a.
Proof.
  intros Ha. unfold record_batch_attributes.make, record_batch_attributes.value.
  rewrite swrap_cases by (done || lia). case_decide; [by apply uwrap_id|].
  rewrite uwrap_neg by ranges. lia.
Qed.

Lemma kafka_header_bytes_length b : blen (kafka_header_bytes b) = kafka_header_size.
Proof.
  unfold kafka_header_bytes. rewrite !blen_app. unfold blen. by rewrite !be_bytes_length.
Qed.

(** One signed field of the header. *)
Ltac read_field n w :=
  match goal with
  | V : view ?p (be_bytes n ?v ++ _) _ |- context [read_s w ?p] =>
      let p' := fresh "p" in let V' := fresh "V" in
      destruct (read_s_view p n v _ _ w eq_refl ltac:(lia) V) as (p' & -> & V');
      clear V; cbn [mbind res_bind]; rewrite ?(swrap_id w v) by ranges
  end.

Lemma wire_size_bytes x : is_s 32 x ->
  s32 (s32 (s32 (u64 (x - packed_record_batch_header_size + kafka_header_size - 8 - 4))
            - kafka_header_size) + (packed_record_batch_header_size + 8 + 4)) = x.
Proof.
  intros Hx. rewrite swrap_uwrap_le by lia. set (y := _ - 4).
  change (s32 y - kafka_header_size) with (s32 y + - kafka_header_size).
  rewrite swrap_add_l, <- Z.add_assoc, swrap_add_l. transitivity (s32 x); [|by apply swrap_id]. f_equal. subst y.
  unfold packed_record_batch_header_size, kafka_header_size. lia.
Qed.

Lemma read_header_view this_shard b rest (p : parser) k :
  wire_header (header b) -> 0 <= k -> k + kafka_header_size < 2 ^ 64 ->
  view p (kafka_header_bytes b ++ rest) k ->
  exists p', read_header this_shard p = Ok (Some (received_header this_shard (header b)), p') /\
    view p' rest (k + kafka_header_size).
Proof.
  intros [] Hk Hb Hp. pose proof (leader_epoch_range (ctx_term (header b))).
  pose proof (swrap_range 16 (attrs (header b)) ltac:(lia)) as Ha.
  unfold kafka_header_bytes in Hp. rewrite <- !app_assoc in Hp. unfold read_header.
  rewrite (view_consumed p _ _ Hp).
  read_field 8%nat 64. read_field 4%nat 32. read_field 4%nat 32.
  match goal with V : view ?p (be_bytes 1 2 ++ _) _ |- _ =>
    destruct (consume_byte_view p 2 _ _ V) as (p3 & -> & V3); clear V end.
  cbn [mbind res_bind]. change (negb (s8 2 =? 2)) with false. cbv iota.
  destruct (consume_be_view p3 4 (crc (header b)) _ _ 32 eq_refl V3) as (p4 & -> & V4).
  cbn [mbind res_bind]. rewrite (uwrap_id 32) by done.
  read_field 2%nat 16. read_field 4%nat 32. read_field 8%nat 64. read_field 8%nat 64.
  read_field 8%nat 64. read_field 2%nat 16. read_field 4%nat 32. read_field 4%nat 32.
  match goal with V : view ?p rest ?k' |- _ => rewrite (view_consumed p _ _ V);
    exists p; replace k' with (k + kafka_header_size) in * by (unfold kafka_header_size; lia) end.
  split; [|done]. rewrite wire_size_bytes by done.
  replace (k + kafka_header_size - k) with kafka_header_size by lia.
  change (negb (u64 kafka_header_size =? kafka_header_size)) with false.
  cbn [throw_if mbind res_bind].
  rewrite (swrap_id 16 (record_batch_attributes.value _)), attrs_wire by (done || lia). done.
Qed.

Lemma btake_all {A} (b : list A) n : blen b <= n -> btake n b = b.
Proof. intros. unfold btake. apply take_ge. unfold blen in *. lia. Qed.

Lemma btake_app_le {A} (a b : list A) n : n <= blen a -> btake n (a ++ b) = btake n a.
Proof. intros. unfold btake, blen in *. rewrite take_app_le by lia. done. Qed.

Lemma btake_app_ge {A} (a b : list A) n : blen a <= n -> btake n (a ++ b) = a ++ btake (n - blen a) b.
Proof.
  intros. unfold btake, blen in *. rewrite take_app_ge by lia. do 2 f_equal. lia.
Qed.

Lemma trim_back_rev_spec rfs n :
  0 <= n <= blen (concat (rev rfs)) ->
  concat (rev (trim_back_rev rfs n)) = btake (blen (concat (rev rfs)) - n) (concat (rev rfs)).
Proof.
  revert n. induction rfs as [|f rfs IH]; intros n Hn; cbn [rev trim_back_rev].
  - unfold btake. cbn. by rewrite take_nil.
  - cbn [rev] in Hn. rewrite concat_app in *. cbn [concat] in *. rewrite app_nil_r in *.
    rewrite blen_app in *. pose proof (blen_nonneg f). pose proof (blen_nonneg (concat (rev rfs))).
    rewrite Z.gtb_ltb. destruct (Z.ltb_spec n (blen f)).
    + cbn [rev]. rewrite concat_app. cbn [concat]. rewrite app_nil_r.
      rewrite btake_app_ge by lia. do 2 f_equal. lia.
    + rewrite IH by lia. rewrite btake_app_le by lia. f_equal. lia.
Qed.

Lemma trim_back_spec fs n :
  0 <= n <= blen (concat fs) ->
  concat (trim_back fs n) = btake (blen (concat fs) - n) (concat fs).
Proof.
  intros Hn. pose proof (trim_back_rev_spec (rev fs) n) as H.
  rewrite rev_involutive in H. by apply H.
Qed.

Lemma share_iobuf_view (p : parser) r k n :
  view p r k -> 0 <= n <= blen r ->
  exists recs p', share_iobuf n (iobuf_parser.owned p) = Ok (recs, p') /\ concat recs = btake n r.
Proof.
  destruct p as [p]. intros Hv Hn. change (iobuf_parser.base_view p r k) in Hv.
  pose proof (iobuf_parser.base_skip_ok p r k n Hv Hn) as (p' & E & _).
  destruct Hv as (_ & Hk & _ & Hb & Hr).
  exists (iobuf.share (iobuf_parser.buf p) k n), p'. unfold share_iobuf. cbn [iobuf_parser.owned].
  rewrite Hk, E. split; [done|]. rewrite iobuf.share_spec by lia. by rewrite Hr.
Qed.

Section adapt_facts.
Context (crc_extend : Z -> bytes -> Z) {HC : CrcLaws crc_extend} (this_shard : Z).

Lemma verify_crc_spec h kb :
  checksum_data_offset_start <= blen (concat kb) ->
  verify_crc crc_extend h (make_parser kb)
  = Ok (crc h =? crc_extend 0 (bdrop checksum_data_offset_start (concat kb))).
Proof.
  intros Hl. unfold verify_crc.
  pose proof (iobuf_parser.owned_make_view kb) as Hv.
  destruct (skip_ok _ _ _ checksum_data_offset_start Hv) as ([p] & -> & Hp).
  { split; [done|exact Hl]. }
  cbn [mbind res_bind iobuf_parser.owned]. rewrite (view_left _ _ _ Hp).
  change (iobuf_parser.base_view p (bdrop checksum_data_offset_start (concat kb))
    (0 + checksum_data_offset_start)) in Hp. destruct Hp as (Hu & _).
  destruct (io_iterator_consumer.consume_spec crc_extend) with
    (blen (bdrop checksum_data_offset_start (concat kb))) 0 (iobuf_parser.in_ p)
    as (c' & -> & _); [apply crc_extend_nil|apply crc_extend_app|apply blen_nonneg|].
  rewrite Hu, Z.min_id, btake_all by lia. done.
Qed.

(** The checksummed part of a serialized batch is what the batch checksum covers. *)
Lemma serialized_crc b :
  crc_extend 0 (bdrop checksum_data_offset_start (kafka_header_bytes b ++ concat (records b)))
  = crc_record_batch crc_extend (header b) (records b).
Proof.
  unfold crc_record_batch. rewrite crc_extend_iobuf_flat. unfold crc_record_batch_header.
  cbn [foldl]. by rewrite !crc_extend_app.
Qed.

(** A batch fit for the wire: its fields fit, its size is exact and its payload
    checksum is up to date. *)
Record sendable (b : record_batch) : Prop := {
  send_header : wire_header (header b);
  send_size : b_size_bytes (header b) = packed_record_batch_header_size + blen (concat (records b));
  send_crc : crc (header b) = crc_record_batch crc_extend (header b) (records b);
  send_compression : exists c,
    record_batch_attributes.get_compression (attrs (header b)) = Ok c /\
    compressed b = bool_decide (c <> none);
}.

(** The length field of a serialized batch, as [adapt] peeks at it. *)
Lemma peek_length frags b rest :
  sendable b -> btake kafka_length_diff (concat frags) = btake kafka_length_diff (kafka_header_bytes b ++ rest) ->
  exists p, (peeker ← skip 8 (make_parser (iobuf.share frags 0 kafka_length_diff));
             read_s 32 peeker) = Ok (b_size_bytes (header b) - kafka_length_diff, p).
Proof.
  intros Hb E. pose proof (iobuf_parser.owned_make_view (iobuf.share frags 0 kafka_length_diff)) as Hv.
  rewrite iobuf.share_spec in Hv by done.
  change (bdrop 0 (concat frags)) with (concat frags) in Hv. rewrite E in Hv.
  set (h := header b) in *.
  set (sz := u64 (b_size_bytes h - packed_record_batch_header_size + kafka_header_size - 8 - 4)).
  change (btake kafka_length_diff (kafka_header_bytes b ++ rest))
    with (be_bytes 8 (base_offset h) ++ be_bytes 4 sz) in Hv.
  destruct (skip_ok _ _ _ 8 Hv) as (p1 & -> & V1); [done|]. cbn [mbind res_bind].
  change (bdrop 8 (be_bytes 8 (base_offset h) ++ be_bytes 4 sz)) with (be_bytes 4 sz ++ []) in V1.
  destruct (read_s_view p1 4 sz _ _ 32 eq_refl ltac:(lia) V1) as (p2 & -> & _).
  exists p2. do 2 f_equal. unfold sz. rewrite swrap_uwrap_le by lia.
  pose proof (send_size b Hb) as Hs. pose proof (wire_size _ (send_header b Hb)) as Hr.
  fold h in Hs, Hr. pose proof (blen_nonneg (concat (records b))).
  unfold packed_record_batch_header_size, kafka_header_size, kafka_length_diff in *.
  rewrite swrap_id; [lia|lia|ranges].
Qed.

Lemma make_batch_send b recs :
  sendable b -> concat recs = concat (records b) ->
  make_batch (received_header this_shard (header b)) recs
  = Ok {| header := received_header this_shard (header b); records := recs;
          compressed := compressed b |}.
Proof.
  intros [Hw Hs _ (c & Hc & ->)] E. unfold make_batch. cbn [attrs received_header].
  rewrite Hc. cbn [mbind res_bind]. unfold size_matches. cbn [b_size_bytes received_header].
  rewrite E, <- Hs, swrap_id by (lia || apply Hw). by rewrite Z.eqb_refl.
Qed.

(** Adapting a buffer that starts with a serialized batch. *)
Lemma adapt_serialized frags b rest a :
  sendable b -> concat frags = writer_serialize_batch [] b ++ rest ->
  exists rem recs, adapt crc_extend this_shard frags a
    = Ok (rem, set_batch (set_valid_crc (set_v2_format a true) true)
                 {| header := received_header this_shard (header b); records := recs;
                    compressed := compressed b |}) /\
    concat rem = rest /\ concat recs = concat (records b).
Proof.
  intros Hb E. unfold writer_serialize_batch in E. cbn [app] in E. rewrite <- app_assoc in E.
  pose proof (kafka_header_bytes_length b) as Hl.
  pose proof (blen_nonneg (concat (records b))) as Hr0. pose proof (blen_nonneg rest) as Hr1.
  pose proof (send_size b Hb) as Hs. pose proof (wire_size _ (send_header b Hb)) as Hw.
  assert (Hpos : 61 <= b_size_bytes (header b))
    by (unfold packed_record_batch_header_size in *; lia).
  assert (Hsz : blen (concat frags) = b_size_bytes (header b) + blen rest).
  { rewrite E, !blen_app, Hl, Hs. unfold kafka_header_size, packed_record_batch_header_size. lia. }
  unfold adapt. destruct (Z.ltb_spec (blen (concat frags)) kafka_length_diff) as [Hlt|_].
  { unfold kafka_length_diff, packed_record_batch_header_size in *. lia. }
  destruct (peek_length frags b (concat (records b) ++ rest) Hb) as (p & Hp); [by rewrite E|].
  destruct (skip 8 _) as [peeker| |]; [|done..]. cbn [mbind res_bind] in Hp |- *. rewrite Hp.
  cbn [mbind res_bind]. rewrite Z.sub_add, uwrap_id
    by (unfold packed_record_batch_header_size in *; ranges).
  rewrite Z.gtb_ltb. destruct (Z.ltb_spec (blen (concat frags)) (b_size_bytes (header b))); [lia|].
  set (rem := iobuf.share frags _ _).
  set (wire := kafka_header_bytes b ++ concat (records b)) in *.
  assert (Hwl : blen wire = b_size_bytes (header b)).
  { unfold wire. rewrite blen_app, Hl, Hs. done. }
  assert (Hrem : concat rem = rest).
  { unfold rem. rewrite iobuf.share_spec by (unfold packed_record_batch_header_size in *; lia).
    rewrite E, app_assoc. fold wire. rewrite <- Hwl, bdrop_app. apply btake_all. rewrite blen_app. lia. }
  rewrite Hrem. set (kb := trim_back frags _).
  assert (Hkb : concat kb = wire).
  { unfold kb. rewrite trim_back_spec by lia. rewrite Hsz, Z.add_simpl_r, E, app_assoc. fold wire.
    rewrite <- Hwl. apply btake_app. }
  unfold adapt_batch. pose proof (iobuf_parser.owned_make_view (iobuf.share kb 0 (blen (concat kb)))) as Hv.
  rewrite iobuf.share_spec in Hv by (done || apply blen_nonneg).
  change (bdrop 0 (concat kb)) with (concat kb) in Hv. rewrite btake_all, Hkb in Hv by done.
  destruct (read_header_view this_shard b _ _ 0 (send_header b Hb) ltac:(lia)
    ltac:(unfold kafka_header_size; ranges) Hv) as (p' & E' & V'). rewrite Hkb, E'.
  cbn [mbind res_bind].
  rewrite verify_crc_spec by (rewrite Hkb, Hwl, Hs; unfold checksum_data_offset_start,
    packed_record_batch_header_size; lia).
  cbn [mbind res_bind crc received_header]. rewrite Hkb. unfold wire.
  rewrite !serialized_crc, <- (send_crc b Hb), Z.eqb_refl. cbn [negb b_size_bytes received_header].
  rewrite Hs, Z.add_simpl_l, uwrap_id by (unfold packed_record_batch_header_size in *; ranges).
  destruct (share_iobuf_view p' _ _ (blen (concat (records b))) V') as (recs & p'' & -> & Hrecs);
    [lia|]. rewrite btake_all in Hrecs by lia.
  cbn [mbind res_bind].
  rewrite (make_batch_send b recs Hb Hrecs). cbn [mbind res_bind]. by exists rem, recs.
Qed.

(** A buffer that ends inside a serialized batch. *)
Lemma adapt_partial frags b tail a :
  sendable b -> tail <> [] -> writer_serialize_batch [] b = concat frags ++ tail ->
  adapt crc_extend this_shard frags a = Ok ([], set_short_read a true).
Proof.
  intros Hb Ht E. unfold writer_serialize_batch in E. cbn [app] in E.
  pose proof (kafka_header_bytes_length b) as Hl.
  pose proof (send_size b Hb) as Hs. pose proof (wire_size _ (send_header b Hb)) as Hw.
  pose proof (blen_nonneg (concat (records b))) as Hr0.
  assert (Hlen : blen (concat frags) < b_size_bytes (header b)).
  { apply (f_equal blen) in E. rewrite !blen_app, Hl in E. rewrite Hs.
    assert (0 < blen tail) by (destruct tail; [done|rewrite blen_cons; pose proof (blen_nonneg tail); lia]).
    unfold kafka_header_size, packed_record_batch_header_size in *. lia. }
  unfold adapt. destruct (Z.ltb_spec (blen (concat frags)) kafka_length_diff); [done|].
  destruct (peek_length frags b (concat (records b)) Hb) as (p & Hp).
  { rewrite E. by rewrite btake_app_le. }
  destruct (skip 8 _) as [peeker| |]; [|done..]. cbn [mbind res_bind] in Hp |- *. rewrite Hp.
  cbn [mbind res_bind]. rewrite Z.sub_add, uwrap_id
    by (unfold packed_record_batch_header_size in *; ranges).
  rewrite Z.gtb_ltb. destruct (Z.ltb_spec (blen (concat frags)) (b_size_bytes (header b))); [done|lia].
Qed.
End adapt_facts.

(** ** What was read was there

    Inversion of the readers, for buffers of arbitrary contents. *)

Lemma consume_to_inv (p : parser) r k n b p' :
  0 <= n -> view p r k -> consume_to n p = Ok (b, p') ->
  n <= blen r /\ b = btake n r /\ view p' (bdrop n r) (k + n).
Proof.
  intros Hn Hv E. destruct (decide (n <= blen r)) as [Hle|Hgt].
  - destruct (consume_to_ok p r k n Hv) as (p1 & E1 & V1); [done|]. rewrite E1 in E. naive_solver.
  - rewrite (consume_to_err p r k n Hv) in E by lia. done.
Qed.

Lemma consume_be_inv (p : parser) r k w v p' :
  0 <= w -> view p r k -> consume_be_type w p = Ok (v, p') ->
  w / 8 <= blen r /\ v = be_value (btake (w / 8) r) /\ view p' (bdrop (w / 8) r) (k + w / 8).
Proof.
  intros Hw Hv E. unfold consume_be_type in E. apply res_bind_Ok in E as ([b p1] & E & [= <- <-]).
  apply (consume_to_inv p r k) in E; [naive_solver|by apply Z.div_pos|done].
Qed.

Lemma read_s_inv (p : parser) r k w v p' :
  0 <= w -> view p r k -> read_s w p = Ok (v, p') ->
  w / 8 <= blen r /\ v = swrap w (be_value (btake (w / 8) r)) /\
  view p' (bdrop (w / 8) r) (k + w / 8).
Proof.
  intros Hw Hv E. unfold read_s in E. apply res_bind_Ok in E as ([x p1] & E & [= <- <-]).
  apply (consume_be_inv p r k) in E; naive_solver.
Qed.

Lemma bdrop_left {A} n m (r : list A) : 0 <= n -> 0 < m -> m <= blen (bdrop n r) -> n + m <= blen r.
Proof. unfold blen, bdrop. rewrite length_drop. lia. Qed.

(** Peel one read off a successful parse. *)
Ltac unread :=
  match goal with
  | V : view ?p ?r ?k, E : (x ← read_s ?w ?p; _) = Ok _ |- _ =>
      let p' := fresh "p" in let V' := fresh "V" in let L := fresh "L" in
      apply res_bind_Ok in E as ([? p'] & (L & -> & V')%(read_s_inv p r k w _ _ ltac:(lia) V) & E);
      cbv beta iota in E; change (w / 8) with (ltac:(let v := eval vm_compute in (w / 8) in exact v)) in L, V', E;
      rewrite ?bdrop_bdrop in V' by lia
  end.

Lemma read_header_inv this_shard (p : parser) r h p' :
  view p r 0 -> read_header this_shard p = Ok (Some h, p') ->
  kafka_header_size <= blen r /\ view p' (bdrop kafka_header_size r) kafka_header_size /\
  crc h = be_value (btake 4 (bdrop 17 r)) /\
  b_size_bytes h = s32 (s32 (s32 (be_value (btake 4 (bdrop 8 r))) - kafka_header_size)
                        + (packed_record_batch_header_size + 8 + 4)).
Proof.
  intros V E. unfold read_header in E. rewrite (view_consumed p _ _ V) in E.
  unread. unread. unread.
  apply res_bind_Ok in E as ([magic p3] & Em & E). unfold consume_type in Em.
  apply res_bind_Ok in Em as ([mb p4] & Em & [= <- <-]).
  apply (consume_to_inv _ _ _ (8 / 8) _ _ ltac:(done) V2) in Em as (_ & _ & V3).
  change (8 / 8) with 1 in V3. rewrite bdrop_bdrop in V3 by lia.
  destruct (negb _); [done|].
  apply res_bind_Ok in E as ([c p5] & Ec & E).
  apply (consume_be_inv _ _ _ 32 _ _ ltac:(done) V3) in Ec as (_ & -> & V4).
  change (32 / 8) with 4 in *. rewrite bdrop_bdrop in V4 by lia.
  unread. unread. unread. unread. unread. unread. unread. unread.
  apply res_bind_Ok in E as ([] & _ & [= <- <-]).
  apply bdrop_left in L9; [|lia|lia]. split_and!; [exact L9|exact V12|done|done].
Qed.

(** Any header that is read, of the right format or not, has a magic byte. *)
Lemma read_header_progress this_shard (p : parser) r h p' :
  view p r 0 -> read_header this_shard p = Ok (h, p') -> 17 <= blen r.
Proof.
  intros V E. unfold read_header in E. unread. unread. unread.
  apply res_bind_Ok in E as ([magic p3] & Em & _). unfold consume_type in Em.
  apply res_bind_Ok in Em as ([mb p4] & Em & _).
  apply (consume_to_inv _ _ _ (8 / 8) _ _ ltac:(done) V2) in Em as (L2 & _).
  apply bdrop_left in L2; [|lia|done]. exact L2.
Qed.

(** The records take what the header leaves of the message, also when the size
    field of the batch header wraps. *)
Lemma records_size_exact n : packed_record_batch_header_size <= n < 2 ^ 32 ->
  u32 (s32 n - packed_record_batch_header_size) = n - packed_record_batch_header_size.
Proof.
  unfold packed_record_batch_header_size. intros Hn. rewrite swrap_cases by ranges. case_decide.
  - apply uwrap_id. ranges.
  - rewrite uwrap_neg by ranges. lia.
Qed.

Section adapt_sound.
Context (crc_extend : Z -> bytes -> Z) {HC : CrcLaws crc_extend} (this_shard : Z).

(** The bytes [msg] a batch was made of. *)
Record made_of (b : record_batch) (msg : bytes) : Prop := {
  made_size : b_size_bytes (header b) = s32 (blen msg);
  made_records : concat (records b) = bdrop kafka_header_size msg;
  made_stored_crc : crc (header b) = be_value (btake 4 (bdrop 17 msg));
  made_crc : crc (header b) = crc_extend 0 (bdrop checksum_data_offset_start msg);
}.

Lemma adapt_batch_inv kb a rem rem' a' :
  let msg := concat kb in
  let len := s32 (be_value (btake 4 (bdrop 8 msg))) in
  (17 <= blen msg -> blen msg = len + kafka_length_diff) ->
  adapt_batch crc_extend this_shard kb rem a = Ok (rem', a') ->
  rem' = rem /\ 17 <= blen msg /\ short_read a' = short_read a /\
  (batch a' = batch a \/
   exists b, batch a' = Some b /\ v2_format a' = true /\ valid_crc a' = true /\ made_of b msg).
Proof.
  intros msg len Hsz E. unfold adapt_batch in E.
  pose proof (iobuf_parser.owned_make_view (iobuf.share kb 0 (blen (concat kb)))) as Hv.
  rewrite iobuf.share_spec in Hv by (done || apply blen_nonneg).
  assert (Hm : concat kb = msg) by done. clearbody msg. rewrite Hm in *.
  change (bdrop 0 msg) with msg in Hv. rewrite btake_all in Hv by done.
  apply res_bind_Ok in E as ([h p] & Eh & E).
  pose proof (read_header_progress _ _ _ _ _ Hv Eh) as Hp. specialize (Hsz Hp).
  destruct h as [h|]; [|injection E as <- <-; by split_and!; [..|left]].
  apply (read_header_inv _ _ _ _ _ Hv) in Eh as (Hl & Vp & Hcrc & Hb).
  fold len in Hb.
  rewrite (verify_crc_spec crc_extend), Hm in E
    by (rewrite ?Hm; unfold checksum_data_offset_start, kafka_header_size in *; lia).
  cbn [mbind res_bind] in E. destruct (Z.eqb_spec (crc h)
    (crc_extend 0 (bdrop checksum_data_offset_start msg))) as [Hc|Hc]; cbn [negb] in E;
    [|injection E as <- <-; by split_and!; [..|left]].
  apply res_bind_Ok in E as ([recs p'] & Er & E). apply res_bind_Ok in E as (b & Eb & [= <- <-]).
  split_and!; [done..|right]. exists b. split_and!; [done..|].
  unfold make_batch in Eb. apply res_bind_Ok in Eb as (c & _ & Eb).
  apply res_bind_Ok in Eb as ([] & _ & [= <-]).
  assert (Hbs : b_size_bytes h = s32 (blen msg)).
  { rewrite Hb. change (len - kafka_header_size) with (len + - kafka_header_size).
    rewrite swrap_add_l. f_equal. rewrite Hsz. unfold kafka_header_size,
      packed_record_batch_header_size, kafka_length_diff. lia. }
  split; cbn [header records]; [done| |done|done].
  pose proof (swrap_range 32 (be_value (btake 4 (bdrop 8 msg))) ltac:(lia)) as Hr. fold len in Hr.
  rewrite Hbs, records_size_exact in Er
    by (unfold kafka_header_size, packed_record_batch_header_size, kafka_length_diff in *; ranges).
  assert (Hd : blen (bdrop kafka_header_size msg) = blen msg - packed_record_batch_header_size)
    by (by rewrite blen_bdrop).
  destruct (share_iobuf_view p _ _ (blen msg - packed_record_batch_header_size) Vp)
    as (recs' & p'' & Er' & Hrecs); [rewrite Hd; unfold packed_record_batch_header_size,
    kafka_header_size in *; lia|].
  rewrite Er in Er'. injection Er' as <- <-. rewrite Hrecs. apply btake_all. lia.
Qed.

(** [adapt] on any buffer, on a fresh adapter. *)
Lemma adapt_inv frags rem a :
  blen (concat frags) < 2 ^ 63 ->
  adapt crc_extend this_shard frags new_adapter = Ok (rem, a) ->
  (short_read a = true /\ batch a = None /\ rem = []) \/
  (exists msg, concat frags = msg ++ concat rem /\ 17 <= blen msg /\ short_read a = false /\
    (batch a = None \/
     exists b, batch a = Some b /\ v2_format a = true /\ valid_crc a = true /\ made_of b msg)).
Proof.
  intros Hmax E. unfold adapt in E.
  destruct (Z.ltb_spec (blen (concat frags)) kafka_length_diff) as [Hlt|Hge];
    [injection E as <- <-; by left|].
  pose proof (iobuf_parser.owned_make_view (iobuf.share frags 0 kafka_length_diff)) as Hv.
  rewrite iobuf.share_spec in Hv by done.
  change (bdrop 0 (concat frags)) with (concat frags) in Hv.
  destruct (skip_ok _ _ _ 8 Hv) as (pk & Ek & Vk).
  { rewrite blen_btake by (split; [done|exact Hge]). done. }
  rewrite Ek in E. cbn [mbind res_bind] in E.
  apply res_bind_Ok in E as ([len pk'] & El & E).
  apply (read_s_inv _ _ _ 32 _ _ ltac:(lia) Vk) in El as (_ & Hlen & _).
  change (32 / 8) with 4 in Hlen.
  pose proof (swrap_range 32 (be_value (btake 4 (bdrop 8 (btake kafka_length_diff (concat frags)))))
    ltac:(lia)) as Hr. rewrite <- Hlen in Hr.
  rewrite Z.gtb_ltb in E. destruct (Z.ltb_spec (blen (concat frags)) (u64 (len + kafka_length_diff)))
    as [Hbig|Hfit]; [injection E as <- <-; by left|]. right.
  assert (Hpos : 0 <= len + kafka_length_diff).
  { unfold kafka_length_diff in *. destruct (decide (0 <= len + 12)); [done|].
    rewrite uwrap_neg in Hfit by ranges. ranges. }
  rewrite uwrap_id in E, Hfit by (unfold kafka_length_diff in *; ranges).
  set (L := len + kafka_length_diff) in *. set (rm := iobuf.share frags _ _) in *.
  assert (Hrm : concat rm = bdrop L (concat frags)).
  { unfold rm. rewrite iobuf.share_spec by lia. apply btake_all. rewrite blen_bdrop; lia. }
  assert (Hkb : concat (trim_back frags (blen (concat rm))) = btake L (concat frags)).
  { rewrite trim_back_spec; rewrite Hrm, blen_bdrop by lia; [|lia]. f_equal. lia. }
  assert (HL : blen (btake L (concat frags)) = L) by (by rewrite blen_btake).
  apply adapt_batch_inv in E as (-> & H17 & Hsr & Hb); [|rewrite Hkb; intros H17].
  - rewrite Hkb in *. exists (btake L (concat frags)). rewrite Hrm. split_and!; [|done..|].
    + unfold btake, bdrop. by rewrite take_drop.
    + destruct Hb as [Hb|Hb]; [left; exact Hb|by right].
  - rewrite HL in *. transitivity (len + kafka_length_diff); [done|]. f_equal. rewrite Hlen.
    do 2 f_equal. clearbody L. unfold btake, bdrop, kafka_length_diff.
    rewrite !skipn_firstn_comm, !take_take. f_equal. lia.
Qed.
End adapt_sound.

(** ** Properties *)

(** C29: whatever bytes arrive, [adapt] hands out a batch only if the bytes carry the v2
    format and the stored checksum equals the checksum of the bytes received; the
    batch then holds exactly the payload bytes of the message, and the rest of the
    buffer is returned untouched.  A buffer that is too short is reported as a
    short read, with no batch, and every other call makes progress. *)
Theorem adapt_accepts_only_checked crc_extend this_shard frags rem a (HC : CrcLaws crc_extend) :
  blen (concat frags) < 2 ^ 63 ->
  adapt crc_extend this_shard frags new_adapter = Ok (rem, a) ->
  (short_read a = true /\ batch a = None /\ rem = []) \/
  (exists msg, concat frags = msg ++ concat rem /\ 17 <= blen msg /\ short_read a = false /\
    forall b, batch a = Some b ->
      v2_format a = true /\ valid_crc a = true /\ made_of crc_extend b msg).
Proof.
  intros Hmax E. destruct (adapt_inv _ _ _ _ _ Hmax E) as [H|(msg & E1 & E2 & E3 & E4)]; [by left|].
  right. exists msg. split_and!; [done..|]. intros b Hb. destruct E4; naive_solver.
Qed.

(** The bytes of [example_batch], whose checksum they carry. *)
Definition example_wire : bytes := writer_serialize_batch [] example_batch.

Lemma adapt_accepts_only_checked_witness :
  exists rem a b, adapt sum_extend 0 [example_wire; [5; 6]] new_adapter = Ok (rem, a) /\
    batch a = Some b /\ valid_crc a = true.
Proof.
  eexists _, _, _. split; [vm_compute; reflexivity|]. split; [reflexivity|].
  destruct (adapt_accepts_only_checked sum_extend 0 [example_wire; [5; 6]] _ _ sum_extend_laws
    ltac:(concrete) ltac:(vm_compute; reflexivity)) as [(H & _)|(msg & _ & _ & _ & H)];
    [discriminate|].
  by apply (H _ eq_refl).
Defined.
