(* ===== verification/BatchReader.v ===== *)
(** * Writing and reading record sets (kafka/protocol/batch_consumer.h,
      kafka/protocol/batch_reader.{h,cc})

    The records of a fetch response are written by [kafka_batch_serializer] and
    read on the client side by [batch_reader]: a loop over [adapt] that stops at
    the end of the buffer, at the deadline, or at a damaged batch.  The deadline
    check is the parameter [timed_out], which tells for each check whether the
    clock has passed the deadline. *)

From S2P Require Import Prelude Vint IobufParser Record RecordBatch BatchAdapter.

Module batch_reader.

Record reader := {
  buf : list bytes;
  do_load_slice_failed : bool;
  tolerate_partial : bool;
}.

Definition make (b : list bytes) (tolerate : bool) : reader :=
  {| buf := b; do_load_slice_failed := false; tolerate_partial := tolerate |}.

Definition empty (r : reader) : bool := blen (concat (buf r)) =? 0.
Definition is_end_of_stream (r : reader) : bool := do_load_slice_failed r || empty r.

(** *** The last offset of a record set *)

Section last_offset.
Variable uninit : nat -> byte.
#[local] Existing Instance iobuf_parser.const_parser.
Abbreviation CP := (iobuf_parser.const_parser uninit).

(** [read_record_batch_info]: base offset, last offset delta and size. *)
Definition read_record_batch_info (p : iobuf_parser.iobuf_const_parser)
    : res (Z * Z * Z * iobuf_parser.iobuf_const_parser) :=
  _ ← throw_if (@bytes_left _ CP p <? kafka_header_size) corrupt_message;
  let initial_bytes_consumed := @bytes_consumed _ CP p in
  '(base_offset, p) ← @read_s _ CP 64 p;
  '(batch_length, p) ← @read_s _ CP 32 p;
  p ← @skip _ CP (4 + 1 + 4 + 2) p;
  '(last_offset_delta, p) ← @read_s _ CP 32 p;
  p ← @skip _ CP (8 + 8 + 8 + 2 + 4 + 4) p;
  let size_bytes := s32 (batch_length - kafka_header_size + packed_record_batch_header_size + 8 + 4) in
  let total_bytes_consumed := u64 (@bytes_consumed _ CP p - initial_bytes_consumed) in
  _ ← throw_if (negb (total_bytes_consumed =? kafka_header_size)) corrupt_message;
  Ok (base_offset, last_offset_delta, size_bytes, p).

(** The loop of [last_offset].  A round reads at least a header, so the number of
    bytes bounds the rounds. *)
Fixpoint last_offset_loop (fuel : nat) (last : Z) (p : iobuf_parser.iobuf_const_parser)
    : res Z :=
  if @bytes_left _ CP p =? 0 then Ok last
  else match fuel with
  | O => Throw runtime_error
  | S fuel =>
      '(base_offset, last_offset_delta, size_bytes, p) ← read_record_batch_info p;
      let record_bytes := s32 (size_bytes - packed_record_batch_header_size) in
      p ← @skip _ CP (u64 record_bytes) p;
      last_offset_loop fuel (s64 (base_offset + last_offset_delta)) p
  end.

Definition last_offset (r : reader) : res Z :=
  last_offset_loop (length (concat (buf r))) 0
    (iobuf_parser.ConstRef (iobuf_parser.make (buf r))).
End last_offset.

(** *** Reading batches *)

Section load.
Variable crc_extend : Z -> bytes -> Z.
Variable this_shard : Z.
Variable timed_out : nat -> bool.

Definition set_buf (r : reader) (b : list bytes) : reader :=
  {| buf := b; do_load_slice_failed := do_load_slice_failed r;
     tolerate_partial := tolerate_partial r |}.
Definition fail (r : reader) : reader :=
  {| buf := buf r; do_load_slice_failed := true; tolerate_partial := tolerate_partial r |}.

Definition consume_batch (r : reader) : res (kafka_batch_adapter * reader) :=
  '(b, kba) ← adapt crc_extend this_shard (buf r) new_adapter;
  Ok (kba, set_buf r b).

(** How [do_load_slice] ends: with batches, with the [corrupt_message] exception it
    raises itself, which leaves the reader failed, or with what [adapt] raised. *)
Inductive outcome :=
  | Loaded (batches : list record_batch) (r : reader)
  | Corrupt (r : reader)
  | Raised (e : exn)
  | Crashed.

(** [do_until(resources_exceeded, consume_one)].  Each round shortens the buffer or
    ends the loop. *)
Fixpoint load_loop (fuel : nat) (i : nat) (batches : list record_batch) (r : reader) : outcome :=
  if is_end_of_stream r || timed_out i then Loaded batches r
  else match fuel with
  | O => Raised runtime_error
  | S fuel =>
      match consume_batch r with
      | Ok (kba, r) =>
          if short_read kba && tolerate_partial r then load_loop fuel (S i) batches r
          else match batch kba with
               | Some b =>
                   if v2_format kba && valid_crc kba
                   then load_loop fuel (S i) (batches ++ [b]) r
                   else Corrupt (fail r)
               | None => Corrupt (fail r)
               end
      | Throw e => Raised e
      | Crash => Crashed
      end
  end.

Definition do_load_slice (r : reader) : outcome :=
  load_loop (length (concat (buf r)) + 1) 0 [] r.
End load.
End batch_reader.

(** ** What a serializer writes, a reader reads *)

(** The wire form of a sequence of batches. *)
Definition wire_of (bs : list record_batch) : bytes := concat (writer_serialize_batch [] <$> bs).

Lemma serializer_buf bs s :
  kafka_batch_serializer.buf (foldl kafka_batch_serializer.call s bs)
  = kafka_batch_serializer.buf s ++ wire_of bs.
Proof.
  revert s. induction bs as [|b bs IH]; intros s; cbn [foldl].
  - by rewrite app_nil_r.
  - rewrite IH. change (kafka_batch_serializer.buf (kafka_batch_serializer.call s b))
      with (kafka_batch_serializer.buf s ++ writer_serialize_batch [] b).
    by rewrite <- app_assoc.
Qed.

Lemma wire_length b : kafka_header_size <= blen (writer_serialize_batch [] b).
Proof.
  unfold writer_serialize_batch. cbn [app]. rewrite blen_app, kafka_header_bytes_length.
  pose proof (blen_nonneg (concat (records b))). lia.
Qed.

Lemma wire_of_cons b bs : wire_of (b :: bs) = writer_serialize_batch [] b ++ wire_of bs.
Proof. done. Qed.

Lemma wire_of_length bs : (length bs <= length (wire_of bs))%nat.
Proof.
  induction bs as [|b bs IH]; [done|]. rewrite wire_of_cons, length_app. cbn [length].
  pose proof (wire_length b). unfold blen, kafka_header_size in *. lia.
Qed.

(** A batch as the reader returns it. *)
Definition received (this_shard : Z) (b b' : record_batch) : Prop :=
  header b' = received_header this_shard (header b) /\
  concat (records b') = concat (records b) /\ compressed b' = compressed b.

Section load_facts.
Context (crc_extend : Z -> bytes -> Z) {HC : CrcLaws crc_extend} (this_shard : Z).

Abbreviation load := (batch_reader.load_loop crc_extend this_shard).

(** A reader with a batch at the front of its buffer takes one round. *)
Lemma load_one timed_out fuel i acc r b rest :
  timed_out i = false -> batch_reader.do_load_slice_failed r = false ->
  sendable crc_extend b ->
  concat (batch_reader.buf r) = writer_serialize_batch [] b ++ rest ->
  exists b' buf', load timed_out (S fuel) i acc r
    = load timed_out fuel (S i) (acc ++ [b']) (batch_reader.set_buf r buf') /\
    received this_shard b b' /\ concat buf' = rest.
Proof.
  intros Ht Hf Hb E. cbn [batch_reader.load_loop].
  unfold batch_reader.is_end_of_stream, batch_reader.empty. rewrite Hf, Ht.
  destruct (Z.eqb_spec (blen (concat (batch_reader.buf r))) 0) as [H0|_].
  { rewrite E, blen_app in H0. pose proof (wire_length b). pose proof (blen_nonneg rest).
    unfold kafka_header_size in *. lia. }
  cbn [orb]. unfold batch_reader.consume_batch.
  destruct (adapt_serialized crc_extend this_shard _ b rest new_adapter Hb E)
    as (rem & recs & -> & Hrem & Hrecs).
  cbn. eexists _, rem. split; [done|]. by split.
Qed.

Lemma load_many timed_out fuel i acc r bs rest :
  (forall i, timed_out i = false) -> batch_reader.do_load_slice_failed r = false ->
  Forall (sendable crc_extend) bs -> concat (batch_reader.buf r) = wire_of bs ++ rest ->
  exists out buf', load timed_out (length bs + fuel) i acc r
    = load timed_out fuel (i + length bs) (acc ++ out) (batch_reader.set_buf r buf') /\
    Forall2 (received this_shard) bs out /\ concat buf' = rest.
Proof.
  intros Ht Hf Hbs. revert i acc r Hf. induction Hbs as [|b bs Hb _ IH]; intros i acc r Hf E.
  - exists [], (batch_reader.buf r). rewrite app_nil_r, Nat.add_0_r. destruct r. by split.
  - rewrite wire_of_cons, <- app_assoc in E. cbn [length plus].
    destruct (load_one timed_out (length bs + fuel) i acc r b _ (Ht i) Hf Hb E)
      as (b' & buf1 & -> & Hb' & E1).
    destruct (IH (S i) (acc ++ [b']) (batch_reader.set_buf r buf1) Hf E1) as (out & buf2 & -> & Ho & E2).
    exists (b' :: out), buf2. rewrite <- app_assoc, Nat.add_succ_comm. split; [done|]. by split; [constructor|].
Qed.

(** Every round of the loop, on any buffer, shortens it or is the last one, so that
    more fuel changes nothing. *)
Lemma load_fuel timed_out fuel fuel' i acc r :
  blen (concat (batch_reader.buf r)) < 2 ^ 63 ->
  (length (concat (batch_reader.buf r)) <= fuel)%nat -> (fuel <= fuel')%nat ->
  load timed_out fuel' i acc r = load timed_out fuel i acc r.
Proof.
  revert fuel' i acc r. induction fuel as [|fuel IH]; intros fuel' i acc r Hmax Hlen Hf.
  - assert (Hn : batch_reader.is_end_of_stream r = true).
    { unfold batch_reader.is_end_of_stream, batch_reader.empty, blen.
      replace (length (concat (batch_reader.buf r))) with 0%nat by lia. by rewrite orb_true_r. }
    destruct fuel'; cbn [batch_reader.load_loop]; by rewrite Hn.
  - destruct fuel' as [|fuel']; [lia|]. cbn [batch_reader.load_loop].
    destruct (_ || _) eqn:He; [done|]. unfold batch_reader.consume_batch.
    destruct (adapt _ _ _ _) as [[rem a]| |] eqn:E; [|done..]. cbn [mbind res_bind].
    assert (Hr : (length (concat rem) <= fuel)%nat /\ blen (concat rem) < 2 ^ 63).
    { apply (adapt_inv crc_extend this_shard _ _ _ Hmax) in E
        as [(_ & _ & ->)|(msg & E & Hm & _)]; [cbn; split; [lia|done]|].
      rewrite E, length_app in Hlen. rewrite E, blen_app in Hmax. unfold blen in *. lia. }
    destruct Hr as [Hr1 Hr2]. destruct (batch a); rewrite !(IH fuel' (S i)) by (done || lia); done.
Qed.
End load_facts.

(** ** The last offset *)

Lemma wire_size_bytes_flat x : is_s 32 x ->
  s32 (s32 (u64 (x - packed_record_batch_header_size + kafka_header_size - 8 - 4))
       - kafka_header_size + packed_record_batch_header_size + 8 + 4) = x.
Proof.
  intros Hx. rewrite <- (wire_size_bytes x Hx) at 2. set (y := u64 _).
  change (s32 y - kafka_header_size) with (s32 y + - kafka_header_size).
  rewrite !swrap_add_l. rewrite <- !Z.add_assoc. rewrite !swrap_add_l. f_equal.
Qed.

Section last_offset_facts.
Variable uninit : nat -> byte.
Abbreviation CP := (iobuf_parser.const_parser uninit).
#[local] Existing Instance iobuf_parser.const_laws.
Abbreviation CL := (iobuf_parser.const_laws uninit).
Abbreviation cview := (@view _ CP CL).

(** The header of a serialized batch. *)
Lemma read_record_batch_info_view b rest p k :
  wire_header (header b) -> 0 <= k -> k + kafka_header_size < 2 ^ 64 ->
  cview p (kafka_header_bytes b ++ rest) k ->
  exists p', batch_reader.read_record_batch_info uninit p
    = Ok (base_offset (header b), last_offset_delta (header b), b_size_bytes (header b), p') /\
    cview p' rest (k + kafka_header_size).
Proof.
  intros [] Hk Hb Hp. unfold batch_reader.read_record_batch_info.
  rewrite (@view_left _ CP CL _ _ _ Hp), blen_app,
    kafka_header_bytes_length, (@view_consumed _ CP CL _ _ _ Hp).
  pose proof (blen_nonneg rest).
  destruct (Z.ltb_spec (kafka_header_size + blen rest) kafka_header_size); [lia|].
  cbn [throw_if mbind res_bind].
  unfold kafka_header_bytes in Hp. rewrite <- !app_assoc in Hp.
  destruct (@read_s_view _ CP CL _ 8 _ _ _ 64 eq_refl ltac:(lia) Hp)
    as (p1 & -> & V1). cbn [mbind res_bind].
  destruct (@read_s_view _ CP CL _ 4 _ _ _ 32 eq_refl ltac:(lia) V1)
    as (p2 & -> & V2). cbn [mbind res_bind].
  destruct (@skip_ok _ CP CL _ _ _ 11 V2) as (p3 & E3 & V3); [split; [done|]|].
  { rewrite !blen_app. unfold blen. rewrite !be_bytes_length. lia. }
  change (4 + 1 + 4 + 2) with 11. rewrite E3. cbn [mbind res_bind].
  match type of V3 with cview _ (bdrop 11 (_ ++ _ ++ _ ++ _ ++ ?t)) _ =>
    change (cview p3 t (k + Z.of_nat 8 + Z.of_nat 4 + 11)) in V3 end.
  destruct (@read_s_view _ CP CL _ 4 _ _ _ 32 eq_refl ltac:(lia) V3)
    as (p4 & -> & V4). cbn [mbind res_bind].
  destruct (@skip_ok _ CP CL _ _ _ 34 V4) as (p5 & E5 & V5); [split; [done|]|].
  { rewrite !blen_app. unfold blen. rewrite !be_bytes_length. lia. }
  change (8 + 8 + 8 + 2 + 4 + 4) with 34. rewrite E5. cbn [mbind res_bind].
  match type of V5 with cview _ _ ?n =>
    replace n with (k + kafka_header_size) in V5 by (unfold kafka_header_size; lia) end.
  change (cview p5 rest (k + kafka_header_size)) in V5.
  rewrite (@view_consumed _ CP CL _ _ _ V5).
  replace (k + kafka_header_size - k) with kafka_header_size by lia.
  change (negb (u64 kafka_header_size =? kafka_header_size)) with false. cbn [throw_if mbind res_bind].
  exists p5. split; [|done]. rewrite !(swrap_id 64), (swrap_id 32 (last_offset_delta _)) by ranges.
  rewrite wire_size_bytes_flat by done. done.
Qed.

Lemma last_offset_loop_view fuel last p k bs :
  Forall (fun b => wire_header (header b) /\
    b_size_bytes (header b) = packed_record_batch_header_size + blen (concat (records b))) bs ->
  0 <= k -> k + blen (wire_of bs) < 2 ^ 63 -> (length bs <= fuel)%nat ->
  cview p (wire_of bs) k ->
  batch_reader.last_offset_loop uninit fuel last p
  = Ok (default last (list.last (RecordBatch.last_offset ∘ header <$> bs))).
Proof.
  intros Hbs. revert fuel last p k. induction Hbs as [|b bs [Hw Hs] _ IH]; intros fuel last p k Hk Hm Hf Hp.
  - assert (Hl : @bytes_left _ CP p = 0) by (by rewrite (@view_left _ CP CL _ _ _ Hp)).
    destruct fuel; cbn [batch_reader.last_offset_loop]; by rewrite Hl.
  - rewrite wire_of_cons in *. rewrite blen_app in Hm. destruct fuel as [|fuel]; [cbn in Hf; lia|].
    cbn [batch_reader.last_offset_loop]. rewrite (@view_left _ CP CL _ _ _ Hp), blen_app.
    pose proof (wire_length b) as Hwl. pose proof (blen_nonneg (wire_of bs)).
    destruct (Z.eqb_spec (blen (writer_serialize_batch [] b) + blen (wire_of bs)) 0) as [H0|_].
    { unfold kafka_header_size in Hwl. lia. }
    unfold writer_serialize_batch in *. cbn [app] in *. rewrite <- app_assoc in Hp.
    rewrite blen_app, kafka_header_bytes_length in Hm. pose proof (blen_nonneg (concat (records b))).
    pose proof (wire_size _ Hw).
    destruct (read_record_batch_info_view b _ p k Hw Hk ltac:(ranges) Hp) as (p1 & -> & V1).
    cbn [mbind res_bind]. rewrite Hs, Z.add_simpl_l, (swrap_id 32), uwrap_id
      by (unfold packed_record_batch_header_size in *; ranges).
    destruct (@skip_ok _ CP CL _ _ _ (blen (concat (records b))) V1) as (p2 & -> & V2);
      [rewrite blen_app; lia|]. cbn [mbind res_bind]. rewrite bdrop_app in V2.
    rewrite (IH fuel _ p2 (k + kafka_header_size + blen (concat (records b))));
      [|unfold kafka_header_size; lia|lia|cbn in Hf; lia|done].
    f_equal. rewrite fmap_cons, last_cons. by destruct (list.last _).
Qed.
End last_offset_facts.

Lemma serializer_last bs s :
  kafka_batch_serializer.slast_offset (foldl kafka_batch_serializer.call s bs)
  = default (kafka_batch_serializer.slast_offset s)
      (list.last (RecordBatch.last_offset ∘ header <$> bs)).
Proof.
  revert s. induction bs as [|b bs IH]; intros s; [done|]. cbn [foldl]. rewrite IH.
  rewrite fmap_cons, last_cons. by destruct (list.last _).
Qed.

(** ** Properties *)

(** C8: a record set written by the serializer is read back by the reader, however the
    buffer is fragmented: the batches come out in order, each with the header
    fields that travel on the wire and the same payload, the buffer is used up, and
    [last_offset] of the reader is the last offset the serializer reports. *)
Theorem record_set_roundtrip crc_extend this_shard uninit bs frags tolerate
    (HC : CrcLaws crc_extend) :
  let s := foldl kafka_batch_serializer.call kafka_batch_serializer.make bs in
  Forall (sendable crc_extend) bs -> concat frags = kafka_batch_serializer.buf s ->
  blen (concat frags) < 2 ^ 63 ->
  (exists out r', batch_reader.do_load_slice crc_extend this_shard (fun _ => false)
      (batch_reader.make frags tolerate) = batch_reader.Loaded out r' /\
    Forall2 (received this_shard) bs out /\ batch_reader.empty r' = true) /\
  (bs <> [] -> batch_reader.last_offset uninit (batch_reader.make frags tolerate)
    = Ok (kafka_batch_serializer.slast_offset s)).
Proof.
  intros s Hbs E Hm. unfold s in *. rewrite serializer_buf in E. cbn in E. split.
  - unfold batch_reader.do_load_slice. cbn [batch_reader.buf batch_reader.make].
    pose proof (wire_of_length bs). rewrite E.
    replace (length (wire_of bs) + 1)%nat
      with (length bs + S (length (wire_of bs) - length bs))%nat by lia.
    destruct (load_many crc_extend this_shard (fun _ => false) (S (length (wire_of bs) - length bs))
      0 [] (batch_reader.make frags tolerate) bs []) as (out & buf' & -> & Ho & Hb);
      [done|done|done|by rewrite app_nil_r|].
    exists out, (batch_reader.set_buf (batch_reader.make frags tolerate) buf').
    cbn. unfold batch_reader.is_end_of_stream, batch_reader.empty. cbn. by rewrite Hb.
  - intros Hne. unfold batch_reader.last_offset. cbn [batch_reader.buf batch_reader.make].
    pose proof (iobuf_parser.const_make_view uninit frags) as Hv. rewrite E in *.
    rewrite (last_offset_loop_view uninit _ 0 _ 0 bs);
      [|eapply Forall_impl; [exact Hbs|intros b []; done]|lia|lia|apply wire_of_length|exact Hv].
    rewrite serializer_last. f_equal.
    assert (Hs : is_Some (list.last (RecordBatch.last_offset ∘ header <$> bs))).
    { apply last_is_Some. by destruct bs. }
    by destruct Hs as [x ->].
Qed.

(** A second batch for the examples: two records of a transaction, at offset 2. *)
Definition example_batch2 : record_batch :=
  let h := {| header_crc := 0; b_size_bytes := 0; base_offset := 2; type := raft_data; crc := 0;
    attrs := 0x10; last_offset_delta := 1; first_timestamp := 2000; max_timestamp := 2003;
    producer_id := 7; producer_epoch := 0; base_sequence := 2; record_count := 2;
    ctx_term := 1; ctx_owner_shard := None |} in
  let recs := [encode_records example_records] in
  {| header := reset_size_checksum_metadata sum_extend h recs; records := recs; compressed := false |}.

Lemma example_sendable : Forall (sendable sum_extend) [example_batch; example_batch2].
Proof.
  repeat apply Forall_cons_2; [..|constructor];
    (split; [split; concrete|reflexivity|reflexivity|exists none; split; reflexivity]).
Qed.

Lemma record_set_roundtrip_witness :
  batch_reader.last_offset (fun _ => 0) (batch_reader.make
    [wire_of [example_batch]; []; wire_of [example_batch2]] false) = Ok 3.
Proof.
  apply (record_set_roundtrip sum_extend 0 (fun _ => 0) [example_batch; example_batch2]
    [wire_of [example_batch]; []; wire_of [example_batch2]] false sum_extend_laws example_sendable);
    [reflexivity|concrete|discriminate].
Defined.

(** A record set cut off inside its last batch.  A reader told to tolerate this
    returns the complete batches; any other reader fails with [corrupt_message]
    and returns none. *)
Theorem partial_last_batch crc_extend this_shard bs b cut frags tolerate
    (HC : CrcLaws crc_extend) :
  Forall (sendable crc_extend) bs -> sendable crc_extend b ->
  0 < cut < blen (writer_serialize_batch [] b) ->
  concat frags = wire_of bs ++ btake cut (writer_serialize_batch [] b) ->
  let o := batch_reader.do_load_slice crc_extend this_shard (fun _ => false)
             (batch_reader.make frags tolerate) in
  if tolerate : bool
  then exists out r', o = batch_reader.Loaded out r' /\ Forall2 (received this_shard) bs out /\
         batch_reader.empty r' = true
  else exists r', o = batch_reader.Corrupt r' /\ batch_reader.do_load_slice_failed r' = true.
Proof.
  intros Hbs Hb Hcut E o. unfold o, batch_reader.do_load_slice. cbn [batch_reader.buf batch_reader.make].
  set (p := btake cut (writer_serialize_batch [] b)) in *.
  assert (Hp : blen p = cut) by (apply blen_btake; lia).
  pose proof (wire_of_length bs). rewrite E, length_app.
  replace (length (wire_of bs) + length p + 1)%nat
    with (length bs + S (S (length (wire_of bs) + length p - length bs - 1)))%nat
    by (unfold blen in Hp; lia).
  destruct (load_many crc_extend this_shard (fun _ => false)
    (S (S (length (wire_of bs) + length p - length bs - 1))) 0 []
    (batch_reader.make frags tolerate) bs p) as (out & buf' & -> & Ho & Hbuf); [done..|].
  cbn [batch_reader.load_loop]. unfold batch_reader.is_end_of_stream, batch_reader.empty.
  cbn [batch_reader.set_buf batch_reader.buf batch_reader.make batch_reader.do_load_slice_failed orb].
  rewrite Hbuf, Hp. destruct (Z.eqb_spec cut 0) as [|_]; [lia|]. cbn [orb].
  unfold batch_reader.consume_batch. cbn [batch_reader.set_buf batch_reader.buf].
  rewrite (adapt_partial crc_extend this_shard buf' b
    (bdrop cut (writer_serialize_batch [] b)) new_adapter Hb).
  - destruct tolerate; cbn; eexists _; [eexists _|]; done.
  - intros Hnil. apply (f_equal blen) in Hnil. rewrite blen_bdrop in Hnil by lia. change (@blen Z []) with 0 in Hnil. lia.
  - rewrite Hbuf. unfold p, btake, bdrop. by rewrite take_drop.
Qed.

Lemma partial_last_batch_witness :
  exists r', batch_reader.do_load_slice sum_extend 0 (fun _ => false)
    (batch_reader.make [wire_of [example_batch]; btake 40 (writer_serialize_batch [] example_batch2)] false)
    = batch_reader.Corrupt r' /\ batch_reader.do_load_slice_failed r' = true.
Proof.
  apply (partial_last_batch sum_extend 0 [example_batch] example_batch2 40
    [wire_of [example_batch]; btake 40 (writer_serialize_batch [] example_batch2)] false sum_extend_laws);
    [| |concrete|reflexivity].
  - apply Forall_cons_2; [|constructor]. exact (Forall_inv example_sendable).
  - exact (Forall_inv (Forall_inv_tail example_sendable)).
Defined.

(** On every buffer the load loop ends by itself: it returns the same outcome with
    any larger bound on its rounds, whenever the clock runs out. *)
Theorem load_slice_terminates crc_extend this_shard timed_out r fuel (HC : CrcLaws crc_extend) :
  blen (concat (batch_reader.buf r)) < 2 ^ 63 ->
  (length (concat (batch_reader.buf r)) <= fuel)%nat ->
  batch_reader.load_loop crc_extend this_shard timed_out fuel 0 [] r
  = batch_reader.do_load_slice crc_extend this_shard timed_out r.
Proof.
  intros Hm Hf. unfold batch_reader.do_load_slice.
  transitivity (batch_reader.load_loop crc_extend this_shard timed_out
    (length (concat (batch_reader.buf r))) 0 [] r); [|symmetry]; by apply load_fuel; lia || done.
Qed.

Lemma load_slice_terminates_witness :
  batch_reader.load_loop sum_extend 0 (fun _ => false) 3 0 [] (batch_reader.make [[1; 2]; [3]] false)
  = batch_reader.do_load_slice sum_extend 0 (fun _ => false) (batch_reader.make [[1; 2]; [3]] false).
Proof. apply (load_slice_terminates sum_extend 0 _ _ 3 sum_extend_laws); [concrete|apply le_n]. Defined.
