(* ===== verification/BatchBuilder.v ===== *)
(** * Building batches and converting legacy message sets
      (storage/record_batch_builder.{h,cc}, kafka/protocol/legacy_message.h, and
      the legacy half of kafka/protocol/kafka_batch_adapter.cc)

    The builder encodes key/value pairs into the payload of a batch.  Produce
    requests before version 3 carry message sets (magic 0 and 1): each message is
    decoded and added to a builder, a compressed message is unpacked one level.

    Parameters: [crc_extend] (crc32c), [crc32_extend] (zlib's crc32, whose initial
    value is 0), the codecs [uncompress] and [compress], the clock [now] and the
    shard [this_shard]. *)

From S2P Require Import Prelude Vint IobufParser Record RecordBatch BatchAdapter.

Module record_batch_builder.

Record builder := {
  batch_type : Z;
  bb_base_offset : Z;
  bb_producer_id : Z;
  bb_producer_epoch : Z;
  is_control_type : bool;
  transactional_type : bool;
  bb_records : bytes;
  bb_offset_delta : Z;
  bb_compression : compression;
  bb_timestamp : option Z;
}.

Definition make (bt base : Z) : builder := {|
  batch_type := bt; bb_base_offset := base; bb_producer_id := -1; bb_producer_epoch := -1;
  is_control_type := false; transactional_type := false; bb_records := [];
  bb_offset_delta := 0; bb_compression := none; bb_timestamp := None |}.

Definition set_producer_identity (b : builder) (id epoch : Z) : builder := {|
  batch_type := batch_type b; bb_base_offset := bb_base_offset b; bb_producer_id := id;
  bb_producer_epoch := epoch; is_control_type := is_control_type b;
  transactional_type := transactional_type b; bb_records := bb_records b;
  bb_offset_delta := bb_offset_delta b; bb_compression := bb_compression b;
  bb_timestamp := bb_timestamp b |}.

Definition set_types (b : builder) (control tx : bool) : builder := {|
  batch_type := batch_type b; bb_base_offset := bb_base_offset b;
  bb_producer_id := bb_producer_id b; bb_producer_epoch := bb_producer_epoch b;
  is_control_type := control; transactional_type := tx; bb_records := bb_records b;
  bb_offset_delta := bb_offset_delta b; bb_compression := bb_compression b;
  bb_timestamp := bb_timestamp b |}.
Definition set_control_type (b : builder) : builder := set_types b true (transactional_type b).
Definition set_transactional_type (b : builder) : builder := set_types b (is_control_type b) true.

Definition set_payload (b : builder) (recs : bytes) (delta : Z) : builder := {|
  batch_type := batch_type b; bb_base_offset := bb_base_offset b;
  bb_producer_id := bb_producer_id b; bb_producer_epoch := bb_producer_epoch b;
  is_control_type := is_control_type b; transactional_type := transactional_type b;
  bb_records := recs; bb_offset_delta := delta; bb_compression := bb_compression b;
  bb_timestamp := bb_timestamp b |}.

Definition set_encoding (b : builder) (c : compression) (ts : option Z) : builder := {|
  batch_type := batch_type b; bb_base_offset := bb_base_offset b;
  bb_producer_id := bb_producer_id b; bb_producer_epoch := bb_producer_epoch b;
  is_control_type := is_control_type b; transactional_type := transactional_type b;
  bb_records := bb_records b; bb_offset_delta := bb_offset_delta b; bb_compression := c;
  bb_timestamp := ts |}.
Definition set_compression (b : builder) (c : compression) : builder :=
  set_encoding b c (bb_timestamp b).
Definition set_timestamp (b : builder) (ts : Z) : builder :=
  set_encoding b (bb_compression b) (Some ts).

Definition empty (b : builder) : bool := blen (bb_records b) =? 0.

(** [serialized_record]: a missing buffer is empty, with an encoded size of -1. *)
Record serialized_record := {
  sr_key : bytes;
  encoded_key_size : Z;
  sr_value : bytes;
  encoded_value_size : Z;
  sr_headers : list record_header;
}.

Definition make_serialized (k v : option bytes) (hdrs : list record_header) : serialized_record := {|
  sr_key := default [] k;
  encoded_key_size := match k with Some k => s32 (blen k) | None => -1 end;
  sr_value := default [] v;
  encoded_value_size := match v with Some v => s32 (blen v) | None => -1 end;
  sr_headers := hdrs |}.

Definition zero_vint_size : Z := vint.vint_size 0.

Definition record_size (offset_delta : Z) (r : serialized_record) : Z :=
  let size := u32 (1 + zero_vint_size + vint.vint_size offset_delta
                   + vint.vint_size (encoded_key_size r) + blen (sr_key r)
                   + vint.vint_size (encoded_value_size r) + blen (sr_value r)
                   + vint.vint_size (blen (sr_headers r))) in
  foldl (fun size h => u32 (size + vint.vint_size (h_key_size h) + blen (h_key h)
                            + vint.vint_size (h_val_size h) + blen (h_value h)))
    size (sr_headers r).

Definition add_raw_kw (b : builder) (k v : option bytes) (hdrs : list record_header) : builder :=
  let sr := make_serialized k v hdrs in
  let rec_sz := record_size (bb_offset_delta b) sr in
  let r := {| size_bytes := s32 rec_sz; attributes := 0; timestamp_delta := 0;
              offset_delta := bb_offset_delta b;
              key_size := encoded_key_size sr; key := sr_key sr;
              val_size := encoded_value_size sr; value := sr_value sr;
              headers := sr_headers sr |} in
  set_payload b (append_record_to_buffer (bb_records b) r) (s32 (bb_offset_delta b + 1)).

Definition add_raw_kv (b : builder) (k v : option bytes) : builder := add_raw_kw b k v [].

Section build.
Variable crc_extend : Z -> bytes -> Z.
Variable compress : compression_type -> list bytes -> res (list bytes).
Variables this_shard now : Z.

Definition build_header (b : builder) (timestamp : Z) : record_batch_header :=
  let attrs := 0 in
  let attrs := if is_control_type b then record_batch_attributes.set_control_type attrs else attrs in
  let attrs := if transactional_type b
               then record_batch_attributes.set_transactional_type attrs else attrs in
  {| header_crc := 0;
     b_size_bytes := s32 (packed_record_batch_header_size + blen (bb_records b));
     base_offset := bb_base_offset b; type := batch_type b; crc := 0; attrs := attrs;
     last_offset_delta := s32 (bb_offset_delta b - 1);
     first_timestamp := timestamp; max_timestamp := timestamp;
     producer_id := bb_producer_id b; producer_epoch := bb_producer_epoch b;
     base_sequence := -1; record_count := bb_offset_delta b;
     ctx_term := 0; ctx_owner_shard := Some this_shard |}.

Definition build (b : builder) : res record_batch :=
  let timestamp := default now (bb_timestamp b) in
  batch ← make_batch (build_header b timestamp) [bb_records b];
  if bool_decide (bb_compression b = none) then
    Ok {| header := reset_size_checksum_metadata crc_extend (header batch) (records batch);
          records := records batch; compressed := compressed batch |}
  else compress_batch crc_extend compress (bb_compression b) batch.
End build.
End record_batch_builder.

(** ** Legacy messages *)

Record legacy_message := {
  lm_base_offset : Z;
  batch_length : Z;
  batch_crc : Z;
  magic : Z;
  lm_attributes : Z;
  timestamp : option Z;
  lm_key : option bytes;
  lm_value : option bytes;
}.

(** [legacy_message::compression]. *)
Definition legacy_compression (m : legacy_message) : res compression :=
  match Z.land (u8 (lm_attributes m)) 0x07 with
  | 0 => Ok none
  | 1 => Ok gzip
  | 2 => Ok snappy
  | 3 => Ok lz4
  | _ => Throw runtime_error
  end.

(** An optional buffer with a 32-bit size in front. *)
Definition read_legacy_bytes (p : parser) : res (option bytes * parser) :=
  '(size, p) ← read_s 32 p;
  if size =? -1 then Ok (None, p)
  else '(d, p) ← parser_data (u64 size) p; Ok (Some d, p).

Section legacy.
Variable crc32_extend : Z -> bytes -> Z.

Definition decode_legacy_batch (p : parser) : res (option legacy_message * parser) :=
  '(base_offset, p) ← read_s 64 p;
  '(batch_length, p) ← read_s 32 p;
  '(expected_crc, p) ← read_s 32 p;
  let crc_buf := share_no_consume (u64 (batch_length - 4)) (iobuf_parser.owned p) in
  '(magic, p) ← consume_type 8 p;
  let magic := s8 magic in
  if negb (magic =? 0) && negb (magic =? 1) then Ok (None, p)
  else
    '(attributes, p) ← consume_type 8 p;
    '(timestamp, p) ← (if magic =? 1
                       then '(ts, p) ← read_s 64 p; Ok (Some ts, p)
                       else Ok (None, p));
    let '(_, computed_crc, _) :=
      io_iterator_consumer.consume (fun c src => (crc32_extend c src, false))
        (blen (concat crc_buf)) 0 (io_iterator_consumer.make crc_buf) in
    if negb (u32 expected_crc =? computed_crc) then Ok (None, p)
    else
      '(key, p) ← read_legacy_bytes p;
      '(value, p) ← read_legacy_bytes p;
      Ok (Some {| lm_base_offset := base_offset; batch_length := batch_length;
                  batch_crc := expected_crc; magic := magic; lm_attributes := s8 attributes;
                  timestamp := timestamp; lm_key := key; lm_value := value |}, p).

Variable uncompress : compression_type -> list bytes -> res (list bytes).
Abbreviation builder := record_batch_builder.builder.

(** The loop of [convert_message_set]: the value [legacy_error] ends with, and the
    builder.  [nested] is the call on an unpacked message set; it is not made when
    [expect_uncompressed].  A message takes bytes, so their number bounds the loop. *)
Fixpoint convert_loop (nested : builder -> list bytes -> res (bool * builder))
    (expect_uncompressed : bool) (fuel : nat) (err : bool) (b : builder) (p : parser)
    : res (bool * builder) :=
  if bytes_left p =? 0 then Ok (err, b)
  else match fuel with
  | O => Throw bad_alloc
  | S fuel =>
      '(m, p) ← decode_legacy_batch p;
      match m with
      | None => Ok (true, b)
      | Some m =>
          let b := match timestamp m with
                   | Some ts => record_batch_builder.set_timestamp b ts
                   | None => b end in
          c ← legacy_compression m;
          if bool_decide (c = none) then
            convert_loop nested expect_uncompressed fuel err
              (record_batch_builder.add_raw_kv b (lm_key m) (lm_value m)) p
          else if (magic m =? 0) && bool_decide (c = lz4) then Ok (true, b)
          else
            let b := record_batch_builder.set_compression b c in
            if expect_uncompressed then Ok (true, b)
            else match lm_value m with
            | None => Ok (true, b)
            | Some v =>
                t ← to_compression_type c;
                batch_data ← uncompress t [v];
                '(e, b) ← nested b batch_data;
                convert_loop nested expect_uncompressed fuel (err || e) b p
            end
      end
  end.

Definition convert_nested (b : builder) (kbatch : list bytes) : res (bool * builder) :=
  convert_loop (fun b _ => Ok (true, b)) true (length (concat kbatch)) false b (make_parser kbatch).

Definition convert_message_set (b : builder) (kbatch : list bytes) : res (bool * builder) :=
  convert_loop convert_nested false (length (concat kbatch)) false b (make_parser kbatch).

Variable crc_extend : Z -> bytes -> Z.
Variable compress : compression_type -> list bytes -> res (list bytes).
Variables this_shard now : Z.

(** [adapt_with_version]. *)
Definition adapt_with_version (kbatch : list bytes) (version : Z) (a : kafka_batch_adapter)
    : res kafka_batch_adapter :=
  if version >=? 3 then '(_, a) ← adapt crc_extend this_shard kbatch a; Ok a
  else
    let b := record_batch_builder.make raft_data 0 in
    '(err, b) ← convert_message_set b kbatch;
    let a := if err : bool then set_legacy_error a true else a in
    if legacy_error a then Ok a
    else
      let a := set_valid_crc (set_v2_format a true) true in
      batch ← record_batch_builder.build crc_extend compress this_shard now b;
      Ok (set_batch a batch).

(** The constructor of [produce_request_record_data] from request bytes. *)
Definition produce_request_record_data (data : option (list bytes)) (version : Z)
    : res kafka_batch_adapter :=
  match data with
  | None => Ok new_adapter
  | Some d => adapt_with_version d version new_adapter
  end.
End legacy.

(** ** The builder encodes the records it is given *)

Lemma sized_max size data : sized size data -> blen data = Z.max size 0.
Proof.
  intros [_ [[H ->]|H]]; [change (@blen Z []) with 0; lia|]. pose proof (blen_nonneg data). lia.
Qed.

Lemma header_sizes h : header_wf h ->
  vint.vint_size (h_key_size h) + blen (h_key h) + vint.vint_size (h_val_size h) + blen (h_value h)
  = header_size_bytes h.
Proof. intros [Hk Hv]. unfold header_size_bytes. by rewrite (sized_max _ _ Hk), (sized_max _ _ Hv). Qed.

Lemma header_size_pos h : header_wf h -> 0 <= header_size_bytes h.
Proof.
  intros [[Hk _] [Hv _]]. unfold header_size_bytes.
  pose proof (vint.size_bounds (h_key_size h) ltac:(ranges)).
  pose proof (vint.size_bounds (h_val_size h) ltac:(ranges)). lia.
Qed.

Lemma foldl_sizes_mono hs a : Forall header_wf hs ->
  a <= foldl (fun acc h => acc + header_size_bytes h) a hs.
Proof.
  intros Hh. revert a. induction Hh as [|h hs Hh _ IH]; intros a; cbn [foldl]; [lia|].
  pose proof (header_size_pos h Hh). specialize (IH (a + header_size_bytes h)). lia.
Qed.

(** As long as the sum fits, the unsigned accumulation does not wrap. *)
Lemma record_size_headers hs a : Forall header_wf hs -> 0 <= a ->
  foldl (fun acc h => acc + header_size_bytes h) a hs < 2 ^ 32 ->
  foldl (fun size h => u32 (size + vint.vint_size (h_key_size h) + blen (h_key h)
                            + vint.vint_size (h_val_size h) + blen (h_value h))) a hs
  = foldl (fun acc h => acc + header_size_bytes h) a hs.
Proof.
  intros Hh. revert a. induction Hh as [|h hs Hh Hhs IH]; intros a Ha Hm; cbn [foldl] in *; [done|].
  pose proof (foldl_sizes_mono hs (a + header_size_bytes h) Hhs).
  pose proof (header_size_pos h Hh). pose proof (header_sizes h Hh) as E.
  replace (a + vint.vint_size (h_key_size h) + blen (h_key h) + vint.vint_size (h_val_size h)
    + blen (h_value h)) with (a + header_size_bytes h) by lia.
  rewrite uwrap_id by ranges. apply IH; [lia|done].
Qed.

Module builder_facts.
Import record_batch_builder.

Lemma record_size_eq od k v hdrs : record_args_ok 0 0 od k v hdrs ->
  record_size od (make_serialized k v hdrs)
  = record_size_sum 0 od (optional_size k) (optional_size v) hdrs.
Proof.
  intros [_ _ Ho Hh Hk Hv Hs]. unfold record_size, record_size_sum, make_serialized.
  cbn [encoded_key_size encoded_value_size sr_key sr_value sr_headers].
  fold (optional_size k) (optional_size v).
  rewrite (sized_max _ _ (optional_sized k Hk)), (sized_max _ _ (optional_sized v Hv)).
  unfold record_size_sum in Hs. change zero_vint_size with (vint.vint_size 0).
  set (pre := 1 + _ + _ + _ + _ + _ + _ + _) in *.
  assert (Hpre : forall a, foldl (fun acc h => acc + header_size_bytes h) a hdrs
    = a + foldl (fun acc h => acc + header_size_bytes h) 0 hdrs).
  { intros a. rewrite !headers_length by done. lia. }
  assert (0 <= pre).
  { pose proof (optional_sized k Hk) as [? _]. pose proof (optional_sized v Hv) as [? _].
    pose proof (vint.size_bounds od ltac:(ranges)).
    pose proof (vint.size_bounds (optional_size k) ltac:(ranges)).
    pose proof (vint.size_bounds (optional_size v) ltac:(ranges)).
    pose proof (unsigned_vint.size_loop_mono 10 (vint.encode_zigzag (blen hdrs)) 1) as B.
    change (unsigned_vint.size_loop 10 (vint.encode_zigzag (blen hdrs)) 1)
      with (vint.vint_size (blen hdrs)) in B. change (vint.vint_size 0) with 1 in pre. lia. }
  pose proof (foldl_sizes_mono hdrs 0 Hh). clearbody pre. rewrite uwrap_id by ranges.
  rewrite (record_size_headers hdrs pre Hh); [apply Hpre|lia|]. rewrite Hpre. ranges.
Qed.

(** One key/value pair is one record, at the next offset delta. *)
Lemma add_raw_kw_eq b k v hdrs :
  record_args_ok 0 0 (bb_offset_delta b) k v hdrs ->
  add_raw_kw b k v hdrs
  = set_payload b (append_record_to_buffer (bb_records b)
                     (make_record 0 0 (bb_offset_delta b) k v hdrs)) (s32 (bb_offset_delta b + 1)).
Proof. intros H. unfold add_raw_kw. by rewrite record_size_eq. Qed.

Definition add_all (b : builder) (kvs : list (option bytes * option bytes)) : builder :=
  foldl (fun b kv => add_raw_kv b kv.1 kv.2) b kvs.

(** The records of key/value pairs, numbered from [n]; [pairs_ok] says that each fits
    a record. *)
Fixpoint numbered (n : Z) (kvs : list (option bytes * option bytes)) : list record :=
  match kvs with
  | [] => []
  | (k, v) :: kvs => make_record 0 0 n k v [] :: numbered (n + 1) kvs
  end.
Fixpoint pairs_ok (n : Z) (kvs : list (option bytes * option bytes)) : Prop :=
  match kvs with
  | [] => True
  | (k, v) :: kvs => record_args_ok 0 0 n k v [] /\ pairs_ok (n + 1) kvs
  end.

Lemma numbered_wf n kvs : pairs_ok n kvs -> Forall record_wf (numbered n kvs).
Proof.
  revert n. induction kvs as [|[k v] kvs IH]; intros n; cbn; [constructor|].
  intros [Hr Hk]. constructor; [by apply make_record_wf|by apply IH].
Qed.

Lemma numbered_length n kvs : length (numbered n kvs) = length kvs.
Proof. revert n. induction kvs as [|[k v] kvs IH]; intros n; cbn; [done|]. by rewrite IH. Qed.

Lemma add_all_eq b kvs :
  0 <= bb_offset_delta b -> bb_offset_delta b + blen kvs <= int32_max ->
  pairs_ok (bb_offset_delta b) kvs ->
  add_all b kvs = set_payload b
    (foldl append_record_to_buffer (bb_records b) (numbered (bb_offset_delta b) kvs))
    (bb_offset_delta b + blen kvs).
Proof.
  revert b. induction kvs as [|[k v] kvs IH]; intros b H0 Hm Hok.
  - cbn. change (@blen (option bytes * option bytes) []) with 0. rewrite Z.add_0_r. by destruct b.
  - rewrite blen_cons in *. pose proof (blen_nonneg kvs). destruct Hok as [Hr Hok]. cbn [add_all foldl].
    unfold add_raw_kv. cbn [fst snd]. rewrite add_raw_kw_eq by done.
    rewrite swrap_id by ranges. fold (add_all (set_payload b (append_record_to_buffer (bb_records b)
      (make_record 0 0 (bb_offset_delta b) k v [])) (bb_offset_delta b + 1)) kvs).
    rewrite IH; [|cbn; ranges..|done]. destruct b; cbn. f_equal. lia.
Qed.

Section build_facts.
Context (crc_extend : Z -> bytes -> Z)
  (compress : compression_type -> list bytes -> res (list bytes)) (this_shard now : Z).

(** What [build] makes of a builder that does not compress. *)
Lemma build_plain b :
  bb_compression b = none ->
  build crc_extend compress this_shard now b =
  Ok {| header := reset_size_checksum_metadata crc_extend
                    (build_header this_shard b (default now (bb_timestamp b))) [bb_records b];
        records := [bb_records b]; compressed := false |}.
Proof.
  intros Hc. unfold build, make_batch. rewrite Hc.
  assert (Ha : record_batch_attributes.get_compression
    (attrs (build_header this_shard b (default now (bb_timestamp b)))) = Ok none).
  { unfold build_header. cbn [attrs]. by destruct (is_control_type b), (transactional_type b). }
  rewrite Ha. cbn [mbind res_bind]. unfold size_matches. cbn [b_size_bytes build_header].
  cbn [concat]. rewrite app_nil_r, Z.eqb_refl. done.
Qed.
End build_facts.

End builder_facts.

(** ** The legacy format

    The wire format of a message set, written out from the layout in
    legacy_message.h, and its decoding. *)

Definition legacy_bytes (o : option bytes) : bytes :=
  match o with None => be_bytes 4 (-1) | Some d => be_bytes 4 (blen d) ++ d end.

(** The part of a message the crc covers; a timestamp makes it magic 1. *)
Definition legacy_body (ts : option Z) (attrs : Z) (k v : option bytes) : bytes :=
  match ts with None => [0; attrs] | Some ts => [1; attrs] ++ be_bytes 8 ts end
  ++ legacy_bytes k ++ legacy_bytes v.

Definition encode_legacy (crc32_extend : Z -> bytes -> Z) (offset : Z) (ts : option Z) (attrs : Z)
    (k v : option bytes) : bytes :=
  let body := legacy_body ts attrs k v in
  be_bytes 8 offset ++ be_bytes 4 (4 + blen body) ++ be_bytes 4 (crc32_extend 0 body) ++ body.

(** The documented behaviour of zlib's [crc32]: it extends piecewise, and it returns
    a 32-bit value. *)
Class Crc32Laws (crc32_extend : Z -> bytes -> Z) : Prop := {
  crc32_extend_nil c : crc32_extend c [] = c;
  crc32_extend_app c a b : crc32_extend (crc32_extend c a) b = crc32_extend c (a ++ b);
  crc32_range a : is_u 32 (crc32_extend 0 a);
}.

Definition legacy_sized (o : option bytes) : Prop := blen (default [] o) <= int32_max.

Record legacy_ok (offset : Z) (ts : option Z) (attrs : Z) (k v : option bytes) : Prop := {
  lok_offset : is_s 64 offset;
  lok_ts : forall t, ts = Some t -> is_s 64 t;
  lok_attrs : 0 <= attrs < 8;
  lok_key : legacy_sized k;
  lok_value : legacy_sized v;
  lok_length : 4 + blen (legacy_body ts attrs k v) <= int32_max;
}.

Lemma read_legacy_bytes_view (p : parser) o rest k :
  legacy_sized o -> view p (legacy_bytes o ++ rest) k ->
  exists p' k', read_legacy_bytes p = Ok (o, p') /\ view p' rest k'.
Proof.
  intros Hs Hv. unfold read_legacy_bytes, legacy_sized in *. destruct o as [d|]; cbn [legacy_bytes] in *.
  - change (blen d <= int32_max) in Hs. rewrite <- app_assoc in Hv.
    pose proof (blen_nonneg d). pose proof (blen_nonneg rest).
    destruct (read_s_view p 4 _ _ _ 32 eq_refl ltac:(lia) Hv) as (p1 & -> & V1).
    cbn [mbind res_bind]. rewrite swrap_id by ranges.
    destruct (Z.eqb_spec (blen d) (-1)); [lia|]. rewrite uwrap_id by ranges.
    destruct (parser_data_ok p1 _ _ (blen d) V1) as (p2 & -> & V2); [rewrite blen_app; lia|done|].
    rewrite btake_app, bdrop_app in *. eexists p2, _. split; [done|exact V2].
  - destruct (read_s_view p 4 _ _ _ 32 eq_refl ltac:(lia) Hv) as (p1 & -> & V1).
    eexists p1, _. split; [done|exact V1].
Qed.

Lemma share_no_consume_view (p : parser) r k n :
  view p r k -> 0 <= n -> concat (share_no_consume n (iobuf_parser.owned p)) = btake n r.
Proof.
  destruct p as [p]. intros Hv Hn. change (iobuf_parser.base_view p r k) in Hv.
  destruct Hv as (_ & Hk & _ & Hb & Hr). unfold share_no_consume. cbn [iobuf_parser.owned].
  rewrite Hk, iobuf.share_spec by lia. by rewrite Hr.
Qed.

Lemma u32_s32 x : u32 (s32 x) = u32 x.
Proof.
  unfold uwrap, swrap. change (2 ^ (32 - 1)) with (2 ^ 31).
  rewrite Zminus_mod_idemp_l. f_equal. lia.
Qed.

Section legacy_facts.
Context (crc32_extend : Z -> bytes -> Z) {HZ : Crc32Laws crc32_extend}.

(** The decoded form of a message. *)
Definition legacy_of (offset : Z) (ts : option Z) (attrs : Z) (k v : option bytes) : legacy_message :=
  let body := legacy_body ts attrs k v in
  {| lm_base_offset := offset; batch_length := 4 + blen body;
     batch_crc := s32 (crc32_extend 0 body); magic := match ts with None => 0 | Some _ => 1 end;
     lm_attributes := attrs; timestamp := ts; lm_key := k; lm_value := v |}.

Lemma legacy_crc frags : 
  (let '(_, c, _) := io_iterator_consumer.consume (fun c src => (crc32_extend c src, false))
    (blen (concat frags)) 0 (io_iterator_consumer.make frags) in c) = crc32_extend 0 (concat frags).
Proof.
  destruct (io_iterator_consumer.consume_spec crc32_extend) with
    (blen (concat frags)) 0 (io_iterator_consumer.make frags) as (c' & -> & _);
    [apply crc32_extend_nil|apply crc32_extend_app|apply blen_nonneg|].
  change (io_iterator_consumer.unread (io_iterator_consumer.make frags)) with (concat frags).
  rewrite Z.min_id. by rewrite btake_all.
Qed.

Lemma decode_legacy_view (p : parser) offset ts attrs k v rest n :
  legacy_ok offset ts attrs k v -> view p (encode_legacy crc32_extend offset ts attrs k v ++ rest) n ->
  exists p' n', decode_legacy_batch crc32_extend p = Ok (Some (legacy_of offset ts attrs k v), p') /\
    view p' rest n'.
Proof.
  intros [Ho Ht Ha Hk Hv Hl] Hp. unfold encode_legacy in Hp. rewrite <- !app_assoc in Hp.
  set (body := legacy_body ts attrs k v) in *. pose proof (crc32_range body) as Hc.
  pose proof (blen_nonneg body). unfold decode_legacy_batch.
  destruct (read_s_view p 8 _ _ _ 64 eq_refl ltac:(lia) Hp) as (p1 & -> & V1). cbn [mbind res_bind].
  destruct (read_s_view p1 4 _ _ _ 32 eq_refl ltac:(lia) V1) as (p2 & -> & V2). cbn [mbind res_bind].
  destruct (read_s_view p2 4 _ _ _ 32 eq_refl ltac:(lia) V2) as (p3 & -> & V3). cbn [mbind res_bind].
  rewrite (swrap_id 64), (swrap_id 32 (4 + blen body)) by ranges.
  replace (4 + blen body - 4) with (blen body) by lia. rewrite (uwrap_id 64) by ranges.
  pose proof (share_no_consume_view p3 _ _ (blen body) V3 ltac:(lia)) as Hcrc.
  rewrite btake_app in Hcrc. set (cb := share_no_consume _ _) in *.
  pose proof (legacy_crc cb) as Hcc.
  destruct (io_iterator_consumer.consume _ _ _ (io_iterator_consumer.make cb)) as [[? c] ?].
  rewrite Hcrc in Hcc. subst c. rewrite u32_s32, (uwrap_id 32 _ Hc), Z.eqb_refl.
  assert (Hb : exists p4 m4, (r ← consume_type 8 p3; Ok r) = Ok (match ts with None => 0 | Some _ => 1 end, p4)
    /\ view p4 (attrs :: match ts with None => [] | Some ts => be_bytes 8 ts end
         ++ legacy_bytes k ++ legacy_bytes v ++ rest) m4).
  { unfold body, legacy_body in V3. destruct ts; rewrite <- !app_assoc in V3; cbn [app] in V3;
      destruct (consume_byte_view _ _ _ _ V3) as (p4 & -> & V4); eexists p4, _; split; done. }
  destruct Hb as (p4 & m4 & E4 & V4).
  destruct (consume_type 8 p3) as [[mg ?]| |]; [|done..]. injection E4 as -> ->. cbn [mbind res_bind].
  destruct (consume_byte_view _ _ _ _ V4) as (p5 & E5 & V5).
  assert (Hmg : (negb (s8 (match ts with None => 0 | Some _ => 1 end) =? 0)
    && negb (s8 (match ts with None => 0 | Some _ => 1 end) =? 1)) = false) by (by destruct ts).
  rewrite Hmg, E5. cbn [mbind res_bind].
  assert (Hts : exists p6 m6, (if s8 (match ts with None => 0 | Some _ => 1 end) =? 1
    then '(ts, p) ← read_s 64 p5; Ok (Some ts, p) else Ok (None, p5)) = Ok (ts, p6)
    /\ view p6 (legacy_bytes k ++ legacy_bytes v ++ rest) m6).
  { destruct ts as [t|]; cbn [s8 Z.eqb] in *; [|by exists p5, (m4 + 1)].
    destruct (read_s_view p5 8 _ _ _ 64 eq_refl ltac:(lia) V5) as (p6 & E6 & V6).
    change (s8 1 =? 1) with true. cbv iota. rewrite E6, swrap_id by (lia || by apply Ht).
    eexists p6, _. split; [done|exact V6]. }
  destruct Hts as (p6 & m6 & -> & V6). cbn [mbind res_bind negb].
  destruct (read_legacy_bytes_view p6 k _ _ Hk V6) as (p7 & m7 & -> & V7). cbn [mbind res_bind].
  destruct (read_legacy_bytes_view p7 v _ _ Hv V7) as (p8 & m8 & -> & V8). cbn [mbind res_bind].
  exists p8, m8. split; [|done]. unfold legacy_of. fold body. rewrite (swrap_id 8 attrs) by ranges.
  by destruct ts.
Qed.

Lemma encode_legacy_length offset ts attrs k v :
  16 <= blen (encode_legacy crc32_extend offset ts attrs k v).
Proof.
  unfold encode_legacy. cbv zeta. rewrite !blen_app, !be_bytes_blen.
  pose proof (blen_nonneg (legacy_body ts attrs k v)). lia.
Qed.

(** *** Message sets: uncompressed messages, and messages that wrap a message set *)

Record plain := { pl_offset : Z; pl_ts : option Z; pl_key : option bytes; pl_value : option bytes }.

Inductive legacy_item :=
  | Plain (m : plain)
  | Wrapped (offset : Z) (ts : option Z) (c : compression) (data : bytes) (inner : list plain).

Definition encode_plain (m : plain) : bytes :=
  encode_legacy crc32_extend (pl_offset m) (pl_ts m) 0 (pl_key m) (pl_value m).
Definition encode_item (i : legacy_item) : bytes :=
  match i with
  | Plain m => encode_plain m
  | Wrapped offset ts c data _ =>
      encode_legacy crc32_extend offset ts (compression_code c) None (Some data)
  end.

Definition plain_ok (m : plain) : Prop := legacy_ok (pl_offset m) (pl_ts m) 0 (pl_key m) (pl_value m).

Variable uncompress : compression_type -> list bytes -> res (list bytes).

Definition item_ok (i : legacy_item) : Prop :=
  match i with
  | Plain m => plain_ok m
  | Wrapped offset ts c data inner =>
      legacy_ok offset ts (compression_code c) None (Some data) /\ Forall plain_ok inner /\
      (c = gzip \/ c = snappy \/ c = lz4 /\ ts <> None) /\
      exists t frags, to_compression_type c = Ok t /\ uncompress t [data] = Ok frags /\
        concat frags = concat (encode_plain <$> inner)
  end.

(** What a message contributes to the builder. *)
Definition apply_ts (b : record_batch_builder.builder) (ts : option Z) : record_batch_builder.builder :=
  match ts with Some ts => record_batch_builder.set_timestamp b ts | None => b end.
Definition apply_plain (b : record_batch_builder.builder) (m : plain) : record_batch_builder.builder :=
  record_batch_builder.add_raw_kv (apply_ts b (pl_ts m)) (pl_key m) (pl_value m).
Definition apply_item (b : record_batch_builder.builder) (i : legacy_item) : record_batch_builder.builder :=
  match i with
  | Plain m => apply_plain b m
  | Wrapped _ ts c _ inner =>
      foldl apply_plain (record_batch_builder.set_compression (apply_ts b ts) c) inner
  end.

(** One round of the loop on an uncompressed message. *)
Lemma convert_plain nested eu fuel err b p m rest n :
  plain_ok m -> view p (encode_plain m ++ rest) n ->
  exists p' n', convert_loop crc32_extend uncompress nested eu (S fuel) err b p
    = convert_loop crc32_extend uncompress nested eu fuel err (apply_plain b m) p' /\ view p' rest n'.
Proof.
  intros Hm Hp. destruct (decode_legacy_view _ _ _ _ _ _ _ _ Hm Hp) as (p' & n' & E & V).
  exists p', n'. split; [|done]. cbn [convert_loop]. rewrite (view_left _ _ _ Hp), blen_app.
  pose proof (encode_legacy_length (pl_offset m) (pl_ts m) 0 (pl_key m) (pl_value m)).
  pose proof (blen_nonneg rest). unfold encode_plain.
  destruct (Z.eqb_spec (blen (encode_legacy crc32_extend (pl_offset m) (pl_ts m) 0 (pl_key m)
    (pl_value m)) + blen rest) 0); [lia|].
  rewrite E. cbn [mbind res_bind legacy_compression lm_attributes legacy_of timestamp].
  change (Z.land (u8 0) 7) with 0. cbv iota. cbn [mbind res_bind].
  done.
Qed.

Lemma convert_plains nested eu fuel err b p ms rest n :
  Forall plain_ok ms -> view p (concat (encode_plain <$> ms) ++ rest) n ->
  exists p' n', convert_loop crc32_extend uncompress nested eu (length ms + fuel) err b p
    = convert_loop crc32_extend uncompress nested eu fuel err (foldl apply_plain b ms) p' /\
    view p' rest n'.
Proof.
  intros Hms. revert b p n. induction Hms as [|m ms Hm _ IH]; intros b p n Hp; [by exists p, n|].
  rewrite fmap_cons in Hp. cbn [concat] in Hp. rewrite <- app_assoc in Hp. cbn [length plus foldl].
  destruct (convert_plain nested eu (length ms + fuel) err b p m _ n Hm Hp) as (p1 & n1 & -> & V1).
  apply (IH _ _ _ V1).
Qed.

Lemma encoded_length ms : (length ms <= length (concat (encode_plain <$> ms)))%nat.
Proof.
  induction ms as [|m ms IH]; [done|]. rewrite fmap_cons. cbn [concat length]. rewrite length_app.
  pose proof (encode_legacy_length (pl_offset m) (pl_ts m) 0 (pl_key m) (pl_value m)) as H.
  change (16 <= blen (encode_plain m)) in H. unfold blen in H. lia.
Qed.

Lemma convert_loop_end nested eu fuel err b p n :
  view p [] n -> convert_loop crc32_extend uncompress nested eu fuel err b p = Ok (err, b).
Proof.
  intros V. destruct fuel; cbn [convert_loop]; by rewrite (view_left _ _ _ V).
Qed.

Lemma convert_nested_plains b frags ms :
  Forall plain_ok ms -> concat frags = concat (encode_plain <$> ms) ->
  convert_nested crc32_extend uncompress b frags = Ok (false, foldl apply_plain b ms).
Proof.
  intros Hms E. unfold convert_nested. pose proof (encoded_length ms) as Hl.
  pose proof (iobuf_parser.owned_make_view frags) as Hv. rewrite E in Hv |- *.
  rewrite <- (app_nil_r (concat _)) in Hv.
  replace (length (concat (encode_plain <$> ms)))
    with (length ms + (length (concat (encode_plain <$> ms)) - length ms))%nat by lia.
  edestruct convert_plains as (p' & n' & -> & V); [exact Hms|exact Hv|].
  by eapply convert_loop_end.
Qed.

Lemma convert_item fuel err b p i rest n :
  item_ok i -> view p (encode_item i ++ rest) n ->
  exists p' n', convert_loop crc32_extend uncompress (convert_nested crc32_extend uncompress)
      false (S fuel) err b p
    = convert_loop crc32_extend uncompress (convert_nested crc32_extend uncompress)
      false fuel err (apply_item b i) p' /\ view p' rest n'.
Proof.
  destruct i as [m|offset ts c data inner]; intros Hi Hp; [by eapply convert_plain|].
  destruct Hi as (Hok & Hin & Hc & t & frags & Ht & Eu & Ef). cbn [encode_item] in Hp.
  destruct (decode_legacy_view _ _ _ _ _ _ _ _ Hok Hp) as (p' & n' & E & V).
  exists p', n'. split; [|done]. cbn [convert_loop]. rewrite (view_left _ _ _ Hp), blen_app.
  pose proof (encode_legacy_length offset ts (compression_code c) None (Some data)).
  pose proof (blen_nonneg rest).
  destruct (Z.eqb_spec (blen (encode_legacy crc32_extend offset ts (compression_code c) None
    (Some data)) + blen rest) 0); [lia|].
  rewrite E. cbn [mbind res_bind]. unfold legacy_compression.
  cbn [lm_attributes legacy_of timestamp magic lm_value].
  assert (Hcc : Z.land (u8 (compression_code c)) 7 = compression_code c
    /\ (compression_code c = 1 /\ c = gzip \/ compression_code c = 2 /\ c = snappy
        \/ compression_code c = 3 /\ c = lz4))
    by (destruct Hc as [->|[->|[-> _]]]; by auto).
  destruct Hcc as [-> Hcc].
  destruct Hcc as [[-> ->]|[[-> ->]|[-> ->]]]; cbn [mbind res_bind];
    rewrite bool_decide_eq_false_2 by done; rewrite Ht; cbn [mbind res_bind]; rewrite Eu;
    cbn [mbind res_bind]; rewrite (convert_nested_plains _ _ _ Hin Ef); cbn [mbind res_bind];
    rewrite orb_false_r.
  - by rewrite andb_false_r.
  - by rewrite andb_false_r.
  - destruct Hc as [|[|[_ Hts]]]; [done|done|]. by destruct ts.
Qed.

Lemma convert_items err b p items n :
  Forall item_ok items -> view p (concat (encode_item <$> items)) n -> forall fuel,
  (length items <= fuel)%nat ->
  convert_loop crc32_extend uncompress (convert_nested crc32_extend uncompress) false fuel err b p
  = Ok (err, foldl apply_item b items).
Proof.
  intros His. revert b p n. induction His as [|i items Hi _ IH]; intros b p n Hp fuel Hf.
  - by eapply convert_loop_end.
  - destruct fuel as [|fuel]; [cbn in Hf; lia|]. rewrite fmap_cons in Hp. cbn [concat] in Hp.
    destruct (convert_item fuel err b p i _ n Hi Hp) as (p1 & n1 & -> & V1).
    eapply (IH _ _ _ V1). cbn in Hf. lia.
Qed.

Lemma encoded_items_length items : (length items <= length (concat (encode_item <$> items)))%nat.
Proof.
  induction items as [|i items IH]; [done|]. rewrite fmap_cons. cbn [concat length]. rewrite length_app.
  assert (16 <= blen (encode_item i)) by (destruct i; unfold encode_item, encode_plain; apply encode_legacy_length).
  unfold blen in *. lia.
Qed.
End legacy_facts.

(** ** Properties *)

(** A batch built from key/value pairs holds them in order: iterating over it gives
    one record per pair, numbered from offset delta 0, and the batch carries the
    count, the last offset delta, the timestamp and valid checksums. *)
Theorem builder_batch_holds_pairs crc_extend compress this_shard now uninit bt base ts kvs :
  builder_facts.pairs_ok 0 kvs -> blen kvs <= int32_max ->
  let b := record_batch_builder.set_timestamp
    (builder_facts.add_all (record_batch_builder.make bt base) kvs) ts in
  exists batch, record_batch_builder.build crc_extend compress this_shard now b = Ok batch /\
    copy_records uninit batch = Ok (builder_facts.numbered 0 kvs) /\
    crc_checker crc_extend true batch = true /\
    record_count (header batch) = blen kvs /\
    last_offset_delta (header batch) = blen kvs - 1 /\
    first_timestamp (header batch) = ts /\ max_timestamp (header batch) = ts.
Proof.
  intros Hok Hn b. pose proof (blen_nonneg kvs). unfold b.
  rewrite builder_facts.add_all_eq by done.
  eexists. split; [by apply builder_facts.build_plain|].
  cbn [record_batch_builder.set_payload record_batch_builder.set_timestamp
    record_batch_builder.set_encoding record_batch_builder.make record_batch_builder.bb_records
    record_batch_builder.bb_offset_delta record_batch_builder.bb_timestamp default].
  split; [|split; [apply reset_checksums_valid|]].
  - apply copy_records_encoded; [by apply builder_facts.numbered_wf|done|..].
    + cbn. by rewrite app_nil_r.
    + cbn. unfold blen. by rewrite builder_facts.numbered_length.
  - cbn -[blen Z.add Z.sub]. rewrite swrap_id by ranges. split_and!; [lia|lia|done|done].
Qed.

(** The pairs of the example: a key with a value, and a tombstone. *)
Definition example_pairs : list (option bytes * option bytes) :=
  [(Some [107], Some [1; 2]); (Some [108], None)].

Lemma example_pairs_ok : builder_facts.pairs_ok 0 example_pairs.
Proof.
  split; [|split; [|exact I]]; (split; [concrete..|constructor|concrete|concrete|concrete]).
Qed.

Lemma builder_batch_holds_pairs_witness :
  exists batch, record_batch_builder.build sum_extend mark_compress 0 5
      (record_batch_builder.set_timestamp
        (builder_facts.add_all (record_batch_builder.make raft_data 0) example_pairs) 99) = Ok batch /\
    copy_records (fun _ => 0) batch = Ok (builder_facts.numbered 0 example_pairs).
Proof.
  destruct (builder_batch_holds_pairs sum_extend mark_compress 0 5 (fun _ => 0) raft_data 0 99
    example_pairs) as (batch & E & Hc & _);
    [exact example_pairs_ok|concrete|].
  exists batch. split; [exact E|exact Hc].
Defined.

(** A legacy message set is converted message by message: each uncompressed message
    is added with its key and value, a compressed one contributes the messages it
    wraps, the last timestamp and the last codec win, and no error is raised. *)
Theorem legacy_message_set_converted crc32_extend uncompress b items frags (HZ : Crc32Laws crc32_extend) :
  Forall (item_ok crc32_extend uncompress) items ->
  concat frags = concat (encode_item crc32_extend <$> items) ->
  convert_message_set crc32_extend uncompress b frags = Ok (false, foldl apply_item b items).
Proof.
  intros His E. unfold convert_message_set. pose proof (iobuf_parser.owned_make_view frags) as Hv.
  rewrite E in Hv. eapply convert_items; [exact HZ|exact His|exact Hv|].
  rewrite E. apply encoded_items_length.
Qed.

(** The sum of the bytes, kept to 32 bits, in place of crc32 for the example. *)
Definition sum32_extend (c : Z) (b : bytes) : Z := if decide (b = []) then c else u32 (foldl Z.add c b).

#[export] Instance sum32_laws : Crc32Laws sum32_extend.
Proof.
  split; unfold sum32_extend.
  - done.
  - intros c a b. destruct (decide (a = [])) as [->|Ha]; [done|].
    destruct (decide (b = [])) as [->|Hb]; [by rewrite app_nil_r, decide_False|].
    rewrite decide_False by (by destruct a). rewrite foldl_app.
    assert (Hf : forall l x, foldl Z.add x l = x + foldl Z.add 0 l).
    { induction l as [|y l IH]; intros x; cbn [foldl]; [lia|]. rewrite (IH (x + y)), (IH (0 + y)). lia. }
    rewrite (Hf b (u32 _)), (Hf b (foldl Z.add c a)). unfold uwrap. apply Zplus_mod_idemp_l.
  - intros a. case_decide; [concrete|]. apply uwrap_range. lia.
Qed.

(** Two messages of magic 0 and 1, and one that wraps a message. *)
Definition example_items : list legacy_item :=
  let inner := {| pl_offset := 2; pl_ts := Some 30; pl_key := Some [3]; pl_value := Some [4] |} in
  [Plain {| pl_offset := 0; pl_ts := None; pl_key := Some [1]; pl_value := Some [2; 2] |};
   Plain {| pl_offset := 1; pl_ts := Some 20; pl_key := None; pl_value := None |};
   Wrapped 2 (Some 30) gzip (1 :: encode_plain sum32_extend inner) [inner]].

(** A codec for the example: decompression drops one byte. *)
Definition drop1 (t : compression_type) (p : list bytes) : res (list bytes) := Ok [bdrop 1 (concat p)].

Lemma example_items_ok : Forall (item_ok sum32_extend drop1) example_items.
Proof.
  assert (Hlk : forall o ts a k v, is_s 64 o -> from_option (is_s 64) True ts -> 0 <= a < 8 ->
    legacy_sized k -> legacy_sized v -> 4 + blen (legacy_body ts a k v) <= int32_max ->
    legacy_ok o ts a k v).
  { intros o ts a k v. split; try done. intros t ->. done. }
  repeat apply Forall_cons_2; [..|constructor].
  - apply Hlk; concrete.
  - apply Hlk; concrete.
  - split_and!; [apply Hlk; concrete| |by left|].
    + apply Forall_cons_2; [apply Hlk; concrete|constructor].
    + eexists _, _. split; [reflexivity|]. split; reflexivity.
Qed.

Lemma legacy_message_set_converted_witness :
  convert_message_set sum32_extend drop1 (record_batch_builder.make raft_data 0)
    [concat (encode_item sum32_extend <$> example_items)]
  = Ok (false, foldl apply_item (record_batch_builder.make raft_data 0) example_items).
Proof.
  apply (legacy_message_set_converted sum32_extend drop1 _ _ _ sum32_laws example_items_ok).
  cbn [concat]. apply app_nil_r.
Defined.
