(* ===== verification/Errors.v ===== *)
(** * Error codes

    The Kafka error codes (kafka/protocol/errors.h) with the value each has on the
    wire, and the codes raft, the cluster layer and transactions report
    (raft/errc.h, cluster/errc.h, cluster/tx_errc.h).  A [std::error_code] is a code with its category. *)

From S2P Require Import Prelude.

Module error_code.

Inductive t :=
  | unknown_server_error
  | none
  | offset_out_of_range
  | corrupt_message
  | unknown_topic_or_partition
  | invalid_fetch_size
  | leader_not_available
  | not_leader_for_partition
  | request_timed_out
  | broker_not_available
  | replica_not_available
  | message_too_large
  | stale_controller_epoch
  | offset_metadata_too_large
  | network_exception
  | coordinator_load_in_progress
  | coordinator_not_available
  | not_coordinator
  | invalid_topic_exception
  | record_list_too_large
  | not_enough_replicas
  | not_enough_replicas_after_append
  | invalid_required_acks
  | illegal_generation
  | inconsistent_group_protocol
  | invalid_group_id
  | unknown_member_id
  | invalid_session_timeout
  | rebalance_in_progress
  | invalid_commit_offset_size
  | topic_authorization_failed
  | group_authorization_failed
  | cluster_authorization_failed
  | invalid_timestamp
  | unsupported_sasl_mechanism
  | illegal_sasl_state
  | unsupported_version
  | topic_already_exists
  | invalid_partitions
  | invalid_replication_factor
  | invalid_replica_assignment
  | invalid_config
  | not_controller
  | invalid_request
  | unsupported_for_message_format
  | policy_violation
  | out_of_order_sequence_number
  | duplicate_sequence_number
  | invalid_producer_epoch
  | invalid_txn_state
  | invalid_producer_id_mapping
  | invalid_transaction_timeout
  | concurrent_transactions
  | transaction_coordinator_fenced
  | transactional_id_authorization_failed
  | security_disabled
  | operation_not_attempted
  | kafka_storage_error
  | log_dir_not_found
  | sasl_authentication_failed
  | unknown_producer_id
  | reassignment_in_progress
  | delegation_token_auth_disabled
  | delegation_token_not_found
  | delegation_token_owner_mismatch
  | delegation_token_request_not_allowed
  | delegation_token_authorization_failed
  | delegation_token_expired
  | invalid_principal_type
  | non_empty_group
  | group_id_not_found
  | fetch_session_id_not_found
  | invalid_fetch_session_epoch
  | listener_not_found
  | topic_deletion_disabled
  | fenced_leader_epoch
  | unknown_leader_epoch
  | unsupported_compression_type
  | stale_broker_epoch
  | offset_not_available
  | member_id_required
  | preferred_leader_not_available
  | group_max_size_reached
  | no_reassignment_in_progress
  | fenced_instance_id
  | group_subscribed_to_topic
  | invalid_record
  | unstable_offset_commit
  | throttling_quota_exceeded
  | resource_not_found
  | duplicate_resource
  | unacceptable_credential
  | unknown_topic_id
  | transactional_id_not_found.

#[global] Instance eq_dec : EqDecision t.
Proof. solve_decision. Defined.

(** The underlying [int16_t]. *)
Definition to_int16 (e : t) : Z :=
  match e with
  | unknown_server_error => -1
  | none => 0
  | offset_out_of_range => 1
  | corrupt_message => 2
  | unknown_topic_or_partition => 3
  | invalid_fetch_size => 4
  | leader_not_available => 5
  | not_leader_for_partition => 6
  | request_timed_out => 7
  | broker_not_available => 8
  | replica_not_available => 9
  | message_too_large => 10
  | stale_controller_epoch => 11
  | offset_metadata_too_large => 12
  | network_exception => 13
  | coordinator_load_in_progress => 14
  | coordinator_not_available => 15
  | not_coordinator => 16
  | invalid_topic_exception => 17
  | record_list_too_large => 18
  | not_enough_replicas => 19
  | not_enough_replicas_after_append => 20
  | invalid_required_acks => 21
  | illegal_generation => 22
  | inconsistent_group_protocol => 23
  | invalid_group_id => 24
  | unknown_member_id => 25
  | invalid_session_timeout => 26
  | rebalance_in_progress => 27
  | invalid_commit_offset_size => 28
  | topic_authorization_failed => 29
  | group_authorization_failed => 30
  | cluster_authorization_failed => 31
  | invalid_timestamp => 32
  | unsupported_sasl_mechanism => 33
  | illegal_sasl_state => 34
  | unsupported_version => 35
  | topic_already_exists => 36
  | invalid_partitions => 37
  | invalid_replication_factor => 38
  | invalid_replica_assignment => 39
  | invalid_config => 40
  | not_controller => 41
  | invalid_request => 42
  | unsupported_for_message_format => 43
  | policy_violation => 44
  | out_of_order_sequence_number => 45
  | duplicate_sequence_number => 46
  | invalid_producer_epoch => 47
  | invalid_txn_state => 48
  | invalid_producer_id_mapping => 49
  | invalid_transaction_timeout => 50
  | concurrent_transactions => 51
  | transaction_coordinator_fenced => 52
  | transactional_id_authorization_failed => 53
  | security_disabled => 54
  | operation_not_attempted => 55
  | kafka_storage_error => 56
  | log_dir_not_found => 57
  | sasl_authentication_failed => 58
  | unknown_producer_id => 59
  | reassignment_in_progress => 60
  | delegation_token_auth_disabled => 61
  | delegation_token_not_found => 62
  | delegation_token_owner_mismatch => 63
  | delegation_token_request_not_allowed => 64
  | delegation_token_authorization_failed => 65
  | delegation_token_expired => 66
  | invalid_principal_type => 67
  | non_empty_group => 68
  | group_id_not_found => 69
  | fetch_session_id_not_found => 70
  | invalid_fetch_session_epoch => 71
  | listener_not_found => 72
  | topic_deletion_disabled => 73
  | fenced_leader_epoch => 74
  | unknown_leader_epoch => 75
  | unsupported_compression_type => 76
  | stale_broker_epoch => 77
  | offset_not_available => 78
  | member_id_required => 79
  | preferred_leader_not_available => 80
  | group_max_size_reached => 81
  | no_reassignment_in_progress => 85
  | fenced_instance_id => 82
  | group_subscribed_to_topic => 86
  | invalid_record => 87
  | unstable_offset_commit => 88
  | throttling_quota_exceeded => 89
  | resource_not_found => 91
  | duplicate_resource => 92
  | unacceptable_credential => 93
  | unknown_topic_id => 100
  | transactional_id_not_found => 105
  end.

End error_code.

Module raft_errc.

Inductive t :=
  | success | disconnected_endpoint | exponential_backoff | non_majority_replication
  | not_leader | vote_dispatch_error | append_entries_dispatch_error
  | replicated_entry_truncated | leader_flush_failed | leader_append_failed | timeout
  | configuration_change_in_progress | node_does_not_exists | leadership_transfer_in_progress
  | transfer_to_current_leader | node_already_exists | invalid_configuration_update
  | not_voter | invalid_target_node | shutting_down | replicate_batcher_cache_error
  | group_not_exists | replicate_first_stage_exception | invalid_input_records.

#[global] Instance t_eq_dec : EqDecision t.
Proof. solve_decision. Defined.

End raft_errc.

Module cluster_errc.

Inductive t :=
  | success | notification_wait_timeout | topic_invalid_partitions
  | topic_invalid_replication_factor | topic_invalid_config | not_leader_controller
  | topic_already_exists | replication_error | shutting_down | no_leader_controller
  | join_request_dispatch_error | seed_servers_exhausted | auto_create_topics_exception
  | timeout | topic_not_exists | invalid_topic_name | partition_not_exists | not_leader
  | partition_already_exists | waiting_for_recovery | waiting_for_reconfiguration_finish
  | update_in_progress | user_exists | user_does_not_exist | invalid_producer_epoch
  | sequence_out_of_order | generic_tx_error | node_does_not_exists | invalid_node_operation
  | invalid_configuration_update | topic_operation_error | no_eligible_allocation_nodes
  | allocation_error | partition_configuration_revision_not_updated
  | partition_configuration_in_joint_mode
  | partition_configuration_leader_config_not_committed | partition_configuration_differs
  | data_policy_already_exists | data_policy_not_exists | source_topic_not_exists
  | source_topic_still_in_use | waiting_for_partition_shutdown
  | error_collecting_health_report | leadership_changed | feature_disabled | invalid_request
  | no_update_in_progress | unknown_update_interruption_error | throttling_quota_exceeded
  | cluster_already_exists | no_partition_assignments | failed_to_create_partition
  | partition_operation_failed | transform_does_not_exist | transform_invalid_update
  | transform_invalid_create | transform_invalid_source | transform_invalid_environment
  | trackable_keys_limit_exceeded | topic_disabled | partition_disabled
  | invalid_partition_operation | concurrent_modification_error
  | transform_count_limit_exceeded | role_exists | role_does_not_exist
  | inconsistent_stm_update | waiting_for_shard_placement_update
  | topic_invalid_partitions_core_limit | topic_invalid_partitions_memory_limit
  | topic_invalid_partitions_fd_limit | topic_invalid_partitions_decreased
  | producer_ids_vcluster_limit_exceeded | validation_of_recovery_topic_failed
  | replica_does_not_exist | invalid_data_migration_state | data_migration_not_exists
  | data_migration_already_exists | data_migration_invalid_resources
  | data_migration_invalid_definition | data_migrations_disabled | resource_is_being_migrated
  | invalid_target_node_id | topic_id_already_exists | feature_sanctioned.

#[global] Instance t_eq_dec : EqDecision t.
Proof. solve_decision. Defined.

End cluster_errc.

Module tx_errc.

Inductive t :=
  | none | leader_not_found | shard_not_found | partition_not_found | stm_not_found
  | partition_not_exists | pid_not_found | timeout | conflict | fenced | stale | not_coordinator
  | coordinator_not_available | preparing_rebalance | rebalance_in_progress
  | coordinator_load_in_progress | unknown_server_error | request_rejected
  | invalid_producer_id_mapping | invalid_txn_state | invalid_producer_epoch | tx_not_found
  | tx_id_not_found | partition_disabled | concurrent_transactions | invalid_timeout
  | producer_creation_error | partition_writes_locked.

#[global] Instance t_eq_dec : EqDecision t.
Proof. solve_decision. Defined.

End tx_errc.

Inductive std_error_code :=
  | raft_error (e : raft_errc.t)
  | cluster_error (e : cluster_errc.t)
  | tx_error (e : tx_errc.t)
  | kafka_error (e : error_code.t)
  | other_category (code : Z).
