(* ===== verification/ProduceValidation.v ===== *)
(** * Validation of produced batches (kafka/server/handlers/produce_validation.cc)

    Timestamps of a batch or of its records are checked against the broker time,
    and the maximum timestamp of the batch is recomputed.  What is done depends on
    the mode [kafka_produce_batch_validation] and on whether the records can be
    read: an uncompressed batch is read in place, a compressed one is decompressed
    first when the mode asks for it.

    Error messages, logging and the [kafka_probe] counters are left out.
    [broker_time] is the clock read.  The [dassert]s are debug checks and have no
    counterpart. *)

From S2P Require Import Prelude Vint IobufParser Record RecordBatch BatchAdapter Errors.

Inductive kafka_batch_validation_mode := legacy | relaxed | strict.

#[global] Instance validation_mode_eq_dec : EqDecision kafka_batch_validation_mode.
Proof. solve_decision. Defined.

(** [validation_args], less the batch and what is only logged. *)
Record validation_args := {
  va_timestamp_type : timestamp_type;
  message_timestamp_before_max_ms : Z;
  message_timestamp_after_max_ms : Z;
}.

Section validation.
Variable args : validation_args.
Variable broker_time : Z.

(** [broker_time - timestamp] and its negation wrap at 64 bits. *)
Definition timestamp_out_of_range (timestamp : Z) : bool :=
  let delta := s64 (broker_time - timestamp) in
  (delta >? message_timestamp_before_max_ms args)
  || (s64 (-1 * delta) >? message_timestamp_after_max_ms args).

Definition validate_timestamp (timestamp : Z) : option error_code.t :=
  if bool_decide (va_timestamp_type args = append_time) then None
  else if timestamp_out_of_range timestamp then Some error_code.invalid_timestamp
  else None.

Definition validate_batch_timestamps (h : record_batch_header) : option error_code.t :=
  if bool_decide (va_timestamp_type args = append_time) then None
  else match validate_timestamp (first_timestamp h) with
       | Some e => Some e
       | None => validate_timestamp (max_timestamp h)
       end.

Variable crc_extend : Z -> bytes -> Z.

Definition maybe_set_max_timestamp (b : record_batch) (max_ts : option Z) : record_batch :=
  let t := va_timestamp_type args in
  let max_ts := if bool_decide (t = append_time) then Some broker_time else max_ts in
  match max_ts with
  | Some ts => set_max_timestamp crc_extend b t ts
  | None => b
  end.

Variable uninit : nat -> byte.

(** [iterate_over_records]: any exception the iteration raises becomes
    [invalid_record], and both callers then ignore what [f] had accumulated. *)
Definition iterate_over_records {A} (f : A -> record_metadata -> A * bool) (is_strict : bool)
    (b : record_batch) (acc : A) : res (A + error_code.t) :=
  match for_each_record_metadata uninit f is_strict b acc with
  | Ok acc => Ok (inl acc)
  | Throw _ => Ok (inr error_code.invalid_record)
  | Crash => Crash
  end.

Definition compute_max_timestamp (b : record_batch) : res (Z + error_code.t) :=
  r ← iterate_over_records (fun d r => (Z.max (m_timestamp_delta r) d, false)) false b 0;
  match r with
  | inl max_timestamp_delta => Ok (inl (s64 (first_timestamp (header b) + max_timestamp_delta)))
  | inr e => Ok (inr e)
  end.

(** The timestamp of a record of the batch. *)
Definition record_timestamp (h : record_batch_header) (r : record_metadata) : Z :=
  s64 (first_timestamp h + m_timestamp_delta r).

(** The closure of [validate_records_and_compute_max_timestamp]: it captures the
    last verdict and the maximum so far. *)
Definition validate_step (h : record_batch_header) (acc : option error_code.t * Z)
    (r : record_metadata) : (option error_code.t * Z) * bool :=
  let timestamp := record_timestamp h r in
  let res := validate_timestamp timestamp in
  ((res, Z.max timestamp acc.2), bool_decide (is_Some res)).

Definition validate_records_and_compute_max_timestamp (h : record_batch_header)
    (iterable : record_batch) (is_strict : bool) : res (Z + error_code.t) :=
  r ← iterate_over_records (validate_step h) is_strict iterable (None, -1);
  match r with
  | inr e => Ok (inr e)
  | inl (Some e, _) => Ok (inr e)
  | inl (None, max_timestamp) => Ok (inl max_timestamp)
  end.

(** [should_decompress]. *)
Definition should_decompress (b : record_batch) (m : kafka_batch_validation_mode) : bool :=
  if negb (compressed b) then false
  else match m with
       | legacy => false
       | relaxed => max_timestamp (header b) =? missing_timestamp
       | strict => true
       end.

(** The verdict on a batch, and the batch as it is left. *)
Definition validate_batch_mode (b : record_batch) (iterable : option record_batch)
    (mode : kafka_batch_validation_mode) : res (option error_code.t * record_batch) :=
  match mode with
  | legacy =>
      max_ts ← match iterable with
               | Some it => r ← compute_max_timestamp it;
                            match r with inl t => Ok (inl (Some t)) | inr e => Ok (inr e) end
               | None => Ok (inl None)
               end;
      match max_ts with
      | inr e => Ok (Some e, b)
      | inl max_ts =>
          let b := maybe_set_max_timestamp b max_ts in
          Ok (validate_batch_timestamps (header b), b)
      end
  | relaxed =>
      max_ts ← match iterable with
               | Some it => r ← validate_records_and_compute_max_timestamp (header b) it false;
                            match r with inl t => Ok (inl (Some t)) | inr e => Ok (inr e) end
               | None => Ok (inl None)
               end;
      match max_ts with
      | inr e => Ok (Some e, b)
      | inl max_ts =>
          let b := maybe_set_max_timestamp b max_ts in
          match iterable with
          | None => Ok (validate_batch_timestamps (header b), b)
          | Some _ => Ok (None, b)
          end
      end
  | strict =>
      match iterable with
      | None => Crash
      | Some it =>
          r ← validate_records_and_compute_max_timestamp (header b) it true;
          match r with
          | inr e => Ok (Some e, b)
          | inl max_ts => Ok (None, maybe_set_max_timestamp b (Some max_ts))
          end
      end
  end.

Variable uncompress : compression_type -> list bytes -> res (list bytes).

(** The entry point [validate_batch(const validation_args&)]. *)
Definition validate_batch (mode : kafka_batch_validation_mode) (b : record_batch)
    : res (option error_code.t * record_batch) :=
  if compressed b then
    if should_decompress b mode then
      match decompress_batch crc_extend uncompress b with
      | Ok d => validate_batch_mode b (Some d) mode
      | Throw _ => Ok (Some error_code.corrupt_message, b)
      | Crash => Crash
      end
    else validate_batch_mode b None mode
  else validate_batch_mode b (Some b) mode.
End validation.

(** ** Facts *)

(** A batch that holds these records, in readable form. *)
Record holds (b : record_batch) (recs : list record) : Prop := {
  holds_wf : Forall record_wf recs;
  holds_plain : compressed b = false;
  holds_payload : concat (records b) = encode_records recs;
  holds_count : batch_record_count b = blen recs;
  holds_size : blen (encode_records recs) < 2 ^ 62;
}.

Lemma existsb_fmap {A B} (g : A -> B) (f : B -> bool) (l : list A) :
  existsb f (g <$> l) = existsb (fun x => f (g x)) l.
Proof. induction l as [|x l IH]; [done|]. rewrite fmap_cons. cbn [existsb]. by rewrite IH. Qed.

Section facts.
Context (args : validation_args) (broker_time : Z) (crc_extend : Z -> bytes -> Z).
Context (uninit : nat -> byte) (uncompress : compression_type -> list bytes -> res (list bytes)).

Abbreviation validate := (validate_batch args broker_time crc_extend uninit uncompress).
Abbreviation out_of_range := (timestamp_out_of_range args broker_time).

(** The timestamps of the records, and the maximum the code computes from them. *)
Definition timestamps (h : record_batch_header) (recs : list record) : list Z :=
  record_timestamp h <$> (metadata_of <$> recs).
Definition max_of (ts : list Z) : Z := foldl (fun m t => Z.max t m) missing_timestamp ts.

Lemma validate_step_create h acc r :
  va_timestamp_type args = create_time ->
  validate_step args broker_time h acc r
  = ((if out_of_range (record_timestamp h r) then Some error_code.invalid_timestamp else None,
      Z.max (record_timestamp h r) acc.2), out_of_range (record_timestamp h r)).
Proof. intros Hc. unfold validate_step, validate_timestamp. rewrite Hc. by destruct (out_of_range _). Qed.

Lemma validate_step_append h acc r :
  va_timestamp_type args = append_time ->
  validate_step args broker_time h acc r = ((None, Z.max (record_timestamp h r) acc.2), false).
Proof. intros Hc. unfold validate_step, validate_timestamp. by rewrite Hc. Qed.

Lemma validate_fold h ms m :
  va_timestamp_type args = create_time ->
  let r := (fold_stop (validate_step args broker_time h) (None, m) ms).1 in
  if existsb (fun r => out_of_range (record_timestamp h r)) ms
  then r.1 = Some error_code.invalid_timestamp
  else r = (None, foldl (fun m t => Z.max t m) m (record_timestamp h <$> ms)).
Proof.
  intros Hc. revert m. induction ms as [|r ms IH]; intros m; [done|].
  cbn [fold_stop existsb]. rewrite validate_step_create by done. cbn [snd].
  destruct (out_of_range (record_timestamp h r)); cbn [orb]; [done|]. apply IH.
Qed.

(** With [append_time] no timestamp is rejected. *)
Lemma validate_fold_append h ms acc :
  va_timestamp_type args = append_time -> acc.1 = None ->
  (fold_stop (validate_step args broker_time h) acc ms).1.1 = None.
Proof.
  intros Hc. revert acc. induction ms as [|r ms IH]; intros acc Ha; [done|].
  cbn [fold_stop]. rewrite validate_step_append by done. by apply IH.
Qed.

Lemma validate_records_spec h b recs full :
  va_timestamp_type args = create_time -> holds b recs ->
  validate_records_and_compute_max_timestamp args broker_time uninit h b full
  = Ok (if existsb out_of_range (timestamps h recs)
        then inr error_code.invalid_timestamp else inl (max_of (timestamps h recs))).
Proof.
  intros Hc []. unfold validate_records_and_compute_max_timestamp, iterate_over_records.
  rewrite for_each_metadata_stop with (recs := recs) by done. cbn [mbind res_bind].
  pose proof (validate_fold h (metadata_of <$> recs) (-1) Hc) as H. cbv zeta in H.
  unfold timestamps, max_of. destruct (fold_stop _ _ _) as [[e m] st]. cbn [fst] in *.
  rewrite existsb_fmap. destruct (existsb _ _).
  - by subst e.
  - by injection H as -> ->.
Qed.

(** [validate_batch] on a batch whose records can be read in place. *)
Lemma validate_plain mode b :
  compressed b = false -> validate mode b = validate_batch_mode args broker_time crc_extend uninit b (Some b) mode.
Proof. intros Hc. unfold validate_batch. by rewrite Hc. Qed.

Lemma validate_readable mode b recs :
  va_timestamp_type args = create_time -> holds b recs -> mode <> legacy ->
  validate mode b = Ok (if existsb out_of_range (timestamps (header b) recs)
    then (Some error_code.invalid_timestamp, b)
    else (None, set_max_timestamp crc_extend b create_time (max_of (timestamps (header b) recs)))).
Proof.
  intros Hc Hh Hm. rewrite validate_plain by apply Hh. unfold validate_batch_mode.
  destruct mode; [done|..]; rewrite (validate_records_spec _ _ recs) by done; cbn [mbind res_bind];
    destruct (existsb _ _); cbn [mbind res_bind]; try done;
    unfold maybe_set_max_timestamp; by rewrite Hc.
Qed.

Lemma out_of_range_window ts :
  - 2 ^ 63 < broker_time - ts < 2 ^ 63 ->
  out_of_range ts = false <->
  broker_time - message_timestamp_before_max_ms args <= ts
    <= broker_time + message_timestamp_after_max_ms args.
Proof.
  intros Hr. unfold timestamp_out_of_range.
  rewrite (swrap_id 64 (broker_time - ts)), swrap_id by ranges.
  rewrite orb_false_iff, !Z.gtb_ltb, !Z.ltb_ge. lia.
Qed.

Lemma existsb_window ts :
  Forall (fun t => - 2 ^ 63 < broker_time - t < 2 ^ 63) ts ->
  existsb out_of_range ts = false <->
  Forall (fun t => broker_time - message_timestamp_before_max_ms args <= t
                   <= broker_time + message_timestamp_after_max_ms args) ts.
Proof.
  induction 1 as [|t ts Ht Hts IH]; cbn [existsb]; [by split|].
  rewrite orb_false_iff, out_of_range_window, IH by done. by rewrite Forall_cons.
Qed.

(** Every write to the batch goes through [set_max_timestamp]. *)
Lemma maybe_set_cases b m :
  maybe_set_max_timestamp args broker_time crc_extend b m = b \/
  exists t ts, maybe_set_max_timestamp args broker_time crc_extend b m = set_max_timestamp crc_extend b t ts.
Proof.
  unfold maybe_set_max_timestamp. destruct (bool_decide _); [eauto|]. destruct m; eauto.
Qed.

Lemma validate_mode_cases mode b it e b' :
  validate_batch_mode args broker_time crc_extend uninit b it mode = Ok (e, b') ->
  b' = b \/ exists m, b' = maybe_set_max_timestamp args broker_time crc_extend b m.
Proof.
  unfold validate_batch_mode. destruct mode.
  - intros (x & _ & E)%res_bind_Ok. destruct x; injection E as <- <-; eauto.
  - intros (x & _ & E)%res_bind_Ok. destruct x; [destruct it|]; injection E as <- <-; eauto.
  - destruct it; [|done]. intros (x & _ & E)%res_bind_Ok. destruct x; injection E as <- <-; eauto.
Qed.

Lemma validate_cases mode b e b' :
  validate mode b = Ok (e, b') ->
  b' = b \/ exists t ts, b' = set_max_timestamp crc_extend b t ts.
Proof.
  intros E. assert (H : b' = b \/ exists m, b' = maybe_set_max_timestamp args broker_time crc_extend b m).
  { unfold validate_batch in E. destruct (compressed b); [destruct (should_decompress _ _);
      [destruct (decompress_batch _ _ _)|]|]; try exact (validate_mode_cases _ _ _ _ _ E); [|done].
    injection E as <- <-. by left. }
  destruct H as [->|[m ->]]; [by left|]. destruct (maybe_set_cases b m) as [->|H]; eauto.
Qed.

(** *** Arbitrary payloads *)

(** A completed iteration visits the list that collecting the metadata gives. *)
Lemma metadata_loop_collect {A} (f : A -> record_metadata -> A * bool) full n acc p acc' all p' :
  for_each_metadata_loop uninit f full n acc p = Ok (acc', all, p') ->
  if all then exists ms, (forall pre, for_each_metadata_loop uninit (fun l m => (l ++ [m], false))
                full n pre p = Ok (pre ++ ms, true, p')) /\ fold_stop f acc ms = (acc', true)
  else exists a m, f a m = (acc', true).
Proof.
  revert acc p. induction n as [|n IH]; intros acc p E; cbn [for_each_metadata_loop] in *.
  - injection E as <- <- <-. exists []. split; [|done]. intros pre. by rewrite app_nil_r.
  - apply res_bind_Ok in E as ([m p1] & E1 & E). destruct (f acc m) as [a [|]] eqn:Ef.
    + injection E as <- <- <-. eauto.
    + specialize (IH a p1 E). destruct all; [|done]. destruct IH as (ms & Hc & Hf).
      exists (m :: ms). cbn [fold_stop]. rewrite Ef. split; [|done]. intros pre.
      rewrite E1. cbn [mbind res_bind]. rewrite Hc, <- app_assoc. done.
Qed.

Lemma for_each_collect {A} (f : A -> record_metadata -> A * bool) full b acc acc' :
  for_each_record_metadata uninit f full b acc = Ok acc' ->
  (exists ms, for_each_record_metadata uninit (fun l m => (l ++ [m], false)) full b [] = Ok ms /\
    fold_stop f acc ms = (acc', true)) \/ exists a m, f a m = (acc', true).
Proof.
  unfold for_each_record_metadata. intros ([[x all] p] & E & (u & Ht & [= <-])%res_bind_Ok)%res_bind_Ok.
  apply metadata_loop_collect in E. destruct all; [|by right].
  destruct E as (ms & Hc & Hf). left. exists ms. rewrite Hc. cbn [mbind res_bind app].
  rewrite Ht. by destruct u.
Qed.

Lemma validate_records_accepts h b full mx :
  va_timestamp_type args = create_time ->
  validate_records_and_compute_max_timestamp args broker_time uninit h b full = Ok (inl mx) ->
  exists ms, for_each_record_metadata uninit (fun l m => (l ++ [m], false)) full b [] = Ok ms /\
    existsb out_of_range (record_timestamp h <$> ms) = false /\ mx = max_of (record_timestamp h <$> ms).
Proof.
  intros Hc. unfold validate_records_and_compute_max_timestamp, iterate_over_records.
  destruct (for_each_record_metadata _ _ _ _ _) as [[r m]| |] eqn:E; [|done..]. cbn [mbind res_bind].
  destruct r as [e|]; [done|]. intros [= <-].
  apply for_each_collect in E as [(ms & Hms & Hf)|(a & r & Hf)].
  - exists ms. split; [done|]. pose proof (validate_fold h ms (-1) Hc) as H. rewrite Hf in H.
    cbn [fst] in H. rewrite existsb_fmap. destruct (existsb _ ms); [done|]. by injection H as ->.
  - rewrite validate_step_create in Hf by done. by destruct (out_of_range _).
Qed.
End facts.

(** The allowed window around the broker time. *)
Definition in_window (args : validation_args) (broker_time t : Z) : Prop :=
  broker_time - message_timestamp_before_max_ms args <= t
  <= broker_time + message_timestamp_after_max_ms args.

(** ** Properties *)

(** C30: outside [legacy] mode, an uncompressed batch with client timestamps is accepted
    exactly when every record's timestamp lies in the window around the broker
    time; the accepted batch carries the largest record timestamp, and a rejected
    batch is left as it was, with [invalid_timestamp]. *)
Theorem validate_accepts_iff_in_window args broker_time crc_extend uninit uncompress mode b recs :
  va_timestamp_type args = create_time -> mode <> legacy -> holds b recs ->
  Forall (fun t => - 2 ^ 63 < broker_time - t < 2 ^ 63) (timestamps (header b) recs) ->
  exists e b', validate_batch args broker_time crc_extend uninit uncompress mode b = Ok (e, b') /\
    (e = None <-> Forall (in_window args broker_time) (timestamps (header b) recs)) /\
    (e = None -> b' = set_max_timestamp crc_extend b create_time (max_of (timestamps (header b) recs))) /\
    (e <> None -> e = Some error_code.invalid_timestamp /\ b' = b).
Proof.
  intros Hc Hm Hh Hr. rewrite (validate_readable _ _ _ _ _ _ _ recs) by done.
  pose proof (existsb_window args broker_time _ Hr) as Hw. unfold in_window.
  destruct (existsb _ _) eqn:Ee; eexists _, _; (split; [done|]); (split; [|by split]);
    rewrite <- Hw; naive_solver.
Qed.

Definition example_args : validation_args :=
  {| va_timestamp_type := create_time; message_timestamp_before_max_ms := 500;
     message_timestamp_after_max_ms := 100 |}.

Lemma example_holds : holds example_batch example_records.
Proof. split; [exact example_records_wf|reflexivity|reflexivity|reflexivity|concrete]. Qed.

Lemma validate_accepts_iff_in_window_witness :
  exists e b', validate_batch example_args 1100 sum_extend (fun _ => 0) mark_uncompress strict example_batch
    = Ok (e, b') /\ (e = None <-> Forall (in_window example_args 1100) (timestamps (header example_batch) example_records)).
Proof.
  destruct (validate_accepts_iff_in_window example_args 1100 sum_extend (fun _ => 0) mark_uncompress
    strict example_batch example_records) as (e & b' & E & H & _);
    [reflexivity|discriminate|exact example_holds|repeat constructor; concrete|].
  exists e, b'. split; [exact E|exact H].
Defined.

(** on an arbitrary payload, [strict] and [relaxed] accept an uncompressed batch
    only if all its records can be read to the end of the payload and no record's
    timestamp is out of range; the batch then carries the largest timestamp read. *)
Theorem validate_accepts_only_readable args broker_time crc_extend uninit uncompress mode b b' :
  va_timestamp_type args = create_time -> mode <> legacy -> compressed b = false ->
  validate_batch args broker_time crc_extend uninit uncompress mode b = Ok (None, b') ->
  exists ms, for_each_record_metadata uninit (fun l m => (l ++ [m], false))
      (bool_decide (mode = strict)) b [] = Ok ms /\
    Forall (fun m => timestamp_out_of_range args broker_time (record_timestamp (header b) m) = false) ms /\
    max_timestamp (header b') = max_of (record_timestamp (header b) <$> ms).
Proof.
  intros Hc Hm Hp E. rewrite validate_plain in E by done. unfold validate_batch_mode in E.
  assert (Hs : forall ms mx, existsb (timestamp_out_of_range args broker_time)
      (record_timestamp (header b) <$> ms) = false ->
    b' = maybe_set_max_timestamp args broker_time crc_extend b (Some mx) ->
    Forall (fun m => timestamp_out_of_range args broker_time (record_timestamp (header b) m) = false) ms /\
    max_timestamp (header b') = mx).
  { intros ms mx Hex ->. split.
    - clear -Hex. rewrite existsb_fmap in Hex. induction ms as [|m ms IH]; [done|].
      cbn [existsb] in Hex. apply orb_false_iff in Hex as [? ?]. constructor; [done|by apply IH].
    - unfold maybe_set_max_timestamp. rewrite Hc. rewrite bool_decide_eq_false_2 by done.
      apply (set_max_timestamp_fields crc_extend b create_time mx). }
  destruct mode; [done|..]; apply res_bind_Ok in E as (r & Er & E).
  - apply res_bind_Ok in Er as (r' & Er & Er'). destruct r'; injection Er' as <-; [|discriminate E].
    injection E as E. symmetry in E. apply validate_records_accepts in Er as (ms & ? & ? & ->); [|done]. exists ms. split; [done|].
    by eapply Hs.
  - destruct r; [|discriminate E]. injection E as E. symmetry in E.
    apply validate_records_accepts in Er as (ms & ? & ? & ->); [|done]. exists ms. split; [done|].
    by eapply Hs.
Qed.

Lemma validate_accepts_only_readable_witness :
  exists ms, for_each_record_metadata (fun _ => 0) (fun l m => (l ++ [m], false)) true example_batch []
    = Ok ms /\ Forall (fun m => timestamp_out_of_range example_args 1100
        (record_timestamp (header example_batch) m) = false) ms.
Proof.
  edestruct (validate_accepts_only_readable example_args 1100 sum_extend (fun _ => 0) mark_uncompress
    strict example_batch) as (ms & E & H & _); [reflexivity|discriminate|reflexivity|vm_compute; reflexivity|].
  exists ms. split; [exact E|exact H].
Defined.

(** Whatever the verdict, validation leaves the payload alone and keeps valid
    checksums valid. *)
Theorem validate_keeps_checksums args broker_time crc_extend uninit uncompress mode b e b' v :
  validate_batch args broker_time crc_extend uninit uncompress mode b = Ok (e, b') ->
  crc_checker crc_extend v b = true ->
  crc_checker crc_extend v b' = true /\ records b' = records b /\ compressed b' = compressed b.
Proof.
  intros E Hv. apply validate_cases in E as [->|(t & ts & ->)]; [done|].
  pose proof (set_max_timestamp_fields crc_extend b t ts) as (_ & _ & _ & ? & ?).
  split; [by apply set_max_timestamp_valid|done].
Qed.

Lemma validate_keeps_checksums_witness :
  crc_checker sum_extend true (set_max_timestamp sum_extend example_batch create_time 1003) = true.
Proof.
  refine (proj1 (validate_keeps_checksums example_args 1100 sum_extend (fun _ => 0) mark_uncompress
    strict example_batch None _ true _ _)); vm_compute; reflexivity.
Defined.

(** With [append_time], a readable batch is accepted in every mode and gets the
    broker time as its maximum timestamp. *)
Theorem validate_append_time args broker_time crc_extend uninit uncompress mode b recs :
  va_timestamp_type args = append_time -> holds b recs ->
  validate_batch args broker_time crc_extend uninit uncompress mode b
  = Ok (None, set_max_timestamp crc_extend b append_time broker_time).
Proof.
  intros Hc [Hw Hp Hpl Hn Hs]. rewrite validate_plain by done. unfold validate_batch_mode.
  assert (Hr : forall full, exists m, validate_records_and_compute_max_timestamp args broker_time uninit
    (header b) b full = Ok (inl m)).
  { intros full. unfold validate_records_and_compute_max_timestamp, iterate_over_records.
    rewrite for_each_metadata_stop with (recs := recs) by done. cbn [mbind res_bind].
    pose proof (validate_fold_append args broker_time (header b) (metadata_of <$> recs) (None, -1) Hc eq_refl).
    destruct (fold_stop _ _ _) as [[[e|] m] ?]; [done|eauto]. }
  assert (Hset : forall m, maybe_set_max_timestamp args broker_time crc_extend b m
    = set_max_timestamp crc_extend b append_time broker_time).
  { intros m. unfold maybe_set_max_timestamp. by rewrite Hc. }
  destruct mode.
  - unfold compute_max_timestamp, iterate_over_records.
    rewrite for_each_metadata_stop with (recs := recs) by done. cbn [mbind res_bind].
    rewrite Hset. unfold validate_batch_timestamps. by rewrite Hc.
  - destruct (Hr false) as (m & ->). cbn [mbind res_bind]. by rewrite Hset.
  - destruct (Hr true) as (m & ->). cbn [mbind res_bind]. by rewrite Hset.
Qed.

Lemma validate_append_time_witness :
  validate_batch {| va_timestamp_type := append_time; message_timestamp_before_max_ms := 0;
      message_timestamp_after_max_ms := 0 |} 5 sum_extend (fun _ => 0) mark_uncompress legacy example_batch
  = Ok (None, set_max_timestamp sum_extend example_batch append_time 5).
Proof. apply (validate_append_time _ _ _ _ _ legacy _ example_records); [reflexivity|exact example_holds]. Defined.

(** The maximum timestamp of an accepted batch may stay unset: a record that carries
    the timestamp -1 passes [relaxed] and [strict] validation when the window is wide
    enough, and the batch keeps the missing timestamp. *)
Theorem max_timestamp_may_stay_missing :
  let args := {| va_timestamp_type := create_time; message_timestamp_before_max_ms := int64_max;
                 message_timestamp_after_max_ms := 3600000 |} in
  let recs := [encode_records [make_record 0 0 0 None (Some [1]) []]] in
  let h := {| header_crc := 0; b_size_bytes := 0; base_offset := 0; type := raft_data; crc := 0;
    attrs := 0; last_offset_delta := 0; first_timestamp := -1; max_timestamp := -1;
    producer_id := -1; producer_epoch := -1; base_sequence := -1; record_count := 1;
    ctx_term := 0; ctx_owner_shard := None |} in
  let b := {| header := reset_size_checksum_metadata sum_extend h recs; records := recs;
              compressed := false |} in
  let run mode := validate_batch args 1700000000000 sum_extend (fun _ => 0) mark_uncompress mode b in
  run relaxed = Ok (None, b) /\ run strict = Ok (None, b) /\ max_timestamp (header b) = missing_timestamp.
Proof. split_and!; vm_compute; reflexivity. Qed.
