(* ===== verification/Produce.v ===== *)
(** * The produce handler (kafka/server/handlers/produce.{h,cc})

    A produce request names topics, each with partitions and at most one batch per
    partition.  The handler authorizes the topics, and for every partition a
    coroutine validates the batch, drops it when it repeats a key, checks its size,
    lets the schema validator look at it and hands it to the partition leader.

    The shard keeps state across requests ([thread_local] variables): the keys
    seen, the counter that routes messages to partitions, and the file of dropped
    events.  A partition's coroutine gives up the shard at its [co_await]s, so the
    coroutines of many requests interleave: [task] is the state of one coroutine
    between two of them, [task_step] runs it to the next, and [do_produce] is the
    run without interruption.

    The components the handler calls are the fields of [env]: authorization and
    auditing ([request_context]), the metadata cache, the shard table, the
    partition manager and replication.  [env] may be different at every step.
    Metrics, logging and error messages are left out. *)

From S2P Require Import Prelude Vint IobufParser Record RecordBatch BatchAdapter.
From S2P Require Import Errors ProduceValidation.

(** ** Requests and responses *)

Abbreviation topic_name := string (only parsing).

Record partition_produce_data := {
  partition_index : Z;
  part_records : option kafka_batch_adapter;
}.

Record topic_produce_data := {
  topic : topic_name;
  partitions : list partition_produce_data;
}.

Record produce_request := {
  transactional_id : option string;
  acks : Z;
  timeout_ms : Z;
  topics : list topic_produce_data;
}.

(** [None] in an optional field: the handler leaves it at the schema's default. *)
Record partition_response := {
  pr_index : Z;
  pr_error : error_code.t;
  pr_base_offset : option Z;
  pr_log_append_time_ms : option Z;
}.

Record topic_response := {
  tr_name : topic_name;
  tr_partitions : list partition_response;
}.

Record produce_response := {
  responses : list topic_response;
  internal_topic_bytes : Z;
}.

Definition error_partition (index : Z) (e : error_code.t) : partition_response :=
  {| pr_index := index; pr_error := e; pr_base_offset := None; pr_log_append_time_ms := None |}.

(** [fill_response_with_errors]. *)
Definition error_topic (e : error_code.t) (t : topic_produce_data) : topic_response :=
  {| tr_name := topic t;
     tr_partitions := (fun p => error_partition (partition_index p) e) <$> partitions t |}.
Definition fill_response_with_errors (ts : list topic_produce_data) (r : produce_response)
    (e : error_code.t) : produce_response :=
  {| responses := responses r ++ (error_topic e <$> ts);
     internal_topic_bytes := internal_topic_bytes r |}.

Definition empty_response : produce_response := {| responses := []; internal_topic_bytes := 0 |}.

(** [produce_request::make_error_response] and [make_full_disk_response]. *)
Definition make_error_response (req : produce_request) (e : error_code.t) : produce_response :=
  fill_response_with_errors (topics req) empty_response e.
Definition make_full_disk_response (req : produce_request) (version : Z) : produce_response :=
  make_error_response req
    (if version >=? 4 then error_code.kafka_storage_error else error_code.broker_not_available).

(** ** Replication *)

Inductive consistency_level := quorum_ack | leader_ack | no_ack.

Record replicate_options := { consistency : consistency_level; rep_timeout : Z }.

Definition acks_to_replicate_options (acks timeout : Z) : res replicate_options :=
  match acks with
  | -1 => Ok {| consistency := quorum_ack; rep_timeout := timeout |}
  | 0 => Ok {| consistency := no_ack; rep_timeout := timeout |}
  | 1 => Ok {| consistency := leader_ack; rep_timeout := timeout |}
  | _ => Throw invalid_argument
  end.

Definition map_produce_error_code (ec : std_error_code) : error_code.t :=
  match ec with
  | raft_error e =>
      match e with
      | raft_errc.not_leader | raft_errc.replicated_entry_truncated => error_code.not_leader_for_partition
      | raft_errc.shutting_down => error_code.request_timed_out
      | raft_errc.invalid_input_records => error_code.invalid_record
      | _ => error_code.request_timed_out
      end
  | cluster_error e =>
      match e with
      | cluster_errc.not_leader => error_code.not_leader_for_partition
      | cluster_errc.topic_not_exists | cluster_errc.partition_not_exists =>
          error_code.unknown_topic_or_partition
      | cluster_errc.invalid_producer_epoch => error_code.invalid_producer_epoch
      | cluster_errc.sequence_out_of_order => error_code.out_of_order_sequence_number
      | cluster_errc.invalid_request => error_code.invalid_request
      | cluster_errc.producer_ids_vcluster_limit_exceeded => error_code.policy_violation
      | cluster_errc.generic_tx_error => error_code.unknown_server_error
      | _ => error_code.request_timed_out
      end
  | kafka_error e => e
  | tx_error _ | other_category _ => error_code.request_timed_out
  end.

(** How [partition_proxy::replicate] ends: whether the request was enqueued, and the
    last offset, an error code, or an exception. *)
Inductive replicate_result := Replicated (last_offset : Z) | Refused (ec : std_error_code) | Broken.
Record replicate_stages := { request_enqueued : bool; replicate_finished : replicate_result }.

(** ** The environment *)

Record ntp := { ntp_topic : topic_name; ntp_partition : Z }.

#[global] Instance ntp_eq_dec : EqDecision ntp.
Proof. solve_decision. Defined.

Record topic_properties := {
  tp_batch_max_bytes : option Z;
  tp_timestamp_type : option timestamp_type;
  tp_before_max_ms : option Z;
  tp_after_max_ms : option Z;
}.

Record env := {
  (* request_context *)
  recovery_mode_enabled : bool;
  are_transactions_enabled : bool;
  is_idempotence_enabled : bool;
  authorized_transactional_id : string -> bool;
  authorized_topic : topic_name -> bool;
  authorized_auditor : bool;
  audit : bool;
  is_topic_mutable : topic_name -> bool;
  api_version : Z;
  (* metadata cache and configuration *)
  should_reject_writes : bool;
  should_reject_topic_writes : topic_name -> bool;
  topic_disabled : topic_name -> Z -> bool;
  topic_metadata : topic_name -> option topic_properties;
  default_batch_max_bytes : Z;
  default_timestamp_type : timestamp_type;
  default_before_max_ms : Z;
  default_after_max_ms : Z;
  kafka_noproduce_topics : list topic_name;
  batch_validation : kafka_batch_validation_mode;
  (* schema registry, clock *)
  schema_id_validator : topic_name -> option (record_batch -> error_code.t);
  now : Z;
  (* shard table, partition manager, partition proxy *)
  shard_for : ntp -> option Z;
  is_leader : Z -> ntp -> bool;
  replicate : ntp -> batch_identity -> record_batch -> replicate_options -> replicate_stages;
}.

(** ** The state of a shard *)

Record shard_state := {
  seen_keys : gset (list Z);
  failed_events : list (list Z * topic_name);
  message_counter : Z;
  (* the batches handed to [partition_proxy::replicate], oldest first *)
  appended : list (ntp * record_batch);
}.

Definition initial_state : shard_state :=
  {| seen_keys := ∅; failed_events := []; message_counter := 0; appended := [] |}.

Definition set_keys (s : shard_state) (ks : gset (list Z)) : shard_state :=
  {| seen_keys := ks; failed_events := failed_events s; message_counter := message_counter s;
     appended := appended s |}.
Definition add_failed_event (s : shard_state) (k : list Z) (t : topic_name) : shard_state :=
  {| seen_keys := seen_keys s; failed_events := failed_events s ++ [(k, t)];
     message_counter := message_counter s; appended := appended s |}.
Definition add_appended (s : shard_state) (n : ntp) (b : record_batch) : shard_state :=
  {| seen_keys := seen_keys s; failed_events := failed_events s;
     message_counter := message_counter s; appended := appended s ++ [(n, b)] |}.

(** ** One partition *)

Record ntp_produce_request := {
  req_ntp : ntp;
  req_batch : record_batch;
  req_validator : option (record_batch -> error_code.t);
  req_batch_max_bytes : Z;
  req_args : validation_args;
}.

Definition set_req_batch (r : ntp_produce_request) (b : record_batch) : ntp_produce_request :=
  {| req_ntp := req_ntp r; req_batch := b; req_validator := req_validator r;
     req_batch_max_bytes := req_batch_max_bytes r; req_args := req_args r |}.

(** What the two futures of a partition end with: the dispatch stage, and the
    response.  An exception breaks the dispatch promise too. *)
Inductive produce_outcome :=
  | Produced (dispatched : bool) (p : partition_response)
  | Raised (e : exn).

(** [finalize_request_with_error_code]. *)
Definition finalize_request_with_error_code (e : error_code.t) (n : ntp) : produce_outcome :=
  Produced true (error_partition (ntp_partition n) e).

(** [partition_append]: the response when replication has finished. *)
Definition partition_append (id : Z) (b : record_batch) (num_records : Z) (r : replicate_result)
    : partition_response :=
  let log_append_time_ms :=
    match record_batch_attributes.get_timestamp_type (attrs (header b)) with
    | create_time => missing_timestamp
    | append_time => max_timestamp (header b)
    end in
  match r with
  | Replicated last =>
      {| pr_index := id; pr_error := error_code.none;
         pr_base_offset := Some (s64 (last - s32 (num_records - 1)));
         pr_log_append_time_ms := Some log_append_time_ms |}
  | Refused ec => error_partition id (map_produce_error_code ec)
  | Broken => error_partition id error_code.request_timed_out
  end.

(** The loop over the records that looks for repeated keys: it stops at the first
    one, after recording the keys before it. *)
Fixpoint dedup_loop (t : topic_name) (recs : list record) (s : shard_state) : shard_state * bool :=
  match recs with
  | [] => (s, false)
  | r :: recs =>
      if has_key r then
        if bool_decide (key r ∈ seen_keys s) then (add_failed_event s (key r) t, true)
        else dedup_loop t recs (set_keys s ({[key r]} ∪ seen_keys s))
      else dedup_loop t recs s
  end.

(** The size limit: five times the configured one, computed in 32 bits. *)
Definition custom_max_batch_bytes (batch_max_bytes : Z) : Z := u32 (u64 (batch_max_bytes * 5)).
Definition batch_too_large (batch_size batch_max_bytes : Z) : bool :=
  u32 batch_size >? custom_max_batch_bytes batch_max_bytes.

Definition effective_timeout (t : Z) : Z := if t <? 0 then int32_max else t.

(** A partition's coroutine between two suspension points. *)
Inductive task :=
  | Validate (r : ntp_produce_request)
  | Dedup (r : ntp_produce_request)
  | CheckSchema (r : ntp_produce_request)
  | Dispatch (r : ntp_produce_request)
  | Finished (o : produce_outcome).

Section partition.
Variable crc_extend : Z -> bytes -> Z.
Variable uninit : nat -> byte.
Variable uncompress : compression_type -> list bytes -> res (list bytes).
Variables req_acks req_timeout : Z.

(** From the start to the end of validation. *)
Definition validate_phase (e : env) (r : ntp_produce_request) : res task :=
  match validate_batch (req_args r) (now e) crc_extend uninit uncompress (batch_validation e)
          (req_batch r) with
  | Ok (Some ec, _) => Ok (Finished (finalize_request_with_error_code ec (req_ntp r)))
  | Ok (None, b) => Ok (Dedup (set_req_batch r b))
  | Throw x => Ok (Finished (Raised x))
  | Crash => Crash
  end.

(** The duplicate check and the size check, which run without a break.  The keys are
    remembered before the size is looked at. *)
Definition dedup_phase (s : shard_state) (r : ntp_produce_request) : res (shard_state * task) :=
  let batch_size := batch_size_bytes (req_batch r) in
  match copy_records uninit (req_batch r) with
  | Ok recs =>
      let '(s, duplicate) := dedup_loop (ntp_topic (req_ntp r)) recs s in
      if duplicate : bool then
        Ok (s, Finished (finalize_request_with_error_code error_code.none (req_ntp r)))
      else if batch_too_large batch_size (req_batch_max_bytes r) then
        Ok (s, Finished (finalize_request_with_error_code error_code.message_too_large (req_ntp r)))
      else Ok (s, CheckSchema r)
  | Throw x => Ok (s, Finished (Raised x))
  | Crash => Crash
  end.

Definition schema_phase (r : ntp_produce_request) : task :=
  match req_validator r with
  | Some validator =>
      let ec := validator (req_batch r) in
      if bool_decide (ec <> error_code.none)
      then Finished (finalize_request_with_error_code ec (req_ntp r)) else Dispatch r
  | None => Dispatch r
  end.

(** The lookup of the partition and the call to [replicate]. *)
Definition dispatch_phase (e : env) (s : shard_state) (r : ntp_produce_request)
    : shard_state * task :=
  match shard_for e (req_ntp r) with
  | None => (s, Finished (finalize_request_with_error_code error_code.none (req_ntp r)))
  | Some shard =>
      let timeout := effective_timeout req_timeout in
      if negb (is_leader e shard (req_ntp r)) then
        (s, Finished (finalize_request_with_error_code error_code.not_leader_for_partition (req_ntp r)))
      else
        let b := req_batch r in
        match acks_to_replicate_options req_acks timeout with
        | Ok opts =>
            let stages := replicate e (req_ntp r) (batch_identity_from (header b)) b opts in
            (add_appended s (req_ntp r) b,
             Finished (Produced (request_enqueued stages)
               (partition_append (ntp_partition (req_ntp r)) b (batch_record_count b)
                  (replicate_finished stages))))
        | Throw x => (s, Finished (Raised x))
        | Crash => (s, Finished (Raised runtime_error))
        end
  end.

Definition task_step (e : env) (s : shard_state) (t : task) : res (shard_state * task) :=
  match t with
  | Validate r => t ← validate_phase e r; Ok (s, t)
  | Dedup r => dedup_phase s r
  | CheckSchema r => Ok (s, schema_phase r)
  | Dispatch r => Ok (dispatch_phase e s r)
  | Finished o => Ok (s, t)
  end.

(** [do_produce_topic_partition] run without interruption: four steps end it. *)
Definition do_produce_topic_partition (e : env) (s : shard_state) (r : ntp_produce_request)
    : res (shard_state * task) :=
  '(s, t) ← task_step e s (Validate r);
  '(s, t) ← task_step e s t;
  '(s, t) ← task_step e s t;
  task_step e s t.

(** The partition a message is routed to, by the number of messages so far. *)
Definition dynamic_partition (counter : Z) : Z :=
  if (counter >? 50) && (counter <=? 100) then 1
  else if counter >? 100 then 2 else 0.

Record topic_configuration_context := {
  cfg_batch_max_bytes : Z;
  cfg_args : validation_args;
}.

(** [produce_topic_partition] up to the start of the coroutine: the message is
    counted, routed, and its batch taken. *)
Definition make_task (e : env) (s : shard_state) (t : topic_name) (b : record_batch)
    (cfg : topic_configuration_context) : shard_state * task :=
  let counter := s32 (message_counter s + 1) in
  let s := {| seen_keys := seen_keys s; failed_events := failed_events s;
              message_counter := counter; appended := appended s |} in
  (s, Validate {| req_ntp := {| ntp_topic := t; ntp_partition := dynamic_partition counter |};
                  req_batch := b;
                  req_validator := schema_id_validator e t;
                  req_batch_max_bytes := cfg_batch_max_bytes cfg;
                  req_args := cfg_args cfg |}).

Definition finish (t : task) : produce_outcome :=
  match t with Finished o => o | _ => Raised runtime_error end.

Definition produce_topic_partition (e : env) (s : shard_state) (t : topic_name) (b : record_batch)
    (cfg : topic_configuration_context) : res (shard_state * produce_outcome) :=
  match make_task e s t b cfg with
  | (s, Validate r) => '(s, t) ← do_produce_topic_partition e s r; Ok (s, finish t)
  | (s, t) => Ok (s, finish t)
  end.

(** ** Topics *)

Definition transform_log_internal_topic : topic_name := "_redpanda.transform_logs".
Definition kafka_audit_logging_topic : topic_name := "_redpanda.audit_log".
Definition usage_excluded_topics : list topic_name :=
  ["_schemas"; kafka_audit_logging_topic; "__redpanda_e2e_probe"].

(** [topic_produce_stages], resolved: the dispatch stage, and the topic response. *)
Record topic_produce_stages := {
  t_dispatched : bool;
  t_produced : topic_response + exn;
}.

Definition topic_produce_error (t : topic_produce_data) (e : error_code.t) : topic_produce_stages :=
  {| t_dispatched := true; t_produced := inl (error_topic e t) |}.

(** The checks of [produce_topic] before a partition is dispatched. *)
Definition partition_check (e : env) (t : topic_name) (p : partition_produce_data)
    : record_batch + error_code.t :=
  if topic_disabled e t (partition_index p) then inr error_code.replica_not_available
  else match part_records p with
  | None => inr error_code.invalid_record
  | Some a =>
      if legacy_error a then inr error_code.invalid_record
      else if negb (valid_crc a) then inr error_code.corrupt_message
      else match batch a with
           | Some b => if negb (v2_format a) then inr error_code.invalid_record else inl b
           | None => inr error_code.invalid_record
           end
  end.

Fixpoint produce_partitions (e : env) (s : shard_state) (t : topic_name)
    (cfg : topic_configuration_context) (ps : list partition_produce_data)
    : res (shard_state * list produce_outcome) :=
  match ps with
  | [] => Ok (s, [])
  | p :: ps =>
      '(s, o) ← match partition_check e t p with
                | inr ec => Ok (s, Produced true (error_partition (partition_index p) ec))
                | inl b => produce_topic_partition e s t b cfg
                end;
      '(s, os) ← produce_partitions e s t cfg ps;
      Ok (s, o :: os)
  end.

(** [when_all_succeed] on the responses of the partitions. *)
Fixpoint collect (os : list produce_outcome) : list partition_response + exn :=
  match os with
  | [] => inl []
  | Raised x :: _ => inr x
  | Produced _ p :: os => match collect os with inl ps => inl (p :: ps) | inr x => inr x end
  end.
Definition outcome_dispatched (o : produce_outcome) : bool :=
  match o with Produced d _ => d | Raised _ => false end.

Definition topic_config (e : env) (p : topic_properties) : topic_configuration_context := {|
  cfg_batch_max_bytes := default (default_batch_max_bytes e) (tp_batch_max_bytes p);
  cfg_args := {|
    va_timestamp_type := default (default_timestamp_type e) (tp_timestamp_type p);
    message_timestamp_before_max_ms := default (default_before_max_ms e) (tp_before_max_ms p);
    message_timestamp_after_max_ms := default (default_after_max_ms e) (tp_after_max_ms p) |} |}.

(** Topics a client may not write to. *)
Definition produce_restricted (e : env) (t : topic_name) : bool :=
  let is_noproduce_topic :=
    bool_decide (t = transform_log_internal_topic) || bool_decide (t ∈ kafka_noproduce_topics e) in
  let audit_produce_restricted :=
    negb (authorized_auditor e) && bool_decide (t = kafka_audit_logging_topic) in
  let is_audit_produce := authorized_auditor e && bool_decide (t = kafka_audit_logging_topic) in
  (is_noproduce_topic || audit_produce_restricted) && negb is_audit_produce.

Definition produce_topic (e : env) (s : shard_state) (t : topic_produce_data)
    : res (shard_state * topic_produce_stages) :=
  if produce_restricted e (topic t)
  then Ok (s, topic_produce_error t error_code.topic_authorization_failed)
  else match topic_metadata e (topic t) with
  | None => Ok (s, topic_produce_error t error_code.unknown_topic_or_partition)
  | Some p =>
      '(s, os) ← produce_partitions e s (topic t) (topic_config e p) (partitions t);
      Ok (s, {| t_dispatched := forallb outcome_dispatched os;
                t_produced := match collect os with
                              | inl ps => inl {| tr_name := topic t; tr_partitions := ps |}
                              | inr x => inr x end |})
  end.

Fixpoint produce_topics (e : env) (s : shard_state) (ts : list topic_produce_data)
    : res (shard_state * list topic_produce_stages) :=
  match ts with
  | [] => Ok (s, [])
  | t :: ts => '(s, st) ← produce_topic e s t; '(s, sts) ← produce_topics e s ts; Ok (s, st :: sts)
  end.
End partition.

(** ** The handler *)

(** [std::partition]: the elements that satisfy the predicate, then the others, in no
    particular order. *)
Class PartitionLaws (std_partition : (topic_produce_data -> bool) -> list topic_produce_data ->
    list topic_produce_data * list topic_produce_data) : Prop := {
  partition_yes f l : Forall (fun t => f t = true) (std_partition f l).1;
  partition_no f l : Forall (fun t => f t = false) (std_partition f l).2;
  partition_perm f l : (std_partition f l).1 ++ (std_partition f l).2 ≡ₚ l;
}.

(** How a request ends: a response, which is dropped when [noop], or the connection
    is closed. *)
Inductive handler_result :=
  | Respond (noop : bool) (r : produce_response)
  | Close.

Section handler.
Variable crc_extend : Z -> bytes -> Z.
Variable uninit : nat -> byte.
Variable uncompress : compression_type -> list bytes -> res (list bytes).
Variable std_partition : (topic_produce_data -> bool) -> list topic_produce_data ->
  list topic_produce_data * list topic_produce_data.

Definition part_batches (t : topic_produce_data) : list record_batch :=
  omap (fun p => part_records p ≫= batch) (partitions t).

(** Bytes for internal topics, which usage accounting excludes. *)
Definition count_internal_bytes (ts : list topic_produce_data) : Z :=
  foldl (fun n t => if bool_decide (topic t ∈ usage_excluded_topics)
                    then foldl (fun n b => u64 (n + batch_size_bytes b)) n (part_batches t) else n)
    0 ts.

Definition has_transactional (req : produce_request) : bool :=
  existsb (fun t => existsb (fun b => record_batch_attributes.is_transactional (attrs (header b)))
                      (part_batches t)) (topics req).
Definition has_idempotent (req : produce_request) : bool :=
  existsb (fun t => existsb (fun b => producer_id (header b) >=? 0) (part_batches t)) (topics req).

(** The error the whole request is answered with before any topic is looked at. *)
Definition request_error (e : env) (req : produce_request) : option error_code.t :=
  if has_transactional req then
    if negb (are_transactions_enabled e)
    then Some error_code.transactional_id_authorization_failed
    else if negb (match transactional_id req with
                  | Some id => authorized_transactional_id e id | None => false end)
    then Some (if negb (audit e) then error_code.broker_not_available
               else error_code.transactional_id_authorization_failed)
    else None
  else if has_idempotent req then
    if negb (is_idempotence_enabled e) then Some error_code.cluster_authorization_failed else None
  else if (acks req <? -1) || (acks req >? 1) then Some error_code.invalid_required_acks
  else None.

(** One round of authorization: the topics that fail are answered with [ec] and
    taken out of the request. *)
Definition reject_topics (f : topic_produce_data -> bool) (ec : error_code.t)
    (ts : list topic_produce_data) (resp : produce_response)
    : list topic_produce_data * produce_response :=
  let '(keep, drop) := std_partition f ts in (keep, fill_response_with_errors drop resp ec).

(** The end of the handler: the responses of all topics, or none. *)
Fixpoint collect_topics (sts : list topic_produce_stages) : list topic_response + exn :=
  match sts with
  | [] => inl []
  | st :: sts =>
      match t_produced st, collect_topics sts with
      | inl t, inl ts => inl (t :: ts)
      | inr x, _ | _, inr x => inr x
      end
  end.

Definition has_error (r : produce_response) : bool :=
  existsb (fun t => existsb (fun p => bool_decide (pr_error p <> error_code.none)) (tr_partitions t))
    (responses r).

Definition respond (acks : Z) (resp : produce_response) (sts : list topic_produce_stages)
    : handler_result :=
  if forallb t_dispatched sts then
    match collect_topics sts with
    | inl ts =>
        let resp := {| responses := responses resp ++ ts;
                       internal_topic_bytes := internal_topic_bytes resp |} in
        if negb (acks =? 0) then Respond false resp
        else if negb (has_error resp) then Respond true resp else Close
    | inr _ => Close
    end
  else Close.

(** [produce_handler::handle], on a decoded request.  The coroutines of its partitions
    are run one after the other, which is one of the schedules of [sys_step] below. *)
Definition handle (e : env) (s : shard_state) (req : produce_request)
    : res (shard_state * handler_result) :=
  if recovery_mode_enabled e
  then Ok (s, Respond false (make_error_response req error_code.policy_violation))
  else if should_reject_writes e
  then Ok (s, Respond false (make_full_disk_response req (api_version e)))
  else
    let resp := {| responses := []; internal_topic_bytes := count_internal_bytes (topics req) |} in
    match request_error e req with
    | Some ec => Ok (s, Respond false (make_error_response req ec))
    | None =>
        let '(ts, unauthorized) := std_partition (fun t => authorized_topic e (topic t)) (topics req) in
        if negb (audit e)
        then Ok (s, Respond false (make_error_response
                   {| transactional_id := transactional_id req; acks := acks req;
                      timeout_ms := timeout_ms req; topics := ts ++ unauthorized |}
                   error_code.broker_not_available))
        else
          let resp := fill_response_with_errors unauthorized resp error_code.topic_authorization_failed in
          let '(ts, resp) := reject_topics (fun t => negb (should_reject_topic_writes e (topic t)))
                               error_code.invalid_topic_exception ts resp in
          let '(ts, resp) := reject_topics (fun t => is_topic_mutable e (topic t))
                               error_code.policy_violation ts resp in
          '(s, sts) ← produce_topics crc_extend uninit uncompress (acks req) (timeout_ms req) e s ts;
          Ok (s, respond (acks req) resp sts)
    end.
End handler.

(** ** Repeated keys *)

(** The keys of the records that have one, in order. *)
Definition keyed (recs : list record) : list (list Z) :=
  omap (fun r => if has_key r then Some (key r) else None) recs.

Lemma keyed_cons r recs :
  keyed (r :: recs) = if has_key r then key r :: keyed recs else keyed recs.
Proof. unfold keyed. cbn. by destruct (has_key r). Qed.

Lemma set_keys_id s : set_keys s (seen_keys s) = s.
Proof. by destruct s. Qed.

(** The loop accepts exactly the record lists whose keys are new and distinct, and
    remembers them. *)
Lemma dedup_loop_fresh t recs s s' :
  dedup_loop t recs s = (s', false) ->
  NoDup (keyed recs) /\ (forall k, k ∈ keyed recs -> k ∉ seen_keys s) /\
  s' = set_keys s (list_to_set (keyed recs) ∪ seen_keys s).
Proof.
  revert s. induction recs as [|r recs IH]; intros s E; cbn [dedup_loop] in E.
  - injection E as <-. split; [constructor|]. split; [intros k Hk; by apply not_elem_of_nil in Hk|].
    change (keyed []) with (@nil (list Z)). by rewrite list_to_set_nil, union_empty_l_L, set_keys_id.
  - rewrite keyed_cons. destruct (has_key r); [|by apply IH].
    destruct (bool_decide_reflect (key r ∈ seen_keys s)) as [|Hn]; [done|].
    apply IH in E as (Hd & Hf & ->). cbn [seen_keys set_keys] in Hf. split_and!.
    + constructor; [|done]. intros Hk. specialize (Hf _ Hk). set_solver.
    + intros k [->|Hk]%elem_of_cons; [done|]. specialize (Hf _ Hk). set_solver.
    + unfold set_keys. cbn [seen_keys failed_events message_counter appended].
      rewrite list_to_set_cons. f_equal. set_solver.
Qed.

Lemma dedup_loop_duplicate t recs s s' :
  dedup_loop t recs s = (s', true) ->
  exists pre k post, keyed recs = pre ++ k :: post /\ NoDup pre /\
    (forall x, x ∈ pre -> x ∉ seen_keys s) /\ (k ∈ pre \/ k ∈ seen_keys s) /\
    s' = add_failed_event (set_keys s (list_to_set pre ∪ seen_keys s)) k t.
Proof.
  revert s. induction recs as [|r recs IH]; intros s E; cbn [dedup_loop] in *; [done|].
  rewrite keyed_cons. destruct (has_key r); [|by apply IH].
  destruct (bool_decide_reflect (key r ∈ seen_keys s)) as [Hin|Hn].
  - injection E as <-. exists [], (key r), (keyed recs). split_and!; [done|constructor|..|].
    + intros x Hx. by apply not_elem_of_nil in Hx.
    + by right.
    + by rewrite list_to_set_nil, union_empty_l_L, set_keys_id.
  - apply IH in E as (pre & k & post & E1 & Hd & Hf & Hk & ->). cbn [seen_keys set_keys] in *.
    exists (key r :: pre), k, post. split_and!.
    + by rewrite E1.
    + constructor; [|done]. intros Hk'. specialize (Hf _ Hk'). set_solver.
    + intros x [->|Hx]%elem_of_cons; [done|]. specialize (Hf _ Hx). set_solver.
    + set_solver.
    + unfold add_failed_event, set_keys. cbn [seen_keys failed_events message_counter appended].
      rewrite list_to_set_cons. f_equal. set_solver.
Qed.

(** *** Interleaved coroutines *)

Record sys := { shard : shard_state; tasks : list task }.

Section system.
Variable crc_extend : Z -> bytes -> Z.
Variable uninit : nat -> byte.
Variable uncompress : compression_type -> list bytes -> res (list bytes).

(** A shard's life: partition requests arrive, and any unfinished coroutine runs to
    its next suspension point, in any environment. *)
Inductive sys_step : sys -> sys -> Prop :=
  | sys_arrive e t b cfg s ts s' k :
      make_task e s t b cfg = (s', k) ->
      sys_step {| shard := s; tasks := ts |} {| shard := s'; tasks := ts ++ [k] |}
  | sys_run e a timeout i s ts k s' k' :
      ts !! i = Some k ->
      task_step crc_extend uninit uncompress a timeout e s k = Ok (s', k') ->
      sys_step {| shard := s; tasks := ts |} {| shard := s'; tasks := <[i:=k']> ts |}.

Definition reachable (y : sys) : Prop := rtc sys_step {| shard := initial_state; tasks := [] |} y.

Definition keys_of (b : record_batch) : list (list Z) :=
  match copy_records uninit b with Ok recs => keyed recs | _ => [] end.

(** The keys a coroutine has passed the duplicate check with, but not appended. *)
Definition task_claims (k : task) : list (list Z) :=
  match k with CheckSchema r | Dispatch r => keys_of (req_batch r) | _ => [] end.

Definition appended_keys (s : shard_state) : list (list Z) :=
  concat ((fun a => keys_of a.2) <$> appended s).
Definition claims (y : sys) : list (list Z) :=
  appended_keys (shard y) ++ concat (task_claims <$> tasks y).

Definition dedup_inv (y : sys) : Prop :=
  NoDup (claims y) /\ forall k, k ∈ claims y -> k ∈ seen_keys (shard y).

(** Replacing one element of a list of lists. *)
Lemma concat_insert {A B} (f : A -> list B) (l : list A) i x :
  l !! i = Some x ->
  exists rest, concat (f <$> l) ≡ₚ f x ++ rest /\
    forall y, concat (f <$> <[i:=y]> l) ≡ₚ f y ++ rest.
Proof.
  intros Hi. destruct (list_elem_of_split_length l i x Hi) as (l1 & l2 & -> & ->).
  exists (concat (f <$> l1) ++ concat (f <$> l2)).
  assert (H : forall y, concat (f <$> l1 ++ y :: l2) ≡ₚ f y ++ concat (f <$> l1) ++ concat (f <$> l2)).
  { intros y. rewrite fmap_app, fmap_cons, concat_app. cbn [concat].
    rewrite !app_assoc. by rewrite (Permutation_app_comm (concat (f <$> l1))). }
  split; [apply H|]. intros y. rewrite <- (Nat.add_0_r (length l1)), insert_app_r. apply H.
Qed.

(** What a step does to the keys a coroutine holds: none appear, except when the
    duplicate check passes; [moved] are those handed to replication. *)
Lemma task_step_claims e a timeout s k s' k' :
  task_step crc_extend uninit uncompress a timeout e s k = Ok (s', k') ->
  exists fresh moved, NoDup fresh /\ (forall x, x ∈ fresh -> x ∉ seen_keys s) /\
    (forall x, x ∈ fresh -> x ∈ seen_keys s') /\ seen_keys s ⊆ seen_keys s' /\
    appended_keys s' = appended_keys s ++ moved /\
    moved ++ task_claims k' ⊆+ task_claims k ++ fresh.
Proof.
  intros E.
  assert (Hsame : forall s k k', appended s' = appended s -> seen_keys s ⊆ seen_keys s' ->
    task_claims k' ⊆+ task_claims k ->
    exists fresh moved, NoDup fresh /\ (forall x, x ∈ fresh -> x ∉ seen_keys s) /\
      (forall x, x ∈ fresh -> x ∈ seen_keys s') /\ seen_keys s ⊆ seen_keys s' /\
      appended_keys s' = appended_keys s ++ moved /\
      moved ++ task_claims k' ⊆+ task_claims k ++ fresh).
  { intros s0 k0 k0' Ha Hs Hc. exists [], []. unfold appended_keys. rewrite Ha, !app_nil_r.
    split_and!; [constructor|intros x Hx; by apply not_elem_of_nil in Hx..|done|done|done]. }
  destruct k as [r|r|r|r|o]; cbn [task_step] in E.
  - apply res_bind_Ok in E as (k & E & [= <- <-]). apply Hsame; [done|done|].
    unfold validate_phase in E. destruct (validate_batch _ _ _ _ _ _ _) as [[[ec|] b]| |];
      by simplify_eq.
  - unfold dedup_phase in E. destruct (copy_records uninit (req_batch r)) as [recs| |] eqn:Er;
      [|injection E as <- <-; by apply Hsame|done].
    destruct (dedup_loop _ recs s) as [s1 dup] eqn:Ed. destruct dup.
    + apply dedup_loop_duplicate in Ed as (pre & k & post & _ & _ & _ & _ & ->).
      injection E as <- <-. apply Hsame; [done| |done]. cbn. set_solver.
    + apply dedup_loop_fresh in Ed as (Hd & Hf & ->). destruct (batch_too_large _ _); injection E as <- <-.
      * apply Hsame; [done| |done]. cbn. set_solver.
      * exists (keyed recs), []. cbn [seen_keys set_keys task_claims app]. unfold keys_of. rewrite Er.
        split_and!; [done|done|set_solver|set_solver|by rewrite app_nil_r|done].
  - injection E as <- <-. apply Hsame; [done|done|]. unfold schema_phase.
    destruct (req_validator r); [case_bool_decide|]; cbn; apply submseteq_nil_l || done.
  - injection E as E. unfold dispatch_phase in E.
    assert (Hdone : forall o, (s', k') = (s, Finished o) -> exists fresh moved, NoDup fresh /\
      (forall x, x ∈ fresh -> x ∉ seen_keys s) /\ (forall x, x ∈ fresh -> x ∈ seen_keys s') /\
      seen_keys s ⊆ seen_keys s' /\ appended_keys s' = appended_keys s ++ moved /\
      moved ++ task_claims k' ⊆+ task_claims (Dispatch r) ++ fresh).
    { intros o [= -> ->]. apply Hsame; [done|done|apply submseteq_nil_l]. }
    destruct (shard_for e (req_ntp r)); [|by eapply Hdone].
    destruct (negb _); [by eapply Hdone|].
    destruct (acks_to_replicate_options _ _); [|by eapply Hdone|by eapply Hdone].
    injection E as <- <-. exists [], (keys_of (req_batch r)). cbn [task_claims].
    split_and!; [constructor|intros x Hx; by apply not_elem_of_nil in Hx
      |intros x Hx; by apply not_elem_of_nil in Hx|done|..].
    + unfold appended_keys. cbn. rewrite fmap_app, concat_app. cbn. by rewrite app_nil_r.
    + by rewrite !app_nil_r.
  - injection E as <- <-. by apply Hsame.
Qed.

Lemma dedup_inv_step y y' : sys_step y y' -> dedup_inv y -> dedup_inv y'.
Proof.
  intros Hs [Hd Hk]. destruct Hs as [e t b cfg s ts s' k E|e a timeout i s ts k s' k' Hi E].
  - unfold make_task in E. injection E as <- <-. unfold dedup_inv, claims in *. cbn [shard tasks] in *.
    rewrite fmap_app, concat_app. cbn [fmap list_fmap concat task_claims app]. rewrite app_nil_r.
    done.
  - apply task_step_claims in E as (fresh & moved & Hf & Hn & Hin & Hsub & Ha & Hm).
    destruct (concat_insert task_claims ts i k Hi) as (rest & Hp & Hp').
    unfold dedup_inv, claims in *. cbn [shard tasks] in *.
    rewrite Ha. rewrite Hp in Hd. setoid_rewrite Hp in Hk.
    assert (Hc : (appended_keys s ++ moved) ++ concat (task_claims <$> <[i:=k']> ts)
      ⊆+ (appended_keys s ++ task_claims k ++ rest) ++ fresh).
    { rewrite (Hp' k'), <- !app_assoc. apply submseteq_app; [done|].
      rewrite (Permutation_app_comm rest fresh), !app_assoc. by apply submseteq_app. }
    assert (Hnd : NoDup ((appended_keys s ++ task_claims k ++ rest) ++ fresh)).
    { apply NoDup_app. split; [done|]. split; [|done]. intros x Hx Hx'. apply (Hn x Hx'). by apply Hk. }
    split.
    + apply submseteq_Permutation in Hc as (more & Hc). rewrite Hc in Hnd.
      by apply NoDup_app in Hnd as [? _].
    + intros x Hx. pose proof (elem_of_submseteq _ _ _ Hx Hc) as Hx'. clear Hx. rename Hx' into Hx.
      apply elem_of_app in Hx as [Hx|Hx]; [|by apply Hin]. apply Hsub, Hk, Hx.
Qed.

Lemma dedup_inv_reachable y : reachable y -> dedup_inv y.
Proof.
  unfold reachable.
  assert (H : forall y0, rtc sys_step y0 y -> dedup_inv y0 -> dedup_inv y).
  { induction 1 as [|y0 y1 y2 Hs _ IH]; [done|]. intros Hi. apply IH. by eapply dedup_inv_step. }
  intros Hr. apply (H _ Hr). split; [constructor|]. intros k Hk. by apply not_elem_of_nil in Hk.
Qed.
End system.
