(* ===== verification/ProduceProps.v ===== *)
(** * Properties of the produce handler

    What [handle] and the partition coroutines of Produce.v guarantee, and where the
    duplicate check, the routing and the size limit behave in a way a producer
    would not expect. *)

From S2P Require Import Prelude Vint IobufParser Record RecordBatch BatchAdapter.
From S2P Require Import Errors ProduceValidation Produce.

(** ** An environment for examples: one topic, led by this node *)

Definition example_topic : topic_name := "orders".

Definition example_env (result : replicate_result) : env := {|
  recovery_mode_enabled := false; are_transactions_enabled := true; is_idempotence_enabled := true;
  authorized_transactional_id := fun _ => true; authorized_topic := fun t => bool_decide (t <> "secret"%string);
  authorized_auditor := false; audit := true; is_topic_mutable := fun _ => true; api_version := 7;
  should_reject_writes := false; should_reject_topic_writes := fun _ => false;
  topic_disabled := fun _ _ => false;
  topic_metadata := fun t => if bool_decide (t = example_topic) then
    Some {| tp_batch_max_bytes := None; tp_timestamp_type := None; tp_before_max_ms := None;
            tp_after_max_ms := None |} else None;
  default_batch_max_bytes := 1048576; default_timestamp_type := create_time;
  default_before_max_ms := 500; default_after_max_ms := 100; kafka_noproduce_topics := [];
  batch_validation := relaxed; schema_id_validator := fun _ => None; now := 1100;
  shard_for := fun _ => Some 0; is_leader := fun _ _ => true;
  replicate := fun _ _ _ _ => {| request_enqueued := true; replicate_finished := result |} |}.

Definition example_cfg : topic_configuration_context :=
  {| cfg_batch_max_bytes := 1048576; cfg_args := example_args |}.

Abbreviation u0 := (fun _ : nat => 0).
Abbreviation step := (task_step sum_extend u0 mark_uncompress 1 1000).
Abbreviation run := (do_produce_topic_partition sum_extend u0 mark_uncompress 1 1000).

Definition example_request : ntp_produce_request :=
  {| req_ntp := {| ntp_topic := example_topic; ntp_partition := 0 |}; req_batch := example_batch;
     req_validator := None; req_batch_max_bytes := 1048576; req_args := example_args |}.

(** ** One partition *)

Section partition_facts.
Context (crc_extend : Z -> bytes -> Z) (uninit : nat -> byte).
Context (uncompress : compression_type -> list bytes -> res (list bytes)) (a timeout : Z).

Abbreviation do_produce := (do_produce_topic_partition crc_extend uninit uncompress a timeout).

(** The run of a coroutine by phases. *)
Lemma do_produce_cases e s r s' k :
  do_produce e s r = Ok (s', k) ->
  (exists o, validate_phase crc_extend uninit uncompress e r = Ok (Finished o) /\ s' = s /\ k = Finished o) \/
  exists r1, validate_phase crc_extend uninit uncompress e r = Ok (Dedup r1) /\
    ((exists o, dedup_phase uninit s r1 = Ok (s', Finished o) /\ k = Finished o) \/
     exists s1, dedup_phase uninit s r1 = Ok (s1, CheckSchema r1) /\
       ((exists o, schema_phase r1 = Finished o /\ s' = s1 /\ k = Finished o) \/
        schema_phase r1 = Dispatch r1 /\ dispatch_phase a timeout e s1 r1 = (s', k))).
Proof.
  unfold do_produce_topic_partition. intros E. cbn [task_step mbind res_bind] in E.
  destruct (validate_phase _ _ _ e r) as [k1| |] eqn:Ev; cbn [mbind res_bind] in E; [|done..].
  assert (Hv : (exists o, k1 = Finished o) \/ exists b, k1 = Dedup (set_req_batch r b)).
  { unfold validate_phase in Ev. destruct (validate_batch _ _ _ _ _ _ _) as [[[ec|] b]| |]; simplify_eq; eauto. }
  destruct Hv as [[o ->] | [b ->]]; cbn [task_step mbind res_bind] in E; [left; naive_solver|].
  right. eexists. split; [done|]. set (r1 := set_req_batch r b) in *.
  destruct (dedup_phase uninit s r1) as [[s1 k1]| |] eqn:Ed; cbn [mbind res_bind] in E; [|done..].
  assert (Hd : (exists o, k1 = Finished o) \/ k1 = CheckSchema r1).
  { unfold dedup_phase in Ed. destruct (copy_records _ _); simplify_eq; [|eauto].
    destruct (dedup_loop _ _ _) as [? [|]]; [simplify_eq; eauto|].
    destruct (batch_too_large _ _); simplify_eq; eauto. }
  destruct Hd as [[o ->] | ->]; cbn [task_step mbind res_bind] in E; [left; naive_solver|].
  right. exists s1. split; [done|].
  assert (Hs : (exists o, schema_phase r1 = Finished o) \/ schema_phase r1 = Dispatch r1).
  { unfold schema_phase. destruct (req_validator r1); [case_bool_decide|]; eauto. }
  destruct Hs as [[o Hs] | Hs]; rewrite Hs in E |- *; cbn [task_step] in E.
  - left. naive_solver.
  - right. split; [done|]. by injection E.
Qed.

Lemma validate_phase_batch e r r1 :
  validate_phase crc_extend uninit uncompress e r = Ok (Dedup r1) ->
  exists b, r1 = set_req_batch r b /\ records b = records (req_batch r) /\
    compressed b = compressed (req_batch r).
Proof.
  unfold validate_phase. destruct (validate_batch _ _ _ _ _ _ _) as [[[ec|] b]| |] eqn:E; [done| |done..].
  intros [= <-]. exists b. split; [done|].
  apply validate_cases in E as [->|(t & ts & ->)]; [done|].
  pose proof (set_max_timestamp_fields crc_extend (req_batch r) t ts) as (_ & _ & _ & ? & ?). done.
Qed.
End partition_facts.

(** ** Properties *)

(** C2: the duplicate check over all interleavings: whatever requests arrive on a shard,
    however their coroutines interleave and whatever the environment answers, no
    key is handed to replication twice, neither in two batches nor in one. *)
Theorem no_key_appended_twice crc_extend uninit uncompress y :
  reachable crc_extend uninit uncompress y ->
  NoDup (appended_keys uninit (shard y)) /\
  forall k, k ∈ appended_keys uninit (shard y) -> k ∈ seen_keys (shard y).
Proof.
  intros Hr. destruct (dedup_inv_reachable crc_extend uninit uncompress y Hr) as [Hd Hk].
  unfold claims in *. apply NoDup_app in Hd as [Hd _]. split; [done|].
  intros k Hk'. apply Hk. apply elem_of_app. by left.
Qed.

(** One request, up to its append. *)
Definition example_sys : sys :=
  {| shard := {| seen_keys := {[ [107] ]}; failed_events := []; message_counter := 1;
       appended := [({| ntp_topic := example_topic; ntp_partition := 0 |}, example_batch)] |};
     tasks := [Finished (Produced true {| pr_index := 0; pr_error := error_code.none;
       pr_base_offset := Some 8; pr_log_append_time_ms := Some (-1) |})] |}.

Lemma example_sys_reachable : reachable sum_extend u0 mark_uncompress example_sys.
Proof.
  unfold reachable. eapply rtc_l.
  { eapply (sys_arrive sum_extend u0 mark_uncompress (example_env (Replicated 9)) example_topic
      example_batch example_cfg initial_state []). reflexivity. }
  do 4 (eapply rtc_l; [eapply (sys_run sum_extend u0 mark_uncompress (example_env (Replicated 9))
      1 1000 0); [reflexivity|vm_compute; reflexivity]|]).
  apply rtc_refl.
Qed.

Lemma no_key_appended_twice_witness :
  NoDup (appended_keys u0 (shard example_sys)).
Proof. apply (no_key_appended_twice sum_extend u0 mark_uncompress example_sys example_sys_reachable). Defined.

(** What the duplicate check does with a readable batch.  If its keys are new and
    distinct, they are remembered, and the batch goes on unless it is too large;
    otherwise the first repeated key is written to the file of failed events and the
    producer is told that all is well, while nothing is appended. *)
Theorem duplicate_check uninit s r recs :
  copy_records uninit (req_batch r) = Ok recs ->
  exists s' k, dedup_phase uninit s r = Ok (s', k) /\ appended s' = appended s /\
  if decide (NoDup (keyed recs) /\ Forall (fun x => x ∉ seen_keys s) (keyed recs))
  then seen_keys s' = list_to_set (keyed recs) ∪ seen_keys s /\ failed_events s' = failed_events s /\
       k = (if batch_too_large (batch_size_bytes (req_batch r)) (req_batch_max_bytes r)
            then Finished (finalize_request_with_error_code error_code.message_too_large (req_ntp r))
            else CheckSchema r)
  else k = Finished (finalize_request_with_error_code error_code.none (req_ntp r)) /\
       exists x, x ∈ keyed recs /\ failed_events s' = failed_events s ++ [(x, ntp_topic (req_ntp r))].
Proof.
  intros Hr. unfold dedup_phase. rewrite Hr.
  destruct (dedup_loop (ntp_topic (req_ntp r)) recs s) as [s' dup] eqn:E. destruct dup.
  - apply dedup_loop_duplicate in E as (pre & x & post & Ek & Hd & Hf & Hx & ->).
    eexists _, _. split; [done|]. split; [done|]. destruct (decide _) as [[Hnd Hfa]|_].
    + exfalso. rewrite Ek in *. destruct Hx as [Hx|Hx].
      * apply NoDup_app in Hnd as (_ & Hn & _). apply (Hn x Hx). by left.
      * rewrite Forall_app, Forall_cons in Hfa. naive_solver.
    + split; [done|]. exists x. split; [rewrite Ek; set_solver|done].
  - apply dedup_loop_fresh in E as (Hd & Hf & ->).
    destruct (batch_too_large _ _); eexists _, _; (split; [done|]); (split; [done|]);
      (destruct (decide _) as [_|[]]; [by split_and!|split; [done|by apply Forall_forall]]).
Qed.

Lemma duplicate_check_witness :
  exists s' k, dedup_phase u0 (set_keys initial_state {[ [107] ]}) example_request = Ok (s', k) /\
    appended s' = [].
Proof.
  destruct (duplicate_check u0 (set_keys initial_state {[ [107] ]}) example_request example_records)
    as (s' & k & E & H & _); [vm_compute; reflexivity|].
  exists s', k. split; [exact E|exact H].
Defined.

(** C36: the keys are remembered before the batch is written.  Once a batch with keys has
    passed the duplicate check, sending its records again is answered with success
    and appends nothing, even if the first attempt failed: rejected for its size, by
    the schema validator, by a partition that lost its leadership or by a replication
    error. *)
Theorem retry_is_swallowed crc_extend uninit uncompress a timeout e1 e2 s r r1 r2 recs s1 k1 s2 :
  validate_phase crc_extend uninit uncompress e1 r = Ok (Dedup r1) ->
  copy_records uninit (req_batch r1) = Ok recs -> keyed recs <> [] ->
  dedup_phase uninit s r1 = Ok (s1, k1) ->
  k1 <> Finished (finalize_request_with_error_code error_code.none (req_ntp r)) ->
  validate_phase crc_extend uninit uncompress e2 r = Ok (Dedup r2) ->
  copy_records uninit (req_batch r2) = Ok recs ->
  seen_keys s1 ⊆ seen_keys s2 ->
  exists s3, do_produce_topic_partition crc_extend uninit uncompress a timeout e2 s2 r
    = Ok (s3, Finished (Produced true (error_partition (ntp_partition (req_ntp r)) error_code.none))) /\
    appended s3 = appended s2.
Proof.
  intros V1 C1 Hne D1 Hk1 V2 C2 Hsub.
  apply validate_phase_batch in V1 as (b1 & -> & _). pose proof V2 as V2'.
  apply validate_phase_batch in V2' as (b2 & -> & _).
  assert (Hkeys : forall x, x ∈ keyed recs -> x ∈ seen_keys s2).
  { intros x Hx. apply Hsub. unfold dedup_phase in D1. rewrite C1 in D1.
    destruct (dedup_loop _ recs s) as [s0 dup] eqn:E. destruct dup; [by injection D1 as <- <-|].
    apply dedup_loop_fresh in E as (_ & _ & ->).
    destruct (batch_too_large _ _); injection D1 as <- <-; cbn; set_solver. }
  unfold do_produce_topic_partition. cbn [task_step]. rewrite V2. cbn [mbind res_bind task_step].
  unfold dedup_phase. rewrite C2.
  destruct (dedup_loop _ recs s2) as [s3 dup] eqn:E. destruct dup.
  - apply dedup_loop_duplicate in E as (pre & x & post & _ & _ & _ & _ & ->).
    eexists. split; [reflexivity|]. done.
  - apply dedup_loop_fresh in E as (_ & Hf & _). destruct (keyed recs) as [|x ks]; [done|].
    exfalso. apply (Hf x); [by left|]. apply Hkeys. by left.
Qed.

(** The first attempt ends in a timeout, the second is answered with success. *)
Definition example_after : shard_state :=
  {| seen_keys := {[ [107] ]}; failed_events := []; message_counter := 0;
     appended := [({| ntp_topic := example_topic; ntp_partition := 0 |}, example_batch)] |}.

Lemma retry_is_swallowed_witness :
  run (example_env Broken) initial_state example_request
    = Ok (example_after, Finished (Produced true (error_partition 0 error_code.request_timed_out))) /\
  exists s3, run (example_env (Replicated 9)) example_after example_request
      = Ok (s3, Finished (Produced true (error_partition 0 error_code.none))) /\
    appended s3 = appended example_after.
Proof.
  split; [vm_compute; reflexivity|].
  eapply (retry_is_swallowed sum_extend u0 mark_uncompress 1 1000 (example_env Broken)
    (example_env (Replicated 9)) initial_state example_request);
    [vm_compute; reflexivity|vm_compute; reflexivity| |vm_compute; reflexivity|
     |vm_compute; reflexivity|vm_compute; reflexivity|].
  - vm_compute. discriminate.
  - vm_compute. discriminate.
  - intros x Hx. exact Hx.
Defined.

(** The branches of the run that append nothing. *)
Ltac nothing_appended := eexists; split; [done|]; left; by split_and!.

Lemma do_produce_effect crc_extend uninit uncompress a timeout e s r s' k :
  do_produce_topic_partition crc_extend uninit uncompress a timeout e s r = Ok (s', k) ->
  exists o, k = Finished o /\
  ((appended s' = appended s /\ match o with
      | Produced d p => d = true /\ pr_base_offset p = None /\ pr_index p = ntp_partition (req_ntp r)
      | Raised _ => True end) \/
   exists b opts sh, appended s' = appended s ++ [(req_ntp r, b)] /\
     records b = records (req_batch r) /\ acks_to_replicate_options a (effective_timeout timeout) = Ok opts /\
     shard_for e (req_ntp r) = Some sh /\ is_leader e sh (req_ntp r) = true /\
     let st := replicate e (req_ntp r) (batch_identity_from (header b)) b opts in
     o = Produced (request_enqueued st)
           (partition_append (ntp_partition (req_ntp r)) b (batch_record_count b) (replicate_finished st))).
Proof.
  intros E. apply do_produce_cases in E as [(o & V & -> & ->)|(r1 & V & E)].
  - exists o. split; [done|]. left. split; [done|]. unfold validate_phase in V.
    destruct (validate_batch _ _ _ _ _ _ _) as [[[ec|] b]| |]; simplify_eq; done.
  - apply validate_phase_batch in V as (b & -> & Hb & _).
    assert (Hd : forall s1 k1, dedup_phase uninit s (set_req_batch r b) = Ok (s1, k1) ->
      appended s1 = appended s /\ forall o, k1 = Finished o -> match o with
        | Produced d p => d = true /\ pr_base_offset p = None /\ pr_index p = ntp_partition (req_ntp r)
        | Raised _ => True end).
    { intros s1 k1 D. unfold dedup_phase in D. destruct (copy_records _ _) as [recs| |];
        [|injection D as <- <-; split; [done|by intros o [= <-]]|done].
      destruct (dedup_loop _ recs s) as [s0 dup] eqn:Ed. destruct dup.
      - apply dedup_loop_duplicate in Ed as (? & ? & ? & _ & _ & _ & _ & ->).
        injection D as <- <-. split; [done|by intros o [= <-]].
      - apply dedup_loop_fresh in Ed as (_ & _ & ->). destruct (batch_too_large _ _);
          injection D as <- <-; (split; [done|by intros o [= <-]]). }
    destruct E as [(o & D & ->)|(s1 & D & E)]; apply Hd in D as [Ha Ho].
    + exists o. split; [done|]. left. split; [done|]. by apply Ho.
    + destruct E as [(o & Hs & -> & ->)|[_ E]].
      * exists o. split; [done|]. left. split; [done|]. unfold schema_phase in Hs.
        destruct (req_validator _); [case_bool_decide|]; by simplify_eq.
      * unfold dispatch_phase in E. cbn [req_ntp set_req_batch] in E.
        destruct (shard_for e (req_ntp r)) as [sh|] eqn:Hsh; [|injection E as <- <-; nothing_appended].
        destruct (is_leader e sh (req_ntp r)) eqn:Hl; cbn [negb] in E; [|injection E as <- <-; nothing_appended].
        destruct (acks_to_replicate_options _ _) as [opts| |] eqn:Hopt;
          injection E as <- <-; [|nothing_appended..].
        eexists. split; [done|]. right. exists b, opts, sh. cbn [appended add_appended].
        rewrite Ha. by split_and!.
Qed.


(** C31: the coroutine of a partition always comes to an end, and its effect on the log is
    all or nothing: either it calls [replicate] once, on the leader of the partition,
    with the records it was given, and answers from the outcome, or it appends
    nothing, reports no offset and answers with an error or an empty success. *)
Theorem produce_appends_once crc_extend uninit uncompress a timeout e s r s' k :
  do_produce_topic_partition crc_extend uninit uncompress a timeout e s r = Ok (s', k) ->
  exists o, k = Finished o /\
  ((appended s' = appended s /\ match o with
      | Produced d p => d = true /\ pr_base_offset p = None /\ pr_index p = ntp_partition (req_ntp r)
      | Raised _ => True end) \/
   exists b opts sh, appended s' = appended s ++ [(req_ntp r, b)] /\
     records b = records (req_batch r) /\ acks_to_replicate_options a (effective_timeout timeout) = Ok opts /\
     shard_for e (req_ntp r) = Some sh /\ is_leader e sh (req_ntp r) = true /\
     let st := replicate e (req_ntp r) (batch_identity_from (header b)) b opts in
     o = Produced (request_enqueued st)
           (partition_append (ntp_partition (req_ntp r)) b (batch_record_count b) (replicate_finished st))).
Proof. apply do_produce_effect. Qed.

Lemma produce_appends_once_witness :
  exists s' o, run (example_env (Replicated 9)) initial_state example_request = Ok (s', Finished o) /\
    appended s' = [(req_ntp example_request, example_batch)].
Proof.
  eexists _, _. split; [vm_compute; reflexivity|].
  edestruct (produce_appends_once sum_extend u0 mark_uncompress 1 1000 (example_env (Replicated 9))
    initial_state example_request) as (o & Ho & [[H _]|(b & opts & sh & H & _)]);
    [vm_compute; reflexivity|vm_compute in H; discriminate|]. vm_compute. reflexivity.
Defined.

(** The offset reported for a batch is that of its first record: with n records
    replicated up to [last], the base offset is [last - (n - 1)], and the reported
    timestamp is the broker's only under [append_time]. *)
Theorem base_offset_of_first_record id b last :
  is_s 64 last -> 1 <= batch_record_count b <= int32_max -> int64_min + int32_max <= last ->
  let p := partition_append id b (batch_record_count b) (Replicated last) in
  pr_error p = error_code.none /\ pr_base_offset p = Some (last - batch_record_count b + 1) /\
  pr_log_append_time_ms p = Some (match record_batch_attributes.get_timestamp_type (attrs (header b)) with
    | create_time => missing_timestamp | append_time => max_timestamp (header b) end).
Proof.
  intros Hl Hn Hm. cbn. split; [done|]. split; [|done]. f_equal.
  rewrite (swrap_id 32), swrap_id by ranges. lia.
Qed.

Lemma base_offset_of_first_record_witness :
  pr_base_offset (partition_append 0 example_batch 2 (Replicated 9)) = Some 8.
Proof.
  apply (base_offset_of_first_record 0 example_batch 9); concrete.
Defined.

(** A compressed batch brings the broker down: if it passes validation, the duplicate
    check asks for its records, and iterating over a compressed batch fails an
    assertion. *)
Theorem compressed_batch_crashes crc_extend uninit uncompress a timeout e s r b' :
  compressed (req_batch r) = true ->
  validate_batch (req_args r) (now e) crc_extend uninit uncompress (batch_validation e) (req_batch r)
    = Ok (None, b') ->
  do_produce_topic_partition crc_extend uninit uncompress a timeout e s r = Crash.
Proof.
  intros Hc V. assert (Hv : validate_phase crc_extend uninit uncompress e r = Ok (Dedup (set_req_batch r b')))
    by (unfold validate_phase; by rewrite V).
  unfold do_produce_topic_partition. cbn [task_step]. rewrite Hv. cbn [mbind res_bind task_step].
  apply validate_phase_batch in Hv as (b & [= <-] & _ & Hb). unfold dedup_phase.
  cbn [req_batch set_req_batch]. unfold copy_records, for_each_record, copy_iterator_create.
  by rewrite Hb, Hc.
Qed.

Definition example_compressed : record_batch :=
  match compress_batch sum_extend mark_compress lz4 example_batch with Ok b => b | _ => example_batch end.

Lemma compressed_batch_crashes_witness :
  run (example_env (Replicated 9)) initial_state (set_req_batch example_request example_compressed) = Crash.
Proof.
  eapply (compressed_batch_crashes sum_extend u0 mark_uncompress 1 1000); vm_compute; reflexivity.
Defined.

(** The size check compares with five times the configured limit, as long as the
    product fits 32 bits. *)
Theorem size_limit_is_five_times size max :
  0 <= size <= int32_max -> 0 <= max -> 5 * max < 2 ^ 32 ->
  batch_too_large size max = bool_decide (size > 5 * max).
Proof.
  intros Hs Hm Hf. unfold batch_too_large, custom_max_batch_bytes.
  rewrite (uwrap_id 64), !(uwrap_id 32) by ranges. rewrite Z.gtb_ltb.
  destruct (Z.ltb_spec (max * 5) size); symmetry; [apply bool_decide_eq_true|apply bool_decide_eq_false]; lia.
Qed.

Lemma size_limit_is_five_times_witness : batch_too_large 5242881 1048576 = true.
Proof. rewrite size_limit_is_five_times; [reflexivity|concrete|concrete|concrete]. Defined.

(** A configured limit for which five times the value does not fit 32 bits wraps: a
    limit of 858993460 bytes rejects every batch of more than 4 bytes. *)
Theorem size_limit_wraps size :
  4 < size <= int32_max -> batch_too_large size 858993460 = true.
Proof.
  intros Hs. unfold batch_too_large, custom_max_batch_bytes.
  change (u32 (u64 (858993460 * 5))) with 4. rewrite uwrap_id by ranges.
  rewrite Z.gtb_ltb. apply Z.ltb_lt. lia.
Qed.

Lemma size_limit_wraps_witness : batch_too_large 62 858993460 = true.
Proof. apply size_limit_wraps. concrete. Defined.

(** ** Routing *)

(** The tasks made for a sequence of batches, in order. *)
Fixpoint route_all (e : env) (cfg : topic_configuration_context) (s : shard_state)
    (ms : list (topic_name * record_batch)) : shard_state * list task :=
  match ms with
  | [] => (s, [])
  | (t, b) :: ms =>
      let '(s, k) := make_task e s t b cfg in
      let '(s, ks) := route_all e cfg s ms in (s, k :: ks)
  end.

Lemma route_all_nth e cfg s ms i k :
  0 <= message_counter s -> message_counter s + blen ms < 2 ^ 31 ->
  (route_all e cfg s ms).2 !! i = Some k ->
  exists r t b, k = Validate r /\ ms !! i = Some (t, b) /\ req_batch r = b /\
    req_ntp r = {| ntp_topic := t; ntp_partition := dynamic_partition (message_counter s + Z.of_nat i + 1) |}.
Proof.
  revert s i. induction ms as [|[t b] ms IH]; intros s i H0 Hm; cbn [route_all]; [done|].
  rewrite blen_cons in Hm. pose proof (blen_nonneg ms).
  unfold make_task. rewrite swrap_id by ranges.
  set (s1 := {| seen_keys := _ |}). specialize (IH s1). cbn [message_counter s1] in IH.
  destruct (route_all e cfg s1 ms) as [s2 ks]. cbn [snd]. destruct i as [|i].
  - intros [= <-]. eexists _, t, b. split_and!; [done..|]. cbn. do 2 f_equal. lia.
  - intros Hi. destruct (IH i ltac:(lia) ltac:(lia) Hi) as (r & t' & b' & -> & Hms & Hb & Hr).
    exists r, t', b'. split_and!; [done..|]. rewrite Hr. do 2 f_equal. lia.
Qed.

(** Routing ignores the partition a client asks for: on a shard that has handled no
    message yet, the first fifty batches go to partition 0, the next fifty to
    partition 1 and all later ones to partition 2, whatever topic they are for. *)
Theorem messages_routed_by_count e cfg ms i t b k :
  blen ms < 2 ^ 31 -> ms !! i = Some (t, b) ->
  (route_all e cfg initial_state ms).2 !! i = Some k ->
  exists r, k = Validate r /\ ntp_topic (req_ntp r) = t /\ req_batch r = b /\
    ntp_partition (req_ntp r) = if (i <? 50)%nat then 0 else if (i <? 100)%nat then 1 else 2.
Proof.
  intros Hm Hi Hk. apply route_all_nth in Hk as (r & t' & b' & -> & Hi' & Hb & Hr); [|done|done].
  rewrite Hi in Hi'. injection Hi' as <- <-. exists r. rewrite Hr. split_and!; [done..|].
  cbn [ntp_partition initial_state message_counter]. unfold dynamic_partition. rewrite !Z.gtb_ltb.
  repeat match goal with
  | |- context [(?x <? ?y)%nat] => destruct (Nat.ltb_spec x y)
  | |- context [?x <? ?y] => destruct (Z.ltb_spec x y)
  | |- context [?x <=? ?y] => destruct (Z.leb_spec x y)
  end; cbn; lia.
Qed.

Lemma messages_routed_by_count_witness :
  exists r, (route_all (example_env Broken) example_cfg initial_state
      (repeat (example_topic, example_batch) 120)).2 !! 70%nat = Some (Validate r) /\
    ntp_partition (req_ntp r) = 1.
Proof.
  eexists. split; [vm_compute; reflexivity|].
  edestruct (messages_routed_by_count (example_env Broken) example_cfg
    (repeat (example_topic, example_batch) 120) 70 example_topic example_batch)
    as (r & E & _ & _ & H); [concrete|reflexivity|vm_compute; reflexivity|].
  injection E as <-. exact H.
Defined.

(** ** Responses *)

(** A topic and the number of partitions asked for, or answered. *)
Definition asked (t : topic_produce_data) : topic_name * nat := (topic t, length (partitions t)).
Definition answered (t : topic_response) : topic_name * nat := (tr_name t, length (tr_partitions t)).

Lemma answered_errors e (ts : list topic_produce_data) : answered <$> (error_topic e <$> ts) = asked <$> ts.
Proof.
  rewrite <- list_fmap_compose. apply list_fmap_ext. intros i t _. unfold answered, asked. cbn.
  by rewrite length_fmap.
Qed.

Section responses.
Context (crc_extend : Z -> bytes -> Z) (uninit : nat -> byte).
Context (uncompress : compression_type -> list bytes -> res (list bytes)) (a timeout : Z).

Lemma collect_length os ps : collect os = inl ps -> length ps = length os.
Proof.
  revert ps. induction os as [|[d p|x] os IH]; intros ps E; cbn in E; [by simplify_eq| |done].
  destruct (collect os); [|done]. injection E as <-. cbn. by rewrite (IH _ eq_refl).
Qed.

Lemma produce_partitions_length e s t cfg ps s' os :
  produce_partitions crc_extend uninit uncompress a timeout e s t cfg ps = Ok (s', os) ->
  length os = length ps.
Proof.
  revert s s' os. induction ps as [|p ps IH]; intros s s' os E; cbn [produce_partitions] in E.
  - by injection E as <- <-.
  - apply res_bind_Ok in E as ([s1 o] & _ & E). apply res_bind_Ok in E as ([s2 os'] & E & [= <- <-]).
    cbn. by rewrite (IH _ _ _ E).
Qed.

Lemma produce_topic_answers e s t s' st r :
  produce_topic crc_extend uninit uncompress a timeout e s t = Ok (s', st) ->
  t_produced st = inl r -> answered r = asked t.
Proof.
  unfold produce_topic. destruct (produce_restricted e (topic t)); [|destruct (topic_metadata e (topic t))].
  - intros [= <- <-] [= <-]. unfold answered, asked. cbn. by rewrite length_fmap.
  - intros ([s1 os] & Ep & [= <- <-])%res_bind_Ok. cbn.
    destruct (collect os) as [ps|] eqn:Ec; [|done]. intros [= <-]. unfold answered, asked. cbn.
    apply collect_length in Ec. apply produce_partitions_length in Ep. congruence.
  - intros [= <- <-] [= <-]. unfold answered, asked. cbn. by rewrite length_fmap.
Qed.

Lemma produce_topics_answer e s ts s' sts rs :
  produce_topics crc_extend uninit uncompress a timeout e s ts = Ok (s', sts) ->
  collect_topics sts = inl rs -> answered <$> rs = asked <$> ts.
Proof.
  revert s s' sts rs. induction ts as [|t ts IH]; intros s s' sts rs E Ec; cbn [produce_topics] in E.
  - injection E as <- <-. by injection Ec as <-.
  - apply res_bind_Ok in E as ([s1 st] & E1 & E). apply res_bind_Ok in E as ([s2 sts'] & E2 & [= <- <-]).
    cbn in Ec. destruct (t_produced st) as [r|] eqn:Er; [|done].
    destruct (collect_topics sts') as [rs'|] eqn:Ers; [|done]. injection Ec as <-.
    rewrite !fmap_cons, (produce_topic_answers _ _ _ _ _ _ E1 Er). by rewrite (IH _ _ _ _ E2 Ers).
Qed.
End responses.

(** A response answers exactly what was asked: every topic of the request appears once,
    with as many partition entries as the request had, whether it was refused by
    authorization, rejected for a migration or dispatched. *)
Theorem response_is_complete crc_extend uninit uncompress std_partition e s req s' noop r
    (HP : PartitionLaws std_partition) :
  handle crc_extend uninit uncompress std_partition e s req = Ok (s', Respond noop r) ->
  answered <$> responses r ≡ₚ asked <$> topics req.
Proof.
  unfold handle. assert (Hall : forall ec ts, answered <$> responses (make_error_response
    {| transactional_id := transactional_id req; acks := acks req; timeout_ms := timeout_ms req;
       topics := ts |} ec) = asked <$> ts) by (intros; apply answered_errors).
  destruct (recovery_mode_enabled e); [intros [= _ _ <-]; by rewrite <- (Hall error_code.policy_violation)|].
  destruct (should_reject_writes e).
  { intros [= _ _ <-]. unfold make_full_disk_response. by rewrite <- (Hall (if api_version e >=? 4
      then error_code.kafka_storage_error else error_code.broker_not_available)). }
  destruct (request_error e req) as [ec|]; [intros [= _ _ <-]; by rewrite <- (Hall ec)|].
  pose proof (partition_perm (fun t => authorized_topic e (topic t)) (topics req)) as P1.
  destruct (std_partition _ (topics req)) as [ts1 un]. cbn [fst snd] in P1.
  destruct (negb (audit e)); [intros [= _ _ <-]; by rewrite Hall, P1|].
  unfold reject_topics.
  pose proof (partition_perm (fun t => negb (should_reject_topic_writes e (topic t))) ts1) as P2.
  destruct (std_partition _ ts1) as [ts2 mig]. cbn [fst snd] in P2.
  pose proof (partition_perm (fun t => is_topic_mutable e (topic t)) ts2) as P3.
  destruct (std_partition _ ts2) as [ts3 lnk]. cbn [fst snd] in P3.
  intros ([s1 sts] & Ep & E)%res_bind_Ok. unfold respond in E.
  destruct (forallb _ sts); [|done]. destruct (collect_topics sts) as [rs|] eqn:Ec; [|done].
  pose proof (produce_topics_answer _ _ _ _ _ _ _ _ _ _ _ Ep Ec) as Hrs.
  assert (Hr : responses r = ([] ++ (error_topic error_code.topic_authorization_failed <$> un)
    ++ (error_topic error_code.invalid_topic_exception <$> mig)
    ++ (error_topic error_code.policy_violation <$> lnk)) ++ rs).
  { destruct (negb (acks req =? 0)); [|destruct (negb (has_error _)); [|done]];
      injection E as _ _ <-; cbn [responses fill_response_with_errors]; by rewrite <- ?app_assoc. }
  rewrite Hr. rewrite !fmap_app, !answered_errors, Hrs, <- P1, <- P2, <- P3, !fmap_app.
  rewrite app_nil_l, <- !app_assoc. clear. solve_Permutation.
Qed.

(** A stable [std::partition]. *)
Definition stable_partition (f : topic_produce_data -> bool) (l : list topic_produce_data) :=
  (base.filter (fun t => f t = true) l, base.filter (fun t => f t <> true) l).

#[global] Instance stable_partition_laws : PartitionLaws stable_partition.
Proof.
  split; intros f l.
  - apply Forall_forall. intros t Ht. by apply list_elem_of_filter in Ht as [? _].
  - apply Forall_forall. intros t Ht. apply list_elem_of_filter in Ht as [Ht _]. by destruct (f t).
  - unfold stable_partition in *. cbn [fst snd]. apply filter_app_complement.
Qed.

(** Three topics: one unauthorized, one unknown, one written to. *)
Definition example_produce (a : Z) : produce_request := {|
  transactional_id := None; acks := a; timeout_ms := 1000;
  topics := (fun t => {| topic := t; partitions := [{| partition_index := 4; part_records :=
      Some {| v2_format := true; valid_crc := true; legacy_error := false; short_read := false; batch := Some example_batch |} |}] |})
    <$> ["secret"; "nowhere"; example_topic] |}.

Lemma response_is_complete_witness :
  exists s' r, handle sum_extend u0 mark_uncompress stable_partition (example_env (Replicated 9))
      initial_state (example_produce 1) = Ok (s', Respond false r) /\
    answered <$> responses r ≡ₚ asked <$> topics (example_produce 1).
Proof.
  eexists _, _. split; [vm_compute; reflexivity|].
  eapply (response_is_complete sum_extend u0 mark_uncompress stable_partition
    (example_env (Replicated 9)) initial_state (example_produce 1)); [exact _|vm_compute; reflexivity].
Defined.

(** ** What reaches the log *)

(** The topics the handler may write to. *)
Definition writable (e : env) (t : topic_name) : Prop :=
  authorized_topic e t = true /\ should_reject_topic_writes e t = false /\ is_topic_mutable e t = true /\
  produce_restricted e t = false /\ topic_metadata e t <> None.

(** The log grew by batches for topics that satisfy [P]. *)
Definition grows (P : topic_name -> Prop) (s s' : shard_state) : Prop :=
  exists new, appended s' = appended s ++ new /\ Forall (fun x => P (ntp_topic x.1)) new.

#[global] Instance grows_preorder P : PreOrder (grows P).
Proof.
  split.
  - intros s. exists []. by rewrite app_nil_r.
  - intros s1 s2 s3 (n1 & E1 & H1) (n2 & E2 & H2). exists (n1 ++ n2).
    rewrite E2, E1, app_assoc. split; [done|]. by apply Forall_app.
Qed.

Section growth.
Context (crc_extend : Z -> bytes -> Z) (uninit : nat -> byte).
Context (uncompress : compression_type -> list bytes -> res (list bytes)) (a timeout : Z).

Lemma produce_partitions_grows (P : topic_name -> Prop) e s t cfg ps s' os :
  P t -> produce_partitions crc_extend uninit uncompress a timeout e s t cfg ps = Ok (s', os) ->
  grows P s s'.
Proof.
  intros Ht. revert s s' os. induction ps as [|p ps IH]; intros s s' os E; cbn [produce_partitions] in E.
  - injection E as <- <-. reflexivity.
  - apply res_bind_Ok in E as ([s1 o] & E1 & E). apply res_bind_Ok in E as ([s2 os'] & E2 & [= <- <-]).
    transitivity s1; [|by eapply IH]. destruct (partition_check e t p); [|by injection E1 as <- <-].
    unfold produce_topic_partition, make_task in E1. apply res_bind_Ok in E1 as ([s3 k] & E1 & [= <- <-]).
    apply do_produce_effect in E1 as (o' & _ & [[H _]|(b & opts & sh & H & _)]).
    + exists []. rewrite app_nil_r. by rewrite H.
    + eexists. rewrite H. split; [reflexivity|]. by repeat constructor.
Qed.

Lemma produce_topics_grow e s ts s' sts :
  produce_topics crc_extend uninit uncompress a timeout e s ts = Ok (s', sts) ->
  grows (fun t => t ∈ topic <$> ts /\ produce_restricted e t = false /\ topic_metadata e t <> None) s s'.
Proof.
  intros E. set (P := fun _ => _). assert (Hsub : forall t, t ∈ ts -> t ∈ ts) by done.
  revert E Hsub. generalize ts at 1 2 as l. intros l. revert s sts.
  induction l as [|t l IH]; intros s sts E Hsub; cbn [produce_topics] in E.
  - by injection E as <- <-.
  - apply res_bind_Ok in E as ([s1 st] & E1 & E). apply res_bind_Ok in E as ([s2 sts'] & E2 & [= <- <-]).
    transitivity s1; [|eapply IH; [done|set_solver]]. unfold produce_topic in E1.
    destruct (produce_restricted e (topic t)) eqn:Hr; [by injection E1 as <- <-|].
    destruct (topic_metadata e (topic t)) eqn:Hm; [|by injection E1 as <- <-].
    apply res_bind_Ok in E1 as ([s3 os] & E1 & [= <- <-]). eapply produce_partitions_grows, E1.
    unfold P. rewrite Hm. split; [|done]. apply list_elem_of_fmap_2, Hsub. by left.
Qed.
End growth.

(** A batch reaches replication only for a topic the client may write to: authorized,
    not blocked by a migration, mutable, not one of the reserved topics, and known. *)
Theorem writes_are_authorized crc_extend uninit uncompress std_partition e s req s' h
    (HP : PartitionLaws std_partition) :
  handle crc_extend uninit uncompress std_partition e s req = Ok (s', h) ->
  exists new, appended s' = appended s ++ new /\
    Forall (fun x => writable e (ntp_topic x.1) /\ ntp_topic x.1 ∈ topic <$> topics req) new.
Proof.
  intros E. change (grows (fun t => writable e t /\ t ∈ topic <$> topics req) s s'). revert E. unfold handle.
  destruct (recovery_mode_enabled e); [by intros [= <- <-]|].
  destruct (should_reject_writes e); [by intros [= <- <-]|].
  destruct (request_error e req); [by intros [= <- <-]|]. unfold reject_topics.
  pose proof (partition_yes (fun t => authorized_topic e (topic t)) (topics req)) as Y1.
  pose proof (partition_perm (fun t => authorized_topic e (topic t)) (topics req)) as P1.
  destruct (std_partition _ (topics req)) as [ts1 un]. cbn [fst snd] in Y1, P1.
  destruct (negb (audit e)); [by intros [= <- <-]|].
  pose proof (partition_yes (fun t => negb (should_reject_topic_writes e (topic t))) ts1) as Y2.
  pose proof (partition_perm (fun t => negb (should_reject_topic_writes e (topic t))) ts1) as P2.
  destruct (std_partition _ ts1) as [ts2 mig]. cbn [fst snd] in Y2, P2.
  pose proof (partition_yes (fun t => is_topic_mutable e (topic t)) ts2) as Y3.
  pose proof (partition_perm (fun t => is_topic_mutable e (topic t)) ts2) as P3.
  destruct (std_partition _ ts2) as [ts3 lnk]. cbn [fst snd] in Y3, P3.
  intros ([s1 sts] & (new & En & Hn)%produce_topics_grow & [= <- _])%res_bind_Ok.
  exists new. split; [done|]. eapply Forall_impl; [exact Hn|]. cbn.
  intros [n b] (Hin & Hr & Hm). cbn in *. apply list_elem_of_fmap in Hin as (t & Et & H3).
  assert (H2 : t ∈ ts2) by (rewrite <- P3; set_solver).
  assert (H1 : t ∈ ts1) by (rewrite <- P2; set_solver).
  assert (H0 : t ∈ topics req) by (rewrite <- P1; set_solver).
  rewrite Forall_forall in Y1, Y2, Y3. unfold writable. rewrite Et in *.
  split; [|by apply list_elem_of_fmap_2].
  split_and!; [by apply Y1|by apply negb_true_iff, Y2|by apply Y3|done|done].
Qed.

Lemma writes_are_authorized_witness :
  exists s' h, handle sum_extend u0 mark_uncompress stable_partition (example_env (Replicated 9))
      initial_state (example_produce 1) = Ok (s', h) /\
    map (fun x => ntp_topic x.1) (appended s') = [example_topic] /\
    exists new, appended s' = [] ++ new /\
      Forall (fun x => writable (example_env (Replicated 9)) (ntp_topic x.1) /\
                       ntp_topic x.1 ∈ topic <$> topics (example_produce 1)) new.
Proof.
  eexists _, _. split; [vm_compute; reflexivity|]. split; [vm_compute; reflexivity|].
  eapply (writes_are_authorized sum_extend u0 mark_uncompress stable_partition
    (example_env (Replicated 9)) initial_state (example_produce 1)); [exact _|vm_compute; reflexivity].
Defined.

(** A response is withheld only from a producer that asked for none, and only if every
    partition succeeded; such a producer learns of an error by losing its connection. *)
Theorem silent_only_on_success crc_extend uninit uncompress std_partition e s req s' r :
  handle crc_extend uninit uncompress std_partition e s req = Ok (s', Respond true r) ->
  acks req = 0 /\
  forall t p, t ∈ responses r -> p ∈ tr_partitions t -> pr_error p = error_code.none.
Proof.
  unfold handle. destruct (recovery_mode_enabled e); [done|]. destruct (should_reject_writes e); [done|].
  destruct (request_error e req); [done|]. unfold reject_topics.
  repeat (destruct (std_partition _ _) as [? ?]). destruct (negb (audit e)); [done|].
  intros ([s1 sts] & _ & E)%res_bind_Ok. injection E as _ E. unfold respond in E.
  destruct (forallb _ sts); [|done]. destruct (collect_topics sts); [|done].
  destruct (Z.eqb_spec (acks req) 0) as [Ha|]; cbn [negb] in E; [|done].
  destruct (has_error _) eqn:He; cbn [negb] in E; [done|]. injection E as <-. split; [done|].
  intros t p Ht Hp. apply dec_stable. intros Hne. apply not_true_iff_false in He. apply He.
  unfold has_error. apply existsb_exists. exists t. split; [by apply list_elem_of_In|].
  apply existsb_exists. exists p. split; [by apply list_elem_of_In|]. by apply bool_decide_eq_true.
Qed.

Definition example_silent : produce_request := {|
  transactional_id := None; acks := 0; timeout_ms := 1000;
  topics := drop 2 (topics (example_produce 0)) |}.

Lemma silent_only_on_success_witness :
  exists s' r, handle sum_extend u0 mark_uncompress stable_partition (example_env (Replicated 9))
      initial_state example_silent = Ok (s', Respond true r) /\
    length (appended s') = 1%nat /\
    forall t p, t ∈ responses r -> p ∈ tr_partitions t -> pr_error p = error_code.none.
Proof.
  eexists _, _. split; [vm_compute; reflexivity|]. split; [vm_compute; reflexivity|].
  eapply (silent_only_on_success sum_extend u0 mark_uncompress stable_partition
    (example_env (Replicated 9)) initial_state example_silent); vm_compute; reflexivity.
Defined.
