(* ===== verification/OffsetTranslator.v ===== *)
(** * Offset translation (storage/offset_translator_state.{h,cc})

    A partition's log holds batches that clients never see.  Clients count offsets
    without them, so the broker translates between log offsets and data (Kafka)
    offsets.  The state is an ordered map from the last offset of each hidden batch
    (a "gap") to its first offset and to the difference between log and data offsets
    after it; the first entry stands for everything before the start of the log.

    The [absl::btree_map] is an association list in ascending key order, and an
    iterator the split of that list into what lies before it and what it and the
    rest of the map hold: [lower_bound] and [upper_bound] return that pair.

    The specification is in terms of the log: [gaps] are the hidden offsets, the
    delta at an offset is the number of them below it, and data offsets number the
    others. *)

From S2P Require Import Prelude.

(** ** model::offset (model/fundamental.h) *)

Definition next_offset (o : Z) : Z :=
  if o <? 0 then 0 else if o =? int64_max then int64_max else s64 (o + 1).
Definition prev_offset (o : Z) : Z := if o <=? 0 then int64_min else s64 (o - 1).

Module offset_translator_state.

Record batch_info := {
  base_offset : Z;
  next_delta : Z;
}.

Abbreviation batches_map := (list (Z * batch_info)).

(** ** The ordered map *)

Fixpoint lower_bound (o : Z) (m : batches_map) : batches_map * batches_map :=
  match m with
  | [] => ([], [])
  | e :: m' => if e.1 <? o then let '(a, b) := lower_bound o m' in (e :: a, b) else ([], m)
  end.

Fixpoint upper_bound (o : Z) (m : batches_map) : batches_map * batches_map :=
  match m with
  | [] => ([], [])
  | e :: m' => if e.1 <=? o then let '(a, b) := upper_bound o m' in (e :: a, b) else ([], m)
  end.

Fixpoint find (o : Z) (m : batches_map) : option batch_info :=
  match m with
  | [] => None
  | e :: m => if e.1 =? o then Some e.2 else find o m
  end.

(** [emplace] leaves a key that is present alone. *)
Fixpoint emplace (o : Z) (b : batch_info) (m : batches_map) : batches_map :=
  match m with
  | [] => [(o, b)]
  | e :: m' =>
      if o <? e.1 then (o, b) :: m
      else if o =? e.1 then m
      else e :: emplace o b m'
  end.

(** ** Queries *)

(** The constructor with a base delta. *)
Definition make (base_offset base_delta : Z) : batches_map :=
  [(base_offset, {| base_offset := base_offset; next_delta := base_delta |})].

Definition delta (st : batches_map) (o : Z) : res Z :=
  match st with
  | [] => Ok 0
  | _ =>
      let '(before, it) := lower_bound o st in
      match last before with
      | None => Throw runtime_error
      | Some (_, prev) =>
          let delta := next_delta prev in
          match it with
          | [] => Ok delta
          | (_, b) :: _ =>
              if o <? base_offset b then Ok delta
              else Ok (s64 (delta + s64 (o - base_offset b)))
          end
      end
  end.

Definition next_offset_delta (st : batches_map) (o : Z) : res Z := delta st (next_offset o).

Definition from_log_offset (st : batches_map) (o : Z) : res Z :=
  d ← delta st o; Ok (s64 (o - d)).

(** The loop over the intervals of constant delta. *)
Fixpoint to_log_loop (data_offset delta : Z) (it : batches_map) : Z :=
  match it with
  | [] => delta
  | (_, b) :: it =>
      if s64 (prev_offset (base_offset b) - delta) >=? data_offset then delta
      else to_log_loop data_offset (next_delta b) it
  end.

Definition to_log_offset (st : batches_map) (data_offset hint : Z) : res Z :=
  match st with
  | [] => Ok data_offset
  | (first, b) :: _ =>
      if data_offset =? int64_max then Ok data_offset
      else
        let min_log_offset := next_offset first in
        let min_data_offset := s64 (min_log_offset - next_delta b) in
        if data_offset <? min_data_offset then Throw runtime_error
        else
          let search_start := Z.max (Z.max hint data_offset) min_log_offset in
          let '(before, it) := lower_bound search_start st in
          match last before with
          | None => Crash
          | Some (_, prev) => Ok (s64 (data_offset + to_log_loop data_offset (next_delta prev) it))
          end
  end.

Definition last_delta (st : batches_map) : res Z :=
  match last st with Some (_, b) => Ok (next_delta b) | None => Crash end.
Definition last_gap_offset (st : batches_map) : res Z :=
  match last st with Some (o, _) => Ok o | None => Crash end.

(** ** Updates *)

Definition add_gap (st : batches_map) (base last_offset : Z) : res batches_map :=
  match st, last st with
  | (first, _) :: _, Some (rkey, rbatch) =>
      if last_offset <? first then Ok st
      else
        let length := s64 (s64 (last_offset - base) + 1) in
        let next_delta := s64 (next_delta rbatch + length) in
        if base <=? rkey then
          match find last_offset st with
          | Some b => if base_offset b =? base then Ok st else Throw runtime_error
          | None => Throw runtime_error
          end
        else Ok (emplace last_offset {| base_offset := base; next_delta := next_delta |} st)
  | _, _ => Crash
  end.

Definition add_absolute_delta (st : batches_map) (offset delta : Z) : res (bool * batches_map) :=
  if negb (delta <=? offset) then Crash
  else
    let gap_end := prev_offset offset in
    let '(before, _) := upper_bound gap_end st in
    '(gap_length, gap_begin) ←
      match last before with
      | None => Ok (delta, s64 (offset - delta))
      | Some (_, back) =>
          let gap_length := s64 (delta - next_delta back) in
          if gap_length <? 0 then Throw runtime_error
          else Ok (gap_length, s64 (offset - gap_length))
      end;
    if (gap_length >? 0) || (match before with [] => true | _ => false end)
    then Ok (true, emplace gap_end {| base_offset := gap_begin; next_delta := delta |} before)
    else Ok (false, before).

Definition reset : batches_map := [].

Definition truncate (st : batches_map) (offset : Z) : res (bool * batches_map) :=
  match st with
  | [] => Crash
  | _ =>
      let '(before, it) := lower_bound offset st in
      match before, it with
      | [], _ => Throw runtime_error
      | _, [] => Ok (false, st)
      | _, (_, b) :: _ =>
          if offset >? base_offset b then Throw runtime_error else Ok (true, before)
      end
  end.

Definition prefix_truncate (st : batches_map) (offset : Z) : res (bool * batches_map) :=
  match st with
  | [] => Crash
  | _ =>
      let '(before, it) := upper_bound offset st in
      _ ← throw_if (match it with
                    | [] => false | (_, b) :: _ => offset >=? base_offset b end) runtime_error;
      match before, last before with
      | [], _ | _, None => Ok (false, st)
      | e :: rest, Some (_, prev) =>
          if (match rest with [] => true | _ => false end) && (e.1 =? offset) then Ok (false, st)
          else Ok (true, emplace offset {| base_offset := offset; next_delta := next_delta prev |} it)
      end
  end.

(** ** Persistence *)

Record persisted_batch := { p_base_offset : Z; p_length : Z }.
Record persisted_batches_map := { start_delta : Z; batches : list persisted_batch }.

(** [serialize_map], up to the envelope the structure is written in. *)
Definition serialize_map (st : batches_map) : res persisted_batches_map :=
  match st with
  | [] => Crash
  | (_, b) :: _ =>
      Ok {| start_delta := next_delta b;
            batches := (fun '(o, b) =>
              {| p_base_offset := base_offset b;
                 p_length := s32 (s32 (s64 (o - base_offset b)) + 1) |}) <$> st |}
  end.

(** The loop of [from_serialized_map] after the first batch. *)
Fixpoint load_batches (cur_delta prev_last_offset : Z) (ps : list persisted_batch)
    (m : batches_map) : res batches_map :=
  match ps with
  | [] => Ok m
  | b :: ps =>
      if p_base_offset b <=? prev_last_offset then Throw runtime_error
      else
        let cur_delta := s64 (cur_delta + p_length b) in
        let last_offset := s64 (p_base_offset b + s32 (p_length b - 1)) in
        load_batches cur_delta last_offset ps
          (emplace last_offset {| base_offset := p_base_offset b; next_delta := cur_delta |} m)
  end.

Definition from_serialized_map (p : persisted_batches_map) : res batches_map :=
  match batches p with
  | [] => Throw runtime_error
  | b :: ps =>
      let last_offset := s64 (p_base_offset b + s32 (p_length b - 1)) in
      load_batches (start_delta p) last_offset ps
        [(last_offset, {| base_offset := p_base_offset b; next_delta := start_delta p |})]
  end.

Definition from_bootstrap_state (offset2delta : list (Z * Z)) : batches_map :=
  foldl (fun m '(o, d) => emplace o {| base_offset := o; next_delta := d |} m) [] offset2delta.

(** ** The log behind a translator *)

(** The entries after the first, each a gap: they are disjoint, in order and not
    empty, and the deltas add up. *)
Fixpoint chain (k d : Z) (m : batches_map) : Prop :=
  match m with
  | [] => True
  | (k', b) :: m =>
      Z.max k (-1) < base_offset b <= k' /\ k' < int64_max /\
      next_delta b = d + (k' - base_offset b + 1) /\ chain k' (next_delta b) m
  end.

Definition wf (st : batches_map) : Prop :=
  match st with
  | [] => True
  | (k, b) :: m =>
      int64_min <= k < int64_max /\ 0 <= next_delta b <= Z.max k (-1) + 1 /\
      chain k (next_delta b) m
  end.

(** The hidden offsets of the log. *)
Definition gap_of (e : Z * batch_info) : list Z := seqZ (base_offset e.2) (e.1 - base_offset e.2 + 1).
Definition gaps (st : batches_map) : list Z := concat (gap_of <$> tail st).

(** How many of them are below an offset. *)
Definition below (o : Z) (l : list Z) : Z := blen (base.filter (fun x => x < o) l).

(** Where the log starts, and the delta there. *)
Definition start (st : batches_map) : Z := match st with [] => int64_min | (k, _) :: _ => k end.
Definition start_offset_delta (st : batches_map) : Z :=
  match st with [] => 0 | (_, b) :: _ => next_delta b end.

(** The walk over the entries that the queries amount to. *)
Fixpoint walk (d : Z) (m : batches_map) (o : Z) : Z :=
  match m with
  | [] => d
  | (k, b) :: m =>
      if k <? o then walk (next_delta b) m o
      else if o <? base_offset b then d else d + (o - base_offset b)
  end.

Lemma below_app o l1 l2 : below o (l1 ++ l2) = below o l1 + below o l2.
Proof. unfold below. by rewrite filter_app, blen_app. Qed.

Lemma below_seqZ o b n : 0 <= n -> below o (seqZ b n) = Z.max 0 (Z.min n (o - b)).
Proof.
  intros Hn. rewrite <- (Z2Nat.id n) by done. induction (Z.to_nat n) as [|i IH].
  - change (seqZ b (Z.of_nat 0)) with (@nil Z). unfold below, blen. cbn. lia.
  - rewrite seqZ_S, below_app, IH. unfold below. rewrite filter_cons, filter_nil.
    unfold blen. case_decide; cbn [length]; lia.
Qed.

Lemma chain_delta k d m : 0 <= d <= Z.max k (-1) + 1 -> chain k d m ->
  Forall (fun e => Z.max k (-1) < e.1 < int64_max /\ Z.max k (-1) < base_offset e.2 <= e.1 /\
                   d < next_delta e.2 <= e.1 + 1) m.
Proof.
  revert k d. induction m as [|[k' b] m IH]; intros k d Hd H; [constructor|].
  destruct H as (H1 & H2 & H3 & H4). constructor; [cbn; lia|].
  eapply Forall_impl; [apply (IH k' (next_delta b)); [lia|done]|].
  intros [k'' b'] H. cbn in *. lia.
Qed.

(** Below the entries of a chain there is nothing to count. *)
Lemma below_chain_low k d m o : chain k d m -> o <= Z.max k (-1) + 1 -> below o (concat (gap_of <$> m)) = 0.
Proof.
  revert k d. induction m as [|[k' b] m IH]; intros k d H Ho; [done|].
  destruct H as (H1 & H2 & H3 & H4). rewrite fmap_cons. cbn [concat]. rewrite below_app.
  rewrite (IH k' (next_delta b)) by (done || lia). unfold gap_of. cbn [fst snd].
  rewrite below_seqZ by lia. lia.
Qed.

(** The delta found by the walk is the count of hidden offsets. *)
Lemma walk_counts k d m o :
  chain k d m -> k < o -> walk d m o = d + below o (concat (gap_of <$> m)).
Proof.
  revert k d. induction m as [|[k' b] m IH]; intros k d H Ho.
  - unfold below, blen. cbn. lia.
  - destruct H as (H1 & H2 & H3 & H4). cbn [walk]. rewrite fmap_cons. cbn [concat].
    rewrite below_app. unfold gap_of at 1. cbn [fst snd]. rewrite below_seqZ by lia.
    destruct (Z.ltb_spec k' o) as [Hlt|Hge].
    + rewrite (IH k') by done. lia.
    + rewrite (below_chain_low k' (next_delta b)) by (done || lia).
      destruct (Z.ltb_spec o (base_offset b)); lia.
Qed.

(** *** Queries *)

Lemma chain_ranges k d m e : 0 <= d <= Z.max k (-1) + 1 -> chain k d m -> e ∈ m ->
  Z.max k (-1) < e.1 < int64_max /\ Z.max k (-1) < base_offset e.2 <= e.1 /\
  d < next_delta e.2 <= e.1 + 1.
Proof. intros Hd H He. pose proof (chain_delta k d m Hd H) as HF. rewrite Forall_forall in HF. by apply HF. Qed.

Lemma gap_above k d m x : 0 <= d <= Z.max k (-1) + 1 -> chain k d m ->
  x ∈ concat (gap_of <$> m) -> Z.max k (-1) < x.
Proof.
  intros Hd H Hin. apply list_elem_of_In, in_concat in Hin as (g & Hg & Hin).
  apply list_elem_of_In, list_elem_of_fmap in Hg as (e & -> & He).
  apply list_elem_of_In, elem_of_seqZ in Hin. pose proof (chain_ranges k d m e Hd H He). lia.
Qed.

(** The split of [lower_bound] leads to the entries the walk looks at. *)
Lemma lower_bound_walk k d m o e :
  0 <= d <= Z.max k (-1) + 1 -> chain k d m -> is_s 64 o -> next_delta e.2 = d ->
  let '(a, it) := lower_bound o m in
  exists key prev, last (e :: a) = Some (key, prev) /\
    match it with
    | [] => next_delta prev
    | (_, b) :: _ => if o <? base_offset b then next_delta prev
                     else s64 (next_delta prev + s64 (o - base_offset b))
    end = walk d m o.
Proof.
  revert k d e. induction m as [|[k' b] m IH]; intros k d e Hd H Ho He.
  - destruct e as [ke be]. cbn. eauto.
  - pose proof H as (H1 & H2 & H3 & H4). cbn [lower_bound walk fst].
    destruct (Z.ltb_spec k' o).
    + specialize (IH k' (next_delta b) (k', b) ltac:(lia) H4 Ho eq_refl).
      destruct (lower_bound o m) as [a it]. destruct IH as (key & prev & HL & HW).
      exists key, prev. split; [|exact HW]. rewrite <- HL. by destruct e.
    + destruct e as [ke be]. cbn in He |- *. exists ke, be. rewrite He. split; [done|].
      destruct (Z.ltb_spec o (base_offset b)); [done|].
      rewrite (swrap_id 64 (o - _)), swrap_id by ranges. lia.
Qed.

Lemma delta_walk k b m o :
  wf ((k, b) :: m) -> k < o -> is_s 64 o -> delta ((k, b) :: m) o = Ok (walk (next_delta b) m o).
Proof.
  intros (Hk & Hd & Hc) Hko Ho. unfold delta. cbn [lower_bound fst].
  destruct (Z.ltb_spec k o); [|lia].
  pose proof (lower_bound_walk k (next_delta b) m o (k, b) Hd Hc Ho eq_refl) as HW.
  destruct (lower_bound o m) as [a it]. destruct HW as (key & prev & -> & <-).
  destruct it as [|[k' b'] it]; [done|]. by destruct (o <? base_offset b').
Qed.

Lemma walk_bound k d m x : chain k d m -> k < x ->
  d <= walk d m x <= d + Z.max 0 (x - Z.max k (-1) - 1).
Proof.
  revert k d. induction m as [|[k' b] m IH]; intros k d H Hx; cbn [walk]; [lia|].
  destruct H as (H1 & H2 & H3 & H4). destruct (Z.ltb_spec k' x).
  - specialize (IH k' (next_delta b) H4 ltac:(lia)). lia.
  - destruct (Z.ltb_spec x (base_offset b)); lia.
Qed.

(** Between two offsets there are no more gaps than offsets. *)
Lemma walk_step k d m o o' :
  chain k d m -> k < o <= o' ->
  walk d m o <= walk d m o' <= walk d m o + (o' - o) /\
  (o ∉ concat (gap_of <$> m) -> o < o' -> walk d m o' < walk d m o + (o' - o)).
Proof.
  revert k d. induction m as [|[k' b] m IH]; intros k d H Ho; cbn [walk]; [lia|].
  destruct H as (H1 & H2 & H3 & H4). rewrite fmap_cons. cbn [concat].
  assert (Hin : o ∉ gap_of (k', b) ++ concat (gap_of <$> m) ->
    o ∉ concat (gap_of <$> m) /\ ~ (base_offset b <= o <= k')).
  { intros Hn. rewrite not_elem_of_app in Hn. destruct Hn as [Hn ?]. split; [done|].
    intros ?. apply Hn, elem_of_seqZ. cbn. lia. }
  destruct (Z.ltb_spec k' o).
  - destruct (Z.ltb_spec k' o'); [|lia]. destruct (IH k' _ H4 ltac:(lia)) as [IH1 IH2].
    split; [done|]. intros Hn. apply IH2. by apply Hin.
  - destruct (Z.ltb_spec k' o').
    + pose proof (walk_bound k' _ m o' H4 ltac:(lia)).
      destruct (Z.ltb_spec o (base_offset b)); (split; [lia|]); intros Hn; apply Hin in Hn; lia.
    + destruct (Z.ltb_spec o (base_offset b)), (Z.ltb_spec o' (base_offset b)); (split; [lia|]);
        intros Hn; apply Hin in Hn; lia.
Qed.

(** *** The way back *)

Lemma prev_offset_range b d k : 0 <= d <= Z.max k (-1) + 1 -> Z.max k (-1) < b < int64_max ->
  s64 (prev_offset b - d) < b - d /\ forall x, 0 <= x < b - d -> x <= s64 (prev_offset b - d).
Proof.
  intros Hd Hb. unfold prev_offset. destruct (Z.leb_spec b 0).
  - assert (b = 0) as -> by lia. assert (d = 0) as -> by lia. rewrite swrap_id by ranges.
    split; [ranges|lia].
  - rewrite (swrap_id 64 (b - 1)), swrap_id by ranges. split; [lia|]. intros; lia.
Qed.

(** The loop finds the delta of a data offset of the log. *)
Lemma to_log_loop_finds k d m o :
  0 <= d <= Z.max k (-1) + 1 -> chain k d m -> Z.max k (-1) < o ->
  o ∉ concat (gap_of <$> m) -> to_log_loop (o - walk d m o) d m = walk d m o.
Proof.
  revert k d. induction m as [|[k' b] m IH]; intros k d Hd H Ho Hn; [done|].
  pose proof H as (H1 & H2 & H3 & H4). cbn [to_log_loop walk].
  rewrite fmap_cons in Hn. cbn [concat] in Hn. rewrite not_elem_of_app in Hn. destruct Hn as [Hg Hn].
  assert (~ (base_offset b <= o <= k')) by (intros ?; apply Hg, elem_of_seqZ; cbn; lia).
  destruct (prev_offset_range (base_offset b) d k) as [P1 P2]; [lia|lia|].
  rewrite Z.geb_leb. destruct (Z.ltb_spec k' o).
  - destruct (Z.leb_spec (o - walk (next_delta b) m o) (s64 (prev_offset (base_offset b) - d))).
    + pose proof (walk_bound k' _ m o H4 ltac:(lia)). lia.
    + apply (IH k'); [lia|done|lia|done].
  - destruct (Z.ltb_spec o (base_offset b)); [|lia].
    destruct (Z.leb_spec (o - d) (s64 (prev_offset (base_offset b) - d))); [done|].
    specialize (P2 (o - d)). lia.
Qed.

(** It starts at any interval up to the one of the offset. *)
Lemma to_log_loop_from k d m o from e :
  0 <= d <= Z.max k (-1) + 1 -> chain k d m -> Z.max k (-1) < o -> from <= o ->
  o ∉ concat (gap_of <$> m) -> next_delta e.2 = d ->
  let '(a, it) := lower_bound from m in
  exists key prev, last (e :: a) = Some (key, prev) /\
    to_log_loop (o - walk d m o) (next_delta prev) it = walk d m o.
Proof.
  revert k d e. induction m as [|[k' b] m IH]; intros k d e Hd H Ho Hf Hn He.
  - destruct e as [ke be]. cbn. eauto.
  - pose proof H as (H1 & H2 & H3 & H4). cbn [lower_bound fst].
    destruct (Z.ltb_spec k' from).
    + rewrite fmap_cons in Hn. cbn [concat] in Hn. rewrite not_elem_of_app in Hn. destruct Hn as [_ Hn].
      specialize (IH k' (next_delta b) (k', b) ltac:(lia) H4 ltac:(lia) Hf Hn eq_refl).
      destruct (lower_bound from m) as [a it]. destruct IH as (key & prev & HL & HW).
      exists key, prev. cbn [walk]. destruct (Z.ltb_spec k' o); [|lia].
      split; [|exact HW]. rewrite <- HL. by destruct e.
    + destruct e as [ke be]. cbn in He. exists ke, be. split; [done|]. rewrite He.
      by apply (to_log_loop_finds k).
Qed.

(** Every data offset from the start on belongs to a data offset of the log. *)
Lemma to_log_loop_exists k d m x :
  0 <= d <= Z.max k (-1) + 1 -> chain k d m -> Z.max k (-1) + 1 - d <= x ->
  let o := x + to_log_loop x d m in
  Z.max k (-1) < o /\ o ∉ concat (gap_of <$> m) /\ walk d m o = to_log_loop x d m.
Proof.
  revert k d. induction m as [|[k' b] m IH]; intros k d Hd H Hx; cbn [to_log_loop walk].
  - split; [cbn; lia|]. split; [apply not_elem_of_nil|done].
  - pose proof H as (H1 & H2 & H3 & H4). rewrite fmap_cons. cbn [concat]. rewrite not_elem_of_app.
    destruct (prev_offset_range (base_offset b) d k) as [P1 P2]; [lia|lia|].
    rewrite Z.geb_leb. destruct (Z.leb_spec x (s64 (prev_offset (base_offset b) - d))).
    + destruct (Z.ltb_spec k' (x + d)); [lia|]. destruct (Z.ltb_spec (x + d) (base_offset b)); [|lia].
      split; [lia|]. split; [|done]. split.
      * unfold gap_of. cbn. rewrite elem_of_seqZ. lia.
      * intros Hin. pose proof (gap_above k' (next_delta b) m _ ltac:(lia) H4 Hin). lia.
    + assert (base_offset b - d <= x) by (specialize (P2 x); lia).
      destruct (IH k' (next_delta b) ltac:(lia) H4 ltac:(lia)) as (I1 & I2 & I3).
      destruct (Z.ltb_spec k' (x + to_log_loop x (next_delta b) m)); [|lia].
      split; [lia|]. split; [|done]. split; [|done]. unfold gap_of. cbn. rewrite elem_of_seqZ. lia.
Qed.

(** *** Splitting the map *)

(** The last entry of a map that starts with [e]. *)
Definition final (e : Z * batch_info) (m : batches_map) : Z * batch_info := foldl (fun _ x => x) e m.

Lemma last_final e m : last (e :: m) = Some (final e m).
Proof.
  revert e. induction m as [|e' m IH]; intros e; [done|].
  change (last (e :: e' :: m)) with (last (e' :: m)). by rewrite IH.
Qed.

Abbreviation chained e m := (chain e.1 (next_delta e.2) m).

Lemma chain_app e a it : chained e (a ++ it) <-> chained e a /\ chained (final e a) it.
Proof.
  revert e. induction a as [|[k b] a IH]; intros e; [cbn; tauto|].
  change (final e ((k, b) :: a)) with (final (k, b) a). cbn [app chain].
  specialize (IH (k, b)). cbn [fst snd] in IH. tauto.
Qed.

Definition gaps_in (m : batches_map) : list Z := concat (gap_of <$> m).

Lemma gaps_app a b : gaps_in (a ++ b) = gaps_in a ++ gaps_in b.
Proof. unfold gaps_in. by rewrite fmap_app, concat_app. Qed.

Lemma lower_bound_split o m :
  let '(a, it) := lower_bound o m in m = a ++ it /\ Forall (fun e => e.1 < o) a /\
  match it with [] => True | e :: _ => o <= e.1 end.
Proof.
  induction m as [|e m IH]; [done|]. cbn [lower_bound]. destruct (Z.ltb_spec e.1 o); [|done].
  destruct (lower_bound o m) as [a it]. destruct IH as (-> & HF & Hit). by split_and!; [|constructor|].
Qed.

Lemma upper_bound_split o m :
  let '(a, it) := upper_bound o m in m = a ++ it /\ Forall (fun e => e.1 <= o) a /\
  match it with [] => True | e :: _ => o < e.1 end.
Proof.
  induction m as [|e m IH]; [done|]. cbn [upper_bound]. destruct (Z.leb_spec e.1 o); [|done].
  destruct (upper_bound o m) as [a it]. destruct IH as (-> & HF & Hit). by split_and!; [|constructor|].
Qed.

Lemma gaps_at_most a o : Forall (fun e => e.1 <= o) a -> forall x, x ∈ gaps_in a -> x <= o.
Proof.
  intros HF x Hin. apply list_elem_of_In, in_concat in Hin as (g & Hg & Hin).
  apply list_elem_of_In, list_elem_of_fmap in Hg as (e & -> & He).
  apply list_elem_of_In, elem_of_seqZ in Hin. rewrite Forall_forall in HF. specialize (HF e He). cbn in HF. lia.
Qed.

(** What lies above a gap that starts above [o] is above [o]. *)
Lemma gaps_above e it o : 0 <= next_delta e.2 <= Z.max e.1 (-1) + 1 -> chained e it ->
  match it with [] => True | x :: _ => o <= base_offset x.2 end ->
  forall x, x ∈ gaps_in it -> o <= x.
Proof.
  intros Hd H Hit x Hin. destruct it as [|[k b] it]; [by apply not_elem_of_nil in Hin|].
  pose proof H as (H1 & H2 & H3 & H4). cbn in Hit. unfold gaps_in in Hin.
  rewrite fmap_cons in Hin. cbn [concat] in Hin. apply elem_of_app in Hin as [Hin|Hin].
  - apply elem_of_seqZ in Hin. cbn in Hin. lia.
  - pose proof (gap_above k (next_delta b) it x ltac:(lia) H4 Hin). lia.
Qed.

(** The delta of the last entry stays within the offset. *)
Lemma final_delta e a : 0 <= next_delta e.2 <= Z.max e.1 (-1) + 1 -> chained e a ->
  let f := final e a in Z.max e.1 (-1) <= Z.max f.1 (-1) /\
  next_delta e.2 <= next_delta f.2 <= Z.max f.1 (-1) + 1 /\ (e.1 < int64_max -> f.1 < int64_max).
Proof.
  revert e. induction a as [|[k b] a IH]; intros e Hd H; [cbn; lia|].
  destruct H as (H1 & H2 & H3 & H4). specialize (IH (k, b) ltac:(cbn [fst snd]; lia) H4).
  change (final e ((k, b) :: a)) with (final (k, b) a). cbn [fst snd] in *. cbv zeta in *. lia.
Qed.

Lemma walk_past e a o : chained e a -> Forall (fun x => x.1 < o) a -> forall it,
  walk (next_delta e.2) (a ++ it) o = walk (next_delta (final e a).2) it o.
Proof.
  intros H HF it. revert e H. induction HF as [|[k b] a Hk HF IH]; intros e H; [done|].
  destruct H as (H1 & H2 & H3 & H4). cbn [app walk]. cbn in Hk. destruct (Z.ltb_spec k o); [|lia].
  apply (IH (k, b) H4).
Qed.

(** *** The log a state stands for *)

Record log_view := { lv_start : Z; lv_delta : Z; lv_gaps : list Z }.

Definition view_of (st : batches_map) : log_view :=
  {| lv_start := start st; lv_delta := start_offset_delta st; lv_gaps := gaps st |}.

(** The number of hidden offsets below a log offset. *)
Definition delta_at (v : log_view) (o : Z) : Z := lv_delta v + below o (lv_gaps v).

Inductive update := AddGap (base last_offset : Z) | Truncate (offset : Z) | PrefixTruncate (offset : Z).

Definition update_ok (u : update) : Prop :=
  match u with
  | AddGap b l => 0 <= b <= l /\ l < int64_max
  | Truncate o => True
  | PrefixTruncate o => int64_min <= o < int64_max
  end.

Definition apply_update (st : batches_map) (u : update) : res batches_map :=
  match u with
  | AddGap b l => add_gap st b l
  | Truncate o => snd <$> truncate st o
  | PrefixTruncate o => snd <$> prefix_truncate st o
  end.

(** The same updates on the log. *)
Definition log_update (v : log_view) (u : update) : log_view :=
  match u with
  | AddGap b l =>
      if (l <=? lv_start v) || bool_decide (l ∈ lv_gaps v) then v
      else {| lv_start := lv_start v; lv_delta := lv_delta v;
              lv_gaps := lv_gaps v ++ seqZ b (l - b + 1) |}
  | Truncate o =>
      {| lv_start := lv_start v; lv_delta := lv_delta v;
         lv_gaps := base.filter (fun x => x < o) (lv_gaps v) |}
  | PrefixTruncate o =>
      if o <? lv_start v then v
      else {| lv_start := o; lv_delta := delta_at v (o + 1);
              lv_gaps := base.filter (fun x => o < x) (lv_gaps v) |}
  end.

Lemma emplace_after o b m : Forall (fun e => e.1 < o) m -> emplace o b m = m ++ [(o, b)].
Proof.
  induction 1 as [|e m He HF IH]; [done|]. cbn [emplace app]. destruct (Z.ltb_spec o e.1); [lia|].
  destruct (Z.eqb_spec o e.1); [lia|]. by rewrite IH.
Qed.

Lemma emplace_before o b m : match m with [] => True | e :: _ => o < e.1 end -> emplace o b m = (o, b) :: m.
Proof. destruct m as [|e m]; [done|]. intros H. cbn. by destruct (Z.ltb_spec o e.1); [|lia]. Qed.

Lemma find_elem o m b : find o m = Some b -> (o, b) ∈ m.
Proof.
  induction m as [|[k x] m IH]; [done|]. cbn. destruct (Z.eqb_spec k o) as [->|].
  - intros [= <-]. by left.
  - intros H. right. by apply IH.
Qed.

(** Keys go up along a chain. *)
Lemma keys_below_final e a : chained e a -> Forall (fun x => x.1 <= (final e a).1) (e :: a).
Proof.
  revert e. induction a as [|[k b] a IH]; intros e H; [repeat constructor; cbn; lia|].
  destruct H as (H1 & H2 & H3 & H4). specialize (IH (k, b) H4).
  change (final e ((k, b) :: a)) with (final (k, b) a). constructor; [|done].
  apply Forall_cons in IH as [IH _]. cbn in IH. lia.
Qed.

Lemma truncate_refines st o c st' : wf st -> truncate st o = Ok (c, st') ->
  wf st' /\ view_of st' = log_update (view_of st) (Truncate o).
Proof.
  destruct st as [|[k b] m]; [done|]. intros (Hk & Hd & Hc). unfold truncate. cbn [lower_bound fst].
  destruct (Z.ltb_spec k o); [|done].
  pose proof (lower_bound_split o m) as Hs. destruct (lower_bound o m) as [a it].
  destruct Hs as (-> & HF & Hit). pose proof (proj1 (chain_app (k, b) a it) Hc) as [Ha Hr].
  pose proof (final_delta (k, b) a ltac:(cbn; lia) Ha) as Hf. cbv zeta in Hf. cbn [fst snd] in Hf.
  assert (Hlow : forall x, x ∈ gaps_in a -> x < o).
  { intros x Hx. cut (x <= o - 1); [lia|]. revert x Hx. apply gaps_at_most.
    eapply Forall_impl; [exact HF|]. cbn. intros; lia. }
  intros E. assert (st' = (k, b) :: a /\ forall x, x ∈ gaps_in it -> o <= x) as [-> Hhigh].
  { destruct it as [|[k' b'] it].
    - injection E as <- <-. rewrite app_nil_r. split; [done|]. intros x Hx. by apply not_elem_of_nil in Hx.
    - destruct (Z.gtb_spec o (base_offset b')); [done|]. injection E as <- <-. split; [done|].
      eapply gaps_above; [|exact Hr|cbn; lia]. lia. }
  split; [split_and!; (done || lia)|]. unfold view_of, log_update, gaps. cbn [lv_start lv_delta lv_gaps start tail].
  f_equal. change (gaps_in a = base.filter (fun x => x < o) (gaps_in (a ++ it))).
  rewrite gaps_app, filter_app, filter_all, filter_none by (intros x Hx; first [apply Hlow, Hx|apply Hhigh in Hx; lia]).
  by rewrite app_nil_r.
Qed.

(** The log from [o] on, when [o] is not inside a gap: the entries after [o], behind one
    that carries the delta there. *)
Lemma cut_prefix k b a it o x :
  wf ((k, b) :: a ++ it) -> k <= o -> int64_min <= o < int64_max -> Forall (fun e => e.1 <= o) a ->
  match it with [] => True | e :: _ => o + 1 <= base_offset e.2 end ->
  next_delta x = next_delta (final (k, b) a).2 ->
  wf ((o, x) :: it) /\ view_of ((o, x) :: it) =
    {| lv_start := o; lv_delta := delta_at (view_of ((k, b) :: a ++ it)) (o + 1);
       lv_gaps := base.filter (fun y => o < y) (gaps ((k, b) :: a ++ it)) |}.
Proof.
  intros (Hk & Hd & Hc) Hko Ho HF Hbase Hx. pose proof (proj1 (chain_app (k, b) a it) Hc) as [Ha Hr].
  pose proof (final_delta (k, b) a ltac:(cbn; lia) Ha) as Hf. cbv zeta in Hf. cbn [fst snd] in Hf.
  pose proof (gaps_above (final (k, b) a) it (o + 1) ltac:(lia) Hr Hbase) as Hhigh.
  pose proof (gaps_at_most a o HF) as Hlow.
  assert (Hdelta : next_delta (final (k, b) a).2 = next_delta b + below (o + 1) (gaps_in (a ++ it))).
  { rewrite gaps_app, below_app. unfold below at 2. rewrite filter_none by (intros y Hy; apply Hhigh in Hy; lia).
    change (gaps_in a) with (concat (gap_of <$> a)). rewrite Z.add_assoc, <- (walk_counts k) by (done || lia).
    rewrite <- (app_nil_r a) at 2. change (next_delta b) with (next_delta (k, b).2).
    rewrite (walk_past (k, b)); [cbn; unfold blen; cbn; lia|done|].
    eapply Forall_impl; [exact HF|]. cbn. intros; lia. }
  assert (Hfin : (final (k, b) a).1 <= o).
  { destruct a as [|e a]; [done|]. change (final (k, b) (e :: a)) with (final e a).
    pose proof (last_final e a) as HL. apply last_Some_elem_of in HL. rewrite Forall_forall in HF.
    by apply HF. }
  split.
  - split; [lia|]. rewrite Hx. split; [lia|]. destruct it as [|[k' b'] it]; [done|].
    destruct Hr as (R1 & R2 & R3 & R4). cbn in Hbase. split_and!; (done || lia).
  - unfold view_of, delta_at, gaps. cbn [lv_start lv_delta lv_gaps start start_offset_delta tail].
    rewrite Hx. f_equal; [exact Hdelta|].
    change (gaps_in it = base.filter (fun y => o < y) (gaps_in (a ++ it))).
    rewrite gaps_app, filter_app, filter_none, filter_all
      by (intros y Hy; first [apply Hhigh in Hy; lia|apply Hlow in Hy; lia]). done.
Qed.

Lemma prefix_truncate_refines st o c st' : wf st -> int64_min <= o < int64_max ->
  prefix_truncate st o = Ok (c, st') ->
  wf st' /\ view_of st' = log_update (view_of st) (PrefixTruncate o).
Proof.
  destruct st as [|[k b] m]; [done|]. intros Hwf Ho. unfold prefix_truncate. cbn [upper_bound fst].
  unfold log_update. cbn [view_of lv_start start]. destruct (Z.leb_spec k o) as [Hko|Hko].
  2:{ destruct (Z.ltb_spec o k); [|lia]. intros (u & _ & E)%res_bind_Ok. injection E as <- <-. done. }
  destruct (Z.ltb_spec o k); [lia|].
  pose proof (upper_bound_split o m) as Hs. destruct (upper_bound o m) as [a it].
  destruct Hs as (-> & HF & Hit).
  intros (u & Hthrow%throw_if_Ok & E)%res_bind_Ok. rewrite last_final in E.
  assert (Hbase : match it with [] => True | x :: _ => o + 1 <= base_offset x.2 end).
  { destruct it as [|[k' b'] it]; [done|]. rewrite Z.geb_leb in Hthrow. apply Z.leb_gt in Hthrow. cbn. lia. }
  pose proof (fun x => cut_prefix k b a it o x Hwf Hko Ho HF Hbase) as Hview.
  destruct (final (k, b) a) as [fk fb] eqn:Ef. cbn [fst snd] in *.
  destruct (_ && _) eqn:Ekeep.
  - injection E as <- <-. apply andb_true_iff in Ekeep as [Hr0 Hk0]. cbn [fst] in Hk0. apply Z.eqb_eq in Hk0 as ->.
    destruct a as [|]; [|done]. apply (Hview b). by injection Ef as _ <-.
  - injection E as <- <-. rewrite emplace_before by (destruct it as [|[k' b'] it]; [done|exact Hit]).
    by apply Hview.
Qed.

Lemma add_gap_refines st b l st' : wf st -> 0 <= b <= l -> l < int64_max -> add_gap st b l = Ok st' ->
  wf st' /\ view_of st' = log_update (view_of st) (AddGap b l).
Proof.
  destruct st as [|[k bk] m]; [done|]. intros (Hk & Hd & Hc) Hb Hl. unfold add_gap, log_update.
  rewrite last_final. cbn [view_of lv_start start lv_gaps].
  pose proof (final_delta (k, bk) m ltac:(cbn; lia) Hc) as Hf. cbv zeta in Hf. cbn [fst snd] in Hf.
  pose proof (keys_below_final (k, bk) m Hc) as HF.
  destruct (final (k, bk) m) as [fk fb] eqn:Ef. cbn [fst snd] in *. destruct (Z.ltb_spec l k).
  { intros [= <-]. by destruct (Z.leb_spec l k); [|lia]. }
  assert (Hle : k <= fk) by (by apply Forall_cons in HF as [? _]).
  destruct (Z.leb_spec b fk) as [Hbf|Hbf].
  - intros E. destruct (find l ((k, bk) :: m)) as [x|] eqn:Ex; [|done].
    destruct (Z.eqb_spec (base_offset x) b); [|done]. injection E as <-. split; [done|].
    destruct (Z.leb_spec l k) as [|Hkl]; [done|]. cbn [orb].
    rewrite bool_decide_eq_true_2; [done|]. apply find_elem in Ex.
    apply elem_of_cons in Ex as [Ex|Ex]; [injection Ex as -> ->; lia|].
    unfold gaps. cbn [tail]. apply list_elem_of_In, in_concat. exists (gap_of (l, x)).
    split; apply list_elem_of_In; [by apply list_elem_of_fmap_2|]. apply elem_of_seqZ. cbn. lia.
  - rewrite emplace_after by (eapply Forall_impl; [exact HF|]; cbn; intros; lia). intros [= <-].
    rewrite (swrap_id 64 (l - b)), (swrap_id 64 (l - b + 1)), swrap_id by ranges.
    set (nb := {| base_offset := b; next_delta := next_delta fb + (l - b + 1) |}).
    assert (Hc' : chain k (next_delta bk) (m ++ [(l, nb)])).
    { apply (chain_app (k, bk)). split; [done|]. rewrite Ef. cbn. split_and!; (done || lia). }
    split; [exact (conj Hk (conj Hd Hc'))|]. destruct (Z.leb_spec l k); [lia|]. cbn [orb].
    assert (Hn : l ∉ gaps ((k, bk) :: m)).
    { intros Hin. apply (gaps_at_most m fk) in Hin; [lia|]. by apply Forall_cons in HF as [_ HF]. }
    rewrite bool_decide_eq_false_2 by done. unfold view_of. f_equal.
    change (gaps_in (m ++ [(l, nb)]) = gaps_in m ++ seqZ b (l - b + 1)).
    rewrite gaps_app. f_equal. unfold gaps_in, gap_of. cbn. by rewrite app_nil_r.
Qed.

(** ** Properties *)

(** The translator against the log: from the start of the log on, the delta at an
    offset is the delta at the start plus the number of hidden offsets below it, and
    translation subtracts it; below the start it throws, and an empty translator is
    the identity.  No step overflows. *)
Theorem delta_counts_gaps st o : wf st -> is_s 64 o ->
  let d := delta_at (view_of st) o in
  match st with
  | [] => delta st o = Ok 0 /\ from_log_offset st o = Ok o
  | _ => if decide (start st < o) then delta st o = Ok d /\ from_log_offset st o = Ok (o - d)
         else delta st o = Throw runtime_error /\ from_log_offset st o = Throw runtime_error
  end.
Proof.
  intros Hwf Ho d. destruct st as [|[k b] m].
  - unfold from_log_offset. cbn. by rewrite Z.sub_0_r, swrap_id by (done || lia).
  - pose proof Hwf as (Hk & Hd & Hc). cbn [start]. unfold from_log_offset. case_decide as Hko.
    + rewrite (delta_walk k b m o Hwf Hko Ho). cbn [mbind res_bind].
      pose proof (walk_bound k _ m o Hc Hko). rewrite swrap_id by ranges.
      unfold d, delta_at, view_of. cbn [lv_delta lv_gaps start_offset_delta].
      unfold gaps. cbn [tail]. by rewrite <- (walk_counts k).
    + unfold delta. cbn [lower_bound fst]. by destruct (Z.ltb_spec k o); [lia|].
Qed.

Definition example_translator : batches_map :=
  [(-1, {| base_offset := -1; next_delta := 0 |}); (0, {| base_offset := 0; next_delta := 1 |});
   (12, {| base_offset := 10; next_delta := 4 |})].

Lemma example_translator_wf : wf example_translator.
Proof. concrete. Defined.

Lemma delta_counts_gaps_witness :
  from_log_offset example_translator 11 = Ok (11 - (0 + below 11 [0; 10; 11; 12])) /\
  from_log_offset example_translator 13 = Ok 9.
Proof.
  split; [|vm_compute; reflexivity].
  refine (proj2 (delta_counts_gaps example_translator 11 example_translator_wf _)). concrete.
Defined.

(** C19: translation is an order-preserving bijection between the visible log offsets and
    the data offsets: translating back a translated visible offset gives it back, with
    any hint that does not exceed it; every data offset from the start on is the
    translation of a visible offset; and a later offset never gets a smaller data
    offset, nor a visible one the data offset of a later offset. *)
Theorem translation_is_bijective st : wf st -> st <> [] ->
  (forall o hint, Z.max (start st) (-1) < o <= int64_max -> o ∉ gaps st -> hint <= o ->
     exists x, from_log_offset st o = Ok x /\ to_log_offset st x hint = Ok o) /\
  (forall x, Z.max (start st) (-1) + 1 - start_offset_delta st <= x ->
     delta_at (view_of st) int64_max + x <= int64_max ->
     exists o, Z.max (start st) (-1) < o <= int64_max /\ o ∉ gaps st /\ from_log_offset st o = Ok x) /\
  (forall o o' x x', start st < o < o' -> is_s 64 o -> is_s 64 o' ->
     from_log_offset st o = Ok x -> from_log_offset st o' = Ok x' -> x <= x' /\ (o ∉ gaps st -> x < x')).
Proof.
  intros Hwf Hne. destruct st as [|[k b] m]; [done|]. pose proof Hwf as (Hk & Hd & Hc). clear Hne.
  assert (Hfrom : forall o, k < o -> is_s 64 o ->
    from_log_offset ((k, b) :: m) o = Ok (o - walk (next_delta b) m o)).
  { intros o Hko Ho. unfold from_log_offset. rewrite (delta_walk k b m o Hwf Hko Ho). cbn [mbind res_bind].
    pose proof (walk_bound k _ m o Hc Hko). by rewrite swrap_id by ranges. }
  unfold gaps. cbn [start start_offset_delta tail]. split_and!.
  - intros o hint Ho Hn Hh. exists (o - walk (next_delta b) m o). split; [apply Hfrom; ranges|].
    pose proof (walk_bound k _ m o Hc ltac:(lia)) as Hw. set (x := o - walk (next_delta b) m o) in *.
    unfold to_log_offset. destruct (Z.eqb_spec x int64_max); [f_equal; lia|].
    assert (Hnext : next_offset k = Z.max k (-1) + 1).
    { unfold next_offset. destruct (Z.ltb_spec k 0); [lia|]. destruct (Z.eqb_spec k int64_max); [lia|].
      rewrite swrap_id by ranges. lia. }
    rewrite Hnext, swrap_id by ranges. destruct (Z.ltb_spec x (Z.max k (-1) + 1 - next_delta b)); [lia|].
    cbn [lower_bound fst]. set (from := Z.max (Z.max hint x) (Z.max k (-1) + 1)).
    destruct (Z.ltb_spec k from); [|lia].
    pose proof (to_log_loop_from k (next_delta b) m o from (k, b) Hd Hc ltac:(lia) ltac:(lia) Hn eq_refl) as HL.
    destruct (lower_bound from m) as [a it]. destruct HL as (key & prev & -> & HL). fold x in HL. rewrite HL.
    rewrite swrap_id by ranges. f_equal. lia.
  - intros x Hx Hmax. pose proof (to_log_loop_exists k (next_delta b) m x Hd Hc Hx) as (H1 & H2 & H3).
    set (o := x + to_log_loop x (next_delta b) m) in *. exists o.
    unfold delta_at, view_of, gaps in Hmax. cbn [lv_delta lv_gaps start_offset_delta tail] in Hmax.
    rewrite <- (walk_counts k) in Hmax by (done || lia).
    assert (Hle : o <= int64_max).
    { destruct (decide (o <= int64_max)); [done|].
      pose proof (walk_step k _ m int64_max o Hc ltac:(lia)) as [_ Hs].
      assert (Hn : int64_max ∉ gaps_in m).
      { intros Hin. apply (gaps_at_most m (int64_max - 1)) in Hin; [lia|].
        eapply Forall_impl; [apply (chain_delta k _ m Hd Hc)|]. cbn. intros; lia. }
      specialize (Hs Hn). lia. }
    split; [lia|]. split; [done|]. rewrite Hfrom by ranges. f_equal. lia.
  - intros o o' x x' Ho Hr Hr'. rewrite !Hfrom by (done || lia). intros [= <-] [= <-].
    pose proof (walk_step k _ m o o' Hc ltac:(lia)) as [Hs1 Hs2]. split; [lia|].
    intros Hn. specialize (Hs2 Hn). lia.
Qed.

Lemma translation_is_bijective_witness :
  from_log_offset example_translator 20 = Ok 16 /\
  exists x, from_log_offset example_translator 20 = Ok x /\ to_log_offset example_translator x int64_min = Ok 20.
Proof.
  split; [vm_compute; reflexivity|].
  apply (proj1 (translation_is_bijective example_translator example_translator_wf ltac:(discriminate)));
    [concrete| |concrete].
  vm_compute. intros H. repeat (apply elem_of_cons in H as [H|H]; [discriminate H|]).
  by apply not_elem_of_nil in H.
Defined.

(** Updates one after the other, up to the first exception. *)
Fixpoint apply_updates (st : batches_map) (us : list update) : res batches_map :=
  match us with [] => Ok st | u :: us => st ← apply_update st u; apply_updates st us end.

Lemma apply_update_refines st u st' : wf st -> update_ok u -> apply_update st u = Ok st' ->
  wf st' /\ view_of st' = log_update (view_of st) u.
Proof.
  intros Hwf Hu E. destruct u as [b l|o|o]; cbn [update_ok apply_update] in Hu, E.
  - destruct Hu as [Hb Hl]. exact (add_gap_refines st b l st' Hwf Hb Hl E).
  - destruct (truncate st o) as [[c x]| |] eqn:Et; [|done..]. injection E as <-. by eapply truncate_refines.
  - destruct (prefix_truncate st o) as [[c x]| |] eqn:Et; [|done..]. injection E as <-.
    by eapply prefix_truncate_refines.
Qed.

(** C20: the updates refine the log: adding a hidden batch, truncating the log and removing
    its prefix, in any order, keep the map well formed, and what it stands for is the
    log with those updates made to its list of hidden offsets.  In particular
    truncation at [o] keeps the translation of all offsets up to [o], and removing a
    prefix that of all offsets after it. *)
Theorem updates_refine_log st us st' :
  wf st -> Forall update_ok us -> apply_updates st us = Ok st' ->
  wf st' /\ view_of st' = foldl log_update (view_of st) us.
Proof.
  intros Hwf Hus. revert st Hwf. induction Hus as [|u us Hu _ IH]; intros st Hwf E; cbn in E |- *.
  - by injection E as <-.
  - apply res_bind_Ok in E as (st1 & E1 & E). destruct (apply_update_refines st u st1 Hwf Hu E1) as [Hw1 Hv1].
    rewrite <- Hv1. by apply IH.
Qed.

Lemma updates_refine_log_witness :
  exists st', apply_updates example_translator [AddGap 20 21; PrefixTruncate 5; Truncate 20; AddGap 30 30] = Ok st' /\
    wf st' /\ view_of st' = foldl log_update (view_of example_translator)
      [AddGap 20 21; PrefixTruncate 5; Truncate 20; AddGap 30 30].
Proof.
  eexists. split; [vm_compute; reflexivity|].
  eapply (updates_refine_log example_translator _ _ example_translator_wf); [|vm_compute; reflexivity].
  repeat (apply Forall_cons; split; [concrete|]). apply Forall_nil. exact I.
Defined.

(** The entry before an offset, where an absolute delta is recorded. *)
Definition entry_before (st : batches_map) (offset : Z) : option (Z * batch_info) :=
  last (upper_bound (prev_offset offset) st).1.

(** An absolute delta that is consistent with the log - not below the delta recorded
    before it, nor above it by more than the offsets in between - is recorded: the map
    stays well formed, and the delta at the offset is the one given. *)
Theorem absolute_delta_recorded st offset d :
  wf st -> 0 <= d <= offset -> offset < int64_max ->
  (forall k b, entry_before st offset = Some (k, b) ->
     next_delta b <= d <= next_delta b + (offset - 1 - Z.max k (-1))) ->
  exists c st', add_absolute_delta st offset d = Ok (c, st') /\ wf st' /\ delta st' offset = Ok d.
Proof.
  intros Hwf Hd Ho Hcons. unfold add_absolute_delta. destruct (Z.leb_spec d offset); [|lia]. cbn [negb].
  set (ge := prev_offset offset). assert (Hge : ge < offset /\ int64_min <= ge < int64_max /\
    Z.max ge (-1) + 1 = offset /\ (0 < offset -> ge = offset - 1)).
  { unfold ge, prev_offset. destruct (Z.leb_spec offset 0); [ranges|]. rewrite swrap_id by ranges. ranges. }
  unfold entry_before in Hcons. fold ge in Hcons.
  pose proof (upper_bound_split ge st) as Hs. destruct (upper_bound ge st) as [before it]. cbn [fst] in Hcons.
  destruct Hs as (-> & HF & _). destruct before as [|[k b] a].
  - cbn [last mbind res_bind]. rewrite orb_true_r. eexists _, _. split; [reflexivity|]. cbn [emplace].
    assert (Hw : wf [(ge, {| base_offset := s64 (offset - d); next_delta := d |})]) by (cbn; lia).
    split; [done|]. rewrite (delta_walk _ _ _ _ Hw) by ranges. done.
  - destruct Hwf as (Hk & Hdb & Hc). cbn [app] in Hc. apply (chain_app (k, b)) in Hc as [Ha _].
    rewrite last_final in Hcons |- *.
    pose proof (final_delta (k, b) a Hdb Ha) as Hf. cbv zeta in Hf. cbn [fst snd] in Hf.
    assert (Hwb : wf ((k, b) :: a)) by exact (conj Hk (conj Hdb Ha)).
    assert (Hlast : k < offset -> walk (next_delta b) a offset = next_delta (final (k, b) a).2).
    { intros _. rewrite <- (app_nil_r a) at 1. rewrite (walk_past (k, b)); [done|done|].
      apply Forall_cons in HF as [_ HF]. eapply Forall_impl; [exact HF|]. cbn. intros; lia. }
    assert (Hko : k < offset) by (apply Forall_cons in HF as [HF _]; cbn in HF; lia).
    specialize (Hlast Hko). pose proof (keys_below_final (k, b) a Ha) as Hkeys.
    destruct (final (k, b) a) as [fk fb] eqn:Ef. cbn [fst snd] in *.
    specialize (Hcons fk fb eq_refl). rewrite swrap_id by ranges.
    destruct (Z.ltb_spec (d - next_delta fb) 0); [lia|]. cbn [mbind res_bind]. rewrite orb_false_r.
    destruct (Z.gtb_spec (d - next_delta fb) 0).
    + eexists _, _. split; [reflexivity|]. rewrite emplace_after.
      2:{ eapply Forall_impl; [exact Hkeys|]. cbn. intros; lia. }
      rewrite swrap_id by ranges. set (nb := {| base_offset := _; next_delta := d |}).
      assert (Hc' : chain k (next_delta b) (a ++ [(ge, nb)])).
      { apply (chain_app (k, b)). split; [done|]. rewrite Ef. cbn. split_and!; (done || lia). }
      assert (Hw : wf ((k, b) :: (a ++ [(ge, nb)]))) by exact (conj Hk (conj Hdb Hc')).
      split; [exact Hw|]. change (((k, b) :: a) ++ [(ge, nb)]) with ((k, b) :: (a ++ [(ge, nb)])).
      rewrite (delta_walk _ _ _ _ Hw) by ranges. f_equal. change (next_delta b) with (next_delta (k, b).2).
      rewrite (walk_past (k, b)); [|done|].
      * rewrite Ef. cbn. by destruct (Z.ltb_spec ge offset); [|lia].
      * apply Forall_cons in HF as [_ HF]. eapply Forall_impl; [exact HF|]. cbn. intros; lia.
    + eexists _, _. split; [reflexivity|]. split; [done|]. rewrite (delta_walk _ _ _ _ Hwb) by ranges.
      f_equal. lia.
Qed.

Lemma absolute_delta_recorded_witness :
  exists c st', add_absolute_delta example_translator 20 6 = Ok (c, st') /\ wf st' /\ delta st' 20 = Ok 6.
Proof.
  apply (absolute_delta_recorded example_translator 20 6 example_translator_wf); [concrete|concrete|].
  intros k b E. vm_compute in E. injection E as <- <-. concrete.
Defined.

(** The length of an entry fits the 32 bits it is stored in. *)
Definition short_entry (e : Z * batch_info) : Prop :=
  is_s 64 (base_offset e.2) /\ - 2 ^ 31 <= e.1 - base_offset e.2 < int32_max.

Lemma persisted_entry e : short_entry e -> is_s 64 e.1 ->
  s32 (s32 (s64 (e.1 - base_offset e.2)) + 1) = e.1 - base_offset e.2 + 1 /\
  s64 (base_offset e.2 + s32 (e.1 - base_offset e.2 + 1 - 1)) = e.1.
Proof.
  intros [Hb Hl] Hk. replace (e.1 - base_offset e.2 + 1 - 1) with (e.1 - base_offset e.2) by lia.
  rewrite (swrap_id 64 (e.1 - _)), (swrap_id 32 (e.1 - _)), swrap_id, swrap_id by ranges. lia.
Qed.

Lemma load_batches_chain e m acc :
  0 <= next_delta e.2 <= Z.max e.1 (-1) + 1 -> chained e m -> Forall short_entry m ->
  Forall (fun x => x.1 <= e.1) acc ->
  load_batches (next_delta e.2) e.1 ((fun '(o, b) => {| p_base_offset := base_offset b;
    p_length := s32 (s32 (s64 (o - base_offset b)) + 1) |}) <$> m) acc = Ok (acc ++ m).
Proof.
  revert e acc. induction m as [|[k b] m IH]; intros e acc Hd H HS Hacc; [by rewrite app_nil_r|].
  pose proof H as (H1 & H2 & H3 & H4). apply Forall_cons in HS as [Hb HS].
  rewrite fmap_cons. cbn [load_batches p_base_offset p_length].
  destruct (persisted_entry (k, b) Hb ltac:(cbn [fst]; ranges)) as [E1 E2]. cbn [fst snd] in E1, E2.
  rewrite E1.
  destruct (Z.leb_spec (base_offset b) e.1); [lia|]. rewrite E2.
  rewrite swrap_id by ranges. rewrite emplace_after by (eapply Forall_impl; [exact Hacc|]; cbn; intros; lia).
  assert (Eb : {| base_offset := base_offset b; next_delta := next_delta e.2 + (k - base_offset b + 1) |} = b)
    by (rewrite <- H3; by destruct b). rewrite Eb, <- H3.
  rewrite (IH (k, b)); [by rewrite <- app_assoc|cbn; lia|done|done|].
  apply Forall_app. split; [|repeat constructor; cbn; lia].
  eapply Forall_impl; [exact Hacc|]. cbn. intros; lia.
Qed.

(** A map that is written out and read back is the same map, as long as every gap fits
    the 32-bit length it is stored with. *)
Theorem persisted_map_roundtrip st :
  wf st -> st <> [] -> Forall short_entry st ->
  exists p, serialize_map st = Ok p /\ from_serialized_map p = Ok st.
Proof.
  destruct st as [|[k b] m]; [done|]. intros (Hk & Hd & Hc) _ HS. eexists. split; [reflexivity|].
  apply Forall_cons in HS as [Hb HS]. unfold from_serialized_map. cbn [batches start_delta fmap list_fmap].
  destruct (persisted_entry (k, b) Hb ltac:(cbn [fst]; ranges)) as [E1 E2]. cbn [fst snd] in E1, E2.
  cbn [p_base_offset p_length]. rewrite E1, E2.
  assert (Eb : {| base_offset := base_offset b; next_delta := next_delta b |} = b) by (by destruct b).
  rewrite Eb. change (next_delta b) with (next_delta (k, b).2). change k with (k, b).1 at 1.
  apply (load_batches_chain (k, b) m [(k, b)]); [done..|]. repeat constructor. done.
Qed.

Lemma persisted_map_roundtrip_witness :
  exists p, serialize_map example_translator = Ok p /\ from_serialized_map p = Ok example_translator.
Proof.
  apply (persisted_map_roundtrip example_translator example_translator_wf); [discriminate|].
  repeat (apply Forall_cons; split; [concrete|]). apply Forall_nil. exact I.
Defined.

(** A delta of more than 2^31, recorded in an empty translator, makes one entry that
    long: it does not survive being written out. *)
Theorem long_entry_not_persisted :
  let d := 2 ^ 32 + 5 in
  exists st p st', add_absolute_delta [] (d + 10) d = Ok (true, st) /\ serialize_map st = Ok p /\
    from_serialized_map p = Ok st' /\ start st = d + 9 /\ start st' = 14.
Proof.
  cbv zeta. eexists _, _, _. split; [vm_compute; reflexivity|]. split; [vm_compute; reflexivity|].
  split; [vm_compute; reflexivity|]. split; vm_compute; reflexivity.
Qed.

(** The check of [add_absolute_delta] admits a delta that is larger than the log has
    room for: the entry it makes overlaps the one before, and translation is no
    longer monotone. *)
Theorem overlapping_delta_accepted :
  let st := [(5, {| base_offset := 5; next_delta := 0 |}); (10, {| base_offset := 6; next_delta := 5 |})] in
  wf st /\ exists st', add_absolute_delta st 12 9 = Ok (true, st') /\
    from_log_offset st' 10 = Ok 6 /\ from_log_offset st' 11 = Ok 3.
Proof.
  cbv zeta. split; [concrete|]. eexists. split; [vm_compute; reflexivity|]. split; vm_compute; reflexivity.
Qed.
End offset_translator_state.
