(* ===== verification/ProducerState.v ===== *)
(** * Idempotent producers (cluster/producer_state.{h,cc}, cluster/rm_stm.cc)

    A partition keeps a state per producer that numbers its batches.  Its queues
    hold the requests in flight and the last five that were applied to the log; a
    batch is accepted if it continues the sequence, answered from the queues if it
    is a retry, and refused otherwise.

    Requests are shared objects ([lw_shared_ptr]): the fiber that replicates a batch,
    retries that wait for it and the queues hold the same one, and its result is set
    through any of them.  [heap] is the store of these objects and a pointer an index
    into it; allocation appends.

    [idempotent_task] is the state of a call to [do_idempotent_replicate] between two
    of its [co_await]s.  Raft is the source of the events that wake it up.  The lock a
    call holds from its start to the first answer of raft protects a part that is one
    step here, so the model admits every interleaving the lock does. [from_log_offset]
    is the translation of the partition's log (OffsetTranslator.v). *)

From stdpp Require Import sorting.
From S2P Require Import Prelude Vint IobufParser Record RecordBatch Errors.

(** ** Requests *)

Module request_state.
Inductive t := initialized | in_progress | completed.
#[global] Instance t_eq_dec : EqDecision t.
Proof. solve_decision. Defined.
End request_state.

Record kafka_result := { kr_last_offset : Z; kr_last_term : Z }.

(** The value the shared promise holds, if it was set. *)
Abbreviation request_result := (option (kafka_result + std_error_code)).

Record request := {
  r_state : request_state.t;
  first_sequence : Z;
  last_sequence : Z;
  r_term : Z;
  r_result : request_result;
}.

Definition make_request (first last term : Z) (res : request_result) : request :=
  {| r_state := match res with Some _ => request_state.completed | None => request_state.initialized end;
     first_sequence := first; last_sequence := last; r_term := term; r_result := res |}.

#[global] Instance request_inhabited : Inhabited request := populate (make_request 0 0 0 None).

Definition has_completed (r : request) : bool := bool_decide (r_state r = request_state.completed).

Definition complete (r : request) (v : kafka_result + std_error_code) : request :=
  {| r_state := request_state.completed; first_sequence := first_sequence r;
     last_sequence := last_sequence r; r_term := r_term r; r_result := Some v |}.

Definition set_value (r : request) (v : kafka_result) : request :=
  if has_completed r then r else complete r (inl v).

Definition set_error (r : request) (e : std_error_code) : res request :=
  if has_completed r then
    match r_result r with Some (inr _) => Ok r | _ => Crash end
  else Ok (complete r (inr e)).

Definition mark_request_in_progress (r : request) : request :=
  {| r_state := request_state.in_progress; first_sequence := first_sequence r;
     last_sequence := last_sequence r; r_term := r_term r; r_result := r_result r |}.

(** ** The queues of a producer *)

Definition requests_cached_max : nat := 5.

Record requests := {
  heap : list request;
  inflight_requests : list nat;
  finished_requests : list nat;
}.

Definition no_requests : requests :=
  {| heap := []; inflight_requests := []; finished_requests := [] |}.

Definition get (s : requests) (p : nat) : request := heap s !!! p.
Definition put (s : requests) (p : nat) (r : request) : requests :=
  {| heap := <[p := r]> (heap s); inflight_requests := inflight_requests s;
     finished_requests := finished_requests s |}.
Definition with_queues (s : requests) (inflight finished : list nat) : requests :=
  {| heap := heap s; inflight_requests := inflight; finished_requests := finished |}.

Definition last_request (s : requests) : option nat :=
  match last (inflight_requests s) with
  | Some p => Some p
  | None => last (finished_requests s)
  end.

(** Fail what is in flight, then forget everything. *)
Definition fail_pending (e : std_error_code) (h : list request) (p : nat) : list request :=
  if has_completed (h !!! p) then h else <[p := complete (h !!! p) (inr e)]> h.
Definition reset (e : std_error_code) (s : requests) : requests :=
  {| heap := foldl (fail_pending e) (heap s) (inflight_requests s);
     inflight_requests := []; finished_requests := [] |}.

Definition next_sequence (sequence : Z) : Z :=
  if sequence =? int32_max then 0 else s32 (sequence + 1).

Definition is_valid_sequence (s : requests) (incoming : Z) : bool :=
  match last_request s with
  | None => incoming =? 0
  | Some p => incoming =? next_sequence (last_sequence (get s p))
  end.

Fixpoint gc_loop (current_term : Z) (h : list request) (q : list nat) : list request * list nat :=
  match q with
  | [] => (h, [])
  | p :: q' =>
      if r_term (h !!! p) <? current_term
      then gc_loop current_term (fail_pending (tx_error tx_errc.timeout) h p) q'
      else (h, q)
  end.
Definition gc_requests_from_older_terms (current_term : Z) (s : requests) : requests :=
  let '(h, q) := gc_loop current_term (heap s) (inflight_requests s) in
  {| heap := h; inflight_requests := q; finished_requests := finished_requests s |}.

(** [std::find_if] over a queue. *)
Definition find_request (f : request -> bool) (s : requests) (q : list nat) : option nat :=
  snd <$> list_find (fun p => f (get s p) = true) q.

Definition matches (first last : Z) (r : request) : bool :=
  (first_sequence r =? first) && (last_sequence r =? last).

(** The loop that drops completed requests when too many are in flight. *)
Fixpoint drop_completed (h : list request) (inflight finished : list nat) : list nat * list nat :=
  match inflight with
  | p :: q =>
      if (requests_cached_max <? length inflight)%nat && has_completed (h !!! p)
      then drop_completed h q []
      else (inflight, finished)
  | [] => ([], finished)
  end.

(** All checks passed: the request is queued. *)
Definition enqueue (first last current : Z) (s : requests) : requests * nat :=
  let p := length (heap s) in
  let h := heap s ++ [make_request first last current None] in
  let '(q, fin) := drop_completed h (inflight_requests s ++ [p]) (finished_requests s) in
  ({| heap := h; inflight_requests := q; finished_requests := fin |}, p).

Definition try_emplace (first last current : Z) (reset_sequences : bool) (s : requests)
    : requests * (nat + std_error_code) :=
  if reset_sequences then
    let '(s, p) := enqueue first last current (reset (tx_error tx_errc.timeout) s) in (s, inl p)
  else
    let s := gc_requests_from_older_terms current s in
    match find_request (matches first last) s (finished_requests s) with
    | Some p => (s, inl p)
    | None =>
        match find_request (fun r => matches first last r && (r_term r =? current)) s
                (inflight_requests s) with
        | Some p => (s, inl p)
        | None =>
            if negb (is_valid_sequence s first)
            then (s, inr (cluster_error cluster_errc.sequence_out_of_order))
            else let '(s, p) := enqueue first last current s in (s, inl p)
        end
    end.

(** A batch of the log is applied.  A default-constructed term is the minimum. *)
Definition stm_apply (bid : batch_identity) (term offset : Z) (s : requests) : requests :=
  let s := match inflight_requests s with
           | p :: q => if matches (first_seq bid) (last_seq bid) (get s p)
                       then with_queues s q (finished_requests s) else s
           | [] => s
           end in
  let s := gc_requests_from_older_terms term s in
  let p := length (heap s) in
  let ready := inl {| kr_last_offset := offset; kr_last_term := int64_min |} in
  let fin := finished_requests s ++ [p] in
  {| heap := heap s ++ [make_request (first_seq bid) (last_seq bid) term (Some ready)];
     inflight_requests := inflight_requests s;
     finished_requests := drop (length fin - requests_cached_max) fin |}.

Definition has_request_for_seq_range (first last : Z) (s : requests) : bool :=
  existsb (fun p => matches first last (get s p)) (inflight_requests s)
  || existsb (fun p => matches first last (get s p)) (finished_requests s).

Definition shutdown (s : requests) : requests := reset (cluster_error cluster_errc.shutting_down) s.

(** ** Transactions *)

Module partition_transaction_status.
Inductive t := initialized | ongoing | committed | aborted.
#[global] Instance t_eq_dec : EqDecision t.
Proof. solve_decision. Defined.
End partition_transaction_status.

Record transaction_state := {
  tx_first : Z;
  tx_last : Z;
  tx_sequence : Z;
  tx_timeout : option Z;
  tx_coordinator : Z;
  tx_status : partition_transaction_status.t;
}.

Definition is_in_progress (t : transaction_state) : bool :=
  bool_decide (tx_status t = partition_transaction_status.ongoing)
  || bool_decide (tx_status t = partition_transaction_status.initialized).

Definition timeout_ms (t : transaction_state) : Z := default int64_max (tx_timeout t).

Definition set_status (t : transaction_state) (s : partition_transaction_status.t) : transaction_state :=
  {| tx_first := tx_first t; tx_last := tx_last t; tx_sequence := tx_sequence t;
     tx_timeout := tx_timeout t; tx_coordinator := tx_coordinator t; tx_status := s |}.

Record fence_batch_data := {
  fence_bid : batch_identity;
  fence_tx_seq : option Z;
  fence_timeout_ms : option Z;
  fence_tm : Z;
}.

Inductive control_record_type := tx_abort | tx_commit | unknown.

#[global] Instance control_record_type_eq_dec : EqDecision control_record_type.
Proof. solve_decision. Defined.

Record tx_range := { range_pid : producer_identity; range_first : Z; range_last : Z }.

(** ** The state of a producer *)

Record producer_state := {
  ps_id : producer_identity;
  ps_group : Z;
  ps_requests : requests;
  last_updated : Z;
  ps_transaction : option transaction_state;
  evicted : bool;
  force_expiry : bool;
}.

Definition make_producer (id : producer_identity) (group now : Z) : producer_state :=
  {| ps_id := id; ps_group := group; ps_requests := no_requests; last_updated := now;
     ps_transaction := None; evicted := false; force_expiry := false |}.

Definition set_requests (p : producer_state) (r : requests) : producer_state :=
  {| ps_id := ps_id p; ps_group := ps_group p; ps_requests := r; last_updated := last_updated p;
     ps_transaction := ps_transaction p; evicted := evicted p; force_expiry := force_expiry p |}.
Definition set_transaction (p : producer_state) (t : option transaction_state) : producer_state :=
  {| ps_id := ps_id p; ps_group := ps_group p; ps_requests := ps_requests p;
     last_updated := last_updated p; ps_transaction := t; evicted := evicted p;
     force_expiry := force_expiry p |}.
Definition set_id (p : producer_state) (id : producer_identity) : producer_state :=
  {| ps_id := id; ps_group := ps_group p; ps_requests := ps_requests p;
     last_updated := last_updated p; ps_transaction := ps_transaction p; evicted := evicted p;
     force_expiry := force_expiry p |}.

Definition has_transaction_in_progress (p : producer_state) : bool :=
  match ps_transaction p with Some t => is_in_progress t | None => false end.

Definition shutdown_input (p : producer_state) : producer_state :=
  set_requests p (shutdown (ps_requests p)).

(** [lock_ready]: no operation holds the producer's lock. *)
Definition can_evict (lock_ready : bool) (p : producer_state) : bool * producer_state :=
  if evicted p || negb lock_ready
     || negb (match inflight_requests (ps_requests p) with [] => true | _ => false end)
     || has_transaction_in_progress p
  then (false, p)
  else (true, shutdown_input
         {| ps_id := ps_id p; ps_group := ps_group p; ps_requests := ps_requests p;
            last_updated := last_updated p; ps_transaction := ps_transaction p; evicted := true;
            force_expiry := force_expiry p |}).

Definition reset_with_new_epoch (new_epoch : Z) (p : producer_state) : res producer_state :=
  _ ← vassert (new_epoch >? pid_epoch (ps_id p));
  _ ← vassert (negb (has_transaction_in_progress p));
  Ok (set_id (set_requests p (reset (tx_error tx_errc.timeout) (ps_requests p)))
        {| pid_id := pid_id (ps_id p); pid_epoch := new_epoch |}).

Definition try_emplace_request (bid : batch_identity) (current_term : Z) (reset : bool)
    (p : producer_state) : producer_state * (nat + std_error_code) :=
  if (first_seq bid <? 0) || (last_seq bid <? 0)
  then (p, inr (cluster_error cluster_errc.sequence_out_of_order))
  else let '(r, x) := try_emplace (first_seq bid) (last_seq bid) current_term reset (ps_requests p) in
       (set_requests p r, x).

Definition apply_data (h : record_batch_header) (offset : Z) (p : producer_state)
    : res producer_state :=
  let bid := batch_identity_from h in
  if negb (is_idempotent bid) || evicted p then Ok p
  else
    p ← (if negb (bid_is_transactional bid) && (pid_epoch (pid bid) >? pid_epoch (ps_id p))
         then reset_with_new_epoch (pid_epoch (pid bid)) p else Ok p);
    let p := set_requests p (stm_apply bid (ctx_term h) offset (ps_requests p)) in
    if bid_is_transactional bid then
      Ok (set_transaction p (Some
        match ps_transaction p with
        | Some t =>
            if is_in_progress t then
              {| tx_first := tx_first t; tx_last := last_offset h; tx_sequence := tx_sequence t;
                 tx_timeout := tx_timeout t; tx_coordinator := tx_coordinator t;
                 tx_status := partition_transaction_status.ongoing |}
            else
              {| tx_first := base_offset h; tx_last := last_offset h; tx_sequence := -1;
                 tx_timeout := None; tx_coordinator := -1;
                 tx_status := partition_transaction_status.ongoing |}
        | None =>
            {| tx_first := base_offset h; tx_last := last_offset h; tx_sequence := -1;
               tx_timeout := None; tx_coordinator := -1;
               tx_status := partition_transaction_status.ongoing |}
        end))
    else Ok p.

Definition apply_transaction_begin (h : record_batch_header) (parsed : fence_batch_data)
    (p : producer_state) : producer_state :=
  let pid := pid (fence_bid parsed) in
  if pid_epoch pid <? pid_epoch (ps_id p) then p
  else set_transaction (set_id p pid)
         (Some {| tx_first := base_offset h; tx_last := last_offset h;
                  tx_sequence := default 0 (fence_tx_seq parsed);
                  tx_timeout := fence_timeout_ms parsed; tx_coordinator := fence_tm parsed;
                  tx_status := partition_transaction_status.initialized |}).

Definition apply_transaction_end (crt : control_record_type) (p : producer_state)
    : producer_state * option tx_range :=
  if negb (bool_decide (crt = tx_abort)) && negb (bool_decide (crt = tx_commit)) then (p, None)
  else match ps_transaction p with
  | None => (p, None)
  | Some t =>
      let st := if bool_decide (crt = tx_commit) then partition_transaction_status.committed
                else partition_transaction_status.aborted in
      (set_transaction p (Some (set_status t st)),
       Some {| range_pid := ps_id p; range_first := tx_first t; range_last := tx_last t |})
  end.

Definition last_sequence_number (p : producer_state) : option Z :=
  (fun q => last_sequence (get (ps_requests p) q)) <$> last_request (ps_requests p).

(** [now] in milliseconds. *)
Definition has_transaction_expired (now : Z) (p : producer_state) : bool :=
  match ps_transaction p with
  | Some t => is_in_progress t && (force_expiry p || (s64 (now - last_updated p) >? timeout_ms t))
  | None => false
  end.

Definition get_transaction_sequence (p : producer_state) : option Z :=
  if has_transaction_in_progress p then tx_sequence <$> ps_transaction p else None.
Definition get_current_tx_start_offset (p : producer_state) : option Z :=
  if has_transaction_in_progress p then tx_first <$> ps_transaction p else None.

Record expiration_info := { ei_timeout : Z; ei_last_update : Z; is_expiration_requested : bool }.

(** [transaction_now] is the clock of the transaction layer. *)
Definition get_expiration_info (now transaction_now : Z) (p : producer_state) : option expiration_info :=
  if negb (has_transaction_in_progress p) then None
  else match ps_transaction p with
  | Some t => Some {| ei_timeout := timeout_ms t;
                      ei_last_update := s64 (transaction_now - s64 (now - last_updated p));
                      is_expiration_requested := has_transaction_expired now p |}
  | None => None
  end.

Definition touch (now : Z) (p : producer_state) : producer_state :=
  {| ps_id := ps_id p; ps_group := ps_group p; ps_requests := ps_requests p; last_updated := now;
     ps_transaction := ps_transaction p; evicted := evicted p; force_expiry := force_expiry p |}.
Definition force_transaction_expiry (p : producer_state) : producer_state :=
  {| ps_id := ps_id p; ps_group := ps_group p; ps_requests := ps_requests p;
     last_updated := last_updated p; ps_transaction := ps_transaction p; evicted := evicted p;
     force_expiry := true |}.

(** ** Snapshots *)

Record finished_request := { f_first : Z; f_last : Z; f_last_offset : Z; f_term : Z }.

Record producer_state_snapshot := {
  sn_id : producer_identity;
  sn_group : Z;
  sn_finished : list finished_request;
  sn_ms_since_last_update : Z;
  sn_transaction : option transaction_state;
}.

(** The finished requests of a snapshot; [value()] of an error throws. *)
Fixpoint snapshot_requests (s : requests) (q : list nat) : res (list finished_request) :=
  match q with
  | [] => Ok []
  | p :: q =>
      let r := get s p in
      if negb (has_completed r) then snapshot_requests s q
      else match r_result r with
      | Some (inl v) =>
          l ← snapshot_requests s q;
          Ok ({| f_first := first_sequence r; f_last := last_sequence r;
                 f_last_offset := kr_last_offset v; f_term := r_term r |} :: l)
      | _ => Throw runtime_error
      end
  end.

Definition snapshot (now : Z) (p : producer_state) : res producer_state_snapshot :=
  l ← snapshot_requests (ps_requests p) (finished_requests (ps_requests p));
  Ok {| sn_id := ps_id p; sn_group := ps_group p; sn_finished := l;
        sn_ms_since_last_update := s64 (now - last_updated p);
        sn_transaction := ps_transaction p |}.

(** The constructor from a snapshot, which leaves the time of the last update at the
    clock's epoch. *)
Definition from_snapshot (sn : producer_state_snapshot) : producer_state := {|
  ps_id := sn_id sn; ps_group := sn_group sn;
  ps_requests := {|
    heap := (fun r => make_request (f_first r) (f_last r) (f_term r)
               (Some (inl {| kr_last_offset := f_last_offset r; kr_last_term := int64_min |})))
            <$> sn_finished sn;
    inflight_requests := [];
    finished_requests := seq 0 (length (sn_finished sn)) |};
  last_updated := 0; ps_transaction := sn_transaction sn; evicted := false; force_expiry := false |}.

(** ** Replicating a batch of an idempotent producer (rm_stm::do_idempotent_replicate) *)

Inductive idempotent_task :=
  | Start (bid : batch_identity) (known_producer : bool)
  | Enqueueing (p : nat)
  | Replicating (p : nat)
  | Waiting (p : nat)
  | Done (r : kafka_result + std_error_code)
  | Raised (e : exn).

(** What wakes a task up: the lock it waits for, the two stages of raft, or the result
    of the request it waits for. *)
Inductive event :=
  | Locked
  | Enqueued (ok : bool)
  | Replicated (r : option ((Z * Z) + std_error_code))
  | Resolved.

Section replicate.
Variable term : Z.
Variable from_log_offset : Z -> res Z.

Definition replication_error : std_error_code := cluster_error cluster_errc.replication_error.

Definition fail_request (p : nat) (e : std_error_code) (ps : producer_state)
    : res (producer_state * idempotent_task) :=
  r ← set_error (get (ps_requests ps) p) e;
  Ok (set_requests ps (put (ps_requests ps) p r), Done (inr e)).

(** Up to the call to [replicate_in_stages]; [true] if it is made. *)
Definition start_idempotent (bid : batch_identity) (known : bool) (ps : producer_state)
    : res (producer_state * idempotent_task * bool) :=
  ps ← (if pid_epoch (pid bid) >? pid_epoch (ps_id ps)
        then reset_with_new_epoch (pid_epoch (pid bid)) ps else Ok ps);
  let skip_sequence_checks := negb known && (first_seq bid >? 0) in
  let '(ps, x) := try_emplace_request bid term skip_sequence_checks ps in
  match x with
  | inr e => Ok (ps, Done (inr e), false)
  | inl p =>
      let r := get (ps_requests ps) p in
      if negb (bool_decide (r_state r = request_state.initialized)) then Ok (ps, Waiting p, false)
      else Ok (set_requests ps (put (ps_requests ps) p (mark_request_in_progress r)),
               Enqueueing p, true)
  end.

(** From one suspension to the next; an event a task does not wait for leaves it alone. *)
Definition task_step (ev : event) (ps : producer_state) (t : idempotent_task)
    : res (producer_state * idempotent_task * list (Z * Z)) :=
  match t, ev with
  | Start bid known, Locked =>
      '(ps, t, replicated) ← start_idempotent bid known ps;
      Ok (ps, t, if replicated : bool then [(first_seq bid, last_seq bid)] else [])
  | Enqueueing p, Enqueued true => Ok (ps, Replicating p, [])
  | Enqueueing p, Enqueued false => '(ps, t) ← fail_request p replication_error ps; Ok (ps, t, [])
  | Replicating p, Replicated None => '(ps, t) ← fail_request p replication_error ps; Ok (ps, t, [])
  | Replicating p, Replicated (Some (inr e)) => '(ps, t) ← fail_request p e ps; Ok (ps, t, [])
  | Replicating p, Replicated (Some (inl (last_offset, last_term))) =>
      match from_log_offset last_offset with
      | Ok kafka_offset =>
          let v := {| kr_last_offset := kafka_offset; kr_last_term := last_term |} in
          let r := set_value (get (ps_requests ps) p) v in
          Ok (set_requests ps (put (ps_requests ps) p r), Done (inl v), [])
      | Throw e => Ok (ps, Raised e, [])
      | Crash => Crash
      end
  | Waiting p, Resolved =>
      Ok (ps, match r_result (get (ps_requests ps) p) with Some r => Done r | None => t end, [])
  | _, _ => Ok (ps, t, [])
  end.
End replicate.

(** ** A leader's term: batches arrive, are replicated and applied *)

Record leader := {
  ld_producer : producer_state;
  ld_tasks : list idempotent_task;
  (* the sequence ranges handed to raft, oldest first *)
  ld_sent : list (Z * Z);
  (* how many of them the log has passed *)
  ld_applied : nat;
}.

Section leader.
Variable term : Z.
Variable from_log_offset : Z -> res Z.
Variable id : producer_identity.

Definition bid_ok (b : batch_identity) : Prop :=
  pid b = id /\ 0 <= first_seq b <= int32_max /\ 0 <= last_seq b <= int32_max.

(** A request that finds the producer unknown and begins above 0 is the one that created it; it is the first to take the
    lock and belongs to the start of the term ([leader_start]). *)
Inductive leader_step : leader -> leader -> Prop :=
  | leader_arrive ps ts sent n bid known :
      bid_ok bid -> known = true \/ first_seq bid = 0 ->
      leader_step {| ld_producer := ps; ld_tasks := ts; ld_sent := sent; ld_applied := n |}
                  {| ld_producer := ps; ld_tasks := ts ++ [Start bid known]; ld_sent := sent; ld_applied := n |}
  | leader_run ps ts sent n i ev t ps' t' out :
      ts !! i = Some t -> task_step term from_log_offset ev ps t = Ok (ps', t', out) ->
      leader_step {| ld_producer := ps; ld_tasks := ts; ld_sent := sent; ld_applied := n |}
                  {| ld_producer := ps'; ld_tasks := <[i := t']> ts; ld_sent := sent ++ out; ld_applied := n |}
  | leader_apply ps ts sent n j h offset ps' :
      (n <= j)%nat ->
      let bid := batch_identity_from h in
      sent !! j = Some (first_seq bid, last_seq bid) -> pid bid = id ->
      bid_is_transactional bid = false -> ctx_term h = term ->
      apply_data h offset ps = Ok ps' ->
      leader_step {| ld_producer := ps; ld_tasks := ts; ld_sent := sent; ld_applied := n |}
                  {| ld_producer := ps'; ld_tasks := ts; ld_sent := sent; ld_applied := S j |}.

(** Sequence numbers wrap around after the largest 32-bit integer. *)
Definition sequence_numbers : Z := 2 ^ 31.

(** How many numbers a batch takes, and which. *)
Definition range_size (r : Z * Z) : Z := (r.2 - r.1) mod sequence_numbers + 1.
Definition numbers (r : Z * Z) : list Z := (fun i => (r.1 + i) mod sequence_numbers) <$> seqZ 0 (range_size r).

(** The sequence numbers of the batches handed to raft, in order. *)
Definition sent_numbers (l : leader) : list Z := concat (numbers <$> ld_sent l).

(** The state of a producer at the start of a term: it is in memory under the current epoch, what is still in flight is of
    earlier terms, and [last] is the range of the last batch that was applied, if there is one. *)
Record takes_over (last_applied : option (Z * Z)) (ps : producer_state) : Prop := {
  to_id : ps_id ps = id;
  to_present : evicted ps = false;
  to_valid : Forall (fun p => (p < length (heap (ps_requests ps)))%nat)
               (inflight_requests (ps_requests ps) ++ finished_requests (ps_requests ps));
  to_older : Forall (fun p => r_term (get (ps_requests ps) p) < term) (inflight_requests (ps_requests ps));
  to_marked : Forall (fun r => r_state r <> request_state.initialized) (heap (ps_requests ps));
  to_last : (fun p => (first_sequence (get (ps_requests ps) p), last_sequence (get (ps_requests ps) p)))
              <$> last (finished_requests (ps_requests ps)) = last_applied;
}.

(** The number that follows what was applied. *)
Definition number_after (last_applied : option (Z * Z)) : Z :=
  match last_applied with Some (_, l) => next_sequence l | None => 0 end.

(** How a leader starts with a producer, and the first number it takes: with what was applied in earlier terms or is restored from a
    snapshot, or nothing; or with the first batch of a producer that it does not know, which may begin with any number. *)
Inductive leader_start : Z -> leader -> Prop :=
  | start_known last_applied ps :
      takes_over last_applied ps ->
      match last_applied with Some (_, l) => 0 <= l <= int32_max | None => True end ->
      leader_start (number_after last_applied) {| ld_producer := ps; ld_tasks := []; ld_sent := []; ld_applied := 0 |}
  | start_unknown group now bid ps t :
      bid_ok bid -> start_idempotent term bid false (make_producer id group now) = Ok (ps, t, true) ->
      leader_start (first_seq bid)
        {| ld_producer := ps; ld_tasks := [t]; ld_sent := [(first_seq bid, last_seq bid)]; ld_applied := 0 |}.
End leader.

(** ** Facts about the queues *)

Definition range_of (h : list request) (p : nat) : Z * Z :=
  (first_sequence (h !!! p), last_sequence (h !!! p)).

(** Completing or marking a request changes neither its range nor its term. *)
Definition same_shape (h h' : list request) : Prop :=
  length h' = length h /\
  forall p, range_of h' p = range_of h p /\ r_term (h' !!! p) = r_term (h !!! p).

#[global] Instance same_shape_preorder : PreOrder same_shape.
Proof.
  split; [by intros h|]. intros h1 h2 h3 [L1 H1] [L2 H2]. split; [congruence|].
  intros p. destruct (H1 p), (H2 p). by split; etrans.
Qed.

Lemma same_shape_insert h p r :
  first_sequence r = first_sequence (h !!! p) -> last_sequence r = last_sequence (h !!! p) ->
  r_term r = r_term (h !!! p) -> same_shape h (<[p := r]> h).
Proof.
  intros H1 H2 H3. split; [apply length_insert|]. intros q.
  destruct (decide (p < length h)%nat) as [Hp|Hp]; [|by rewrite list_insert_ge by lia].
  destruct (decide (p = q)) as [<-|Hne].
  - unfold range_of. rewrite list_lookup_total_insert_eq by done. split; congruence.
  - unfold range_of. by rewrite list_lookup_total_insert_ne by done.
Qed.

Lemma lookup_app_old (h : list request) r p : (p < length h)%nat -> (h ++ [r]) !!! p = h !!! p.
Proof. intros. by rewrite lookup_total_app_l. Qed.
Lemma lookup_app_new (h : list request) r : (h ++ [r]) !!! length h = r.
Proof. rewrite lookup_total_app_r, Nat.sub_diag by lia. done. Qed.

Lemma gc_noop T s : Forall (fun p => T <= r_term (get s p)) (inflight_requests s) ->
  gc_requests_from_older_terms T s = s.
Proof.
  unfold gc_requests_from_older_terms. destruct s as [h q fin]. cbn. intros HF.
  destruct HF as [|p q' Hp _]; [done|]. cbn. unfold get in Hp. cbn in Hp.
  by destruct (Z.ltb_spec (r_term (h !!! p)) T); [lia|].
Qed.

Lemma find_request_Some f s q p : find_request f s q = Some p -> p ∈ q /\ f (get s p) = true.
Proof.
  unfold find_request. intros ([i x] & E & [= ->])%fmap_Some.
  apply list_find_Some in E as (Hi & Hf & _). split; [by eapply list_elem_of_lookup_2|done].
Qed.

Lemma drop_completed_spec h q fin :
  exists k, (drop_completed h q fin).1 = drop k q /\
    (k = 0%nat /\ (drop_completed h q fin).2 = fin \/
     (requests_cached_max <= length (drop k q))%nat /\ (drop_completed h q fin).2 = []).
Proof.
  revert fin. induction q as [|p q IH]; intros fin; [exists 0%nat; by split; [|left]|].
  cbn [drop_completed]. destruct (_ && _) eqn:E; [|exists 0%nat; by split; [|left]].
  apply andb_true_iff in E as [E _]. apply Nat.ltb_lt in E.
  destruct (IH []) as (k & Hk & Hf). exists (S k). split; [done|]. right.
  destruct Hf as [[-> Hf]|[Hl Hf]]; (split; [|done]); [|done].
  change (drop 1 (p :: q)) with q. cbn [length] in E. lia.
Qed.

(** The four ways [try_emplace] ends without a reset. *)
Lemma try_emplace_cases f l T s :
  Forall (fun p => T <= r_term (get s p)) (inflight_requests s) ->
  (exists p, try_emplace f l T false s = (s, inl p) /\ p ∈ inflight_requests s ++ finished_requests s /\
     range_of (heap s) p = (f, l)) \/
  try_emplace f l T false s = (s, inr (cluster_error cluster_errc.sequence_out_of_order)) \/
  is_valid_sequence s f = true /\
  (forall p, p ∈ finished_requests s -> matches f l (get s p) = false) /\
  (forall p, p ∈ inflight_requests s -> r_term (get s p) = T -> matches f l (get s p) = false) /\
  exists s', enqueue f l T s = (s', length (heap s)) /\
    try_emplace f l T false s = (s', inl (length (heap s))).
Proof.
  intros HT. unfold try_emplace. rewrite gc_noop by done.
  assert (Hm : forall r, matches f l r = true -> (first_sequence r, last_sequence r) = (f, l)).
  { intros r. unfold matches. rewrite andb_true_iff, !Z.eqb_eq. by intros [-> ->]. }
  destruct (find_request _ s (finished_requests s)) as [p|] eqn:E1.
  { left. exists p. apply find_request_Some in E1 as [Hp Hf]. split_and!; [done|set_solver|by apply Hm]. }
  destruct (find_request _ s (inflight_requests s)) as [p|] eqn:E2.
  { left. exists p. apply find_request_Some in E2 as [Hp Hf]. apply andb_true_iff in Hf as [Hf _].
    split_and!; [done|set_solver|by apply Hm]. }
  destruct (is_valid_sequence s f) eqn:Ev; cbn [negb]; [|by right; left].
  right. right. split; [done|]. unfold find_request in E1, E2.
  apply fmap_None, list_find_None in E1, E2. rewrite Forall_forall in E1, E2. split_and!.
  - intros p Hp. specialize (E1 p Hp). by destruct (matches _ _ _).
  - intros p Hp Ht. specialize (E2 p Hp). rewrite Ht, Z.eqb_refl, andb_true_r in E2.
    by destruct (matches _ _ _).
  - unfold enqueue. destruct (drop_completed _ _ _). eauto.
Qed.

Lemma last_drop {A} (l : list A) k : (k < length l)%nat -> last (drop k l) = last l.
Proof.
  revert k. induction l as [|x l IH]; intros k Hk; [cbn in Hk; lia|]. destruct k as [|k]; [done|].
  cbn [drop length] in *. rewrite IH by lia. destruct l; [cbn in Hk; lia|done].
Qed.

(** ** Sequences without holes *)

Lemma next_sequence_mod l : 0 <= l <= int32_max -> next_sequence l = (l + 1) mod sequence_numbers.
Proof.
  intros Hl. unfold next_sequence, sequence_numbers. destruct (Z.eqb_spec l int32_max) as [->|]; [done|].
  rewrite swrap_id, Z.mod_small by ranges. done.
Qed.

Lemma next_sequence_range l : 0 <= l <= int32_max -> 0 <= next_sequence l <= int32_max.
Proof. intros Hl. rewrite next_sequence_mod by done. pose proof (Z.mod_pos_bound (l + 1) sequence_numbers ltac:(done)). unfold sequence_numbers in *. ranges. Qed.

Fixpoint contiguous (n : Z) (s : list (Z * Z)) : Prop :=
  match s with
  | [] => True
  | (f, l) :: s => f = n /\ 0 <= l <= int32_max /\ contiguous (next_sequence l) s
  end.

Definition next_of (n : Z) (s : list (Z * Z)) : Z :=
  match last s with Some (_, l) => next_sequence l | None => n end.

Lemma next_of_cons n f l s : next_of n ((f, l) :: s) = next_of (next_sequence l) s.
Proof.
  destruct s as [|x s]; [done|]. unfold next_of. change (last ((f, l) :: x :: s)) with (last (x :: s)).
  destruct (last (x :: s)) eqn:E; [done|]. by apply last_None in E.
Qed.

Lemma contiguous_snoc n s f l :
  contiguous n (s ++ [(f, l)]) <-> contiguous n s /\ f = next_of n s /\ 0 <= l <= int32_max.
Proof.
  revert n. induction s as [|[f' l'] s IH]; intros n; [cbn; tauto|].
  cbn [app contiguous]. rewrite IH, next_of_cons. tauto.
Qed.

Lemma contiguous_lookup n s i a : contiguous n s -> s !! i = Some a -> 0 <= a.2 <= int32_max.
Proof.
  revert n i. induction s as [|[f l] s IH]; intros n i H E; [done|]. destruct H as (-> & H1 & H2).
  destruct i as [|i]; cbn in E; [by injection E as <-|by eapply IH].
Qed.

(** How many numbers the ranges take. *)
Definition total (s : list (Z * Z)) : Z := foldr (fun r a => range_size r + a) 0 s.

Lemma range_size_pos r : 0 < range_size r.
Proof. unfold range_size. pose proof (Z.mod_pos_bound (r.2 - r.1) sequence_numbers ltac:(done)). lia. Qed.

Lemma total_app s t : total (s ++ t) = total s + total t.
Proof. unfold total. induction s as [|r s IH]; [done|]. cbn [app foldr]. rewrite IH. lia. Qed.

Lemma total_nonneg s : 0 <= total s.
Proof. induction s as [|r s IH]; [done|]. cbn. fold (total s). pose proof (range_size_pos r). lia. Qed.

Lemma numbers_length s : Z.of_nat (length (concat (numbers <$> s))) = total s.
Proof.
  induction s as [|r s IH]; [done|]. cbn. fold (total s). rewrite length_app, Nat2Z.inj_add, IH. unfold numbers.
  rewrite length_fmap, length_seqZ. pose proof (range_size_pos r). lia.
Qed.

(** The number after a range, counted from its beginning. *)
Lemma next_after_range n l : 0 <= l <= int32_max -> (next_sequence l) mod sequence_numbers = (n + range_size (n, l)) mod sequence_numbers.
Proof.
  intros Hl. rewrite next_sequence_mod by done. unfold range_size. cbn [fst snd].
  rewrite Zmod_mod, Z.add_assoc, <- (Zplus_mod_idemp_l (n + (l - n) mod sequence_numbers)), Zplus_mod_idemp_r, Zplus_mod_idemp_l.
  f_equal. lia.
Qed.

Lemma contiguous_at n s i a : 0 <= n <= int32_max -> contiguous n s -> s !! i = Some a -> a.1 = (n + total (take i s)) mod sequence_numbers.
Proof.
  revert n i. induction s as [|[f l] s IH]; intros n i Hn H E; [done|]. destruct H as (-> & H1 & H2).
  destruct i as [|i]; cbn in E.
  - injection E as <-. cbn. rewrite Z.add_0_r, Z.mod_small; [done|]. unfold sequence_numbers. ranges.
  - rewrite (IH _ _ (next_sequence_range l H1) H2 E). cbn [take total foldr]. fold (total (take i s)).
    rewrite Z.add_assoc, <- Zplus_mod_idemp_l, (next_after_range n l H1), Zplus_mod_idemp_l. done.
Qed.

(** As long as the numbers have not come round, no range comes twice. *)
Lemma contiguous_inj n s i j a : 0 <= n <= int32_max -> contiguous n s -> total s <= sequence_numbers ->
  s !! i = Some a -> s !! j = Some a -> i = j.
Proof.
  intros Hn H Ht. assert (Hlt : forall i j, (i < j)%nat -> s !! i = Some a -> s !! j = Some a -> False).
  { clear i j. intros i j Hij Ei Ej. pose proof (contiguous_at n s i a Hn H Ei) as H1.
    rewrite (contiguous_at n s j a Hn H Ej) in H1.
    assert (Hsplit : total (take j s) = total (take i s) + total (drop i (take j s))).
    { rewrite <- total_app. f_equal. rewrite <- (take_drop i (take j s)) at 1. f_equal. rewrite take_take. f_equal. lia. }
    assert (Hpos : 0 < total (drop i (take j s))).
    { assert (take j s !! i = Some a) as Et by (by rewrite lookup_take_lt). rewrite (drop_S _ _ _ Et). cbn.
      fold (total (drop (S i) (take j s))). pose proof (range_size_pos a). pose proof (total_nonneg (drop (S i) (take j s))). lia. }
    assert (Hsum : total s = total (take j s) + (range_size a + total (drop (S j) s))).
    { rewrite <- (take_drop j s) at 1. rewrite total_app, (drop_S _ _ _ Ej). done. }
    pose proof (range_size_pos a). pose proof (total_nonneg (drop (S j) s)). pose proof (total_nonneg (take i s)).
    set (d := total (drop i (take j s))) in *. rewrite Hsplit, Z.add_assoc in H1.
    set (x := n + total (take i s)) in *. pose proof (Z.div_mod (x + d) sequence_numbers ltac:(done)).
    pose proof (Z.div_mod x sequence_numbers ltac:(done)). rewrite H1 in H4.
    assert (d = sequence_numbers * ((x + d) / sequence_numbers - x / sequence_numbers)) as Hd by lia.
    unfold sequence_numbers in *. nia. }
  intros Ei Ej. destruct (lt_eq_lt_dec i j) as [[?|]|?]; [exfalso; by eapply (Hlt i j)|done|exfalso; by eapply (Hlt j i)].
Qed.

(** Numbers that are counted from places that agree are the same. *)
Lemma numbers_shift a b k : a mod sequence_numbers = b mod sequence_numbers ->
  (fun i => i mod sequence_numbers) <$> seqZ a k = (fun i => i mod sequence_numbers) <$> seqZ b k.
Proof.
  intros H. unfold seqZ. rewrite <- !list_fmap_compose. apply list_fmap_ext. intros _ i _. cbn.
  by rewrite <- (Zplus_mod_idemp_r a), H, Zplus_mod_idemp_r.
Qed.

(** Ranges without holes are the numbers in order. *)
Lemma contiguous_numbers n s : contiguous n s ->
  concat (numbers <$> s) = (fun i => i mod sequence_numbers) <$> seqZ n (total s).
Proof.
  revert n. induction s as [|[f l] s IH]; intros n H; [done|]. destruct H as (-> & H1 & H2).
  rewrite fmap_cons. cbn [concat]. rewrite (IH _ H2). cbn [total foldr]. fold (total s).
  pose proof (range_size_pos (n, l)). pose proof (total_nonneg s). rewrite (seqZ_app n (range_size (n, l))) by lia. rewrite fmap_app. f_equal.
  - unfold numbers, seqZ. rewrite <- !list_fmap_compose. apply list_fmap_ext. intros _ i _. cbn. f_equal. lia.
  - apply numbers_shift, (next_after_range n l H1).
Qed.

(** ** The leader's invariant *)

Section leader_facts.
Variable term : Z.
Variable from_log_offset : Z -> res Z.
Variable id : producer_identity.
Hypothesis id_nonneg : 0 <= pid_id id.
(** The last range that was applied before, and the number that follows. *)
Variables (last_applied : option (Z * Z)) (base : Z).
Hypothesis base_after : base = number_after last_applied.
Hypothesis base_range : 0 <= base <= int32_max.

Definition task_ok (t : idempotent_task) : Prop :=
  match t with Start b known => bid_ok id b /\ (known = true \/ first_seq b = 0) | _ => True end.

(** The queues: valid pointers, requests of this term that raft was called for. *)
Record queues_ok (s : requests) : Prop := {
  queues_valid : Forall (fun p => (p < length (heap s))%nat) (inflight_requests s ++ finished_requests s);
  queues_term : Forall (fun p => r_term (get s p) = term) (inflight_requests s);
  queues_marked : Forall (fun r => r_state r <> request_state.initialized) (heap s);
}.

(** What is in flight is the end of what was sent; if nothing is, the log has passed
    all of it, and the last request applied was the last one sent. *)
Definition tracks (s : requests) (sent : list (Z * Z)) (n : nat) : Prop :=
  exists m, (m <= length sent)%nat /\ range_of (heap s) <$> inflight_requests s = drop m sent /\
    (m = length sent -> n = length sent /\
      range_of (heap s) <$> last (finished_requests s) = match last sent with Some r => Some r | None => last_applied end).

Record leader_inv (y : leader) : Prop := {
  inv_id : ps_id (ld_producer y) = id;
  inv_present : evicted (ld_producer y) = false;
  inv_queues : queues_ok (ps_requests (ld_producer y));
  inv_tasks : Forall task_ok (ld_tasks y);
  inv_sent : contiguous base (ld_sent y);
  inv_applied : (ld_applied y <= length (ld_sent y))%nat;
  inv_tracks : tracks (ps_requests (ld_producer y)) (ld_sent y) (ld_applied y);
}.

(** Changing requests in place keeps the queues and what they track. *)
Lemma put_queues s p r sent n :
  first_sequence r = first_sequence (get s p) -> last_sequence r = last_sequence (get s p) ->
  r_term r = r_term (get s p) ->
  ((p < length (heap s))%nat -> r_state r <> request_state.initialized) ->
  queues_ok s -> tracks s sent n -> queues_ok (put s p r) /\ tracks (put s p r) sent n.
Proof.
  intros H1 H2 H3 H4 [V T M] (m & Hm & Hr & Hn).
  destruct (same_shape_insert (heap s) p r H1 H2 H3) as [Hl Hs]. split.
  - split; cbn.
    + by rewrite Hl.
    + eapply Forall_impl; [exact T|]. intros q Hq. unfold get in *. cbn. by rewrite (proj2 (Hs q)).
    + destruct (decide (p < length (heap s))%nat) as [Hp|Hp]; [|by rewrite list_insert_ge by lia].
      apply Forall_insert; auto.
  - exists m. cbn. split; [done|].
    assert (E : forall q, range_of (<[p := r]> (heap s)) q = range_of (heap s) q) by (intros q; apply Hs).
    rewrite (list_fmap_ext _ (range_of (heap s))) by (intros ? ? _; apply E). split; [done|].
    intros Hm'. destruct (Hn Hm') as [-> Hf]. split; [done|]. rewrite <- Hf.
    destruct (last (finished_requests s)); cbn; [by rewrite E|done].
Qed.

(** The next number is the only one accepted. *)
Lemma valid_next s sent n f :
  contiguous base sent -> tracks s sent n -> is_valid_sequence s f = true -> f = next_of base sent.
Proof.
  intros Hc (m & Hm & Hr & Hn) Hv. unfold is_valid_sequence in Hv.
  assert (Hlast : range_of (heap s) <$> last_request s = match last sent with Some r => Some r | None => last_applied end).
  { unfold last_request. destruct (decide (m = length sent)) as [Hm'|Hm'].
    - destruct (Hn Hm') as [_ <-]. rewrite Hm', drop_all in Hr. apply fmap_nil_inv in Hr. by rewrite Hr.
    - assert (last (drop m sent) = last sent) as Hl by (apply last_drop; lia).
      assert (Hne : is_Some (last sent)). { destruct (last sent) eqn:El; [done|]. apply last_None in El as ->. cbn in *. lia. }
      destruct Hne as [x Hx]. rewrite Hx, <- Hx, <- Hl, <- Hr, fmap_last.
      destruct (last (inflight_requests s)) as [p|] eqn:E; [done|].
      apply last_None in E. rewrite E in Hr. apply (f_equal length) in Hr. cbn in Hr. rewrite length_drop in Hr. lia. }
  unfold next_of. rewrite base_after. destruct (last_request s) as [p|]; cbn in Hlast.
  - apply Z.eqb_eq in Hv. subst f. unfold range_of, get in *. destruct (last sent) as [[f' l']|]; [by injection Hlast as _ ->|].
    rewrite <- Hlast. done.
  - apply Z.eqb_eq in Hv. destruct (last sent); [done|]. by rewrite <- Hlast.
Qed.

Lemma range_app_old h r q : Forall (fun p => (p < length h)%nat) q ->
  range_of (h ++ [r]) <$> q = range_of h <$> q.
Proof.
  intros HF. induction HF as [|p q Hp HF IH]; [done|]. rewrite !fmap_cons, IH. f_equal.
  unfold range_of. by rewrite lookup_app_old.
Qed.

(** Queueing the next range. *)
Lemma enqueue_tracks f l s sent n s' :
  queues_ok s -> contiguous base sent -> (n <= length sent)%nat -> tracks s sent n ->
  enqueue f l term s = (s', length (heap s)) ->
  r_state (get s' (length (heap s))) = request_state.initialized /\
  let s'' := put s' (length (heap s)) (mark_request_in_progress (get s' (length (heap s)))) in
  queues_ok s'' /\ tracks s'' (sent ++ [(f, l)]) n.
Proof.
  intros [V T M] Hc Hle (m & Hm & Hr & Hn) E. set (p := length (heap s)) in *.
  unfold enqueue in E. fold p in E. set (r := make_request f l term None) in *.
  destruct (drop_completed_spec (heap s ++ [r]) (inflight_requests s ++ [p]) (finished_requests s)) as (k & Hk & Hf).
  destruct (drop_completed _ _ _) as [q fin]. cbn [fst snd] in Hk, Hf. injection E as <-.
  assert (Hr' : (heap s ++ [r]) !!! p = r) by apply lookup_app_new.
  unfold get. cbn [heap]. split; [by rewrite Hr'|]. rewrite Hr'.
  apply Forall_app in V as [Vi Vf].
  assert (Hshape : same_shape (heap s ++ [r]) (<[p := mark_request_in_progress r]> (heap s ++ [r])))
    by (apply same_shape_insert; by rewrite Hr').
  destruct Hshape as [HL HS]. split.
  - split; cbn [put heap inflight_requests finished_requests].
    + rewrite HL, length_app. cbn. rewrite Hk. apply Forall_app. split.
      * apply Forall_drop, Forall_app. split; [|repeat constructor; unfold p; lia].
        eapply Forall_impl; [exact Vi|]. cbn. intros; lia.
      * destruct Hf as [[_ ->]|[_ ->]]; [|constructor]. eapply Forall_impl; [exact Vf|]. cbn. intros; lia.
    + rewrite Hk. apply Forall_drop, Forall_app. unfold get. cbn [put heap]. split.
      * rewrite Forall_forall in T, Vi |- *. intros x Hx. rewrite (proj2 (HS x)).
        rewrite lookup_app_old by (by apply Vi). by apply T.
      * repeat constructor. rewrite (proj2 (HS p)), Hr'. done.
    + rewrite insert_app_r_alt by (unfold p; lia). apply Forall_app. split; [done|].
      unfold p. rewrite Nat.sub_diag. by repeat constructor.
  - exists (m + k)%nat. cbn [put heap inflight_requests finished_requests].
    rewrite (list_fmap_ext _ (range_of (heap s ++ [r]))) by (intros ? ? _; apply HS).
    assert (Hall : range_of (heap s ++ [r]) <$> (inflight_requests s ++ [p]) = drop m (sent ++ [(f, l)])).
    { rewrite fmap_app, range_app_old, Hr, drop_app_le by done. f_equal. cbn. unfold range_of. by rewrite Hr'. }
    assert (Hlen : length (inflight_requests s ++ [p]) = (length sent + 1 - m)%nat).
    { apply (f_equal length) in Hall. rewrite length_fmap, length_drop, !length_app in Hall. cbn in Hall.
      rewrite length_app. cbn. lia. }
    assert (Hk' : (k < length (inflight_requests s ++ [p]))%nat).
    { destruct Hf as [[-> _]|[Hf _]]; [rewrite length_app; cbn; lia|].
      rewrite length_drop in Hf. unfold requests_cached_max in Hf. lia. }
    rewrite length_app. cbn [length]. split; [lia|]. rewrite Hk, fmap_drop, Hall, drop_drop. split; [done|]. lia.
Qed.

Lemma start_step bid known ps sent n ps' t out :
  task_ok (Start bid known) -> ps_id ps = id -> queues_ok (ps_requests ps) -> contiguous base sent ->
  (n <= length sent)%nat -> tracks (ps_requests ps) sent n ->
  start_idempotent term bid known ps = Ok (ps', t, out) ->
  exists s', ps' = set_requests ps s' /\ queues_ok s' /\ task_ok t /\
    let sent' := sent ++ (if out : bool then [(first_seq bid, last_seq bid)] else []) in
    contiguous base sent' /\ (n <= length sent')%nat /\ tracks s' sent' n.
Proof.
  intros [(Hpid & Hseq & Hmax) Hk] Hid HQ Hc Hle Htr. unfold start_idempotent. rewrite Hpid, Hid, (Z.gtb_ltb (pid_epoch id)), Z.ltb_irrefl.
  cbn [mbind res_bind]. assert (negb known && (first_seq bid >? 0) = false) as ->.
  { destruct Hk as [->| ->]; [done|]. by rewrite andb_false_r. }
  unfold try_emplace_request. destruct (Z.ltb_spec (first_seq bid) 0); [lia|].
  destruct (Z.ltb_spec (last_seq bid) 0); [lia|]. cbn [orb].
  assert (Hsame : ps = set_requests ps (ps_requests ps)) by (by destruct ps).
  destruct (try_emplace_cases (first_seq bid) (last_seq bid) term (ps_requests ps))
    as [(p & -> & Hp & _)|[->|(Hv & _ & _ & s' & He & ->)]].
  { eapply Forall_impl; [apply HQ|]. cbn. intros; lia. }
  - assert (Hst : r_state (get (ps_requests ps) p) <> request_state.initialized).
    { destruct HQ as [V _ M]. rewrite Forall_forall in V. specialize (V p Hp).
      rewrite Forall_forall in M. apply M, list_elem_of_lookup_total_2, V. }
    cbn [ps_requests set_requests]. rewrite bool_decide_eq_false_2 by done. cbn [negb].
    intros [= <- <- <-]. exists (ps_requests ps). rewrite app_nil_r. by split_and!.
  - intros [= <- <- <-]. exists (ps_requests ps). rewrite app_nil_r. by split_and!.
  - destruct (enqueue_tracks _ _ _ sent n s' HQ Hc Hle Htr He) as (Hi & HQ' & Ht').
    cbn [ps_requests set_requests]. rewrite bool_decide_eq_true_2 by done. cbn [negb].
    intros [= <- <- <-]. eexists. split; [by destruct ps|]. split; [exact HQ'|]. split; [done|]. cbn zeta.
    split; [|split; [rewrite length_app; lia|exact Ht']].
    apply contiguous_snoc. split; [done|]. split; [by eapply valid_next|lia].
Qed.

Definition settled (r r' : request) : Prop :=
  first_sequence r' = first_sequence r /\ last_sequence r' = last_sequence r /\
  r_term r' = r_term r /\ r_state r' <> request_state.initialized.

Lemma set_error_settled r e r' : set_error r e = Ok r' -> settled r r'.
Proof.
  unfold set_error, has_completed. case_bool_decide as Hs; [|by intros [= <-]].
  destruct (r_result r) as [[]|]; [done| |done]. intros [= <-]. split_and!; [done..|]. by rewrite Hs.
Qed.

Lemma set_value_settled r v : settled r (set_value r v).
Proof.
  unfold set_value, has_completed. case_bool_decide as Hs; [|done]. split_and!; [done..|]. by rewrite Hs.
Qed.

(** A task that goes on after raft has answered. *)
Lemma settle_step ps p r sent n :
  settled (get (ps_requests ps) p) r -> queues_ok (ps_requests ps) -> tracks (ps_requests ps) sent n ->
  queues_ok (put (ps_requests ps) p r) /\ tracks (put (ps_requests ps) p r) sent n.
Proof. intros (H1 & H2 & H3 & H4) HQ Ht. by apply put_queues. Qed.

Lemma run_step ev ps t ps' t' out sent n :
  task_ok t -> ps_id ps = id -> queues_ok (ps_requests ps) -> contiguous base sent ->
  (n <= length sent)%nat -> tracks (ps_requests ps) sent n ->
  task_step term from_log_offset ev ps t = Ok (ps', t', out) ->
  exists s', ps' = set_requests ps s' /\ queues_ok s' /\ task_ok t' /\
    contiguous base (sent ++ out) /\ (n <= length (sent ++ out))%nat /\ tracks s' (sent ++ out) n.
Proof.
  intros Ht Hid HQ Hc Hle Htr E.
  assert (Hsame : ps = set_requests ps (ps_requests ps)) by (by destruct ps).
  assert (Hkeep : forall s', queues_ok s' -> tracks s' sent n -> task_ok t' -> out = [] -> ps' = set_requests ps s' ->
    exists s', ps' = set_requests ps s' /\ queues_ok s' /\ task_ok t' /\
      contiguous base (sent ++ out) /\ (n <= length (sent ++ out))%nat /\ tracks s' (sent ++ out) n).
  { intros s' ? ? ? -> ->. exists s'. rewrite app_nil_r. by split_and!. }
  assert (Hfail : forall p e x, fail_request p e ps = Ok x -> Ok (x.1, x.2, []) = Ok (ps', t', out) ->
    exists s', ps' = set_requests ps s' /\ queues_ok s' /\ task_ok t' /\
      contiguous base (sent ++ out) /\ (n <= length (sent ++ out))%nat /\ tracks s' (sent ++ out) n).
  { intros p e x Ef [= <- <- <-]. unfold fail_request in Ef. apply res_bind_Ok in Ef as (r & Hr & [= <-]).
    apply set_error_settled in Hr. destruct (settle_step ps p r sent n Hr HQ Htr). by eapply Hkeep. }
  destruct t as [bid known|p|p|p|r|e]; destruct ev as [|ok|res|]; cbn [task_step] in E;
    try (injection E as <- <- <-; by eapply Hkeep).
  - apply res_bind_Ok in E as ([[ps1 t1] b] & E & [= <- <- <-]). by eapply start_step.
  - destruct ok; [injection E as <- <- <-; by eapply Hkeep|].
    apply res_bind_Ok in E as ([ps1 t1] & Ef & E). by eapply Hfail.
  - destruct res as [[[o lt]|e]|].
    + destruct (from_log_offset o) as [k|x|]; [|injection E as <- <- <-; by eapply Hkeep|done].
      injection E as <- <- <-.
      destruct (settle_step ps p _ sent n (set_value_settled (get (ps_requests ps) p)
        {| kr_last_offset := k; kr_last_term := lt |}) HQ Htr). by eapply Hkeep.
    + apply res_bind_Ok in E as ([ps1 t1] & Ef & E). by eapply Hfail.
    + apply res_bind_Ok in E as ([ps1 t1] & Ef & E). by eapply Hfail.
  - injection E as <- <- <-. eapply Hkeep; [done..| |done|exact Hsame].
    by destruct (r_result _).
Qed.

(** What applying a batch that was sent does to the requests in flight. *)
Lemma stm_apply_queue bid offset s sent n j :
  queues_ok s -> contiguous base sent -> total sent <= sequence_numbers -> tracks s sent n -> (n <= j)%nat ->
  sent !! j = Some (first_seq bid, last_seq bid) ->
  exists q' m', (q' = inflight_requests s \/ q' = tail (inflight_requests s)) /\
    range_of (heap s) <$> q' = drop m' sent /\ (m' <= length sent)%nat /\
    (m' = length sent -> S j = length sent) /\
    stm_apply bid term offset s =
      (let fin := finished_requests s ++ [length (heap s)] in
       {| heap := heap s ++ [make_request (first_seq bid) (last_seq bid) term
            (Some (inl {| kr_last_offset := offset; kr_last_term := int64_min |}))];
          inflight_requests := q'; finished_requests := drop (length fin - requests_cached_max) fin |}).
Proof.
  intros [V T M] Hc Htot (m & Hm & Hr & Hn) Hj Ej.
  assert (Hjl : (j < length sent)%nat) by (apply lookup_lt_is_Some; eauto).
  assert (Hml : (m < length sent)%nat).
  { destruct (decide (m = length sent)) as [E|]; [|lia]. destruct (Hn E) as [-> _]. lia. }
  destruct (lookup_lt_is_Some_2 sent m Hml) as [a Ha]. rewrite (drop_S _ _ _ Ha) in Hr. unfold stm_apply.
  destruct (inflight_requests s) as [|p0 q] eqn:Eq; [done|]. rewrite fmap_cons in Hr. injection Hr as Hp0 Hq.
  destruct (matches _ _ _) eqn:Em.
  - exists q, (S m). split; [by right|]. split; [done|]. split; [lia|]. split.
    + intros Hlast. assert (j = m) as ->; [|done]. eapply (contiguous_inj base sent); [done|done|done|exact Ej|].
      rewrite Ha, <- Hp0. unfold matches in Em. apply andb_true_iff in Em as [E1 E2].
      apply Z.eqb_eq in E1, E2. unfold range_of, get in *. congruence.
    + rewrite gc_noop; [done|]. cbn. apply Forall_cons in T as [_ T].
      eapply Forall_impl; [exact T|]. unfold get. cbn. intros; lia.
  - exists (p0 :: q), m. split; [by left|]. split; [by rewrite (drop_S _ _ _ Ha), fmap_cons, Hp0, Hq|].
    split; [lia|]. split; [lia|]. rewrite gc_noop; [by rewrite Eq|]. rewrite Eq.
    eapply Forall_impl; [exact T|]. cbn. intros; lia.
Qed.

(** The log passes a batch that was sent. *)
Lemma stm_apply_tracks bid offset s sent n j :
  queues_ok s -> contiguous base sent -> total sent <= sequence_numbers -> tracks s sent n -> (n <= j)%nat ->
  sent !! j = Some (first_seq bid, last_seq bid) ->
  queues_ok (stm_apply bid term offset s) /\ tracks (stm_apply bid term offset s) sent (S j).
Proof.
  intros HQ Hc Htot Ht Hj Ej.
  destruct (stm_apply_queue bid offset s sent n j HQ Hc Htot Ht Hj Ej) as (q' & m' & Hq' & Hr' & Hm' & Hend & ->).
  destruct HQ as [V T M]. apply Forall_app in V as [Vi Vf].
  assert (Hsub : forall P, Forall P (inflight_requests s) -> Forall P q').
  { intros P HP. destruct Hq' as [-> | ->]; [done|]. by destruct HP. }
  apply Hsub in Vi, T. cbn zeta. split.
  - split; cbn [heap inflight_requests finished_requests].
    + rewrite length_app. cbn. apply Forall_app. split; [eapply Forall_impl; [exact Vi|]; cbn; intros; lia|].
      apply Forall_drop, Forall_app. split; [eapply Forall_impl; [exact Vf|]; cbn; intros; lia|].
      repeat constructor. lia.
    + rewrite Forall_forall in Vi, T |- *. intros x Hx. unfold get. cbn [heap].
      rewrite lookup_app_old by (by apply Vi). by apply T.
    + apply Forall_app. split; [done|]. by repeat constructor.
  - exists m'. cbn [heap inflight_requests finished_requests]. rewrite range_app_old by done.
    split; [done|]. split; [done|]. intros El. split; [by apply Hend|].
    rewrite last_drop, last_snoc by (rewrite length_app; cbn; unfold requests_cached_max; lia).
    cbn. unfold range_of. rewrite lookup_app_new. cbn. rewrite last_lookup, <- (Hend El). cbn [pred]. by rewrite Ej.
Qed.

Lemma leader_inv_step y y' : leader_step term from_log_offset id y y' -> total (ld_sent y) <= sequence_numbers -> leader_inv y -> leader_inv y'.
Proof.
  intros Hs Htot [I1 I2 I3 I4 I5 I6 I7]. destruct Hs as [ps ts sent n bid known Hb Hk|ps ts sent n i ev t ps' t' out Hi E|
    ps ts sent n j h offset ps' Hj bid Ej Hp Htx Hterm E];
    cbn [ld_producer ld_tasks ld_sent ld_applied] in *.
  - split; cbn; try done. apply Forall_app. split; [done|]. constructor; [by split|constructor].
  - pose proof I4 as I4'. rewrite Forall_forall in I4. destruct (run_step ev ps t ps' t' out sent n)
      as (s' & -> & HQ & Ht & Hc & Hl & Htr); [by eapply I4, list_elem_of_lookup_2|done..|].
    split; cbn; try done. by apply Forall_insert.
  - unfold apply_data in E. fold bid in E.
    assert (Hidem : is_idempotent bid = true).
    { unfold is_idempotent, no_producer_id. rewrite Hp, Z.gtb_ltb. apply Z.ltb_lt. lia. }
    rewrite Hidem, I2, Htx, Hp, I1, Z.gtb_ltb, Z.ltb_irrefl in E. cbn in E. injection E as <-.
    rewrite Hterm. destruct (stm_apply_tracks bid offset (ps_requests ps) sent n j) as [HQ Htr]; [done..|].
    split; cbn; try done. apply lookup_lt_Some in Ej. lia.
Qed.

(** *** The start of a term *)

(** Requests of earlier terms are failed and forgotten. *)
Lemma gc_loop_all T h q : Forall (fun p => r_term (h !!! p) < T) q ->
  (gc_loop T h q).2 = [] /\ same_shape h (gc_loop T h q).1 /\
  (Forall (fun r => r_state r <> request_state.initialized) h ->
   Forall (fun r => r_state r <> request_state.initialized) (gc_loop T h q).1).
Proof.
  revert h. induction q as [|p q IH]; intros h; [done|]. intros [Hp Hq]%Forall_cons. cbn [gc_loop].
  rewrite (proj2 (Z.ltb_lt _ _) Hp).
  assert (Hsh : same_shape h (fail_pending (tx_error tx_errc.timeout) h p)).
  { unfold fail_pending. destruct (has_completed _); [reflexivity|]. by apply same_shape_insert. }
  destruct (IH (fail_pending (tx_error tx_errc.timeout) h p)) as (-> & H2 & H3).
  { eapply Forall_impl; [exact Hq|]. cbn. intros x. by rewrite (proj2 (proj2 Hsh x)). }
  split; [done|]. split; [by etrans|]. intros Hm. apply H3. unfold fail_pending. destruct (has_completed _); [done|].
  by apply Forall_insert.
Qed.

Lemma try_emplace_gc f l s : Forall (fun p => r_term (get s p) < term) (inflight_requests s) ->
  try_emplace f l term false s = try_emplace f l term false (gc_requests_from_older_terms term s).
Proof.
  intros H. unfold try_emplace. assert (gc_requests_from_older_terms term (gc_requests_from_older_terms term s)
    = gc_requests_from_older_terms term s) as ->; [|done].
  unfold gc_requests_from_older_terms. destruct (gc_loop_all term (heap s) (inflight_requests s) H) as (Hq & _).
  destruct (gc_loop term (heap s) (inflight_requests s)) as [h q]. cbn in Hq. by subst q.
Qed.

(** What the first request finds. *)
Lemma takes_over_gc ps : takes_over term id last_applied ps ->
  let s := gc_requests_from_older_terms term (ps_requests ps) in queues_ok s /\ tracks s [] 0.
Proof.
  intros [_ _ V O Mk L]. unfold gc_requests_from_older_terms.
  destruct (gc_loop_all term (heap (ps_requests ps)) (inflight_requests (ps_requests ps)) O) as (Hq & [HL HS] & HM).
  destruct (gc_loop term _ _) as [h q]. cbn [fst snd] in *. subst q. split.
  - split; cbn; [|constructor|by apply HM]. rewrite HL. by apply Forall_app in V as [_ V].
  - exists 0%nat. cbn. split; [done|]. split; [done|]. intros _. split; [done|]. rewrite <- L.
    destruct (last (finished_requests (ps_requests ps))) as [p|]; [|done]. cbn. f_equal. apply HS.
Qed.

(** Until a request takes the lock, the producer is as it was. *)
Definition waits (ps : producer_state) (y : leader) : Prop :=
  ld_producer y = ps /\ ld_sent y = [] /\ ld_applied y = 0%nat /\
  Forall (fun t => task_ok t /\ exists b known, t = Start b known) (ld_tasks y).

Lemma waits_step ps y y' : takes_over term id last_applied ps -> waits ps y -> leader_step term from_log_offset id y y' ->
  waits ps y' \/ leader_inv y'.
Proof.
  intros Hto (Hps & Hs & Hn & Ht) Hstep. destruct Hstep as [ps0 ts sent n bid known Hb Hk|ps0 ts sent n i ev t ps' t' out Hi E|
    ps0 ts sent n j h offset ps' Hj bid Ej]; cbn [ld_producer ld_tasks ld_sent ld_applied] in *; subst; [| |done].
  - left. split_and!; cbn; [done..|]. apply Forall_app. split; [done|]. apply Forall_singleton. split; [by split|by exists bid, known].
  - pose proof Ht as Ht'. rewrite Forall_forall in Ht. destruct (Ht t) as [Htask (bid & known & ->)]; [by eapply list_elem_of_lookup_2|].
    assert (Hidle : Ok (ps, Start bid known, []) = Ok (ps', t', out) ->
      waits ps {| ld_producer := ps'; ld_tasks := <[i := t']> ts; ld_sent := [] ++ out; ld_applied := 0 |}).
    { intros [= <- <- <-]. split_and!; cbn; [done..|]. apply Forall_insert; [done|]. split; [done|by exists bid, known]. }
    destruct ev; cbn [task_step] in E; try (left; by apply Hidle). right. clear Hidle.
    apply res_bind_Ok in E as ([[ps1 t1] b] & E & [= <- <- <-]).
    set (psg := set_requests ps (gc_requests_from_older_terms term (ps_requests ps))).
    assert (Hg : start_idempotent term bid known ps = start_idempotent term bid known psg).
    { clear E. destruct Htask as [(Hpid & Hseq & Hmax) Hk]. unfold start_idempotent.
      rewrite Hpid. change (ps_id psg) with (ps_id ps). rewrite (to_id _ _ _ _ Hto), (Z.gtb_ltb (pid_epoch id)), Z.ltb_irrefl. cbn [mbind res_bind].
      assert (negb known && (first_seq bid >? 0) = false) as -> by (destruct Hk as [->| ->]; [done|]; by rewrite andb_false_r).
      unfold try_emplace_request. rewrite (try_emplace_gc _ _ _ (to_older _ _ _ _ Hto)). cbn [psg ps_requests set_requests].
      destruct (Z.ltb_spec (first_seq bid) 0); [lia|]. destruct (Z.ltb_spec (last_seq bid) 0); [lia|]. cbn [orb].
      by destruct (try_emplace _ _ _ _ _). }
    rewrite Hg in E. destruct (takes_over_gc ps Hto) as [HQ Htr].
    destruct (start_step bid known psg [] 0 ps1 t1 b Htask) as (s' & -> & HQ' & Ht1 & Hc & Hl & Htr'); [apply Hto|exact HQ|done|done|exact Htr|exact E|].
    split; cbn; try done; [apply Hto|apply Hto|]. apply Forall_insert; [|done]. eapply Forall_impl; [exact Ht'|]. by intros ? [? _].
Qed.

Lemma step_total y y' : leader_step term from_log_offset id y y' -> total (ld_sent y) <= total (ld_sent y').
Proof. destruct 1; cbn [ld_sent]; [done| |done]. rewrite total_app. pose proof (total_nonneg out). lia. Qed.

Lemma leader_reachable (P : leader -> Prop) y0 y :
  (forall y1 y2, leader_step term from_log_offset id y1 y2 -> total (ld_sent y1) <= sequence_numbers -> P y1 -> P y2) ->
  rtc (leader_step term from_log_offset id) y0 y -> total (ld_sent y) <= sequence_numbers -> P y0 -> P y.
Proof.
  intros HP Hr. induction Hr as [y|y1 y2 y3 Hs Hr IH]; intros Ht H0; [done|]. apply IH; [done|]. eapply HP; [exact Hs| |exact H0].
  assert (total (ld_sent y2) <= total (ld_sent y3)) by (clear -Hr; induction Hr as [|a b c Hs _ IH]; [lia|pose proof (step_total _ _ Hs); lia]).
  pose proof (step_total _ _ Hs). lia.
Qed.

Lemma waits_reachable ps y0 y : takes_over term id last_applied ps -> waits ps y0 ->
  rtc (leader_step term from_log_offset id) y0 y -> total (ld_sent y) <= sequence_numbers -> contiguous base (ld_sent y).
Proof.
  intros Hto H0 Hr Ht. assert (H : waits ps y \/ leader_inv y).
  { eapply (leader_reachable (fun y => waits ps y \/ leader_inv y)); [|exact Hr|done|by left].
    intros y1 y2 Hs Ht1 [Hw|Hi]; [by eapply waits_step|right; by eapply leader_inv_step]. }
  destruct H as [(_ & -> & _)|H]; [done|apply H].
Qed.
End leader_facts.

(** The first batch of a producer that is not known. *)
Lemma unknown_starts term id group now bid ps t : bid_ok id bid ->
  start_idempotent term bid false (make_producer id group now) = Ok (ps, t, true) ->
  exists last_applied, first_seq bid = number_after last_applied /\
    leader_inv term id last_applied (first_seq bid)
      {| ld_producer := ps; ld_tasks := [t]; ld_sent := [(first_seq bid, last_seq bid)]; ld_applied := 0 |}.
Proof.
  intros (Hpid & Hf & Hl) E. unfold start_idempotent in E. rewrite Hpid in E. cbn [ps_id make_producer] in E.
  rewrite (Z.gtb_ltb (pid_epoch id)), Z.ltb_irrefl in E. cbn [mbind res_bind negb andb] in E. unfold try_emplace_request in E.
  destruct (Z.ltb_spec (first_seq bid) 0); [lia|]. destruct (Z.ltb_spec (last_seq bid) 0); [lia|]. cbn [orb] in E.
  exists (if decide (first_seq bid = 0) then None else Some (0, first_seq bid - 1)). split.
  { case_decide; [done|]. unfold number_after. rewrite next_sequence_mod, Z.sub_add, Z.mod_small by (unfold sequence_numbers; ranges). done. }
  assert (Hemp : try_emplace (first_seq bid) (last_seq bid) term (first_seq bid >? 0) no_requests
    = ({| heap := [make_request (first_seq bid) (last_seq bid) term None]; inflight_requests := [0%nat]; finished_requests := [] |}, inl 0%nat)).
  { rewrite Z.gtb_ltb. destruct (Z.ltb_spec 0 (first_seq bid)) as [|]; [done|]. assert (first_seq bid = 0) as -> by lia. done. }
  cbn [ps_requests make_producer] in E. rewrite Hemp in E. cbn in E. injection E as <- <-.
  split; cbn; [done|done| | |done|lia|].
  - by split; repeat constructor.
  - by repeat constructor.
  - exists 0%nat. split; [cbn; lia|]. split; [done|]. cbn. lia.
Qed.

(** ** Properties *)

(** C11: while a node leads, an idempotent producer's batches reach raft exactly in sequence: however
    requests, retries, replication results and applied batches interleave, the sequence numbers handed to raft are consecutive
    from the one that follows the last batch applied before the term (0 if there is none, or if the epoch is new; the first
    number of the first batch where the producer is unknown), each once, and 0 follows the largest.  This is for the batches of one epoch that are not part of a
    transaction, as long as the producer stays in memory, the batches of earlier terms and epochs have been
    applied before, and no more than the 2^31 numbers there are have been handed to raft. *)
Theorem idempotent_in_sequence term from_log_offset id base y0 y :
  0 <= pid_id id -> leader_start term id base y0 -> rtc (leader_step term from_log_offset id) y0 y ->
  Z.of_nat (length (sent_numbers y)) <= 2 ^ 31 ->
  exists n, sent_numbers y = (fun i => i mod 2 ^ 31) <$> seqZ base n.
Proof.
  intros Hid Hstart Hr Hlen. unfold sent_numbers in *. rewrite numbers_length in Hlen.
  assert (Hc : contiguous base (ld_sent y)).
  { destruct Hstart as [last_applied ps Hto Hl|group now bid ps t Hb E].
    - eapply (waits_reachable term from_log_offset id Hid last_applied); [done| |exact Hto| |exact Hr|exact Hlen].
      + destruct last_applied as [[f l]|]; cbn; [by apply next_sequence_range|ranges].
      + split_and!; [done..|constructor].
    - destruct (unknown_starts term id group now bid ps t Hb E) as (la & Hbase & Hinv).
      eapply (leader_reachable term from_log_offset id (leader_inv term id la (first_seq bid)));
        [|exact Hr|exact Hlen|exact Hinv].
      intros y1 y2 Hs Ht1. eapply leader_inv_step; [done|exact Hbase|apply Hb|done|done]. }
  exists (total (ld_sent y)). by apply contiguous_numbers.
Qed.

(** An environment and a short run of a producer whose last batch ended at the largest number: a batch, its retry
    while it is in flight, and the next batch after it was applied. *)
Definition example_id : producer_identity := {| pid_id := 7; pid_epoch := 0 |}.

Definition example_bid (first last : Z) : batch_identity :=
  {| pid := example_id; first_seq := first; last_seq := last; bid_record_count := last - first + 1;
     bid_max_timestamp := 0; bid_is_transactional := false |}.

Definition example_applied : record_batch_header :=
  {| header_crc := 0; b_size_bytes := 0; base_offset := 40; type := raft_data; crc := 0; attrs := 0;
     last_offset_delta := 2; first_timestamp := 0; max_timestamp := 0; producer_id := 7;
     producer_epoch := 0; base_sequence := 0; record_count := 3; ctx_term := 3; ctx_owner_shard := None |}.

Abbreviation example_step := (leader_step 3 (fun o => Ok o) example_id).

(** What a snapshot of an earlier term has of the producer. *)
Definition example_known : producer_state :=
  from_snapshot {| sn_id := example_id; sn_group := 1;
    sn_finished := [{| f_first := int32_max - 1; f_last := int32_max; f_last_offset := 39; f_term := 2 |}];
    sn_ms_since_last_update := 0; sn_transaction := None |}.

Definition example_leader : leader := {| ld_producer := example_known; ld_tasks := []; ld_sent := []; ld_applied := 0 |}.

Lemma example_start : leader_start 3 example_id 0 example_leader.
Proof.
  apply (start_known 3 example_id (Some (int32_max - 1, int32_max)) example_known); [|concrete].
  split; try reflexivity; repeat constructor; cbn; discriminate.
Defined.

Lemma example_run : exists y, rtc example_step example_leader y /\
  ld_sent y = [(0, 2); (3, 3)] /\ ld_applied y = 1%nat /\ length (ld_tasks y) = 3%nat.
Proof.
  eexists. split.
  - eapply rtc_l; [eapply (leader_arrive 3 _ example_id _ _ _ _ (example_bid 0 2) true); [concrete|by left]|].
    eapply rtc_l; [eapply (leader_arrive 3 _ example_id _ _ _ _ (example_bid 0 2) true); [concrete|by left]|].
    eapply rtc_l; [eapply (leader_arrive 3 _ example_id _ _ _ _ (example_bid 3 3) true); [concrete|by left]|].
    eapply rtc_l; [eapply (leader_run 3 _ example_id _ _ _ _ 0 Locked); [reflexivity|vm_compute; reflexivity]|].
    eapply rtc_l; [eapply (leader_run 3 _ example_id _ _ _ _ 1 Locked); [reflexivity|vm_compute; reflexivity]|].
    eapply rtc_l; [eapply (leader_apply 3 _ example_id _ _ _ _ 0 example_applied 42);
      [cbn; lia|vm_compute; reflexivity|reflexivity|reflexivity|reflexivity|vm_compute; reflexivity]|].
    eapply rtc_l; [eapply (leader_run 3 _ example_id _ _ _ _ 2 Locked); [reflexivity|vm_compute; reflexivity]|].
    apply rtc_refl.
  - vm_compute. split_and!; reflexivity.
Defined.

Lemma idempotent_in_sequence_witness :
  exists y n, length (ld_tasks y) = 3%nat /\ ld_sent y = [(0, 2); (3, 3)] /\ sent_numbers y = (fun i => i mod 2 ^ 31) <$> seqZ 0 n.
Proof.
  destruct example_run as (y & Hr & Hs & _ & Ht). exists y.
  destruct (idempotent_in_sequence 3 (fun o => Ok o) example_id 0 example_leader y ltac:(cbn; lia) example_start Hr) as [n Hn].
  - unfold sent_numbers. rewrite Hs. vm_compute. discriminate.
  - exists n. split; [exact Ht|]. split; [exact Hs|exact Hn].
Defined.

(** *** Retries *)

(** A queue whose requests are valid and whose terms go up, none beyond [T]. *)
Record in_terms (T : Z) (s : requests) : Prop := {
  terms_valid : Forall (fun p => (p < length (heap s))%nat) (inflight_requests s ++ finished_requests s);
  terms_sorted : StronglySorted Z.le ((fun p => r_term (get s p)) <$> inflight_requests s);
  terms_bound : Forall (fun p => r_term (get s p) <= T) (inflight_requests s);
}.

Lemma fail_pending_shape e h p : same_shape h (fail_pending e h p).
Proof. unfold fail_pending. destruct (has_completed _); [reflexivity|]. by apply same_shape_insert. Qed.

Lemma gc_loop_spec T h q :
  same_shape h (gc_loop T h q).1 /\ exists k, (gc_loop T h q).2 = drop k q /\
    (StronglySorted Z.le ((fun p => r_term (h !!! p)) <$> q) ->
     Forall (fun p => T <= r_term (h !!! p)) (gc_loop T h q).2).
Proof.
  revert h. induction q as [|p q IH]; intros h; cbn [gc_loop]; [split; [reflexivity|]; by exists 0%nat|].
  destruct (Z.ltb_spec (r_term (h !!! p)) T) as [Hlt|Hge].
  - pose proof (fail_pending_shape (tx_error tx_errc.timeout) h p) as Hsh.
    destruct (IH (fail_pending (tx_error tx_errc.timeout) h p)) as (H1 & k & H2 & H3).
    split; [by etrans|]. exists (S k). split; [done|]. intros Hs.
    rewrite fmap_cons in Hs. apply StronglySorted_inv in Hs as [Hs _].
    rewrite (list_fmap_ext _ (fun p => r_term (h !!! p))) in H3 by (intros ? x _; apply (proj2 (proj2 Hsh x))).
    specialize (H3 Hs). eapply Forall_impl; [exact H3|]. cbn. intros x Hx. by rewrite (proj2 (proj2 Hsh x)) in Hx.
  - split; [reflexivity|]. exists 0%nat. split; [done|]. intros Hs.
    rewrite fmap_cons in Hs. apply StronglySorted_inv in Hs as [_ Hs]. constructor; [done|].
    rewrite Forall_fmap in Hs. eapply Forall_impl; [exact Hs|]. cbn. intros; lia.
Qed.

(** Collecting old requests leaves those of the term. *)
Lemma gc_terms T s : in_terms T s ->
  let s' := gc_requests_from_older_terms T s in
  in_terms T s' /\ Forall (fun p => T <= r_term (get s' p)) (inflight_requests s').
Proof.
  intros [V So B]. unfold gc_requests_from_older_terms.
  destruct (gc_loop_spec T (heap s) (inflight_requests s)) as ([HL HS] & k & Hk & HF).
  destruct (gc_loop T (heap s) (inflight_requests s)) as [h q]. cbn [fst snd] in *. subst q.
  assert (E : forall x, r_term (h !!! x) = r_term (heap s !!! x)) by (intros; apply HS).
  cbn zeta. split; [split; cbn|]; unfold get in *; cbn.
  - rewrite HL. apply Forall_app in V as [V1 V2]. apply Forall_app. split; [by apply Forall_drop|done].
  - rewrite (list_fmap_ext _ (fun p => r_term (heap s !!! p))) by (intros ? x _; apply E).
    rewrite fmap_drop. clear - So. revert k. induction So as [|x l Hs IH Hf]; intros k; [rewrite drop_nil; constructor|].
    destruct k as [|k]; [by constructor|]. apply IH.
  - apply Forall_drop. eapply Forall_impl; [exact B|]. cbn. intros x. by rewrite E.
  - eapply Forall_impl; [by apply HF|]. cbn. intros x. by rewrite E.
Qed.

Lemma find_request_snoc f s q p :
  (forall x, x ∈ q -> f (get s x) = false) -> f (get s p) = true -> find_request f s (q ++ [p]) = Some p.
Proof.
  intros Hq Hp. unfold find_request. destruct (list_find _ _) as [[i x]|] eqn:E; cbn.
  - apply list_find_Some in E as (Hi & Hf & _). apply list_elem_of_lookup_2, elem_of_app in Hi as [Hi|Hi].
    + by rewrite (Hq x Hi) in Hf.
    + by apply list_elem_of_singleton in Hi as ->.
  - apply list_find_None in E. rewrite Forall_forall in E. exfalso. apply (E p); [set_solver|done].
Qed.

Lemma find_request_none f s q : (forall x, x ∈ q -> f (get s x) = false) -> find_request f s q = None.
Proof.
  intros Hq. unfold find_request. apply fmap_None, list_find_None, Forall_forall. intros x Hx.
  by rewrite (Hq x Hx).
Qed.

(** A retry within a term is answered from the first attempt's request: it is given
    the same shared request, and nothing is queued a second time, whether the request
    is in flight or applied, and whatever was left over from earlier terms. *)
Theorem retry_gets_same_request f l T s s' p :
  in_terms T s -> try_emplace f l T false s = (s', inl p) ->
  try_emplace f l T false s' = (s', inl p).
Proof.
  intros HT E. destruct (gc_terms T s HT) as [[V So B] Hge].
  set (s0 := gc_requests_from_older_terms T s) in *.
  assert (E0 : try_emplace f l T false s0 = (s', inl p)).
  { rewrite <- E. unfold try_emplace. by rewrite (gc_noop T s0 Hge). }
  clear E. destruct (try_emplace_cases f l T s0 Hge)
    as [(q & E & _)|[E|(_ & Hfin & Hinf & s1 & He & E)]]; rewrite E in E0.
  { injection E0 as <- <-. exact E. } { done. }
  injection E0 as -> <-. clear E.
  unfold enqueue in He. set (r := make_request f l T None) in *. set (n := length (heap s0)) in *.
  destruct (drop_completed_spec (heap s0 ++ [r]) (inflight_requests s0 ++ [n]) (finished_requests s0)) as (k & Hk & Hf).
  destruct (drop_completed _ _ _) as [q fin]. cbn [fst snd] in Hk, Hf. injection He as <-.
  assert (Hk' : (k <= length (inflight_requests s0))%nat).
  { destruct Hf as [[-> _]|[Hf _]]; [lia|]. rewrite length_drop, length_app in Hf. cbn in Hf.
    unfold requests_cached_max in Hf. lia. }
  rewrite drop_app_le in Hk by done. subst q.
  set (s1 := {| heap := _; inflight_requests := _; finished_requests := _ |}).
  apply Forall_app in V as [Vi Vf]. rewrite Forall_forall in Vi, Vf, Hge, B.
  assert (Hold : forall x, (x < n)%nat -> get s1 x = get s0 x) by (intros x Hx; by apply lookup_app_old).
  assert (Hnew : get s1 n = r) by apply lookup_app_new.
  assert (Hin : forall x, x ∈ drop k (inflight_requests s0) -> x ∈ inflight_requests s0)
    by (intros x Hx; rewrite <- (take_drop k (inflight_requests s0)); set_solver).
  assert (Hgc : gc_requests_from_older_terms T s1 = s1).
  { apply gc_noop, Forall_forall. intros x Hx. cbn in Hx. apply elem_of_app in Hx as [Hx|Hx].
    - rewrite Hold by (by apply Vi, Hin). apply Hge, Hin, Hx.
    - apply list_elem_of_singleton in Hx as ->. by rewrite Hnew. }
  unfold try_emplace. rewrite Hgc, find_request_none.
  - change (inflight_requests s1) with (drop k (inflight_requests s0) ++ [n]).
    rewrite find_request_snoc; [done| |].
    + intros x Hx. rewrite Hold by (by apply Vi, Hin). destruct (Z.eqb_spec (r_term (get s0 x)) T) as [Et|].
      * by rewrite Hinf by (done || by apply Hin).
      * apply andb_false_r.
    + rewrite Hnew. cbn. unfold matches. cbn. by rewrite !Z.eqb_refl.
  - intros x Hx. cbn in Hx. destruct Hf as [[_ ->]|[_ ->]]; [|by apply not_elem_of_nil in Hx].
    rewrite Hold by (by apply Vf). by apply Hfin.
Qed.

Definition example_queue : requests :=
  {| heap := [make_request 0 2 2 None; make_request 3 4 3 None]; inflight_requests := [0; 1]%nat;
     finished_requests := [] |}.

Lemma retry_gets_same_request_witness :
  exists s', try_emplace 5 9 3 false example_queue = (s', inl 2%nat) /\ inflight_requests s' = [1; 2]%nat /\
    try_emplace 5 9 3 false s' = (s', inl 2%nat).
Proof.
  eexists. split; [vm_compute; reflexivity|]. split; [reflexivity|].
  apply (retry_gets_same_request 5 9 3 example_queue); [|vm_compute; reflexivity].
  split; cbn; repeat constructor; cbn; lia.
Defined.

Lemma fail_pending_completed e h p q : has_completed (h !!! q) = true -> fail_pending e h p !!! q = h !!! q.
Proof.
  intros Hc. unfold fail_pending. destruct (has_completed (h !!! p)) eqn:Hp; [done|].
  destruct (decide (p = q)) as [<-|]; [congruence|]. by rewrite list_lookup_total_insert_ne.
Qed.

Lemma gc_loop_completed T h q p : has_completed (h !!! p) = true -> (gc_loop T h q).1 !!! p = h !!! p.
Proof.
  revert h. induction q as [|x q IH]; intros h Hc; cbn [gc_loop]; [done|]. destruct (_ <? _); [|done].
  rewrite IH; rewrite fail_pending_completed; done.
Qed.

Lemma stm_apply_shape bid T offset s :
  exists h q, same_shape (heap s) h /\ stm_apply bid T offset s =
    (let fin := finished_requests s ++ [length h] in
     {| heap := h ++ [make_request (first_seq bid) (last_seq bid) T
          (Some (inl {| kr_last_offset := offset; kr_last_term := int64_min |}))];
        inflight_requests := q; finished_requests := drop (length fin - requests_cached_max) fin |}).
Proof.
  unfold stm_apply. set (sp := match inflight_requests s with [] => s | _ => _ end).
  assert (Hsp : heap sp = heap s /\ finished_requests sp = finished_requests s).
  { unfold sp. destruct (inflight_requests s); [done|]. by destruct (matches _ _ _). }
  destruct Hsp as [Hh Hf]. clearbody sp. unfold gc_requests_from_older_terms.
  destruct (gc_loop_spec T (heap sp) (inflight_requests sp)) as (HS & _). rewrite Hh in *.
  destruct (gc_loop T (heap s) (inflight_requests sp)) as [h q]. cbn [fst] in HS.
  exists h, q. split; [done|]. cbn [heap inflight_requests finished_requests]. by rewrite Hf.
Qed.

(** Once a batch has been applied to the log, a retry in any later term is answered
    with the offset it was applied at, as long as it is among the last five. *)
Theorem applied_request_answers_retry bid T T' offset s :
  Forall (fun p => (p < length (heap s))%nat) (finished_requests s) ->
  (forall p, p ∈ finished_requests s -> matches (first_seq bid) (last_seq bid) (get s p) = false) ->
  let s1 := stm_apply bid T offset s in
  (length (finished_requests s1) <= requests_cached_max)%nat /\
  exists s2 p, try_emplace (first_seq bid) (last_seq bid) T' false s1 = (s2, inl p) /\
    r_result (get s2 p) = Some (inl {| kr_last_offset := offset; kr_last_term := int64_min |}) /\
    finished_requests s2 = finished_requests s1.
Proof.
  intros V Hno. destruct (stm_apply_shape bid T offset s) as (h & q & [HL HS] & ->). cbn zeta.
  cbn [heap inflight_requests finished_requests].
  set (v := inl {| kr_last_offset := offset; kr_last_term := int64_min |}).
  set (r := make_request (first_seq bid) (last_seq bid) T (Some v)).
  set (k := (length (finished_requests s ++ [length h]) - requests_cached_max)%nat).
  assert (Hk : (k <= length (finished_requests s))%nat)
    by (unfold k, requests_cached_max; rewrite length_app; cbn; lia).
  split; [rewrite length_drop; unfold k, requests_cached_max; lia|].
  unfold try_emplace, gc_requests_from_older_terms. cbn [heap inflight_requests finished_requests].
  pose proof (gc_loop_completed T' (h ++ [r]) q (length h)) as Hkeep. rewrite lookup_app_new in Hkeep.
  specialize (Hkeep eq_refl).
  destruct (gc_loop_spec T' (h ++ [r]) q) as ([HL' HS'] & _).
  destruct (gc_loop T' (h ++ [r]) q) as [h' q']. cbn [fst snd] in Hkeep, HL', HS'.
  cbn [heap inflight_requests finished_requests]. rewrite drop_app_le by done. rewrite find_request_snoc.
  - eexists _, _. split; [reflexivity|]. unfold get. cbn [heap]. by rewrite Hkeep.
  - intros x Hx. assert (Hx' : x ∈ finished_requests s) by (rewrite <- (take_drop k (finished_requests s)); set_solver).
    rewrite Forall_forall in V. specialize (V x Hx'). rewrite <- (Hno x Hx').
    destruct (HS' x) as [E1 _], (HS x) as [E2 _]. unfold range_of in *. rewrite lookup_app_old in E1 by lia.
    unfold matches, get. cbn [heap]. injection E1 as -> ->. injection E2 as -> ->. done.
  - unfold get. cbn [heap]. rewrite Hkeep. unfold matches. cbn. by rewrite !Z.eqb_refl.
Qed.

Lemma applied_request_answers_retry_witness :
  exists s2 p, try_emplace 0 2 9 false (stm_apply (example_bid 0 2) 2 41 example_queue) = (s2, inl p) /\
    r_result (get s2 p) = Some (inl {| kr_last_offset := 41; kr_last_term := int64_min |}).
Proof.
  destruct (applied_request_answers_retry (example_bid 0 2) 2 9 41 example_queue) as (_ & s2 & p & E & R & _).
  - apply Forall_nil. exact I.
  - intros p Hp. by apply not_elem_of_nil in Hp.
  - exists s2, p. split; [exact E|exact R].
Defined.

(** *** Transactions *)

(** The data batches of a transaction, applied one after the other. *)
Fixpoint apply_all (hs : list (record_batch_header * Z)) (p : producer_state) : res producer_state :=
  match hs with
  | [] => Ok p
  | (h, offset) :: hs => p ← apply_data h offset p; apply_all hs p
  end.

Definition tx_batch (h : record_batch_header) : Prop :=
  is_idempotent (batch_identity_from h) = true /\
  record_batch_attributes.is_transactional (attrs h) = true.

Lemma apply_data_tx h offset p t :
  tx_batch h -> evicted p = false -> ps_transaction p = Some t -> is_in_progress t = true ->
  exists p', apply_data h offset p = Ok p' /\ ps_id p' = ps_id p /\ evicted p' = false /\
    ps_transaction p' = Some {| tx_first := tx_first t; tx_last := last_offset h;
      tx_sequence := tx_sequence t; tx_timeout := tx_timeout t; tx_coordinator := tx_coordinator t;
      tx_status := partition_transaction_status.ongoing |}.
Proof.
  intros [Hi Ht] He Hp Hprog. unfold apply_data. rewrite Hi, He.
  assert (bid_is_transactional (batch_identity_from h) = true) as -> by done. cbn [negb andb orb mbind res_bind].
  eexists. split; [reflexivity|]. cbn. by rewrite Hp, Hprog.
Qed.

(** A transaction from its fence to its end marker: applying the fence opens it, its
    data batches never fail an assertion, its start stays where the fence was, and the
    end marker closes it with the range from the fence to the last batch. *)
Theorem transaction_range h0 parsed hs crt p :
  evicted p = false -> pid_epoch (ps_id p) <= pid_epoch (pid (fence_bid parsed)) ->
  Forall (fun x => tx_batch x.1) hs -> crt <> unknown ->
  let p0 := apply_transaction_begin h0 parsed p in
  exists p1 p2, apply_all hs p0 = Ok p1 /\
    get_current_tx_start_offset p1 = Some (base_offset h0) /\
    get_transaction_sequence p1 = Some (default 0 (fence_tx_seq parsed)) /\
    apply_transaction_end crt p1 = (p2, Some {| range_pid := pid (fence_bid parsed);
      range_first := base_offset h0;
      range_last := last_offset (match last hs with Some (h, _) => h | None => h0 end) |}) /\
    has_transaction_in_progress p2 = false.
Proof.
  intros He Hep Hhs Hcrt. unfold apply_transaction_begin.
  destruct (Z.ltb_spec (pid_epoch (pid (fence_bid parsed))) (pid_epoch (ps_id p))); [lia|]. cbn zeta.
  set (p0 := set_transaction _ _). set (id := pid (fence_bid parsed)) in *.
  set (sq := default 0 (fence_tx_seq parsed)) in *.
  assert (Hgen : forall h q, evicted q = false -> ps_id q = id ->
    (exists t, ps_transaction q = Some t /\ is_in_progress t = true /\ tx_first t = base_offset h0 /\
      tx_sequence t = sq /\ tx_last t = last_offset h) ->
    exists p1, apply_all hs q = Ok p1 /\ ps_id p1 = id /\
      exists t, ps_transaction p1 = Some t /\ is_in_progress t = true /\ tx_first t = base_offset h0 /\
        tx_sequence t = sq /\ tx_last t = last_offset (match last hs with Some (x, _) => x | None => h end)).
  { induction Hhs as [|[h off] hs Hh _ IH]; intros hl q Hq Hid (t & Et & Hp & Hf & Hsq & Hl).
    - exists q. split; [done|]. split; [done|]. by exists t.
    - cbn [apply_all fst] in *. destruct (apply_data_tx h off q t Hh Hq Et Hp) as (q' & -> & Hid' & Hq' & Et').
      cbn [mbind res_bind]. edestruct (IH h q') as (p1 & E1 & I1 & t1 & T1 & T2 & T3 & T4 & T5);
        [done|congruence|eexists; split; [exact Et'|]; by split_and!|].
      exists p1. split; [done|]. split; [done|]. exists t1. split_and!; try done.
      rewrite T5. destruct hs as [|x hs]; [done|]. change (last ((h, off) :: x :: hs)) with (last (x :: hs)).
      destruct (last (x :: hs)) eqn:El; [done|]. by apply last_None in El. }
  destruct (Hgen h0 p0) as (p1 & E1 & I1 & t & T1 & T2 & T3 & T4 & T5); [done|done|by eexists|].
  assert (Hprog : has_transaction_in_progress p1 = true) by (unfold has_transaction_in_progress; by rewrite T1).
  exists p1, (apply_transaction_end crt p1).1. split; [done|]. unfold get_current_tx_start_offset, get_transaction_sequence. rewrite Hprog, T1.
  cbn. split; [congruence|]. split; [congruence|]. unfold apply_transaction_end. rewrite T1, I1.
  rewrite T3, T5.
  split; [by destruct crt|]. by destruct crt.
Qed.

Definition example_tx (base seq_no : Z) : record_batch_header :=
  {| header_crc := 0; b_size_bytes := 0; base_offset := base; type := raft_data; crc := 0; attrs := 16;
     last_offset_delta := 2; first_timestamp := 0; max_timestamp := 0; producer_id := 7;
     producer_epoch := 1; base_sequence := seq_no; record_count := 3; ctx_term := 3; ctx_owner_shard := None |}.

Definition example_fence : fence_batch_data :=
  {| fence_bid := {| pid := {| pid_id := 7; pid_epoch := 1 |}; first_seq := 0; last_seq := 0;
       bid_record_count := 1; bid_max_timestamp := 0; bid_is_transactional := true |};
     fence_tx_seq := Some 4; fence_timeout_ms := Some 60000; fence_tm := 0 |}.

Lemma transaction_range_witness :
  exists p1 p2, apply_all [(example_tx 101 0, 90); (example_tx 104 3, 93)]
      (apply_transaction_begin (example_tx 98 0) example_fence (make_producer example_id 1 0)) = Ok p1 /\
    apply_transaction_end tx_abort p1 = (p2, Some {| range_pid := {| pid_id := 7; pid_epoch := 1 |};
      range_first := 98; range_last := 106 |}).
Proof.
  destruct (transaction_range (example_tx 98 0) example_fence
    [(example_tx 101 0, 90); (example_tx 104 3, 93)] tx_abort (make_producer example_id 1 0))
    as (p1 & p2 & E1 & _ & _ & E2 & _); [reflexivity|concrete| |discriminate|].
  - repeat (apply Forall_cons; split; [split; vm_compute; reflexivity|]). apply Forall_nil. exact I.
  - exists p1, p2. split; [exact E1|]. rewrite E2. vm_compute. reflexivity.
Defined.

(** *** Snapshots *)

Definition offset_of (s : requests) (p : nat) : option Z :=
  match r_result (get s p) with Some (inl v) => Some (kr_last_offset v) | _ => None end.

(** Finished requests hold an offset. *)
Definition finished_ok (s : requests) : Prop :=
  Forall (fun p => has_completed (get s p) = true /\ is_Some (offset_of s p)) (finished_requests s).

Definition saved (s : requests) (p : nat) : finished_request :=
  {| f_first := first_sequence (get s p); f_last := last_sequence (get s p);
     f_last_offset := default 0 (offset_of s p); f_term := r_term (get s p) |}.

Lemma snapshot_requests_eq s q :
  Forall (fun p => has_completed (get s p) = true /\ is_Some (offset_of s p)) q ->
  snapshot_requests s q = Ok (saved s <$> q).
Proof.
  induction 1 as [|p q [Hc [o Ho]] _ IH]; [done|]. cbn [snapshot_requests]. rewrite Hc. cbn [negb].
  rewrite fmap_cons. unfold saved at 1. unfold offset_of in Ho |- *.
  destruct (r_result (get s p)) as [[v|]|]; [|done..]. rewrite IH. done.
Qed.

Definition restored (r : finished_request) : request :=
  make_request (f_first r) (f_last r) (f_term r)
    (Some (inl {| kr_last_offset := f_last_offset r; kr_last_term := int64_min |})).

(** The requests of a producer made from a snapshot. *)
Lemma from_snapshot_get sn i r : sn_finished sn !! i = Some r ->
  get (ps_requests (from_snapshot sn)) i = restored r.
Proof. intros E. unfold get. cbn. apply list_lookup_total_correct. by rewrite list_lookup_fmap, E. Qed.

(** A producer restored from its snapshot is the producer as far as the log is
    concerned: the same identity and transaction, the same next sequence number when
    nothing is in flight, the same snapshot again, and a retry of a finished request
    gets the same offset in any term. *)
Theorem snapshot_roundtrip now now' p :
  finished_ok (ps_requests p) ->
  exists sn, snapshot now p = Ok sn /\
  let p' := from_snapshot sn in
  ps_id p' = ps_id p /\ ps_transaction p' = ps_transaction p /\
  (inflight_requests (ps_requests p) = [] -> last_sequence_number p' = last_sequence_number p) /\
  (exists sn', snapshot now' p' = Ok sn' /\ sn_finished sn' = sn_finished sn) /\
  (forall f l T q, find_request (matches f l) (ps_requests p) (finished_requests (ps_requests p)) = Some q ->
     exists q', try_emplace f l T false (ps_requests p') = (ps_requests p', inl q') /\
       offset_of (ps_requests p') q' = offset_of (ps_requests p) q).
Proof.
  intros HF. unfold snapshot. rewrite (snapshot_requests_eq _ _ HF). cbn [mbind res_bind].
  eexists. split; [reflexivity|]. set (s := ps_requests p) in *. set (fin := finished_requests s) in *.
  set (sn := {| sn_id := _ |}). cbn zeta. split; [done|]. split; [done|].
  assert (Hget : forall i q, fin !! i = Some q -> get (ps_requests (from_snapshot sn)) i = restored (saved s q)).
  { intros i q E. apply from_snapshot_get. cbn. by rewrite list_lookup_fmap, E. }
  assert (Hfin : finished_requests (ps_requests (from_snapshot sn)) = seq 0 (length fin))
    by (cbn; by rewrite length_fmap).
  split_and!.
  - intros Hi. unfold last_sequence_number, last_request. fold s. rewrite Hi, Hfin. cbn [last inflight_requests].
    change (inflight_requests (ps_requests (from_snapshot sn))) with (@nil nat). cbn [last]. fold fin.
    rewrite !last_lookup, length_seq. destruct (fin !! Nat.pred (length fin)) as [q|] eqn:E.
    + assert (Nat.pred (length fin) < length fin)%nat by (apply lookup_lt_is_Some; eauto).
      rewrite lookup_seq_lt by done. rewrite Nat.add_0_l. unfold fmap, option_fmap, option_map.
      by rewrite (Hget _ _ E).
    + apply lookup_ge_None in E. rewrite lookup_seq_ge by lia. done.
  - eexists. rewrite snapshot_requests_eq.
    + cbn [mbind res_bind]. split; [reflexivity|]. cbn [sn_finished]. rewrite Hfin.
      apply list_eq. intros i. change (sn_finished sn) with (saved s <$> fin).
      rewrite !list_lookup_fmap. destruct (fin !! i) as [q|] eqn:E.
      * rewrite lookup_seq_lt by (apply lookup_lt_is_Some; eauto). rewrite Nat.add_0_l.
        unfold fmap, option_fmap, option_map. f_equal. unfold saved at 1, offset_of. by rewrite (Hget _ _ E).
      * apply lookup_ge_None in E. by rewrite lookup_seq_ge by lia.
    + rewrite Hfin. apply Forall_forall. intros i Hi. apply elem_of_seq in Hi.
      destruct (lookup_lt_is_Some_2 fin i) as [q E]; [lia|]. unfold offset_of. rewrite (Hget _ _ E). split; [done|].
      by eexists.
  - intros f l T q E. unfold find_request in E. apply fmap_Some in E as ([i x] & E & [= ->]).
    apply list_find_Some in E as (Hi & Hm & Hmin). exists i. unfold try_emplace.
    rewrite gc_noop by apply Forall_nil_2. unfold find_request. rewrite Hfin.
    assert (list_find (fun y => matches f l (get (ps_requests (from_snapshot sn)) y) = true) (seq 0 (length fin))
      = Some (i, i)) as ->.
    { apply list_find_Some. assert (i < length fin)%nat by (apply lookup_lt_is_Some; eauto).
      rewrite lookup_seq_lt by done. split; [done|]. split; [by rewrite (Hget _ _ Hi)|].
      intros j y Hj Hlt. apply lookup_seq in Hj as [-> Hj].
      destruct (lookup_lt_is_Some_2 fin j) as [z Hz]; [done|]. rewrite Nat.add_0_l, (Hget _ _ Hz). by apply (Hmin j z). }
    split; [done|]. unfold offset_of at 1. rewrite (Hget _ _ Hi). cbn.
    unfold finished_ok in HF. rewrite Forall_forall in HF.
    destruct (HF x) as [_ [o Ho]]; [by eapply list_elem_of_lookup_2|]. by rewrite Ho.
Qed.

Definition example_producer : producer_state :=
  set_requests (make_producer example_id 1 0) (stm_apply (example_bid 0 2) 2 41 no_requests).

Lemma snapshot_roundtrip_witness :
  exists sn, snapshot 5 example_producer = Ok sn /\ sn_finished sn = [{| f_first := 0; f_last := 2;
      f_last_offset := 41; f_term := 2 |}] /\
    exists q', try_emplace 0 2 8 false (ps_requests (from_snapshot sn)) = (ps_requests (from_snapshot sn), inl q').
Proof.
  destruct (snapshot_roundtrip 5 6 example_producer) as (sn & E & _ & _ & _ & _ & H).
  - apply Forall_cons. split; [|apply Forall_nil; exact I]. split; [vm_compute; reflexivity|]. exists 41. vm_compute. reflexivity.
  - exists sn. split; [exact E|]. split.
    + vm_compute in E. injection E as <-. reflexivity.
    + destruct (H 0 2 8 0%nat) as (q' & E' & _); [vm_compute; reflexivity|]. exists q'. exact E'.
Defined.

(** *** Epochs *)

(** A batch of an older epoch that was in flight when the epoch went up and is applied after it is remembered under the new
    epoch: the producer's next batch with the same sequence numbers is taken for a retry of it and
    answered with its offset, without being replicated. *)
Theorem late_batch_answers_new_epoch term h offset bid ps :
  let old := batch_identity_from h in let s := ps_requests ps in
  evicted ps = false -> is_idempotent old = true -> bid_is_transactional old = false ->
  pid_epoch (pid old) < pid_epoch (ps_id ps) -> pid_epoch (pid bid) = pid_epoch (ps_id ps) ->
  first_seq bid = first_seq old -> last_seq bid = last_seq old -> 0 <= first_seq bid -> 0 <= last_seq bid ->
  ctx_term h = term -> Forall (fun p => term <= r_term (get s p)) (inflight_requests s) ->
  Forall (fun p => (p < length (heap s))%nat) (inflight_requests s ++ finished_requests s) ->
  (forall p, p ∈ finished_requests s -> matches (first_seq bid) (last_seq bid) (get s p) = false) ->
  exists ps1 p, apply_data h offset ps = Ok ps1 /\ start_idempotent term bid true ps1 = Ok (ps1, Waiting p, false) /\
    task_step term (fun o => Ok o) Resolved ps1 (Waiting p)
      = Ok (ps1, Done (inl {| kr_last_offset := offset; kr_last_term := int64_min |}), []).
Proof.
  intros old s Hev Hid Htx Hold Hnew Hf Hl H0 H1 <- HT HV Hfin. unfold apply_data. fold old. rewrite Hid, Hev, Htx. cbn [negb orb andb].
  rewrite (Z.gtb_ltb (pid_epoch (pid old))), (proj2 (Z.ltb_ge (pid_epoch (ps_id ps)) _)) by lia. cbn [mbind res_bind].
  fold s. set (s1 := stm_apply old (ctx_term h) offset s). exists (set_requests ps s1), (length (heap s)). split; [done|].
  apply Forall_app in HV as [HVi HVf].
  set (r := make_request (first_seq old) (last_seq old) (ctx_term h) (Some (inl {| kr_last_offset := offset; kr_last_term := int64_min |}))).
  assert (Hs1 : exists q k, s1 = {| heap := heap s ++ [r]; inflight_requests := q; finished_requests := drop k (finished_requests s ++ [length (heap s)]) |} /\
    (k <= length (finished_requests s))%nat /\ (q = inflight_requests s \/ q = tail (inflight_requests s))).
  { set (k := (length (finished_requests s ++ [length (heap s)]) - requests_cached_max)%nat).
    assert (Hk : (k <= length (finished_requests s))%nat) by (unfold k; rewrite length_app; cbn; unfold requests_cached_max; lia).
    unfold s1, stm_apply. destruct (inflight_requests s) as [|p0 q] eqn:Eq.
    - exists [], k. rewrite gc_noop by (by rewrite Eq). rewrite Eq. split; [done|]. split; [done|by left].
    - destruct (matches _ _ _).
      + exists q, k. rewrite gc_noop by (cbn; by apply Forall_cons in HT as [_ HT]). split; [done|]. split; [done|by right].
      + exists (p0 :: q), k. rewrite gc_noop by (by rewrite Eq). rewrite Eq. split; [done|]. split; [done|by left]. }
  clearbody s1. destruct Hs1 as (q & k & -> & Hk & Hq).
  assert (Hin : forall x, x ∈ q -> x ∈ inflight_requests s).
  { intros x Hx. destruct Hq as [->| ->]; [done|]. destruct (inflight_requests s); [done|by right]. }
  assert (Hnew_get : (heap s ++ [r]) !!! length (heap s) = r) by apply lookup_app_new.
  assert (Hfind : try_emplace (first_seq bid) (last_seq bid) (ctx_term h) false
      {| heap := heap s ++ [r]; inflight_requests := q; finished_requests := drop k (finished_requests s ++ [length (heap s)]) |}
    = ({| heap := heap s ++ [r]; inflight_requests := q; finished_requests := drop k (finished_requests s ++ [length (heap s)]) |}, inl (length (heap s)))).
  { unfold try_emplace. rewrite gc_noop.
    - cbn [finished_requests]. rewrite drop_app_le by done. rewrite find_request_snoc; [done| |].
      + intros x Hx. assert (Hx' : x ∈ finished_requests s) by (eapply elem_of_submseteq; [exact Hx|apply sublist_submseteq, sublist_drop]).
        unfold get. cbn [heap]. rewrite lookup_app_old; [by apply Hfin|]. rewrite Forall_forall in HVf. by apply HVf.
      + unfold get. cbn [heap]. rewrite Hnew_get, Hf, Hl. unfold matches, r. cbn. by rewrite !Z.eqb_refl.
    - cbn [inflight_requests]. apply Forall_forall. intros x Hx%Hin. rewrite Forall_forall in HVi, HT. unfold get. cbn [heap].
      rewrite lookup_app_old by (by apply HVi). by apply HT. }
  split.
  - unfold start_idempotent. cbn [ps_id set_requests]. rewrite (Z.gtb_ltb (pid_epoch (pid bid))), Hnew, Z.ltb_irrefl. cbn [mbind res_bind negb andb].
    unfold try_emplace_request. rewrite (proj2 (Z.ltb_ge _ _) H0), (proj2 (Z.ltb_ge _ _) H1). cbn [orb ps_requests set_requests].
    rewrite Hfind. cbn [ps_requests set_requests]. unfold get. cbn [heap]. rewrite Hnew_get. done.
  - cbn [task_step ps_requests set_requests]. unfold get. cbn [heap]. by rewrite Hnew_get.
Qed.
