(* ===== verification/GroupConfiguration.v ===== *)
(** * Raft group configurations (raft/group_configuration.{h,cc})

    A configuration lists the voters and learners of a raft group and, while it is
    being changed, the requested update ([transitional]) and the voters that are
    leaving ([joint]).  The change strategies of configuration versions 3 to 7 are the
    modules [v3] to [v6]; [make_change_strategy] selects one, and the operations of
    [group_configuration] dispatch to it.  Callers work on a copy of the configuration,
    so an exception discards what the operation had changed.  Module [consensus] has the guards that
    raft/consensus.cc puts before the requests to cancel and to abort a change.

    Decisions of the group rest on [majority] and [quorum_match].  The theorems relate
    the two, show that a majority before and a majority after any single change share a
    node, and that a change that is driven to its end reaches the requested replicas. *)

From stdpp Require Import sorting.
From S2P Require Import Prelude Errors.

(** ** Replicas *)

(** A replica of a raft group: a node in one of its incarnations. *)
Record vnode := Vnode { vn_id : Z; vn_revision : Z }.

#[global] Instance vnode_eq_dec : EqDecision vnode.
Proof. solve_decision. Defined.
#[global] Instance vnode_countable : Countable vnode.
Proof.
  apply (inj_countable' (fun v => (vn_id v, vn_revision v)) (fun p => Vnode p.1 p.2)).
  by intros [].
Defined.

(** The default value of a named integer is the least one ([base_named_type]). *)
Definition int32_min : Z := - 2 ^ 31.
Definition no_vnode : vnode := Vnode int32_min int64_min.
Definition no_revision : Z := int64_min.
Definition no_offset : Z := int64_min.

Record unresolved_address := { ua_host : string; ua_port : Z; ua_family : option Z }.

Record broker_endpoint := { be_name : string; be_address : unresolved_address }.

Record broker_properties := {
  bp_cores : Z;
  bp_available_memory_gb : Z;
  bp_available_disk_gb : Z;
  bp_mount_paths : list string;
  bp_etc_props : gmap string string;
  bp_available_memory_bytes : Z;
  bp_in_fips_mode : Z;
}.

Record broker := {
  b_id : Z;
  b_kafka_advertised_listeners : list broker_endpoint;
  b_rpc_address : unresolved_address;
  b_rack : option string;
  b_properties : broker_properties;
}.

#[global] Instance unresolved_address_eq_dec : EqDecision unresolved_address.
Proof. solve_decision. Defined.
#[global] Instance broker_endpoint_eq_dec : EqDecision broker_endpoint.
Proof. solve_decision. Defined.
#[global] Instance broker_properties_eq_dec : EqDecision broker_properties.
Proof. solve_decision. Defined.
#[global] Instance broker_eq_dec : EqDecision broker.
Proof. solve_decision. Defined.

Record broker_revision := { br_broker : broker; br_rev : Z }.

(** ** Configurations *)

Module configuration_state.
Inductive t := simple | transitional | joint.
#[global] Instance t_eq_dec : EqDecision t.
Proof. solve_decision. Defined.
End configuration_state.

Record group_nodes := { voters : list vnode; learners : list vnode }.

Record configuration_update := {
  replicas_to_add : list vnode;
  replicas_to_remove : list vnode;
  learner_start_offset : option Z;
}.

Definition v_3 : Z := 3.
Definition v_4 : Z := 4.
Definition v_5 : Z := 5.
Definition v_6 : Z := 6.
Definition v_7 : Z := 7.

Record group_configuration := {
  _version : Z;
  _brokers : list broker;
  _current : group_nodes;
  _configuration_update : option configuration_update;
  _old : option group_nodes;
  _all_replicas : list vnode;
  _revision : Z;
}.

#[global] Instance group_nodes_eq_dec : EqDecision group_nodes.
Proof. solve_decision. Defined.
#[global] Instance configuration_update_eq_dec : EqDecision configuration_update.
Proof. solve_decision. Defined.
#[global] Instance group_configuration_eq_dec : EqDecision group_configuration.
Proof. solve_decision. Defined.

(** Assignments to one member. *)
Definition with_version v c := {| _version := v; _brokers := _brokers c; _current := _current c;
  _configuration_update := _configuration_update c; _old := _old c;
  _all_replicas := _all_replicas c; _revision := _revision c |}.
Definition with_brokers b c := {| _version := _version c; _brokers := b; _current := _current c;
  _configuration_update := _configuration_update c; _old := _old c;
  _all_replicas := _all_replicas c; _revision := _revision c |}.
Definition with_current n c := {| _version := _version c; _brokers := _brokers c; _current := n;
  _configuration_update := _configuration_update c; _old := _old c;
  _all_replicas := _all_replicas c; _revision := _revision c |}.
Definition with_update u c := {| _version := _version c; _brokers := _brokers c;
  _current := _current c; _configuration_update := u; _old := _old c;
  _all_replicas := _all_replicas c; _revision := _revision c |}.
Definition with_old o c := {| _version := _version c; _brokers := _brokers c;
  _current := _current c; _configuration_update := _configuration_update c; _old := o;
  _all_replicas := _all_replicas c; _revision := _revision c |}.
Definition with_all_replicas l c := {| _version := _version c; _brokers := _brokers c;
  _current := _current c; _configuration_update := _configuration_update c; _old := _old c;
  _all_replicas := l; _revision := _revision c |}.
Definition with_revision r c := {| _version := _version c; _brokers := _brokers c;
  _current := _current c; _configuration_update := _configuration_update c; _old := _old c;
  _all_replicas := _all_replicas c; _revision := r |}.

Definition add_learner (n : vnode) (g : group_nodes) : group_nodes :=
  {| voters := voters g; learners := learners g ++ [n] |}.

(** [std::find(l.begin(), l.end(), v) != l.end()]. *)
Abbreviation mem v l := (bool_decide (v ∈ l)).

(** [l.erase(std::find(...))]: the first occurrence. *)
Fixpoint erase_first {A} (P : A -> bool) (l : list A) : list A :=
  match l with [] => [] | x :: l' => if P x then l' else x :: erase_first P l' end.

(** [std::erase_if]. *)
Definition erase_if {A} (P : A -> bool) (l : list A) : list A := filter (fun x => P x = false) l.

Definition is_to_add (u : configuration_update) (id : vnode) : bool := mem id (replicas_to_add u).
Definition is_to_remove (u : configuration_update) (id : vnode) : bool :=
  mem id (replicas_to_remove u).

Definition group_nodes_contains (g : group_nodes) (id : vnode) : bool :=
  mem id (voters g) || mem id (learners g).

(** [find_by_id]. *)
Definition find_by_id (nodes : list vnode) (id : Z) : option vnode :=
  snd <$> list_find (fun v => vn_id v = id) nodes.

Definition group_nodes_find (g : group_nodes) (id : Z) : option vnode :=
  match find_by_id (voters g) id with
  | Some v => Some v
  | None => find_by_id (learners g) id
  end.

(** [copy_unique] appends the nodes that are not there yet. *)
Definition copy_unique (acc source : list vnode) : list vnode :=
  fold_left (fun acc vn => if mem vn acc then acc else acc ++ [vn]) source acc.

Definition update_all_replicas (c : group_configuration) : group_configuration :=
  let l := copy_unique (copy_unique [] (voters (_current c))) (learners (_current c)) in
  with_all_replicas
    (match _old c with
     | Some o => copy_unique (copy_unique l (voters o)) (learners o)
     | None => l
     end) c.

(** The constructors; the last one is the configuration that was read from a log. *)
Definition make_from_brokers (bs : list broker) (rev : Z) : group_configuration :=
  update_all_replicas
    {| _version := v_4; _brokers := bs;
       _current := {| voters := (fun b => Vnode (b_id b) rev) <$> bs; learners := [] |};
       _configuration_update := None; _old := None; _all_replicas := []; _revision := rev |}.

Definition make_simple (vs ls : list vnode) (rev : Z) : group_configuration :=
  update_all_replicas
    {| _version := v_6; _brokers := []; _current := {| voters := vs; learners := ls |};
       _configuration_update := None; _old := None; _all_replicas := []; _revision := rev |}.

Definition make_full (version : Z) (bs : list broker) (cur : group_nodes) (rev : Z)
    (u : option configuration_update) (old : option group_nodes) : group_configuration :=
  update_all_replicas
    {| _version := version; _brokers := bs; _current := cur; _configuration_update := u;
       _old := old; _all_replicas := []; _revision := rev |}.

Definition get_state (c : group_configuration) : configuration_state.t :=
  match _old c, _configuration_update c with
  | Some _, _ => configuration_state.joint
  | None, Some _ => configuration_state.transitional
  | None, None => configuration_state.simple
  end.

Definition in_state (c : group_configuration) (s : configuration_state.t) : bool :=
  bool_decide (get_state c = s).

Definition has_voters (c : group_configuration) : bool :=
  negb (bool_decide (voters (_current c) = []) ||
        match _old c with Some o => bool_decide (voters o = []) | None => false end).

Definition is_voter (c : group_configuration) (id : vnode) : bool :=
  mem id (voters (_current c)) ||
  match _old c with Some o => mem id (voters o) | None => false end.

Definition is_allowed_to_request_votes (c : group_configuration) (id : vnode) : bool :=
  mem id (voters (_current c)) ||
  match _old c with
  | Some o => mem id (voters o) || mem id (learners o)
  | None => false
  end.

Definition contains (c : group_configuration) (id : vnode) : bool := mem id (_all_replicas c).

Definition find_by_node_id (c : group_configuration) (id : Z) : option vnode :=
  find_by_id (_all_replicas c) id.

Definition contains_broker (c : group_configuration) (id : Z) : res bool :=
  _ ← vassert (_version c <? v_5);
  Ok (existsb (fun b => id =? b_id b) (_brokers c)).

Definition contains_address (c : group_configuration) (a : unresolved_address) : res bool :=
  _ ← vassert (_version c <? v_5);
  Ok (existsb (fun b => bool_decide (a = b_rpc_address b)) (_brokers c)).

Definition set_revision (r : Z) (c : group_configuration) : res group_configuration :=
  _ ← vassert (_revision c <=? r); Ok (with_revision r c).

(** [update(broker)]: replaces the first broker with that id. *)
Fixpoint replace_broker (b : broker) (l : list broker) : option (list broker) :=
  match l with
  | [] => None
  | x :: l' => if b_id b =? b_id x then Some (b :: l') else (x ::.) <$> replace_broker b l'
  end.

Definition update (b : broker) (c : group_configuration) : res group_configuration :=
  match replace_broker b (_brokers c) with
  | Some bs => Ok (with_brokers bs c)
  | None => Throw invalid_argument
  end.

(** ** Majorities *)

(** [details::majority]. *)
Definition majority_of (f : vnode -> bool) (range : list vnode) : bool :=
  match range with
  | [] => true
  | _ => (length range `div` 2 + 1 <=? length (filter (fun v => f v = true) range))%nat
  end.

Definition majority (c : group_configuration) (f : vnode -> bool) : bool :=
  match _old c with
  | None => majority_of f (voters (_current c))
  | Some o => majority_of f (voters (_current c)) && majority_of f (voters o)
  end.

(** [details::quorum_match]: [std::nth_element] puts the element a full sort would put
    there at the index; [dflt] is [ret_t{}]. *)
Definition quorum_match_of (dflt : Z) (f : vnode -> Z) (range : list vnode) : Z :=
  match range with
  | [] => dflt
  | _ => let values := f <$> range in
         default dflt (merge_sort Z.le values !! ((length values - 1) `div` 2)%nat)
  end.

Definition quorum_match (dflt : Z) (c : group_configuration) (f : vnode -> Z) : Z :=
  match _old c with
  | None => quorum_match_of dflt f (voters (_current c))
  | Some o =>
      if bool_decide (voters (_current c) = []) then quorum_match_of dflt f (voters o)
      else if bool_decide (voters o = []) then quorum_match_of dflt f (voters (_current c))
      else quorum_match_of dflt f (voters (_current c)) `min` quorum_match_of dflt f (voters o)
  end.

(** ** Changing a configuration *)

(** [calculate_configuration_update], for replicas and for brokers. *)
Definition calculate_configuration_update (current_nodes requested : list vnode) :
    configuration_update :=
  {| replicas_to_remove := filter (fun vn => mem vn requested = false) current_nodes;
     replicas_to_add := filter (fun vn => mem vn current_nodes = false) requested;
     learner_start_offset := None |}.

Definition broker_vnode (br : broker_revision) : vnode :=
  Vnode (b_id (br_broker br)) (br_rev br).

Definition calculate_configuration_update_brokers (current_nodes : list vnode)
    (requested : list broker_revision) : configuration_update :=
  calculate_configuration_update current_nodes (broker_vnode <$> requested).

Definition erase_id (v : list vnode) (id : Z) : list vnode :=
  erase_if (fun rni => id =? vn_id rni) v.

(** The check of [replace_brokers] that nothing is to be changed. *)
Definition brokers_are_equal (c : group_configuration) (bs : list broker_revision) : bool :=
  (length bs =? length (_brokers c))%nat &&
  forallb (fun b => group_nodes_contains (_current c) (broker_vnode b)
                    && existsb (fun e => bool_decide (br_broker b = e)) (_brokers c)) bs.

(** [discard_old_config] of versions 3 and 4 keeps the brokers of the current nodes. *)
Definition keep_brokers_of (g : group_nodes) (bs : list broker) : list broker :=
  filter (fun b => existsb (fun v => vn_id v =? b_id b) (learners g ++ voters g) = true) bs.

Definition promote_to_voter (id : vnode) (c : group_configuration) : group_configuration :=
  if mem id (learners (_current c)) then
    with_current {| voters := voters (_current c) ++ [id];
                    learners := erase_first (fun v => bool_decide (v = id)) (learners (_current c)) |} c
  else c.

(** [finish_configuration_transition] of versions 4 and 5. *)
Definition finish_transition_v4 (c : group_configuration) : res group_configuration :=
  u ← deref (_configuration_update c);
  if bool_decide (replicas_to_remove u = []) then Ok (with_update None c)
  else Ok (with_current
             {| voters := erase_if (is_to_remove u) (voters (_current c));
                learners := learners (_current c) |}
             (with_old (Some (_current c)) c)).

(** The methods of [configuration_change_strategy]. *)
Record configuration_change_strategy := {
  cs_add_broker : broker -> Z -> group_configuration -> res group_configuration;
  cs_remove_broker : Z -> group_configuration -> res group_configuration;
  cs_replace_brokers : list broker_revision -> Z -> group_configuration -> res group_configuration;
  cs_add : vnode -> Z -> option Z -> group_configuration -> res group_configuration;
  cs_remove : vnode -> Z -> group_configuration -> res group_configuration;
  cs_replace : list vnode -> Z -> option Z -> group_configuration -> res group_configuration;
  cs_discard_old_config : group_configuration -> group_configuration;
  cs_abort_configuration_change : Z -> group_configuration -> res group_configuration;
  cs_cancel_configuration_change : Z -> group_configuration -> res group_configuration;
  cs_finish_configuration_transition : group_configuration -> res group_configuration;
}.

(** The order in which a hash set of replicas is traversed. *)
Class HashOrder := hash_order : list vnode -> list vnode.

Definition unique_ids `{HashOrder} (current old : list vnode) : list vnode :=
  hash_order (remove_dups (current ++ old)).

Definition unique_voter_ids `{HashOrder} (c : group_configuration) : list vnode :=
  unique_ids (voters (_current c)) (match _old c with Some o => voters o | None => [] end).

Definition unique_learner_ids `{HashOrder} (c : group_configuration) : list vnode :=
  unique_ids (learners (_current c)) (match _old c with Some o => learners o | None => [] end).

Definition unique_voter_count `{HashOrder} (c : group_configuration) : Z := blen (unique_voter_ids c).

(** *** Version 3: joint consensus in one step *)

Module v3.

Definition add_broker (b : broker) (rev : Z) (c : group_configuration) : res group_configuration :=
  _ ← throw_if (existsb (fun n => b_id b =? b_id n) (_brokers c)) invalid_argument;
  Ok (with_brokers (_brokers c ++ [b])
       (with_current (add_learner (Vnode (b_id b) rev) (_current c))
         (with_old (Some (_current c)) (with_revision rev c)))).

Definition remove_broker (id : Z) (c : group_configuration) : res group_configuration :=
  _ ← throw_if (negb (existsb (fun n => id =? b_id n) (_brokers c))) invalid_argument;
  Ok (with_current {| learners := erase_id (learners (_current c)) id;
                      voters := erase_id (voters (_current c)) id |}
       (with_old (Some (_current c)) c)).

(** A broker that was a voter stays one; every other one is a learner. *)
Definition replaced_nodes (old : group_nodes) (bs : list broker_revision) : group_nodes :=
  {| voters := filter (fun v => mem v (voters old) = true) (broker_vnode <$> bs);
     learners := filter (fun v => mem v (voters old) = false) (broker_vnode <$> bs) |}.

Definition add_missing_brokers (bs : list broker_revision) (known : list broker) : list broker :=
  fold_left (fun known b =>
    if existsb (fun e => b_id (br_broker b) =? b_id e) known then known
    else known ++ [br_broker b]) bs known.

Definition replace_brokers (bs : list broker_revision) (rev : Z) (c : group_configuration) :
    res group_configuration :=
  let c := with_revision rev c in
  if brokers_are_equal c bs then Ok c
  else
    let old := _current c in
    let cur := replaced_nodes old bs in
    let c := with_current cur
               (with_old (if bool_decide (cur = old) then None else Some old) c) in
    (* [contains_broker], evaluated once per broker *)
    _ ← vassert (bool_decide (bs = []) || (_version c <? v_5));
    Ok (with_brokers (add_missing_brokers bs (_brokers c)) c).

(** [for (auto id : _current.learners) promote_to_voter(id)]: the loop walks over the
    vector its body erases from.  It reads the [i]th element of what is left, up to the
    end of the original vector ([todo] more elements); past the new end that is
    undefined. *)
Fixpoint promote_learners (i todo : nat) (c : group_configuration) : res group_configuration :=
  match todo with
  | O => Ok c
  | S todo' =>
      match learners (_current c) !! i with
      | Some id => promote_learners (S i) todo' (promote_to_voter id c)
      | None => Crash
      end
  end.

Definition abort_configuration_change (rev : Z) (c : group_configuration) :
    res group_configuration :=
  old ← deref (_old c);
  let c := with_brokers (keep_brokers_of old (_brokers c)) c in
  let c := with_old None (with_current old c) in
  c ← promote_learners 0 (length (learners old)) c;
  Ok (with_revision rev c).

Definition cancel_configuration_change (rev : Z) (c : group_configuration) :
    res group_configuration :=
  old ← deref (_old c);
  Ok (with_revision rev (with_old (Some (_current c)) (with_current old c))).

Definition discard_old_config (c : group_configuration) : group_configuration :=
  with_old None (with_brokers (keep_brokers_of (_current c) (_brokers c)) c).

Definition strategy : configuration_change_strategy := {|
  cs_add_broker := add_broker;
  cs_remove_broker := remove_broker;
  cs_replace_brokers := replace_brokers;
  cs_add := fun _ _ _ _ => Crash;
  cs_remove := fun _ _ _ => Crash;
  cs_replace := fun _ _ _ _ => Crash;
  cs_discard_old_config := discard_old_config;
  cs_abort_configuration_change := abort_configuration_change;
  cs_cancel_configuration_change := cancel_configuration_change;
  cs_finish_configuration_transition := fun c => Ok c |}.

End v3.

(** *** Version 4: add replicas first, then joint consensus *)

Module v4.

Definition add_broker (b : broker) (rev : Z) (c : group_configuration) : res group_configuration :=
  _ ← throw_if (existsb (fun n => b_id b =? b_id n) (_brokers c)) invalid_argument;
  let vn := Vnode (b_id b) rev in
  Ok (with_brokers (_brokers c ++ [b])
       (with_current (add_learner vn (_current c))
         (with_update (Some {| replicas_to_add := [vn]; replicas_to_remove := [];
                               learner_start_offset := None |}) (with_revision rev c)))).

Definition remove_broker (id : Z) (c : group_configuration) : res group_configuration :=
  _ ← throw_if (negb (existsb (fun n => id =? b_id n) (_brokers c))) invalid_argument;
  let has_id v := vn_id v =? id in
  let cur := _current c in
  let found l := match find_by_id l id with Some v => [v] | None => [] end in
  Ok (with_current {| learners := erase_first has_id (learners cur);
                      voters := erase_first has_id (voters cur) |}
       (with_old (Some cur)
         (with_update (Some {| replicas_to_add := [];
                               replicas_to_remove := found (learners cur) ++ found (voters cur);
                               learner_start_offset := None |}) c))).

Definition replace_brokers (bs : list broker_revision) (rev : Z) (c : group_configuration) :
    res group_configuration :=
  let c := with_revision rev c in
  if brokers_are_equal c bs then Ok c
  else
    let u := calculate_configuration_update_brokers (voters (_current c)) bs in
    let added := filter (fun br => is_to_add u (broker_vnode br) = true) bs in
    let c := with_brokers (_brokers c ++ (br_broker <$> added))
               (with_current {| voters := voters (_current c);
                                learners := learners (_current c) ++ (broker_vnode <$> added) |}
                 (with_update (Some u) c)) in
    if bool_decide (replicas_to_add u = []) then finish_transition_v4 c else Ok c.

Definition abort_configuration_change `{HashOrder} (rev : Z) (c : group_configuration) :
    res group_configuration :=
  u ← deref (_configuration_update c);
  let all_node_ids := hash_order (remove_dups (unique_learner_ids c ++ unique_voter_ids c)) in
  let vs := filter (fun vn => is_to_add u vn = false) all_node_ids in
  Ok (with_revision rev
       (with_update None
         (with_brokers (filter (fun br => existsb (fun v => vn_id v =? b_id br) vs = true) (_brokers c))
           (with_old None (with_current {| voters := vs; learners := [] |} c))))).

Definition cancel_update_in_transitional_state (c : group_configuration) :
    res group_configuration :=
  u ← deref (_configuration_update c);
  let u' := {| replicas_to_add := [];
               replicas_to_remove := filter (fun vn => is_voter c vn = true) (replicas_to_add u);
               learner_start_offset := learner_start_offset u |} in
  let bs := filter (fun br => existsb (fun v => vn_id v =? b_id br) (learners (_current c)) = false)
              (_brokers c) in
  finish_transition_v4
    (with_update (Some u')
      (with_current {| voters := voters (_current c); learners := [] |} (with_brokers bs c))).

Definition cancel_update_in_joint_state (c : group_configuration) : res group_configuration :=
  old ← deref (_old c);
  u ← deref (_configuration_update c);
  Ok (with_update (Some {| replicas_to_add := replicas_to_remove u;
                           replicas_to_remove := replicas_to_add u;
                           learner_start_offset := learner_start_offset u |})
       (with_old None (with_current old c))).

Definition cancel_configuration_change (rev : Z) (c : group_configuration) :
    res group_configuration :=
  c ← (match get_state c with
       | configuration_state.simple => Crash
       | configuration_state.transitional => cancel_update_in_transitional_state c
       | configuration_state.joint => cancel_update_in_joint_state c
       end);
  Ok (with_revision rev c).

Definition discard_old_config (c : group_configuration) : group_configuration :=
  with_update None (with_old None (with_brokers (keep_brokers_of (_current c) (_brokers c)) c)).

Definition strategy `{HashOrder} : configuration_change_strategy := {|
  cs_add_broker := add_broker;
  cs_remove_broker := remove_broker;
  cs_replace_brokers := replace_brokers;
  cs_add := fun _ _ _ _ => Crash;
  cs_remove := fun _ _ _ => Crash;
  cs_replace := fun _ _ _ _ => Crash;
  cs_discard_old_config := discard_old_config;
  cs_abort_configuration_change := abort_configuration_change;
  cs_cancel_configuration_change := cancel_configuration_change;
  cs_finish_configuration_transition := finish_transition_v4 |}.

End v4.

(** *** Version 5: as version 4, without brokers *)

Module v5.

Definition add (node : vnode) (rev : Z) (start : option Z) (c : group_configuration) :
    res group_configuration :=
  _ ← throw_if (contains c node) invalid_argument;
  Ok (with_current (add_learner node (_current c))
       (with_update (Some {| replicas_to_add := [node]; replicas_to_remove := [];
                             learner_start_offset := start |}) (with_revision rev c))).

Definition remove (id : vnode) (rev : Z) (c : group_configuration) : res group_configuration :=
  _ ← throw_if (negb (group_nodes_contains (_current c) id)) invalid_argument;
  let cur := _current c in
  let is_id v := bool_decide (v = id) in
  let to_remove := if mem id (voters cur) then [id] else [] in
  Ok (with_revision rev
       (with_current {| learners := erase_first is_id (learners cur);
                        voters := erase_first is_id (voters cur) |}
         (with_old (if bool_decide (to_remove = []) then _old c else Some cur)
           (with_update (Some {| replicas_to_add := []; replicas_to_remove := to_remove;
                                 learner_start_offset := None |}) c)))).

(** [are_equal]. *)
Definition are_equal (c : group_configuration) (nodes : list vnode) : bool :=
  (length (voters (_current c)) =? length nodes)%nat && forallb (contains c) nodes.

(** The update [replace] starts, up to the last optimization. *)
Definition start_replace (nodes : list vnode) (start : option Z) (c : group_configuration) :
    configuration_update * group_configuration :=
  let u0 := calculate_configuration_update (voters (_current c)) nodes in
  let u := {| replicas_to_add := replicas_to_add u0; replicas_to_remove := replicas_to_remove u0;
              learner_start_offset := start |} in
  (u, with_current {| voters := voters (_current c);
                      learners := learners (_current c) ++ filter (fun vn => is_to_add u vn = true) nodes |}
        (with_update (Some u) c)).

Definition replace (nodes : list vnode) (rev : Z) (start : option Z) (c : group_configuration) :
    res group_configuration :=
  let c := with_revision rev c in
  if are_equal c nodes then Ok c
  else let '(u, c) := start_replace nodes start c in
       if bool_decide (replicas_to_add u = []) then finish_transition_v4 c else Ok c.

Definition discard_old_config (c : group_configuration) : group_configuration :=
  with_update None (with_old None c).

Definition strategy `{HashOrder} : configuration_change_strategy := {|
  cs_add_broker := fun _ _ _ => Crash;
  cs_remove_broker := fun _ _ => Crash;
  cs_replace_brokers := fun _ _ _ => Crash;
  cs_add := add;
  cs_remove := remove;
  cs_replace := replace;
  cs_discard_old_config := discard_old_config;
  cs_abort_configuration_change := v4.abort_configuration_change;
  cs_cancel_configuration_change := v4.cancel_configuration_change;
  cs_finish_configuration_transition := finish_transition_v4 |}.

End v5.

(** *** Version 6: the update is kept, so that a cancellation can be cancelled *)

Module v6.

Definition finish_configuration_transition (c : group_configuration) : res group_configuration :=
  if negb (in_state c configuration_state.transitional) then Ok c
  else
    u ← deref (_configuration_update c);
    if existsb (group_nodes_contains (_current c)) (replicas_to_remove u) then
      Ok (with_current {| voters := erase_if (is_to_remove u) (voters (_current c));
                          learners := learners (_current c) |}
           (with_old (Some (_current c)) c))
    else Ok (with_update None c).

Definition replace (nodes : list vnode) (rev : Z) (start : option Z) (c : group_configuration) :
    res group_configuration :=
  let c := with_revision rev c in
  if v5.are_equal c nodes then Ok c
  else let '(u, c) := v5.start_replace nodes start c in
       if bool_decide (replicas_to_add u = []) then finish_configuration_transition c else Ok c.

Definition add (node : vnode) (rev : Z) (start : option Z) (c : group_configuration) :
    res group_configuration :=
  _ ← throw_if (group_nodes_contains (_current c) node) invalid_argument;
  replace (_all_replicas c ++ [node]) rev start c.

Definition remove (node : vnode) (rev : Z) (c : group_configuration) : res group_configuration :=
  _ ← throw_if (negb (group_nodes_contains (_current c) node)) invalid_argument;
  replace (erase_if (fun v => bool_decide (v = node)) (_all_replicas c)) rev None c.

Definition discard_old_config (c : group_configuration) : group_configuration :=
  with_update None (with_old None c).

Definition abort_configuration_change `{HashOrder} (rev : Z) (c : group_configuration) :
    res group_configuration :=
  u ← deref (_configuration_update c);
  let all_node_ids :=
    hash_order (remove_dups (unique_learner_ids c ++ unique_voter_ids c ++ replicas_to_remove u)) in
  Ok (with_revision rev
       (with_update None
         (with_old None
           (with_current {| voters := filter (fun vn => is_to_add u vn = false) all_node_ids;
                            learners := [] |} c)))).

Definition swap_update (u : configuration_update) : configuration_update :=
  {| replicas_to_add := replicas_to_remove u; replicas_to_remove := replicas_to_add u;
     learner_start_offset := learner_start_offset u |}.

(** A node is pushed if it is in neither list, so one that is listed twice is pushed once. *)
Definition fill_learners_with_nodes_to_add (u : configuration_update) (g : group_nodes) : group_nodes :=
  fold_left (fun g vn => if group_nodes_contains g vn then g else add_learner vn g)
    (replicas_to_add u) g.

Definition cancel_update_in_transitional_state (c : group_configuration) :
    res group_configuration :=
  u0 ← deref (_configuration_update c);
  let u := swap_update u0 in
  let g := {| voters := voters (_current c);
              learners := erase_if (is_to_remove u) (learners (_current c)) |} in
  finish_configuration_transition
    (with_current (fill_learners_with_nodes_to_add u g) (with_update (Some u) c)).

Definition cancel_update_in_joint_state (c : group_configuration) : res group_configuration :=
  u0 ← deref (_configuration_update c);
  let u := swap_update u0 in
  old ← deref (_old c);
  Ok (with_current (fill_learners_with_nodes_to_add u old) (with_old None (with_update (Some u) c))).

Definition cancel_configuration_change (rev : Z) (c : group_configuration) :
    res group_configuration :=
  c ← (match get_state c with
       | configuration_state.simple => Crash
       | configuration_state.transitional => cancel_update_in_transitional_state c
       | configuration_state.joint => cancel_update_in_joint_state c
       end);
  Ok (with_revision rev c).

Definition strategy `{HashOrder} : configuration_change_strategy := {|
  cs_add_broker := fun _ _ _ => Crash;
  cs_remove_broker := fun _ _ => Crash;
  cs_replace_brokers := fun _ _ _ => Crash;
  cs_add := add;
  cs_remove := remove;
  cs_replace := replace;
  cs_discard_old_config := discard_old_config;
  cs_abort_configuration_change := abort_configuration_change;
  cs_cancel_configuration_change := cancel_configuration_change;
  cs_finish_configuration_transition := finish_configuration_transition |}.

End v6.

Definition make_change_strategy `{HashOrder} (c : group_configuration) :
    configuration_change_strategy :=
  if v_7 <=? _version c then v6.strategy
  else if v_5 <=? _version c then v5.strategy
  else if _version c =? v_4 then v4.strategy
  else v3.strategy.

(** *** The operations of [group_configuration] *)

Section operations.
Context `{HashOrder}.
Implicit Types c : group_configuration.

Definition simple_change (op : configuration_change_strategy -> group_configuration -> res group_configuration)
    c : res group_configuration :=
  _ ← vassert (in_state c configuration_state.simple);
  update_all_replicas <$> op (make_change_strategy c) c.

Definition add_broker (b : broker) (rev : Z) c :=
  simple_change (fun s => cs_add_broker s b rev) c.
Definition remove_broker (id : Z) c :=
  simple_change (fun s => cs_remove_broker s id) c.
Definition replace_brokers (bs : list broker_revision) (rev : Z) c :=
  simple_change (fun s => cs_replace_brokers s bs rev) c.
Definition add (node : vnode) (rev : Z) (start : option Z) c :=
  simple_change (fun s => cs_add s node rev start) c.
Definition remove (node : vnode) (rev : Z) c :=
  simple_change (fun s => cs_remove s node rev) c.
Definition replace (nodes : list vnode) (rev : Z) (start : option Z) c :=
  simple_change (fun s => cs_replace s nodes rev start) c.

Definition discard_old_config c : res group_configuration :=
  _ ← vassert (in_state c configuration_state.joint);
  Ok (update_all_replicas (cs_discard_old_config (make_change_strategy c) c)).

Definition abort_configuration_change (rev : Z) c : res group_configuration :=
  _ ← vassert (negb (in_state c configuration_state.simple));
  update_all_replicas <$> cs_abort_configuration_change (make_change_strategy c) rev c.

Definition cancel_configuration_change (rev : Z) c : res group_configuration :=
  _ ← vassert (negb (in_state c configuration_state.simple));
  update_all_replicas <$> cs_cancel_configuration_change (make_change_strategy c) rev c.

Definition finish_configuration_transition c : res group_configuration :=
  update_all_replicas <$> cs_finish_configuration_transition (make_change_strategy c) c.

(** The result says whether a voter was demoted. *)
Definition maybe_demote_removed_voters c : res (bool * group_configuration) :=
  _ ← vassert (in_state c configuration_state.joint);
  old ← deref (_old c);
  let stays v := group_nodes_contains (_current c) v in
  let gone := filter (fun v => stays v = false) (voters old) in
  if bool_decide (voters old = []) || bool_decide (gone = []) then Ok (false, c)
  else Ok (true, with_old (Some {| voters := filter (fun v => stays v = true) (voters old);
                                   learners := learners old ++ gone |}) c).

End operations.

(** *** Requests to the leader to end a change ([raft::consensus])

    The result is the configuration that is replicated, or that overrides the latest one, or the error the request
    is answered with. *)

Module consensus.
Section requests.
Context `{HashOrder}.

Definition interrupt_configuration_change (rev : Z)
    (f : group_configuration -> res (group_configuration + raft_errc.t)) (latest : group_configuration) :
    res (group_configuration + raft_errc.t) :=
  if in_state latest configuration_state.simple then Ok (inr raft_errc.invalid_configuration_update)
  else if rev <? _revision latest then Ok (inr raft_errc.invalid_configuration_update)
  else f latest.

(** Once the old voters are demoted, finishing the change needs fewer votes than undoing it. *)
Definition cancel_configuration_change (rev : Z) (latest : group_configuration) :
    res (group_configuration + raft_errc.t) :=
  interrupt_configuration_change rev (fun c =>
    refused ← (if in_state c configuration_state.joint
               then o ← deref (_old c); Ok (negb (bool_decide (learners o = [])))
               else Ok false);
    if (refused : bool) then Ok (inr raft_errc.invalid_configuration_update)
    else inl <$> cancel_configuration_change rev c) latest.

(** The leader steps down after a cancellation that takes its vote. *)
Definition steps_down_after_cancel (self : vnode) (c : group_configuration) : bool := negb (is_voter c self).

Definition abort_configuration_change (rev : Z) (latest : group_configuration) :
    res (group_configuration + raft_errc.t) :=
  interrupt_configuration_change rev (fun c => inl <$> abort_configuration_change rev c) latest.
End requests.
End consensus.

(** [maybe_set_initial_revision] (with [with_revisions_assigned], [have_no_revision]). *)
Definition have_no_revision (l : list vnode) : bool :=
  match l with [] => false | v :: _ => vn_revision v =? no_revision end.

Definition with_revisions_assigned (rev : Z) (l : list vnode) : res (list vnode) :=
  mapM (fun v => _ ← vassert (vn_revision v =? no_revision); Ok (Vnode (vn_id v) rev)) l.

Definition nodes_with_revisions (rev : Z) (g : group_nodes) : res group_nodes :=
  vs ← with_revisions_assigned rev (voters g);
  ls ← with_revisions_assigned rev (learners g);
  Ok {| voters := vs; learners := ls |}.

Definition maybe_set_initial_revision (rev : Z) (c : group_configuration) :
    res group_configuration :=
  if have_no_revision (learners (_current c)) || have_no_revision (voters (_current c)) then
    cur ← nodes_with_revisions rev (_current c);
    old ← (match _old c with
           | Some o => Some <$> nodes_with_revisions rev o
           | None => Ok None
           end);
    Ok (update_all_replicas (with_old old (with_current cur c)))
  else Ok (update_all_replicas c).

(** What the leader replicates once the latest configuration is committed
    ([consensus::maybe_commit_configuration]); [None] if nothing is to be done. *)
Definition committed_configuration_step `{HashOrder} (c : group_configuration) :
    res (option group_configuration) :=
  if bool_decide (learners (_current c) <> []) then Ok None
  else match get_state c with
       | configuration_state.simple => Ok None
       | configuration_state.transitional => Some <$> finish_configuration_transition c
       | configuration_state.joint =>
           '(demoted, c') ← maybe_demote_removed_voters c;
           if (demoted : bool) then Ok (Some c') else Some <$> discard_old_config c'
       end.
