(* ===== verification/GroupConfigurationProps.v ===== *)
(** * Properties of raft group configurations

    Majorities before and after a change overlap; [quorum_match] is the value a
    majority has reached; a change that is driven to its end arrives at the requested
    replicas under every schedule, and aborting or cancelling it leads back. *)

From stdpp Require Import sorting.
From S2P Require Import Prelude Errors GroupConfiguration.

(** ** Counting *)

Section counting.
Implicit Types (f g : vnode -> bool) (l : list vnode).

Lemma filter_length_both f g l :
  (length (filter (fun v => f v = true) l) + length (filter (fun v => g v = true) l)
   <= length l + length (filter (fun v => f v && g v = true) l))%nat.
Proof.
  induction l as [|x l IH]; [done|].
  rewrite !filter_cons. destruct (f x), (g x); cbn; repeat case_decide; cbn; naive_solver lia.
Qed.

(** Two predicates that hold often enough hold together somewhere. *)
Lemma count_overlap f g l :
  (length l < length (filter (fun v => f v = true) l) + length (filter (fun v => g v = true) l))%nat ->
  exists v, v ∈ l /\ f v = true /\ g v = true.
Proof.
  intros Hlen. pose proof (filter_length_both f g l) as Hb.
  destruct (filter (fun v => f v && g v = true) l) as [|v r] eqn:E; [cbn in Hb; lia|].
  assert (Hin : v ∈ filter (fun v => f v && g v = true) l) by (rewrite E; left).
  apply list_elem_of_filter in Hin as [[??]%andb_prop ?]. eauto.
Qed.

Lemma majority_of_spec f l : l <> [] ->
  majority_of f l = true <-> (length l `div` 2 + 1 <= length (filter (fun v => f v = true) l))%nat.
Proof. intros. destruct l; [done|]. unfold majority_of. apply Nat.leb_le. Qed.

Lemma div2_bounds n : (n = 2 * (n `div` 2) \/ n = 2 * (n `div` 2) + 1)%nat.
Proof. pose proof (Nat.div_mod_eq n 2). pose proof (Nat.mod_upper_bound n 2). lia. Qed.

Lemma majority_of_overlap f g l : l <> [] ->
  majority_of f l = true -> majority_of g l = true -> exists v, v ∈ l /\ f v = true /\ g v = true.
Proof.
  intros Hl Hf Hg. apply majority_of_spec in Hf, Hg; [|done|done].
  apply count_overlap. pose proof (div2_bounds (length l)). lia.
Qed.

(** One voter more keeps majorities overlapping. *)
Lemma majority_of_overlap_snoc f g l x : l <> [] ->
  majority_of f l = true -> majority_of g (l ++ [x]) = true ->
  exists v, v ∈ l /\ f v = true /\ g v = true.
Proof.
  intros Hl Hf Hg. apply majority_of_spec in Hf; [|done].
  apply majority_of_spec in Hg; [|by destruct l].
  rewrite filter_app, !length_app in Hg. cbn [length] in Hg.
  assert (length (filter (fun v => g v = true) [x]) <= 1)%nat
    by (rewrite filter_cons, filter_nil; case_decide; cbn; lia).
  apply count_overlap.
  pose proof (div2_bounds (length l)). pose proof (div2_bounds (length l + 1)). lia.
Qed.

End counting.

(** The lists of voters a decision needs a majority of. *)
Definition voter_sets (c : group_configuration) : list (list vnode) :=
  voters (_current c) :: match _old c with Some o => [voters o] | None => [] end.

Lemma majority_voter_sets c f : majority c f = true <-> Forall (fun l => majority_of f l = true) (voter_sets c).
Proof.
  unfold majority, voter_sets. destruct (_old c); rewrite ?andb_true_iff, !Forall_cons, Forall_nil; tauto.
Qed.

(** Both configurations need a majority of the same voters, or of voters that differ by
    one that was added. *)
Definition shares_voters (c c' : group_configuration) : Prop :=
  exists l, l <> [] /\ l ∈ voter_sets c /\
    (l ∈ voter_sets c' \/ exists x, l ++ [x] ∈ voter_sets c').

Lemma shares_voters_overlap c c' f g : shares_voters c c' ->
  majority c f = true -> majority c' g = true -> exists v, f v = true /\ g v = true.
Proof.
  intros (l & Hl & Hc & Hc') Hf Hg.
  rewrite majority_voter_sets, Forall_forall in Hf, Hg. specialize (Hf l Hc).
  destruct Hc' as [Hc'|[x Hc']].
  - destruct (majority_of_overlap f g l) as (v & _ & ?); eauto.
  - destruct (majority_of_overlap_snoc f g l x) as (v & _ & ?); eauto.
Qed.

(** ** One change at a time *)

(** The operations that may be replicated while the group is running.  Aborting a change
    is not among them: it is a recovery from lost majorities. *)
Inductive change :=
  | ChAddBroker (b : broker) (rev : Z)
  | ChRemoveBroker (id : Z)
  | ChReplaceBrokers (bs : list broker_revision) (rev : Z)
  | ChAdd (node : vnode) (rev : Z) (start : option Z)
  | ChRemove (node : vnode) (rev : Z)
  | ChReplace (nodes : list vnode) (rev : Z) (start : option Z)
  | ChPromote (node : vnode)
  | ChFinish
  | ChCancel (rev : Z)
  | ChDemote
  | ChDiscard.

Definition apply_change `{HashOrder} (ch : change) (c : group_configuration) :
    res group_configuration :=
  match ch with
  | ChAddBroker b rev => add_broker b rev c
  | ChRemoveBroker id => remove_broker id c
  | ChReplaceBrokers bs rev => replace_brokers bs rev c
  | ChAdd node rev start => add node rev start c
  | ChRemove node rev => remove node rev c
  | ChReplace nodes rev start => replace nodes rev start c
  | ChPromote node => Ok (promote_to_voter node c)
  | ChFinish => finish_configuration_transition c
  | ChCancel rev => cancel_configuration_change rev c
  | ChDemote => snd <$> maybe_demote_removed_voters c
  | ChDiscard => discard_old_config c
  end.

(** A decision in [c] needs votes; a cancellation in joint state falls back on the old
    voters, which must not have been demoted all. *)
Definition keeps_voters (ch : change) (c : group_configuration) : bool :=
  match ch with
  | ChCancel _ => has_voters c
  | _ => negb (bool_decide (voters (_current c) = []))
  end.

Lemma fmap_Ok {A B} (f : A -> B) (m : res A) b : f <$> m = Ok b -> exists a, m = Ok a /\ b = f a.
Proof. destruct m; naive_solver. Qed.

Lemma update_all_replicas_sets c : voter_sets (update_all_replicas c) = voter_sets c.
Proof. done. Qed.

(** Invert the monadic code of an operation that succeeded. *)
Ltac ok_inv :=
  repeat match goal with
  | H : ?m ≫= _ = Ok _ |- _ => apply res_bind_Ok in H as (? & ? & H)
  | H : _ <$> _ = Ok _ |- _ => apply fmap_Ok in H as (? & H & ->)
  | H : vassert _ = Ok _ |- _ => apply vassert_Ok in H
  | H : throw_if _ _ = Ok _ |- _ => apply throw_if_Ok in H
  | H : deref ?o = Ok _ |- _ => destruct o eqn:?; [cbn in H | done]
  | H : Ok _ = Ok _ |- _ => injection H as H; subst
  | H : Crash = Ok _ |- _ => done
  | H : Throw _ = Ok _ |- _ => done
  | H : in_state _ _ = true |- _ => apply bool_decide_eq_true in H
  end.

Lemma state_simple c : get_state c = configuration_state.simple -> _old c = None.
Proof. unfold get_state. by destruct (_old c), (_configuration_update c). Qed.

Lemma state_transitional c : get_state c = configuration_state.transitional ->
  _old c = None /\ exists u, _configuration_update c = Some u.
Proof. unfold get_state. destruct (_old c), (_configuration_update c); naive_solver. Qed.

Lemma state_joint c : get_state c = configuration_state.joint -> exists o, _old c = Some o.
Proof. unfold get_state. destruct (_old c), (_configuration_update c); naive_solver. Qed.

Lemma shares_current c c' : voters (_current c) <> [] -> voters (_current c) ∈ voter_sets c' -> shares_voters c c'.
Proof. intros ? ?. exists (voters (_current c)). unfold voter_sets. set_solver. Qed.

Lemma finish_v4_keeps c c' : finish_transition_v4 c = Ok c' -> voters (_current c) ∈ voter_sets c'.
Proof. unfold finish_transition_v4. intros ?. ok_inv. case_bool_decide; ok_inv; unfold voter_sets; cbn; set_solver. Qed.

Lemma finish_v6_keeps c c' : v6.finish_configuration_transition c = Ok c' -> voters (_current c) ∈ voter_sets c'.
Proof.
  unfold v6.finish_configuration_transition. intros Hf. destruct (negb _); ok_inv; [unfold voter_sets; set_solver|].
  destruct (existsb _ _); ok_inv; unfold voter_sets; cbn; set_solver.
Qed.

Lemma fill_learners_voters u g : voters (v6.fill_learners_with_nodes_to_add u g) = voters g.
Proof.
  unfold v6.fill_learners_with_nodes_to_add. generalize (replicas_to_add u) as l. intros l. revert g.
  induction l as [|x l IH]; intros g; [done|]. cbn. rewrite IH. by destruct (group_nodes_contains g x).
Qed.

(** What a strategy promises: a change from simple state, the end of a transition and
    leaving joint state all keep the current voters as one of the two sets, cancelling
    keeps the current or the old ones. *)
Class KeepsVoters (s : configuration_change_strategy) := {
  keeps_add_broker b rev c c' : _old c = None -> cs_add_broker s b rev c = Ok c' ->
    voters (_current c) ∈ voter_sets c';
  keeps_remove_broker id c c' : _old c = None -> cs_remove_broker s id c = Ok c' ->
    voters (_current c) ∈ voter_sets c';
  keeps_replace_brokers bs rev c c' : _old c = None -> cs_replace_brokers s bs rev c = Ok c' ->
    voters (_current c) ∈ voter_sets c';
  keeps_add node rev start c c' : _old c = None -> cs_add s node rev start c = Ok c' ->
    voters (_current c) ∈ voter_sets c';
  keeps_remove node rev c c' : _old c = None -> cs_remove s node rev c = Ok c' ->
    voters (_current c) ∈ voter_sets c';
  keeps_replace nodes rev start c c' : _old c = None -> cs_replace s nodes rev start c = Ok c' ->
    voters (_current c) ∈ voter_sets c';
  keeps_discard c : voters (_current c) ∈ voter_sets (cs_discard_old_config s c);
  keeps_finish c c' : cs_finish_configuration_transition s c = Ok c' ->
    voters (_current c) ∈ voter_sets c';
  keeps_cancel rev c c' : cs_cancel_configuration_change s rev c = Ok c' ->
    voters (_current c) ∈ voter_sets c' \/ exists o, _old c = Some o /\ voters o ∈ voter_sets c';
}.

Lemma erase_first_absent (id : vnode) l : id ∉ l -> erase_first (fun v => bool_decide (v = id)) l = l.
Proof. induction l as [|x l IH]; [done|]. cbn. intros ?. case_bool_decide; [set_solver|]. f_equal. set_solver. Qed.

Ltac sets := unfold voter_sets; cbn; set_solver.

#[export] Instance v3_keeps_voters : KeepsVoters v3.strategy.
Proof.
  split; cbn; try done.
  - unfold v3.add_broker. intros ???? Ho ?. ok_inv. sets.
  - unfold v3.remove_broker. intros ??? Ho ?. ok_inv. sets.
  - unfold v3.replace_brokers. intros bs rev c c' Ho Hr. destruct (brokers_are_equal _ _); ok_inv; [sets|].
    unfold voter_sets. cbn [_current _old with_brokers with_current with_old with_revision].
    match goal with H : _ || _ = true |- _ => clear H end.
    case_bool_decide as E; [rewrite E|]; set_solver.
  - sets.
  - intros ???. ok_inv. sets.
  - unfold v3.cancel_configuration_change. intros ????. ok_inv. left. sets.
Qed.

Lemma v4_cancel_keeps rev c c' : v4.cancel_configuration_change rev c = Ok c' ->
  voters (_current c) ∈ voter_sets c' \/ exists o, _old c = Some o /\ voters o ∈ voter_sets c'.
Proof.
  unfold v4.cancel_configuration_change. intros Hc. ok_inv.
  destruct (get_state c); [done| |].
  - unfold v4.cancel_update_in_transitional_state in *. ok_inv. left.
    match goal with H : finish_transition_v4 _ = _ |- _ => apply finish_v4_keeps in H end. done.
  - unfold v4.cancel_update_in_joint_state in *. ok_inv. right. eexists. split; [done|]. sets.
Qed.

#[export] Instance v4_keeps_voters `{HashOrder} : KeepsVoters v4.strategy.
Proof.
  split; cbn; try done.
  - unfold v4.add_broker. intros ???? Ho ?. ok_inv. sets.
  - unfold v4.remove_broker. intros ??? Ho ?. ok_inv. sets.
  - unfold v4.replace_brokers. intros bs rev c c' Ho Hr. destruct (brokers_are_equal _ _); ok_inv; [sets|].
    case_bool_decide; [by apply finish_v4_keeps in Hr|ok_inv; sets].
  - sets.
  - apply finish_v4_keeps.
  - apply v4_cancel_keeps.
Qed.

#[export] Instance v5_keeps_voters `{HashOrder} : KeepsVoters v5.strategy.
Proof.
  split; cbn; try done.
  - unfold v5.add. intros ????? Ho ?. ok_inv. sets.
  - unfold v5.remove. intros node ? c ? Ho ?. ok_inv. case_bool_decide as E; [|sets].
    destruct (mem node (voters (_current c))) eqn:M; [done|]. apply bool_decide_eq_false in M.
    unfold voter_sets. cbn. rewrite erase_first_absent by done. left.
  - unfold v5.replace. intros nodes rev start c c' Ho Hr. destruct (v5.are_equal _ _); ok_inv; [sets|].
    rewrite (surjective_pairing (v5.start_replace _ _ _)) in Hr.
    case_bool_decide; [by apply finish_v4_keeps in Hr|ok_inv; sets].
  - sets.
  - apply finish_v4_keeps.
  - apply v4_cancel_keeps.
Qed.

Lemma v6_replace_keeps nodes rev start c c' : v6.replace nodes rev start c = Ok c' ->
  voters (_current c) ∈ voter_sets c'.
Proof.
  unfold v6.replace. intros Hr. destruct (v5.are_equal _ _); ok_inv; [sets|].
  rewrite (surjective_pairing (v5.start_replace _ _ _)) in Hr.
  case_bool_decide; [by apply finish_v6_keeps in Hr|ok_inv; sets].
Qed.

#[export] Instance v6_keeps_voters `{HashOrder} : KeepsVoters v6.strategy.
Proof.
  split; cbn; try done.
  - unfold v6.add. intros ????? Ho ?. ok_inv. eapply v6_replace_keeps; eauto.
  - unfold v6.remove. intros ???? Ho ?. ok_inv. eapply v6_replace_keeps; eauto.
  - intros ????? _. apply v6_replace_keeps.
  - sets.
  - apply finish_v6_keeps.
  - unfold v6.cancel_configuration_change. intros rev c c' Hc. ok_inv. destruct (get_state c); [done| |].
    + unfold v6.cancel_update_in_transitional_state in *. ok_inv. left.
      match goal with H : v6.finish_configuration_transition _ = _ |- _ =>
        apply finish_v6_keeps in H; cbn [_current with_current] in H;
        by rewrite fill_learners_voters in H end.
    + unfold v6.cancel_update_in_joint_state in *. ok_inv. right. eexists. split; [done|].
      unfold voter_sets. cbn [_current _old with_current with_old with_update with_revision].
      rewrite fill_learners_voters. set_solver.
Qed.

#[export] Instance make_change_strategy_keeps `{HashOrder} c : KeepsVoters (make_change_strategy c).
Proof. unfold make_change_strategy. repeat case_match; apply _. Qed.

Lemma simple_change_keeps `{HashOrder} op c c' :
  (forall s c1 c2, KeepsVoters s -> _old c1 = None -> op s c1 = Ok c2 -> voters (_current c1) ∈ voter_sets c2) ->
  simple_change op c = Ok c' -> voters (_current c) ∈ voter_sets c'.
Proof.
  intros Hop Hs. unfold simple_change in Hs. ok_inv. rewrite update_all_replicas_sets.
  eapply Hop; [| |done]; [apply _|by apply state_simple].
Qed.

Lemma promote_shares node c : voters (_current c) <> [] -> shares_voters c (promote_to_voter node c).
Proof.
  intros Hne. unfold promote_to_voter. case_bool_decide; [|apply shares_current; [done|sets]].
  exists (voters (_current c)). split; [done|]. split; [sets|]. right. exists node. sets.
Qed.

Lemma change_shares `{HashOrder} ch c c' :
  keeps_voters ch c = true -> apply_change ch c = Ok c' -> shares_voters c c'.
Proof.
  destruct ch; cbn; intros Hk Hc; try apply negb_true_iff, bool_decide_eq_false in Hk;
    try (apply shares_current; [done|]; revert Hc; apply simple_change_keeps; intros ????).
  - by eapply keeps_add_broker.
  - by eapply keeps_remove_broker.
  - by eapply keeps_replace_brokers.
  - by eapply keeps_add.
  - by eapply keeps_remove.
  - by eapply keeps_replace.
  - ok_inv. by apply promote_shares.
  - unfold finish_configuration_transition in Hc. ok_inv. apply shares_current; [done|].
    rewrite update_all_replicas_sets. by eapply keeps_finish.
  - unfold has_voters in Hk. apply negb_true_iff, orb_false_iff in Hk as [Hcur Hold].
    apply bool_decide_eq_false in Hcur. unfold cancel_configuration_change in Hc. ok_inv.
    destruct (keeps_cancel rev c _ Hc) as [?|(o & Ho & ?)]; [by apply shares_current|].
    rewrite Ho in Hold. apply bool_decide_eq_false in Hold. exists (voters o).
    split; [done|]. split; [unfold voter_sets; rewrite Ho; set_solver|]. by left.
  - unfold maybe_demote_removed_voters in Hc. ok_inv. apply shares_current; [done|].
    destruct (_ || _); ok_inv; sets.
  - unfold discard_old_config in Hc. ok_inv. apply shares_current; [done|].
    rewrite update_all_replicas_sets. apply keeps_discard.
Qed.

(** C9: Whatever single change a configuration undergoes (adding, removing or replacing
    replicas under any version's strategy, promoting a learner, entering joint state,
    demoting the voters that leave, leaving joint state, cancelling), a majority of the
    configuration before it and a majority of the one after it have a replica in common. *)
Theorem majorities_overlap_across_change `{HashOrder} ch c c' f g :
  keeps_voters ch c = true -> apply_change ch c = Ok c' ->
  majority c f = true -> majority c' g = true ->
  exists v, f v = true /\ g v = true.
Proof. intros Hk Hc. apply shares_voters_overlap. by eapply change_shares. Qed.

(** ** The value a majority has reached *)

(** In a sorted list the [i]th value is at least [v] iff all but [i] values are. *)
Lemma sorted_nth_ge (v x : Z) (l : list Z) (i : nat) :
  StronglySorted Z.le l -> l !! i = Some x ->
  v <= x <-> (length l - i <= length (filter (fun y : Z => (v <=? y)%Z = true) l))%nat.
Proof.
  intros Hs Hi. pose proof (lookup_lt_Some _ _ _ Hi).
  rewrite <- (take_drop_middle l i x Hi) in Hs |- *.
  apply StronglySorted_app in Hs as (Hpre & _ & Hr).
  apply StronglySorted_inv in Hr as [_ Hr]. rewrite Forall_forall in Hr.
  rewrite filter_app, filter_cons, !length_app, length_take, length_cons, length_drop. split.
  - intros Hv. rewrite decide_True by (by apply Z.leb_le). rewrite length_cons, (filter_all _ (drop (S i) l)).
    + rewrite length_drop. lia.
    + intros y Hy. specialize (Hr y Hy). apply Z.leb_le. lia.
  - intros Hc. destruct (decide (v <= x)) as [|Hn]; [done|exfalso].
    rewrite (filter_none _ (take i l)) in Hc.
    2:{ intros y Hy. specialize (Hpre y x Hy ltac:(left)). rewrite Z.leb_le. lia. }
    rewrite decide_False in Hc by (rewrite Z.leb_le; lia).
    pose proof (length_filter (fun x => (v <=? x) = true) (drop (S i) l)) as Hl.
    rewrite length_drop in Hl. cbn in Hc. lia.
Qed.

Lemma filter_fmap_length (f : vnode -> Z) (v : Z) (l : list vnode) :
  length (filter (fun x => (v <=? x) = true) (f <$> l)) = length (filter (fun n => (v <=? f n) = true) l).
Proof. induction l as [|x l IH]; [done|]. rewrite fmap_cons, !filter_cons. case_decide; cbn; lia. Qed.

Lemma quorum_match_of_majority dflt f (l : list vnode) v : l <> [] ->
  v <= quorum_match_of dflt f l <-> majority_of (fun n => v <=? f n) l = true.
Proof.
  intros Hl. rewrite majority_of_spec by done. unfold quorum_match_of.
  replace (match l with [] => dflt | _ => _ end) with
    (default dflt (merge_sort Z.le (f <$> l) !! ((length (f <$> l) - 1) `div` 2)%nat)) by (by destruct l).
  pose proof (merge_sort_Permutation Z.le (f <$> l)) as Hp.
  assert (length l <> 0%nat) by (by destruct l).
  destruct (lookup_lt_is_Some_2 (merge_sort Z.le (f <$> l)) ((length (f <$> l) - 1) `div` 2)) as [x Hx].
  { rewrite Hp, length_fmap. pose proof (div2_bounds (length l - 1)). lia. }
  rewrite Hx. cbn [default]. rewrite sorted_nth_ge; [|by apply (StronglySorted_merge_sort Z.le)|done].
  rewrite (Permutation_length Hp), (Permutation_length (filter_Permutation _ _ _ Hp)).
  rewrite filter_fmap_length, length_fmap.
  pose proof (div2_bounds (length l - 1)). pose proof (div2_bounds (length l)). lia.
Qed.

(** In joint state both voter sets count, unless one of them is empty. *)
Lemma quorum_match_spec dflt c f v : (exists l, l ∈ voter_sets c /\ l <> []) ->
  v <= quorum_match dflt c f <-> majority c (fun n => v <=? f n) = true.
Proof.
  intros (l & Hin & Hne). unfold quorum_match, majority. unfold voter_sets in Hin.
  destruct (_old c) as [o|]; [|apply quorum_match_of_majority; set_solver].
  rewrite andb_true_iff.
  destruct (decide (voters (_current c) = [])) as [Ec|Ec]; [rewrite bool_decide_true by done|rewrite bool_decide_false by done].
  - rewrite Ec in *. rewrite quorum_match_of_majority by set_solver. cbn. tauto.
  - destruct (decide (voters o = [])) as [Eo|Eo]; [rewrite bool_decide_true by done|rewrite bool_decide_false by done].
    + rewrite Eo, quorum_match_of_majority by done. cbn. tauto.
    + rewrite Z.min_glb_iff, !quorum_match_of_majority by done. done.
Qed.

(** [quorum_match] is the largest value a majority has reached: it is at least [v]
    exactly if a majority of the configuration (of both voter sets in joint state)
    reports a value that is at least [v]. *)
Theorem quorum_match_is_majority dflt c f v :
  (exists l, l ∈ voter_sets c /\ l <> []) ->
  v <= quorum_match dflt c f <-> majority c (fun n => v <=? f n) = true.
Proof. apply quorum_match_spec. Qed.

(** ** The list of all replicas *)

Definition members (g : group_nodes) : list vnode := voters g ++ learners g.

(** [_all_replicas] lists every replica of the configuration once. *)
Definition replicas_ok (c : group_configuration) : Prop :=
  NoDup (_all_replicas c) /\
  forall v, v ∈ _all_replicas c <->
    v ∈ members (_current c) \/ exists o, _old c = Some o /\ v ∈ members o.

Lemma group_nodes_contains_spec g v : group_nodes_contains g v = true <-> v ∈ members g.
Proof.
  unfold group_nodes_contains, members. rewrite orb_true_iff, !bool_decide_eq_true. set_solver.
Qed.

Lemma group_nodes_contains_false g v : group_nodes_contains g v = false <-> v ∉ members g.
Proof. rewrite <- group_nodes_contains_spec. by destruct (group_nodes_contains g v). Qed.

Lemma copy_unique_spec acc l : NoDup acc ->
  NoDup (copy_unique acc l) /\ forall v, v ∈ copy_unique acc l <-> v ∈ acc \/ v ∈ l.
Proof.
  unfold copy_unique. revert acc. induction l as [|x l IH]; intros acc Hacc; [set_solver|].
  cbn. case_bool_decide as Hx.
  - destruct (IH acc Hacc) as [? Hm]. split; [done|]. intros v. rewrite Hm. set_solver.
  - destruct (IH (acc ++ [x])) as [? Hm].
    { apply NoDup_app. split_and!; [done| |apply NoDup_singleton]. set_solver. }
    split; [done|]. intros v. rewrite Hm. set_solver.
Qed.

Lemma update_all_replicas_ok c : replicas_ok (update_all_replicas c).
Proof.
  unfold replicas_ok, update_all_replicas, members. cbn.
  destruct (copy_unique_spec [] (voters (_current c)) (NoDup_nil_2)) as [N1 M1].
  destruct (copy_unique_spec _ (learners (_current c)) N1) as [N2 M2].
  destruct (_old c) as [o|].
  - destruct (copy_unique_spec _ (voters o) N2) as [N3 M3].
    destruct (copy_unique_spec _ (learners o) N3) as [N4 M4].
    split; [done|]. intros v. rewrite M4, M3, M2, M1. set_solver.
  - split; [done|]. intros v. rewrite M2, M1. set_solver.
Qed.

Lemma erase_first_perm (id : vnode) l : id ∈ l ->
  l ≡ₚ id :: erase_first (fun v => bool_decide (v = id)) l.
Proof.
  induction l as [|x l IH]; [set_solver|]. cbn. intros Hin. case_bool_decide as E; [by subst|].
  etrans; [apply Permutation_skip, IH; set_solver|]. apply Permutation_swap.
Qed.

Lemma promote_members id c : members (_current (promote_to_voter id c)) ≡ₚ members (_current c).
Proof.
  unfold promote_to_voter, members. case_bool_decide as Hin; [|done]. cbn.
  rewrite <- (assoc_L (++)). apply Permutation_app; [done|]. symmetry. by apply erase_first_perm.
Qed.

Lemma filter_partition (P : vnode -> bool) (l : list vnode) :
  filter (fun v => P v = true) l ++ filter (fun v => P v = false) l ≡ₚ l.
Proof.
  induction l as [|x l IH]; [done|]. rewrite !filter_cons.
  destruct (P x); repeat case_decide; try done; cbn; [by rewrite IH|]. by rewrite <- Permutation_middle, IH.
Qed.

Lemma demote_members `{HashOrder} c b c' : maybe_demote_removed_voters c = Ok (b, c') ->
  _current c' = _current c /\ _configuration_update c' = _configuration_update c /\
  _version c' = _version c /\ _all_replicas c' = _all_replicas c /\
  exists o o', _old c = Some o /\ _old c' = Some o' /\ members o' ≡ₚ members o.
Proof.
  unfold maybe_demote_removed_voters. intros Hd. ok_inv.
  destruct (_ || _); ok_inv; cbn; split_and!; try done; eauto 10.
  do 2 eexists. split_and!; [done..|]. unfold members. cbn.
  rewrite <- (filter_partition (group_nodes_contains (_current c)) (voters _)) at 3.
  by rewrite (Permutation_app_comm (learners _)), (assoc_L (++)).
Qed.

(** C33: [_all_replicas], which the membership checks and the leader priorities read, lists
    exactly the replicas of the current and the old nodes, each once, after every change,
    including the two that do not recompute it. *)
Theorem all_replicas_is_exact `{HashOrder} ch c c' :
  replicas_ok c -> apply_change ch c = Ok c' -> replicas_ok c'.
Proof.
  intros [Hnd Hc] Ha. destruct ch; cbn in Ha;
    try (unfold add_broker, remove_broker, replace_brokers, add, remove, replace, simple_change,
           finish_configuration_transition, cancel_configuration_change, discard_old_config in Ha;
         ok_inv; by apply update_all_replicas_ok).
  - ok_inv. split; [unfold promote_to_voter; by case_bool_decide|]. intros v.
    rewrite promote_members. replace (_all_replicas _) with (_all_replicas c)
      by (unfold promote_to_voter; by case_bool_decide).
    rewrite Hc. unfold promote_to_voter. by case_bool_decide.
  - apply fmap_Ok in Ha as ([b c1] & Ha & ->). apply demote_members in Ha as (E1 & _ & _ & E2 & o & o' & E3 & E4 & Hp).
    cbn. split; [congruence|]. intros v. rewrite E2, E1, Hc, E3, E4.
    split; intros [?|(x & [= <-] & Hx)]; eauto; right; eexists; (split; [done|]); by rewrite Hp in *.
Qed.

(** ** Driving a change to its end *)

(** What a leader does on its own: it promotes a learner that has caught up, and moves on
    when the latest configuration is committed and has no learners. *)
Inductive leader_step `{HashOrder} (c : group_configuration) : group_configuration -> Prop :=
  | ls_promote id : id ∈ learners (_current c) -> leader_step c (promote_to_voter id c)
  | ls_commit c' : committed_configuration_step c = Ok (Some c') -> leader_step c c'.

(** The update from the replicas [src] to the replicas [tgt]. *)
Definition update_ok (src tgt : list vnode) (u : configuration_update) : Prop :=
  (forall v, v ∈ replicas_to_add u <-> v ∈ tgt /\ v ∉ src) /\
  (forall v, v ∈ replicas_to_remove u <-> v ∈ src /\ v ∉ tgt).

(** The configurations on the way from [src] to [tgt]. *)
Definition moving (src tgt : list vnode) (c : group_configuration) : Prop :=
  v_7 <= _version c /\ NoDup (members (_current c)) /\
  match _old c, _configuration_update c with
  | None, None => forall v, v ∈ members (_current c) <-> v ∈ tgt
  | None, Some u =>
      update_ok src tgt u /\
      (forall v, v ∈ tgt -> v ∈ members (_current c)) /\
      (forall v, v ∈ members (_current c) -> v ∈ src \/ v ∈ tgt)
  | Some o, Some u =>
      update_ok src tgt u /\
      (forall v, v ∈ members (_current c) <-> v ∈ tgt) /\
      NoDup (members o) /\
      (forall v, v ∈ src -> v ∈ tgt -> v ∈ members o) /\
      (forall v, v ∈ members o -> v ∈ src \/ v ∈ tgt)
  | Some _, None => False
  end.

(** The configuration the change asks for. *)
Definition at_target (tgt : list vnode) (c : group_configuration) : Prop :=
  get_state c = configuration_state.simple /\ learners (_current c) = [] /\
  voters (_current c) ≡ₚ tgt.

Lemma strategy_v7 `{HashOrder} c : v_7 <= _version c -> make_change_strategy c = v6.strategy.
Proof. intros. unfold make_change_strategy. by rewrite (proj2 (Z.leb_le _ _)). Qed.

Lemma elem_of_erase_if (P : vnode -> bool) l v : v ∈ erase_if P l <-> v ∈ l /\ P v = false.
Proof. unfold erase_if. rewrite list_elem_of_filter. tauto. Qed.

Lemma moving_update_all src tgt c : moving src tgt c -> moving src tgt (update_all_replicas c).
Proof. done. Qed.

Lemma moving_current src tgt c g :
  members g ≡ₚ members (_current c) -> moving src tgt c -> moving src tgt (with_current g c).
Proof.
  unfold moving. cbn. intros Hp (Hv & Hn & Hm). split; [done|]. split; [by rewrite Hp|].
  destruct (_old c), (_configuration_update c); [|done| |]; setoid_rewrite Hp; done.
Qed.

Lemma promote_moving src tgt id c : moving src tgt c -> moving src tgt (promote_to_voter id c).
Proof.
  intros Hm. pose proof (promote_members id c) as Hp. revert Hp. unfold promote_to_voter.
  case_bool_decide; [|done]. cbn. intros Hp. by apply moving_current.
Qed.

(** The end of a transition, which cancelling reaches with learners left. *)
Lemma finish_moving src tgt c c' u :
  _configuration_update c = Some u -> _old c = None ->
  (forall v, v ∈ learners (_current c) -> v ∉ replicas_to_remove u) ->
  moving src tgt c -> v6.finish_configuration_transition c = Ok c' -> moving src tgt c'.
Proof.
  intros Eu Eo Hl (Hv & Hn & Hm) Hf. rewrite Eo, Eu in Hm. destruct Hm as (Hu & Hin & Hout).
  unfold v6.finish_configuration_transition in Hf. destruct (negb _); [ok_inv; unfold moving; rewrite Eo, Eu; eauto|].
  rewrite Eu in Hf. cbn in Hf. destruct Hu as [Ha Hr]. destruct (existsb _ _) eqn:Eb; ok_inv.
  - unfold moving. cbn. rewrite Eu. split; [done|].
    assert (Hmem : forall v, v ∈ erase_if (is_to_remove u) (voters (_current c)) ++ learners (_current c)
      <-> v ∈ members (_current c) /\ v ∉ replicas_to_remove u).
    { intros v. unfold members. rewrite !elem_of_app, elem_of_erase_if. unfold is_to_remove.
      rewrite bool_decide_eq_false. set_solver. }
    split; [|split_and!; try done].
    + unfold members in *. cbn. apply NoDup_app in Hn as (? & Hd & ?). apply NoDup_app. split_and!; [by apply NoDup_filter| |done].
      intros v [? _]%elem_of_erase_if. by apply Hd.
    + intros v. rewrite Hmem, Hr. split; [|naive_solver].
      intros [[?|?]%Hout Hnr]; [|done]. destruct (decide (v ∈ tgt)); naive_solver.
    + intros v ? ?. by apply Hin.
  - unfold moving. cbn. rewrite Eo. split_and!; [done..|]. intros v. split; [|apply Hin].
    intros Hv'. destruct (Hout v Hv') as [Hs|?]; [|done]. destruct (decide (v ∈ tgt)) as [|Hnt]; [done|].
    assert (existsb (group_nodes_contains (_current c)) (replicas_to_remove u) = true); [|congruence].
    apply existsb_exists. exists v. split; [apply list_elem_of_In, Hr; done|by apply group_nodes_contains_spec].
Qed.

Lemma step_moving `{HashOrder} src tgt c c' : moving src tgt c -> leader_step c c' -> moving src tgt c'.
Proof.
  intros Hm [id Hid|c1 Hs]; [by apply promote_moving|].
  pose proof (proj1 Hm) as Hv. pose proof (strategy_v7 c Hv) as Hst.
  unfold committed_configuration_step in Hs. case_bool_decide as Hl; [done|].
  assert (learners (_current c) = []) as Hl' by (destruct (learners (_current c)); naive_solver).
  destruct (get_state c) eqn:Est; [done|..].
  - destruct (state_transitional c Est) as [Eo [u Eu]]. apply fmap_Ok in Hs as (c2 & Hs & [= ->]).
    unfold finish_configuration_transition in Hs. rewrite Hst in Hs. cbn in Hs. ok_inv.
    apply moving_update_all. eapply finish_moving; eauto. rewrite Hl'. set_solver.
  - apply res_bind_Ok in Hs as ([b c2] & Hd & Hs).
    pose proof (demote_members _ _ _ Hd) as (E1 & E2 & E3 & _ & o & o' & Eo & Eo' & Hp).
    assert (moving src tgt c2) as Hm2.
    { revert Hm. unfold moving. rewrite E1, E2, E3, Eo, Eo'. destruct (_configuration_update c); [|done]. by setoid_rewrite Hp. }
    destruct b; [by injection Hs as <-|]. apply fmap_Ok in Hs as (c3 & Hs & [= ->]).
    unfold discard_old_config in Hs. ok_inv. apply moving_update_all.
    rewrite strategy_v7 by (by rewrite E3). revert Hm2. unfold moving. cbn. rewrite Eo'. destruct (_configuration_update c2); naive_solver.
Qed.

(** The steps that are left: one per learner, and up to three to leave the current state. *)
Definition removed_voters (c : group_configuration) : list vnode :=
  match _old c with
  | Some o => filter (fun v => group_nodes_contains (_current c) v = false) (voters o)
  | None => []
  end.

Definition steps_left (c : group_configuration) : nat :=
  (length (learners (_current c)) +
   match get_state c with
   | configuration_state.simple => 0
   | configuration_state.transitional => 3
   | configuration_state.joint => if bool_decide (removed_voters c = []) then 1 else 2
   end)%nat.

Lemma promote_steps id c : id ∈ learners (_current c) ->
  (steps_left (promote_to_voter id c) < steps_left c)%nat.
Proof.
  intros Hin. pose proof (promote_members id c) as Hp. pose proof (erase_first_perm id _ Hin) as He.
  apply Permutation_length in He. unfold steps_left, removed_voters.
  assert (Hg : forall v, group_nodes_contains (_current (promote_to_voter id c)) v = group_nodes_contains (_current c) v).
  { intros v. apply eq_true_iff_eq. by rewrite !group_nodes_contains_spec, Hp. }
  assert (get_state (promote_to_voter id c) = get_state c) as -> by (unfold promote_to_voter; by case_bool_decide).
  assert (_old (promote_to_voter id c) = _old c) as -> by (unfold promote_to_voter; by case_bool_decide).
  assert (length (learners (_current (promote_to_voter id c))) < length (learners (_current c)))%nat.
  { unfold promote_to_voter. rewrite bool_decide_true by done. cbn in *. lia. }
  destruct (get_state c), (_old c) as [o|]; try lia.
  rewrite (list_filter_iff _ (fun v => group_nodes_contains (_current c) v = false) (voters o)); [lia|].
  intros v. by rewrite Hg.
Qed.

Lemma finish_steps c c' : get_state c = configuration_state.transitional ->
  v6.finish_configuration_transition c = Ok c' -> (steps_left c' < steps_left c)%nat.
Proof.
  intros Est Hf. destruct (state_transitional c Est) as [Eo [u Eu]]. unfold v6.finish_configuration_transition, in_state in Hf.
  rewrite bool_decide_true, Eu in Hf by done. cbn in Hf. unfold steps_left. rewrite Est.
  destruct (existsb _ _); ok_inv; unfold get_state; cbn; rewrite ?Eo; [case_bool_decide|]; lia.
Qed.

Lemma demote_steps `{HashOrder} c c' : maybe_demote_removed_voters c = Ok (true, c') ->
  (steps_left c' < steps_left c)%nat.
Proof.
  unfold maybe_demote_removed_voters. intros Hd. apply res_bind_Ok in Hd as (? & _ & Hd).
  destruct (_old c) as [o|] eqn:Eo; [|done]. cbn in Hd.
  destruct (_ || _) eqn:E; [done|]. injection Hd as <-.
  apply orb_false_iff in E as [_ Hg]. apply bool_decide_eq_false in Hg.
  unfold steps_left, get_state, removed_voters. rewrite Eo. cbn [_old with_old _current voters].
  rewrite (bool_decide_false (filter _ (voters o) = [])) by done.
  rewrite bool_decide_true; [lia|]. apply filter_none. intros v [Hc _]%list_elem_of_filter. by rewrite Hc.
Qed.

Lemma step_decreases `{HashOrder} src tgt c c' : moving src tgt c -> leader_step c c' ->
  (steps_left c' < steps_left c)%nat.
Proof.
  intros Hm [id Hid|c1 Hs]; [by apply promote_steps|].
  pose proof (strategy_v7 c (proj1 Hm)) as Hst.
  unfold committed_configuration_step in Hs. case_bool_decide; [done|].
  destruct (get_state c) eqn:Est; [done|..].
  - apply fmap_Ok in Hs as (c2 & Hs & [= ->]). unfold finish_configuration_transition in Hs.
    rewrite Hst in Hs. cbn in Hs. ok_inv. by apply finish_steps in Hs.
  - apply res_bind_Ok in Hs as ([[] c2] & Hd & Hs); [injection Hs as <-; by eapply demote_steps|].
    apply fmap_Ok in Hs as (c3 & Hs & [= ->]). pose proof (demote_members _ _ _ Hd) as (E1 & _ & E3 & _).
    unfold discard_old_config in Hs. ok_inv. rewrite strategy_v7 by (rewrite E3; apply Hm).
    unfold steps_left. rewrite Est. cbn. rewrite E1. case_bool_decide; lia.
Qed.

(** A configuration that is not at the target has a step to take. *)
Lemma progress `{HashOrder} src tgt c : NoDup tgt -> moving src tgt c ->
  (exists c', leader_step c c') \/ at_target tgt c.
Proof.
  intros Ht Hm. pose proof (strategy_v7 c (proj1 Hm)) as Hst.
  destruct (learners (_current c)) as [|l ls] eqn:El.
  2:{ left. exists (promote_to_voter l c). constructor. rewrite El. left. }
  assert (Hl : bool_decide (learners (_current c) <> []) = false) by (apply bool_decide_eq_false; rewrite El; naive_solver).
  destruct (get_state c) eqn:Est.
  - right. split; [done|]. split; [done|]. destruct Hm as (_ & Hn & Hm). revert Hm.
    unfold get_state in Est. destruct (_old c), (_configuration_update c); try done.
    unfold members in *. rewrite El, app_nil_r in *. intros Hm. by apply NoDup_Permutation.
  - left. destruct (state_transitional c Est) as [Eo [u Eu]].
    assert (exists c1, v6.finish_configuration_transition c = Ok c1) as [c1 Hf].
    { unfold v6.finish_configuration_transition, in_state. rewrite bool_decide_true, Eu by done. cbn.
      destruct (existsb _ _); eauto. }
    exists (update_all_replicas c1). apply ls_commit. unfold committed_configuration_step. rewrite Hl, Est.
    unfold finish_configuration_transition. rewrite Hst. cbn. by rewrite Hf.
  - left. assert (exists r, maybe_demote_removed_voters c = Ok r) as [[b c1] Hd].
    { destruct (state_joint c Est) as [o Eo]. unfold maybe_demote_removed_voters, in_state.
      rewrite bool_decide_true, Eo by done. cbn. destruct (_ || _); eauto. }
    pose proof (demote_members _ _ _ Hd) as (_ & _ & _ & _ & o & o' & _ & Eo' & _).
    destruct b; [exists c1|exists (update_all_replicas (cs_discard_old_config (make_change_strategy c1) c1))];
      apply ls_commit; unfold committed_configuration_step; rewrite Hl, Est, Hd; cbn; [done|].
    unfold discard_old_config, in_state, get_state. rewrite Eo'. by rewrite bool_decide_true.
Qed.

Lemma runs_moving `{HashOrder} src tgt n c c' : moving src tgt c -> nsteps leader_step n c c' ->
  moving src tgt c' /\ (n + steps_left c' <= steps_left c)%nat.
Proof.
  intros Hm Hn. induction Hn as [c|n c c1 c2 Hs Hn IH]; [split; [done|lia]|].
  pose proof (step_decreases _ _ _ _ Hm Hs). destruct IH as [??]; [by eapply step_moving|].
  split; [done|lia].
Qed.

(** [replace] starts on the way from the current voters to the requested replicas. *)
Lemma replace_moving `{HashOrder} nodes rev start c c' :
  v_7 <= _version c -> replicas_ok c -> NoDup (voters (_current c)) -> learners (_current c) = [] ->
  NoDup nodes -> replace nodes rev start c = Ok c' -> moving (voters (_current c)) nodes c'.
Proof.
  intros Hv [_ Hrep] Hn Hl Hnn Hr. unfold replace, simple_change in Hr. rewrite strategy_v7 in Hr by done.
  ok_inv. apply moving_update_all. cbn in Hr.
  match goal with E : get_state c = _ |- _ => pose proof (state_simple c E) as Eo;
    assert (_configuration_update c = None) as Eu
      by (unfold get_state in E; rewrite Eo in E; by destruct (_configuration_update c)) end.
  unfold v6.replace in Hr. destruct (v5.are_equal _ _) eqn:Eeq.
  - ok_inv. unfold v5.are_equal in Eeq. apply andb_true_iff in Eeq as [Hlen Hall].
    apply Nat.eqb_eq in Hlen. cbn in Hlen. rewrite forallb_forall in Hall.
    assert (Hsub : nodes ⊆ voters (_current c)).
    { intros v Hin%list_elem_of_In. specialize (Hall v Hin). apply bool_decide_eq_true in Hall. cbn in Hall.
      apply Hrep in Hall as [Hv'|(o & Ho & _)]; [|congruence]. unfold members in Hv'. by rewrite Hl, app_nil_r in Hv'. }
    assert (nodes ≡ₚ voters (_current c)) as Hp by (apply submseteq_length_Permutation; [by apply NoDup_submseteq|lia]).
    unfold moving, members. cbn. rewrite Eo, Eu, Hl, app_nil_r. split; [done|]. split; [done|]. intros v. by rewrite Hp.
  - rewrite (surjective_pairing (v5.start_replace _ _ _)) in Hr.
    set (sr := v5.start_replace nodes start (with_revision rev c)) in *.
    assert (Hu : update_ok (voters (_current c)) nodes sr.1).
    { split; intros v; cbn; rewrite list_elem_of_filter, bool_decide_eq_false; naive_solver. }
    assert (Ec : _configuration_update sr.2 = Some sr.1) by done.
    assert (Eo2 : _old sr.2 = None) by done.
    assert (Hmem : members (_current sr.2) = voters (_current c) ++ filter (fun vn => is_to_add sr.1 vn = true) nodes)
      by (unfold members; cbn; by rewrite Hl).
    assert (Hf : forall v, v ∈ filter (fun vn => is_to_add sr.1 vn = true) nodes <-> v ∈ nodes /\ v ∉ voters (_current c)).
    { intros v. rewrite list_elem_of_filter. unfold is_to_add. rewrite bool_decide_eq_true, (proj1 Hu). naive_solver. }
    assert (Hm : moving (voters (_current c)) nodes sr.2).
    { unfold moving. rewrite Eo2, Ec, Hmem. split; [done|]. split.
      - apply NoDup_app. split_and!; [done| |by apply NoDup_filter]. intros v ? ?%Hf. naive_solver.
      - split; [done|]. split; intros v; rewrite elem_of_app, Hf; [|naive_solver].
        intros ?. destruct (decide (v ∈ voters (_current c))); naive_solver. }
    case_bool_decide as Ea; [|ok_inv; done].
    eapply finish_moving; [exact Ec|done| |exact Hm|exact Hr].
    intros v Hv'. assert (v ∈ filter (fun vn => is_to_add sr.1 vn = true) nodes) as [? ?]%Hf
      by (revert Hv'; cbn; by rewrite Hl).
    rewrite (proj2 Hu). naive_solver.
Qed.

(** C21: A replacement of the replicas of a group ends, and ends with the requested replicas.
    Whatever learners the leader promotes and in whatever order, every sequence of its steps
    has at most one step per requested replica and three more, and as long as the group is
    not in simple state with exactly the requested replicas as voters, there is a next step. *)
Theorem reconfiguration_reaches_target `{HashOrder} nodes rev start c c1 n c2 :
  v_7 <= _version c -> replicas_ok c -> NoDup (voters (_current c)) -> learners (_current c) = [] ->
  NoDup nodes -> replace nodes rev start c = Ok c1 -> nsteps leader_step n c1 c2 ->
  (n <= length nodes + 3)%nat /\ ((exists c3, leader_step c2 c3) \/ at_target nodes c2).
Proof.
  intros Hv Hrep Hn Hl Hnn Hr Hs. pose proof (replace_moving _ _ _ _ _ Hv Hrep Hn Hl Hnn Hr) as Hm.
  destruct (runs_moving _ _ _ _ _ Hm Hs) as [Hm2 Hle]. split; [|by eapply progress].
  assert (steps_left c1 <= length nodes + 3)%nat; [|lia]. clear -Hr Hl Hv Hn Hm.
  unfold steps_left. assert (length (learners (_current c1)) <= length nodes)%nat; [|destruct (get_state c1); try case_bool_decide; lia].
  unfold replace, simple_change in Hr. rewrite strategy_v7 in Hr by done. ok_inv. cbn in Hr.
  unfold v6.replace in Hr. destruct (v5.are_equal _ _); [ok_inv; cbn; rewrite Hl; cbn; lia|].
  rewrite (surjective_pairing (v5.start_replace _ _ _)) in Hr.
  assert (length (learners (_current (v5.start_replace nodes start (with_revision rev c)).2)) <= length nodes)%nat as Hlen
    by (cbn; rewrite Hl; apply length_filter).
  case_bool_decide; [|ok_inv; exact Hlen]. unfold v6.finish_configuration_transition in Hr.
  destruct (negb _); [ok_inv; exact Hlen|]. ok_inv. destruct (existsb _ _); ok_inv; exact Hlen.
Qed.

(** ** Going back *)

Lemma swap_update_ok src tgt u : update_ok src tgt u -> update_ok tgt src (v6.swap_update u).
Proof. intros [? ?]. split; cbn; naive_solver. Qed.

Lemma fill_members u g : NoDup (members g) ->
  NoDup (members (v6.fill_learners_with_nodes_to_add u g)) /\
  (forall v, v ∈ members (v6.fill_learners_with_nodes_to_add u g) <-> v ∈ members g \/ v ∈ replicas_to_add u) /\
  (forall v, v ∈ learners (v6.fill_learners_with_nodes_to_add u g) -> v ∈ learners g \/ v ∈ replicas_to_add u).
Proof.
  unfold v6.fill_learners_with_nodes_to_add. generalize (replicas_to_add u) as l. intros l. revert g.
  induction l as [|x l IH]; intros g Hn; [cbn; set_solver|]. cbn.
  destruct (group_nodes_contains g x) eqn:E.
  - apply group_nodes_contains_spec in E. destruct (IH g Hn) as (? & Hm & Hl). split; [done|].
    split; intros v; [rewrite Hm|intros ?%Hl]; set_solver.
  - apply group_nodes_contains_false in E. destruct (IH (add_learner x g)) as (? & Hm & Hl).
    { unfold members, add_learner in *. cbn. rewrite (assoc_L (++)). apply NoDup_app. split_and!; [done|set_solver|apply NoDup_singleton]. }
    split; [done|]. split; intros v; [rewrite Hm|intros Hv%Hl; revert Hv]; unfold members, add_learner; cbn; set_solver.
Qed.

Lemma cancel_transitional_moving src tgt c c' : get_state c = configuration_state.transitional ->
  moving src tgt c -> v6.cancel_update_in_transitional_state c = Ok c' -> moving tgt src c'.
Proof.
  intros Est (Hv & Hn & Hm) Hc. destruct (state_transitional c Est) as [Eo [u Eu]]. rewrite Eo, Eu in Hm.
  destruct Hm as (Hu%swap_update_ok & Hin & Hout). unfold v6.cancel_update_in_transitional_state in Hc.
  rewrite Eu in Hc. cbn [deref mbind res_bind] in Hc.
  set (u' := v6.swap_update u) in *.
  set (g := {| voters := voters (_current c); learners := erase_if (is_to_remove u') (learners (_current c)) |}) in *.
  assert (Hl : forall v, v ∈ learners g <-> v ∈ learners (_current c) /\ v ∉ replicas_to_remove u').
  { intros v. cbn. rewrite elem_of_erase_if. unfold is_to_remove. by rewrite bool_decide_eq_false. }
  assert (Hg : forall v, v ∈ members g -> v ∈ members (_current c)).
  { intros v. unfold members. rewrite !elem_of_app, Hl. cbn. tauto. }
  destruct (fill_members u' g) as (Hnf & Hmf & Hlf).
  { unfold members in *. cbn. apply NoDup_app in Hn as (? & Hd & ?). apply NoDup_app. split_and!; [done| |by apply NoDup_filter].
    intros v ? [? _]%elem_of_erase_if. by eapply Hd. }
  destruct Hu as [Ha Hr]. refine (finish_moving _ _ _ _ u' _ _ _ _ Hc); [done|exact Eo| |].
  - intros v [[_ ?]%Hl|Hv']%Hlf; [done|]. rewrite Ha in Hv'. rewrite Hr. naive_solver.
  - unfold moving. cbn [_version _current _old _configuration_update with_current with_update].
    rewrite Eo. split; [done|]. split; [done|]. split; [done|].
    split; intros v; rewrite Hmf, Ha; [|intros [?%Hg%Hout|?]; naive_solver].
    intros Hs. destruct (decide (v ∈ tgt)) as [Ht|]; [|naive_solver]. left.
    specialize (Hin v Ht). unfold members in *. rewrite elem_of_app, Hl, Hr in *. cbn. naive_solver.
Qed.

Lemma cancel_joint_moving src tgt c c' :
  moving src tgt c -> v6.cancel_update_in_joint_state c = Ok c' -> moving tgt src c'.
Proof.
  intros (Hv & _ & Hm) Hc. unfold v6.cancel_update_in_joint_state in Hc.
  destruct (_configuration_update c) as [u|]; [|done]. destruct (_old c) as [o|]; [|done].
  cbn [deref mbind res_bind] in Hc. destruct Hm as (Hu%swap_update_ok & _ & Hno & Hin & Hout).
  injection Hc as <-. destruct (fill_members (v6.swap_update u) o Hno) as (Hnf & Hmf & _).
  unfold moving. cbn [_version _current _old _configuration_update with_current with_old with_update].
  split; [done|]. split; [done|]. split; [done|]. pose proof (proj1 Hu) as Ha.
  split; intros v; rewrite Hmf, Ha; [|intros [?%Hout|?]; naive_solver].
  intros ?. destruct (decide (v ∈ tgt)); naive_solver.
Qed.

Lemma cancel_moving `{HashOrder} src tgt rev c c' :
  moving src tgt c -> cancel_configuration_change rev c = Ok c' -> moving tgt src c'.
Proof.
  intros Hm Hc. unfold cancel_configuration_change in Hc. rewrite strategy_v7 in Hc by apply Hm.
  apply res_bind_Ok in Hc as (? & _ & Hc). apply fmap_Ok in Hc as (c1 & Hc & ->). apply moving_update_all.
  cbn in Hc. unfold v6.cancel_configuration_change in Hc. apply res_bind_Ok in Hc as (c2 & Hc & [= <-]).
  assert (moving tgt src c2); [|done]. destruct (get_state c) eqn:Est; [done| |].
  - by eapply cancel_transitional_moving.
  - by eapply cancel_joint_moving.
Qed.

Lemma cancel_total `{HashOrder} src tgt rev c : moving src tgt c -> get_state c <> configuration_state.simple ->
  exists c', cancel_configuration_change rev c = Ok c'.
Proof.
  intros Hm Hs. unfold cancel_configuration_change. rewrite strategy_v7 by apply Hm.
  unfold in_state at 1. rewrite bool_decide_false by done. cbn. unfold v6.cancel_configuration_change.
  destruct (get_state c) eqn:Est; [done| |]; cbn.
  - destruct (state_transitional c Est) as [Eo [u Eu]]. unfold v6.cancel_update_in_transitional_state. rewrite Eu. cbn [deref mbind res_bind].
    unfold v6.finish_configuration_transition. destruct (negb _); cbn; [eauto|]. destruct (existsb _ _); eauto.
  - destruct (state_joint c Est) as [o Eo]. destruct Hm as (_ & _ & Hm). rewrite Eo in Hm.
    destruct (_configuration_update c) as [u|] eqn:Eu; [|done]. unfold v6.cancel_update_in_joint_state. rewrite Eu, Eo. cbn. eauto.
Qed.

(** Every run of the leader's steps from [c] is short and leads to the replicas [to]. *)
Definition runs_to `{HashOrder} (to : list vnode) (c : group_configuration) : Prop :=
  forall n c', nsteps leader_step n c c' -> (n <= steps_left c)%nat /\ ((exists c2, leader_step c' c2) \/ at_target to c').

Lemma moving_runs `{HashOrder} src tgt c : NoDup tgt -> moving src tgt c -> runs_to tgt c.
Proof.
  intros Hn Hm n c' Hr. destruct (runs_moving _ _ _ _ _ Hm Hr) as [Hm' Hle]. split; [lia|]. by eapply progress.
Qed.

(** The requests to cancel that are refused: nothing is in progress, the request is older than the change, or the old
    voters are learners already. *)
Definition cancel_refused (rev : Z) (c : group_configuration) : Prop :=
  get_state c = configuration_state.simple \/ rev < _revision c \/ exists o, _old c = Some o /\ learners o <> [].

(** C22: A request to cancel a replacement, at whatever point of the way it comes, decides where the way ends, and never
    leaves the group in between.  It is refused exactly if nothing is in progress, if it is older than the change, or if the old
    voters are demoted already; then every run of the leader's steps ends with the requested replicas.  Otherwise the new
    configuration is one on the way back, and every run ends with the replicas the group had before.  (Cancelling that
    cancellation leads to the requested replicas again: the theorem applies with the roles of the two exchanged.) *)
Theorem cancellation_reverses_reconfiguration `{HashOrder} src tgt rev c :
  NoDup src -> NoDup tgt -> moving src tgt c ->
  match consensus.cancel_configuration_change rev c with
  | Ok (inl c1) => ~ cancel_refused rev c /\ moving tgt src c1 /\ runs_to src c1
  | Ok (inr e) => cancel_refused rev c /\ e = raft_errc.invalid_configuration_update /\ runs_to tgt c
  | _ => False
  end.
Proof.
  intros Hs Ht Hm. pose proof (moving_runs src tgt c Ht Hm) as Hr.
  unfold consensus.cancel_configuration_change, consensus.interrupt_configuration_change, cancel_refused, in_state.
  case_bool_decide as Hsim; [by auto|]. destruct (Z.ltb_spec rev (_revision c)); [by auto|].
  destruct (cancel_total src tgt rev c Hm Hsim) as [c1 Hc]. pose proof (cancel_moving _ _ _ _ _ Hm Hc) as Hm1.
  pose proof (moving_runs tgt src c1 Hs Hm1) as Hr1.
  case_bool_decide as Hj.
  - destruct (state_joint c Hj) as [o Eo]. rewrite Eo. cbn. case_bool_decide; cbn; [rewrite Hc; cbn|by naive_solver].
    split_and!; [naive_solver lia|done..].
  - cbn. rewrite Hc. cbn. split_and!; [|done..]. intros [?|[?|(o & Eo & _)]]; [done|lia|]. unfold get_state in Hj. by rewrite Eo in Hj.
Qed.

(** Aborting a replacement, at whatever point of the way, leaves exactly the replicas the
    group had before it as voters, with no learners and nothing in progress. *)
Theorem abort_restores_replicas `{HashOrder} src tgt rev c c' :
  (forall l : list vnode, NoDup l -> hash_order l ≡ₚ l) ->
  NoDup src -> moving src tgt c -> abort_configuration_change rev c = Ok c' -> at_target src c'.
Proof.
  intros Hho Hn (Hv & Hnd & Hm) Ha. unfold abort_configuration_change in Ha. rewrite strategy_v7 in Ha by done.
  apply res_bind_Ok in Ha as (? & _ & Ha). apply fmap_Ok in Ha as (c1 & Ha & ->).
  cbn in Ha. unfold v6.abort_configuration_change in Ha.
  destruct (_configuration_update c) as [u|] eqn:Eu; [|done]. cbn [deref mbind res_bind] in Ha. injection Ha as <-.
  split; [done|]. split; [done|]. cbn [voters _current with_revision with_update with_old with_current update_all_replicas with_all_replicas].
  apply NoDup_Permutation; [|done|].
  { apply NoDup_filter. rewrite Hho; apply NoDup_remove_dups. }
  intros v. unfold is_to_add. rewrite list_elem_of_filter, bool_decide_eq_false, Hho, elem_of_remove_dups by apply NoDup_remove_dups.
  unfold unique_learner_ids, unique_voter_ids, unique_ids.
  rewrite !elem_of_app, !Hho, !elem_of_remove_dups, !elem_of_app by apply NoDup_remove_dups.
  destruct (_old c) as [o|]; destruct Hm as ([Hadd Hrem] & Hm); rewrite Hadd, Hrem.
  - destruct Hm as (Ht & _ & _ & Hout). specialize (Ht v). specialize (Hout v). unfold members in *.
    rewrite elem_of_app in Ht, Hout. destruct (decide (v ∈ src)), (decide (v ∈ tgt)); naive_solver.
  - destruct Hm as (Ht & Hout). specialize (Ht v). specialize (Hout v). unfold members in *.
    rewrite elem_of_app in Ht, Hout. destruct (decide (v ∈ src)), (decide (v ∈ tgt)); set_solver.
Qed.

(** ** Corner cases *)

Lemma promote_learners_overrun i todo c :
  (1 <= i)%nat -> (1 <= todo)%nat -> length (learners (_current c)) = todo ->
  v3.promote_learners i todo c = Crash.
Proof.
  revert i c. induction todo as [|todo IH]; intros i c Hi Ht Hl; [lia|]. cbn.
  destruct (learners (_current c) !! i) as [id|] eqn:E; [|done].
  pose proof (lookup_lt_Some _ _ _ E). apply list_elem_of_lookup_2 in E. apply IH; [lia|lia|].
  unfold promote_to_voter. rewrite bool_decide_true by done. cbn.
  pose proof (Permutation_length (erase_first_perm id _ E)) as Hp. cbn in Hp. lia.
Qed.

Lemma promote_learners_undefined n c :
  length (learners (_current c)) = n -> (2 <= n)%nat -> v3.promote_learners 0 n c = Crash.
Proof.
  intros Hl Hn. destruct n as [|n]; [lia|]. cbn. destruct (learners (_current c)) as [|id ls] eqn:E; [done|].
  cbn in *. apply promote_learners_overrun; [lia|lia|]. unfold promote_to_voter.
  rewrite E, bool_decide_true by set_solver. cbn. rewrite bool_decide_true by done. lia.
Qed.

(** Aborting a change of a version 3 configuration promotes the learners in a loop over
    the vector the promotion erases from; with two or more learners in the old
    configuration the loop reads past the end of the vector. *)
Theorem v3_abort_reads_past_end `{HashOrder} rev c o :
  _version c = v_3 -> _old c = Some o -> (2 <= length (learners o))%nat ->
  abort_configuration_change rev c = Crash.
Proof.
  intros Hv Ho Hl. unfold abort_configuration_change, in_state, get_state, make_change_strategy.
  rewrite Ho, Hv. cbn. unfold v3.abort_configuration_change. rewrite Ho. cbn [deref mbind res_bind].
  rewrite promote_learners_undefined; [done|done|exact Hl].
Qed.

(** A replacement is taken for one that changes nothing if as many replicas are requested
    as there are voters and each of them is a member, even a learner: then the configuration
    stays as it is, whatever replicas were requested. *)
Theorem replace_by_learner_is_ignored `{HashOrder} nodes rev start c :
  v_5 <= _version c -> get_state c = configuration_state.simple ->
  length nodes = length (voters (_current c)) -> (forall v, v ∈ nodes -> contains c v = true) ->
  exists c', replace nodes rev start c = Ok c' /\ _current c' = _current c /\
             get_state c' = configuration_state.simple.
Proof.
  intros Hv Hs Hlen Hin. exists (update_all_replicas (with_revision rev c)).
  assert (Heq : v5.are_equal (with_revision rev c) nodes = true).
  { unfold v5.are_equal. apply andb_true_iff. split; [by apply Nat.eqb_eq|].
    apply forallb_forall. intros v Hv'%list_elem_of_In. by apply Hin. }
  unfold replace, simple_change, in_state. rewrite Hs, bool_decide_true by done.
  unfold make_change_strategy. assert (v_5 <=? _version c = true) as -> by (by apply Z.leb_le).
  split; [|done]. destruct (v_7 <=? _version c); cbn; [unfold v6.replace|unfold v5.replace]; by rewrite Heq.
Qed.

(** ** Witnesses *)

Module examples.

#[export] Instance in_order : HashOrder := fun l => l.

Definition n1 := Vnode 1 0.
Definition n2 := Vnode 2 0.
Definition n3 := Vnode 3 0.
Definition n4 := Vnode 4 0.

Definition cfg3 : group_configuration := with_version v_7 (make_simple [n1; n2; n3] [] 0).

(** From replicas 1, 2, 3 to 2, 3, 4: the way in four steps. *)
Definition unwrap (r : res group_configuration) : group_configuration :=
  match r with Ok c => c | _ => cfg3 end.
Definition cfg_t := unwrap (replace [n2; n3; n4] 1 None cfg3).
Definition cfg_p := promote_to_voter n4 cfg_t.
Definition cfg_j := unwrap (apply_change ChFinish cfg_p).
Definition cfg_d := unwrap (apply_change ChDemote cfg_j).
Definition cfg_s := unwrap (apply_change ChDiscard cfg_d).

Lemma replicas_ok_simple v vs ls rev : replicas_ok (with_version v (make_simple vs ls rev)).
Proof. exact (update_all_replicas_ok _). Qed.

Lemma cfg_run : nsteps leader_step 4 cfg_t cfg_s.
Proof.
  apply (nsteps_l _ _ _ cfg_p); [apply ls_promote; vm_compute; left|].
  apply (nsteps_l _ _ _ cfg_j); [apply ls_commit; vm_compute; reflexivity|].
  apply (nsteps_l _ _ _ cfg_d); [apply ls_commit; vm_compute; reflexivity|].
  apply (nsteps_l _ _ _ cfg_s); [apply ls_commit; vm_compute; reflexivity|constructor].
Qed.

Lemma nodup_concrete {A} `{EqDecision A} (l : list A) : bool_decide (NoDup l) = true -> NoDup l.
Proof. apply bool_decide_eq_true. Qed.

Lemma cfg_t_moving : moving [n1; n2; n3] [n2; n3; n4] cfg_t.
Proof.
  apply (replace_moving [n2; n3; n4] 1 None cfg3); [concrete|apply replicas_ok_simple|apply nodup_concrete; reflexivity|done|apply nodup_concrete; reflexivity|].
  vm_compute. reflexivity.
Qed.

Definition only (l : list vnode) (v : vnode) : bool := bool_decide (v ∈ l).

Lemma majorities_overlap_across_change_witness :
  keeps_voters ChFinish cfg_p = true /\ apply_change ChFinish cfg_p = Ok cfg_j /\
  majority cfg_p (only [n1; n2; n3]) = true /\ majority cfg_j (only [n2; n3; n4]) = true /\
  exists v, only [n1; n2; n3] v = true /\ only [n2; n3; n4] v = true.
Proof.
  assert (H1 : keeps_voters ChFinish cfg_p = true) by (vm_compute; reflexivity).
  assert (H2 : apply_change ChFinish cfg_p = Ok cfg_j) by (vm_compute; reflexivity).
  assert (H3 : majority cfg_p (only [n1; n2; n3]) = true) by (vm_compute; reflexivity).
  assert (H4 : majority cfg_j (only [n2; n3; n4]) = true) by (vm_compute; reflexivity).
  split_and!; [done..|]. exact (majorities_overlap_across_change ChFinish cfg_p cfg_j _ _ H1 H2 H3 H4).
Defined.

Lemma quorum_match_is_majority_witness :
  quorum_match no_offset cfg_j (fun v => 10 * vn_id v) = 20 /\
  majority cfg_j (fun v => 20 <=? 10 * vn_id v) = true.
Proof.
  split; [vm_compute; reflexivity|].
  apply (quorum_match_is_majority no_offset cfg_j (fun v => 10 * vn_id v) 20).
  - exists (voters (_current cfg_j)). split; [left|]. vm_compute. discriminate.
  - vm_compute. discriminate.
Defined.

Lemma all_replicas_is_exact_witness : replicas_ok cfg_p /\ replicas_ok cfg_j.
Proof.
  assert (H1 : replicas_ok cfg_p).
  { apply (all_replicas_is_exact (ChPromote n4) cfg_t); [|reflexivity].
    apply (all_replicas_is_exact (ChReplace [n2; n3; n4] 1 None) cfg3); [apply replicas_ok_simple|].
    vm_compute. reflexivity. }
  split; [done|]. apply (all_replicas_is_exact ChFinish cfg_p); [done|]. vm_compute. reflexivity.
Defined.

Lemma reconfiguration_reaches_target_witness :
  (4 <= 3 + 3)%nat /\ ((exists c3, leader_step cfg_s c3) \/ at_target [n2; n3; n4] cfg_s).
Proof.
  apply (reconfiguration_reaches_target [n2; n3; n4] 1 None cfg3 cfg_t 4 cfg_s);
    [concrete|apply replicas_ok_simple|apply nodup_concrete; reflexivity|done|apply nodup_concrete; reflexivity| |exact cfg_run].
  vm_compute. reflexivity.
Defined.

(** Cancelling succeeds in joint state, and is refused once the voter that leaves is demoted. *)
Definition cancelled (rev : Z) (c : group_configuration) : option group_configuration :=
  match consensus.cancel_configuration_change rev c with Ok (inl c1) => Some c1 | _ => None end.

Lemma cfg_j_moving : moving [n1; n2; n3] [n2; n3; n4] cfg_j.
Proof.
  apply (step_moving _ _ cfg_p); [|apply ls_commit; vm_compute; reflexivity]. apply promote_moving, cfg_t_moving.
Qed.

Lemma cfg_d_moving : moving [n1; n2; n3] [n2; n3; n4] cfg_d.
Proof. apply (step_moving _ _ cfg_j); [apply cfg_j_moving|apply ls_commit; vm_compute; reflexivity]. Qed.

Lemma cancellation_reverses_reconfiguration_witness :
  (exists c1, cancelled 2 cfg_j = Some c1 /\ runs_to [n1; n2; n3] c1) /\ cancelled 2 cfg_d = None /\ runs_to [n2; n3; n4] cfg_d.
Proof.
  assert (Hs : NoDup [n1; n2; n3]) by (apply nodup_concrete; reflexivity).
  assert (Ht : NoDup [n2; n3; n4]) by (apply nodup_concrete; reflexivity).
  split; [|split; [vm_compute; reflexivity|]].
  - destruct (cancelled 2 cfg_j) as [c1|] eqn:E; [|vm_compute in E; discriminate]. exists c1. split; [reflexivity|].
    pose proof (cancellation_reverses_reconfiguration _ _ 2 cfg_j Hs Ht cfg_j_moving) as Hc. unfold cancelled in E.
    destruct (consensus.cancel_configuration_change 2 cfg_j) as [[c'|e]| |]; try discriminate. injection E as ->. apply Hc.
  - pose proof (cancellation_reverses_reconfiguration _ _ 2 cfg_d Hs Ht cfg_d_moving) as Hc.
    assert (E : consensus.cancel_configuration_change 2 cfg_d = Ok (inr raft_errc.invalid_configuration_update)) by (vm_compute; reflexivity).
    rewrite E in Hc. apply Hc.
Defined.

Lemma abort_restores_replicas_witness :
  at_target [n1; n2; n3] (unwrap (abort_configuration_change 2 cfg_p)).
Proof.
  apply (abort_restores_replicas [n1; n2; n3] [n2; n3; n4] 2 cfg_p);
    [done|apply nodup_concrete; reflexivity|apply promote_moving, cfg_t_moving|]. vm_compute. reflexivity.
Defined.

Lemma v3_abort_reads_past_end_witness :
  abort_configuration_change 2
    (make_full v_3 [] {| voters := [n1]; learners := [] |} 0 None
       (Some {| voters := [n1]; learners := [n2; n3] |})) = Crash.
Proof. eapply v3_abort_reads_past_end; [reflexivity|reflexivity|cbn; lia]. Defined.

Lemma replace_by_learner_is_ignored_witness :
  exists c', replace [n1; n2; n4] 1 None (with_version v_7 (make_simple [n1; n2; n3] [n4] 0)) = Ok c' /\
    _current c' = {| voters := [n1; n2; n3]; learners := [n4] |} /\
    get_state c' = configuration_state.simple.
Proof.
  apply (replace_by_learner_is_ignored [n1; n2; n4] 1 None (with_version v_7 (make_simple [n1; n2; n3] [n4] 0)));
    [concrete|reflexivity|reflexivity|].
  intros v Hv. repeat (apply elem_of_cons in Hv as [->|Hv]; [vm_compute; reflexivity|]). by apply not_elem_of_nil in Hv.
Defined.

End examples.
