(* ===== verification/ConfigurationManager.v ===== *)
(** * The configurations of a raft log (raft/configuration_manager.{h,cc})

    The manager keeps every group configuration of the log by its offset, numbers them,
    and stores them in the key-value store with the offset up to which it knows them all,
    so that a restart only reads the log from there on.

    The [absl::btree_map] is an association list in ascending key order.  [kv] is what the
    key-value store holds for the group: the map, the highest known offset and the index
    of the first configuration (their encodings are not modelled, a stored value is read
    back as it was written).  An operation that throws leaves the state it had reached,
    which is returned with the exception. *)

From stdpp Require Import sorting.
From S2P Require Import Prelude OffsetTranslator GroupConfiguration.

Record indexed_configuration := { ic_cfg : group_configuration; ic_idx : Z }.

Abbreviation configurations := (list (Z * indexed_configuration)).

Record kv_state := {
  kv_configurations : option (list (Z * group_configuration));
  kv_highest_known_offset : option Z;
  kv_next_idx : option Z;
}.

Record configuration_manager := {
  _configurations : configurations;
  _highest_known_offset : Z;
  _next_index : Z;
  _initial_revision : Z;
  _bytes_since_last_offset_update : Z;
  _configuration_force_override : option group_configuration;
  kv : kv_state;
}.

Definition with_configurations (cs : configurations) (next : Z) (m : configuration_manager) :=
  {| _configurations := cs; _highest_known_offset := _highest_known_offset m; _next_index := next;
     _initial_revision := _initial_revision m;
     _bytes_since_last_offset_update := _bytes_since_last_offset_update m;
     _configuration_force_override := _configuration_force_override m; kv := kv m |}.
Definition with_hko (o : Z) (m : configuration_manager) :=
  {| _configurations := _configurations m; _highest_known_offset := o; _next_index := _next_index m;
     _initial_revision := _initial_revision m;
     _bytes_since_last_offset_update := _bytes_since_last_offset_update m;
     _configuration_force_override := _configuration_force_override m; kv := kv m |}.
Definition with_bytes (b : Z) (m : configuration_manager) :=
  {| _configurations := _configurations m; _highest_known_offset := _highest_known_offset m;
     _next_index := _next_index m; _initial_revision := _initial_revision m;
     _bytes_since_last_offset_update := b;
     _configuration_force_override := _configuration_force_override m; kv := kv m |}.
Definition with_override (c : option group_configuration) (m : configuration_manager) :=
  {| _configurations := _configurations m; _highest_known_offset := _highest_known_offset m;
     _next_index := _next_index m; _initial_revision := _initial_revision m;
     _bytes_since_last_offset_update := _bytes_since_last_offset_update m;
     _configuration_force_override := c; kv := kv m |}.
Definition with_kv (k : kv_state) (m : configuration_manager) :=
  {| _configurations := _configurations m; _highest_known_offset := _highest_known_offset m;
     _next_index := _next_index m; _initial_revision := _initial_revision m;
     _bytes_since_last_offset_update := _bytes_since_last_offset_update m;
     _configuration_force_override := _configuration_force_override m; kv := k |}.

(** ** The ordered map *)

(** [lower_bound(o)] and [upper_bound(o)] split the map into what precedes the iterator
    and what it and the rest of the map hold. *)
Definition lower_bound (o : Z) (m : configurations) : configurations * configurations :=
  (filter (fun e => e.1 < o) m, filter (fun e => o <= e.1) m).
Definition upper_bound (o : Z) (m : configurations) : configurations * configurations :=
  (filter (fun e => e.1 <= o) m, filter (fun e => o < e.1) m).

Fixpoint try_emplace (o : Z) (c : indexed_configuration) (m : configurations) : option configurations :=
  match m with
  | [] => Some [(o, c)]
  | e :: m' =>
      if o <? e.1 then Some ((o, c) :: m)
      else if o =? e.1 then None
      else (e ::.) <$> try_emplace o c m'
  end.

(** ** Storing *)

Definition store_configurations (m : configuration_manager) : configuration_manager :=
  with_kv {| kv_configurations := Some ((fun e => (e.1, ic_cfg e.2)) <$> _configurations m);
             kv_highest_known_offset := kv_highest_known_offset (kv m);
             kv_next_idx := kv_next_idx (kv m) |} m.

Definition store_highest_known_offset (m : configuration_manager) : configuration_manager :=
  with_kv {| kv_configurations := kv_configurations (kv m);
             kv_highest_known_offset := Some (_highest_known_offset m);
             kv_next_idx := kv_next_idx (kv m) |} m.

Definition store_next_idx (i : Z) (m : configuration_manager) : configuration_manager :=
  with_kv {| kv_configurations := kv_configurations (kv m);
             kv_highest_known_offset := kv_highest_known_offset (kv m);
             kv_next_idx := Some i |} m.

(** ** Operations *)

Definition make_manager (initial : group_configuration) (stored : kv_state) : configuration_manager :=
  {| _configurations := [(no_offset, {| ic_cfg := initial; ic_idx := 0 |})];
     _highest_known_offset := no_offset; _next_index := 1; _initial_revision := no_revision;
     _bytes_since_last_offset_update := 0; _configuration_force_override := None; kv := stored |}.

Definition truncate (offset : Z) (m : configuration_manager) : configuration_manager * res unit :=
  match _configurations m with
  | [] => (m, Crash)
  | first :: _ =>
      if offset <=? first.1 then (m, Throw invalid_argument)
      else
        let '(before, it) := lower_bound offset (_configurations m) in
        let next := match it with e :: _ => ic_idx e.2 | [] => _next_index m end in
        let m := with_hko (offset `min` _highest_known_offset m) (with_configurations before next m) in
        (store_configurations (store_highest_known_offset m), Ok tt)
  end.

Definition prefix_truncate (offset : Z) (m : configuration_manager) : configuration_manager * res unit :=
  match _configurations m with
  | [] => (m, Crash)
  | first :: _ =>
      if offset <=? first.1 then (m, Ok tt)
      else
        let '(before, it) := upper_bound offset (_configurations m) in
        match last before with
        | None => (m, Crash)
        | Some e =>
            let m := with_hko (offset `max` _highest_known_offset m)
                       (with_configurations ((offset, e.2) :: it) (_next_index m) m) in
            (store_configurations (store_next_idx (ic_idx e.2) (store_highest_known_offset m)), Ok tt)
        end
  end.

Definition add_configuration (offset : Z) (c : group_configuration) (m : configuration_manager) :
    configuration_manager * res unit :=
  let idx := _next_index m in
  match try_emplace offset {| ic_cfg := c; ic_idx := idx |} (_configurations m) with
  | Some cs => (with_configurations cs (idx + 1) m, Ok tt)
  | None => (with_configurations (_configurations m) (idx + 1) m, Throw invalid_argument)
  end.

Definition reset_override (rev : Z) (m : configuration_manager) : configuration_manager :=
  match _configuration_force_override m with
  | Some c => if _revision c <=? rev then with_override None m else m
  | None => m
  end.

Definition set_override (c : group_configuration) (m : configuration_manager) : configuration_manager :=
  with_override (Some c) m.

(** The loop of [add] over several configurations. *)
Fixpoint add_loop (l : list (Z * group_configuration)) (m : configuration_manager) :
    configuration_manager * res unit :=
  match l with
  | [] => (m, Ok tt)
  | (offset, c) :: l' =>
      match maybe_set_initial_revision (_initial_revision m) c with
      | Ok c =>
          let m := reset_override (_revision c) m in
          match add_configuration offset c m with
          | (m, Ok _) => add_loop l' (with_hko (_highest_known_offset m `max` offset) m)
          | r => r
          end
      | Throw e => (m, Throw e)
      | Crash => (m, Crash)
      end
  end.

Definition add_all (l : list (Z * group_configuration)) (m : configuration_manager) :
    configuration_manager * res unit :=
  match add_loop l m with
  | (m, Ok _) => (store_highest_known_offset (store_configurations m), Ok tt)
  | r => r
  end.

Definition find_configuration (offset : Z) (m : configuration_manager) : option indexed_configuration :=
  snd <$> (snd <$> list_find (fun e => e.1 = offset) (_configurations m)).

Definition add (offset : Z) (c : group_configuration) (m : configuration_manager) :
    configuration_manager * res unit :=
  match maybe_set_initial_revision (_initial_revision m) c with
  | Ok c =>
      let present := match find_configuration offset m with
                     | Some ic => bool_decide (ic_cfg ic = c)
                     | None => false
                     end in
      if present then (m, Ok tt)
      else match add_configuration offset c m with
           | (m, Ok _) =>
               let m := with_hko (offset `max` _highest_known_offset m) m in
               (store_highest_known_offset (store_configurations m), Ok tt)
           | r => r
           end
  | Throw e => (m, Throw e)
  | Crash => (m, Crash)
  end.

Definition get_latest (m : configuration_manager) : res group_configuration :=
  e ← deref (last (_configurations m));
  Ok (default (ic_cfg e.2) (_configuration_force_override m)).

Definition get_latest_offset (m : configuration_manager) : res Z :=
  e ← deref (last (_configurations m)); Ok e.1.

Definition get_latest_index (m : configuration_manager) : res Z :=
  e ← deref (last (_configurations m)); Ok (ic_idx e.2).

Definition get_latest_revision (m : configuration_manager) : res Z :=
  e ← deref (last (_configurations m)); Ok (_revision (ic_cfg e.2)).

Definition get (offset : Z) (m : configuration_manager) : option group_configuration :=
  let '(before, it) := lower_bound offset (_configurations m) in
  match it with
  | e :: _ => if e.1 =? offset then Some (ic_cfg e.2) else (fun e => ic_cfg e.2) <$> last before
  | [] => (fun e => ic_cfg e.2) <$> last before
  end.

Definition offset_delta (o : Z) (m : configuration_manager) : res Z :=
  let '(before, it) := lower_bound o (_configurations m) in
  match last before with
  | Some e => Ok (ic_idx e.2)
  | None => match it with
            | e :: _ => Ok (0 `max` (ic_idx e.2 - 1))
            | [] => Crash
            end
  end.

(** Renumber the configurations from [i] on. *)
Fixpoint renumber (i : Z) (cs : configurations) : configurations :=
  match cs with
  | [] => []
  | (o, ic) :: cs' => (o, {| ic_cfg := ic_cfg ic; ic_idx := i |}) :: renumber (i + 1) cs'
  end.

Definition adjust_configuration_idx (i : Z) (m : configuration_manager) : configuration_manager :=
  with_configurations (renumber i (_configurations m)) (i + blen (_configurations m)) (store_next_idx i m).

(** [checkpoint_hint] is the answer of the storage resources, [idle] that no checkpoint is
    running; the checkpoint itself runs in the background. *)
Definition offset_update_treshold : Z := 64 * 1024 * 1024.

Definition maybe_store_highest_known_offset (offset bytes : Z) (checkpoint_hint idle : bool)
    (m : configuration_manager) : configuration_manager :=
  let m := with_bytes (_bytes_since_last_offset_update m + bytes) (with_hko offset m) in
  if ((_bytes_since_last_offset_update m <? offset_update_treshold) && negb checkpoint_hint) || negb idle
  then m
  else with_bytes 0 (store_highest_known_offset m).

(** [deserialize_configurations]: the stored map, numbered from the stored index. *)
Definition deserialize_configurations (i : Z) (l : list (Z * group_configuration)) : configurations :=
  renumber i ((fun e => (e.1, {| ic_cfg := e.2; ic_idx := 0 |})) <$> l).

Definition set_initial_revisions (rev : Z) (cs : configurations) : res configurations :=
  mapM (fun e => c ← maybe_set_initial_revision rev (ic_cfg e.2);
                 Ok (e.1, {| ic_cfg := c; ic_idx := ic_idx e.2 |})) cs.

Definition start (reset : bool) (rev : Z) (m : configuration_manager) : res configuration_manager :=
  let m := {| _configurations := _configurations m; _highest_known_offset := _highest_known_offset m;
              _next_index := _next_index m; _initial_revision := rev;
              _bytes_since_last_offset_update := _bytes_since_last_offset_update m;
              _configuration_force_override := _configuration_force_override m; kv := kv m |} in
  if reset then
    Ok (with_kv {| kv_configurations := None; kv_highest_known_offset := None;
                   kv_next_idx := kv_next_idx (kv m) |} m)
  else
    let m := match kv_configurations (kv m) with
             | Some l =>
                 let i := default 0 (kv_next_idx (kv m)) in
                 let cs := deserialize_configurations i l in
                 match last cs with
                 | Some e => with_hko e.1 (with_configurations cs (ic_idx e.2 + 1) m)
                 | None => with_configurations cs i m
                 end
             | None => m
             end in
    let m := match kv_highest_known_offset (kv m) with
             | Some o => with_hko (_highest_known_offset m `max` o) m
             | None => m
             end in
    cs ← set_initial_revisions rev (_configurations m);
    Ok (with_configurations cs (_next_index m) m).

(** ** Recovery ([consensus::do_start])

    [log] are the configuration batches of the log with their offsets, [dirty] its last
    offset.  After the manager has started, the log is read from the highest known offset
    on, configurations past the end of the log are dropped and those that were read are
    added. *)
Definition recover (log : list (Z * group_configuration)) (dirty rev : Z) (m : configuration_manager) :
    res configuration_manager :=
  m ← start false rev m;
  let seen := filter (fun e => next_offset (_highest_known_offset m) <= e.1) log in
  match truncate (next_offset dirty) m with
  | (m, Ok _) =>
      match seen with
      | [] => Ok m
      | _ => match add_all seen m with
             | (m, Ok _) => Ok m
             | (_, Throw e) => Throw e
             | (_, Crash) => Crash
             end
      end
  | (_, Throw e) => Throw e
  | (_, Crash) => Crash
  end.

(** ** Invariant *)

Definition key_lt {A} (a b : Z * A) : Prop := a.1 < b.1.

(** The map is ordered, is never empty, and its configurations are numbered one after
    another up to the next index. *)
Definition wf (m : configuration_manager) : Prop :=
  _configurations m <> [] /\ StronglySorted key_lt (_configurations m) /\
  exists i, renumber i (_configurations m) = _configurations m /\
            _next_index m = i + blen (_configurations m).

Lemma renumber_app i a b : renumber i (a ++ b) = renumber i a ++ renumber (i + blen a) b.
Proof.
  revert i. induction a as [|[o ic] a IH]; intros i; [cbn; by rewrite Z.add_0_r|].
  cbn. rewrite IH, blen_cons. do 3 f_equal. lia.
Qed.

Lemma renumber_length i cs : length (renumber i cs) = length cs.
Proof. revert i. induction cs as [|[o ic] cs IH]; intros i; [done|]. cbn. by rewrite IH. Qed.

Lemma renumber_idem i j cs : renumber i (renumber j cs) = renumber i cs.
Proof. revert i j. induction cs as [|[o ic] cs IH]; intros i j; [done|]. cbn. by rewrite IH. Qed.

Lemma renumber_keys i cs : (renumber i cs).*1 = cs.*1.
Proof. revert i. induction cs as [|[o ic] cs IH]; intros i; [done|]. cbn. by rewrite IH. Qed.

(** Being ordered is a matter of the keys. *)
Lemma sorted_keys {A} (l : list (Z * A)) : StronglySorted key_lt l <-> StronglySorted Z.lt l.*1.
Proof.
  induction l as [|e l IH]; [split; constructor|]. cbn. split; intros [H1 H2]%StronglySorted_inv;
    (constructor; [by apply IH|]); rewrite Forall_fmap in *; exact H2.
Qed.

Lemma renumber_app_inv i a b : renumber i (a ++ b) = a ++ b ->
  renumber i a = a /\ renumber (i + blen a) b = b.
Proof. rewrite renumber_app. intros H. apply app_inj_1 in H; [done|apply renumber_length]. Qed.

Lemma renumber_head i e b : renumber i (e :: b) = e :: b -> ic_idx e.2 = i.
Proof. destruct e as [o ic]. cbn. intros [= H _]. by rewrite <- H. Qed.

Lemma renumber_last i a e : renumber i (a ++ [e]) = a ++ [e] -> ic_idx e.2 = i + blen a.
Proof. intros [_ H]%renumber_app_inv. by apply renumber_head in H. Qed.

(** An ordered map is cut in two at any key. *)
Lemma sorted_split {A} (o : Z) (l : list (Z * A)) : StronglySorted key_lt l ->
  l = filter (fun e => e.1 < o) l ++ filter (fun e => o <= e.1) l.
Proof.
  induction 1 as [|e l _ IH Hall]; [done|]. rewrite !filter_cons. destruct (decide (e.1 < o)) as [Hlt|Hge].
  - rewrite (decide_False (P := o <= e.1)) by lia. cbn. by f_equal.
  - rewrite decide_True by lia. rewrite Forall_forall in Hall.
    assert (Hge' : forall x, x ∈ l -> o <= x.1) by (intros x Hx; specialize (Hall x Hx); unfold key_lt in Hall; lia).
    rewrite filter_none, filter_all; [done| |].
    + done.
    + intros x Hx. specialize (Hge' x Hx). lia.
Qed.

Lemma sorted_split_le {A} (o : Z) (l : list (Z * A)) : StronglySorted key_lt l ->
  l = filter (fun e => e.1 <= o) l ++ filter (fun e => o < e.1) l.
Proof.
  intros Hs. rewrite (sorted_split (o + 1) l Hs) at 1. f_equal; apply list_filter_iff; intros; lia.
Qed.

Lemma sorted_filter {A} (P : Z * A -> Prop) `{forall x, Decision (P x)} (l : list (Z * A)) :
  StronglySorted key_lt l -> StronglySorted key_lt (filter P l).
Proof.
  induction 1 as [|e l Hs IH Hall]; [constructor|]. rewrite filter_cons. case_decide; [|done].
  constructor; [done|]. rewrite Forall_forall in *. intros x [_ Hx]%list_elem_of_filter. by apply Hall.
Qed.

Lemma try_emplace_end o c cs : (forall e, e ∈ cs -> e.1 < o) -> try_emplace o c cs = Some (cs ++ [(o, c)]).
Proof.
  induction cs as [|e cs IH]; intros Hlt; [done|]. cbn. specialize (Hlt e ltac:(left)) as He.
  assert (o <? e.1 = false) as -> by lia. assert (o =? e.1 = false) as -> by lia.
  rewrite IH by (intros x Hx; apply Hlt; by right). done.
Qed.

Lemma sorted_snoc {A} (l : list (Z * A)) e : StronglySorted key_lt l -> (forall x, x ∈ l -> x.1 < e.1) ->
  StronglySorted key_lt (l ++ [e]).
Proof.
  intros Hs He. apply StronglySorted_app. split_and!; [|done|repeat constructor].
  intros x y Hx ->%list_elem_of_singleton. by apply He.
Qed.

Lemma truncate_wf o m m' : wf m -> truncate o m = (m', Ok tt) -> wf m'.
Proof.
  intros (Hne & Hs & i & Hi & Hn) Ht. unfold truncate in Ht.
  destruct (_configurations m) as [|first cs] eqn:Ec; [done|]. destruct (Z.leb_spec o first.1); [done|].
  cbn [lower_bound] in Ht. rewrite <- Ec in *. injection Ht as <-. unfold wf.
  cbn [_configurations _next_index with_hko with_configurations store_configurations store_highest_known_offset with_kv].
  pose proof (sorted_split o _ Hs) as Hsplit. split; [|split].
  - rewrite Ec, filter_cons_True by lia. done.
  - by apply sorted_filter.
  - exists i. rewrite Hsplit in Hi. apply renumber_app_inv in Hi as [H1 H2]. split; [done|].
    destruct (filter (fun e => o <= e.1) _) as [|e it] eqn:Eit; [rewrite Hn, Hsplit at 1; by rewrite app_nil_r|].
    by apply renumber_head in H2.
Qed.

Lemma prefix_truncate_wf o m m' : wf m -> prefix_truncate o m = (m', Ok tt) -> wf m'.
Proof.
  intros (Hne & Hs & i & Hi & Hn) Ht. unfold prefix_truncate in Ht.
  destruct (_configurations m) as [|first cs] eqn:Ec; [done|].
  destruct (Z.leb_spec o first.1); [injection Ht as <-; unfold wf; rewrite Ec; eauto|].
  cbn [upper_bound] in Ht. rewrite <- Ec in *. pose proof (sorted_split_le o _ Hs) as Hsplit.
  destruct (last (filter (fun e => e.1 <= o) (_configurations m))) as [e|] eqn:El; [|done].
  injection Ht as <-. apply last_Some in El as [pre Epre]. rewrite Epre in Hsplit. unfold wf.
  cbn [_configurations _next_index with_hko with_configurations store_configurations store_highest_known_offset store_next_idx with_kv].
  split; [done|]. split.
  - constructor; [by apply sorted_filter|]. apply Forall_forall. intros x [Hx _]%list_elem_of_filter. exact Hx.
  - exists (ic_idx e.2). rewrite Hsplit in Hi. apply renumber_app_inv in Hi as [H1 H2].
    apply renumber_last in H1. rewrite blen_app in H2. change (blen [e]) with 1 in H2. split.
    + cbn. destruct e as [k ic]. cbn in *. rewrite H1. f_equal; [by rewrite <- H1; destruct ic|].
      rewrite <- H2 at 2. f_equal. lia.
    + rewrite Hn. rewrite Hsplit at 1. rewrite !blen_app, !blen_cons, H1. change (@blen (Z * indexed_configuration) []) with 0. lia.
Qed.

Lemma add_loop_end l m : (forall e, e ∈ l -> maybe_set_initial_revision (_initial_revision m) e.2 = Ok e.2) ->
  StronglySorted key_lt l -> (forall e x, e ∈ _configurations m -> x ∈ l -> e.1 < x.1) ->
  exists m', add_loop l m = (m', Ok tt) /\
    _configurations m' = _configurations m ++
      renumber (_next_index m) ((fun e => (e.1, {| ic_cfg := e.2; ic_idx := 0 |})) <$> l) /\
    _next_index m' = _next_index m + blen l.
Proof.
  revert m. induction l as [|[o c] l IH]; intros m Hrev Hs Hlt.
  { exists m. rewrite app_nil_r, Z.add_0_r. done. }
  pose proof (Hrev (o, c) ltac:(left)) as Hc. cbn in Hc |- *. rewrite Hc. set (m1 := reset_override (_revision c) m).
  assert (Em1 : _configurations m1 = _configurations m /\ _next_index m1 = _next_index m /\ _initial_revision m1 = _initial_revision m).
  { unfold m1, reset_override. by destruct (_configuration_force_override m); [destruct (_ <=? _)|]. }
  destruct Em1 as (Ec & En & Er). unfold add_configuration.
  rewrite Ec, En, try_emplace_end by (intros e He; apply (Hlt e (o, c)); [done|left]).
  apply StronglySorted_inv in Hs as [Hs Hall]. rewrite Forall_forall in Hall.
  edestruct IH as (m' & Hm' & Hc' & Hn'); [| | |exists m'; split; [exact Hm'|]].
  - intros e He. cbn. rewrite Er. apply Hrev. by right.
  - done.
  - cbn. intros e x [He| ->%list_elem_of_singleton]%elem_of_app Hx; [apply (Hlt e x); [done|by right]|by apply (Hall x)].
  - rewrite Hc', Hn'. cbn. rewrite <- (assoc_L (++)), blen_cons. split; [done|lia].
Qed.

(** The manager's map stays ordered, never becomes empty, and its configurations stay
    numbered without gaps, up to the next index, when configurations are removed from its
    end or its beginning and when later ones are added. *)
Theorem configurations_stay_numbered m o l :
  wf m ->
  (forall m', truncate o m = (m', Ok tt) -> wf m') /\
  (forall m', prefix_truncate o m = (m', Ok tt) -> wf m') /\
  ((forall e, e ∈ l -> maybe_set_initial_revision (_initial_revision m) e.2 = Ok e.2) ->
   StronglySorted key_lt l -> (forall e x, e ∈ _configurations m -> x ∈ l -> e.1 < x.1) ->
   exists m', add_all l m = (m', Ok tt) /\ wf m').
Proof.
  intros Hwf. split; [intros m'; by apply truncate_wf|]. split; [intros m'; by apply prefix_truncate_wf|].
  intros Hrev Hs Hlt. destruct (add_loop_end l m Hrev Hs Hlt) as (m' & Hm' & Hc & Hn).
  exists (store_highest_known_offset (store_configurations m')). unfold add_all. rewrite Hm'. split; [done|].
  destruct Hwf as (Hne & Hsm & i & Hi & Hni). unfold wf.
  cbn [_configurations _next_index store_configurations store_highest_known_offset with_kv].
  rewrite Hc, Hn. split; [by destruct (_configurations m)|]. split.
  - rewrite sorted_keys, fmap_app, renumber_keys, <- list_fmap_compose.
    apply StronglySorted_app. split_and!; [|by apply sorted_keys|by apply sorted_keys].
    intros ? ? (e & -> & He)%list_elem_of_fmap (x & -> & Hx)%list_elem_of_fmap. by apply Hlt.
  - exists i. rewrite renumber_app, Hi, <- Hni, renumber_idem. split; [done|].
    rewrite blen_app, Hni. unfold blen. rewrite renumber_length, length_fmap. lia.
Qed.

(** [get] finds the configuration that is in force at an offset: the last one that is not
    beyond it. *)
Theorem get_is_configuration_in_force m o : StronglySorted key_lt (_configurations m) ->
  get o m = (fun e => ic_cfg e.2) <$> last (filter (fun e => e.1 <= o) (_configurations m)).
Proof.
  intros Hs. unfold get. cbn [lower_bound].
  pose proof (sorted_split_le o _ (sorted_filter (fun e => o <= e.1) _ Hs)) as Hsp.
  rewrite !list_filter_filter in Hsp.
  assert (Hle : filter (fun e => e.1 <= o) (_configurations m) =
    filter (fun e => e.1 < o) (_configurations m) ++ filter (fun e => e.1 = o) (_configurations m)).
  { rewrite (sorted_split o _ (sorted_filter (fun e => e.1 <= o) _ Hs)) at 1. rewrite !list_filter_filter.
    f_equal; apply list_filter_iff; intros; lia. }
  rewrite Hle, last_app. destruct (filter (fun e => o <= e.1) (_configurations m)) as [|e it] eqn:Eit.
  - rewrite (filter_none (fun e => e.1 = o)); [done|]. intros x Hx Hxo.
    assert (x ∈ filter (fun e => o <= e.1) (_configurations m)) by (apply list_elem_of_filter; split; [lia|done]). rewrite Eit in *. set_solver.
  - assert (Hss : StronglySorted key_lt (e :: it)) by (rewrite <- Eit; by apply sorted_filter).
    apply StronglySorted_inv in Hss as [_ Hall]. rewrite Forall_forall in Hall.
    assert (Heq : filter (fun e => e.1 = o) (_configurations m) = filter (fun x => x.1 = o) (e :: it)).
    { rewrite <- Eit, list_filter_filter. apply list_filter_iff. intros; lia. }
    rewrite Heq, filter_cons, (filter_none (fun x => x.1 = o) it).
    + destruct (Z.eqb_spec e.1 o); [by rewrite decide_True|by rewrite decide_False].
    + intros x Hx. specialize (Hall x Hx). unfold key_lt in Hall.
      assert (e ∈ filter (fun e => o <= e.1) (_configurations m)) as [? _]%list_elem_of_filter by (rewrite Eit; left). lia.
Qed.

(** [offset_delta], from which a log without stored deltas translates its offsets, counts
    configurations: with the first one numbered [i], the delta at an offset is the number of
    the last configuration before it, and before all of them one less than [i]. *)
Theorem offset_delta_counts_configurations m o i :
  wf m -> renumber i (_configurations m) = _configurations m ->
  offset_delta o m = Ok (let n := blen (filter (fun e => e.1 < o) (_configurations m)) in
                         if n =? 0 then 0 `max` (i - 1) else i + n - 1).
Proof.
  intros (Hne & Hs & _) Hi. unfold offset_delta. cbn [lower_bound].
  rewrite (sorted_split o _ Hs) in Hi. apply renumber_app_inv in Hi as [H1 H2].
  destruct (last (filter (fun e => e.1 < o) (_configurations m))) as [e|] eqn:El.
  - apply last_Some in El as [pre Epre]. rewrite Epre in *. apply renumber_last in H1. rewrite H1, blen_app.
    change (blen [e]) with 1. pose proof (blen_nonneg pre).
    destruct (Z.eqb_spec (blen pre + 1) 0); [lia|]. f_equal. lia.
  - apply last_None in El. rewrite El in *.
    destruct (filter (fun e => o <= e.1) (_configurations m)) as [|e it] eqn:Eit.
    + exfalso. apply Hne. by rewrite (sorted_split o _ Hs), El, Eit.
    + change (@blen (Z * indexed_configuration) []) with 0 in *. rewrite Z.add_0_r in H2. by apply renumber_head in H2 as ->.
Qed.

(** ** Restarting *)

Definition entries (m : configuration_manager) : list (Z * group_configuration) :=
  (fun e => (e.1, ic_cfg e.2)) <$> _configurations m.

Lemma renumber_entries i cs : (fun e => (e.1, ic_cfg e.2)) <$> renumber i cs = (fun e => (e.1, ic_cfg e.2)) <$> cs.
Proof. revert i. induction cs as [|[o ic] cs IH]; intros i; [done|]. cbn. by rewrite IH. Qed.

Lemma deserialize_entries i l : (fun e => (e.1, ic_cfg e.2)) <$> deserialize_configurations i l = l.
Proof.
  unfold deserialize_configurations. rewrite renumber_entries, <- list_fmap_compose.
  rewrite <- (list_fmap_id l) at 2. apply list_fmap_ext. by intros ? [].
Qed.

Lemma set_initial_revisions_id rev cs :
  (forall e, e ∈ cs -> maybe_set_initial_revision rev (ic_cfg e.2) = Ok (ic_cfg e.2)) ->
  set_initial_revisions rev cs = Ok cs.
Proof.
  unfold set_initial_revisions. induction cs as [|[o [c i]] cs IH]; intros H; [done|].
  pose proof (H _ ltac:(left)) as Hc. cbn in Hc |- *. rewrite Hc. cbn. rewrite IH; [done|]. intros e He. apply H. by right.
Qed.

Lemma entries_sorted m : StronglySorted key_lt (_configurations m) <-> StronglySorted key_lt (entries m).
Proof. unfold entries. by rewrite !sorted_keys, <- list_fmap_compose. Qed.

(** Two ordered maps with the same entries are equal. *)
Lemma sorted_ext {A} (l1 l2 : list (Z * A)) : StronglySorted key_lt l1 -> StronglySorted key_lt l2 ->
  (forall e, e ∈ l1 <-> e ∈ l2) -> l1 = l2.
Proof.
  intros H1 H2 He. assert (Hnd : forall l : list (Z * A), StronglySorted key_lt l -> NoDup l).
  { induction 1 as [|e l _ IH Hall]; constructor; [|done]. intros Hin. rewrite Forall_forall in Hall.
    specialize (Hall e Hin). unfold key_lt in Hall. lia. }
  apply (StronglySorted_unique_strong key_lt); [|done|done|].
  - intros x y _ _ Hxy Hyx. unfold key_lt in *. lia.
  - apply NoDup_Permutation; [by apply Hnd|by apply Hnd|done].
Qed.

Lemma start_loads rev m base l h :
  kv_configurations (kv m) = Some (base :: l) -> kv_highest_known_offset (kv m) = Some h ->
  (forall e, e ∈ base :: l -> maybe_set_initial_revision rev e.2 = Ok e.2) ->
  exists m1, start false rev m = Ok m1 /\ entries m1 = base :: l /\ _initial_revision m1 = rev /\
    _highest_known_offset m1 = (default base (last (base :: l))).1 `max` h.
Proof.
  intros Hk Hh Hrev. unfold start. cbn [kv _configurations]. rewrite Hk.
  set (cs := deserialize_configurations _ _).
  assert (Hcs : (fun e => (e.1, ic_cfg e.2)) <$> cs = base :: l) by apply deserialize_entries.
  assert (Hlast : last (base :: l) = (fun e => (e.1, ic_cfg e.2)) <$> last cs) by (by rewrite <- fmap_last, Hcs).
  destruct (last cs) as [e|] eqn:El; [|by apply last_None in Hlast].
  cbn [kv with_hko with_configurations]. rewrite Hh.
  cbn [kv with_hko with_configurations _configurations _next_index _highest_known_offset].
  rewrite set_initial_revisions_id.
  - eexists. split; [reflexivity|]. cbn. rewrite Hlast. done.
  - intros x Hx. apply (Hrev (x.1, ic_cfg x.2)). rewrite <- Hcs. apply list_elem_of_fmap. by exists x.
Qed.

(** What the key-value store must hold for the configurations of a log that ends at
    [dirty]: those up to the highest known offset, and nothing the log does not have. *)
Definition kv_complete (log : list (Z * group_configuration)) (dirty : Z)
    (base : Z * group_configuration) (l : list (Z * group_configuration)) (h : Z) : Prop :=
  StronglySorted key_lt (base :: l) /\ StronglySorted key_lt (base :: log) /\
  (forall e, e ∈ log -> e.1 <= dirty) /\
  (forall e, e ∈ l -> e.1 <= dirty -> e ∈ log) /\
  (forall e, e ∈ log -> e.1 <= (default base (last (base :: l))).1 `max` h -> e ∈ l).

Lemma next_offset_spec o : o < int64_max -> is_s 64 o -> forall x, 0 <= x -> next_offset o <= x <-> o < x.
Proof.
  intros Ho Hr x Hx. unfold next_offset. destruct (Z.ltb_spec o 0); [lia|].
  destruct (Z.eqb_spec o int64_max); [lia|]. rewrite swrap_id; [lia|lia|ranges].
Qed.

Lemma last_key_ge {A} (base : Z * A) l : StronglySorted key_lt (base :: l) ->
  forall e, e ∈ base :: l -> e.1 <= (default base (last (base :: l))).1.
Proof.
  intros Hs. destruct (last (base :: l)) as [x|] eqn:E; [|by apply last_None in E].
  apply last_Some in E as [pre E]. rewrite E in *. intros e [He| ->%list_elem_of_singleton]%elem_of_app; [|cbn; lia].
  apply StronglySorted_app in Hs as (Hlt & _ & _). specialize (Hlt e x He ltac:(left)). unfold key_lt in Hlt. cbn. lia.
Qed.

Lemma filter_entries o (cs : configurations) :
  (fun e => (e.1, ic_cfg e.2)) <$> filter (fun e => e.1 < o) cs =
  filter (fun e => e.1 < o) ((fun e => (e.1, ic_cfg e.2)) <$> cs).
Proof.
  induction cs as [|x l IH]; [done|]. rewrite fmap_cons, !filter_cons. cbn.
  destruct (decide (x.1 < o)); cbn; by rewrite IH.
Qed.

Lemma truncate_entries o m : _configurations m <> [] -> (forall e, last (reverse (_configurations m)) = Some e -> e.1 < o) ->
  exists m', truncate o m = (m', Ok tt) /\ entries m' = filter (fun e => e.1 < o) (entries m) /\
    _initial_revision m' = _initial_revision m /\ _highest_known_offset m' = o `min` _highest_known_offset m.
Proof.
  intros Hne Hf. unfold truncate. destruct (_configurations m) as [|e cs] eqn:E; [done|].
  specialize (Hf e). rewrite last_reverse in Hf. specialize (Hf eq_refl). rewrite (proj2 (Z.leb_gt _ _)) by lia.
  cbn [lower_bound]. rewrite <- E. eexists. split; [reflexivity|]. split_and!; [|done..].
  unfold entries. cbn [_configurations store_configurations store_highest_known_offset with_kv with_hko with_configurations].
  apply filter_entries.
Qed.

(** Of what was stored, the truncation to the end of the log keeps what the log has up to
    the highest known offset. *)
Lemma kept_entries log dirty base l h nd :
  kv_complete log dirty base l h -> base.1 <= dirty -> (forall x, 0 <= x -> x < nd <-> x <= dirty) ->
  (forall e, e ∈ base :: l ++ log -> 0 <= e.1) ->
  filter (fun e => e.1 < nd) (base :: l) =
  base :: filter (fun e => e.1 <= (default base (last (base :: l))).1 `max` h) log.
Proof.
  intros (Hsl & Hslog & Hdirty & Hin & Hout) Hb Hnd Hpos.
  rewrite filter_cons_True by (apply Hnd; [apply Hpos; left|done]). f_equal.
  pose proof (last_key_ge _ _ Hsl) as Hlast. set (k := (default base (last (base :: l))).1) in *.
  apply StronglySorted_inv in Hsl as [Hsl _]. apply StronglySorted_inv in Hslog as [Hslog _].
  apply sorted_ext; [by apply sorted_filter..|]. intros e. rewrite !list_elem_of_filter. split.
  - intros [Hlt He]. pose proof (Hlast e ltac:(by right)). rewrite Hnd in Hlt by (apply Hpos; set_solver).
    split; [lia|]. by apply Hin.
  - intros [Hle He]. split; [apply Hnd; [apply Hpos; set_solver|by apply Hdirty]|]. by apply Hout.
Qed.

Lemma filter_next_offset k (log : list (Z * group_configuration)) :
  k < int64_max -> is_s 64 k -> (forall e, e ∈ log -> 0 <= e.1) ->
  filter (fun e => next_offset k <= e.1) log = filter (fun e => k < e.1) log.
Proof.
  intros Hk Hr Hlog. induction log as [|e log IH]; [done|]. rewrite !filter_cons, IH by (intros; apply Hlog; by right).
  pose proof (next_offset_spec k Hk Hr e.1 (Hlog e ltac:(left))). repeat case_decide; try done; lia.
Qed.

(** After a restart the manager has exactly the configurations of the log (after the one it
    starts from): what it had stored up to the highest known offset, less what the log lost,
    and what is read from the log beyond that offset. *)
Theorem recovery_finds_configurations log dirty rev m base l h :
  kv_configurations (kv m) = Some (base :: l) -> kv_highest_known_offset (kv m) = Some h ->
  kv_complete log dirty base l h -> base.1 <= dirty ->
  (forall e, e ∈ base :: l ++ log -> 0 <= e.1 < int64_max /\ maybe_set_initial_revision rev e.2 = Ok e.2) ->
  is_s 64 h -> h < int64_max -> dirty < int64_max ->
  exists m', recover log dirty rev m = Ok m' /\ entries m' = base :: log.
Proof.
  intros Hk Hh (Hsl & Hslog & Hdirty & Hin & Hout) Hb Hall Hhr Hh2 Hd2.
  destruct (start_loads rev m base l h) as (m1 & Hst & He1 & Hr1 & Hko); [done|done|intros e He; apply Hall; set_solver|].
  set (k := (default base (last (base :: l))).1) in *.
  assert (Hk0 : 0 <= k < int64_max).
  { unfold k. destruct (last (base :: l)) as [x|] eqn:E; [|by apply last_None in E].
    apply last_Some_elem_of in E. apply Hall. set_solver. }
  assert (Hb0 : 0 <= base.1) by (apply Hall; left).
  unfold recover. rewrite Hst. cbn [mbind res_bind]. rewrite Hko.
  assert (Hseen : filter (fun e => next_offset (k `max` h) <= e.1) log = filter (fun e => k `max` h < e.1) log).
  { apply filter_next_offset; [lia|ranges|]. intros e He. apply Hall. set_solver. }
  rewrite Hseen. clear Hseen.
  assert (Hnd : forall x, 0 <= x -> x < next_offset dirty <-> x <= dirty).
  { intros x Hx. pose proof (next_offset_spec dirty Hd2 ltac:(ranges) x Hx). lia. }
  destruct (truncate_entries (next_offset dirty) m1) as (m2 & Ht & He2 & Hr2 & _).
  { intros E. unfold entries in He1. by rewrite E in He1. }
  { intros e. rewrite last_reverse. unfold entries in He1. destruct (_configurations m1) as [|x cs]; [done|].
    intros [= <-]. injection He1 as <- _. by apply Hnd. }
  rewrite Ht. rewrite He1 in He2.
  assert (He2' : entries m2 = base :: filter (fun e => e.1 <= k `max` h) log).
  { rewrite He2. apply (kept_entries _ dirty); [done|done|done|]. intros e He. apply Hall. set_solver. }
  apply StronglySorted_inv in Hslog as [Hslog1 Hbase].
  pose proof (sorted_split_le (k `max` h) _ Hslog1) as Hsplit.
  destruct (filter (fun e => k `max` h < e.1) log) as [|s0 seen] eqn:Eseen.
  { exists m2. split; [done|]. rewrite He2'. f_equal. by rewrite app_nil_r in Hsplit. }
  rewrite <- Eseen in *. destruct (add_loop_end (filter (fun e => k `max` h < e.1) log) m2) as (m3 & Hm3 & Hc3 & _).
  - intros e [_ He]%list_elem_of_filter. rewrite Hr2, Hr1. apply Hall. set_solver.
  - by apply sorted_filter.
  - intros e x He [Hx Hx']%list_elem_of_filter.
    assert (He' : (e.1, ic_cfg e.2) ∈ entries m2) by (apply list_elem_of_fmap; by exists e).
    rewrite He2' in He'. apply elem_of_cons in He' as [He'|[Hle _]%list_elem_of_filter]; [|cbn in Hle; lia].
    rewrite Forall_forall in Hbase. specialize (Hbase x Hx'). unfold key_lt in Hbase. rewrite <- He' in Hbase. exact Hbase.
  - unfold add_all. rewrite Hm3. eexists. split; [reflexivity|]. unfold entries in *. cbn [_configurations store_configurations store_highest_known_offset with_kv].
    rewrite Hc3, fmap_app, He2', renumber_entries, <- list_fmap_compose. rewrite Hsplit at 3. cbn. do 2 f_equal.
    rewrite <- (list_fmap_id (filter _ log)) at 2. apply list_fmap_ext. by intros ? [].
Qed.

Lemma set_initial_revisions_keys rev cs cs' : set_initial_revisions rev cs = Ok cs' -> cs'.*1 = cs.*1.
Proof.
  unfold set_initial_revisions. revert cs'. induction cs as [|e cs IH]; intros cs' H; cbn in H; [by injection H as <-|].
  apply res_bind_Ok in H as (x & Hx & H). apply res_bind_Ok in Hx as (c & _ & [= <-]).
  apply res_bind_Ok in H as (cs1 & H1 & [= <-]). cbn. f_equal. by apply IH.
Qed.

Lemma start_keys rev m m1 l h : l <> [] -> kv_configurations (kv m) = Some l -> kv_highest_known_offset (kv m) = Some h ->
  start false rev m = Ok m1 ->
  (_configurations m1).*1 = l.*1 /\ exists k, last l.*1 = Some k /\ _highest_known_offset m1 = k `max` h.
Proof.
  intros Hne Hk Hh Hs. unfold start in Hs. cbn [kv _configurations] in Hs. rewrite Hk in Hs.
  set (cs := deserialize_configurations _ _) in Hs.
  assert (Hkeys : cs.*1 = l.*1) by (unfold cs, deserialize_configurations; by rewrite renumber_keys, <- list_fmap_compose).
  destruct (last cs) as [e|] eqn:El; [|apply last_None in El; rewrite El in Hkeys; by destruct l].
  cbn [kv with_hko with_configurations] in Hs. rewrite Hh in Hs.
  cbn [kv with_hko with_configurations _configurations _next_index _highest_known_offset] in Hs.
  apply res_bind_Ok in Hs as (cs' & Hc & [= <-]). apply set_initial_revisions_keys in Hc.
  cbn. rewrite Hc, Hkeys. split; [done|]. exists e.1. by rewrite <- Hkeys, fmap_last, El.
Qed.

(** C35: Truncation records the truncation offset itself as known, although no configuration at
    that offset is.  If the next batch of the log is a configuration and the node stops after
    the log has it but before the manager has stored it, the restarted manager starts reading
    behind it and does not find it. *)
Theorem truncation_hides_next_configuration m o m1 initial log rev m2 :
  wf m -> 0 <= o < int64_max -> o <= _highest_known_offset m -> truncate o m = (m1, Ok tt) ->
  (forall e, e ∈ log -> e.1 <= o) ->
  recover log o rev (make_manager initial (kv m1)) = Ok m2 -> o ∉ (entries m2).*1.
Proof.
  intros Hwf Ho Hhko Ht Hlog Hr. pose proof (truncate_wf _ _ _ Hwf Ht) as (Hne & _).
  assert (Hkeys : forall e, e ∈ _configurations m1 -> e.1 < o).
  { unfold truncate in Ht. destruct (_configurations m); [done|]. destruct (_ <=? _); [done|]. injection Ht as <-.
    cbn [_configurations store_configurations store_highest_known_offset with_kv with_hko with_configurations lower_bound fst snd].
    intros e [? _]%list_elem_of_filter. done. }
  assert (Hkv : kv_configurations (kv m1) = Some (entries m1) /\ kv_highest_known_offset (kv m1) = Some o).
  { unfold truncate in Ht. destruct (_configurations m); [done|]. destruct (_ <=? _); [done|]. injection Ht as <-.
    cbn. split; [done|]. f_equal. lia. }
  destruct Hkv as [Hk1 Hk2]. unfold recover in Hr. apply res_bind_Ok in Hr as (m3 & Hs & Hr).
  assert (Hem : entries m1 <> []) by (unfold entries; by destruct (_configurations m1)).
  destruct (start_keys rev (make_manager initial (kv m1)) m3 _ o Hem Hk1 Hk2 Hs) as (Hc3 & k & Hk & Hh3).
  assert (Hlast : k < o).
  { apply last_Some_elem_of in Hk. unfold entries in Hk. rewrite <- list_fmap_compose in Hk.
    apply list_elem_of_fmap in Hk as (e & -> & He). by apply Hkeys. }
  rewrite Hh3, filter_none in Hr.
  2:{ intros e He Hx. specialize (Hlog e He). revert Hx. unfold next_offset.
      replace (k `max` o) with o by lia. destruct (Z.ltb_spec o 0); [lia|]. destruct (Z.eqb_spec o int64_max); [lia|].
      rewrite swrap_id; [lia|lia|ranges]. }
  destruct (truncate (next_offset o) m3) as [m4 [[]| |]] eqn:Et; try done. injection Hr as <-.
  unfold truncate in Et. destruct (_configurations m3) as [|f cs] eqn:E3; [done|]. destruct (_ <=? _); [done|].
  cbn [lower_bound] in Et. rewrite <- E3 in Et, Hc3. injection Et as <-. unfold entries.
  cbn [_configurations store_configurations store_highest_known_offset with_kv with_hko with_configurations].
  rewrite <- list_fmap_compose. intros (e & He & [_ Hin]%list_elem_of_filter)%list_elem_of_fmap. cbn in He.
  assert (Hin' : e.1 ∈ (_configurations m3).*1) by (apply list_elem_of_fmap; by exists e).
  rewrite Hc3 in Hin'. unfold entries in Hin'. rewrite <- list_fmap_compose in Hin'.
  apply list_elem_of_fmap in Hin' as (x & Hx & Hx'). specialize (Hkeys x Hx'). cbn in Hx. lia.
Qed.

(** ** Witnesses *)

Module examples.

Definition cfg (n : Z) : group_configuration := make_simple [Vnode n 0] [] 0.

Definition run (r : configuration_manager * res unit) : configuration_manager := r.1.

(** Configurations at offsets 0, 5 and 9, known up to offset 12. *)
Definition m0 : configuration_manager :=
  run (add_all [(0, cfg 1); (5, cfg 2); (9, cfg 3)]
         (run (truncate 0 (make_manager (cfg 0) {| kv_configurations := None; kv_highest_known_offset := None; kv_next_idx := None |})))).
Definition m12 : configuration_manager := store_highest_known_offset (with_hko 12 m0).

Lemma sorted_concrete {A} (l : list (Z * A)) : forallb (fun p => p.1 <? p.2) (zip l.*1 (tail l.*1)) = true ->
  StronglySorted key_lt l.
Proof.
  intros H. apply sorted_keys. revert H. generalize l.*1 as ks. clear l. intros ks H.
  apply Sorted_StronglySorted; [intros x y z; lia|].
  induction ks as [|k ks IH]; [constructor|]. destruct ks as [|k' ks]; [by repeat constructor|].
  cbn in H. apply andb_true_iff in H as [H1 H2]. constructor; [by apply IH|]. constructor. lia.
Qed.

(** A property of every element of a concrete list. *)
Ltac each :=
  let H := fresh in
  intros ? H; vm_compute in H;
  repeat (apply elem_of_cons in H as [->|H]; [|]); [..|by apply not_elem_of_nil in H].

Lemma m12_wf : wf m12.
Proof.
  split; [vm_compute; discriminate|]. split; [apply sorted_concrete; vm_compute; reflexivity|].
  exists 0. split; vm_compute; reflexivity.
Qed.

Lemma configurations_stay_numbered_witness :
  (forall m', truncate 5 m12 = (m', Ok tt) -> wf m') /\
  (forall m', prefix_truncate 5 m12 = (m', Ok tt) -> wf m') /\
  exists m', add_all [(20, cfg 4)] m12 = (m', Ok tt) /\ wf m'.
Proof.
  destruct (configurations_stay_numbered m12 5 [(20, cfg 4)] m12_wf) as (H1 & H2 & H3).
  split; [exact H1|]. split; [exact H2|]. apply H3.
  - intros e ->%list_elem_of_singleton. vm_compute. reflexivity.
  - repeat constructor.
  - intros e x He ->%list_elem_of_singleton. revert e He.
    each; concrete.
Defined.

Lemma get_is_configuration_in_force_witness : get 7 m12 = Some (cfg 2).
Proof. rewrite (get_is_configuration_in_force m12 7 (proj1 (proj2 m12_wf))). vm_compute. reflexivity. Defined.

Lemma offset_delta_counts_configurations_witness : offset_delta 7 m12 = Ok 2.
Proof. rewrite (offset_delta_counts_configurations m12 7 0 m12_wf); vm_compute; reflexivity. Defined.

(** The node had stored configurations up to offset 9; the log has one more at offset 15. *)
Lemma recovery_finds_configurations_witness :
  exists m', recover [(5, cfg 2); (9, cfg 3); (15, cfg 4)] 16 0
    (make_manager (cfg 0) {| kv_configurations := Some [(0, cfg 1); (5, cfg 2); (9, cfg 3)];
                             kv_highest_known_offset := Some 12; kv_next_idx := Some 0 |}) = Ok m' /\
    entries m' = [(0, cfg 1); (5, cfg 2); (9, cfg 3); (15, cfg 4)].
Proof.
  apply (recovery_finds_configurations [(5, cfg 2); (9, cfg 3); (15, cfg 4)] 16 0 _ (0, cfg 1) [(5, cfg 2); (9, cfg 3)] 12);
    [reflexivity|reflexivity| |concrete| |concrete|concrete|concrete].
  - split; [apply sorted_concrete; reflexivity|]. split; [apply sorted_concrete; reflexivity|].
    split; [each; concrete|]. split; each; cbn; try lia; set_solver.
  - each; concrete.
Defined.

Lemma truncation_hides_next_configuration_witness : exists m2,
  recover [(0, cfg 1); (5, cfg 2); (7, cfg 5)] 7 0 (make_manager (cfg 0) (kv (run (truncate 7 m12)))) = Ok m2 /\
  7 ∉ (entries m2).*1.
Proof.
  eexists. split; [vm_compute; reflexivity|].
  apply (truncation_hides_next_configuration m12 7 (run (truncate 7 m12)) (cfg 0) [(0, cfg 1); (5, cfg 2); (7, cfg 5)] 0);
    [exact m12_wf|concrete|concrete|vm_compute; reflexivity| |vm_compute; reflexivity].
  each; concrete.
Defined.

End examples.
