(* ===== verification/VoterPriority.v ===== *)
(** * Priorities of candidates (raft/voter_priority_tracker.{h,cc})

    Every replica derives a priority for each replica from its position in the
    configuration and demands a target priority of a candidate.  The target starts at the
    maximum and falls with every election that is attempted, so that in the end every
    replica may become the leader. *)

From S2P Require Import Prelude GroupConfiguration.

(** [voter_priority] is a [uint32_t]. *)
Definition min_voter_priority : Z := 1.
Definition not_ready_voter_priority : Z := 2.
Definition max_voter_priority : Z := 2 ^ 32 - 1.

Record voter_priority_tracker := {
  vp_self : vnode;
  _replica_priority_override : option Z;
  _target_priority : Z;
}.

Definition with_priority_override (p : option Z) (t : voter_priority_tracker) :=
  {| vp_self := vp_self t; _replica_priority_override := p; _target_priority := _target_priority t |}.
Definition with_target_priority (p : Z) (t : voter_priority_tracker) :=
  {| vp_self := vp_self t; _replica_priority_override := _replica_priority_override t;
     _target_priority := p |}.

Definition make_tracker (self : vnode) (is_ready_for_leader_election : bool) : voter_priority_tracker :=
  {| vp_self := self;
     _replica_priority_override :=
       if is_ready_for_leader_election then None else Some not_ready_voter_priority;
     _target_priority := max_voter_priority |}.

Definition set_min_voter_priority (t : voter_priority_tracker) := with_priority_override (Some min_voter_priority) t.
Definition reset_voter_priority_override (t : voter_priority_tracker) := with_priority_override None t.

(** The quotient and the product are computed in [size_t]. *)
Definition on_leader_election (replica_count : Z) (t : voter_priority_tracker) : voter_priority_tracker :=
  let node_count := replica_count `max` 1 in
  with_target_priority
    (u32 (u64 (_target_priority t `div` node_count * (node_count - 1))) `max` min_voter_priority) t.

Definition on_successful_leader_election (t : voter_priority_tracker) : voter_priority_tracker :=
  with_target_priority max_voter_priority t.

Definition mark_ready_for_leader_election (t : voter_priority_tracker) : voter_priority_tracker :=
  if bool_decide (_replica_priority_override t = Some not_ready_voter_priority)
  then reset_voter_priority_override t else t.

(** The priority by the position in the configuration. *)
Definition position_priority (replica_id : vnode) (all_replicas : list vnode) : Z :=
  match list_find (fun v => v = replica_id) all_replicas with
  | Some (idx, _) => u32 ((blen all_replicas - Z.of_nat idx) * (max_voter_priority `div` blen all_replicas))
  | None => max_voter_priority
  end.

Definition get_replica_priority (t : voter_priority_tracker) (replica_id : vnode)
    (all_replicas : list vnode) : Z :=
  match _replica_priority_override t with
  | Some p => if bool_decide (replica_id = vp_self t) then p else position_priority replica_id all_replicas
  | None => position_priority replica_id all_replicas
  end.

Definition is_blocked (t : voter_priority_tracker) : bool :=
  bool_decide (_replica_priority_override t = Some min_voter_priority).

(** ** Properties *)

Definition priority_ok (t : voter_priority_tracker) : Prop :=
  1 <= _target_priority t <= max_voter_priority /\
  match _replica_priority_override t with Some p => 1 <= p <= max_voter_priority | None => True end.

Lemma on_leader_election_target n t : priority_ok t -> 0 <= n < 2 ^ 32 ->
  _target_priority (on_leader_election n t) =
    (_target_priority t `div` (n `max` 1) * (n `max` 1 - 1)) `max` 1.
Proof.
  intros [Ht _] Hn. unfold on_leader_election. cbn. unfold min_voter_priority, max_voter_priority in *.
  pose proof (Z.mul_div_le (_target_priority t) (n `max` 1) ltac:(lia)).
  assert (0 <= _target_priority t `div` (n `max` 1)) by (apply Z.div_pos; lia).
  assert (0 <= _target_priority t `div` (n `max` 1) * (n `max` 1 - 1) <= _target_priority t) by nia.
  rewrite (uwrap_id 64) by ranges. by rewrite uwrap_id by ranges.
Qed.

Lemma on_leader_election_ok n t : priority_ok t -> 0 <= n < 2 ^ 32 ->
  priority_ok (on_leader_election n t) /\ (1 < _target_priority t -> _target_priority (on_leader_election n t) < _target_priority t).
Proof.
  intros Hok Hn. pose proof Hok as [Ht Ho]. unfold priority_ok. rewrite on_leader_election_target by done.
  cbn [_replica_priority_override on_leader_election with_target_priority].
  pose proof (Z.mul_div_le (_target_priority t) (n `max` 1) ltac:(lia)).
  assert (0 <= _target_priority t `div` (n `max` 1)) by (apply Z.div_pos; lia).
  unfold max_voter_priority in *. split; [split; [nia|done]|]. intros H1.
  destruct (decide (_target_priority t < n `max` 1)) as [Hlt|Hge].
  - rewrite Z.div_small by lia. lia.
  - assert (1 <= _target_priority t `div` (n `max` 1)) by (apply Z.div_le_lower_bound; lia). nia.
Qed.

(** A node of the configuration, and one that blocks itself, has a priority of at least 1. *)
Lemma replica_priority_positive t id l : priority_ok t -> blen l <= max_voter_priority ->
  1 <= get_replica_priority t id l.
Proof.
  intros [_ Ho] Hl. unfold get_replica_priority.
  assert (Hp : 1 <= position_priority id l).
  { unfold position_priority. destruct (list_find _ l) as [[idx v]|] eqn:E; [|vm_compute; discriminate].
    apply list_find_Some in E as (E & _). apply lookup_lt_Some in E.
    assert (Hi : 0 < blen l - Z.of_nat idx <= blen l) by (unfold blen; lia).
    assert (1 <= max_voter_priority `div` blen l) by (apply Z.div_le_lower_bound; lia).
    pose proof (Z.mul_div_le max_voter_priority (blen l) ltac:(lia)).
    unfold max_voter_priority in *. rewrite uwrap_id; [nia|]. split; [nia|]. change (2 ^ 32) with 4294967296 in *. nia. }
  destruct (_replica_priority_override t); [case_bool_decide; [lia|done]|done].
Qed.

(** Priorities cannot keep a group without a leader.  Whatever replicas the group has, after
    finitely many elections that were attempted (no leader having been elected in between)
    the priority of every replica meets the target: neither the candidate itself nor a voter
    holds it against a candidate any more. *)
Theorem every_replica_becomes_eligible (l : list vnode) t :
  priority_ok t -> blen l <= max_voter_priority ->
  exists n, forall k, (n <= k)%nat -> forall id,
    _target_priority (Nat.iter k (on_leader_election (blen l)) t) <=
    get_replica_priority (Nat.iter k (on_leader_election (blen l)) t) id l.
Proof.
  intros Hok Hl. assert (Hb : 0 <= blen l < 2 ^ 32) by (pose proof (blen_nonneg l); unfold max_voter_priority in *; lia).
  assert (Hit : forall k, priority_ok (Nat.iter k (on_leader_election (blen l)) t) /\
    _target_priority (Nat.iter k (on_leader_election (blen l)) t) <= 1 `max` (_target_priority t - Z.of_nat k)).
  { induction k as [|k [IH1 IH2]]; [split; [done|cbn; lia]|].
    change (Nat.iter (S k) (on_leader_election (blen l)) t) with
      (on_leader_election (blen l) (Nat.iter k (on_leader_election (blen l)) t)).
    destruct (on_leader_election_ok (blen l) _ IH1 Hb) as [H1 H2]. split; [done|].
    destruct (decide (1 < _target_priority (Nat.iter k (on_leader_election (blen l)) t))) as [Hgt|Hle]; [specialize (H2 Hgt); lia|].
    rewrite on_leader_election_target by done. pose proof (proj1 IH1).
    assert (_target_priority (Nat.iter k (on_leader_election (blen l)) t) = 1) as -> by lia.
    destruct (decide (1 < blen l `max` 1)); [rewrite Z.div_small; lia|].
    replace (blen l `max` 1) with 1 by lia. lia. }
  exists (Z.to_nat (_target_priority t)). intros k Hk id. destruct (Hit k) as [H1 H2].
  pose proof (replica_priority_positive _ id l H1 Hl). lia.
Qed.

Module priority_examples.

Definition tracker := make_tracker (Vnode 1 0) false.

Lemma every_replica_becomes_eligible_witness : exists n, forall k, (n <= k)%nat -> forall id,
  _target_priority (Nat.iter k (on_leader_election 3) tracker) <=
  get_replica_priority (Nat.iter k (on_leader_election 3) tracker) id [Vnode 1 0; Vnode 2 0; Vnode 3 0].
Proof.
  apply (every_replica_becomes_eligible [Vnode 1 0; Vnode 2 0; Vnode 3 0] tracker); concrete.
Defined.

End priority_examples.
