(* ===== verification/RaftState.v ===== *)
(** * The state of a raft group member (raft/consensus.h, raft/follower_states.{h,cc},
    raft/types.h)

    [consensus] holds the members of the class that elections, replication and commitment
    read and write, in three groups: the election state, the indices of the log, and the
    rest.  The log is its sequence of batches as raft sees them, which is what
    [storage::log] promises to the caller; the file layout under it is not modelled.

    Clock readings are integers, [time_min] and [time_max] the ends of the clock's range. *)

From S2P Require Import Prelude OffsetTranslator GroupConfiguration ConfigurationManager VoterPriority.

Definition no_term : Z := int64_min.
Definition time_min : Z := int64_min.
Definition time_max : Z := int64_max.

(** ** The log *)

(** A batch with its offsets, the term it was appended in, its size, and the configuration
    it holds if it is a configuration batch. *)
Record log_batch := {
  lb_base_offset : Z;
  lb_last_offset : Z;
  lb_term : Z;
  lb_bytes : Z;
  lb_configuration : option group_configuration;
}.

Record raft_log := { lg_start_offset : Z; lg_batches : list log_batch }.

Record offset_stats := { start_offset : Z; dirty_offset : Z; dirty_offset_term : Z }.

Definition offsets (l : raft_log) : offset_stats :=
  match last (lg_batches l) with
  | None => {| start_offset := lg_start_offset l;
               dirty_offset := if lg_start_offset l >? 0 then lg_start_offset l - 1 else no_offset;
               dirty_offset_term := no_term |}
  | Some b =>
      {| start_offset := if lg_start_offset l >=? 0 then lg_start_offset l
                         else match lg_batches l with e :: _ => lb_base_offset e | [] => no_offset end;
         dirty_offset := lb_last_offset b;
         dirty_offset_term := lb_term b |}
  end.

(** [log::get_term]: the term of the first batch that reaches the offset. *)
Definition log_get_term (l : raft_log) (o : Z) : option Z :=
  match list_find (fun b => o <= lb_last_offset b) (lg_batches l) with
  | Some (_, b) => if lg_start_offset l <=? o then Some (lb_term b) else None
  | None => None
  end.

(** [log::truncate]: keeps the batches before the offset. *)
Definition log_truncate (o : Z) (l : raft_log) : raft_log :=
  {| lg_start_offset := lg_start_offset l;
     lg_batches := filter (fun b => lb_last_offset b < o) (lg_batches l) |}.

(** A batch that is to be appended: its offsets are assigned by the log. *)
Record entry := {
  e_last_offset_delta : Z;
  e_term : Z;
  e_bytes : Z;
  e_configuration : option group_configuration;
}.

Definition log_append_one (l : raft_log) (e : entry) : raft_log :=
  let base := next_offset (dirty_offset (offsets l)) in
  {| lg_start_offset := lg_start_offset l;
     lg_batches := lg_batches l ++
       [{| lb_base_offset := base; lb_last_offset := base + e_last_offset_delta e; lb_term := e_term e;
           lb_bytes := e_bytes e; lb_configuration := e_configuration e |}] |}.

Definition log_append (l : raft_log) (es : list entry) : raft_log := fold_left log_append_one es l.

(** ** Followers *)

Record follower_index_metadata := {
  last_flushed_log_index : Z;
  last_dirty_log_index : Z;
  match_index : Z;
  next_index : Z;
  expected_log_end_offset : Z;
  last_received_reply_timestamp : Z;
  heartbeats_failed : Z;
  last_sent_seq : Z;
  last_received_seq : Z;
  last_successful_received_seq : Z;
  is_learner : bool;
  is_recovering : bool;
  inflight_append_request_count : Z;
}.

Definition make_follower : follower_index_metadata :=
  {| last_flushed_log_index := no_offset; last_dirty_log_index := no_offset; match_index := no_offset;
     next_index := no_offset; expected_log_end_offset := no_offset; last_received_reply_timestamp := 0;
     heartbeats_failed := 0; last_sent_seq := 0; last_received_seq := 0; last_successful_received_seq := 0;
     is_learner := true; is_recovering := false; inflight_append_request_count := 0 |}.

Definition match_committed_index (f : follower_index_metadata) : Z :=
  last_flushed_log_index f `min` match_index f.

(** [follower_index_metadata::reset]. *)
Definition follower_reset (f : follower_index_metadata) : follower_index_metadata :=
  {| last_flushed_log_index := no_offset; last_dirty_log_index := no_offset; match_index := no_offset;
     next_index := no_offset; expected_log_end_offset := no_offset;
     last_received_reply_timestamp := last_received_reply_timestamp f;
     heartbeats_failed := 0; last_sent_seq := 0; last_received_seq := 0; last_successful_received_seq := 0;
     is_learner := is_learner f; is_recovering := is_recovering f; inflight_append_request_count := 0 |}.

Definition as_voter (f : follower_index_metadata) : follower_index_metadata :=
  {| last_flushed_log_index := last_flushed_log_index f; last_dirty_log_index := last_dirty_log_index f;
     match_index := match_index f; next_index := next_index f;
     expected_log_end_offset := expected_log_end_offset f;
     last_received_reply_timestamp := last_received_reply_timestamp f;
     heartbeats_failed := heartbeats_failed f; last_sent_seq := last_sent_seq f;
     last_received_seq := last_received_seq f; last_successful_received_seq := last_successful_received_seq f;
     is_learner := false; is_recovering := is_recovering f;
     inflight_append_request_count := inflight_append_request_count f |}.

Abbreviation follower_states := (gmap vnode follower_index_metadata).

(** [follower_states::update_with_configuration]: the followers become the other replicas;
    voters are marked as such. *)
Definition update_with_configuration `{HashOrder} (self : vnode) (c : group_configuration)
    (fs : follower_states) : res follower_states :=
  let added := fold_left (fun fs v => if bool_decide (v = self \/ is_Some (fs !! v)) then fs
                                      else <[v := make_follower]> fs) (_all_replicas c) fs in
  marked ← foldr (fun v acc => fs ← acc;
                    if bool_decide (v = self) then Ok fs
                    else f ← deref (fs !! v); Ok (<[v := as_voter f]> fs)) (Ok added) (unique_voter_ids c);
  Ok (filter (fun p => contains c p.1 = true) marked).

(** [follower_recovery_state], as far as this member sees it. *)
Record follower_recovery_state := { fr_active : bool; fr_our_last : Z; fr_leader_last : Z }.

(** ** The member *)

Module vote_state.
Inductive t := follower | candidate | leader.
#[global] Instance t_eq_dec : EqDecision t.
Proof. solve_decision. Defined.
End vote_state.

(** The state of elections. *)
Record election_state := {
  _term : Z;
  _voted_for : vnode;
  _leader_id : option vnode;
  _vstate : vote_state.t;
  _hbeat : Z;
  _became_leader_at : Z;
  _confirmed_term : Z;
}.

(** Offsets the member keeps about its log. *)
Record index_state := {
  _commit_index : Z;
  _flushed_offset : Z;
  _majority_replicated_index : Z;
  _visibility_upper_bound_index : Z;
  _last_quorum_replicated_index_with_flush : Z;
  _last_leader_visible_offset : Z;
}.

(** [stored_vote] is the value under [voted_for_key] in the key-value store. *)
Record consensus := {
  _self : vnode;
  _group : Z;
  elec : election_state;
  indices : index_state;
  _log : raft_log;
  _last_snapshot_index : Z;
  _last_snapshot_term : Z;
  _configuration_manager : configuration_manager;
  _fstates : follower_states;
  _priority_tracker : voter_priority_tracker;
  _follower_recovery_state : option follower_recovery_state;
  _pending_flush_bytes : Z;
  stored_vote : option (vnode * Z);
}.

(** Assignments to one member. *)
Definition set_term (v : Z) (e : election_state) : election_state :=
  {| _term := v; _voted_for := _voted_for e; _leader_id := _leader_id e; _vstate := _vstate e;
     _hbeat := _hbeat e; _became_leader_at := _became_leader_at e;
     _confirmed_term := _confirmed_term e |}.
Definition set_voted_for (v : vnode) (e : election_state) : election_state :=
  {| _term := _term e; _voted_for := v; _leader_id := _leader_id e; _vstate := _vstate e;
     _hbeat := _hbeat e; _became_leader_at := _became_leader_at e;
     _confirmed_term := _confirmed_term e |}.
Definition set_leader_id (v : option vnode) (e : election_state) : election_state :=
  {| _term := _term e; _voted_for := _voted_for e; _leader_id := v; _vstate := _vstate e;
     _hbeat := _hbeat e; _became_leader_at := _became_leader_at e;
     _confirmed_term := _confirmed_term e |}.
Definition set_vstate (v : vote_state.t) (e : election_state) : election_state :=
  {| _term := _term e; _voted_for := _voted_for e; _leader_id := _leader_id e; _vstate := v;
     _hbeat := _hbeat e; _became_leader_at := _became_leader_at e;
     _confirmed_term := _confirmed_term e |}.
Definition set_hbeat (v : Z) (e : election_state) : election_state :=
  {| _term := _term e; _voted_for := _voted_for e; _leader_id := _leader_id e;
     _vstate := _vstate e; _hbeat := v; _became_leader_at := _became_leader_at e;
     _confirmed_term := _confirmed_term e |}.
Definition set_became_leader_at (v : Z) (e : election_state) : election_state :=
  {| _term := _term e; _voted_for := _voted_for e; _leader_id := _leader_id e;
     _vstate := _vstate e; _hbeat := _hbeat e; _became_leader_at := v;
     _confirmed_term := _confirmed_term e |}.
Definition set_confirmed_term (v : Z) (e : election_state) : election_state :=
  {| _term := _term e; _voted_for := _voted_for e; _leader_id := _leader_id e;
     _vstate := _vstate e; _hbeat := _hbeat e; _became_leader_at := _became_leader_at e;
     _confirmed_term := v |}.

Definition set_commit_index (v : Z) (i : index_state) : index_state :=
  {| _commit_index := v; _flushed_offset := _flushed_offset i;
     _majority_replicated_index := _majority_replicated_index i;
     _visibility_upper_bound_index := _visibility_upper_bound_index i;
     _last_quorum_replicated_index_with_flush := _last_quorum_replicated_index_with_flush i;
     _last_leader_visible_offset := _last_leader_visible_offset i |}.
Definition set_flushed_offset (v : Z) (i : index_state) : index_state :=
  {| _commit_index := _commit_index i; _flushed_offset := v;
     _majority_replicated_index := _majority_replicated_index i;
     _visibility_upper_bound_index := _visibility_upper_bound_index i;
     _last_quorum_replicated_index_with_flush := _last_quorum_replicated_index_with_flush i;
     _last_leader_visible_offset := _last_leader_visible_offset i |}.
Definition set_majority_replicated_index (v : Z) (i : index_state) : index_state :=
  {| _commit_index := _commit_index i; _flushed_offset := _flushed_offset i;
     _majority_replicated_index := v;
     _visibility_upper_bound_index := _visibility_upper_bound_index i;
     _last_quorum_replicated_index_with_flush := _last_quorum_replicated_index_with_flush i;
     _last_leader_visible_offset := _last_leader_visible_offset i |}.
Definition set_visibility_upper_bound_index (v : Z) (i : index_state) : index_state :=
  {| _commit_index := _commit_index i; _flushed_offset := _flushed_offset i;
     _majority_replicated_index := _majority_replicated_index i;
     _visibility_upper_bound_index := v;
     _last_quorum_replicated_index_with_flush := _last_quorum_replicated_index_with_flush i;
     _last_leader_visible_offset := _last_leader_visible_offset i |}.
Definition set_last_quorum_replicated_index_with_flush (v : Z) (i : index_state) : index_state :=
  {| _commit_index := _commit_index i; _flushed_offset := _flushed_offset i;
     _majority_replicated_index := _majority_replicated_index i;
     _visibility_upper_bound_index := _visibility_upper_bound_index i;
     _last_quorum_replicated_index_with_flush := v;
     _last_leader_visible_offset := _last_leader_visible_offset i |}.
Definition set_last_leader_visible_offset (v : Z) (i : index_state) : index_state :=
  {| _commit_index := _commit_index i; _flushed_offset := _flushed_offset i;
     _majority_replicated_index := _majority_replicated_index i;
     _visibility_upper_bound_index := _visibility_upper_bound_index i;
     _last_quorum_replicated_index_with_flush := _last_quorum_replicated_index_with_flush i;
     _last_leader_visible_offset := v |}.

Definition set_elec (v : election_state) (c : consensus) : consensus :=
  {| _self := _self c; _group := _group c; elec := v; indices := indices c; _log := _log c;
     _last_snapshot_index := _last_snapshot_index c;
     _last_snapshot_term := _last_snapshot_term c;
     _configuration_manager := _configuration_manager c; _fstates := _fstates c;
     _priority_tracker := _priority_tracker c;
     _follower_recovery_state := _follower_recovery_state c;
     _pending_flush_bytes := _pending_flush_bytes c; stored_vote := stored_vote c |}.
Definition set_indices (v : index_state) (c : consensus) : consensus :=
  {| _self := _self c; _group := _group c; elec := elec c; indices := v; _log := _log c;
     _last_snapshot_index := _last_snapshot_index c;
     _last_snapshot_term := _last_snapshot_term c;
     _configuration_manager := _configuration_manager c; _fstates := _fstates c;
     _priority_tracker := _priority_tracker c;
     _follower_recovery_state := _follower_recovery_state c;
     _pending_flush_bytes := _pending_flush_bytes c; stored_vote := stored_vote c |}.
Definition set_log (v : raft_log) (c : consensus) : consensus :=
  {| _self := _self c; _group := _group c; elec := elec c; indices := indices c; _log := v;
     _last_snapshot_index := _last_snapshot_index c;
     _last_snapshot_term := _last_snapshot_term c;
     _configuration_manager := _configuration_manager c; _fstates := _fstates c;
     _priority_tracker := _priority_tracker c;
     _follower_recovery_state := _follower_recovery_state c;
     _pending_flush_bytes := _pending_flush_bytes c; stored_vote := stored_vote c |}.
Definition set_last_snapshot_index (v : Z) (c : consensus) : consensus :=
  {| _self := _self c; _group := _group c; elec := elec c; indices := indices c; _log := _log c;
     _last_snapshot_index := v; _last_snapshot_term := _last_snapshot_term c;
     _configuration_manager := _configuration_manager c; _fstates := _fstates c;
     _priority_tracker := _priority_tracker c;
     _follower_recovery_state := _follower_recovery_state c;
     _pending_flush_bytes := _pending_flush_bytes c; stored_vote := stored_vote c |}.
Definition set_last_snapshot_term (v : Z) (c : consensus) : consensus :=
  {| _self := _self c; _group := _group c; elec := elec c; indices := indices c; _log := _log c;
     _last_snapshot_index := _last_snapshot_index c; _last_snapshot_term := v;
     _configuration_manager := _configuration_manager c; _fstates := _fstates c;
     _priority_tracker := _priority_tracker c;
     _follower_recovery_state := _follower_recovery_state c;
     _pending_flush_bytes := _pending_flush_bytes c; stored_vote := stored_vote c |}.
Definition set_configuration_manager (v : configuration_manager) (c : consensus) : consensus :=
  {| _self := _self c; _group := _group c; elec := elec c; indices := indices c; _log := _log c;
     _last_snapshot_index := _last_snapshot_index c;
     _last_snapshot_term := _last_snapshot_term c; _configuration_manager := v;
     _fstates := _fstates c; _priority_tracker := _priority_tracker c;
     _follower_recovery_state := _follower_recovery_state c;
     _pending_flush_bytes := _pending_flush_bytes c; stored_vote := stored_vote c |}.
Definition set_fstates (v : follower_states) (c : consensus) : consensus :=
  {| _self := _self c; _group := _group c; elec := elec c; indices := indices c; _log := _log c;
     _last_snapshot_index := _last_snapshot_index c;
     _last_snapshot_term := _last_snapshot_term c;
     _configuration_manager := _configuration_manager c; _fstates := v;
     _priority_tracker := _priority_tracker c;
     _follower_recovery_state := _follower_recovery_state c;
     _pending_flush_bytes := _pending_flush_bytes c; stored_vote := stored_vote c |}.
Definition set_priority_tracker (v : voter_priority_tracker) (c : consensus) : consensus :=
  {| _self := _self c; _group := _group c; elec := elec c; indices := indices c; _log := _log c;
     _last_snapshot_index := _last_snapshot_index c;
     _last_snapshot_term := _last_snapshot_term c;
     _configuration_manager := _configuration_manager c; _fstates := _fstates c;
     _priority_tracker := v; _follower_recovery_state := _follower_recovery_state c;
     _pending_flush_bytes := _pending_flush_bytes c; stored_vote := stored_vote c |}.
Definition set_follower_recovery_state (v : option follower_recovery_state) (c : consensus) : consensus :=
  {| _self := _self c; _group := _group c; elec := elec c; indices := indices c; _log := _log c;
     _last_snapshot_index := _last_snapshot_index c;
     _last_snapshot_term := _last_snapshot_term c;
     _configuration_manager := _configuration_manager c; _fstates := _fstates c;
     _priority_tracker := _priority_tracker c; _follower_recovery_state := v;
     _pending_flush_bytes := _pending_flush_bytes c; stored_vote := stored_vote c |}.
Definition set_pending_flush_bytes (v : Z) (c : consensus) : consensus :=
  {| _self := _self c; _group := _group c; elec := elec c; indices := indices c; _log := _log c;
     _last_snapshot_index := _last_snapshot_index c;
     _last_snapshot_term := _last_snapshot_term c;
     _configuration_manager := _configuration_manager c; _fstates := _fstates c;
     _priority_tracker := _priority_tracker c;
     _follower_recovery_state := _follower_recovery_state c; _pending_flush_bytes := v;
     stored_vote := stored_vote c |}.
Definition set_stored_vote (v : option (vnode * Z)) (c : consensus) : consensus :=
  {| _self := _self c; _group := _group c; elec := elec c; indices := indices c; _log := _log c;
     _last_snapshot_index := _last_snapshot_index c;
     _last_snapshot_term := _last_snapshot_term c;
     _configuration_manager := _configuration_manager c; _fstates := _fstates c;
     _priority_tracker := _priority_tracker c;
     _follower_recovery_state := _follower_recovery_state c;
     _pending_flush_bytes := _pending_flush_bytes c; stored_vote := v |}.

