(* ===== verification/RaftVote.v ===== *)
(** * Elections (raft/vote_stm.{h,cc}, the vote handlers of raft/consensus.cc)

    A member that has not heard of a leader runs a [vote_stm], first in a pre-vote phase,
    which does not change its term, and then for the next term.  The other members answer
    with [do_vote].  Both run under the member's lock and are single steps here; what
    happens between a candidate's two locked parts (its first and [update_vote_state]) is
    the arrival of replies, which [process_replies] waits for.

    [now] is the reading of the clock and [base_duration] the election timeout;
    [write_outcome] is what the key-value store answers to a write of the vote. *)

From S2P Require Import Prelude Errors OffsetTranslator GroupConfiguration ConfigurationManager VoterPriority RaftState.

(** ** Messages *)

Record vote_request := {
  vr_node_id : vnode;
  vr_target_node_id : vnode;
  vr_group : Z;
  vr_term : Z;
  vr_prev_log_index : Z;
  vr_prev_log_term : Z;
  vr_leadership_transfer : bool;
}.

Record vote_reply := {
  rp_target_node_id : vnode;
  rp_term : Z;
  rp_granted : bool;
  rp_log_ok : bool;
  rp_node_id : vnode;
}.

#[global] Instance vote_request_eq_dec : EqDecision vote_request.
Proof. solve_decision. Defined.
#[global] Instance vote_reply_eq_dec : EqDecision vote_reply.
Proof. solve_decision. Defined.

(** ** Common parts of consensus.cc *)

Definition is_elected_leader (c : consensus) : bool := bool_decide (_vstate (elec c) = vote_state.leader).

Definition config (c : consensus) : res group_configuration := get_latest (_configuration_manager c).

(** Assignments to the election state. *)
Definition with_election (f : election_state -> election_state) (c : consensus) : consensus :=
  set_elec (f (elec c)) c.

Definition do_step_down (now : Z) (c : consensus) : consensus :=
  with_election (fun e => set_vstate vote_state.follower (set_hbeat now e))
    (set_fstates (follower_reset <$> _fstates c) c).

(** [trigger_leadership_notification]: a member that recovers and has lost its leader yields. *)
Definition trigger_leadership_notification (c : consensus) : consensus :=
  match _follower_recovery_state c, _leader_id (elec c) with
  | Some r, None => set_follower_recovery_state
      (Some {| fr_active := false; fr_our_last := fr_our_last r; fr_leader_last := fr_leader_last r |}) c
  | _, _ => c
  end.

Definition clear_leader (c : consensus) : consensus :=
  match _leader_id (elec c) with
  | Some _ => trigger_leadership_notification (with_election (set_leader_id None) c)
  | None => c
  end.

(** [step_down(term, ...)]. *)
Definition step_down (now term : Z) (c : consensus) : consensus :=
  if _term (elec c) <? term
  then do_step_down now (with_election (fun e => set_voted_for no_vnode (set_term term e)) c)
  else c.

Definition get_last_entry_term (c : consensus) : res Z :=
  let st := offsets (_log c) in
  if start_offset st <=? dirty_offset st then Ok (dirty_offset_term st)
  else _ ← vassert (_last_snapshot_index c =? dirty_offset st); Ok (_last_snapshot_term c).

(** [write_voted_for]: the write may fail, and a write that failed may have taken effect. *)
Inductive write_outcome := WriteOk | WriteFailed (stored : bool).

Definition write_voted_for (w : write_outcome) (v : vnode) (term : Z) (c : consensus) : consensus * bool :=
  match w with
  | WriteOk => (set_stored_vote (Some (v, term)) c, true)
  | WriteFailed true => (set_stored_vote (Some (v, term)) c, false)
  | WriteFailed false => (c, false)
  end.

(** [read_voted_for] and what [do_start] makes of the terms of the snapshot and the log. *)
Definition read_voted_for (c : consensus) : consensus :=
  match stored_vote c with
  | Some (v, t) => with_election (fun e => set_voted_for v (set_term t e)) c
  | None => with_election (fun e => set_voted_for no_vnode (set_term 0 e)) c
  end.

Definition adjust_term_to_snapshot (c : consensus) : consensus :=
  if _term (elec c) <? _last_snapshot_term c
  then with_election (set_term (_last_snapshot_term c)) c else c.

Definition adjust_term_to_log (c : consensus) : consensus :=
  let t := dirty_offset_term (offsets (_log c)) in
  if _term (elec c) <? t
  then with_election (fun e => set_voted_for no_vnode (set_term t e)) c else c.

(** The election state of a restarted member. *)
Definition restart_election (c : consensus) : consensus :=
  with_election (set_hbeat time_min)
    (adjust_term_to_log (adjust_term_to_snapshot (read_voted_for
      (with_election (fun e => set_leader_id None (set_vstate vote_state.follower e)) c)))).

(** ** The candidate's tally *)

(** A reply, or the error code of a request that failed. *)
Abbreviation reply_result := (vote_reply + raft_errc.t)%type.

Record vote_stm := {
  vs_prevote : bool;
  vs_req : vote_request;
  vs_config : group_configuration;
  vs_replies : gmap vnode (option reply_result);
  vs_success : bool;
  vs_blocked_when_started : bool;
}.

Module vmeta_state.
Inductive t := in_progress | log_ok | vote_granted | vote_not_granted | error.
#[global] Instance t_eq_dec : EqDecision t.
Proof. solve_decision. Defined.
End vmeta_state.

(** ** Voters *)

Section vote.
Context (now base_duration : Z).

(** The caller's log is as up to date as this member's. *)
Definition log_is_ok (r : vote_request) (last_entry_term last_log_index : Z) : bool :=
  (last_entry_term <? vr_prev_log_term r) ||
  ((vr_prev_log_term r =? last_entry_term) && (last_log_index <=? vr_prev_log_index r)).

Definition make_reply (c : consensus) (r : vote_request) (term : Z) (granted log_ok : bool) : vote_reply :=
  {| rp_target_node_id := vr_node_id r; rp_term := term; rp_granted := granted; rp_log_ok := log_ok;
     rp_node_id := _self c |}.

(** The end of [do_vote]: the vote itself.  [_hbeat] is only set if the term has changed, that
    is, not for a pre-vote. *)
Definition cast_vote (w : write_outcome) (r : vote_request) (term_changed : bool) (c : consensus) :
    consensus * vote_reply :=
  let reply g := make_reply c r (_term (elec c)) g true in
  let heard c (g : bool) := if g && term_changed then with_election (set_hbeat now) c else c in
  if vn_id (_voted_for (elec c)) <? 0 then
    let '(c', ok) := write_voted_for w (vr_node_id r) (_term (elec c)) c in
    if (ok : bool) then (heard (with_election (set_voted_for (vr_node_id r)) c') true, reply true)
    else (c', reply false)
  else
    let granted := bool_decide (vr_node_id r = _voted_for (elec c)) in
    (heard c granted, reply granted).

Definition do_vote (w : write_outcome) (r : vote_request) (c : consensus) : res (consensus * vote_reply) :=
  let reply := make_reply c r (_term (elec c)) in
  let lstats := offsets (_log c) in
  last_entry_term ← get_last_entry_term c;
  if negb (bool_decide (vr_target_node_id r = _self c)) then Ok (c, reply false false)
  (* a peer that restarted, to which heartbeats fail: reset its backoff *)
  else if is_elected_leader c && (vr_term r <=? _term (elec c)) &&
          match _fstates c !! vr_node_id r with Some f => negb (heartbeats_failed f =? 0) | None => false end
  then Ok (c, reply false false)
  (* stable leadership *)
  else if (now - base_duration <? _hbeat (elec c)) && negb (vr_leadership_transfer r) &&
          negb (bool_decide (vr_node_id r = _voted_for (elec c)))
  then Ok (c, reply false false)
  else
    let log_ok := log_is_ok r last_entry_term (dirty_offset lstats) in
    if vr_term r <? _term (elec c) then Ok (c, reply false log_ok)
    else
      cfg ← config c;
      let n_priority := get_replica_priority (_priority_tracker c) (vr_node_id r) (_all_replicas cfg) in
      if (n_priority <? _target_priority (_priority_tracker c)) && negb (vr_leadership_transfer r)
      then Ok (c, reply false log_ok)
      else if _term (elec c) <? vr_term r then
        let c := clear_leader (do_step_down now
                   (with_election (fun e => set_voted_for no_vnode (set_term (vr_term r) e)) c)) in
        if negb log_ok then
          Ok (with_election (set_hbeat time_min) c, make_reply c r (vr_term r) false false)
        else Ok (cast_vote w r true c)
      else if negb log_ok then Ok (c, reply false false)
      else Ok (cast_vote w r false c).

(** ** Candidates *)

Definition should_skip_vote (ignore_heartbeat : bool) (c : consensus) : bool :=
  (negb ignore_heartbeat && (now - base_duration <? _hbeat (elec c))) || is_elected_leader c.

(** What [dispatch_vote] decides before it starts an election, and the target priority it
    leaves behind. *)
Definition dispatch_vote `{HashOrder} (leadership_transfer : bool) (c : consensus) : res (consensus * bool) :=
  if should_skip_vote leadership_transfer c then Ok (c, false)
  else
    cfg ← config c;
    let t := _priority_tracker c in
    let too_low := get_replica_priority t (_self c) (_all_replicas cfg) <? _target_priority t in
    let c := set_priority_tracker (on_leader_election (blen (_all_replicas cfg)) t) c in
    if negb (is_allowed_to_request_votes cfg (_self c)) then Ok (c, false)
    else
      let is_only_voter := (unique_voter_count cfg =? 1) && is_voter cfg (_self c) in
      Ok (c, negb (too_low && negb leadership_transfer && negb is_only_voter)).

Definition request_term (s : vote_stm) : Z := vr_term (vs_req s).

Definition reply_state (s : vote_stm) (v : option reply_result) : vmeta_state.t :=
  match v with
  | None => vmeta_state.in_progress
  | Some (inl r) =>
      if negb (rp_term r =? request_term s) then vmeta_state.vote_not_granted
      else if rp_granted r then vmeta_state.vote_granted
      else if rp_log_ok r then vmeta_state.log_ok
      else vmeta_state.vote_not_granted
  | Some (inr _) => vmeta_state.error
  end.

Definition has_more_up_to_date_log (v : option reply_result) : bool :=
  match v with Some (inl r) => negb (rp_log_ok r) | _ => false end.

(** The state of a voter's reply; every voter has an entry. *)
Definition get_state_of (s : vote_stm) (id : vnode) : vmeta_state.t :=
  reply_state s (default None (vs_replies s !! id)).

Definition state_is (s : vote_stm) (t : vmeta_state.t) (id : vnode) : bool := bool_decide (get_state_of s id = t).

Definition set_value (id : vnode) (v : reply_result) (s : vote_stm) : vote_stm :=
  {| vs_prevote := vs_prevote s; vs_req := vs_req s; vs_config := vs_config s;
     vs_replies := <[id := Some v]> (vs_replies s); vs_success := vs_success s;
     vs_blocked_when_started := vs_blocked_when_started s |}.

Definition set_success (b : bool) (s : vote_stm) : vote_stm :=
  {| vs_prevote := vs_prevote s; vs_req := vs_req s; vs_config := vs_config s;
     vs_replies := vs_replies s; vs_success := b; vs_blocked_when_started := vs_blocked_when_started s |}.

(** [vote_stm::vote] up to the point where requests are sent, with [self_vote]. *)
Inductive prepare_election_result :=
  | skip_election
  | immediate_success
  | self_vote_failed
  | proceed_with_election (s : vote_stm).

Definition vote_prepare `{HashOrder} (w : write_outcome) (prevote blocked_when_started leadership_transfer : bool)
    (c : consensus) : res (consensus * prepare_election_result) :=
  cfg ← config c;
  if should_skip_vote leadership_transfer c then Ok (c, skip_election)
  else
    let c := clear_leader (with_election (set_vstate vote_state.candidate) c) in
    if prevote && leadership_transfer then Ok (c, immediate_success)
    else
      let c := if prevote then c
               else with_election (fun e => set_voted_for no_vnode (set_term (_term e + 1) e)) c in
      last_entry_term ← get_last_entry_term c;
      let req := {| vr_node_id := _self c; vr_target_node_id := no_vnode; vr_group := _group c;
                    vr_term := _term (elec c); vr_prev_log_index := dirty_offset (offsets (_log c));
                    vr_prev_log_term := last_entry_term; vr_leadership_transfer := leadership_transfer |} in
      let self_reply := {| rp_target_node_id := no_vnode; rp_term := vr_term req; rp_granted := true;
                           rp_log_ok := true; rp_node_id := no_vnode |} in
      let s := {| vs_prevote := prevote; vs_req := req; vs_config := cfg;
                  vs_replies := <[_self c := Some (inl self_reply)]>
                    (list_to_map ((fun id => (id, None)) <$> unique_voter_ids cfg));
                  vs_success := false; vs_blocked_when_started := blocked_when_started |} in
      if prevote then Ok (c, proceed_with_election s)
      else
        let c := with_election (set_voted_for (_self c)) c in
        let '(c, ok) := write_voted_for w (_self c) (vr_term req) c in
        Ok (c, if (ok : bool) then proceed_with_election s else self_vote_failed).

(** The request that is sent to a voter ([do_dispatch_one]). *)
Definition request_to (s : vote_stm) (n : vnode) : vote_request :=
  {| vr_node_id := vr_node_id (vs_req s); vr_target_node_id := n; vr_group := vr_group (vs_req s);
     vr_term := vr_term (vs_req s); vr_prev_log_index := vr_prev_log_index (vs_req s);
     vr_prev_log_term := vr_prev_log_term (vs_req s);
     vr_leadership_transfer := vr_leadership_transfer (vs_req s) |}.

(** [validate_reply_target_node]. *)
Definition validate_reply (self : vnode) (requested : Z) (r : vote_reply) : reply_result :=
  if negb (bool_decide (rp_node_id r = no_vnode)) && negb (vn_id (rp_node_id r) =? requested)
  then inr raft_errc.invalid_target_node
  else if negb (bool_decide (rp_target_node_id r = self)) then
    if vn_id (rp_target_node_id r) =? int32_min then inr raft_errc.group_not_exists else inr raft_errc.invalid_target_node
  else inl r.

Definition has_request_in_progress (s : vote_stm) : bool :=
  existsb (fun p => bool_decide (reply_state s p.2 = vmeta_state.in_progress)) (map_to_list (vs_replies s)).

(** One round of the loop of [process_replies]: the election is decided, or a reply is waited
    for.  [can_wait_for_all] says that the time to wait for all replies has not passed. *)
Inductive replies_progress := decided (success : bool) | wait_for_reply.

Definition process_replies (can_wait_for_all longest_log_detection : bool) (s : vote_stm) : replies_progress :=
  let in_progress := has_request_in_progress s in
  let detect := (negb in_progress || can_wait_for_all) && longest_log_detection in
  if detect && in_progress then wait_for_reply
  else if detect && existsb (fun p => has_more_up_to_date_log p.2) (map_to_list (vs_replies s))
  then decided false
  else if majority (vs_config s) (fun id =>
            if vs_prevote s then state_is s vmeta_state.log_ok id || state_is s vmeta_state.vote_granted id
            else state_is s vmeta_state.vote_granted id)
  then decided true
  else if majority (vs_config s) (fun id =>
            negb (state_is s vmeta_state.vote_granted id) && negb (state_is s vmeta_state.in_progress id))
  then decided false
  else if negb in_progress then decided false
  else wait_for_reply.

(** [fail_election]. *)
Definition fail_election (c : consensus) : res consensus :=
  _ ← vassert (negb (is_elected_leader c) && negb (_hbeat (elec c) =? time_max));
  Ok (with_election (set_vstate vote_state.follower) c).

(** The first reply, in the order of the map, with a larger term. *)
Definition larger_term `{HashOrder} (s : vote_stm) (term : Z) : option Z :=
  head (omap (fun id => match vs_replies s !! id with
                        | Some (Some (inl r)) => if term <? rp_term r then Some (rp_term r) else None
                        | _ => None
                        end) (hash_order (map_to_list (vs_replies s)).*1)).

(** [update_vote_state] up to the replication of the configuration by the new leader. *)
Definition update_vote_state `{HashOrder} (s : vote_stm) (c : consensus) : res consensus :=
  match larger_term s (_term (elec c)) with
  | Some t => fail_election (with_election (fun e => set_voted_for no_vnode (set_term t e)) c)
  | None =>
      if negb (bool_decide (_vstate (elec c) = vote_state.candidate)) || negb (_term (elec c) =? request_term s)
      then Ok c
      else if negb (vs_success s) then fail_election c
      else if vs_prevote s then Ok c
      else
        let only_voter := (unique_voter_count (vs_config s) =? 1) && is_voter (vs_config s) (_self c) in
        let blocked_while_voting := negb (vs_blocked_when_started s) && is_blocked (_priority_tracker c) in
        if negb only_voter && blocked_while_voting then fail_election c
        else
          let c := with_election (fun e => set_vstate vote_state.leader (set_leader_id (Some (_self c))
                     (set_became_leader_at now (set_hbeat time_max e)))) c in
          let c := set_priority_tracker (on_successful_leader_election (_priority_tracker c))
                     (set_follower_recovery_state None c) in
          Ok (set_indices (set_last_quorum_replicated_index_with_flush
                (_flushed_offset (indices c)) (indices c)) c)
  end.

End vote.
