(* ===== verification/RaftElection.v ===== *)
(** * Safety of elections

    The members of a group exchange vote requests and replies over a network that loses,
    delays, repeats and reorders messages; they crash and restart, their disk refuses writes
    of the vote, their logs, snapshots and configurations change, and they learn of larger
    terms.  [step] is one such event: the code of [vote_stm] and [do_vote] runs as
    RaftVote.v defines it, and [housekeeping] says what the rest of [consensus] may do to
    the fields that elections use.

    [election_safety] is raft's: in a term, configurations whose majorities meet elect at
    most one leader.  It rests on [ballot_ok], which says how a member remembers its vote:
    in memory, and on disk through a restart. *)

From stdpp Require Import functions.
From S2P Require Import Prelude Errors OffsetTranslator GroupConfiguration GroupConfigurationProps ConfigurationManager VoterPriority RaftState RaftVote.

(** ** What a member knows of its vote *)

(** The part of a member's state that votes depend on. *)
Record ballot := {
  b_term : Z;
  b_voted : vnode;
  b_stored : option (vnode * Z);
  b_snapshot_term : Z;
  b_log_term : Z;
}.

Definition ballot_of (c : consensus) : ballot :=
  {| b_term := _term (elec c); b_voted := _voted_for (elec c); b_stored := stored_vote c;
     b_snapshot_term := _last_snapshot_term c; b_log_term := dirty_offset_term (offsets (_log c)) |}.

(** The term and the vote that the key-value store and the snapshot give after a restart. *)
Definition durable_term (b : ballot) : Z := default 0 (snd <$> b_stored b) `max` b_snapshot_term b.
Definition durable_vote (b : ballot) : vnode := default no_vnode (fst <$> b_stored b).

Definition raise (t : Z) (b : ballot) : ballot :=
  {| b_term := t; b_voted := no_vnode; b_stored := b_stored b; b_snapshot_term := b_snapshot_term b;
     b_log_term := b_log_term b |}.
Definition store (v : vnode) (b : ballot) : ballot :=
  {| b_term := b_term b; b_voted := b_voted b; b_stored := Some (v, b_term b);
     b_snapshot_term := b_snapshot_term b; b_log_term := b_log_term b |}.
Definition adopt (v : vnode) (b : ballot) : ballot :=
  {| b_term := b_term b; b_voted := v; b_stored := b_stored b; b_snapshot_term := b_snapshot_term b;
     b_log_term := b_log_term b |}.

(** A restarted member. *)
Definition recover (b : ballot) : ballot :=
  if durable_term b <? b_log_term b then raise (b_log_term b) b
  else {| b_term := durable_term b; b_voted := durable_vote b; b_stored := b_stored b;
          b_snapshot_term := b_snapshot_term b; b_log_term := b_log_term b |}.

(** Votes: voter, term, candidate. *)
Abbreviation ballots := (list (vnode * Z * vnode)).

(** The votes of [n] are remembered in memory and on disk.  A vote for another member that
    is in memory is durable; a vote for itself may not be, if writing it failed. *)
Record ballot_ok (n : vnode) (vs : ballots) (b : ballot) : Prop := {
  bo_durable : durable_term b <= b_term b;
  bo_log : b_log_term b <= b_term b;
  bo_voted : 0 <= vn_id (b_voted b) -> b_voted b <> n ->
    durable_term b = b_term b /\ durable_vote b = b_voted b;
  bo_votes t x : (n, t, x) ∈ vs -> 0 <= vn_id x /\ t <= durable_term b /\
    (t = durable_term b -> durable_vote b = x) /\ (t = b_term b -> b_voted b = x);
}.

Definition one_vote_per_term (vs : ballots) : Prop :=
  forall n t x y, (n, t, x) ∈ vs -> (n, t, y) ∈ vs -> x = y.

Section ballots.
Implicit Types (n x : vnode) (b : ballot) (vs : ballots).

Lemma raise_ok n vs b t : ballot_ok n vs b -> b_term b < t -> ballot_ok n vs (raise t b).
Proof.
  intros [Hd Hl Hv Hs] Ht. split; unfold durable_term, durable_vote in *; cbn in *; [lia..|by intros []|].
  - intros t' x Hx. destruct (Hs t' x Hx) as (? & ? & ? & ?). split_and!; [done..|lia].
Qed.

Lemma store_ok n vs b x : ballot_ok n vs b -> vn_id (b_voted b) < 0 -> ballot_ok n vs (store x b).
Proof.
  intros [Hd Hl Hv Hs] Hneg. assert (b_snapshot_term b <= b_term b) by (unfold durable_term in Hd; lia).
  assert (E : durable_term (store x b) = b_term b) by (unfold durable_term; cbn; lia).
  split; rewrite ?E; cbn; [lia..| |].
  - lia.
  - intros t y Hy. destruct (Hs t y Hy) as (Hy0 & Ht & _ & Hm).
    split_and!; [done|lia| |done]. intros ->. rewrite Hm in Hneg by done. lia.
Qed.

Lemma adopt_ok n vs b x : ballot_ok n vs b ->
  durable_term b = b_term b -> durable_vote b = x -> ballot_ok n vs (adopt x b).
Proof.
  intros [Hd Hl Hv Hs] Et Ex. split; unfold durable_term, durable_vote in *; cbn in *; [done..|].
  intros t y Hy. destruct (Hs t y Hy) as (? & ? & Hy' & ?). split_and!; [done..|].
  intros ->. rewrite <- Hy' by done. done.
Qed.

(** A candidate may hold a vote for itself that was not stored. *)
Lemma adopt_self_ok n vs b : ballot_ok n vs b -> vn_id (b_voted b) < 0 -> ballot_ok n vs (adopt n b).
Proof.
  intros [Hd Hl Hv Hs] Hneg. split; unfold durable_term, durable_vote in *; cbn in *; [done..|].
  intros t y Hy. destruct (Hs t y Hy) as (? & ? & ? & Hm). split_and!; [done..|].
  intros ->. rewrite Hm in Hneg by done. lia.
Qed.

Lemma recover_ok n vs b : ballot_ok n vs b -> ballot_ok n vs (recover b).
Proof.
  intros [Hd Hl Hv Hs]. unfold recover. destruct (Z.ltb_spec (durable_term b) (b_log_term b)).
  - split; unfold durable_term, durable_vote in *; cbn in *; [lia..|by intros []|].
    intros t x Hx. destruct (Hs t x Hx) as (? & ? & ? & ?). split_and!; [done..|lia].
  - split; unfold durable_term, durable_vote in *; cbn in *; [lia..|done|].
    intros t x Hx. destruct (Hs t x Hx) as (? & ? & ? & ?). done.
Qed.

(** A vote that is durable and in memory may be given away. *)
Lemma grant_ok n vs b : ballot_ok n vs b -> 0 <= vn_id (b_voted b) ->
  durable_term b = b_term b -> durable_vote b = b_voted b ->
  ballot_ok n (vs ++ [(n, b_term b, b_voted b)]) b.
Proof.
  intros [Hd Hl Hv Hs] H0 Et Ex. split; [done..|]. intros t x [Hx|Hx]%elem_of_app; [by apply Hs|].
  apply list_elem_of_singleton in Hx. simplify_eq. split_and!; [done|lia|done|done].
Qed.

Lemma grant_unique n vs b : ballot_ok n vs b -> one_vote_per_term vs ->
  one_vote_per_term (vs ++ [(n, b_term b, b_voted b)]).
Proof.
  intros Hb Hu m t x y [Hx|Hx]%elem_of_app [Hy|Hy]%elem_of_app; [by eapply Hu| | |];
    try (apply list_elem_of_singleton in Hx; simplify_eq); try (apply list_elem_of_singleton in Hy; simplify_eq); [| |done].
  - symmetry. by apply (bo_votes _ _ _ Hb _ _ Hx).
  - by apply (bo_votes _ _ _ Hb _ _ Hy).
Qed.

Lemma other_vote_ok n vs b m t x : m <> n -> ballot_ok n vs b -> ballot_ok n (vs ++ [(m, t, x)]) b.
Proof.
  intros Hm [Hd Hl Hv Hs]. split; [done..|]. intros t' y [Hy|Hy]%elem_of_app; [by apply Hs|].
  apply list_elem_of_singleton in Hy. by simplify_eq.
Qed.

(** Logs and snapshots change. *)
Lemma housekeeping_ok n vs b b' : ballot_ok n vs b ->
  b_term b' = b_term b -> b_voted b' = b_voted b -> b_stored b' = b_stored b ->
  b_snapshot_term b <= b_snapshot_term b' <= b_term b -> b_log_term b' <= b_term b ->
  ballot_ok n vs b'.
Proof.
  intros [Hd Hl Hv Hs] Et Ev Es Hsn Hlo. unfold durable_term, durable_vote in *.
  split; unfold durable_term, durable_vote; rewrite ?Et, ?Ev, ?Es; [lia|done| |].
  - intros H0 Hn. destruct (Hv H0 Hn). split; [lia|done].
  - intros t x Hx. destruct (Hs t x Hx) as (? & ? & Hdv & Hm). split_and!; [done|lia| |done].
    intros Ht. destruct (decide (t = default 0 (snd <$> b_stored b) `max` b_snapshot_term b)) as [?|Hne]; [by apply Hdv|].
    exfalso. lia.
Qed.
End ballots.

(** ** What the code does to a ballot *)

Lemma do_step_down_ballot now c : ballot_of (do_step_down now c) = ballot_of c.
Proof. reflexivity. Qed.

Lemma trigger_ballot c : ballot_of (trigger_leadership_notification c) = ballot_of c /\
  _self (trigger_leadership_notification c) = _self c /\
  _vstate (elec (trigger_leadership_notification c)) = _vstate (elec c).
Proof.
  unfold trigger_leadership_notification. destruct (_follower_recovery_state c), (_leader_id (elec c)); done.
Qed.

Lemma clear_leader_ballot c : ballot_of (clear_leader c) = ballot_of c /\
  _self (clear_leader c) = _self c /\ _vstate (elec (clear_leader c)) = _vstate (elec c).
Proof.
  unfold clear_leader. destruct (_leader_id (elec c)); [|done].
  destruct (trigger_ballot (with_election (set_leader_id None) c)) as (-> & -> & ->). done.
Qed.

Lemma restart_ballot c : ballot_of (restart_election c) = recover (ballot_of c).
Proof.
  destruct c as [sf g e i l si st cm fs pt fr pb [[v t]|]];
  unfold restart_election, adjust_term_to_log, adjust_term_to_snapshot, read_voted_for, recover,
    durable_term, durable_vote, ballot_of, raise; cbn -[offsets].
  - destruct (Z.ltb_spec t st); cbn -[offsets].
    + rewrite Z.max_r by lia. destruct (_ <? _); reflexivity.
    + rewrite Z.max_l by lia. destruct (_ <? _); reflexivity.
  - destruct (Z.ltb_spec 0 st); cbn -[offsets].
    + rewrite Z.max_r by lia. destruct (_ <? _); reflexivity.
    + rewrite Z.max_l by lia. destruct (_ <? _); reflexivity.
Qed.

Lemma restart_self c : _self (restart_election c) = _self c.
Proof.
  unfold restart_election, adjust_term_to_log, adjust_term_to_snapshot, read_voted_for.
  repeat case_match; reflexivity.
Qed.

Lemma restart_vstate c : _vstate (elec (restart_election c)) = vote_state.follower.
Proof.
  unfold restart_election, adjust_term_to_log, adjust_term_to_snapshot, read_voted_for.
  repeat case_match; reflexivity.
Qed.

(** The ballot after a vote for [x] was decided on, and whether the vote is granted. *)
Inductive casts (x : vnode) (b : ballot) : bool -> ballot -> Prop :=
  | casts_refused : casts x b false b
  | casts_unstored : vn_id (b_voted b) < 0 -> casts x b false (store x b)
  | casts_again : 0 <= vn_id x -> b_voted b = x -> casts x b true b
  | casts_new : vn_id (b_voted b) < 0 -> casts x b true (adopt x (store x b)).

Lemma cast_vote_casts now w r ch c :
  let '(c', p) := cast_vote now w r ch c in
  casts (vr_node_id r) (ballot_of c) (rp_granted p) (ballot_of c') /\
  rp_term p = _term (elec c) /\ _self c' = _self c /\ _vstate (elec c') = _vstate (elec c) /\
  b_term (ballot_of c') = b_term (ballot_of c).
Proof.
  unfold cast_vote. destruct (Z.ltb_spec (vn_id (_voted_for (elec c))) 0).
  - destruct w as [|[]]; cbn -[ballot_of].
    + destruct ch; (split; [by apply (casts_new _ (ballot_of c))|done]).
    + split; [by apply (casts_unstored _ (ballot_of c))|done].
    + split; [by apply casts_refused|done].
  - case_bool_decide as E; cbn -[ballot_of].
    + destruct ch; (split; [apply casts_again; by rewrite ?E|done]).
    + split; [by apply casts_refused|done].
Qed.

(** A vote request leaves the term alone or raises it to the request's, and then may cast a
    vote. *)
Definition vote_effect (r : vote_request) (c c' : consensus) (p : vote_reply) : Prop :=
  _self c' = _self c /\
  exists b, (b = ballot_of c /\ _vstate (elec c') = _vstate (elec c) \/
             b_term (ballot_of c) < vr_term r /\ b = raise (vr_term r) (ballot_of c) /\
               _vstate (elec c') = vote_state.follower) /\
    casts (vr_node_id r) b (rp_granted p) (ballot_of c') /\
    b_term (ballot_of c') = b_term b /\
    (rp_granted p = true -> vr_target_node_id r = _self c /\ rp_term p = b_term b).

Lemma vote_effect_refused r c p : rp_granted p = false -> vote_effect r c c p.
Proof. intros Hp. split; [done|]. exists (ballot_of c). rewrite Hp. split_and!; [by left|constructor|done..]. Qed.

(** The member after it has seen the request's larger term. *)
Definition raised (now : Z) (r : vote_request) (c : consensus) : consensus :=
  clear_leader (do_step_down now (with_election (fun e => set_voted_for no_vnode (set_term (vr_term r) e)) c)).

Lemma raised_ballot now r c : ballot_of (raised now r c) = raise (vr_term r) (ballot_of c) /\
  _self (raised now r c) = _self c /\ _vstate (elec (raised now r c)) = vote_state.follower.
Proof.
  unfold raised. match goal with |- context [clear_leader ?x] => destruct (clear_leader_ballot x) as (-> & -> & ->) end.
  done.
Qed.

Lemma do_vote_effect now bd w r c c' p : do_vote now bd w r c = Ok (c', p) -> vote_effect r c c' p.
Proof.
  unfold do_vote. intros (lt & _ & Hv)%res_bind_Ok. fold (raised now r c) in Hv.
  assert (Hno : forall p', rp_granted p' = false -> Ok (c, p') = Ok (c', p) -> vote_effect r c c' p).
  { intros p' Hp' ?. simplify_eq. by apply vote_effect_refused. }
  case_bool_decide as Ht; cbn [negb] in Hv; [|by eapply Hno in Hv].
  destruct (is_elected_leader c && _ && _); [by eapply Hno in Hv|].
  destruct (_ && _ && _) in Hv; [by eapply Hno in Hv|].
  destruct (Z.ltb_spec (vr_term r) (_term (elec c))); [by eapply Hno in Hv|].
  apply res_bind_Ok in Hv as (cfg & _ & Hv). destruct (_ && _) in Hv; [by eapply Hno in Hv|].
  destruct (Z.ltb_spec (_term (elec c)) (vr_term r)) as [Hlt|].
  - destruct (raised_ballot now r c) as (Eb & Es & Ev).
    destruct (negb _) in Hv.
    + simplify_eq. split; [done|]. exists (raise (vr_term r) (ballot_of c)). rewrite <- Eb.
      split_and!; [by right|constructor|done..].
    + pose proof (cast_vote_casts now w r true (raised now r c)) as Hc.
      destruct (cast_vote _ _ _ _ _) as [c1 p1]. simplify_eq.
      destruct Hc as (Hc & Hp & Hs & Hst & Hbt). split; [congruence|].
      exists (raise (vr_term r) (ballot_of c)). rewrite <- Eb. split_and!; [right; by rewrite Hst|done..|].
      intros _. split; [done|]. by rewrite Hp.
  - destruct (negb _) in Hv; [by eapply Hno in Hv|].
    pose proof (cast_vote_casts now w r false c) as Hc.
    destruct (cast_vote _ _ _ _ _) as [c1 p1]. simplify_eq.
    destruct Hc as (Hc & Hp & Hs & Hst & Hbt). split; [done|].
    exists (ballot_of c). split_and!; [by left|done..].
Qed.

Lemma step_down_ballot now t c : _self (step_down now t c) = _self c /\
  (step_down now t c = c \/ _term (elec c) < t /\ ballot_of (step_down now t c) = raise t (ballot_of c) /\
   _vstate (elec (step_down now t c)) = vote_state.follower).
Proof. unfold step_down. destruct (Z.ltb_spec (_term (elec c)) t); split; auto. Qed.

(** A candidate raises its term by one and votes for itself; a pre-vote changes nothing. *)
Lemma vote_prepare_effect `{HashOrder} now bd w prevote blocked lt c c' res :
  vote_prepare now bd w prevote blocked lt c = Ok (c', res) ->
  _self c' = _self c /\ (c' = c \/ _vstate (elec c') = vote_state.candidate) /\
  match res with
  | skip_election | immediate_success => ballot_of c' = ballot_of c
  | self_vote_failed =>
      let b := raise (_term (elec c) + 1) (ballot_of c) in
      ballot_of c' = adopt (_self c) b \/ ballot_of c' = adopt (_self c) (store (_self c) b)
  | proceed_with_election s =>
      vr_node_id (vs_req s) = _self c /\ vs_success s = false /\
      (forall m p, vs_replies s !! m = Some (Some (inl p)) -> m = _self c /\ rp_term p = request_term s) /\
      if vs_prevote s then ballot_of c' = ballot_of c
      else let b := raise (_term (elec c) + 1) (ballot_of c) in
           ballot_of c' = adopt (_self c) (store (_self c) b) /\ request_term s = b_term b
  end.
Proof.
  unfold vote_prepare. intros (cfg & _ & Hv)%res_bind_Ok.
  destruct (should_skip_vote _ _ _ _); [simplify_eq; auto|].
  destruct (clear_leader_ballot (with_election (set_vstate vote_state.candidate) c)) as (Eb & Es & Ev).
  set (c1 := clear_leader _) in *. clearbody c1. change (ballot_of (with_election _ c)) with (ballot_of c) in Eb.
  change (_self (with_election _ c)) with (_self c) in Es. cbn in Ev.
  assert (Et : _term (elec c1) = _term (elec c)) by exact (f_equal b_term Eb).
  destruct (prevote && lt) eqn:Epl; [injection Hv as <- <-; split_and!; [done|by right|done]|].
  apply res_bind_Ok in Hv as (t & _ & Hv).
  assert (Hself : forall m p q, <[_self c := Some (inl q)]>
      (list_to_map ((fun id => (id, None)) <$> unique_voter_ids cfg) : gmap vnode (option reply_result)) !! m
      = Some (Some (inl p)) -> m = _self c /\ p = q).
  { intros m p q [[<- ?]|[_ Hm]]%lookup_insert_Some; [by simplify_eq|].
    apply elem_of_list_to_map_2, list_elem_of_fmap in Hm as (? & ? & _). by simplify_eq. }
  destruct prevote.
  - injection Hv as <- <-. rewrite Es in *. split_and!; [done|by right|done..| |done]. by intros m p [-> ->]%Hself.
  - assert (Er : ballot_of (with_election (fun e => set_voted_for no_vnode (set_term (_term e + 1) e)) c1) =
      raise (_term (elec c) + 1) (ballot_of c)) by (unfold ballot_of, raise in *; cbn; congruence).
    set (c2 := with_election _ c1) in *.
    assert (Es2 : _self c2 = _self c) by done. assert (Ev2 : _vstate (elec c2) = vote_state.candidate) by done.
    clearbody c2. rewrite Es2 in *.
    destruct w as [|[]]; cbn [write_voted_for] in Hv; injection Hv as <- <-; (split; [done|]); (split; [by right|]).
    + split; [done|]; split; [done|]; split; [by intros m p [-> ->]%Hself|]; split; [|exact (f_equal b_term Er)].
      rewrite <- Er, <- Es2. reflexivity.
    + right. rewrite <- Er, <- Es2. reflexivity.
    + left. rewrite <- Er, <- Es2. reflexivity.
Qed.

Lemma larger_term_lt `{HashOrder} s t t' : larger_term s t = Some t' -> t < t'.
Proof.
  unfold larger_term. intros Ht%head_Some_elem_of. apply list_elem_of_omap in Ht as (id & _ & Hid).
  repeat case_match; simplify_eq. by apply Z.ltb_lt.
Qed.

Lemma fail_election_effect c c' : fail_election c = Ok c' ->
  ballot_of c' = ballot_of c /\ _self c' = _self c /\ _vstate (elec c') = vote_state.follower.
Proof. unfold fail_election. by intros (? & _ & [= <-])%res_bind_Ok. Qed.

(** The candidate becomes the leader only if it has won a vote, not a pre-vote, and is
    still a candidate of that term. *)
Lemma update_vote_state_effect `{HashOrder} now s c c' : update_vote_state now s c = Ok c' ->
  _self c' = _self c /\
  (ballot_of c' = ballot_of c /\
     (c' = c \/ _vstate (elec c') = vote_state.follower \/
      _vstate (elec c') = vote_state.leader /\ _vstate (elec c) = vote_state.candidate /\
        vs_success s = true /\ vs_prevote s = false /\ _term (elec c) = request_term s) \/
   exists t, _term (elec c) < t /\ ballot_of c' = raise t (ballot_of c) /\
     _vstate (elec c') = vote_state.follower).
Proof.
  unfold update_vote_state. destruct (larger_term s _) as [t|] eqn:Et.
  { apply larger_term_lt in Et. intros (Eb & Es & Ev)%fail_election_effect. split; [done|]. right. by exists t. }
  case_bool_decide as Ec; cbn [negb orb]; [|intros [= <-]; auto 6].
  destruct (Z.eqb_spec (_term (elec c)) (request_term s)); cbn [negb]; [|intros [= <-]; auto 6].
  destruct (vs_success s) eqn:Es; cbn [negb]; [|intros (? & ? & ?)%fail_election_effect; auto 6].
  destruct (vs_prevote s) eqn:Ep; [intros [= <-]; auto 6|].
  destruct (_ && _); [intros (? & ? & ?)%fail_election_effect; auto 6|].
  intros [= <-]. split; [done|]. left. split; [done|]. right. right. done.
Qed.

(** ** The group *)

(** [running] holds the candidacies with whether their replies have been processed;
    [requests] and [replies] are all messages ever sent, a reply with its request.  [votes]
    and [elected] record what has happened: votes that were granted, and elections won with
    the configuration that counted. *)
Record world := {
  nodes : vnode -> consensus;
  running : vnode -> option (vote_stm * bool);
  requests : list vote_request;
  replies : list (vote_request * vote_reply);
  votes : ballots;
  elected : list (vnode * Z * group_configuration);
}.

(** What the rest of the code does to a member's election state, once it has taken over a
    larger term if it has seen one: it may step down, append to and truncate the log, take and install snapshots, and
    change the configuration; logs and snapshots hold no terms it has not seen, and
    snapshots only move forward. *)
Record housekeeping (c c' : consensus) : Prop := {
  hk_self : _self c' = _self c;
  hk_term : _term (elec c') = _term (elec c);
  hk_voted_for : _voted_for (elec c') = _voted_for (elec c);
  hk_vstate : _vstate (elec c') = _vstate (elec c) \/ _vstate (elec c') = vote_state.follower;
  hk_stored : stored_vote c' = stored_vote c;
  hk_snapshot : _last_snapshot_term c <= _last_snapshot_term c' <= _term (elec c);
  hk_log : dirty_offset_term (offsets (_log c')) <= _term (elec c);
}.

Section network.
Context `{HashOrder}.

(** Changes of the group, one field at a time. *)
Definition set_node (n : vnode) (c : consensus) (w : world) : world :=
  {| nodes := <[n := c]> (nodes w); running := running w; requests := requests w;
     replies := replies w; votes := votes w; elected := elected w |}.
Definition set_running (n : vnode) (v : option (vote_stm * bool)) (w : world) : world :=
  {| nodes := nodes w; running := <[n := v]> (running w); requests := requests w;
     replies := replies w; votes := votes w; elected := elected w |}.
Definition add_requests (rs : list vote_request) (w : world) : world :=
  {| nodes := nodes w; running := running w; requests := requests w ++ rs;
     replies := replies w; votes := votes w; elected := elected w |}.
Definition add_reply (r : vote_request) (p : vote_reply) (w : world) : world :=
  {| nodes := nodes w; running := running w; requests := requests w;
     replies := replies w ++ [(r, p)]; votes := votes w; elected := elected w |}.
Definition add_vote (n : vnode) (t : Z) (x : vnode) (w : world) : world :=
  {| nodes := nodes w; running := running w; requests := requests w;
     replies := replies w; votes := votes w ++ [(n, t, x)]; elected := elected w |}.
Definition add_elected (n : vnode) (t : Z) (cfg : group_configuration) (w : world) : world :=
  {| nodes := nodes w; running := running w; requests := requests w;
     replies := replies w; votes := votes w; elected := elected w ++ [(n, t, cfg)] |}.

(** A candidacy starts: [do_vote] of [vote_stm] sends requests to the voters but itself. *)
Definition after_prepare (n : vnode) (c' : consensus) (res : prepare_election_result) (w : world) : world :=
  match res with
  | proceed_with_election s =>
      let w := set_node n c' w in
      let w := if vs_prevote s then w else add_vote n (request_term s) n w in
      add_requests (request_to s <$> filter (fun m => m <> n) (unique_voter_ids (vs_config s)))
        (set_running n (Some (s, false)) w)
  | _ => set_node n c' w
  end.

(** A request is answered. *)
Definition after_vote (n : vnode) (c' : consensus) (r : vote_request) (p : vote_reply) (w : world) : world :=
  let w := set_node n c' w in
  add_reply r p (if rp_granted p then add_vote n (rp_term p) (vr_node_id r) w else w).

(** A candidacy ends. *)
Definition after_update (n : vnode) (c' : consensus) (s : vote_stm) (w : world) : world :=
  let won := is_elected_leader c' && negb (is_elected_leader (nodes w n)) in
  set_running n None
    (set_node n c' (if won then add_elected n (request_term s) (vs_config s) w else w)).

Inductive step (w : world) : world -> Prop :=
  | step_prepare n now bd o prevote blocked transfer c' res :
      running w n = None -> 0 <= vn_id n ->
      vote_prepare now bd o prevote blocked transfer (nodes w n) = Ok (c', res) ->
      step w (after_prepare n c' res w)
  | step_vote n now bd o r c' p :
      r ∈ requests w -> do_vote now bd o r (nodes w n) = Ok (c', p) ->
      step w (after_vote n c' r p w)
  | step_reply n s d m p :
      running w n = Some (s, d) -> (request_to s m, p) ∈ replies w -> vs_replies s !! m = Some None ->
      step w (set_running n (Some (set_value m (validate_reply n (vn_id m) p) s, d)) w)
  | step_reply_error n s d m e :
      running w n = Some (s, d) -> vs_replies s !! m = Some None ->
      step w (set_running n (Some (set_value m (inr e) s, d)) w)
  | step_decide n s wait detect b :
      running w n = Some (s, false) -> process_replies wait detect s = decided b ->
      step w (set_running n (Some (set_success b s, true)) w)
  | step_update n now s c' :
      running w n = Some (s, true) -> update_vote_state now s (nodes w n) = Ok c' ->
      step w (after_update n c' s w)
  | step_term n now t : step w (set_node n (step_down now t (nodes w n)) w)
  | step_restart n : step w (set_running n None (set_node n (restart_election (nodes w n)) w))
  | step_housekeeping n now t c' :
      housekeeping (step_down now t (nodes w n)) c' -> step w (set_node n c' w).

(** A group that has just been created. *)
Definition initial (w : world) : Prop :=
  (forall n, _self (nodes w n) = n /\ _vstate (elec (nodes w n)) = vote_state.follower /\
     _term (elec (nodes w n)) = 0 /\ _voted_for (elec (nodes w n)) = no_vnode /\
     stored_vote (nodes w n) = None /\ _last_snapshot_term (nodes w n) <= 0 /\
     dirty_offset_term (offsets (_log (nodes w n))) <= 0 /\ running w n = None) /\
  requests w = [] /\ replies w = [] /\ votes w = [] /\ elected w = [].

Definition reachable (w : world) : Prop := exists w0, initial w0 /\ rtc step w0 w.

(** ** The invariant *)

Definition majority_voted (vs : ballots) (cfg : group_configuration) (t : Z) (x : vnode) : Prop :=
  majority cfg (fun n => bool_decide ((n, t, x) ∈ vs)) = true.

Record candidacy_ok (vs : ballots) (n : vnode) (s : vote_stm) : Prop := {
  co_node : vr_node_id (vs_req s) = n;
  co_granted m p : vs_replies s !! m = Some (Some (inl p)) -> rp_granted p = true ->
    vs_prevote s = false -> (m, rp_term p, n) ∈ vs;
  co_success : vs_success s = true -> vs_prevote s = false ->
    majority_voted vs (vs_config s) (request_term s) n;
}.

Record group_ok (w : world) : Prop := {
  go_self n : _self (nodes w n) = n;
  go_ballot n : ballot_ok n (votes w) (ballot_of (nodes w n));
  go_unique : one_vote_per_term (votes w);
  go_requests r : r ∈ requests w -> 0 <= vn_id (vr_node_id r) /\ vr_node_id r <> vr_target_node_id r;
  go_replies r p : (r, p) ∈ replies w -> rp_granted p = true ->
    (vr_target_node_id r, rp_term p, vr_node_id r) ∈ votes w;
  go_running n s d : running w n = Some (s, d) -> candidacy_ok (votes w) n s;
  go_elected n t cfg : (n, t, cfg) ∈ elected w -> majority_voted (votes w) cfg t n;
  go_leader n : _vstate (elec (nodes w n)) = vote_state.leader ->
    exists cfg, (n, _term (elec (nodes w n)), cfg) ∈ elected w;
}.

Lemma majority_mono cfg f g : (forall v, f v = true -> g v = true) -> majority cfg f = true -> majority cfg g = true.
Proof.
  intros Hfg. rewrite !majority_voter_sets, !Forall_forall. intros Hf l Hl. specialize (Hf l Hl).
  destruct (decide (l = [])) as [->|Hne]; [done|]. rewrite majority_of_spec in Hf |- * by done.
  etrans; [exact Hf|]. apply submseteq_length, sublist_submseteq. clear -Hfg.
  induction l as [|v l IH]; [done|]. rewrite !filter_cons.
  case_decide; case_decide; [by constructor|by exfalso; auto|by constructor|done].
Qed.

Lemma majority_voted_app vs vs' cfg t x : majority_voted vs cfg t x -> majority_voted (vs ++ vs') cfg t x.
Proof. apply majority_mono. intros v Hv. rewrite bool_decide_eq_true in *. apply elem_of_app. by left. Qed.

Lemma candidacy_ok_app vs vs' n s : candidacy_ok vs n s -> candidacy_ok (vs ++ vs') n s.
Proof.
  intros [Hn Hg Hs]. split; [done| |].
  - intros. apply elem_of_app. left. by apply Hg.
  - intros. by apply majority_voted_app, Hs.
Qed.

Lemma set_node_ok n c w : group_ok w -> _self c = n -> ballot_ok n (votes w) (ballot_of c) ->
  (_vstate (elec c) = vote_state.leader -> exists cfg, (n, _term (elec c), cfg) ∈ elected w) ->
  group_ok (set_node n c w).
Proof.
  intros [] Hs Hb Hl.
  split; cbn; [| |done..|]; intros m; destruct (decide (m = n)) as [->|Hne];
    rewrite ?fn_lookup_insert, ?fn_lookup_insert_ne by done; auto.
Qed.

Lemma set_running_ok n v w : group_ok w ->
  (forall s d, v = Some (s, d) -> candidacy_ok (votes w) n s) -> group_ok (set_running n v w).
Proof.
  intros [] Hv. split; cbn; [done..| |done|done]. intros m s d.
  destruct (decide (m = n)) as [->|Hne]; rewrite ?fn_lookup_insert, ?fn_lookup_insert_ne by done; [apply Hv|eauto].
Qed.

Lemma add_requests_ok rs w : group_ok w ->
  (forall r, r ∈ rs -> 0 <= vn_id (vr_node_id r) /\ vr_node_id r <> vr_target_node_id r) ->
  group_ok (add_requests rs w).
Proof. intros [] Hr. split; cbn; [done..| |done|done|done|done]. intros r [?|?]%elem_of_app; auto. Qed.

Lemma add_reply_ok r p w : group_ok w ->
  (rp_granted p = true -> (vr_target_node_id r, rp_term p, vr_node_id r) ∈ votes w) ->
  group_ok (add_reply r p w).
Proof.
  intros [] Hr. split; cbn; [done..| |done|done|done]. intros r' p' [?|Hx]%elem_of_app; [auto|].
  apply list_elem_of_singleton in Hx. by simplify_eq.
Qed.

Lemma add_elected_ok n t cfg w : group_ok w -> majority_voted (votes w) cfg t n -> group_ok (add_elected n t cfg w).
Proof.
  intros [] Hm. split; cbn; [done..| |].
  - intros m t' c [?|Hx]%elem_of_app; [auto|]. apply list_elem_of_singleton in Hx. by simplify_eq.
  - intros m Hl. destruct (go_leader0 m Hl) as [c ?]. exists c. apply elem_of_app. by left.
Qed.

(** A member's vote that is durable and in memory. *)
Lemma add_vote_ok n t x w : group_ok w -> 0 <= vn_id x ->
  b_term (ballot_of (nodes w n)) = t -> b_voted (ballot_of (nodes w n)) = x ->
  durable_term (ballot_of (nodes w n)) = t -> durable_vote (ballot_of (nodes w n)) = x ->
  group_ok (add_vote n t x w).
Proof.
  intros [] H0 Et Ex Hdt Hdv. pose proof (go_ballot0 n) as Hb. subst t x. split; cbn [nodes running requests replies votes elected add_vote].
  - done.
  - intros m. destruct (decide (n = m)) as [->|Hne]; [by apply grant_ok|by apply other_vote_ok].
  - by apply grant_unique.
  - done.
  - intros. apply elem_of_app. left. auto.
  - intros. eapply candidacy_ok_app. eauto.
  - intros. apply majority_voted_app. eauto.
  - done.
Qed.

Lemma casts_ok n vs x b g b' : ballot_ok n vs b -> 0 <= vn_id x -> (g = true -> x <> n) -> casts x b g b' ->
  ballot_ok n vs b' /\
  (g = true -> b_voted b' = x /\ durable_term b' = b_term b' /\ durable_vote b' = x).
Proof.
  intros Hb H0 Hx Hc. revert Hx. destruct Hc; intros Hx; [done|split; [by apply store_ok|done]| |].
  - split; [done|]. intros _. subst x. destruct (bo_voted _ _ _ Hb H0 (Hx eq_refl)). auto.
  - assert (Hs : ballot_ok n vs (store x b)) by by apply store_ok.
    assert (Et : durable_term (store x b) = b_term b)
      by (pose proof (bo_durable _ _ _ Hs); unfold durable_term in *; cbn in *; lia).
    split; [by apply adopt_ok|]. intros _. done.
Qed.

Lemma step_vote_ok w n now bd o r c' p : group_ok w -> r ∈ requests w ->
  do_vote now bd o r (nodes w n) = Ok (c', p) -> group_ok (after_vote n c' r p w).
Proof.
  intros Hw Hr (Hs & b & Hb & Hc & Et & Hg)%do_vote_effect.
  rewrite (go_self w Hw) in Hs, Hg. destruct (go_requests w Hw r Hr) as [H0 Hne].
  assert (Hbo : ballot_ok n (votes w) b).
  { pose proof (go_ballot w Hw n). destruct Hb as [[-> _]|(? & -> & _)]; [done|by apply raise_ok]. }
  assert (Hnn : rp_granted p = true -> vr_node_id r <> n) by (intros E; destruct (Hg E); congruence).
  destruct (casts_ok n _ _ _ _ _ Hbo H0 Hnn Hc) as [Hbo' Hd].
  assert (Hn : group_ok (set_node n c' w)).
  { apply set_node_ok; [done..|]. change (_term (elec c')) with (b_term (ballot_of c')). rewrite Et.
    destruct Hb as [[-> ->]|(_ & _ & ->)]; [|done]. apply (go_leader w Hw). }
  unfold after_vote. destruct (rp_granted p) eqn:Ep; [|apply add_reply_ok; [done|by rewrite Ep]].
  destruct (Hg eq_refl) as [Htgt Hterm], (Hd eq_refl) as (Ev & Edt & Edv).
  apply add_reply_ok.
  - apply add_vote_ok; cbn -[durable_term durable_vote ballot_of]; rewrite ?fn_lookup_insert; [done..| | | |done]; congruence.
  - intros _. rewrite Htgt. apply elem_of_app. right. by left.
Qed.

Lemma step_prepare_ok w n now bd o prevote blocked transfer c' res : group_ok w -> 0 <= vn_id n ->
  vote_prepare now bd o prevote blocked transfer (nodes w n) = Ok (c', res) ->
  group_ok (after_prepare n c' res w).
Proof.
  intros Hw H0 (Hs & Hst & Hres)%vote_prepare_effect. rewrite (go_self w Hw) in *.
  pose proof (go_ballot w Hw n) as Hb.
  assert (Hl : _vstate (elec c') = vote_state.leader -> exists cfg, (n, _term (elec c'), cfg) ∈ elected w).
  { destruct Hst as [->| ->]; [apply (go_leader w Hw)|done]. }
  set (b := ballot_of (nodes w n)) in *. set (b1 := raise (_term (elec (nodes w n)) + 1) b) in *.
  assert (Hb1 : ballot_ok n (votes w) b1) by (apply raise_ok; [done|]; cbn; lia).
  assert (Hb2 : ballot_ok n (votes w) (adopt n (store n b1)) /\ durable_term (store n b1) = b_term b1).
  { assert (Hb2 : ballot_ok n (votes w) (store n b1)) by by apply store_ok.
    assert (durable_term (store n b1) = b_term b1)
      by (pose proof (bo_durable _ _ _ Hb2); unfold durable_term in *; cbn in *; lia).
    split; [by apply adopt_ok|done]. }
  destruct res as [| | |s]; cbn [after_prepare]; try (apply set_node_ok; [done..|by rewrite Hres|done]).
  - apply set_node_ok; [done..| |done]. destruct Hres as [->| ->]; [by apply adopt_self_ok|by apply Hb2].
  - destruct Hres as (Hn & Hsu & Hrep & Hbal).
    apply add_requests_ok; [apply set_running_ok|].
    + destruct (vs_prevote s) eqn:Ep.
      * apply set_node_ok; [done..|by rewrite Hbal|done].
      * destruct Hbal as [Hbal Hrt]. apply add_vote_ok; cbn -[durable_term durable_vote ballot_of];
          rewrite ?fn_lookup_insert, ?Hbal; [|done..|by rewrite Hrt; apply Hb2|done].
        apply set_node_ok; [done..|by rewrite Hbal; apply Hb2|done].
    + intros s' d [= <- <-]. split; [done| |by rewrite Hsu]. intros m p Hm Hg Hp.
      rewrite Hp. destruct (Hrep m p Hm) as [-> ->]. apply elem_of_app. right. by left.
    + intros r (m & -> & Hm)%list_elem_of_fmap. cbn. rewrite Hn. split; [done|].
      apply list_elem_of_filter in Hm as [Hm _]. congruence.
Qed.

(** The replies that [process_replies] counts are votes. *)
Lemma decided_majority vs n s wait detect : candidacy_ok vs n s -> vs_prevote s = false ->
  process_replies wait detect s = decided true -> majority_voted vs (vs_config s) (request_term s) n.
Proof.
  intros Hs Hp. unfold process_replies. rewrite Hp.
  destruct (_ && has_request_in_progress s); [done|]. destruct (_ && existsb _ _); [done|].
  destruct (majority _ _) eqn:Em; [intros _|by repeat case_match].
  eapply majority_mono, Em. intros v Hv. unfold state_is in Hv. rewrite bool_decide_eq_true in *.
  unfold get_state_of in Hv. destruct (vs_replies s !! v) as [[[p|]|]|] eqn:Ev; cbn in Hv; try done.
  destruct (Z.eqb_spec (rp_term p) (request_term s)) as [<-|]; [|done]. cbn in Hv.
  destruct (rp_granted p) eqn:Eg; [|by destruct (rp_log_ok p)]. by apply (co_granted _ _ _ Hs v p).
Qed.

Lemma set_value_ok vs n s m v : candidacy_ok vs n s ->
  (forall p, v = inl p -> rp_granted p = true -> (m, rp_term p, n) ∈ vs) -> candidacy_ok vs n (set_value m v s).
Proof.
  intros [Hn Hg Hs] Hv. split; [done| |done]. cbn.
  intros m' p [[<- [= ->]]|[_ Hm]]%lookup_insert_Some ??; [by apply Hv|by apply Hg].
Qed.

Lemma step_update_ok w n now s c' : group_ok w -> running w n = Some (s, true) ->
  update_vote_state now s (nodes w n) = Ok c' -> group_ok (after_update n c' s w).
Proof.
  intros Hw Hr (Hs & Hu)%update_vote_state_effect. rewrite (go_self w Hw) in Hs.
  pose proof (go_ballot w Hw n) as Hb. pose proof (go_running w Hw _ _ _ Hr) as Hc.
  unfold after_update. apply set_running_ok; [|done].
  destruct Hu as [[Eb Hu]|(t & Ht & Eb & Ev)].
  - assert (Et : _term (elec c') = _term (elec (nodes w n))) by exact (f_equal b_term Eb).
    destruct Hu as [->|[Ev|(Ev & Ec & Esu & Ep & Er)]].
    + rewrite andb_negb_r. apply set_node_ok; [done..|]. apply (go_leader w Hw).
    + unfold is_elected_leader at 1. rewrite Ev. cbn. apply set_node_ok; [done..|by rewrite Eb|by rewrite Ev].
    + unfold is_elected_leader. rewrite Ev, Ec. cbn.
      assert (Hm : majority_voted (votes w) (vs_config s) (request_term s) n) by by apply (co_success _ _ _ Hc).
      apply set_node_ok; [by apply add_elected_ok|done|by rewrite Eb|]. intros _.
      exists (vs_config s). rewrite Et, Er. apply elem_of_app. right. by left.
  - unfold is_elected_leader at 1. rewrite Ev. cbn.
    apply set_node_ok; [done..| |by rewrite Ev]. rewrite Eb. by apply raise_ok.
Qed.

(** A member that may have learnt of a larger term. *)
Lemma step_down_ok w n now t : group_ok w -> let c := step_down now t (nodes w n) in
  _self c = n /\ ballot_ok n (votes w) (ballot_of c) /\
  (_vstate (elec c) = vote_state.leader -> exists cfg, (n, _term (elec c), cfg) ∈ elected w).
Proof.
  intros Hw c. destruct (step_down_ballot now t (nodes w n)) as [Hs Hc]. fold c in Hs, Hc.
  rewrite (go_self w Hw) in Hs. split; [done|]. destruct Hc as [->|(Ht & -> & ->)].
  - split; [apply (go_ballot w Hw)|apply (go_leader w Hw)].
  - split; [|done]. apply raise_ok; [apply (go_ballot w Hw)|done].
Qed.

Lemma step_ok w w' : group_ok w -> step w w' -> group_ok w'.
Proof.
  intros Hw [n now bd o pv bl tr c' res _ H0 Hp|n now bd o r c' p Hr Hv|n s d m p Hr Hp _|n s d m e Hr _
            |n s wait detect b Hr Hd|n now s c' Hr Hu|n now t|n|n now t c' Hk].
  - by eapply step_prepare_ok.
  - by eapply step_vote_ok.
  - pose proof (go_running w Hw _ _ _ Hr) as Hc. apply set_running_ok; [done|]. intros s' d' [= <- <-].
    apply set_value_ok; [done|]. intros p' Hp' Hg. unfold validate_reply in Hp'.
    repeat case_match; simplify_eq. pose proof (go_replies w Hw _ _ Hp Hg) as Hx.
    cbn in Hx. by rewrite (co_node _ _ _ Hc) in Hx.
  - pose proof (go_running w Hw _ _ _ Hr) as Hc. apply set_running_ok; [done|]. intros s' d' [= <- <-].
    by apply set_value_ok.
  - pose proof (go_running w Hw _ _ _ Hr) as Hc. apply set_running_ok; [done|]. intros s' d' [= <- <-].
    destruct Hc as [Hn Hg Hs]. split; [done..|]. cbn. intros -> Hp.
    by eapply (decided_majority _ _ s).
  - by eapply step_update_ok.
  - destruct (step_down_ok w n now t Hw) as (Hs & Hb & Hl). by apply set_node_ok.
  - apply set_running_ok; [|done]. apply set_node_ok; [done| | |].
    + by rewrite restart_self; apply (go_self w Hw).
    + rewrite restart_ballot. apply recover_ok, (go_ballot w Hw).
    + by rewrite restart_vstate.
  - destruct (step_down_ok w n now t Hw) as (Hs & Hb & Hlead), Hk as [Hs' Ht Hv Hst Hsv Hsn Hl].
    apply set_node_ok; [done|by rewrite Hs'|by eapply housekeeping_ok|].
    rewrite Ht. by destruct Hst as [->| ->].
Qed.

Lemma initial_ok w : initial w -> group_ok w.
Proof.
  intros (Hn & Er & Ep & Ev & Ee).
  split; rewrite ?Er, ?Ep, ?Ev, ?Ee.
  - intros n. apply Hn.
  - intros n. destruct (Hn n) as (_ & _ & Ht & Hv & Hsv & Hsn & Hl & _).
    split; unfold durable_term, durable_vote; cbn -[offsets]; rewrite ?Ht, ?Hv, ?Hsv; cbn -[offsets];
      [lia|done|by intros []|by intros ?? ?%elem_of_nil].
  - by intros ???? ?%elem_of_nil.
  - by intros ? ?%elem_of_nil.
  - by intros ?? ?%elem_of_nil.
  - intros n s d. destruct (Hn n) as (_ & _ & _ & _ & _ & _ & _ & ->). done.
  - by intros ??? ?%elem_of_nil.
  - intros n. destruct (Hn n) as (_ & -> & _). done.
Qed.

Lemma reachable_ok w : reachable w -> group_ok w.
Proof. intros (w0 & H0%initial_ok & Hs). induction Hs; [done|]. eauto using step_ok. Qed.

(** C1: In every run of the group (messages lost, repeated and reordered, crashes at any
    moment, failing disks, changing logs and configurations) every leader won an election in
    its term, and no two members win elections in the same term with configurations that
    share their voters (equal ones, or ones a single change apart). *)
Theorem election_safety w : reachable w ->
  (forall n, _vstate (elec (nodes w n)) = vote_state.leader ->
     exists cfg, (n, _term (elec (nodes w n)), cfg) ∈ elected w) /\
  (forall n1 n2 t cfg1 cfg2, (n1, t, cfg1) ∈ elected w -> (n2, t, cfg2) ∈ elected w ->
     shares_voters cfg1 cfg2 -> n1 = n2).
Proof.
  intros Hw%reachable_ok. split; [apply (go_leader w Hw)|]. intros n1 n2 t cfg1 cfg2 H1 H2 Hsh.
  destruct (shares_voters_overlap _ _ _ _ Hsh (go_elected w Hw _ _ _ H1) (go_elected w Hw _ _ _ H2)) as (v & Hv1 & Hv2).
  rewrite bool_decide_eq_true in Hv1, Hv2. by eapply (go_unique w Hw).
Qed.

(** C18: A vote that a member has granted is never forgotten: at any later time its term has
    moved on or it still votes for the same candidate, and the same holds if it restarts,
    even where restarting takes the term from the snapshot or the log. *)
Theorem votes_survive_restart w r p n : reachable w -> (r, p) ∈ replies w -> rp_granted p = true ->
  vr_target_node_id r = n ->
  forall c, c = nodes w n \/ c = restart_election (nodes w n) ->
  rp_term p < _term (elec c) \/ rp_term p = _term (elec c) /\ _voted_for (elec c) = vr_node_id r.
Proof.
  intros Hw%reachable_ok Hr Hg Hn c Hc. pose proof (go_replies w Hw r p Hr Hg) as Hv. rewrite Hn in Hv.
  assert (Hb : ballot_ok n (votes w) (ballot_of c)).
  { destruct Hc as [->| ->]; [apply (go_ballot w Hw)|]. rewrite restart_ballot. apply recover_ok, (go_ballot w Hw). }
  pose proof (bo_durable _ _ _ Hb). destruct (bo_votes _ _ _ Hb _ _ Hv) as (_ & ? & _ & Hm).
  change (_term (elec c)) with (b_term (ballot_of c)). change (_voted_for (elec c)) with (b_voted (ballot_of c)).
  destruct (decide (rp_term p = b_term (ballot_of c))); [right; auto|left; lia].
Qed.

End network.

(** ** Witnesses *)

Module election_examples.
Import GroupConfigurationProps.examples.

(** Three members; the first is elected with the vote of the second, and a late request of
    its candidacy then reaches the third. *)
Definition member (n : vnode) : consensus :=
  {| _self := n; _group := 1;
     elec := {| _term := 0; _voted_for := no_vnode; _leader_id := None; _vstate := vote_state.follower;
                _hbeat := time_min; _became_leader_at := time_min; _confirmed_term := no_term |};
     indices := {| _commit_index := no_offset; _flushed_offset := no_offset; _majority_replicated_index := no_offset;
                   _visibility_upper_bound_index := no_offset;
                   _last_quorum_replicated_index_with_flush := no_offset;
                   _last_leader_visible_offset := no_offset |};
     _log := {| lg_start_offset := 0; lg_batches := [] |};
     _last_snapshot_index := no_offset; _last_snapshot_term := no_term;
     _configuration_manager := make_manager cfg3
       {| kv_configurations := None; kv_highest_known_offset := None; kv_next_idx := None |};
     _fstates := ∅; _priority_tracker := with_target_priority min_voter_priority (make_tracker n true);
     _follower_recovery_state := None; _pending_flush_bytes := 0; stored_vote := None |}.

Definition w0 : world :=
  {| nodes := member; running := fun _ => None; requests := []; replies := []; votes := []; elected := [] |}.

Definition prepared (n : vnode) (w : world) : world :=
  match vote_prepare 1000 100 WriteOk false false false (nodes w n) with
  | Ok (c', res) => after_prepare n c' res w
  | _ => w
  end.
Definition answered (n : vnode) (r : vote_request) (w : world) : world :=
  match do_vote 1000 100 WriteOk r (nodes w n) with Ok (c', p) => after_vote n c' r p w | _ => w end.
Definition replied (n m : vnode) (w : world) : world :=
  match running w n, last (replies w) with
  | Some (s, d), Some (_, p) => set_running n (Some (set_value m (validate_reply n (vn_id m) p) s, d)) w
  | _, _ => w
  end.
Definition decided_true (n : vnode) (w : world) : world :=
  match running w n with Some (s, _) => set_running n (Some (set_success true s, true)) w | None => w end.
Definition updated (n : vnode) (w : world) : world :=
  match running w n with
  | Some (s, _) => match update_vote_state 1001 s (nodes w n) with Ok c' => after_update n c' s w | _ => w end
  | None => w
  end.

Definition req (m : vnode) : vote_request :=
  {| vr_node_id := n1; vr_target_node_id := m; vr_group := 1; vr_term := 1; vr_prev_log_index := no_offset;
     vr_prev_log_term := no_term; vr_leadership_transfer := false |}.

Definition w1 := prepared n1 w0.
Definition w2 := answered n2 (req n2) w1.
Definition w3 := replied n1 n2 w2.
Definition w4 := decided_true n1 w3.
Definition w5 := updated n1 w4.
Definition w6 := answered n3 (req n3) w5.

Definition is_ok {A} (r : res A) : bool := match r with Ok _ => true | _ => false end.

Lemma prepared_step n w : running w n = None -> 0 <= vn_id n ->
  is_ok (vote_prepare 1000 100 WriteOk false false false (nodes w n)) = true -> step w (prepared n w).
Proof.
  intros Hr Hn Hok. unfold prepared. destruct (vote_prepare _ _ _ _ _ _ _) as [[c' res]| |] eqn:E; [|done..].
  by eapply step_prepare.
Qed.

Lemma answered_step n r w : bool_decide (r ∈ requests w) = true ->
  is_ok (do_vote 1000 100 WriteOk r (nodes w n)) = true -> step w (answered n r w).
Proof.
  intros Hr%bool_decide_eq_true Hok. unfold answered. destruct (do_vote _ _ _ _ _) as [[c' p]| |] eqn:E; [|done..].
  by eapply step_vote.
Qed.

Lemma replied_step n m w :
  match running w n, last (replies w) with
  | Some (s, _), Some (r, _) => bool_decide (r = request_to s m /\ vs_replies s !! m = Some None)
  | _, _ => false
  end = true -> step w (replied n m w).
Proof.
  unfold replied. destruct (running w n) as [[s d]|] eqn:Er; [|done].
  destruct (last (replies w)) as [[r p]|] eqn:El; [|done].
  intros [-> Hm]%bool_decide_eq_true. apply step_reply; [done| |done]. by apply last_Some_elem_of.
Qed.

Lemma decided_step n w :
  match running w n with
  | Some (s, false) => match process_replies false false s with decided b => b | _ => false end
  | _ => false
  end = true -> step w (decided_true n w).
Proof.
  unfold decided_true. destruct (running w n) as [[s []]|] eqn:Er; [done| |done].
  destruct (process_replies _ _ _) as [[]|] eqn:E; [intros _|done..]. by eapply step_decide.
Qed.

Lemma updated_step n w :
  match running w n with
  | Some (s, true) => is_ok (update_vote_state 1001 s (nodes w n))
  | _ => false
  end = true -> step w (updated n w).
Proof.
  unfold updated. destruct (running w n) as [[s []]|] eqn:Er; [|done..].
  destruct (update_vote_state _ _ _) eqn:E; [intros _|done..]. by eapply step_update.
Qed.

Lemma run_w6 : reachable w6.
Proof.
  exists w0. split; [split; [|done]; intros n; by split_and!|].
  apply (rtc_l _ _ w1); [apply prepared_step; [reflexivity|done|vm_compute; reflexivity]|].
  apply (rtc_l _ _ w2); [apply answered_step; vm_compute; reflexivity|].
  apply (rtc_l _ _ w3); [apply replied_step; vm_compute; reflexivity|].
  apply (rtc_l _ _ w4); [apply decided_step; vm_compute; reflexivity|].
  apply (rtc_l _ _ w5); [apply updated_step; vm_compute; reflexivity|].
  apply (rtc_l _ _ w6); [apply answered_step; vm_compute; reflexivity|].
  constructor.
Qed.

Lemma election_safety_witness : reachable w6 /\ elected w6 = [(n1, 1, cfg3)] /\
  (_vstate (elec (nodes w6 n1)) = vote_state.leader -> exists cfg, (n1, 1, cfg) ∈ elected w6) /\
  forall n2 cfg2, (n2, 1, cfg2) ∈ elected w6 -> shares_voters cfg3 cfg2 -> n1 = n2.
Proof.
  assert (He : elected w6 = [(n1, 1, cfg3)]) by (vm_compute; reflexivity).
  destruct (election_safety w6 run_w6) as [Hl Hs].
  split_and!; [exact run_w6|exact He|intros Hn; exact (Hl n1 Hn)|].
  intros m cfg Hm. apply (Hs n1 m 1 cfg3 cfg); [rewrite He; left|exact Hm].
Defined.

Lemma votes_survive_restart_witness :
  exists p, (req n2, p) ∈ replies w6 /\ rp_granted p = true /\
  (rp_term p < _term (elec (restart_election (nodes w6 n2))) \/
   rp_term p = _term (elec (restart_election (nodes w6 n2))) /\
   _voted_for (elec (restart_election (nodes w6 n2))) = n1).
Proof.
  eexists. assert (Hr : (req n2, _) ∈ replies w6) by (vm_compute; left).
  split; [exact Hr|]. split; [reflexivity|].
  apply (votes_survive_restart w6 (req n2) _ n2 run_w6 Hr); [reflexivity|reflexivity|by right].
Defined.

End election_examples.
