(* ===== verification/RaftAppend.v ===== *)
(** * Replication (raft/consensus.cc: append_entries, commit index; raft/recovery_scheduler.cc)

    A leader sends its log to the followers in append_entries requests; [do_append_entries]
    compares the request with the follower's log, truncates what conflicts and appends what
    is missing.  The replies move the leader's view of the follower
    ([update_follower_index]), from which it derives the commit index
    ([do_maybe_update_leader_commit_idx]).

    The handlers run under the member's lock, one at a time.  Flushes that [disk_append] schedules
    run later, as a [flush_log] of their own. *)

From S2P Require Import Prelude Errors OffsetTranslator GroupConfiguration GroupConfigurationProps ConfigurationManager VoterPriority RaftState RaftVote.

(** ** Messages *)

Record protocol_metadata := {
  pm_group : Z;
  pm_commit_index : Z;
  pm_term : Z;
  pm_prev_log_index : Z;
  pm_prev_log_term : Z;
  pm_last_visible_index : Z;
  pm_dirty_offset : Z;
}.

Record append_entries_request := {
  ar_source_node : vnode;
  ar_target_node_id : vnode;
  ar_meta : protocol_metadata;
  ar_flush : bool;
  ar_batches : list entry;
}.

Module reply_result.
Inductive t := success | failure | group_unavailable | follower_busy.
#[global] Instance t_eq_dec : EqDecision t.
Proof. solve_decision. Defined.
End reply_result.

Record append_entries_reply := {
  ap_target_node_id : vnode;
  ap_node_id : vnode;
  ap_group : Z;
  ap_term : Z;
  ap_last_flushed_log_index : Z;
  ap_last_dirty_log_index : Z;
  ap_result : reply_result.t;
  ap_may_recover : bool;
}.

Definition reply_success (dirty flushed : Z) (p : append_entries_reply) : append_entries_reply :=
  {| ap_target_node_id := ap_target_node_id p; ap_node_id := ap_node_id p; ap_group := ap_group p;
     ap_term := ap_term p; ap_last_flushed_log_index := flushed; ap_last_dirty_log_index := dirty;
     ap_result := reply_result.success; ap_may_recover := ap_may_recover p |}.

Definition reply_may_recover (b : bool) (p : append_entries_reply) : append_entries_reply :=
  {| ap_target_node_id := ap_target_node_id p; ap_node_id := ap_node_id p; ap_group := ap_group p;
     ap_term := ap_term p; ap_last_flushed_log_index := ap_last_flushed_log_index p;
     ap_last_dirty_log_index := ap_last_dirty_log_index p; ap_result := ap_result p; ap_may_recover := b |}.

(** ** Common parts *)

Definition with_indices (f : index_state -> index_state) (c : consensus) : consensus :=
  set_indices (f (indices c)) c.

Definition get_term (c : consensus) (o : Z) : Z :=
  let st := offsets (_log c) in
  if o <? 0 then no_term
  else if (o =? dirty_offset st) && (dirty_offset st <? start_offset st) then _last_snapshot_term c
  else default no_term (log_get_term (_log c) o).

Definition last_visible_index (i : index_state) : Z :=
  _majority_replicated_index i `min` _visibility_upper_bound_index i.

Definition do_update_majority_replicated_index (o : Z) (i : index_state) : index_state :=
  set_majority_replicated_index (_majority_replicated_index i `max` o) i.

Definition update_last_leader_visible (o : Z) (i : index_state) : index_state :=
  set_last_leader_visible_offset (_last_leader_visible_offset i `max` o) i.

Definition maybe_update_last_visible_index (o : Z) (c : consensus) : consensus :=
  let i := set_visibility_upper_bound_index (_visibility_upper_bound_index (indices c) `max` o) (indices c) in
  let i := do_update_majority_replicated_index o i in
  set_indices (if is_elected_leader c then update_last_leader_visible (last_visible_index i) i else i) c.

Definition maybe_update_majority_replicated_index (c : consensus) : res consensus :=
  cfg ← config c;
  let majority_match := quorum_match no_offset cfg (fun id =>
    if bool_decide (id = _self c) then dirty_offset (offsets (_log c))
    else match _fstates c !! id with Some f => last_dirty_log_index f | None => no_offset end) in
  let i := do_update_majority_replicated_index majority_match (indices c) in
  Ok (set_indices (update_last_leader_visible (last_visible_index i) i) c).

Definition maybe_update_leader (n : vnode) (c : consensus) : consensus :=
  if bool_decide (_leader_id (elec c) = Some n) then c
  else trigger_leadership_notification (with_election (set_leader_id (Some n)) c).

Definition update_follower_states `{HashOrder} (cfg : group_configuration) (c : consensus) : res consensus :=
  fs ← update_with_configuration (_self c) cfg (_fstates c); Ok (set_fstates fs c).

(** ** Recovery *)

Definition is_active (s : option follower_recovery_state) : bool :=
  match s with Some r => fr_active r | None => false end.

Definition update_progress (our_last leader_last : Z) (r : follower_recovery_state) : follower_recovery_state :=
  {| fr_active := fr_active r; fr_our_last := our_last; fr_leader_last := fr_leader_last r `max` leader_last |}.

(** [coordinated] says that the feature [raft_coordinated_recovery] is active; activating the
    state is what the scheduler does at once. *)
Definition upsert_recovery_state (coordinated : bool) (our_last leader_last : Z) (already_recovering : bool)
    (c : consensus) : consensus :=
  let force_active := already_recovering || negb coordinated in
  set_follower_recovery_state (Some
    match _follower_recovery_state c with
    | None => {| fr_active := force_active; fr_our_last := our_last; fr_leader_last := leader_last |}
    | Some r =>
        update_progress our_last leader_last
          {| fr_active := fr_active r || force_active; fr_our_last := fr_our_last r;
             fr_leader_last := fr_leader_last r |}
    end) c.

Definition pending_offset_count (r : follower_recovery_state) : Z :=
  if fr_our_last r <? fr_leader_last r then
    if 0 <=? fr_our_last r then fr_leader_last r - fr_our_last r else fr_leader_last r + 1
  else 0.

(** ** Disk *)

(** What becomes of an append: it succeeds, or throws with the first batches written. *)
Inductive disk_outcome := disk_ok | disk_fails (written : nat).

(** [for_each_ref_extract_configuration]. *)
Fixpoint extract_configurations (next : Z) (es : list entry) : list (Z * group_configuration) :=
  match es with
  | [] => []
  | e :: es' =>
      match e_configuration e with Some cfg => [(next, cfg)] | None => [] end ++
      extract_configurations (next + e_last_offset_delta e + 1) es'
  end.

Definition sum_bytes (es : list entry) : Z := foldr (fun e n => e_bytes e + n) 0 es.

(** [checkpoint_hint] and [idle] as in [maybe_store_highest_known_offset]. *)
Definition disk_append `{HashOrder} (d : disk_outcome) (update_last_quorum_idx checkpoint_hint idle : bool)
    (es : list entry) (c : consensus) : consensus * res Z :=
  match d with
  | disk_fails k => (set_log (log_append (_log c) (take k es)) c, Throw runtime_error)
  | disk_ok =>
      let confs := extract_configurations (next_offset (dirty_offset (offsets (_log c)))) es in
      let l := log_append (_log c) es in
      let last := dirty_offset (offsets l) in
      let c := set_pending_flush_bytes (_pending_flush_bytes c + sum_bytes es) (set_log l c) in
      let c := if update_last_quorum_idx then with_indices (set_last_quorum_replicated_index_with_flush last) c else c in
      let finish c := (set_configuration_manager (maybe_store_highest_known_offset last (sum_bytes es)
                         checkpoint_hint idle (_configuration_manager c)) c, Ok last) in
      match confs with
      | [] => finish c
      | _ =>
          let '(m, r) := add_all confs (_configuration_manager c) in
          let c := set_configuration_manager m c in
          match r with
          | Ok _ =>
              match (cfg ← config c; update_follower_states cfg c) with
              | Ok c => finish c
              | Throw e => (c, Throw e)
              | Crash => (c, Crash)
              end
          | Throw e => (c, Throw e)
          | Crash => (c, Crash)
          end
      end
  end.

(** [flush_log], when nothing interleaves with the flush; the commit index is updated later
    ([maybe_update_leader_commit_idx]).  After the flush the log's committed offset is its
    last. *)
Definition flush_log (c : consensus) : res consensus :=
  if 0 <? _pending_flush_bytes c then
    let flushed_up_to := dirty_offset (offsets (_log c)) in
    let c := with_indices (fun i => set_flushed_offset (flushed_up_to `max` _flushed_offset i) i)
               (set_pending_flush_bytes 0 c) in
    c ← maybe_update_majority_replicated_index c;
    _ ← vassert (_flushed_offset (indices c) <=? dirty_offset (offsets (_log c)));
    Ok c
  else Ok c.

(** ** Followers *)

Definition maybe_update_follower_commit_idx (request_commit_idx : Z) (c : consensus) : consensus :=
  if _commit_index (indices c) <? request_commit_idx
  then with_indices (fun i => set_commit_index (request_commit_idx `min` _flushed_offset i) i) c
  else c.

(** The loop over the batches that the follower already has: where the request's log and
    the follower's part, and the batches after that. *)
Fixpoint skip_matching (c : consensus) (last_log_offset last_matched : Z) (es : list entry) : Z * list entry :=
  match es with
  | [] => (last_matched, [])
  | e :: es' =>
      let last_batch_offset := e_last_offset_delta e + next_offset last_matched in
      if (last_log_offset <? last_batch_offset) || negb (get_term c last_batch_offset =? e_term e)
      then (last_matched, es)
      else skip_matching c last_log_offset last_batch_offset es'
  end.

Section append_entries.
Context `{HashOrder} (now : Z) (coordinated checkpoint_hint idle : bool).

Definition initial_reply (r : append_entries_request) (c : consensus) : append_entries_reply :=
  {| ap_target_node_id := ar_source_node r; ap_node_id := _self c; ap_group := pm_group (ar_meta r);
     ap_term := _term (elec c); ap_last_flushed_log_index := _flushed_offset (indices c);
     ap_last_dirty_log_index := dirty_offset (offsets (_log c)); ap_result := reply_result.failure;
     ap_may_recover := is_active (_follower_recovery_state c) |}.

(** The request does not fit: the follower asks for recovery. *)
Definition reject_append (r : append_entries_request) (reply : append_entries_reply) (c : consensus) :
    consensus * append_entries_reply :=
  let m := ar_meta r in
  let c := upsert_recovery_state coordinated (dirty_offset (offsets (_log c))) (pm_dirty_offset m)
             (pm_prev_log_index m <? pm_dirty_offset m) c in
  (c, reply_may_recover (is_active (_follower_recovery_state c)) reply).

(** The leader controls what is visible on a follower. *)
Definition update_visibility (m : protocol_metadata) (last_offset : Z) (c : consensus) : consensus :=
  let c := maybe_update_last_visible_index (last_offset `min` pm_last_visible_index m) c in
  let c := with_indices (update_last_leader_visible (pm_last_visible_index m)) c in
  with_election (fun e => set_confirmed_term (_term e) e) c.

(** A request without new records.  Its flush is started before and awaited after the
    visibility is updated; the two do not depend on each other. *)
Definition append_heartbeat (r : append_entries_request) (prev_log_index : Z) (reply : append_entries_reply)
    (c : consensus) : res (consensus * append_entries_reply) :=
  let m := ar_meta r in
  let dirty := dirty_offset (offsets (_log c)) in
  if prev_log_index <? dirty then Ok (c, reply)
  else
    c ← (if ar_flush r && (_flushed_offset (indices c) <? dirty) then flush_log c else Ok c);
    let c := set_follower_recovery_state None (update_visibility m dirty c) in
    let c := maybe_update_follower_commit_idx (pm_commit_index m) c in
    Ok (c, reply_success (ap_last_dirty_log_index reply) (_flushed_offset (indices c)) reply).

(** The follower's log has batches after [prev_log_index] that are not the leader's. *)
Definition append_truncate (truncated : bool) (prev_log_index : Z) (reply : append_entries_reply)
    (c : consensus) : res (consensus * append_entries_reply) :=
  let commit := _commit_index (indices c) in
  if prev_log_index <? commit then Ok (c, reply_success commit commit reply)
  else
    let truncate_at := next_offset prev_log_index in
    let lower := prev_offset truncate_at in
    let c := with_indices (fun i =>
               set_majority_replicated_index (lower `min` _majority_replicated_index i)
                 (set_last_quorum_replicated_index_with_flush (lower `min` _last_quorum_replicated_index_with_flush i)
                    (set_flushed_offset (lower `min` _flushed_offset i) i))) c in
    if negb truncated then Ok (c, reply)
    else
      let c := set_log (log_truncate truncate_at (_log c)) c in
      let '(m, r) := truncate truncate_at (_configuration_manager c) in
      let c := set_configuration_manager m c in
      match r with
      | Ok _ =>
          match (cfg ← config c; update_follower_states cfg c) with
          | Ok c =>
              let dirty := dirty_offset (offsets (_log c)) in
              let c := if dirty =? prev_log_index then c
                       else with_indices (fun i => set_flushed_offset (prev_offset dirty `min` _flushed_offset i) i) c in
              Ok (c, reply_success prev_log_index (prev_log_index `min` _flushed_offset (indices c)) reply)
          | Throw _ => Ok (c, reply)
          | Crash => Crash
          end
      | Throw _ => Ok (c, reply)
      | Crash => Crash
      end.

(** The request continues the follower's log. *)
Definition append_batches (d : disk_outcome) (r : append_entries_request) (es : list entry)
    (reply : append_entries_reply) (c : consensus) : res (consensus * append_entries_reply) :=
  let m := ar_meta r in
  let heard := with_election (set_hbeat now) in
  match disk_append d false checkpoint_hint idle es c with
  | (c, Ok last) =>
      let c := maybe_update_follower_commit_idx (pm_commit_index m) (update_visibility m last c) in
      let c := set_follower_recovery_state
                 (s ← _follower_recovery_state c;
                  if pm_dirty_offset m =? pm_prev_log_index m then None
                  else Some (update_progress last (pm_dirty_offset m `max` last) s)) c in
      Ok (heard c,
          {| ap_target_node_id := ap_target_node_id reply; ap_node_id := _self c; ap_group := _group c;
             ap_term := _term (elec c); ap_last_flushed_log_index := _flushed_offset (indices c);
             ap_last_dirty_log_index := last; ap_result := reply_result.success;
             ap_may_recover := is_active (_follower_recovery_state c) |})
  | (c, Throw _) => Ok (heard c, reply)
  | (_, Crash) => Crash
  end.

(** The request is of the follower's term. *)
Definition append_in_term (truncated : bool) (d : disk_outcome) (r : append_entries_request)
    (reply : append_entries_reply) (c : consensus) : res (consensus * append_entries_reply) :=
  let m := ar_meta r in
  let prev := pm_prev_log_index m in
  let st := offsets (_log c) in
  let last_log_offset := dirty_offset st in
  if last_log_offset <? prev then Ok (reject_append r reply c)
  else
    let last_log_term := if last_log_offset =? prev then dirty_offset_term st else get_term c prev in
    if (start_offset st <=? prev) && negb (pm_prev_log_term m =? last_log_term) then Ok (reject_append r reply c)
    else
      let '(adjusted, es) := if prev <? last_log_offset then skip_matching c last_log_offset prev (ar_batches r)
                             else (prev, ar_batches r) in
      match es with
      | [] =>
          if negb (adjusted =? prev)
          then Ok (c, reply_success adjusted (adjusted `min` _flushed_offset (indices c)) reply)
          else append_heartbeat r adjusted reply c
      | _ =>
          let '(c, reply) :=
            if adjusted <? pm_dirty_offset m then
              let c := upsert_recovery_state coordinated last_log_offset (pm_dirty_offset m) true c in
              (c, reply_may_recover (is_active (_follower_recovery_state c)) reply)
            else (c, reply) in
          if adjusted <? last_log_offset then append_truncate truncated adjusted reply c
          else append_batches d r es reply c
      end.

Definition accept_leader (r : append_entries_request) (c : consensus) : consensus :=
  do_step_down now (set_priority_tracker (on_successful_leader_election (_priority_tracker c)) c).

(** A request of a larger term is handled again once the term is taken over. *)
Definition do_append_entries (truncated : bool) (d : disk_outcome) (r : append_entries_request) (c : consensus) :
    res (consensus * append_entries_reply) :=
  let src := ar_source_node r in
  let term := pm_term (ar_meta r) in
  if negb (bool_decide (ar_target_node_id r = _self c)) then Ok (c, initial_reply r c)
  else if term <? _term (elec c) then Ok (c, initial_reply r c)
  else
    let c := if _term (elec c) <? term
             then maybe_update_leader src
                    (with_election (fun e => set_voted_for no_vnode (set_term term e)) (accept_leader r c))
             else c in
    let reply := initial_reply r c in
    append_in_term truncated d r reply (maybe_update_leader src (accept_leader r c)).

End append_entries.

(** ** The leader *)

(** Assignments to the fields of a follower's metadata that replies change. *)
Definition set_reply_received (now seq : Z) (f : follower_index_metadata) : follower_index_metadata :=
  {| last_flushed_log_index := last_flushed_log_index f; last_dirty_log_index := last_dirty_log_index f;
     match_index := match_index f; next_index := next_index f;
     expected_log_end_offset := expected_log_end_offset f; last_received_reply_timestamp := now;
     heartbeats_failed := heartbeats_failed f; last_sent_seq := last_sent_seq f; last_received_seq := seq;
     last_successful_received_seq := last_successful_received_seq f; is_learner := is_learner f;
     is_recovering := is_recovering f; inflight_append_request_count := inflight_append_request_count f |}.

Definition set_follower_log (dirty flushed : Z) (f : follower_index_metadata) : follower_index_metadata :=
  {| last_flushed_log_index := flushed; last_dirty_log_index := dirty; match_index := match_index f;
     next_index := next_offset dirty; expected_log_end_offset := expected_log_end_offset f;
     last_received_reply_timestamp := last_received_reply_timestamp f; heartbeats_failed := heartbeats_failed f;
     last_sent_seq := last_sent_seq f; last_received_seq := last_received_seq f;
     last_successful_received_seq := last_successful_received_seq f; is_learner := is_learner f;
     is_recovering := is_recovering f; inflight_append_request_count := inflight_append_request_count f |}.

Definition set_expected_end (o : Z) (f : follower_index_metadata) : follower_index_metadata :=
  {| last_flushed_log_index := last_flushed_log_index f; last_dirty_log_index := last_dirty_log_index f;
     match_index := match_index f; next_index := next_index f; expected_log_end_offset := o;
     last_received_reply_timestamp := last_received_reply_timestamp f; heartbeats_failed := heartbeats_failed f;
     last_sent_seq := last_sent_seq f; last_received_seq := last_received_seq f;
     last_successful_received_seq := last_successful_received_seq f; is_learner := is_learner f;
     is_recovering := is_recovering f; inflight_append_request_count := inflight_append_request_count f |}.

Definition successfull_append_entries_reply (p : append_entries_reply) (f : follower_index_metadata) :
    follower_index_metadata :=
  let f := set_follower_log (ap_last_dirty_log_index p) (ap_last_flushed_log_index p) f in
  {| last_flushed_log_index := last_flushed_log_index f; last_dirty_log_index := last_dirty_log_index f;
     match_index := last_dirty_log_index f; next_index := next_index f;
     expected_log_end_offset := last_dirty_log_index f `max` expected_log_end_offset f;
     last_received_reply_timestamp := last_received_reply_timestamp f; heartbeats_failed := heartbeats_failed f;
     last_sent_seq := last_sent_seq f; last_received_seq := last_received_seq f;
     last_successful_received_seq := last_received_seq f; is_learner := is_learner f;
     is_recovering := is_recovering f; inflight_append_request_count := inflight_append_request_count f |}.

Definition needs_recovery (f : follower_index_metadata) (dirty : Z) : bool :=
  (match_index f <? dirty) || (last_dirty_log_index f <? match_index f).

(** [dispatch_recovery], up to the start of the recovery_stm. *)
Definition dispatch_recovery (log_max_offset : Z) (f : follower_index_metadata) : follower_index_metadata :=
  let ahead := log_max_offset <=? last_dirty_log_index f in
  {| last_flushed_log_index := last_flushed_log_index f; last_dirty_log_index := last_dirty_log_index f;
     match_index := match_index f; next_index := if ahead then log_max_offset else next_index f;
     expected_log_end_offset := if ahead then no_offset else expected_log_end_offset f;
     last_received_reply_timestamp := last_received_reply_timestamp f; heartbeats_failed := heartbeats_failed f;
     last_sent_seq := last_sent_seq f; last_received_seq := last_received_seq f;
     last_successful_received_seq := last_successful_received_seq f; is_learner := is_learner f;
     is_recovering := true; inflight_append_request_count := inflight_append_request_count f |}.

(** What [update_follower_index] leaves to a step of its own: stepping down to a larger term. *)
Inductive index_update := index_updated (success : bool) | must_step_down (term : Z).

(** [update_follower_index] for a reply that arrived.  [may_recover_always] is true of the
    controller's group and if the feature for coordinated recovery is off. *)
Definition update_follower_index (now : Z) (may_recover_always : bool) (physical_node : Z)
    (p : append_entries_reply) (seq dirty : Z) (c : consensus) : res (consensus * index_update) :=
  let node := ap_node_id p in
  let ignored := Ok (c, index_updated false) in
  if bool_decide (node = _self c) then Ok (c, index_updated true)
  else if bool_decide (ap_result p = reply_result.follower_busy) then ignored
  else
    cfg ← config c;
    if negb (contains cfg node) then ignored
    else match _fstates c !! node with
    | None => ignored
    | Some f =>
        if negb (vn_id node =? physical_node) then ignored
        else if bool_decide (ap_result p = reply_result.group_unavailable) then ignored
        else if negb (ap_group p =? _group c) then Throw runtime_error
        else if negb (is_elected_leader c) then ignored
        else
          let store f c := set_fstates (<[node := f]> (_fstates c)) c in
          let heard := set_reply_received now (last_received_seq f) f in
          if (seq <? last_received_seq f) && (ap_last_dirty_log_index p <? dirty_offset (offsets (_log c)))
          then Ok (store heard c, index_updated false)
          else
            let f := set_reply_received now ((seq `max` last_received_seq f) `min` last_sent_seq f) f in
            if _term (elec c) <? ap_term p then Ok (store f c, must_step_down (ap_term p))
            else
              let f := if is_recovering f then f
                       else set_follower_log (ap_last_dirty_log_index p) (ap_last_flushed_log_index p) f in
              if bool_decide (ap_result p = reply_result.success)
              then Ok (store (successfull_append_entries_reply p f) c, index_updated true)
              else
                let f := set_expected_end no_offset f in
                if is_recovering f then
                  let f := if ap_last_dirty_log_index p <? last_dirty_log_index f
                           then set_follower_log (ap_last_dirty_log_index p) (ap_last_flushed_log_index p) f
                           else f in
                  Ok (store f c, index_updated false)
                else
                  let f := if needs_recovery f dirty && (ap_may_recover p || may_recover_always)
                           then dispatch_recovery (dirty_offset (offsets (_log c))) f else f in
                  Ok (store f c, index_updated false)
    end.

(** What each voter has on disk, as far as the leader knows. *)
Definition flushed_on (c : consensus) (id : vnode) : Z :=
  if bool_decide (id = _self c) then _flushed_offset (indices c)
  else match _fstates c !! id with Some f => match_committed_index f | None => no_offset end.

Definition update_confirmed_term (c : consensus) : consensus :=
  let prev := _confirmed_term (elec c) in
  let c := with_election (fun e => set_confirmed_term (_term e) e) c in
  if negb (prev =? _term (elec c)) && is_elected_leader c then trigger_leadership_notification c else c.

(** [do_maybe_update_leader_commit_idx]; the flag says that [maybe_commit_configuration]
    follows. *)
Definition do_maybe_update_leader_commit_idx (c : consensus) : res (consensus * bool) :=
  cfg ← config c;
  let majority_match := quorum_match no_offset cfg (flushed_on c) in
  let c := if get_term c majority_match =? _term (elec c) then update_confirmed_term c else c in
  let majority_match := majority_match `min` _flushed_offset (indices c) in
  if (_commit_index (indices c) <? majority_match) && (get_term c majority_match =? _term (elec c)) then
    let c := with_indices (set_commit_index majority_match) (update_confirmed_term c) in
    let visible := if _last_quorum_replicated_index_with_flush (indices c) <=? majority_match
                   then _majority_replicated_index (indices c) else majority_match in
    Ok (maybe_update_last_visible_index majority_match (maybe_update_last_visible_index visible c), true)
  else Ok (c, false).

(** [maybe_update_leader_commit_idx] under the lock. *)
Definition maybe_update_leader_commit_idx (c : consensus) : res (consensus * bool) :=
  if is_elected_leader c then do_maybe_update_leader_commit_idx c else Ok (c, false).

(** [majority_heartbeat] and [maybe_step_down]. *)
Definition majority_heartbeat (now : Z) (c : consensus) : res Z :=
  cfg ← config c;
  Ok (quorum_match 0 cfg (fun id =>
    if bool_decide (id = _self c) then now
    else match _fstates c !! id with Some f => last_received_reply_timestamp f | None => time_min end)).

Definition maybe_step_down (now base_duration : Z) (c : consensus) : res consensus :=
  if is_elected_leader c then
    hbeat ← majority_heartbeat now c;
    if (hbeat `max` _became_leader_at (elec c)) + base_duration <? now
    then Ok (clear_leader (do_step_down now c)) else Ok c
  else Ok c.
