(* ===== verification/RaftAppendProps.v ===== *)
(** * Replication: what followers and leaders may rely on

    A follower never touches what is committed, a success reply vouches for the part of the
    log it names, and a leader commits exactly what a majority has on disk in its term. *)

From stdpp Require Import sorting.
From S2P Require Import Prelude Errors OffsetTranslator GroupConfiguration GroupConfigurationProps ConfigurationManager VoterPriority RaftState RaftVote RaftAppend.

(** ** Offsets *)

Definition offset_ok (o : Z) : Prop := o = no_offset \/ 0 <= o < int64_max - 1.

Lemma next_offset_nonneg o : 0 <= o < int64_max - 1 -> next_offset o = o + 1.
Proof.
  intros Ho. unfold next_offset. destruct (Z.ltb_spec o 0); [lia|]. destruct (Z.eqb_spec o int64_max); [lia|].
  apply swrap_id; ranges.
Qed.

Lemma prev_next_offset o : offset_ok o -> prev_offset (next_offset o) = o.
Proof.
  intros [->|Ho]; [reflexivity|]. rewrite next_offset_nonneg by done. unfold prev_offset.
  destruct (Z.leb_spec (o + 1) 0); [lia|]. rewrite swrap_id; [lia|ranges..].
Qed.

Lemma next_offset_gt o x : offset_ok o -> 0 <= x -> x < next_offset o <-> x <= o.
Proof.
  intros [->|Ho] Hx; [change (next_offset no_offset) with 0; unfold no_offset, int64_min; lia|].
  rewrite next_offset_nonneg by done. lia.
Qed.

(** ** Logs *)

(** Batches follow each other without gaps. *)
Fixpoint chain (next : Z) (bs : list log_batch) : Prop :=
  match bs with
  | [] => True
  | b :: bs' => lb_base_offset b = next /\ next <= lb_last_offset b < int64_max - 1 /\ chain (lb_last_offset b + 1) bs'
  end.

(** The first batch holds the start offset, which may lie inside it. *)
Definition log_ok (l : raft_log) : Prop :=
  0 <= lg_start_offset l < int64_max - 1 /\
  match lg_batches l with
  | [] => True
  | b :: _ => 0 <= lb_base_offset b <= lg_start_offset l /\ lg_start_offset l <= lb_last_offset b /\
              chain (lb_base_offset b) (lg_batches l)
  end.

Definition dirty (l : raft_log) : Z := dirty_offset (offsets l).

Lemma chain_bounds next bs b : chain next bs -> b ∈ bs ->
  next <= lb_base_offset b <= lb_last_offset b /\ lb_last_offset b < int64_max - 1.
Proof.
  revert next. induction bs as [|b' bs IH]; intros next; [by intros _ ?%elem_of_nil|].
  intros (Hbase & Hb & Hc) [->|Hin]%elem_of_cons; [lia|]. specialize (IH _ Hc Hin). lia.
Qed.

Lemma chain_last next bs b b' : chain next bs -> last bs = Some b' -> b ∈ bs -> lb_last_offset b <= lb_last_offset b'.
Proof.
  revert next. induction bs as [|x bs IH]; intros next; [done|]. intros (Hbase & Hb & Hc) Hl [->|Hin]%elem_of_cons.
  - destruct bs as [|y bs]; [by cbn in Hl; simplify_eq|].
    rewrite last_cons_cons in Hl. pose proof (last_Some_elem_of _ _ Hl) as Hin.
    pose proof (chain_bounds _ _ _ Hc Hin). lia.
  - destruct bs as [|y bs]; [by apply elem_of_nil in Hin|]. rewrite last_cons_cons in Hl. eauto.
Qed.

Lemma batches_chain_app next bs bs' : chain next (bs ++ bs') <->
  chain next bs /\ chain (match last bs with Some b => lb_last_offset b + 1 | None => next end) bs'.
Proof.
  revert next. induction bs as [|b bs IH]; intros next; [by cbn; tauto|].
  cbn [chain app]. rewrite IH. destruct bs as [|b' bs]; [cbn; tauto|]. rewrite last_cons_cons.
  destruct (last (b' :: bs)) eqn:E; [tauto|by apply last_None in E].
Qed.

Lemma dirty_last l b : last (lg_batches l) = Some b -> dirty l = lb_last_offset b.
Proof. unfold dirty, offsets. by intros ->. Qed.

Lemma dirty_empty l : lg_batches l = [] -> dirty l = if lg_start_offset l >? 0 then lg_start_offset l - 1 else no_offset.
Proof. unfold dirty, offsets. by intros ->. Qed.

Lemma log_ok_chain l : log_ok l -> exists next, 0 <= next /\ chain next (lg_batches l).
Proof.
  intros [Hs Hb]. destruct (lg_batches l) as [|b bs]; [by exists 0|]. destruct Hb as (? & _ & ?).
  exists (lb_base_offset b). split; [lia|done].
Qed.

Lemma log_bounds l b : log_ok l -> b ∈ lg_batches l -> 0 <= lb_base_offset b <= lb_last_offset b /\ lb_last_offset b <= dirty l.
Proof.
  intros (next & Hn & Hc)%log_ok_chain Hin. pose proof (chain_bounds _ _ _ Hc Hin).
  destruct (last (lg_batches l)) as [b'|] eqn:El; [|by apply last_None in El; rewrite El in Hin; apply elem_of_nil in Hin].
  rewrite (dirty_last _ _ El). pose proof (chain_last _ _ _ _ Hc El Hin). lia.
Qed.

Lemma dirty_ok l : log_ok l -> offset_ok (dirty l).
Proof.
  intros Hl. destruct (last (lg_batches l)) as [b|] eqn:El.
  - rewrite (dirty_last _ _ El). apply last_Some_elem_of in El.
    destruct (log_ok_chain l Hl) as (next & Hn & Hc). pose proof (chain_bounds _ _ _ Hc El). right. lia.
  - apply last_None in El. rewrite (dirty_empty _ El). destruct Hl as [Hs _].
    destruct (Z.gtb_spec (lg_start_offset l) 0); [right; lia|by left].
Qed.

(** *** Appending *)

Fixpoint entries_fit (next : Z) (es : list entry) : Prop :=
  match es with
  | [] => True
  | e :: es' => 0 <= e_last_offset_delta e /\ next + e_last_offset_delta e < int64_max - 1 /\
                entries_fit (next + e_last_offset_delta e + 1) es'
  end.

(** The batches of a request at their offsets. *)
Fixpoint place (next : Z) (es : list entry) : list log_batch :=
  match es with
  | [] => []
  | e :: es' =>
      {| lb_base_offset := next; lb_last_offset := next + e_last_offset_delta e; lb_term := e_term e;
         lb_bytes := e_bytes e; lb_configuration := e_configuration e |}
      :: place (next + e_last_offset_delta e + 1) es'
  end.

Lemma place_chain next es : entries_fit next es -> chain next (place next es).
Proof.
  revert next. induction es as [|e es IH]; intros next; [done|]. intros (? & ? & ?). cbn.
  split_and!; [done|lia..|by apply IH].
Qed.

Lemma entries_fit_take next es k : entries_fit next es -> entries_fit next (take k es).
Proof.
  revert next k. induction es as [|e es IH]; intros next [|k]; [done..|]. intros (? & ? & ?). cbn. auto.
Qed.

Lemma entries_fit_nonneg o : offset_ok o -> 0 <= next_offset o.
Proof. intros [->|Ho]; [done|]. rewrite next_offset_nonneg by done. lia. Qed.

Lemma log_append_place l es : entries_fit (next_offset (dirty l)) es -> 0 <= next_offset (dirty l) ->
  lg_start_offset (log_append l es) = lg_start_offset l /\
  lg_batches (log_append l es) = lg_batches l ++ place (next_offset (dirty l)) es.
Proof.
  unfold log_append. revert l. induction es as [|e es IH]; intros l; [by rewrite app_nil_r|].
  intros (Hd & Hb & Hf) H0. cbn [fold_left]. set (l1 := log_append_one l e).
  assert (Ed : dirty l1 = next_offset (dirty l) + e_last_offset_delta e).
  { erewrite dirty_last; [|apply last_snoc]. done. }
  assert (En : next_offset (dirty l1) = next_offset (dirty l) + e_last_offset_delta e + 1)
    by (rewrite Ed; apply next_offset_nonneg; lia).
  rewrite <- En in Hf. destruct (IH l1 Hf ltac:(lia)) as [-> ->]. split; [done|].
  rewrite En. cbn. by rewrite <- app_assoc.
Qed.

(** The next offset of a log is where its chain goes on. *)
Lemma chain_next l next : log_ok l -> chain next (lg_batches l) -> lg_batches l <> [] ->
  match last (lg_batches l) with Some b => lb_last_offset b + 1 | None => next end = next_offset (dirty l).
Proof.
  intros Hl Hc Hne. destruct (last (lg_batches l)) as [b|] eqn:El; [|by apply last_None in El].
  rewrite (dirty_last _ _ El). apply last_Some_elem_of in El. pose proof (chain_bounds _ _ _ Hc El).
  destruct (log_bounds l b Hl El) as [? _]. rewrite next_offset_nonneg; lia.
Qed.

Lemma next_dirty_start l : log_ok l -> lg_batches l = [] -> next_offset (dirty l) = lg_start_offset l.
Proof.
  intros [Hs _] E. rewrite (dirty_empty _ E). destruct (Z.gtb_spec (lg_start_offset l) 0).
  - rewrite next_offset_nonneg; lia.
  - change (next_offset no_offset) with 0. lia.
Qed.

Lemma log_append_ok l es : log_ok l -> entries_fit (next_offset (dirty l)) es -> log_ok (log_append l es).
Proof.
  intros Hl Hf. pose proof (entries_fit_nonneg _ (dirty_ok _ Hl)) as H0.
  destruct (log_append_place l es Hf H0) as [Es Eb]. unfold log_ok. rewrite Es, Eb.
  split; [apply Hl|]. destruct (lg_batches l) as [|b bs] eqn:El; cbn [app].
  - destruct es as [|e es]; [done|]. pose proof (place_chain _ _ Hf) as Hc.
    cbn [place] in *. rewrite (next_dirty_start l Hl El) in *. destruct Hf as (? & ? & _). destruct Hl as [? _].
    cbn [lb_base_offset lb_last_offset]. split; [lia|]. split; [lia|exact Hc].
  - pose proof Hl as [_ Hb]. rewrite El in Hb. destruct Hb as (? & ? & Hc). split; [done|]. split; [done|].
    change (b :: bs ++ ?x) with ((b :: bs) ++ x). apply batches_chain_app. split; [done|].
    rewrite <- El in Hc |- *. rewrite (chain_next l _ Hl Hc) by (by rewrite El). by apply place_chain.
Qed.

Lemma place_bounds next es b : entries_fit next es -> b ∈ place next es -> next <= lb_base_offset b <= lb_last_offset b.
Proof. intros Hf Hb. pose proof (chain_bounds _ _ _ (place_chain _ _ Hf) Hb). lia. Qed.

Lemma dirty_lt_next l b es : log_ok l -> entries_fit (next_offset (dirty l)) es ->
  b ∈ place (next_offset (dirty l)) es -> dirty l < lb_last_offset b.
Proof.
  intros Hl Hf Hb. pose proof (place_bounds _ _ _ Hf Hb).
  destruct (dirty_ok _ Hl) as [E|E]; [rewrite E in *; change (next_offset no_offset) with 0 in *; unfold no_offset, int64_min; lia|].
  rewrite next_offset_nonneg in * by done. lia.
Qed.

Lemma dirty_append l es : log_ok l -> entries_fit (next_offset (dirty l)) es -> dirty l <= dirty (log_append l es).
Proof.
  intros Hl Hf. pose proof (log_append_ok l es Hl Hf) as Hl'. pose proof (entries_fit_nonneg _ (dirty_ok _ Hl)) as H0.
  destruct (log_append_place l es Hf H0) as [Es Eb].
  destruct (last (place (next_offset (dirty l)) es)) as [b|] eqn:E.
  - apply last_Some_elem_of in E. pose proof (dirty_lt_next l b es Hl Hf E).
    destruct (log_bounds _ b Hl') as [_ ?]; [|lia]. rewrite Eb. apply elem_of_app. by right.
  - apply last_None in E. destruct es; [|done]. done.
Qed.

(** *** Truncating *)

Lemma chain_split next bs x : chain next bs ->
  bs = filter (fun b => lb_last_offset b < x) bs ++ filter (fun b => x <= lb_last_offset b) bs.
Proof.
  revert next. induction bs as [|b bs IH]; intros next; [done|]. intros (Hbase & Hb & Hc). rewrite !filter_cons.
  destruct (decide (lb_last_offset b < x)).
  - rewrite decide_False by lia. cbn. f_equal. by eapply IH.
  - rewrite decide_True by lia. rewrite (filter_none _ bs), (filter_all _ bs); [done|..];
      intros b' Hb'; pose proof (chain_bounds _ _ _ Hc Hb'); lia.
Qed.

Lemma log_truncate_ok l x : log_ok l -> log_ok (log_truncate x l).
Proof.
  intros Hl. pose proof Hl as [Hs Hb]. split; [done|]. cbn [log_truncate lg_batches lg_start_offset].
  destruct (lg_batches l) as [|b bs] eqn:El; [done|]. destruct Hb as (H1 & H2 & Hc).
  pose proof (chain_split _ _ x Hc) as Hsp. rewrite Hsp in Hc at 1. apply batches_chain_app in Hc as [Hc _].
  destruct (filter _ (b :: bs)) as [|b' bs'] eqn:Ef; [done|].
  cbn [app] in Hsp. simplify_eq. done.
Qed.

(** *** Terms *)

Definition term_at (l : raft_log) (o : Z) : Z := default no_term (log_get_term l o).

Lemma get_term_at c o : log_ok (_log c) -> lg_start_offset (_log c) <= o -> get_term c o = term_at (_log c) o.
Proof.
  intros [Hs Hb] Ho. unfold get_term. destruct (Z.ltb_spec o 0); [lia|].
  destruct (Z.eqb_spec o (dirty_offset (offsets (_log c)))) as [E|]; [|done]. cbn.
  destruct (Z.ltb_spec (dirty_offset (offsets (_log c))) (start_offset (offsets (_log c)))) as [Hlt|]; [|done].
  rewrite <- E in Hlt. unfold offsets in Hlt. destruct (last (lg_batches (_log c))); cbn in Hlt; [|lia].
  destruct (Z.geb_spec (lg_start_offset (_log c)) 0); lia.
Qed.

(** An offset the log holds lies in its batches. *)
Lemma log_reaches l o : log_ok l -> lg_start_offset l <= o <= dirty l ->
  exists b, b ∈ lg_batches l /\ o <= lb_last_offset b.
Proof.
  intros [Hs _] Ho. destruct (last (lg_batches l)) as [b|] eqn:El.
  - exists b. rewrite (dirty_last _ _ El) in Ho. split; [by apply last_Some_elem_of|lia].
  - apply last_None in El. rewrite (dirty_empty _ El) in Ho.
    destruct (Z.gtb_spec (lg_start_offset l) 0); unfold no_offset, int64_min in *; lia.
Qed.

Lemma term_at_app l l' rest o : lg_start_offset l' = lg_start_offset l -> lg_batches l' = lg_batches l ++ rest ->
  (exists b, b ∈ lg_batches l /\ o <= lb_last_offset b) -> term_at l' o = term_at l o.
Proof.
  intros Es Eb (b & Hb & Ho). unfold term_at, log_get_term. rewrite Es, Eb.
  destruct (list_find_elem_of (fun b => o <= lb_last_offset b) (lg_batches l) b Hb Ho) as [[i x] Hf].
  rewrite (list_find_app_l _ _ _ _ _ Hf), Hf. done.
Qed.

Lemma term_at_append l es o : log_ok l -> entries_fit (next_offset (dirty l)) es ->
  lg_start_offset l <= o <= dirty l -> term_at (log_append l es) o = term_at l o.
Proof.
  intros Hl Hf Ho. destruct (log_append_place l es Hf (entries_fit_nonneg _ (dirty_ok _ Hl))) as [Es Eb].
  eapply term_at_app; [done..|]. by apply log_reaches.
Qed.

Lemma term_at_truncate l x o : log_ok l -> lg_start_offset l <= o <= dirty (log_truncate x l) ->
  term_at (log_truncate x l) o = term_at l o.
Proof.
  intros Hl Ho. destruct (log_ok_chain l Hl) as (next & _ & Hc). symmetry.
  eapply (term_at_app (log_truncate x l)); [done|by apply (chain_split next)|].
  apply log_reaches; [by apply log_truncate_ok|done].
Qed.

Lemma term_at_batch l b : log_ok l -> b ∈ lg_batches l -> lg_start_offset l <= lb_last_offset b ->
  term_at l (lb_last_offset b) = lb_term b.
Proof.
  intros (next & _ & Hc)%log_ok_chain Hb Hs. unfold term_at, log_get_term.
  assert (Hf : exists i, list_find (fun x => lb_last_offset b <= lb_last_offset x) (lg_batches l) = Some (i, b)).
  { clear Hs. revert next Hc. induction (lg_batches l) as [|y bs IH]; intros next Hc; [by apply elem_of_nil in Hb|].
    destruct Hc as (Hbase & Hy & Hc).
    apply elem_of_cons in Hb as [->|Hb]; cbn.
    - exists 0%nat. by rewrite decide_True by lia.
    - pose proof (chain_bounds _ _ _ Hc Hb). rewrite decide_False by lia.
      destruct (IH Hb _ Hc) as [i ->]. by exists (S i). }
  destruct Hf as [i ->]. by rewrite (proj2 (Z.leb_le _ _) Hs).
Qed.

(** ** Skipping what the follower has *)

Lemma skip_matching_spec c end_ m es m' es' : offset_ok m -> entries_fit (next_offset m) es ->
  skip_matching c end_ m es = (m', es') ->
  exists pre, es = pre ++ es' /\ offset_ok m' /\ m <= m' /\ m' <= m `max` end_ /\
    entries_fit (next_offset m') es' /\
    place (next_offset m) es = place (next_offset m) pre ++ place (next_offset m') es' /\
    forall b, b ∈ place (next_offset m) pre -> lb_last_offset b <= m' /\ get_term c (lb_last_offset b) = lb_term b.
Proof.
  revert m. induction es as [|e es IH]; intros m Hm Hf Hs.
  { cbn in Hs. simplify_eq. exists []. split_and!; [done..|lia|lia|done|done|by intros ? ?%elem_of_nil]. }
  pose proof (entries_fit_nonneg _ Hm) as H0. pose proof Hf as (Hd & Hb & Hf').
  cbn [skip_matching] in Hs. set (o := e_last_offset_delta e + next_offset m) in *.
  destruct (_ || _) eqn:Eo in Hs.
  { simplify_eq. exists []. split_and!; [done..|lia|lia|done|done|by intros ? ?%elem_of_nil]. }
  apply orb_false_iff in Eo as [Eo1 Eo2]. apply Z.ltb_ge in Eo1. apply negb_false_iff, Z.eqb_eq in Eo2.
  assert (En : next_offset o = next_offset m + e_last_offset_delta e + 1) by (unfold o; rewrite next_offset_nonneg; lia).
  rewrite <- En in Hf'. assert (Ho : offset_ok o) by (right; lia).
  assert (Hmo : m <= o). { destruct Hm as [->|Hm]; [unfold no_offset, int64_min; lia|]. unfold o. rewrite next_offset_nonneg by done. lia. }
  destruct (IH o Ho Hf' Hs) as (pre & -> & Hm' & Hle & Hmax & Hfit & Hpl & Hall).
  exists (e :: pre). split_and!; [done|done|lia|lia|done| |].
  - cbn [app place]. by rewrite <- En, Hpl.
  - cbn [place]. rewrite <- En. intros b [->|Hin]%elem_of_cons; [|auto].
    cbn. replace (next_offset m + e_last_offset_delta e) with o by (unfold o; lia). split; [lia|done].
Qed.

(** ** What the handler changes *)

(** The log, the snapshot's term, the commit index and the flushed offset. *)
Definition core (c : consensus) : raft_log * Z * Z * Z :=
  (_log c, _last_snapshot_term c, _commit_index (indices c), _flushed_offset (indices c)).

Lemma core_trigger c : core (trigger_leadership_notification c) = core c.
Proof. unfold trigger_leadership_notification. by destruct (_follower_recovery_state c), (_leader_id (elec c)). Qed.

Lemma core_maybe_update_leader n c : core (maybe_update_leader n c) = core c.
Proof. unfold maybe_update_leader. case_bool_decide; [done|]. by rewrite core_trigger. Qed.

Lemma core_visibility m o c : core (update_visibility m o c) = core c.
Proof. unfold update_visibility, maybe_update_last_visible_index. by destruct (is_elected_leader c). Qed.

Lemma core_update_states `{HashOrder} cfg c c' : update_follower_states cfg c = Ok c' -> core c' = core c.
Proof. unfold update_follower_states. by intros (fs & _ & [= <-])%res_bind_Ok. Qed.

Lemma core_commit i c : exists commit, core (maybe_update_follower_commit_idx i c) =
  (_log c, _last_snapshot_term c, commit, _flushed_offset (indices c)) /\
  (commit = _commit_index (indices c) \/
   _commit_index (indices c) < i /\ commit = i `min` _flushed_offset (indices c)).
Proof.
  unfold maybe_update_follower_commit_idx. destruct (Z.ltb_spec (_commit_index (indices c)) i); eauto.
Qed.

Lemma core_flush c c' : flush_log c = Ok c' -> exists flushed, core c' =
  (_log c, _last_snapshot_term c, _commit_index (indices c), flushed) /\
  (flushed = _flushed_offset (indices c) \/ flushed = dirty (_log c) `max` _flushed_offset (indices c)).
Proof.
  unfold flush_log. destruct (0 <? _); [|intros [= <-]; eauto].
  intros (c1 & (cfg & _ & [= <-])%res_bind_Ok & (? & _ & [= <-])%res_bind_Ok)%res_bind_Ok. eauto.
Qed.

Lemma core_disk_append `{HashOrder} d q h i es c :
  let '(c', res) := disk_append d q h i es c in
  exists k, core c' = (log_append (_log c) (take k es), _last_snapshot_term c, _commit_index (indices c), _flushed_offset (indices c)) /\
    (forall last, res = Ok last -> take k es = es /\ last = dirty (log_append (_log c) es)).
Proof.
  unfold disk_append. destruct d as [|k]; [|by exists k].
  set (c1 := if q then _ else _). assert (Hc1 : core c1 = (log_append (_log c) es, _last_snapshot_term c, _commit_index (indices c), _flushed_offset (indices c))) by (by destruct q).
  set (conf := extract_configurations _ es). clearbody c1.
  assert (Hk : forall c2, core c2 = core c1 -> exists k, core c2 = (log_append (_log c) (take k es), _last_snapshot_term c, _commit_index (indices c), _flushed_offset (indices c)) /\ take k es = es).
  { intros c2 ->. exists (length es). by rewrite firstn_all. }
  assert (Hfin : forall c2 last, core c2 = core c1 -> last = dirty (log_append (_log c) es) ->
    exists k, core c2 = (log_append (_log c) (take k es), _last_snapshot_term c, _commit_index (indices c), _flushed_offset (indices c)) /\
    (forall last', (Ok last : res Z) = Ok last' -> take k es = es /\ last' = dirty (log_append (_log c) es))).
  { intros c2 last E ->. destruct (Hk c2 E) as (k & ? & ?). exists k. split; [done|]. by intros last' [= <-]. }
  destruct conf as [|x xs]; [by apply Hfin|].
  destruct (add_all (x :: xs) (_configuration_manager c1)) as [m [u|e|]].
  - destruct (config _ ≫= _) as [c2| |] eqn:E.
    + apply res_bind_Ok in E as (cfg & _ & E%core_update_states). by apply Hfin.
    + destruct (Hk (set_configuration_manager m c1) eq_refl) as (k & ? & ?). exists k. by split.
    + destruct (Hk (set_configuration_manager m c1) eq_refl) as (k & ? & ?). exists k. by split.
  - destruct (Hk (set_configuration_manager m c1) eq_refl) as (k & ? & ?). exists k. by split.
  - destruct (Hk (set_configuration_manager m c1) eq_refl) as (k & ? & ?). exists k. by split.
Qed.

(** Where the logs part, and the batches of the request after that. *)
Definition parts_at (r : append_entries_request) (c : consensus) : Z * list entry :=
  let prev := pm_prev_log_index (ar_meta r) in
  if prev <? dirty (_log c) then skip_matching c (dirty (_log c)) prev (ar_batches r) else (prev, ar_batches r).

Lemma get_term_core c c' o : core c' = core c -> get_term c' o = get_term c o.
Proof. intros [= El Es _ _]. unfold get_term. by rewrite El, Es. Qed.

Lemma skip_matching_core c c' e m es : core c' = core c -> skip_matching c' e m es = skip_matching c e m es.
Proof.
  intros E. revert m. induction es as [|x es IH]; intros m; [done|]. cbn. rewrite (get_term_core _ _ _ E), IH. done.
Qed.

Lemma parts_at_core r c c' : core c' = core c -> parts_at r c' = parts_at r c.
Proof.
  intros E. unfold parts_at. rewrite (skip_matching_core _ _ _ _ _ E). by injection E as -> _ _ _.
Qed.

(** The ways a request is answered: log, commit index and flushed offset after it. *)
Inductive append_outcome (r : append_entries_request) (c : consensus) : raft_log -> Z -> Z -> append_entries_reply -> Prop :=
  | out_failed p : ap_result p <> reply_result.success ->
      append_outcome r c (_log c) (_commit_index (indices c)) (_flushed_offset (indices c)) p
  | out_present adj p : parts_at r c = (adj, []) -> adj <> pm_prev_log_index (ar_meta r) ->
      ap_last_dirty_log_index p = adj ->
      append_outcome r c (_log c) (_commit_index (indices c)) (_flushed_offset (indices c)) p
  | out_heartbeat flushed commit p :
      parts_at r c = (pm_prev_log_index (ar_meta r), []) -> dirty (_log c) = pm_prev_log_index (ar_meta r) ->
      flushed = _flushed_offset (indices c) \/ flushed = dirty (_log c) `max` _flushed_offset (indices c) ->
      commit = _commit_index (indices c) \/
        _commit_index (indices c) < pm_commit_index (ar_meta r) /\ commit = pm_commit_index (ar_meta r) `min` flushed ->
      ap_last_dirty_log_index p = dirty (_log c) ->
      append_outcome r c (_log c) commit flushed p
  | out_stale adj es p : parts_at r c = (adj, es) -> adj < _commit_index (indices c) ->
      ap_last_dirty_log_index p = _commit_index (indices c) ->
      append_outcome r c (_log c) (_commit_index (indices c)) (_flushed_offset (indices c)) p
  | out_truncated adj es l flushed p : parts_at r c = (adj, es) -> _commit_index (indices c) <= adj < dirty (_log c) ->
      l = _log c \/ l = log_truncate (next_offset adj) (_log c) ->
      flushed = prev_offset (next_offset adj) `min` _flushed_offset (indices c) \/
        dirty l <> adj /\ l = log_truncate (next_offset adj) (_log c) /\
        flushed = prev_offset (dirty l) `min` (prev_offset (next_offset adj) `min` _flushed_offset (indices c)) ->
      (ap_result p = reply_result.success -> l = log_truncate (next_offset adj) (_log c) /\ ap_last_dirty_log_index p = adj) ->
      append_outcome r c l (_commit_index (indices c)) flushed p
  | out_appended adj es k commit p : parts_at r c = (adj, es) -> dirty (_log c) <= adj ->
      pm_prev_log_index (ar_meta r) <= dirty (_log c) ->
      commit = _commit_index (indices c) \/
        _commit_index (indices c) < pm_commit_index (ar_meta r) /\ commit = pm_commit_index (ar_meta r) `min` _flushed_offset (indices c) ->
      (ap_result p = reply_result.success -> take k es = es /\ ap_last_dirty_log_index p = dirty (log_append (_log c) es)) ->
      append_outcome r c (log_append (_log c) (take k es)) commit (_flushed_offset (indices c)) p.

Lemma outcome_core r c c1 l commit flushed p : core c1 = core c ->
  append_outcome r c1 l commit flushed p -> append_outcome r c l commit flushed p.
Proof.
  intros E H. pose proof (parts_at_core r c c1 E) as Ep. injection E as El _ Ec Ef.
  destruct H; rewrite ?Ep, ?El, ?Ec, ?Ef in *.
  - by constructor.
  - by econstructor.
  - by econstructor.
  - by eapply out_stale.
  - by eapply out_truncated.
  - by eapply out_appended.
Qed.

Section outcome.
Context `{HashOrder} (now : Z) (coordinated checkpoint_hint idle : bool).

(** What a request does, in terms of [append_outcome]. *)
Definition ends_as (r : append_entries_request) (c c' : consensus) (p : append_entries_reply) : Prop :=
  exists l commit flushed, core c' = (l, _last_snapshot_term c, commit, flushed) /\ append_outcome r c l commit flushed p.

Lemma ends_unchanged r c c' p : core c' = core c -> ap_result p <> reply_result.success -> ends_as r c c' p.
Proof. intros E Hp. eexists _, _, _. split; [exact E|]. by constructor. Qed.

Lemma heartbeat_ends r prev reply c c' p : parts_at r c = (prev, []) -> prev = pm_prev_log_index (ar_meta r) ->
  prev <= dirty (_log c) -> ap_result reply <> reply_result.success ->
  ap_last_dirty_log_index reply = dirty (_log c) ->
  append_heartbeat r prev reply c = Ok (c', p) -> ends_as r c c' p.
Proof.
  intros Hp -> Hle Hr Hd. unfold append_heartbeat. fold (dirty (_log c)).
  destruct (Z.ltb_spec (pm_prev_log_index (ar_meta r)) (dirty (_log c))); [intros [= <- <-]; by apply ends_unchanged|].
  intros (c1 & Hf & [= <- <-])%res_bind_Ok.
  assert (exists flushed, core c1 = (_log c, _last_snapshot_term c, _commit_index (indices c), flushed) /\
    (flushed = _flushed_offset (indices c) \/ flushed = dirty (_log c) `max` _flushed_offset (indices c))) as (flushed & E1 & Hfl).
  { destruct (_ && _); [by apply core_flush|]. injection Hf as <-. eauto. }
  set (c2 := set_follower_recovery_state None _).
  assert (E2 : core c2 = core c1) by (unfold c2; etrans; [|apply core_visibility]; done).
  clearbody c2. destruct (core_commit (pm_commit_index (ar_meta r)) c2) as (commit & E3 & Hcm).
  rewrite E1 in E2. injection E2 as E2l E2s E2c E2f. rewrite E2l, E2s, E2f in E3. rewrite E2c, E2f in Hcm.
  exists (_log c), commit, flushed. split; [done|]. apply out_heartbeat; [done|lia|done|done|done].
Qed.

Lemma truncate_ends r adj es truncated reply c c' p : parts_at r c = (adj, es) -> adj < dirty (_log c) ->
  ap_result reply <> reply_result.success ->
  append_truncate truncated adj reply c = Ok (c', p) -> ends_as r c c' p.
Proof.
  intros Hp Hlt Hr. unfold append_truncate.
  destruct (Z.ltb_spec adj (_commit_index (indices c))) as [|Hc]; [intros [= <- <-]|].
  { eexists _, _, _. split; [reflexivity|]. by eapply out_stale. }
  set (f0 := prev_offset (next_offset adj) `min` _flushed_offset (indices c)).
  set (c1 := with_indices _ c).
  assert (E1 : core c1 = (_log c, _last_snapshot_term c, _commit_index (indices c), f0)) by done.
  assert (Hfail : forall l c2, l = _log c \/ l = log_truncate (next_offset adj) (_log c) ->
    core c2 = (l, _last_snapshot_term c, _commit_index (indices c), f0) -> ends_as r c c2 reply).
  { intros l c2 Hl E2. eexists l, _, f0. split; [exact E2|].
    eapply out_truncated; [done|lia|done|by left|done]. }
  destruct truncated; cbn [negb]; [|intros [= <- <-]; eapply Hfail; [by left|done]].
  change (_log c1) with (_log c). set (l := log_truncate (next_offset adj) (_log c)) in *.
  assert (E2 : forall m, core (set_configuration_manager m (set_log l c1)) = (l, _last_snapshot_term c, _commit_index (indices c), f0)) by done.
  set (c2 := set_log l c1) in *. clearbody c2. clear c1 E1.
  destruct (truncate _ _) as [m [u|e|]]; [|intros [= <- <-]; eapply Hfail; [by right|done]|done].
  destruct (config _ ≫= _) as [c3|e|] eqn:E3; [|intros [= <- <-]; eapply Hfail; [by right|done]|done].
  apply res_bind_Ok in E3 as (cfg & _ & E3%core_update_states). rewrite E2 in E3.
  injection E3 as E3l E3s E3c E3f. rewrite E3l. fold (dirty l). intros [= <- <-].
  destruct (Z.eqb_spec (dirty l) adj) as [Ed|Ed].
  - exists l, (_commit_index (indices c)), f0. split; [unfold core; by rewrite E3l, E3s, E3c, E3f|].
    eapply out_truncated; [done|lia|by right|by left|done].
  - exists l, (_commit_index (indices c)), (prev_offset (dirty l) `min` f0).
    split; [unfold core; cbn; by rewrite E3l, E3s, E3c, E3f|].
    eapply out_truncated; [done|lia|by right|by right|done].
Qed.

Lemma batches_ends r adj es d reply c c' p : parts_at r c = (adj, es) -> dirty (_log c) <= adj ->
  pm_prev_log_index (ar_meta r) <= dirty (_log c) -> ap_result reply <> reply_result.success ->
  append_batches now checkpoint_hint idle d r es reply c = Ok (c', p) -> ends_as r c c' p.
Proof.
  intros Hp Hle Hpd Hr. unfold append_batches.
  pose proof (core_disk_append d false checkpoint_hint idle es c) as Hd.
  destruct (disk_append _ _ _ _ _ _) as [c1 [last|e|]]; [| |done]; destruct Hd as (k & E1 & Hk).
  - destruct (Hk last eq_refl) as [Hkes Hlast].
    set (c2 := update_visibility _ last c1). assert (E2 : core c2 = core c1) by apply core_visibility.
    clearbody c2. destruct (core_commit (pm_commit_index (ar_meta r)) c2) as (commit & E3 & Hcm).
    rewrite E1 in E2. injection E2 as E2l E2s E2c E2f. rewrite E2l, E2s, E2f in E3. rewrite E2c, E2f in Hcm.
    intros [= <- <-]. exists (log_append (_log c) (take k es)), commit, (_flushed_offset (indices c)).
    split; [exact E3|]. by eapply out_appended.
  - intros [= <- <-]. exists (log_append (_log c) (take k es)), (_commit_index (indices c)), (_flushed_offset (indices c)).
    split; [exact E1|]. eapply out_appended; [done..|by left|done].
Qed.

Lemma ends_core r c c1 c' p : core c1 = core c -> ends_as r c1 c' p -> ends_as r c c' p.
Proof.
  intros E (l & commit & flushed & E' & Ho). exists l, commit, flushed.
  split; [|by eapply outcome_core]. rewrite E'. by injection E as _ -> _ _.
Qed.

Lemma in_term_ends truncated d r reply c c' p : ap_result reply <> reply_result.success ->
  ap_last_dirty_log_index reply = dirty (_log c) ->
  append_in_term now coordinated checkpoint_hint idle truncated d r reply c = Ok (c', p) -> ends_as r c c' p.
Proof.
  intros Hr Hd. unfold append_in_term. fold (dirty (_log c)).
  assert (Hrej : Ok (reject_append coordinated r reply c) = Ok (c', p) -> ends_as r c c' p).
  { intros [= <- <-]. by apply ends_unchanged. }
  destruct (Z.ltb_spec (dirty (_log c)) (pm_prev_log_index (ar_meta r))); [done|].
  destruct (_ && negb _); [done|]. fold (parts_at r c). destruct (parts_at r c) as [adj es] eqn:Hp.
  destruct es as [|e es].
  - destruct (Z.eqb_spec adj (pm_prev_log_index (ar_meta r))) as [->|]; cbn [negb].
    + by apply heartbeat_ends.
    + intros [= <- <-]. eexists _, _, _. split; [reflexivity|]. by eapply out_present.
  - set (cr := if adj <? _ then _ else _). assert (E : core cr.1 = core c /\ ap_result cr.2 <> reply_result.success)
      by (unfold cr; by destruct (adj <? _)).
    destruct cr as [c1 reply1]. cbn in E. destruct E as [E Hr1].
    assert (El : _log c1 = _log c) by (by injection E as -> _ _ _).
    destruct (Z.ltb_spec adj (dirty (_log c))); intros Ha; apply (ends_core _ _ _ _ _ E).
    + eapply truncate_ends, Ha; rewrite ?(parts_at_core _ _ _ E), ?El; done.
    + eapply batches_ends, Ha; rewrite ?(parts_at_core _ _ _ E), ?El; done.
Qed.

Lemma append_entries_ends truncated d r c c' p :
  do_append_entries now coordinated checkpoint_hint idle truncated d r c = Ok (c', p) -> ends_as r c c' p.
Proof.
  unfold do_append_entries. case_bool_decide; cbn [negb]; [|intros [= <- <-]; by apply ends_unchanged].
  destruct (_ <? _); [intros [= <- <-]; by apply ends_unchanged|].
  set (c1 := if _ <? _ then _ else _).
  assert (E1 : core c1 = core c) by (unfold c1; destruct (_ <? _); [by rewrite core_maybe_update_leader|done]).
  set (c2 := maybe_update_leader _ (accept_leader now r c1)).
  assert (E2 : core c2 = core c) by (rewrite <- E1; unfold c2; by rewrite core_maybe_update_leader).
  intros Ha. apply (ends_core _ _ _ _ _ E2). eapply in_term_ends, Ha; [done|].
  cbn. by injection E1 as -> _ _ _; injection E2 as -> _ _ _.
Qed.

(** ** Theorems *)

Ltac kept := split; [done|split; [lia|split; [lia|done]]].

Definition indices_ok (c : consensus) : Prop :=
  _commit_index (indices c) <= _flushed_offset (indices c) <= dirty (_log c).

(** A well-formed request; where the follower truncates, a batch ends. *)
Definition request_ok (r : append_entries_request) (c : consensus) : Prop :=
  offset_ok (pm_prev_log_index (ar_meta r)) /\
  entries_fit (next_offset (pm_prev_log_index (ar_meta r))) (ar_batches r) /\
  (_commit_index (indices c) <= (parts_at r c).1 < dirty (_log c) ->
   dirty (log_truncate (next_offset (parts_at r c).1) (_log c)) = (parts_at r c).1).

Lemma parts_at_spec r c adj es : log_ok (_log c) -> request_ok r c -> parts_at r c = (adj, es) ->
  let prev := pm_prev_log_index (ar_meta r) in
  exists pre, ar_batches r = pre ++ es /\ offset_ok adj /\ prev <= adj <= prev `max` dirty (_log c) /\
    entries_fit (next_offset adj) es /\
    place (next_offset prev) (ar_batches r) = place (next_offset prev) pre ++ place (next_offset adj) es /\
    forall b, b ∈ place (next_offset prev) pre -> lb_last_offset b <= adj /\ get_term c (lb_last_offset b) = lb_term b.
Proof.
  intros Hl (Hp & Hf & _). unfold parts_at. destruct (_ <? _).
  - intros (pre & H1 & H2 & H3 & H4 & H5 & H6 & H7)%skip_matching_spec; [|done..]. exists pre. split_and!; auto.
  - intros [= <- <-]. exists []. split_and!; [done..|lia|lia|done|done|by intros ? ?%elem_of_nil].
Qed.

(** C3: A follower never loses what is committed: whatever a request asks for and however the
    disk fails, the batches up to the commit index stay as they are, the commit index does
    not move back, it stays within what is flushed, and that within the log, which stays
    gapless. *)
Theorem append_keeps_committed truncated d r c c' p :
  log_ok (_log c) -> indices_ok c -> request_ok r c ->
  do_append_entries now coordinated checkpoint_hint idle truncated d r c = Ok (c', p) ->
  log_ok (_log c') /\ indices_ok c' /\ _commit_index (indices c) <= _commit_index (indices c') /\
  filter (fun b => lb_last_offset b <= _commit_index (indices c)) (lg_batches (_log c')) =
  filter (fun b => lb_last_offset b <= _commit_index (indices c)) (lg_batches (_log c)).
Proof.
  intros Hl Hi Hr (l & commit & flushed & E & Ho)%append_entries_ends.
  injection E as El _ Ec Ef. unfold indices_ok. rewrite El, Ec, Ef. clear El Ec Ef. unfold indices_ok in Hi.
  pose proof Hr as (_ & _ & Hb).
  destruct Ho as [p Hp|adj p Hp Hn Hd|flushed commit p Hp Hd Hfl Hcm Hpd|adj es p Hp Ha Hd
                 |adj es l flushed p Hp Ha Hl' Hfl Hs|adj es k commit p Hp Hle Hpd Hcm Hs].
  - kept.
  - kept.
  - kept.
  - kept.
  - rewrite Hp in Hb. cbn [fst] in Hb. specialize (Hb ltac:(lia)).
    destruct (parts_at_spec r c adj es Hl Hr Hp) as (pre & _ & Hao & _).
    rewrite (prev_next_offset adj Hao) in Hfl.
    assert (Hfl' : flushed = adj `min` _flushed_offset (indices c)).
    { destruct Hfl as [|(Hne & -> & _)]; [done|]. by rewrite Hb in Hne. }
    assert (Hl1 : log_ok l) by (destruct Hl' as [->| ->]; [done|by apply log_truncate_ok]).
    assert (adj <= dirty l) by (destruct Hl' as [->| ->]; lia).
    split; [done|]. split; [lia|]. split; [lia|].
    destruct Hl' as [->| ->]; [done|]. cbn [log_truncate lg_batches].
    apply list_filter_filter_l. intros b Hin. destruct Hao as [->|Hao]; [|rewrite next_offset_nonneg by done; lia].
    change (next_offset no_offset) with 0. unfold no_offset, int64_min in *. lia.
  - destruct (parts_at_spec r c adj es Hl Hr Hp) as (pre & _ & Hao & Hadj & Hfit & _).
    assert (adj = dirty (_log c)) as -> by lia. apply (entries_fit_take _ _ k) in Hfit.
    pose proof (dirty_append _ _ Hl Hfit).
    split; [by apply log_append_ok|]. split; [lia|]. split; [lia|].
    destruct (log_append_place _ _ Hfit (entries_fit_nonneg _ Hao)) as [_ ->].
    rewrite filter_app, (filter_none _ (place _ _)), app_nil_r; [done|].
    intros b Hin. pose proof (dirty_lt_next _ _ _ Hl Hfit Hin). lia.
Qed.
(** The batches of the request that the follower already had. *)
Lemma matched_term r c adj es b : log_ok (_log c) -> request_ok r c -> parts_at r c = (adj, es) ->
  b ∈ place (next_offset (pm_prev_log_index (ar_meta r))) (ar_batches r) ->
  lg_start_offset (_log c) <= lb_last_offset b ->
  lb_last_offset b <= adj /\ term_at (_log c) (lb_last_offset b) = lb_term b \/
  adj < lb_last_offset b /\ b ∈ place (next_offset adj) es.
Proof.
  intros Hl Hr Hp Hb Hs. destruct (parts_at_spec r c adj es Hl Hr Hp) as (pre & _ & Hao & _ & Hfit & Hpl & Hall).
  rewrite Hpl in Hb. apply elem_of_app in Hb as [Hb|Hb].
  - left. destruct (Hall b Hb) as [? Ht]. split; [done|]. by rewrite <- get_term_at.
  - right. split; [|done]. pose proof (place_bounds _ _ _ Hfit Hb).
    destruct Hao as [->|Hao]; [change (next_offset no_offset) with 0 in *; unfold no_offset, int64_min; lia|].
    rewrite next_offset_nonneg in * by done. lia.
Qed.

(** Leader completeness, which elections and commits provide: of the batches a leader sends, the ones up to the follower's
    commit index are those the follower has committed. *)
Definition has_committed (r : append_entries_request) (c : consensus) : Prop :=
  forall b, b ∈ place (next_offset (pm_prev_log_index (ar_meta r))) (ar_batches r) ->
    lg_start_offset (_log c) <= lb_last_offset b <= _commit_index (indices c) ->
    term_at (_log c) (lb_last_offset b) = lb_term b.

(** C12: A success reply vouches for the log, on every path that ends in one: it names no offset past the follower's end, and
    every batch of the request up to the offset it names is in the follower's log with the term it has in the leader's, if
    it ends at or after the start of the follower's log.  A stale request is answered with the commit index without comparing
    what lies below it; there, and only there, the reply relies on the leader having what the follower has committed. *)
Theorem append_success_matches truncated d r c c' p :
  log_ok (_log c) -> indices_ok c -> request_ok r c -> has_committed r c ->
  do_append_entries now coordinated checkpoint_hint idle truncated d r c = Ok (c', p) ->
  ap_result p = reply_result.success ->
  ap_last_dirty_log_index p <= dirty (_log c') /\
  forall b, b ∈ place (next_offset (pm_prev_log_index (ar_meta r))) (ar_batches r) ->
    lg_start_offset (_log c) <= lb_last_offset b <= ap_last_dirty_log_index p ->
    term_at (_log c') (lb_last_offset b) = lb_term b.
Proof.
  intros Hl Hi Hr Hlc (l & commit & flushed & E & Ho)%append_entries_ends Hsuc. unfold indices_ok in Hi.
  injection E as -> _ _ _. pose proof Hr as (_ & _ & Hcut).
  destruct Ho as [p Hp|adj p Hp Hn Hd|flushed commit p Hp Hd Hfl Hcm Hpd|adj es p Hp Ha Hd
                 |adj es l flushed p Hp Ha Hl' Hfl Hs|adj es k commit p Hp Hle Hpd Hcm Hs].
  - done.
  - destruct (parts_at_spec r c adj [] Hl Hr Hp) as (pre & _ & _ & Hadj & _). split.
    + unfold parts_at in Hp. destruct (Z.ltb_spec (pm_prev_log_index (ar_meta r)) (dirty (_log c))); [lia|by simplify_eq].
    + intros b Hb Hs. destruct (matched_term r c adj [] b Hl Hr Hp Hb ltac:(lia)) as [[_ ?]|[_ Hx]]; [done|by apply elem_of_nil in Hx].
  - split; [lia|]. intros b Hb Hs. destruct (matched_term r c _ [] b Hl Hr Hp Hb ltac:(lia)) as [[_ ?]|[_ Hx]]; [done|by apply elem_of_nil in Hx].
  - rewrite Hd. split; [lia|exact Hlc].
  - destruct (Hs Hsuc) as [-> Hd]. rewrite Hp in Hcut. specialize (Hcut ltac:(cbn; lia)). cbn [fst] in Hcut.
    split; [lia|]. intros b Hb Hsb. destruct (matched_term r c adj es b Hl Hr Hp Hb ltac:(lia)) as [[? <-]|[? _]]; [|lia].
    apply term_at_truncate; [done|lia].
  - destruct (Hs Hsuc) as [Hk Hd]. rewrite Hk.
    destruct (parts_at_spec r c adj es Hl Hr Hp) as (pre & _ & Hao & Hadj & Hfit & _).
    assert (adj = dirty (_log c)) as -> by lia. split; [lia|]. intros b Hb Hsb.
    destruct (matched_term r c _ es b Hl Hr Hp Hb ltac:(lia)) as [[? <-]|[_ Hin]]; [apply term_at_append; [done..|lia]|].
    destruct (log_append_place _ _ Hfit (entries_fit_nonneg _ Hao)) as [Es Eb].
    apply term_at_batch; [by apply log_append_ok|rewrite Eb; apply elem_of_app; by right|rewrite Es; lia].
Qed.

End outcome.

(** ** The leader's commit index *)

(** Terms do not decrease along the log and none is larger than the member's. *)
Definition terms_ok (c : consensus) : Prop :=
  StronglySorted (fun a b => lb_term a <= lb_term b) (lg_batches (_log c)) /\
  Forall (fun b => lb_term b <= _term (elec c)) (lg_batches (_log c)).

Lemma find_terms_mono (bs : list log_batch) o1 o2 i1 b1 i2 b2 :
  StronglySorted (fun a b => lb_term a <= lb_term b) bs -> o1 <= o2 ->
  list_find (fun b => o1 <= lb_last_offset b) bs = Some (i1, b1) ->
  list_find (fun b => o2 <= lb_last_offset b) bs = Some (i2, b2) -> lb_term b1 <= lb_term b2.
Proof.
  intros Hs Ho H1 H2. apply list_find_Some in H1 as (Hi1 & _ & Hb1), H2 as (Hi2 & Hp2 & _).
  destruct (decide (i2 < i1)%nat) as [Hlt|Hge].
  - exfalso. apply (Hb1 i2 b2 Hi2 Hlt). lia.
  - destruct (decide (i1 = i2)) as [->|Hne]; [simplify_eq; lia|].
    rewrite <- (take_drop_middle _ _ _ Hi1) in Hs. apply StronglySorted_app in Hs as (_ & _ & Hs).
    apply StronglySorted_inv in Hs as [_ Hs]. rewrite Forall_forall in Hs. apply Hs.
    apply list_elem_of_lookup. exists (i2 - S i1)%nat. rewrite lookup_drop. by replace (S i1 + (i2 - S i1))%nat with i2 by lia.
Qed.

Lemma term_at_mono l o1 o2 : log_ok l -> StronglySorted (fun a b => lb_term a <= lb_term b) (lg_batches l) ->
  lg_start_offset l <= o1 <= o2 -> o2 <= dirty l ->
  term_at l o1 <= term_at l o2 /\ exists b, b ∈ lg_batches l /\ term_at l o2 = lb_term b.
Proof.
  intros Hl Hs Ho Hd.
  destruct (log_reaches l o1 Hl) as (x1 & Hx1 & Hle1); [lia|]. destruct (log_reaches l o2 Hl) as (x2 & Hx2 & Hle2); [lia|].
  destruct (list_find_elem_of (fun b => o1 <= lb_last_offset b) (lg_batches l) x1 Hx1 Hle1) as [[i1 b1] H1].
  destruct (list_find_elem_of (fun b => o2 <= lb_last_offset b) (lg_batches l) x2 Hx2 Hle2) as [[i2 b2] H2].
  unfold term_at, log_get_term. rewrite H1, H2, !(proj2 (Z.leb_le _ _)) by lia. cbn. split.
  - by eapply find_terms_mono; [..|exact H1|exact H2]; [done|lia].
  - exists b2. split; [|done]. apply list_find_Some in H2 as (Hi & _). by eapply list_elem_of_lookup_2.
Qed.

(** What raft allows a leader to commit: an entry of its own term that it and a majority
    have on disk. *)
Definition committable (c : consensus) (cfg : group_configuration) (n : Z) : Prop :=
  get_term c n = _term (elec c) /\ n <= _flushed_offset (indices c) /\
  majority cfg (fun id => n <=? flushed_on c id) = true.

Lemma confirmed_core c : core (update_confirmed_term c) = core c /\ _term (elec (update_confirmed_term c)) = _term (elec c).
Proof.
  unfold update_confirmed_term. destruct (_ && _); [|done]. rewrite core_trigger. split; [done|].
  unfold trigger_leadership_notification. by repeat case_match.
Qed.

(** C7: The leader's commit index never moves back; it only moves to an entry of the leader's
    term that the leader and a majority (of both voter sets in joint state) have flushed,
    and it moves at least as far as the last such entry. *)
Theorem leader_commits_majority c cfg c' more :
  config c = Ok cfg -> (exists l, l ∈ voter_sets cfg /\ l <> []) ->
  do_maybe_update_leader_commit_idx c = Ok (c', more) ->
  _commit_index (indices c) <= _commit_index (indices c') /\
  (_commit_index (indices c) < _commit_index (indices c') -> committable c cfg (_commit_index (indices c'))) /\
  (log_ok (_log c) -> terms_ok c -> _flushed_offset (indices c) <= dirty (_log c) ->
   forall n, lg_start_offset (_log c) <= n -> committable c cfg n -> n <= _commit_index (indices c')).
Proof.
  intros Hcfg Hv. unfold do_maybe_update_leader_commit_idx. rewrite Hcfg. cbn [mbind res_bind].
  set (qm := quorum_match _ _ _).
  set (c1 := if get_term c qm =? _ then _ else c).
  assert (E1 : core c1 = core c /\ _term (elec c1) = _term (elec c)).
  { unfold c1. destruct (_ =? _); [apply confirmed_core|done]. }
  destruct E1 as [E1 Et1]. clearbody c1. pose proof (get_term_core c c1 (qm `min` _flushed_offset (indices c)) E1) as Eg.
  injection E1 as _ _ Ec1 Ef1. rewrite Ec1, Ef1, Et1, Eg.
  set (mm := qm `min` _flushed_offset (indices c)) in *.
  assert (Hmaj : majority cfg (fun id => mm <=? flushed_on c id) = true) by (apply (quorum_match_spec no_offset); [done|lia]).
  assert (Hmax : forall n, committable c cfg n -> n <= mm).
  { intros n (_ & Hf & Hm). apply (quorum_match_spec no_offset) in Hm; [|done]. fold qm in Hm. lia. }
  destruct (Z.ltb_spec (_commit_index (indices c)) mm) as [Hlt|Hge]; cbn [andb].
  - destruct (Z.eqb_spec (get_term c mm) (_term (elec c))) as [Et|Et].
    + intros [= <- _].
      assert (Ec' : forall v x, _commit_index (indices (maybe_update_last_visible_index v (maybe_update_last_visible_index x
        (with_indices (set_commit_index mm) (update_confirmed_term c1))))) = mm).
      { intros. unfold maybe_update_last_visible_index. by repeat case_match. }
      rewrite Ec'. split; [lia|]. split; [intros _; split_and!; [done|lia|done]|]. intros _ _ _ n _ Hn. by apply Hmax.
    + intros [= <- _]. rewrite Ec1. split; [lia|]. split; [lia|]. intros Hl [Hs Hall] Hfd n Hn Hcm.
      exfalso. apply Et. pose proof (Hmax n Hcm). destruct Hcm as (Htn & _).
      destruct (term_at_mono (_log c) n mm Hl Hs) as (Hle & b & Hb & Eb); [lia..|].
      rewrite get_term_at in Htn |- * by (done || lia). rewrite Forall_forall in Hall. specialize (Hall b Hb). lia.
  - intros [= <- _]. rewrite Ec1. split; [lia|]. split; [lia|]. intros _ _ _ n _ Hn%Hmax. lia.
Qed.

(** ** Witnesses *)

Module append_examples.
Import GroupConfigurationProps.examples.

Definition batch (base last term : Z) : log_batch :=
  {| lb_base_offset := base; lb_last_offset := last; lb_term := term; lb_bytes := 100; lb_configuration := None |}.

Definition with_log (self : vnode) (vstate : vote_state.t) (bs : list log_batch) (commit flushed : Z)
    (fs : follower_states) : consensus :=
  {| _self := self; _group := 1;
     elec := {| _term := 3; _voted_for := no_vnode; _leader_id := None; _vstate := vstate;
                _hbeat := time_min; _became_leader_at := time_min; _confirmed_term := no_term |};
     indices := {| _commit_index := commit; _flushed_offset := flushed; _majority_replicated_index := commit;
                   _visibility_upper_bound_index := commit;
                   _last_quorum_replicated_index_with_flush := no_offset;
                   _last_leader_visible_offset := commit |};
     _log := {| lg_start_offset := 0; lg_batches := bs |};
     _last_snapshot_index := no_offset; _last_snapshot_term := no_term;
     _configuration_manager := make_manager cfg3
       {| kv_configurations := None; kv_highest_known_offset := None; kv_next_idx := None |};
     _fstates := fs; _priority_tracker := make_tracker self true;
     _follower_recovery_state := None; _pending_flush_bytes := 0; stored_vote := None |}.

(** A follower whose last batch is of a term that lost, and a leader's request that
    overlaps with its log. *)
Definition follower : consensus :=
  with_log n2 vote_state.follower [batch 0 4 1; batch 5 9 1; batch 10 14 2] 4 14 ∅.

Definition entry_of (count term : Z) : entry :=
  {| e_last_offset_delta := count - 1; e_term := term; e_bytes := 100; e_configuration := None |}.

Definition request (prev : Z) (es : list entry) : append_entries_request :=
  {| ar_source_node := n1; ar_target_node_id := n2;
     ar_meta := {| pm_group := 1; pm_commit_index := 9; pm_term := 3; pm_prev_log_index := prev; pm_prev_log_term := 1;
                   pm_last_visible_index := 9; pm_dirty_offset := 19 |};
     ar_flush := true; ar_batches := es |}.

Definition overlapping : append_entries_request := request 4 [entry_of 5 1; entry_of 10 3].

Definition handled (r : append_entries_request) (c : consensus) : consensus * append_entries_reply :=
  match do_append_entries 0 true false true true disk_ok r c with
  | Ok x => x
  | _ => (c, initial_reply r c)
  end.

Definition truncated_follower : consensus := (handled overlapping follower).1.

Lemma follower_ok : log_ok (_log follower) /\ indices_ok follower /\ request_ok overlapping follower.
Proof.
  unfold log_ok, indices_ok, request_ok, offset_ok. change (dirty (_log follower)) with 14.
  change (next_offset (pm_prev_log_index (ar_meta overlapping))) with 5.
  change (parts_at overlapping follower) with (9, [entry_of 10 3]).
  split_and!; cbn -[Z.lt Z.le]; unfold int64_max; try lia; (intros _; vm_compute; reflexivity).
Qed.

Lemma append_keeps_committed_witness :
  do_append_entries 0 true false true true disk_ok overlapping follower = Ok (handled overlapping follower) /\
  lg_batches (_log truncated_follower) = [batch 0 4 1; batch 5 9 1] /\
  filter (fun b => lb_last_offset b <= 4) (lg_batches (_log truncated_follower)) = [batch 0 4 1] /\
  indices_ok truncated_follower.
Proof.
  destruct follower_ok as (Hl & Hi & Hr).
  assert (Ha : do_append_entries 0 true false true true disk_ok overlapping follower = Ok (handled overlapping follower))
    by (vm_compute; reflexivity).
  rewrite (surjective_pairing (handled overlapping follower)) in Ha.
  destruct (append_keeps_committed 0 true false true true disk_ok overlapping follower _ _ Hl Hi Hr Ha) as (_ & Hi' & _ & Hf).
  split_and!; [vm_compute; reflexivity|vm_compute; reflexivity|exact Hf|apply Hi'..].
Defined.

(** The leader then sends what comes after the truncation point. *)
Definition following : append_entries_request := request 9 [entry_of 10 3].

Lemma following_ok : log_ok (_log truncated_follower) /\ request_ok following truncated_follower.
Proof.
  change (_log truncated_follower) with {| lg_start_offset := 0; lg_batches := [batch 0 4 1; batch 5 9 1] |}.
  unfold log_ok, request_ok, offset_ok. change (dirty (_log truncated_follower)) with 9.
  change (next_offset (pm_prev_log_index (ar_meta following))) with 10.
  change (parts_at following truncated_follower) with (9, [entry_of 10 3]).
  split_and!; cbn -[Z.lt Z.le]; unfold int64_max; try lia.
Qed.

(** A follower whose log starts after an installed snapshot, and a request of which it has everything up to its commit index. *)
Definition restarted : consensus :=
  let c := with_log n2 vote_state.follower [] 14 14 ∅ in set_log {| lg_start_offset := 10; lg_batches := [batch 10 14 2] |} c.
Definition stale : append_entries_request := request 4 [entry_of 5 1; entry_of 5 2; entry_of 5 3].

Lemma stale_ok : log_ok (_log restarted) /\ indices_ok restarted /\ request_ok stale restarted /\ has_committed stale restarted.
Proof.
  unfold log_ok, indices_ok, request_ok, offset_ok, has_committed. change (dirty (_log restarted)) with 14.
  change (next_offset (pm_prev_log_index (ar_meta stale))) with 5. change (parts_at stale restarted).1 with 4.
  change (_commit_index (indices restarted)) with 14. change (lg_start_offset (_log restarted)) with 10.
  split_and!; cbn -[Z.lt Z.le term_at]; unfold int64_max; try lia.
  intros b Hb Hr. repeat (apply elem_of_cons in Hb as [->|Hb]; [cbn -[term_at] in *; first [lia|vm_compute; reflexivity]|]).
  by apply elem_of_nil in Hb.
Qed.

Lemma append_success_matches_witness :
  ap_last_dirty_log_index (handled following truncated_follower).2 = 19 /\
  term_at (_log (handled following truncated_follower).1) 19 = 3 /\
  ap_last_dirty_log_index (handled stale restarted).2 = 14 /\ term_at (_log (handled stale restarted).1) 14 = 2.
Proof.
  destruct following_ok as (Hl & Hr), stale_ok as (Hl' & Hi' & Hr' & Hc').
  assert (Hi : indices_ok truncated_follower) by (vm_compute; split; discriminate).
  assert (Hc : has_committed following truncated_follower).
  { intros b Hb Hr0. apply elem_of_cons in Hb as [->|Hb]; [|by apply elem_of_nil in Hb]. vm_compute in Hr0. by destruct Hr0 as [_ []]. }
  assert (Ha : do_append_entries 0 true false true true disk_ok following truncated_follower =
    Ok ((handled following truncated_follower).1, (handled following truncated_follower).2)) by (vm_compute; reflexivity).
  assert (Ha' : do_append_entries 0 true false true true disk_ok stale restarted =
    Ok ((handled stale restarted).1, (handled stale restarted).2)) by (vm_compute; reflexivity).
  destruct (append_success_matches 0 true false true true disk_ok following truncated_follower _ _ Hl Hi Hr Hc Ha eq_refl) as [_ Hm].
  destruct (append_success_matches 0 true false true true disk_ok stale restarted _ _ Hl' Hi' Hr' Hc' Ha' eq_refl) as [_ Hm'].
  split_and!; [vm_compute; reflexivity| |vm_compute; reflexivity|].
  - apply (Hm {| lb_base_offset := 10; lb_last_offset := 19; lb_term := 3; lb_bytes := 100; lb_configuration := None |});
      [vm_compute; left|vm_compute; split; discriminate].
  - apply (Hm' {| lb_base_offset := 10; lb_last_offset := 14; lb_term := 2; lb_bytes := 100; lb_configuration := None |});
      [vm_compute; right; left|vm_compute; split; discriminate].
Defined.

(** A leader of three with one follower that has caught up. *)
Definition reported : follower_index_metadata :=
  successfull_append_entries_reply (handled following truncated_follower).2 make_follower.
Definition flushed_reported : follower_index_metadata := set_follower_log 19 19 reported.
Definition leader : consensus :=
  with_log n1 vote_state.leader [batch 0 4 1; batch 5 9 1; batch 10 19 3] 9 19 {[n2 := flushed_reported]}.

Lemma leader_commits_majority_witness : exists c' more,
  do_maybe_update_leader_commit_idx leader = Ok (c', more) /\ committable leader cfg3 (_commit_index (indices c')) /\
  _commit_index (indices c') = 19.
Proof.
  eexists _, _. assert (Hd : do_maybe_update_leader_commit_idx leader = Ok _) by (vm_compute; reflexivity).
  split; [exact Hd|].
  destruct (leader_commits_majority leader cfg3 _ _ eq_refl ltac:(eexists; split; [left|done]) Hd) as (_ & Hc & _).
  split; [apply Hc; vm_compute; reflexivity|vm_compute; reflexivity].
Defined.

End append_examples.
