(* ===== verification/RaftGroup.v ===== *)
(** * Replication and elections together

    The handlers of RaftAppend.v are events of the group of RaftElection.v: a request of a
    larger term is a [step_down] to it followed by housekeeping, everything else is
    housekeeping.  So [election_safety] holds of groups that replicate, too. *)

From stdpp Require Import functions.
From S2P Require Import Prelude Errors OffsetTranslator GroupConfiguration GroupConfigurationProps ConfigurationManager VoterPriority RaftState RaftVote RaftElection RaftAppend RaftAppendProps.

(** What elections see of a member. *)
Definition ecore (c : consensus) : vnode * Z * vnode * vote_state.t * option (vnode * Z) * Z :=
  (_self c, _term (elec c), _voted_for (elec c), _vstate (elec c), stored_vote c, _last_snapshot_term c).

Lemma ecore_trigger c : ecore (trigger_leadership_notification c) = ecore c.
Proof. unfold trigger_leadership_notification. by destruct (_follower_recovery_state c), (_leader_id (elec c)). Qed.

Lemma ecore_leader n c : ecore (maybe_update_leader n c) = ecore c.
Proof. unfold maybe_update_leader. case_bool_decide; [done|]. by rewrite ecore_trigger. Qed.

Lemma ecore_visible o c : ecore (maybe_update_last_visible_index o c) = ecore c.
Proof. unfold maybe_update_last_visible_index. by destruct (is_elected_leader c). Qed.

Lemma ecore_visibility m o c : ecore (update_visibility m o c) = ecore c.
Proof. unfold update_visibility. etrans; [|apply (ecore_visible (o `min` pm_last_visible_index m))]. done. Qed.

Lemma ecore_commit i c : ecore (maybe_update_follower_commit_idx i c) = ecore c.
Proof. unfold maybe_update_follower_commit_idx. by destruct (_ <? _). Qed.

Lemma ecore_flush c c' : flush_log c = Ok c' -> ecore c' = ecore c.
Proof.
  unfold flush_log. destruct (0 <? _); [|by intros [= <-]].
  by intros (c1 & (cfg & _ & [= <-])%res_bind_Ok & (? & _ & [= <-])%res_bind_Ok)%res_bind_Ok.
Qed.

Lemma ecore_states `{HashOrder} cfg c c' : update_follower_states cfg c = Ok c' -> ecore c' = ecore c.
Proof. unfold update_follower_states. by intros (fs & _ & [= <-])%res_bind_Ok. Qed.

Lemma ecore_configured `{HashOrder} c c' :
  config c ≫= (fun cfg => update_follower_states cfg c) = Ok c' -> ecore c' = ecore c.
Proof. by intros (cfg & _ & ?%ecore_states)%res_bind_Ok. Qed.

Lemma ecore_disk_append `{HashOrder} d q h i es c : ecore (disk_append d q h i es c).1 = ecore c.
Proof.
  unfold disk_append. destruct d as [|k]; [|done].
  set (c1 := if q then _ else _). assert (E1 : ecore c1 = ecore c) by (by destruct q). rewrite <- E1. clearbody c1.
  destruct (extract_configurations _ es); [done|].
  destruct (add_all _ _) as [m [u|e|]]; [|done..].
  destruct (config _ ≫= _) as [c2| |] eqn:E; [|done..].
  apply ecore_configured in E. by transitivity (ecore c2).
Qed.

Section group.
Context `{HashOrder} (now : Z) (coordinated checkpoint_hint idle : bool).

Lemma ecore_heartbeat r prev reply c c' p : append_heartbeat r prev reply c = Ok (c', p) -> ecore c' = ecore c.
Proof.
  unfold append_heartbeat. destruct (_ <? _); [by intros [= <- _]|]. intros (c1 & Hf & [= <- _])%res_bind_Ok.
  assert (E1 : ecore c1 = ecore c) by (destruct (_ && _); [by apply ecore_flush|by injection Hf as <-]).
  rewrite ecore_commit, <- E1. exact (ecore_visibility (ar_meta r) _ c1).
Qed.

Lemma ecore_truncate truncated prev reply c c' p : append_truncate truncated prev reply c = Ok (c', p) -> ecore c' = ecore c.
Proof.
  unfold append_truncate. destruct (prev <? _); [by intros [= <- _]|].
  destruct truncated; cbn [negb]; [|by intros [= <- _]].
  destruct (truncate _ _) as [m [u|e|]]; [|by intros [= <- _]|done].
  destruct (config _ ≫= _) as [c2|e|] eqn:E; [|by intros [= <- _]|done].
  apply ecore_configured in E. intros [= <- _]. destruct (_ =? _); exact E.
Qed.

Lemma ecore_batches d r es reply c c' p :
  append_batches now checkpoint_hint idle d r es reply c = Ok (c', p) -> ecore c' = ecore c.
Proof.
  unfold append_batches. pose proof (ecore_disk_append d false checkpoint_hint idle es c) as E.
  destruct (disk_append _ _ _ _ _ _) as [c1 [last|e|]]; cbn in E; [|intros [= <- _]; exact E|done].
  intros [= <- _]. rewrite <- E, <- (ecore_visibility (ar_meta r) last c1).
  etrans; [|apply (ecore_commit (pm_commit_index (ar_meta r)))]. done.
Qed.

Lemma ecore_in_term truncated d r reply c c' p :
  append_in_term now coordinated checkpoint_hint idle truncated d r reply c = Ok (c', p) -> ecore c' = ecore c.
Proof.
  unfold append_in_term. destruct (_ <? _); [by intros [= <- _]|]. destruct (_ && negb _); [by intros [= <- _]|].
  destruct (if _ <? _ then _ else _) as [adj es].
  destruct es as [|e es]; [destruct (negb _); [by intros [= <- _]|apply ecore_heartbeat]|].
  set (cr := if adj <? _ then _ else _). assert (E : ecore cr.1 = ecore c) by (unfold cr; by destruct (adj <? _)).
  destruct cr as [c1 reply1]. cbn in E. rewrite <- E. destruct (_ <? _); [apply ecore_truncate|apply ecore_batches].
Qed.

Lemma ecore_append truncated d r c c' p :
  do_append_entries now coordinated checkpoint_hint idle truncated d r c = Ok (c', p) ->
  c' = c \/
  let c1 := step_down now (pm_term (ar_meta r)) c in
  ecore c' = (_self c1, _term (elec c1), _voted_for (elec c1), vote_state.follower, stored_vote c1, _last_snapshot_term c1).
Proof.
  unfold do_append_entries. case_bool_decide; cbn [negb]; [|intros [= <- _]; by left].
  destruct (_ <? _); [intros [= <- _]; by left|].
  intros E%ecore_in_term. right. rewrite E, ecore_leader. unfold step_down.
  destruct (_term (elec c) <? pm_term (ar_meta r)); [|done].
  set (x := with_election _ _). pose proof (ecore_leader (ar_source_node r) x) as E2.
  set (y := maybe_update_leader _ x) in *. clearbody y. injection E2 as E2a E2b E2c _ E2e E2f.
  unfold ecore. cbn. by rewrite E2a, E2b, E2c, E2e, E2f.
Qed.

Lemma ecore_leader_commit c c' more : do_maybe_update_leader_commit_idx c = Ok (c', more) -> ecore c' = ecore c.
Proof.
  assert (Hc : forall x, ecore (update_confirmed_term x) = ecore x)
    by (intros x; unfold update_confirmed_term; destruct (_ && _); [by rewrite ecore_trigger|done]).
  unfold do_maybe_update_leader_commit_idx. intros (cfg & _ & Hx)%res_bind_Ok.
  set (c1 := if get_term c _ =? _ then _ else c) in Hx.
  assert (E1 : ecore c1 = ecore c) by (unfold c1; by destruct (_ =? _)). rewrite <- E1. clearbody c1.
  destruct (_ && _); injection Hx as <- _; [|done]. rewrite !ecore_visible. exact (Hc c1).
Qed.

Lemma ecore_follower_index may node p seq dirty c c' u :
  update_follower_index now may node p seq dirty c = Ok (c', u) -> ecore c' = ecore c.
Proof.
  unfold update_follower_index. repeat (case_bool_decide; [by intros [= <- _]|]).
  intros (cfg & _ & Hx)%res_bind_Ok. repeat case_match; simplify_eq; done.
Qed.

(** A member that may have taken over a larger term, and may have become a follower. *)
Lemma housekeeping_step w n t c' : reachable w -> let c1 := step_down now t (nodes w n) in
  (ecore c' = ecore c1 \/
   ecore c' = (_self c1, _term (elec c1), _voted_for (elec c1), vote_state.follower, stored_vote c1, _last_snapshot_term c1)) ->
  dirty_offset_term (offsets (_log c')) <= _term (elec c1) -> reachable (set_node n c' w).
Proof.
  intros Hr c1 E Hl. destruct (step_down_ok w n now t (reachable_ok w Hr)) as (_ & Hd%bo_durable & _). fold c1 in Hd.
  unfold durable_term in Hd. cbn -[Z.max] in Hd.
  destruct Hr as (w0 & H0 & Hs). exists w0. split; [done|]. eapply rtc_r; [exact Hs|].
  apply (step_housekeeping _ n now t). fold c1.
  destruct E as [E|E]; injection E as Ea Eb Ec Ed Ee Ef; split; auto; lia.
Qed.

Lemma step_down_term t c : _term (elec (step_down now t c)) = _term (elec c) `max` t.
Proof. unfold step_down. destruct (Z.ltb_spec (_term (elec c)) t); cbn; lia. Qed.

(** ** Terms of the log *)

Definition terms_within (t : Z) (l : raft_log) : Prop := Forall (fun b => lb_term b <= t) (lg_batches l).

Lemma terms_within_dirty t l : no_term <= t -> terms_within t l -> dirty_offset_term (offsets l) <= t.
Proof.
  unfold terms_within, offsets. rewrite Forall_forall. intros Hn Hb.
  destruct (last (lg_batches l)) as [b|] eqn:E; [|done]. apply last_Some_elem_of in E. cbn. auto.
Qed.

Lemma terms_within_append t l es : terms_within t l -> Forall (fun e => e_term e <= t) es -> terms_within t (log_append l es).
Proof.
  unfold log_append. intros Hl Hes. revert l Hl. induction Hes as [|e es He _ IH]; intros l Hl; [done|].
  cbn. apply IH. unfold terms_within. cbn. apply Forall_app. split; [done|]. by constructor.
Qed.

Lemma terms_within_truncate t l x : terms_within t l -> terms_within t (log_truncate x l).
Proof. unfold terms_within. rewrite !Forall_forall. intros Hl b [_ Hb]%list_elem_of_filter. auto. Qed.

Lemma terms_within_skip t c e m es m' es' : Forall (fun e => e_term e <= t) es ->
  skip_matching c e m es = (m', es') -> Forall (fun e => e_term e <= t) es'.
Proof.
  revert m. induction es as [|x es IH]; intros m Hes; cbn; [by intros [= <- <-]|].
  destruct (_ || _); [by intros [= <- <-]|]. inversion_clear Hes. eauto.
Qed.

Lemma append_terms truncated d r c c' p t : no_term <= t -> terms_within t (_log c) ->
  Forall (fun e => e_term e <= t) (ar_batches r) ->
  do_append_entries now coordinated checkpoint_hint idle truncated d r c = Ok (c', p) -> terms_within t (_log c').
Proof.
  intros Hn Hl Hr (l & commit & flushed & E & Ho)%append_entries_ends. injection E as -> _ _ _.
  destruct Ho as [| | | |adj es l flushed p Hp Ha Hl' Hfl Hs|adj es k commit p Hp Hle Hpd Hcm Hs]; [done..| |].
  - destruct Hl' as [->| ->]; [done|by apply terms_within_truncate].
  - apply terms_within_append; [done|]. apply Forall_take. unfold parts_at in Hp.
    destruct (_ <? _); [by eapply terms_within_skip|]. by injection Hp as _ <-.
Qed.

(** ** Replication steps *)

(** What replication does to a member: it handles a request of a leader, flushes, handles a
    follower's reply, or advances the commit index.  The batches of a request are of no
    later term than the request. *)
Inductive replicates (c c' : consensus) : Prop :=
  | rep_append truncated d r p :
      Forall (fun e => e_term e <= pm_term (ar_meta r)) (ar_batches r) ->
      do_append_entries now coordinated checkpoint_hint idle truncated d r c = Ok (c', p) -> replicates c c'
  | rep_flush : flush_log c = Ok c' -> replicates c c'
  | rep_index may node p seq dirty u : update_follower_index now may node p seq dirty c = Ok (c', u) -> replicates c c'
  | rep_commit more : do_maybe_update_leader_commit_idx c = Ok (c', more) -> replicates c c'.

Lemma log_leader_commit c c' more : do_maybe_update_leader_commit_idx c = Ok (c', more) -> _log c' = _log c.
Proof.
  assert (Hc : forall x, _log (update_confirmed_term x) = _log x).
  { intros x. unfold update_confirmed_term, trigger_leadership_notification. by repeat case_match. }
  unfold do_maybe_update_leader_commit_idx. intros (cfg & _ & Hx)%res_bind_Ok.
  set (c1 := if get_term c _ =? _ then _ else c) in Hx.
  assert (E1 : _log c1 = _log c) by (unfold c1; by destruct (_ =? _)). rewrite <- E1. clearbody c1.
  destruct (_ && _); injection Hx as <- _; [|done]. exact (Hc c1).
Qed.

Lemma log_follower_index may node p seq dirty c c' u :
  update_follower_index now may node p seq dirty c = Ok (c', u) -> _log c' = _log c.
Proof.
  unfold update_follower_index. repeat (case_bool_decide; [by intros [= <- _]|]).
  intros (cfg & _ & Hx)%res_bind_Ok. repeat case_match; simplify_eq; done.
Qed.

(** C17: Replication is part of the runs that [election_safety] speaks of: if a member of a
    group in a reachable state handles an append request, flushes, handles a reply or
    advances its commit index, the group is again in a reachable state; the log it leaves
    holds no term later than the member's. *)
Theorem replication_refines_group w n c' : reachable w -> replicates (nodes w n) c' ->
  no_term <= _term (elec (nodes w n)) -> terms_within (_term (elec (nodes w n))) (_log (nodes w n)) ->
  reachable (set_node n c' w) /\ terms_within (_term (elec c')) (_log c').
Proof.
  intros Hw Hr Hn Ht. set (c := nodes w n) in *.
  assert (Hsame : ecore c' = ecore c -> _log c' = _log c -> reachable (set_node n c' w) /\ terms_within (_term (elec c')) (_log c')).
  { intros E El. assert (Et : _term (elec c') = _term (elec c)) by (by injection E as _ -> _ _ _ _).
    rewrite Et, El. split; [|done].
    assert (E1 : step_down now (_term (elec c)) c = c) by (unfold step_down; by rewrite Z.ltb_irrefl).
    apply (housekeeping_step _ _ (_term (elec c))); fold c; rewrite ?E1; [done|by left|]. rewrite El. by apply terms_within_dirty. }
  destruct Hr as [truncated d r p Hes Ha|Hf|may node p seq dty u Hi|more Hm].
  - destruct (ecore_append _ _ _ _ _ _ Ha) as [->|E]; [by apply Hsame|].
    set (t := pm_term (ar_meta r)) in *. set (c1 := step_down now t c) in *.
    assert (E1 : _term (elec c1) = _term (elec c) `max` t) by apply step_down_term.
    assert (Hw' : terms_within (_term (elec c1)) (_log c')).
    { eapply append_terms, Ha; [lia| |]; (eapply Forall_impl; [eassumption|]); cbn; lia. }
    split; [|by injection E as _ -> _ _ _ _].
    apply (housekeeping_step w n t); fold c; fold c1; [done|by right|]. apply terms_within_dirty; [lia|done].
  - apply Hsame; [by apply ecore_flush|]. destruct (core_flush _ _ Hf) as (fl & E & _). by injection E as -> _ _ _.
  - apply Hsame; [by eapply ecore_follower_index|by eapply log_follower_index].
  - apply Hsame; [by eapply ecore_leader_commit|by eapply log_leader_commit].
Qed.

End group.

(** ** Witness *)

Module group_examples.
Import GroupConfigurationProps.examples election_examples.

(** The leader of [w6] sends its first batch to the third member. *)
Definition first_request : append_entries_request :=
  {| ar_source_node := n1; ar_target_node_id := n3;
     ar_meta := {| pm_group := 1; pm_commit_index := no_offset; pm_term := 1; pm_prev_log_index := no_offset;
                   pm_prev_log_term := no_term; pm_last_visible_index := no_offset; pm_dirty_offset := no_offset |};
     ar_flush := true;
     ar_batches := [{| e_last_offset_delta := 4; e_term := 1; e_bytes := 100; e_configuration := None |}] |}.

Definition replicated : consensus :=
  match do_append_entries 2000 true false true true disk_ok first_request (nodes w6 n3) with
  | Ok (c', _) => c'
  | _ => nodes w6 n3
  end.

Lemma replication_refines_group_witness :
  reachable (set_node n3 replicated w6) /\ dirty_offset (offsets (_log replicated)) = 4.
Proof.
  assert (Hr : replicates 2000 true false true (nodes w6 n3) replicated).
  { eapply (rep_append _ _ _ _ _ _ true disk_ok first_request); [by repeat constructor|vm_compute; reflexivity]. }
  assert (Hn : no_term <= _term (elec (nodes w6 n3))) by (vm_compute; discriminate).
  assert (Ht : terms_within (_term (elec (nodes w6 n3))) (_log (nodes w6 n3))) by (vm_compute; constructor).
  destruct (replication_refines_group 2000 true false true w6 n3 replicated run_w6 Hr Hn Ht) as [Hw _].
  split; [exact Hw|vm_compute; reflexivity].
Defined.

End group_examples.
