(* ===== verification/FetchSession.v ===== *)
(** * Fetch sessions (kafka/server/fetch_session.h, kafka/server/fetch_session_cache.{h,cc})

    A consumer that opens a fetch session sends only what has changed since its last
    request.  The cache of a shard holds the sessions; a request that is being served holds
    its session through a shared pointer, so that the session may have left the cache while
    it is still in use.  Sessions therefore live in a [heap], and the cache maps ids to
    pointers.

    The containers are not part of this code: what the accounting uses of their tables is
    their size in bytes, which [Containers] leaves open. *)

From stdpp Require Import strings gmap.
From S2P Require Import Prelude Errors.

(** ** Keys *)

(** A topic id of 0 stands for a request that names topics only. *)
Record kitp := { k_topic_id : Z; k_topic : string; k_partition : Z }.

#[global] Instance kitp_eq_dec : EqDecision kitp.
Proof. solve_decision. Defined.

Definition no_topic_id : Z := 0.

(** The equality of [kitp_view] and [kitp]. *)
Definition kitp_eqb (a b : kitp) : bool :=
  let tp_eq := bool_decide (k_topic a = k_topic b) && (k_partition a =? k_partition b) in
  if (k_topic_id a =? no_topic_id) || (k_topic_id b =? no_topic_id) then tp_eq
  else (k_topic_id a =? k_topic_id b) && tp_eq.

(** ** Requests *)

Record fetch_partition := {
  fq_partition : Z;
  fq_current_leader_epoch : Z;
  fq_fetch_offset : Z;
  fq_log_start_offset : Z;
  fq_partition_max_bytes : Z;
}.

Record fetch_topic := { ft_topic_id : Z; ft_topic : string; ft_partitions : list fetch_partition }.

Record forgotten_topic := { fg_topic_id : Z; fg_topic : string; fg_partitions : list Z }.

Record fetch_request := {
  fr_session_id : Z;
  fr_session_epoch : Z;
  fr_min_bytes : Z;
  fr_topics : list fetch_topic;
  fr_forgotten_topics_data : list forgotten_topic;
}.

Definition invalid_fetch_session_id : Z := 0.
Definition initial_fetch_session_epoch : Z := 0.
Definition final_fetch_session_epoch : Z := -1.

Definition is_full_fetch_request (r : fetch_request) : bool :=
  (fr_session_epoch r =? initial_fetch_session_epoch) || (fr_session_epoch r =? final_fetch_session_epoch).

(** [fetch_request::empty]. *)
Definition request_empty (r : fetch_request) : bool :=
  forallb (fun t => match ft_partitions t with [] => true | _ => false end) (fr_topics r).

(** What [cbegin] to [cend] visit: whether a topic starts, the key, the partition. *)
Definition topic_partitions (t : fetch_topic) : list (bool * kitp * fetch_partition) :=
  imap (fun i p => (bool_decide (i = 0%nat),
                    {| k_topic_id := ft_topic_id t; k_topic := ft_topic t; k_partition := fq_partition p |}, p))
    (ft_partitions t).

Definition request_partitions (r : fetch_request) : list (bool * kitp * fetch_partition) :=
  fr_topics r ≫= topic_partitions.

Definition forgotten_partitions (r : fetch_request) : list kitp :=
  t ← fr_forgotten_topics_data r;
  (fun p => {| k_topic_id := fg_topic_id t; k_topic := fg_topic t; k_partition := p |}) <$> fg_partitions t.

(** ** The partitions of a session *)

Record fetch_session_partition := {
  topic_partition : kitp;
  fp_max_bytes : Z;
  fp_start_offset : Z;
  fp_fetch_offset : Z;
  fp_high_watermark : Z;
  fp_last_stable_offset : Z;
  fp_current_leader_epoch : Z;
}.

Definition make_session_partition (k : kitp) (p : fetch_partition) : fetch_session_partition :=
  {| topic_partition := k; fp_max_bytes := fq_partition_max_bytes p; fp_start_offset := fq_log_start_offset p;
     fp_fetch_offset := fq_fetch_offset p; fp_high_watermark := -1; fp_last_stable_offset := -1;
     fp_current_leader_epoch := fq_current_leader_epoch p |}.

(** Hash tables, as far as memory is accounted for, and sizes of objects. *)
Class Containers := {
  partition_table : Type;
  pt_empty : partition_table;
  pt_emplace : kitp -> partition_table -> partition_table;
  pt_erase : kitp -> partition_table -> partition_table;
  pt_bytes : partition_table -> Z;
  session_table : Type;
  st_empty : session_table;
  st_emplace : Z -> session_table -> session_table;
  st_erase : Z -> session_table -> session_table;
  st_bytes : session_table -> Z;
  sizeof_session : Z;
  sizeof_partition : Z;
}.

(** [fetch_partitions_linked_hash_map]: the entries in insertion order. *)
Record linked_map `{Containers} := { insertion_order : list fetch_session_partition; partitions_table : partition_table }.

Section session.
Context `{Containers}.

Definition empty_map : linked_map := {| insertion_order := []; partitions_table := pt_empty |}.

Definition map_find (k : kitp) (m : linked_map) : option (nat * fetch_session_partition) :=
  list_find (fun p => kitp_eqb k (topic_partition p) = true) (insertion_order m).

Definition map_contains (k : kitp) (m : linked_map) : bool :=
  match map_find k m with Some _ => true | None => false end.

Definition map_emplace (v : fetch_session_partition) (m : linked_map) : res linked_map :=
  _ ← vassert (negb (map_contains (topic_partition v) m));
  Ok {| insertion_order := insertion_order m ++ [v];
        partitions_table := pt_emplace (topic_partition v) (partitions_table m) |}.

(** Erasing an entry destroys it, which unlinks it. *)
Definition map_erase (k : kitp) (m : linked_map) : linked_map :=
  match map_find k m with
  | Some (i, _) => {| insertion_order := delete i (insertion_order m); partitions_table := pt_erase k (partitions_table m) |}
  | None => m
  end.

(** Assignments to the entry at an iterator. *)
Definition map_set (i : nat) (v : fetch_session_partition) (m : linked_map) : linked_map :=
  {| insertion_order := <[i := v]> (insertion_order m); partitions_table := partitions_table m |}.

Definition move_to_end (i : nat) (m : linked_map) : linked_map :=
  match insertion_order m !! i with
  | Some v => {| insertion_order := delete i (insertion_order m) ++ [v]; partitions_table := partitions_table m |}
  | None => m
  end.

Definition map_mem_usage (m : linked_map) : Z :=
  pt_bytes (partitions_table m) + blen (insertion_order m) * sizeof_partition.

Definition next_epoch (current : Z) : Z :=
  if current <? initial_fetch_session_epoch then final_fetch_session_epoch else s32 (current + 1).

Record fetch_session := {
  s_id : Z;
  s_partitions : linked_map;
  s_created : Z;
  s_last_used : Z;
  s_epoch : Z;
  s_locked : bool;
}.

Definition make_session (now id : Z) : fetch_session :=
  {| s_id := id; s_partitions := empty_map; s_created := now; s_last_used := now;
     s_epoch := next_epoch initial_fetch_session_epoch; s_locked := false |}.

Definition with_partitions (m : linked_map) (s : fetch_session) : fetch_session :=
  {| s_id := s_id s; s_partitions := m; s_created := s_created s; s_last_used := s_last_used s;
     s_epoch := s_epoch s; s_locked := s_locked s |}.

Definition advance_epoch (now : Z) (s : fetch_session) : fetch_session :=
  {| s_id := s_id s; s_partitions := s_partitions s; s_created := s_created s; s_last_used := now;
     s_epoch := next_epoch (s_epoch s); s_locked := s_locked s |}.

Definition set_locked (b : bool) (s : fetch_session) : fetch_session :=
  {| s_id := s_id s; s_partitions := s_partitions s; s_created := s_created s; s_last_used := s_last_used s;
     s_epoch := s_epoch s; s_locked := b |}.

Definition session_empty (s : fetch_session) : bool :=
  match insertion_order (s_partitions s) with [] => true | _ => false end.

Definition session_mem_usage (s : fetch_session) : Z := sizeof_session + map_mem_usage (s_partitions s).

(** ** Applying a request to a session *)

Definition refresh (p : fetch_partition) (fp : fetch_session_partition) : fetch_session_partition :=
  {| topic_partition := topic_partition fp; fp_max_bytes := fq_partition_max_bytes p;
     fp_start_offset := fp_start_offset fp; fp_fetch_offset := fq_fetch_offset p;
     fp_high_watermark := fp_high_watermark fp; fp_last_stable_offset := fp_last_stable_offset fp;
     fp_current_leader_epoch := fq_current_leader_epoch p |}.

Definition update_partition (k : kitp) (p : fetch_partition) (m : linked_map) : res linked_map :=
  match map_find k m with
  | Some (i, fp) => Ok (map_set i (refresh p fp) m)
  | None => map_emplace (make_session_partition k p) m
  end.

Fixpoint update_partitions (l : list (bool * kitp * fetch_partition)) (m : linked_map) : res linked_map :=
  match l with
  | [] => Ok m
  | (_, k, p) :: l' => m ← update_partition k p m; update_partitions l' m
  end.

(** [update_fetch_session]. *)
Definition update_fetch_session (r : fetch_request) (m : linked_map) : res linked_map :=
  m ← update_partitions (request_partitions r) m;
  Ok (fold_left (fun m k => map_erase k m) (forgotten_partitions r) m).

(** ** The cache *)

Record fetch_session_cache := {
  _sessions : gmap Z nat;
  sessions_table : session_table;
  heap : gmap nat fetch_session;
  next_pointer : nat;
  _min_session_id : Z;
  _max_session_id : Z;
  _last_session_id : Z;
  _session_eviction_duration : Z;
  _sessions_mem_usage : Z;
}.

Definition max_mem_usage : Z := 10 * 1024 * 1024.

Definition max_sessions_per_core (shards : Z) : Z := int32_max `div` shards.

Definition make_cache (shards shard eviction_timeout : Z) : fetch_session_cache :=
  let min_id := s32 (max_sessions_per_core shards * shard) in
  {| _sessions := ∅; sessions_table := st_empty; heap := ∅; next_pointer := 0;
     _min_session_id := min_id; _max_session_id := s32 (max_sessions_per_core shards + min_id - 1);
     _last_session_id := min_id; _session_eviction_duration := eviction_timeout; _sessions_mem_usage := 0 |}.

Definition with_heap (h : gmap nat fetch_session) (c : fetch_session_cache) : fetch_session_cache :=
  {| _sessions := _sessions c; sessions_table := sessions_table c; heap := h; next_pointer := next_pointer c;
     _min_session_id := _min_session_id c; _max_session_id := _max_session_id c;
     _last_session_id := _last_session_id c; _session_eviction_duration := _session_eviction_duration c;
     _sessions_mem_usage := _sessions_mem_usage c |}.

Definition with_last_id (i : Z) (c : fetch_session_cache) : fetch_session_cache :=
  {| _sessions := _sessions c; sessions_table := sessions_table c; heap := heap c; next_pointer := next_pointer c;
     _min_session_id := _min_session_id c; _max_session_id := _max_session_id c;
     _last_session_id := i; _session_eviction_duration := _session_eviction_duration c;
     _sessions_mem_usage := _sessions_mem_usage c |}.

Definition with_usage (u : Z) (c : fetch_session_cache) : fetch_session_cache :=
  {| _sessions := _sessions c; sessions_table := sessions_table c; heap := heap c; next_pointer := next_pointer c;
     _min_session_id := _min_session_id c; _max_session_id := _max_session_id c;
     _last_session_id := _last_session_id c; _session_eviction_duration := _session_eviction_duration c;
     _sessions_mem_usage := u64 u |}.

(** [_sessions.emplace] and [_sessions.erase]. *)
Definition emplace_session (id : Z) (p : nat) (c : fetch_session_cache) : fetch_session_cache :=
  {| _sessions := <[id := p]> (_sessions c); sessions_table := st_emplace id (sessions_table c); heap := heap c;
     next_pointer := next_pointer c; _min_session_id := _min_session_id c; _max_session_id := _max_session_id c;
     _last_session_id := _last_session_id c; _session_eviction_duration := _session_eviction_duration c;
     _sessions_mem_usage := _sessions_mem_usage c |}.

Definition erase_session (id : Z) (c : fetch_session_cache) : fetch_session_cache :=
  {| _sessions := delete id (_sessions c); sessions_table := st_erase id (sessions_table c); heap := heap c;
     next_pointer := next_pointer c; _min_session_id := _min_session_id c; _max_session_id := _max_session_id c;
     _last_session_id := _last_session_id c; _session_eviction_duration := _session_eviction_duration c;
     _sessions_mem_usage := _sessions_mem_usage c |}.

(** [make_lw_shared]. *)
Definition alloc_session (s : fetch_session) (c : fetch_session_cache) : fetch_session_cache :=
  {| _sessions := _sessions c; sessions_table := sessions_table c; heap := <[next_pointer c := s]> (heap c);
     next_pointer := S (next_pointer c); _min_session_id := _min_session_id c; _max_session_id := _max_session_id c;
     _last_session_id := _last_session_id c; _session_eviction_duration := _session_eviction_duration c;
     _sessions_mem_usage := _sessions_mem_usage c |}.

Definition store_session (p : nat) (s : fetch_session) (c : fetch_session_cache) : fetch_session_cache :=
  with_heap (<[p := s]> (heap c)) c.

Definition cache_mem_usage (c : fetch_session_cache) : Z := st_bytes (sessions_table c) + _sessions_mem_usage c.

(** The search for a free id; the number of sessions bounds its length. *)
Fixpoint next_free_id (fuel : nat) (sessions : gmap Z nat) (last : Z) : option Z :=
  match fuel with
  | O => None
  | S fuel =>
      let id := s32 (last + 1) in
      if bool_decide (is_Some (sessions !! id)) then next_free_id fuel sessions id else Some id
  end.

(** [new_session_id]; the outer option is the search's bound. *)
Definition new_session_id (shards : Z) (c : fetch_session_cache) : option (option Z * fetch_session_cache) :=
  if (max_mem_usage <? cache_mem_usage c) || (max_sessions_per_core shards <? Z.of_nat (size (_sessions c)))
  then Some (None, c)
  else
    let last := if _max_session_id c <=? _last_session_id c then _min_session_id c else _last_session_id c in
    id ← next_free_id (S (size (_sessions c))) (_sessions c) last;
    Some (Some id, with_last_id id c).

(** [gc_sessions], for one session and for all. *)
Definition expired (now : Z) (c : fetch_session_cache) (s : fetch_session) : bool :=
  negb (s_locked s || (now - s_last_used s <? _session_eviction_duration c)).

Definition gc_session (now : Z) (c : fetch_session_cache) (id : Z) : fetch_session_cache :=
  match _sessions c !! id ≫= (heap c !!.) with
  | Some s => if expired now c s
              then erase_session id (with_usage (_sessions_mem_usage c - session_mem_usage s) c) else c
  | None => c
  end.

Definition gc_sessions (now : Z) (c : fetch_session_cache) : fetch_session_cache :=
  fold_left (gc_session now) (map_to_list (_sessions c)).*1 c.

(** ** Requests *)

Record fetch_session_ctx := { ctx_session : option nat; ctx_is_full_fetch : bool; ctx_error : error_code.t }.

Definition sessionless : fetch_session_ctx :=
  {| ctx_session := None; ctx_is_full_fetch := false; ctx_error := error_code.none |}.
Definition ctx_failed (e : error_code.t) : fetch_session_ctx :=
  {| ctx_session := None; ctx_is_full_fetch := false; ctx_error := e |}.

(** The contexts that hold a session lock it. *)
Definition hold_session (p : nat) (is_full : bool) (c : fetch_session_cache) : fetch_session_cache * fetch_session_ctx :=
  (with_heap (alter (set_locked true) p (heap c)) c,
   {| ctx_session := Some p; ctx_is_full_fetch := is_full; ctx_error := error_code.none |}).

(** The destructor of the context. *)
Definition release_session (x : fetch_session_ctx) (c : fetch_session_cache) : fetch_session_cache :=
  match ctx_session x with
  | Some p => with_heap (alter (set_locked false) p (heap c)) c
  | None => c
  end.

(** The session that a full fetch names is closed. *)
Definition close_session (id : Z) (c : fetch_session_cache) : fetch_session_cache :=
  if id =? invalid_fetch_session_id then c
  else match _sessions c !! id ≫= (heap c !!.) with
       | Some s => erase_session id (with_usage (_sessions_mem_usage c - session_mem_usage s) c)
       | None => c
       end.

Definition full_fetch (now shards : Z) (r : fetch_request) (c : fetch_session_cache) :
    res (fetch_session_cache * fetch_session_ctx) :=
  let c := close_session (fr_session_id r) c in
  if fr_session_epoch r =? final_fetch_session_epoch then Ok (c, sessionless)
  else match new_session_id shards c with
  | None => Crash
  | Some (None, c) => Ok (c, sessionless)
  | Some (Some id, c) =>
      m ← update_fetch_session r empty_map;
      let s := with_partitions m (make_session now id) in
      let p := next_pointer c in
      let c := alloc_session s c in
      _ ← vassert (bool_decide (_sessions c !! id = None));
      let c := emplace_session id p c in
      Ok (hold_session p true (with_usage (_sessions_mem_usage c + session_mem_usage s) c))
  end.

Definition incremental_fetch (now : Z) (r : fetch_request) (c : fetch_session_cache) :
    res (fetch_session_cache * fetch_session_ctx) :=
  match _sessions c !! fr_session_id r with
  | None => Ok (c, ctx_failed error_code.fetch_session_id_not_found)
  | Some p =>
      s ← deref (heap c !! p);
      if negb (s_epoch s =? fr_session_epoch r)
      then Ok (c, ctx_failed error_code.invalid_fetch_session_epoch)
      else
        let c := with_usage (_sessions_mem_usage c - session_mem_usage s) c in
        m ← update_fetch_session r (s_partitions s);
        let s := with_partitions m s in
        if session_empty s then Ok (erase_session (fr_session_id r) (store_session p s c), sessionless)
        else
          let s := advance_epoch now s in
          let c := with_usage (_sessions_mem_usage c + session_mem_usage s) (store_session p s c) in
          Ok (hold_session p false c)
  end.

Definition maybe_get_session (now shards : Z) (r : fetch_request) (c : fetch_session_cache) :
    res (fetch_session_cache * fetch_session_ctx) :=
  if is_full_fetch_request r then full_fetch now shards r c else incremental_fetch now r c.

End session.
