(* ===== verification/FetchSessionProps.v ===== *)
(** * Fetch sessions: correctness

    The cache never fails an assertion and accounts exactly for the memory of its sessions;
    a session holds what its requests, applied in order, ask for; a request is accepted
    once.  Session ids are fresh, and stay in the shard's range except in one corner. *)

From stdpp Require Import strings gmap list_numbers.
From S2P Require Import Prelude Errors FetchSession.

(** ** Keys *)

Lemma kitp_eqb_refl k : kitp_eqb k k = true.
Proof. unfold kitp_eqb. rewrite bool_decide_true, !Z.eqb_refl by done. by destruct (_ || _). Qed.

Lemma kitp_eqb_sym a b : kitp_eqb a b = kitp_eqb b a.
Proof.
  unfold kitp_eqb. rewrite orb_comm, (Z.eqb_sym (k_topic_id a) (k_topic_id b)), (Z.eqb_sym (k_partition a)).
  by rewrite (bool_decide_ext (k_topic a = k_topic b) (k_topic b = k_topic a)).
Qed.

(** Keys that all have topic ids, or all have none, are compared field by field. *)
Definition key_kind (with_id : bool) (k : kitp) : Prop := negb (k_topic_id k =? no_topic_id) = with_id.

Lemma kitp_eqb_kind w a b : key_kind w a -> key_kind w b -> kitp_eqb a b = true <-> a = b.
Proof.
  unfold key_kind, kitp_eqb. intros Ha Hb. split; [|intros ->; apply kitp_eqb_refl].
  destruct a as [ia ta pa], b as [ib tb pb]; cbn in *.
  destruct (Z.eqb_spec ia no_topic_id), (Z.eqb_spec ib no_topic_id); cbn in *; subst; try done;
    rewrite ?andb_true_iff, bool_decide_eq_true, !Z.eqb_eq; intros; destruct_and?; congruence.
Qed.

Section props.
Context `{Containers}.

(** ** The linked map *)

(** No two entries have equal keys. *)
Definition keys_ok (m : linked_map) : Prop :=
  forall i j a b, insertion_order m !! i = Some a -> insertion_order m !! j = Some b ->
    kitp_eqb (topic_partition a) (topic_partition b) = true -> i = j.

Lemma keys_ok_empty : keys_ok empty_map.
Proof. by intros [|i]. Qed.

Lemma map_find_None k m : map_find k m = None ->
  forall i a, insertion_order m !! i = Some a -> kitp_eqb k (topic_partition a) = false.
Proof.
  intros Hf i a Ha. apply list_find_None in Hf. rewrite Forall_lookup in Hf. specialize (Hf i a Ha).
  by apply not_true_is_false.
Qed.

Lemma map_find_Some k m i a : map_find k m = Some (i, a) ->
  insertion_order m !! i = Some a /\ kitp_eqb k (topic_partition a) = true.
Proof. intros (? & ? & _)%list_find_Some. done. Qed.

Lemma keys_ok_set i a v m : keys_ok m -> insertion_order m !! i = Some a -> topic_partition v = topic_partition a ->
  keys_ok (map_set i v m).
Proof.
  intros Hm Hi Hv j1 j2 b1 b2. cbn. rewrite !list_lookup_insert_Some.
  intros [(<- & <- & _)|[Hn1 H1]] [(<- & <- & _)|[Hn2 H2]]; [done|..]; rewrite ?Hv; intros E; by eapply Hm.
Qed.

Lemma map_emplace_spec v m : keys_ok m -> map_find (topic_partition v) m = None ->
  exists m', map_emplace v m = Ok m' /\ insertion_order m' = insertion_order m ++ [v] /\ keys_ok m'.
Proof.
  intros Hm Hf. unfold map_emplace, map_contains. rewrite Hf. eexists. split; [done|]. split; [done|].
  intros i j a b Ha Hb E. cbn in Ha, Hb. pose proof (map_find_None _ _ Hf) as Hn.
  apply lookup_snoc_Some in Ha as [[_ Ha]|[-> <-]], Hb as [[_ Hb]|[-> <-]]; [by eapply Hm| | |done].
  - rewrite kitp_eqb_sym, (Hn _ _ Ha) in E. done.
  - rewrite (Hn _ _ Hb) in E. done.
Qed.

Lemma keys_ok_delete i m t : keys_ok m -> keys_ok {| insertion_order := delete i (insertion_order m); partitions_table := t |}.
Proof.
  intros Hm j1 j2 a b. cbn. rewrite !list_lookup_delete. intros H1 H2 E.
  repeat case_decide; pose proof (Hm _ _ _ _ H1 H2 E); lia.
Qed.

Lemma keys_ok_erase k m : keys_ok m -> keys_ok (map_erase k m).
Proof. intros Hm. unfold map_erase. destruct (map_find k m) as [[i a]|]; [by apply keys_ok_delete|done]. Qed.

Lemma update_partition_ok k p m : keys_ok m -> exists m', update_partition k p m = Ok m' /\ keys_ok m'.
Proof.
  intros Hm. unfold update_partition. destruct (map_find k m) as [[i a]|] eqn:E.
  - apply map_find_Some in E as [Ha _]. eexists. split; [done|]. by eapply keys_ok_set.
  - destruct (map_emplace_spec (make_session_partition k p) m Hm E) as (m' & ? & _ & ?). eauto.
Qed.

Lemma update_partitions_ok l m : keys_ok m -> exists m', update_partitions l m = Ok m' /\ keys_ok m'.
Proof.
  revert m. induction l as [|[[b k] p] l IH]; intros m Hm; [by exists m|]. cbn.
  destruct (update_partition_ok k p m Hm) as (m1 & -> & Hm1). by apply IH.
Qed.

Lemma erase_all_ok l m : keys_ok m -> keys_ok (fold_left (fun m k => map_erase k m) l m).
Proof. revert m. induction l as [|k l IH]; intros m Hm; [done|]. by apply IH, keys_ok_erase. Qed.

Lemma update_fetch_session_ok r m : keys_ok m -> exists m', update_fetch_session r m = Ok m' /\ keys_ok m'.
Proof.
  intros Hm. unfold update_fetch_session. destruct (update_partitions_ok (request_partitions r) m Hm) as (m1 & -> & Hm1).
  eexists. split; [done|]. by apply erase_all_ok.
Qed.

(** ** What a session holds *)

Definition map_lookup (k : kitp) (m : linked_map) : option fetch_session_partition := snd <$> map_find k m.

(** The request's last word on a partition. *)
Definition requested (r : fetch_request) (k : kitp) : option fetch_partition :=
  snd <$> last (filter (fun e => e.1.2 = k) (request_partitions r)).

Definition map_kind (w : bool) (m : linked_map) : Prop :=
  forall i a, insertion_order m !! i = Some a -> key_kind w (topic_partition a).

Definition request_kind (w : bool) (r : fetch_request) : Prop :=
  Forall (fun e => key_kind w e.1.2) (request_partitions r) /\ Forall (key_kind w) (forgotten_partitions r).

Definition map_keys (m : linked_map) : list kitp := topic_partition <$> insertion_order m.

(** Keys in the order in which they first appear. *)
Definition add_key (ks : list kitp) (k : kitp) : list kitp := if bool_decide (k ∈ ks) then ks else ks ++ [k].

Record good (w : bool) (m : linked_map) : Prop := { good_keys : keys_ok m; good_kind : map_kind w m }.

Lemma map_lookup_Some w k m a : good w m -> key_kind w k ->
  map_lookup k m = Some a <-> (exists i, insertion_order m !! i = Some a) /\ topic_partition a = k.
Proof.
  intros [Hm Hw] Hk. unfold map_lookup. split.
  - intros ([i x] & Hf & [= <-])%fmap_Some. apply map_find_Some in Hf as [Hi Hx]. split; [by exists i|].
    symmetry. by apply (kitp_eqb_kind w); [|eapply Hw|].
  - intros [[i Hi] <-]. destruct (map_find (topic_partition a) m) as [[j b]|] eqn:E; cbn.
    + apply map_find_Some in E as [Hj Hb]. rewrite (Hm _ _ _ _ Hi Hj Hb) in Hi. congruence.
    + pose proof (map_find_None _ _ E _ _ Hi) as Hx.
      by rewrite kitp_eqb_refl in Hx.
Qed.

Lemma map_lookup_eq w m m' k k' : good w m -> good w m' -> key_kind w k -> key_kind w k' ->
  (forall a, topic_partition a = k' -> (exists i, insertion_order m' !! i = Some a) <-> (exists i, insertion_order m !! i = Some a)) ->
  map_lookup k' m' = map_lookup k' m.
Proof.
  intros Hm Hm' Hk Hk' He. apply option_eq. intros a. rewrite !(map_lookup_Some w) by done.
  split; intros [Hx Ha]; (split; [by apply He|done]).
Qed.

Lemma good_elem w m i a : good w m -> insertion_order m !! i = Some a ->
  forall b j, insertion_order m !! j = Some b -> topic_partition b = topic_partition a -> b = a /\ i = j.
Proof.
  intros [Hm _] Hi b j Hj E. assert (i = j) as <- by (eapply Hm; [done..|]; rewrite E; apply kitp_eqb_refl).
  split; [congruence|done].
Qed.

Lemma update_partition_spec w k p m m' : good w m -> key_kind w k -> update_partition k p m = Ok m' ->
  good w m' /\ map_keys m' = add_key (map_keys m) k /\
  map_lookup k m' = Some (match map_lookup k m with Some fp => refresh p fp | None => make_session_partition k p end) /\
  forall k', key_kind w k' -> k' <> k -> map_lookup k' m' = map_lookup k' m.
Proof.
  intros Hg Hk. unfold update_partition. destruct (map_find k m) as [[i a]|] eqn:E.
  - intros [= <-]. pose proof E as [Hi Hka]%map_find_Some.
    apply (kitp_eqb_kind w) in Hka; [|done|by eapply (good_kind _ _ Hg)]. subst k.
    assert (Hg' : good w (map_set i (refresh p a) m)).
    { split; [by eapply keys_ok_set; [apply Hg|..]|]. intros j b. cbn. rewrite list_lookup_insert_Some.
      intros [(<- & <- & _)|[_ Hb]]; [done|by eapply (good_kind _ _ Hg)]. }
    split; [done|]. split; [|split].
    + unfold map_keys, add_key. cbn. rewrite bool_decide_true by (apply list_elem_of_fmap; exists a; split; [done|by eapply list_elem_of_lookup_2]).
      rewrite list_fmap_insert. apply list_insert_id. rewrite list_lookup_fmap, Hi. done.
    + assert (map_lookup (topic_partition a) m = Some a) as -> by (unfold map_lookup; by rewrite E).
      apply (map_lookup_Some w); [done..|]. split; [|done]. exists i. cbn.
      rewrite list_lookup_insert_eq; [done|]. by eapply lookup_lt_Some.
    + intros k' Hk' Hne. eapply (map_lookup_eq w _ _ k'); [done..|]. intros b Hb. cbn. split; intros [j Hj].
      * apply list_lookup_insert_Some in Hj as [(_ & <- & _)|[_ Hj]]; [done|by exists j].
      * exists j. rewrite list_lookup_insert_ne; [done|]. intros ->. congruence.
  - intros Hm'. destruct (map_emplace_spec (make_session_partition k p) m (good_keys _ _ Hg) E) as (m1 & Hm1 & Ho & Hk1).
    rewrite Hm1 in Hm'. injection Hm' as <-.
    assert (Hg' : good w m1).
    { split; [done|]. intros j b. rewrite Ho. intros [[_ Hb]|[_ <-]]%lookup_snoc_Some; [by eapply (good_kind _ _ Hg)|done]. }
    split; [done|]. split; [|split].
    + unfold map_keys, add_key. rewrite Ho, fmap_app. rewrite bool_decide_false; [done|].
      intros (a & Ea & [i Hi]%list_elem_of_lookup)%list_elem_of_fmap. pose proof (map_find_None _ _ E _ _ Hi) as Hx.
      by rewrite Ea, kitp_eqb_refl in Hx.
    + assert (map_lookup k m = None) as -> by (unfold map_lookup; by rewrite E).
      apply (map_lookup_Some w); [done..|]. split; [|done].
      exists (length (insertion_order m)). by rewrite Ho, list_lookup_middle.
    + intros k' Hk' Hne. eapply (map_lookup_eq w _ _ k'); [done..|]. intros b Hb. rewrite Ho. split; intros [j Hj].
      * apply lookup_snoc_Some in Hj as [[_ Hj]|[_ <-]]; [by exists j|done].
      * exists j. by apply lookup_app_l_Some.
Qed.

Lemma erase_spec w k m : good w m -> key_kind w k ->
  good w (map_erase k m) /\ map_keys (map_erase k m) = filter (fun k' => k' <> k) (map_keys m) /\
  map_lookup k (map_erase k m) = None /\
  forall k', key_kind w k' -> k' <> k -> map_lookup k' (map_erase k m) = map_lookup k' m.
Proof.
  intros Hg Hk. assert (Hd : forall i (t : partition_table), good w {| insertion_order := delete i (insertion_order m); partitions_table := t |}).
  { intros i t. split; [apply keys_ok_delete, Hg|]. intros j a. cbn. rewrite list_lookup_delete. apply (good_kind _ _ Hg). }
  unfold map_erase. destruct (map_find k m) as [[i a]|] eqn:E.
  - pose proof E as [Hi Hka]%map_find_Some. apply (kitp_eqb_kind w) in Hka; [|done|by eapply (good_kind _ _ Hg)]. subst k.
    specialize (Hd i (pt_erase (topic_partition a) (partitions_table m))). set (m' := {| insertion_order := _ |}) in *.
    assert (Hin : forall b, (exists j, delete i (insertion_order m) !! j = Some b) <-> (exists j, insertion_order m !! j = Some b /\ j <> i)).
    { intros b. split; intros [j Hj].
      - rewrite list_lookup_delete in Hj. case_decide; eexists; (split; [exact Hj|lia]).
      - destruct Hj as [Hj Hne]. destruct (decide (j < i)%nat).
        + exists j. by rewrite list_lookup_delete, decide_True.
        + exists (j - 1)%nat. rewrite list_lookup_delete, decide_False by lia. by replace (S (j - 1)) with j by lia. }
    split; [done|]. split; [|split].
    + unfold map_keys. cbn. rewrite <- (take_drop_middle (insertion_order m) i a Hi) at 2.
      rewrite fmap_app, fmap_cons, filter_app, filter_cons_False by (by intros []).
      rewrite delete_take_drop, fmap_app, !filter_all; [done|..];
        intros k (b & -> & [j Hj]%list_elem_of_lookup)%list_elem_of_fmap Heq.
      * rewrite lookup_drop in Hj. destruct (good_elem _ _ _ _ Hg Hi _ _ Hj Heq). lia.
      * apply lookup_take_Some in Hj as [Hj ?]. destruct (good_elem _ _ _ _ Hg Hi _ _ Hj Heq). lia.
    + destruct (map_lookup (topic_partition a) m') as [b|] eqn:Eb; [|done].
      apply (map_lookup_Some w) in Eb as [[j [Hj Hne]]%Hin Hb]; [|done..].
      destruct (good_elem _ _ _ _ Hg Hi _ _ Hj Hb). done.
    + intros k' Hk' Hne. eapply (map_lookup_eq w _ _ k'); [done..|]. intros b Hb. cbn. rewrite Hin. split.
      * intros (j & ? & _). by exists j.
      * intros [j Hj]. exists j. split; [done|]. intros ->. congruence.
  - assert (Hno : k ∉ map_keys m).
    { intros (b & -> & [j Hj]%list_elem_of_lookup)%list_elem_of_fmap. pose proof (map_find_None _ _ E _ _ Hj) as Hx.
      by rewrite kitp_eqb_refl in Hx. }
    split; [done|]. split; [|split; [by unfold map_lookup; rewrite E|done]].
    symmetry. apply filter_all. intros k' Hk' ->. done.
Qed.

(** The fields that a request sets. *)
Definition as_requested (p : fetch_partition) (fp : fetch_session_partition) : Prop :=
  fp_max_bytes fp = fq_partition_max_bytes p /\ fp_fetch_offset fp = fq_fetch_offset p /\
  fp_current_leader_epoch fp = fq_current_leader_epoch p.

Definition last_word (l : list (bool * kitp * fetch_partition)) (k : kitp) : option fetch_partition :=
  snd <$> last (filter (fun e => e.1.2 = k) l).

Lemma last_word_cons b k1 p l k :
  last_word ((b, k1, p) :: l) k =
  match last_word l k with Some p' => Some p' | None => if bool_decide (k1 = k) then Some p else None end.
Proof.
  unfold last_word. rewrite filter_cons. cbn. destruct (decide (k1 = k)) as [->|Hne].
  - rewrite bool_decide_true by done. destruct (filter _ l) as [|x xs] eqn:E; [done|]. rewrite last_cons_cons.
    destruct (last (x :: xs)) eqn:El; [done|by apply last_None in El].
  - rewrite bool_decide_false by done. by destruct (snd <$> last _).
Qed.

Lemma update_partitions_spec w l m m' : good w m -> Forall (fun e => key_kind w e.1.2) l ->
  update_partitions l m = Ok m' ->
  good w m' /\ map_keys m' = fold_left add_key l.*1.*2 (map_keys m) /\
  forall k, key_kind w k ->
    match last_word l k with
    | None => map_lookup k m' = map_lookup k m
    | Some p => exists fp, map_lookup k m' = Some fp /\ as_requested p fp /\
                  forall fp0, map_lookup k m = Some fp0 -> fp = refresh p fp0
    end.
Proof.
  revert m. induction l as [|[[b k1] p1] l IH]; intros m Hg Hl; cbn [update_partitions].
  { intros [= <-]. done. }
  apply Forall_cons in Hl as [Hk1 Hl]. intros (m1 & H1 & Hm')%res_bind_Ok.
  destruct (update_partition_spec w k1 p1 m m1 Hg Hk1 H1) as (Hg1 & Hkeys & Hsame & Hother).
  destruct (IH m1 Hg1 Hl Hm') as (Hg' & Hkeys' & Hall). split; [done|]. split; [by rewrite Hkeys', Hkeys|].
  intros k Hk. rewrite last_word_cons. specialize (Hall k Hk). destruct (last_word l k) as [p|].
  - destruct Hall as (fp & Hfp & Hreq & Hold). exists fp. split; [done|]. split; [done|]. intros fp0 Hfp0.
    destruct (decide (k = k1)) as [->|Hne]; [|apply Hold; by rewrite Hother].
    rewrite Hfp0 in Hsame. rewrite (Hold _ Hsame). done.
  - rewrite Hall. case_bool_decide as Ek.
    + subst k1. eexists. split; [exact Hsame|]. split; [by destruct (map_lookup k m)|]. by intros fp0 ->.
    + by apply Hother.
Qed.

Lemma erase_all_spec w l m : good w m -> Forall (key_kind w) l ->
  let m' := fold_left (fun m k => map_erase k m) l m in
  good w m' /\ map_keys m' = filter (fun k => k ∉ l) (map_keys m) /\
  forall k, key_kind w k -> map_lookup k m' = if bool_decide (k ∈ l) then None else map_lookup k m.
Proof.
  revert m. induction l as [|k1 l IH]; intros m Hg Hl.
  { cbn. split; [done|]. split; [by rewrite filter_all by (intros; apply not_elem_of_nil)|done]. }
  apply Forall_cons in Hl as [Hk1 Hl]. destruct (erase_spec w k1 m Hg Hk1) as (Hg1 & Hkeys & Hno & Hother).
  destruct (IH _ Hg1 Hl) as (Hg' & Hkeys' & Hall). cbn. split; [done|]. split.
  - rewrite Hkeys', Hkeys, list_filter_filter. apply list_filter_iff. intros k. rewrite not_elem_of_cons. tauto.
  - intros k Hk. rewrite (Hall k Hk). destruct (decide (k ∈ l)).
    + by rewrite !bool_decide_true by (by try apply elem_of_cons; auto).
    + rewrite (bool_decide_false (k ∈ l)) by done. destruct (decide (k = k1)) as [->|Hne].
      * rewrite bool_decide_true by left. done.
      * rewrite bool_decide_false; [by apply Hother|]. rewrite elem_of_cons. tauto.
Qed.

(** C24: A session holds what its requests ask for.  After a request has been applied, a
    partition that it forgets is gone; one that it names has the request's last offset,
    limit and leader epoch and otherwise keeps what the session knew of it; every other is
    as before; and partitions stay in the order in which they were first named.  (Requests
    and session all use topic ids, or none does.) *)
Theorem session_follows_requests w r m m' : keys_ok m -> map_kind w m -> request_kind w r ->
  update_fetch_session r m = Ok m' ->
  map_keys m' = filter (fun k => k ∉ forgotten_partitions r) (fold_left add_key (request_partitions r).*1.*2 (map_keys m)) /\
  forall k, key_kind w k ->
    if bool_decide (k ∈ forgotten_partitions r) then map_lookup k m' = None
    else match requested r k with
         | None => map_lookup k m' = map_lookup k m
         | Some p => exists fp, map_lookup k m' = Some fp /\ as_requested p fp /\
                       forall fp0, map_lookup k m = Some fp0 -> fp = refresh p fp0
         end.
Proof.
  intros Hm Hw [Hr Hf]. unfold update_fetch_session. intros (m1 & H1 & [= <-])%res_bind_Ok.
  destruct (update_partitions_spec w _ m m1 (Build_good w m Hm Hw) Hr H1) as (Hg1 & Hkeys1 & Hall1).
  destruct (erase_all_spec w _ m1 Hg1 Hf) as (_ & Hkeys & Hall).
  split; [by rewrite Hkeys, Hkeys1|]. intros k Hk. rewrite (Hall k Hk).
  case_bool_decide; [done|]. exact (Hall1 k Hk).
Qed.

(** ** The cache *)

Definition total (ss : gmap Z nat) (f : nat -> Z) : Z := map_fold (fun _ p acc => f p + acc) 0 ss.

Lemma total_insert ss f id p : ss !! id = None -> total (<[id := p]> ss) f = f p + total ss f.
Proof. intros Hn. unfold total. rewrite map_fold_insert_L; [done|intros; lia|done]. Qed.

Lemma total_delete ss f id p : ss !! id = Some p -> total ss f = f p + total (delete id ss) f.
Proof. intros Hp. unfold total. rewrite (map_fold_delete_L _ _ id p ss); [done|intros; lia|done]. Qed.

Lemma total_ext ss f g : (forall id p, ss !! id = Some p -> f p = g p) -> total ss f = total ss g.
Proof.
  induction ss as [|id p ss Hn IH] using map_ind; intros Hfg; [done|].
  rewrite !total_insert by done. rewrite (Hfg id p) by apply lookup_insert_eq. f_equal. apply IH.
  intros id' p' Hp'. apply (Hfg id'). rewrite lookup_insert_ne by congruence. done.
Qed.

Definition usage_of (h : gmap nat fetch_session) (p : nat) : Z :=
  match h !! p with Some s => session_mem_usage s | None => 0 end.

Record cache_ok (c : fetch_session_cache) : Prop := {
  co_session id p : _sessions c !! id = Some p ->
    exists s, heap c !! p = Some s /\ s_id s = id /\ keys_ok (s_partitions s);
  co_heap p s : heap c !! p = Some s -> (p < next_pointer c)%nat;
  co_usage : _sessions_mem_usage c = u64 (total (_sessions c) (usage_of (heap c)));
}.

Lemma make_cache_ok shards shard timeout : cache_ok (make_cache shards shard timeout).
Proof. split; cbn; [by intros id p Hp; rewrite lookup_empty in Hp|by intros p s Hp; rewrite lookup_empty in Hp|done]. Qed.

Lemma u64_sub a b : u64 (u64 a - b) = u64 (a - b).
Proof. unfold uwrap. apply Zminus_mod_idemp_l. Qed.
Lemma u64_add a b : u64 (u64 a + b) = u64 (a + b).
Proof. unfold uwrap. apply Zplus_mod_idemp_l. Qed.

(** Two ids never share a session. *)
Lemma pointer_inj c id id' p : cache_ok c -> _sessions c !! id = Some p -> _sessions c !! id' = Some p -> id = id'.
Proof.
  intros Hc H1 H2. destruct (co_session c Hc _ _ H1) as (s & Hs & <- & _), (co_session c Hc _ _ H2) as (s' & Hs' & <- & _).
  congruence.
Qed.

Lemma erase_ok c id p s : cache_ok c -> _sessions c !! id = Some p -> heap c !! p = Some s ->
  cache_ok (erase_session id (with_usage (_sessions_mem_usage c - session_mem_usage s) c)).
Proof.
  intros Hc Hid Hs. split; cbn.
  - intros id' p' [_ Hp]%lookup_delete_Some. by apply (co_session c Hc).
  - apply (co_heap c Hc).
  - rewrite (co_usage c Hc), u64_sub. f_equal. rewrite (total_delete (_sessions c) _ id p Hid). unfold usage_of at 1.
    rewrite Hs. lia.
Qed.

(** A session that is changed in place. *)
Lemma store_session_ok c id p s s' : cache_ok c -> _sessions c !! id = Some p -> heap c !! p = Some s ->
  s_id s' = s_id s -> keys_ok (s_partitions s') ->
  cache_ok (with_usage (u64 (_sessions_mem_usage c - session_mem_usage s) + session_mem_usage s') (store_session p s' c)).
Proof.
  intros Hc Hid Hs Hsid Hk. split; cbn.
  - intros id' p' Hp'. destruct (co_session c Hc _ _ Hp') as (s1 & Hs1 & Hid1 & Hk1).
    destruct (decide (p' = p)) as [->|Hne].
    + exists s'. rewrite lookup_insert_eq. split; [done|]. split; [congruence|done].
    + exists s1. by rewrite lookup_insert_ne.
  - intros p' s1. rewrite lookup_insert_Some. intros [[<- _]|[_ Hp']]; by eapply (co_heap c Hc).
  - rewrite (co_usage c Hc), u64_sub, u64_add. f_equal.
    rewrite (total_delete (_sessions c) (usage_of (heap c)) id p Hid), (total_delete (_sessions c) (usage_of (<[p:=s']> (heap c))) id p Hid).
    unfold usage_of at 1 3. rewrite Hs, lookup_insert_eq.
    rewrite (total_ext _ (usage_of (<[p:=s']> (heap c))) (usage_of (heap c))); [lia|].
    intros id' p' [Hne Hp']%lookup_delete_Some. unfold usage_of. rewrite lookup_insert_ne; [done|].
    intros ->. apply Hne. by eapply pointer_inj.
Qed.

Lemma alter_locked_ok c p b : cache_ok c -> cache_ok (with_heap (alter (set_locked b) p (heap c)) c).
Proof.
  intros Hc. split; cbn.
  - intros id p' Hp'. destruct (co_session c Hc _ _ Hp') as (s & Hs & Hid & Hk).
    destruct (decide (p' = p)) as [->|Hne].
    + exists (set_locked b s). by rewrite lookup_alter_eq, Hs.
    + exists s. by rewrite lookup_alter_ne.
  - intros p' s. destruct (decide (p' = p)) as [->|Hne]; [|rewrite lookup_alter_ne by done; apply (co_heap c Hc)].
    rewrite lookup_alter_eq. intros (s0 & Hs0 & _)%fmap_Some. by eapply (co_heap c Hc).
  - rewrite (co_usage c Hc). f_equal. apply total_ext. intros id p' _. unfold usage_of.
    destruct (decide (p' = p)) as [->|Hne]; [|by rewrite lookup_alter_ne].
    rewrite lookup_alter_eq. by destruct (heap c !! p).
Qed.

Lemma release_ok c x : cache_ok c -> cache_ok (release_session x c).
Proof. intros Hc. unfold release_session. destruct (ctx_session x); [by apply alter_locked_ok|done]. Qed.

Lemma close_ok c id : cache_ok c -> cache_ok (close_session id c).
Proof.
  intros Hc. unfold close_session. destruct (_ =? _); [done|].
  destruct (_sessions c !! id) as [p|] eqn:Hp; cbn; [|done]. destruct (heap c !! p) as [s|] eqn:Hs; [|done].
  by eapply erase_ok.
Qed.

Lemma gc_ok now c : cache_ok c -> cache_ok (gc_sessions now c).
Proof.
  unfold gc_sessions. generalize ((map_to_list (_sessions c)).*1). intros l. revert c.
  induction l as [|id l IH]; intros c Hc; [done|]. cbn. apply IH. unfold gc_session.
  destruct (_sessions c !! id) as [p|] eqn:Hp; cbn; [|done]. destruct (heap c !! p) as [s|] eqn:Hs; [|done].
  destruct (expired now c s); [by eapply erase_ok|done].
Qed.

(** *** Session ids *)

Lemma s32_next last i : s32 (s32 (last + 1) + 1 + i) = s32 (last + 1 + (i + 1)).
Proof. rewrite <- Z.add_assoc, swrap_add_l. f_equal. lia. Qed.

Lemma next_free_Some fuel ss last id : next_free_id fuel ss last = Some id ->
  ss !! id = None /\ exists i, 0 <= i < Z.of_nat fuel /\ id = s32 (last + 1 + i) /\
    forall j, 0 <= j < i -> is_Some (ss !! s32 (last + 1 + j)).
Proof.
  revert last. induction fuel as [|fuel IH]; intros last; [done|]. cbn [next_free_id].
  case_bool_decide as Hin.
  - intros (Hn & i & Hi & -> & Hall)%IH. split; [done|].
    exists (i + 1). split; [lia|]. split; [apply s32_next|].
    intros j Hj. destruct (decide (j = 0)) as [->|]; [by rewrite Z.add_0_r|].
    specialize (Hall (j - 1) ltac:(lia)). rewrite s32_next in Hall. by replace j with (j - 1 + 1) by lia.
  - intros [= <-]. split; [by apply eq_None_not_Some|]. exists 0. split; [lia|]. split; [by rewrite Z.add_0_r|lia].
Qed.

Lemma next_free_None fuel ss last : next_free_id fuel ss last = None ->
  forall i, 0 <= i < Z.of_nat fuel -> is_Some (ss !! s32 (last + 1 + i)).
Proof.
  revert last. induction fuel as [|fuel IH]; intros last; [lia|]. cbn [next_free_id].
  case_bool_decide as Hin; [|done]. intros Hn i Hi. destruct (decide (i = 0)) as [->|]; [by rewrite Z.add_0_r|].
  specialize (IH _ Hn (i - 1) ltac:(lia)). rewrite s32_next in IH. by replace i with (i - 1 + 1) by lia.
Qed.

Lemma s32_inj a b : Z.abs (a - b) < 2 ^ 32 -> s32 a = s32 b -> a = b.
Proof.
  unfold swrap. intros Hab E. assert (Em : (a + 2 ^ (32 - 1)) mod 2 ^ 32 = (b + 2 ^ (32 - 1)) mod 2 ^ 32) by lia.
  pose proof (Z.div_mod (a + 2 ^ (32 - 1)) (2 ^ 32) ltac:(done)). pose proof (Z.div_mod (b + 2 ^ (32 - 1)) (2 ^ 32) ltac:(done)). nia.
Qed.

(** The search ends before the fuel does. *)
Lemma next_free_total ss last : Z.of_nat (size ss) < 2 ^ 31 -> is_Some (next_free_id (S (size ss)) ss last).
Proof.
  intros Hsz. destruct (next_free_id _ _ _) as [id|] eqn:E; [done|exfalso].
  set (ids := (fun i => s32 (last + 1 + i)) <$> seqZ 0 (Z.of_nat (S (size ss)))).
  assert (Hnd : NoDup ids).
  { apply NoDup_fmap_2_strong; [|apply NoDup_seqZ]. intros x y Hx%elem_of_seqZ Hy%elem_of_seqZ Hxy.
    apply s32_inj in Hxy; lia. }
  assert (Hsub : ids ⊆ (map_to_list ss).*1).
  { intros id (i & -> & Hi%elem_of_seqZ)%list_elem_of_fmap.
    destruct (next_free_None _ _ _ E i ltac:(lia)) as [p Hp]. apply list_elem_of_fmap. exists (s32 (last + 1 + i), p).
    split; [done|]. by apply elem_of_map_to_list. }
  apply NoDup_submseteq in Hsub; [|done]. apply submseteq_length in Hsub.
  unfold ids in Hsub. rewrite !length_fmap, length_seqZ, length_map_to_list in Hsub. lia.
Qed.

Lemma per_core_bound shards : 1 <= shards -> max_sessions_per_core shards < 2 ^ 31.
Proof. intros. unfold max_sessions_per_core, int32_max. apply Z.div_lt_upper_bound; nia. Qed.

Lemma new_session_id_total shards c : 1 <= shards -> is_Some (new_session_id shards c).
Proof.
  intros Hs. unfold new_session_id. destruct (max_mem_usage <? _); [done|].
  destruct (Z.ltb_spec (max_sessions_per_core shards) (Z.of_nat (size (_sessions c)))); [done|]. cbn [orb].
  pose proof (per_core_bound shards Hs).
  destruct (next_free_total (_sessions c) (if _max_session_id c <=? _last_session_id c then _min_session_id c else _last_session_id c)) as [id ->]; [lia|]. done.
Qed.

Lemma new_session_id_effect shards c id c' : new_session_id shards c = Some (id, c') ->
  (cache_ok c -> cache_ok c') /\ _sessions c' = _sessions c /\ heap c' = heap c /\ next_pointer c' = next_pointer c /\
  (forall i, id = Some i -> _sessions c !! i = None).
Proof.
  unfold new_session_id. destruct (_ || _); [by intros [= <- <-]|].
  intros (i & Hi & [= <- <-])%bind_Some. apply next_free_Some in Hi as [Hn _].
  split; [intros [? ? ?]; by split|]. split_and!; [done..|]. by intros ? [= <-].
Qed.

(** *** Requests *)

Lemma full_fetch_ok now shards r c : 1 <= shards -> cache_ok c ->
  exists c' x, full_fetch now shards r c = Ok (c', x) /\ cache_ok c'.
Proof.
  intros Hs Hc. apply (close_ok c (fr_session_id r)) in Hc. unfold full_fetch.
  set (c1 := close_session _ c) in *. clearbody c1. destruct (_ =? final_fetch_session_epoch); [eauto|].
  destruct (new_session_id_total shards c1 Hs) as [[id c2] Hid]. rewrite Hid.
  apply new_session_id_effect in Hid as (Hok & Hss & Hh & Hnp & Hfresh). specialize (Hok Hc).
  destruct id as [id|]; [|eauto]. specialize (Hfresh id eq_refl).
  destruct (update_fetch_session_ok r empty_map keys_ok_empty) as (m & -> & Hm). cbn [mbind res_bind].
  rewrite <- Hss in Hfresh. cbn [alloc_session _sessions]. rewrite bool_decide_true by done. cbn [vassert mbind res_bind].
  eexists _, _. split; [reflexivity|]. apply alter_locked_ok.
  assert (Hnew : heap c2 !! next_pointer c2 = None).
  { destruct (heap c2 !! next_pointer c2) eqn:E; [|done]. apply (co_heap c2 Hok) in E. lia. }
  split; cbn.
  - intros id' p'. rewrite lookup_insert_Some. intros [[<- <-]|[Hne Hp']].
    + eexists. rewrite lookup_insert_eq. split; [done|]. split; [done|exact Hm].
    + destruct (co_session c2 Hok _ _ Hp') as (s & Hs' & ? & ?). exists s. rewrite lookup_insert_ne; [done|]. congruence.
  - intros p s. rewrite lookup_insert_Some. intros [[<- _]|[_ Hp]]; [lia|]. apply (co_heap c2 Hok) in Hp. lia.
  - rewrite (co_usage c2 Hok), u64_add, total_insert by done. f_equal. unfold usage_of at 2. rewrite lookup_insert_eq.
    rewrite (total_ext _ (usage_of (<[_:=_]> _)) (usage_of (heap c2))); [lia|].
    intros id' p' Hp'. unfold usage_of. rewrite lookup_insert_ne; [done|].
    destruct (co_session c2 Hok _ _ Hp') as (s & Hs' & _). congruence.
Qed.

Lemma incremental_fetch_ok now r c : cache_ok c ->
  exists c' x, incremental_fetch now r c = Ok (c', x) /\ cache_ok c'.
Proof.
  intros Hc. unfold incremental_fetch. destruct (_sessions c !! fr_session_id r) as [p|] eqn:Hp; [|eauto].
  destruct (co_session c Hc _ _ Hp) as (s & Hs & Hid & Hk). rewrite Hs. cbn [deref mbind res_bind].
  destruct (negb _); [eauto|].
  destruct (update_fetch_session_ok r (s_partitions s) Hk) as (m & -> & Hm). cbn [mbind res_bind].
  destruct (session_empty _).
  - eexists _, _. split; [done|]. pose proof (erase_ok c _ p s Hc Hp Hs) as [H1 H2 H3]. split; cbn in *.
    + intros id' p' Hp'. destruct (H1 id' p' Hp') as (s' & Hs' & ? & ?). exists s'. rewrite lookup_insert_ne; [done|].
      intros <-. apply lookup_delete_Some in Hp' as [Hne Hp']. apply Hne. by eapply pointer_inj.
    + intros p' s' [[<- _]|[_ Hp']]%lookup_insert_Some; by eapply H2.
    + rewrite H3. f_equal. apply total_ext. intros id' p' [Hne Hp']%lookup_delete_Some. unfold usage_of.
      rewrite lookup_insert_ne; [done|]. intros <-. apply Hne. by eapply pointer_inj.
  - eexists _, _. split; [reflexivity|]. apply alter_locked_ok.
    exact (store_session_ok c _ p s (advance_epoch now (with_partitions m s)) Hc Hp Hs eq_refl Hm).
Qed.

(** C25: No request and no clean-up breaks the cache: handling a request always succeeds (no
    assertion fails, and the search for a free session id ends), and afterwards, as after
    an eviction run or the end of a request, every id leads to its own session, sessions
    hold no partition twice, and the memory the cache accounts for is exactly that of the
    sessions it holds. *)
Theorem cache_stays_consistent now shards r x c : 1 <= shards -> cache_ok c ->
  (exists c' x', maybe_get_session now shards r c = Ok (c', x') /\ cache_ok c') /\
  cache_ok (gc_sessions now c) /\ cache_ok (release_session x c).
Proof.
  intros Hs Hc. split; [|split; [by apply gc_ok|by apply release_ok]].
  unfold maybe_get_session. destruct (is_full_fetch_request r); [by apply full_fetch_ok|by apply incremental_fetch_ok].
Qed.

Lemma next_epoch_changes e : e <> final_fetch_session_epoch -> is_s 32 e -> next_epoch e <> e.
Proof.
  intros He Hr. unfold next_epoch, initial_fetch_session_epoch, final_fetch_session_epoch in *.
  destruct (Z.ltb_spec e 0); [lia|]. destruct (decide (e = int32_max)) as [->|Hne]; [done|].
  rewrite swrap_id; [lia|done|]. unfold is_s, int32_max in *. lia.
Qed.

(** An incremental request is accepted at most once: when it is sent again, whatever
    happened to it the first time, the cache answers with an error and does not change. *)
Theorem request_accepted_once now now' shards r c c' x :
  cache_ok c -> is_full_fetch_request r = false -> is_s 32 (fr_session_epoch r) ->
  maybe_get_session now shards r c = Ok (c', x) ->
  exists e, maybe_get_session now' shards r c' = Ok (c', ctx_failed e) /\ e <> error_code.none.
Proof.
  intros Hc Hf Hr. unfold maybe_get_session. rewrite Hf. unfold incremental_fetch at 1.
  destruct (_sessions c !! fr_session_id r) as [p|] eqn:Hp.
  2:{ intros [= <- <-]. unfold incremental_fetch. rewrite Hp. eauto. }
  destruct (co_session c Hc _ _ Hp) as (s & Hs & Hid & Hk). rewrite Hs. cbn [deref mbind res_bind].
  destruct (Z.eqb_spec (s_epoch s) (fr_session_epoch r)) as [He|He]; cbn [negb].
  2:{ intros [= <- <-]. unfold incremental_fetch. rewrite Hp, Hs. cbn [deref mbind res_bind].
      rewrite (proj2 (Z.eqb_neq _ _) He). eauto. }
  intros (m & _ & Hx)%res_bind_Ok. destruct (session_empty _).
  - injection Hx as <- <-. unfold incremental_fetch. cbn. rewrite lookup_delete_eq. eauto.
  - injection Hx as <- <-. unfold incremental_fetch. cbn. rewrite Hp. cbn.
    rewrite lookup_alter_eq, lookup_insert_eq. cbn [fmap option_fmap option_map deref mbind res_bind set_locked s_epoch advance_epoch with_partitions].
    rewrite He, (proj2 (Z.eqb_neq _ _)); [eauto|]. apply next_epoch_changes; [|done].
    unfold is_full_fetch_request in Hf. apply orb_false_iff in Hf as [_ Hf]. by apply Z.eqb_neq.
Qed.

(** A new session id is not in use, is larger than the shard's smallest id (so it is
    never the id that stands for no session), and is at most one past the shard's largest
    id if no session has an id past that. *)
Theorem session_id_fresh shards c id c' :
  0 <= _min_session_id c <= _last_session_id c -> _min_session_id c < _max_session_id c ->
  _max_session_id c + Z.of_nat (size (_sessions c)) < int32_max ->
  new_session_id shards c = Some (Some id, c') ->
  _sessions c !! id = None /\ _min_session_id c < id /\ id <> invalid_fetch_session_id /\
  ((forall i, is_Some (_sessions c !! i) -> i <= _max_session_id c) -> id <= _max_session_id c + 1).
Proof.
  intros Hmin Hmax Hsz. unfold new_session_id. destruct (_ || _); [done|].
  intros (i & Hi & [= -> _])%bind_Some. apply next_free_Some in Hi as (Hn & k & Hk & -> & Hall).
  set (last := if _max_session_id c <=? _last_session_id c then _min_session_id c else _last_session_id c) in *.
  assert (Hlast : _min_session_id c <= last < _max_session_id c).
  { unfold last. destruct (Z.leb_spec (_max_session_id c) (_last_session_id c)); lia. }
  assert (Hs : forall j, 0 <= j <= k -> s32 (last + 1 + j) = last + 1 + j).
  { intros j Hj. apply swrap_id; [done|]. unfold is_s, int32_max in *. lia. }
  split; [done|]. rewrite (Hs k) by lia. unfold invalid_fetch_session_id. split; [lia|]. split; [lia|].
  intros Hin. destruct (decide (k = 0)) as [->|Hk0]; [lia|].
  specialize (Hall (k - 1) ltac:(lia)). rewrite Hs in Hall by lia. apply Hin in Hall. lia.
Qed.

(** The ranges of ids of two shards can overlap: the search for a free id does not stop
    at the end of the shard's range.  If the last two ids that the search meets there (the
    largest of the range and the one after it) are in use, the shard hands out the very id
    that the next shard hands out first. *)
Theorem session_ids_may_collide shards shard timeout c :
  0 <= shard < shards - 1 -> 2 <= max_sessions_per_core shards -> st_bytes st_empty <= max_mem_usage ->
  _min_session_id c = max_sessions_per_core shards * shard ->
  _max_session_id c = _min_session_id c + max_sessions_per_core shards - 1 ->
  _last_session_id c = _max_session_id c - 1 ->
  cache_mem_usage c <= max_mem_usage -> Z.of_nat (size (_sessions c)) <= max_sessions_per_core shards ->
  is_Some (_sessions c !! _max_session_id c) -> is_Some (_sessions c !! (_max_session_id c + 1)) ->
  _sessions c !! (_max_session_id c + 2) = None ->
  exists id c1 c2, new_session_id shards c = Some (Some id, c1) /\
    new_session_id shards (make_cache shards (shard + 1) timeout) = Some (Some id, c2) /\
    _max_session_id c < id.
Proof.
  intros Hsh Hper Hst Hmin Hmax Hlast Hmem Hsz H1 H2 H3. set (per := max_sessions_per_core shards) in *.
  assert (Hall : per * shards <= int32_max).
  { unfold per, max_sessions_per_core. pose proof (Z.mul_div_le int32_max shards ltac:(lia)). lia. }
  assert (Hs : forall x, 0 <= x <= int32_max -> s32 x = x).
  { intros x Hx. apply swrap_id; [done|]. unfold is_s, int32_max in *. lia. }
  assert (Hb : per * shard + 2 * per <= int32_max) by nia. assert (0 <= per * shard) by nia.
  exists (_max_session_id c + 2), (with_last_id (_max_session_id c + 2) c).
  exists (with_last_id (_max_session_id c + 2) (make_cache shards (shard + 1) timeout)). split; [|split; [|lia]].
  - unfold new_session_id. fold per. rewrite (proj2 (Z.ltb_ge _ _) Hmem), (proj2 (Z.ltb_ge _ _) Hsz). cbn [orb].
    rewrite (proj2 (Z.leb_gt _ _)) by lia.
    destruct (next_free_total (_sessions c) (_last_session_id c)) as [id Hid]; [unfold int32_max in *; lia|].
    rewrite Hid. cbn. apply next_free_Some in Hid as (Hn & k & Hk & -> & Hbefore).
    assert (Ek : k = 2).
    { rewrite Hlast in *. destruct (decide (k = 0)) as [->|]; [rewrite Hs in Hn by lia|].
      { replace (_max_session_id c - 1 + 1 + 0) with (_max_session_id c) in Hn by lia. rewrite Hn in H1. by destruct H1. }
      destruct (decide (k = 1)) as [->|]; [rewrite Hs in Hn by lia|].
      { replace (_max_session_id c - 1 + 1 + 1) with (_max_session_id c + 1) in Hn by lia. rewrite Hn in H2. by destruct H2. }
      destruct (decide (k = 2)) as [|]; [done|]. specialize (Hbefore 2 ltac:(lia)). rewrite Hs in Hbefore by lia.
      replace (_max_session_id c - 1 + 1 + 2) with (_max_session_id c + 2) in Hbefore by lia. rewrite H3 in Hbefore. by destruct Hbefore. }
    subst k. rewrite Hs by lia. replace (_last_session_id c + 1 + 2) with (_max_session_id c + 2) by lia. done.
  - unfold new_session_id, cache_mem_usage, make_cache. cbn -[s32 next_free_id max_sessions_per_core]. fold per.
    rewrite (proj2 (Z.ltb_ge _ _)) by lia. rewrite (proj2 (Z.ltb_ge per _)) by (rewrite map_size_empty; lia). cbn [orb].
    rewrite !(Hs (per * (shard + 1))) by lia. rewrite (Hs (per + per * (shard + 1) - 1)) by lia.
    rewrite (proj2 (Z.leb_gt _ _)) by lia. cbn [next_free_id]. rewrite Hs by lia. rewrite lookup_empty, bool_decide_false by (by intros []).
    cbn. by replace (per * (shard + 1) + 1) with (_max_session_id c + 2) by lia.
Qed.

End props.

(** ** Witnesses *)

Module session_examples.

(** Tables that take no memory of their own. *)
#[export] Instance plain : Containers :=
  {| partition_table := unit; pt_empty := tt; pt_emplace := fun _ t => t; pt_erase := fun _ t => t; pt_bytes := fun _ => 0;
     session_table := unit; st_empty := tt; st_emplace := fun _ t => t; st_erase := fun _ t => t; st_bytes := fun _ => 0;
     sizeof_session := 100; sizeof_partition := 50 |}.

Definition part (i offset : Z) : fetch_partition :=
  {| fq_partition := i; fq_current_leader_epoch := 1; fq_fetch_offset := offset; fq_log_start_offset := 0;
     fq_partition_max_bytes := 1000 |}.

Definition req (id epoch : Z) (ps : list fetch_partition) (forget : list Z) : fetch_request :=
  {| fr_session_id := id; fr_session_epoch := epoch; fr_min_bytes := 1;
     fr_topics := [{| ft_topic_id := 0; ft_topic := "t"; ft_partitions := ps |}];
     fr_forgotten_topics_data := [{| fg_topic_id := 0; fg_topic := "t"; fg_partitions := forget |}] |}.

Definition handle (r : fetch_request) (c : fetch_session_cache) : fetch_session_cache :=
  match maybe_get_session 10 4 r c with Ok (c', _) => c' | _ => c end.

(** A session of three partitions; then one is read further, one forgotten. *)
Definition c0 := make_cache 4 0 1000.
Definition c1 := handle (req 0 0 [part 0 5; part 1 5; part 2 5] []) c0.
Definition next : fetch_request := req 1 1 [part 1 9] [0].
Definition c2 := handle next c1.

Definition m1 : linked_map := match heap c1 !! 0%nat with Some s => s_partitions s | None => empty_map end.
Definition m2 : linked_map := match heap c2 !! 0%nat with Some s => s_partitions s | None => empty_map end.

Definition key (i : Z) : kitp := {| k_topic_id := 0; k_topic := "t"; k_partition := i |}.

Lemma c1_ok : cache_ok c1.
Proof.
  destruct (full_fetch_ok 10 4 (req 0 0 [part 0 5; part 1 5; part 2 5] []) c0 ltac:(lia) (make_cache_ok 4 0 1000)) as (c' & x & Hc & Hok).
  unfold c1, handle, maybe_get_session. cbn [is_full_fetch_request]. change (is_full_fetch_request _) with true.
  cbv iota. by rewrite Hc.
Qed.

Lemma cache_stays_consistent_witness : exists c' x, maybe_get_session 20 4 next c1 = Ok (c', x) /\ cache_ok c' /\
  _sessions_mem_usage c' = 200.
Proof.
  destruct (cache_stays_consistent 20 4 next sessionless c1 ltac:(lia) c1_ok) as [(c' & x & Hc & Hok) _].
  exists c', x. split; [exact Hc|]. split; [exact Hok|]. vm_compute in Hc. injection Hc as <- _. reflexivity.
Defined.

Lemma session_follows_requests_witness : update_fetch_session next m1 = Ok m2 /\
  map_keys m2 = [key 1; key 2] /\ map_lookup (key 0) m2 = None.
Proof.
  assert (Hu : update_fetch_session next m1 = Ok m2) by (vm_compute; reflexivity).
  assert (Hk : keys_ok m1).
  { destruct (co_session c1 c1_ok 1 0%nat) as (s & Hs & _ & Hk); [vm_compute; reflexivity|].
    unfold m1. by rewrite Hs. }
  assert (Hw : map_kind false m1).
  { intros i a Ha. destruct i as [|[|[|i]]]; vm_compute in Ha; simplify_eq; reflexivity. }
  destruct (session_follows_requests false next m1 m2 Hk Hw) as [Hks Hl];
    [by split; repeat constructor|exact Hu|].
  split; [exact Hu|]. split; [rewrite Hks; vm_compute; reflexivity|]. exact (Hl (key 0) eq_refl).
Defined.

Lemma request_accepted_once_witness : exists e, maybe_get_session 30 4 next c2 = Ok (c2, ctx_failed e) /\ e <> error_code.none.
Proof.
  assert (Hc : exists x, maybe_get_session 10 4 next c1 = Ok (c2, x)) by (eexists; vm_compute; reflexivity).
  destruct Hc as [x Hc].
  apply (request_accepted_once 10 30 4 next c1 c2 x c1_ok); [reflexivity|split; vm_compute; [discriminate|reflexivity]|exact Hc].
Defined.

Lemma session_id_fresh_witness : exists c', new_session_id 4 c1 = Some (Some 2, c') /\ _sessions c1 !! 2 = None /\ 2 <= _max_session_id c1 + 1.
Proof.
  assert (Hn : exists c', new_session_id 4 c1 = Some (Some 2, c')) by (eexists; vm_compute; reflexivity).
  destruct Hn as [c' Hn].
  destruct (session_id_fresh 4 c1 2 c') as (Hf & _ & _ & Hm);
    [split; vm_compute; discriminate|vm_compute; reflexivity|vm_compute; reflexivity|exact Hn|].
  exists c'. split; [exact Hn|]. split; [exact Hf|]. apply Hm. intros i Hi.
  change (_sessions c1) with ({[1 := 0%nat]} : gmap Z nat) in Hi. destruct Hi as [p [<- _]%lookup_singleton_Some]. vm_compute. discriminate.
Defined.

(** A shard whose largest id and the one after it are in use. *)
Definition crowded : fetch_session_cache :=
  let c := make_cache 4 1 1000 in
  let max := _max_session_id c in
  with_last_id (max - 1) (emplace_session (max + 1) 1 (emplace_session max 0
    (alloc_session (make_session 0 (max + 1)) (alloc_session (make_session 0 max) c)))).

Lemma session_ids_may_collide_witness : exists id d1 d2, new_session_id 4 crowded = Some (Some id, d1) /\
  new_session_id 4 (make_cache 4 2 1000) = Some (Some id, d2) /\ _max_session_id crowded < id.
Proof.
  apply (session_ids_may_collide 4 1 1000 crowded); try (vm_compute; reflexivity); try (vm_compute; discriminate).
  - split; vm_compute; [discriminate|reflexivity].
  - vm_compute. eauto.
  - vm_compute. eauto.
Defined.

End session_examples.
