(* ===== verification/FetchResponse.v ===== *)
(** * Fetch responses (kafka/server/handlers/fetch.{h,cc}: op_context, fill_fetch_responses)

    A fetch reserves a place in its response for every partition, fills the places with what
    was read as long as the budget of bytes lasts, possibly more than once, and sends the
    response; the response of an incremental fetch leaves out partitions that have not
    changed.

    The response is the flat list of its partitions, in order, each with the topic it is
    listed under and whether it begins a topic entry.  Of the records only their size
    matters here.  The session's partitions are passed along: the session belongs to the
    cache. *)

From stdpp Require Import strings.
From S2P Require Import Prelude Errors FetchSession FetchSessionProps.

(** ** Data *)

Record partition_response := {
  pr_partition_index : Z;
  pr_error_code : error_code.t;
  pr_high_watermark : Z;
  pr_last_stable_offset : Z;
  pr_log_start_offset : Z;
  pr_preferred_read_replica : Z;
  pr_records : option Z;
  pr_has_to_be_included : bool;
}.

Record slot := {
  sl_new_topic : bool;
  sl_topic_id : Z;
  sl_topic : string;
  sl_response : partition_response;
}.

(** The place of slot [i] in the response is [oc_slots !! i]; [oc_iteration_order] lists the
    slots in the order in which they are read. *)
Record op_context := {
  oc_request : fetch_request;
  oc_slots : list slot;
  oc_iteration_order : list nat;
  oc_bytes_left : Z;
  oc_response_size : Z;
  oc_response_error : bool;
  oc_contains_preferred_replica : bool;
}.

Record read_result := {
  rr_partition : Z;
  rr_error : error_code.t;
  rr_start_offset : Z;
  rr_high_watermark : Z;
  rr_last_stable_offset : Z;
  rr_preferred_replica : option Z;
  rr_data : option Z;
}.

Definition slot_key (s : slot) : kitp :=
  {| k_topic_id := sl_topic_id s; k_topic := sl_topic s; k_partition := pr_partition_index (sl_response s) |}.

(** [response_size] of a placeholder. *)
Definition slot_size (s : slot) : Z := default 0 (pr_records (sl_response s)).

Definition make_partition_response_error (p : Z) (e : error_code.t) : partition_response :=
  {| pr_partition_index := p; pr_error_code := e; pr_high_watermark := -1; pr_last_stable_offset := -1;
     pr_log_start_offset := -1; pr_preferred_read_replica := -1; pr_records := Some 0; pr_has_to_be_included := true |}.

(** ** Placeholders *)

(** [start_response_topic] and [start_response_partition]. *)
Definition request_slot (e : bool * kitp * fetch_partition) : slot :=
  let '(new_topic, k, p) := e in
  {| sl_new_topic := new_topic; sl_topic_id := k_topic_id k; sl_topic := k_topic k;
     sl_response := make_partition_response_error (fq_partition p) error_code.none |}.

(** The loop over the session's partitions; [last_topic] is the key it remembers. *)
Fixpoint session_slots (last_topic : option kitp) (ps : list fetch_session_partition) : list slot :=
  match ps with
  | [] => []
  | fp :: ps' =>
      let k := topic_partition fp in
      let new_topic := match last_topic with Some k' => negb (kitp_eqb k' k) | None => true end in
      {| sl_new_topic := new_topic; sl_topic_id := k_topic_id k; sl_topic := k_topic k;
         sl_response := {| pr_partition_index := k_partition k; pr_error_code := error_code.none;
                           pr_high_watermark := fp_high_watermark fp;
                           pr_last_stable_offset := fp_last_stable_offset fp; pr_log_start_offset := -1;
                           pr_preferred_read_replica := -1; pr_records := Some 0; pr_has_to_be_included := true |} |}
      :: session_slots (if new_topic then Some k else last_topic) ps'
  end.

Section response.
Context `{Containers}.

(** What a request runs with: no session, the session of a full fetch, or that of an
    incremental one. *)
Inductive session_state := no_session | full_session (m : linked_map) | incremental_session (m : linked_map).

Definition session_map (s : session_state) : option linked_map :=
  match s with no_session => None | full_session m | incremental_session m => Some m end.

Definition with_map (m : linked_map) (s : session_state) : session_state :=
  match s with no_session => no_session | full_session _ => full_session m | incremental_session _ => incremental_session m end.

Definition create_response_placeholders (r : fetch_request) (s : session_state) : list slot :=
  match s with
  | no_session | full_session _ => request_slot <$> request_partitions r
  | incremental_session m => session_slots None (insertion_order m)
  end.

(** The constructor of [op_context]. *)
Definition make_op_context (r : fetch_request) (bytes : Z) (s : session_state) : op_context :=
  let slots := create_response_placeholders r s in
  {| oc_request := r; oc_slots := slots; oc_iteration_order := seq 0 (length slots); oc_bytes_left := bytes;
     oc_response_size := 0; oc_response_error := false; oc_contains_preferred_replica := false |}.

Definition partition_has_changes (p : partition_response) (fp : fetch_session_partition) : bool :=
  (0 <? default 0 (pr_records p)) || negb (fp_high_watermark fp =? pr_high_watermark p) ||
  negb (fp_last_stable_offset fp =? pr_last_stable_offset p) || negb (fp_start_offset fp =? pr_log_start_offset p) ||
  negb (pr_preferred_read_replica p =? -1) || negb (bool_decide (pr_error_code p = error_code.none)).

Definition update_session_partition (p : partition_response) (fp : fetch_session_partition) : fetch_session_partition :=
  {| topic_partition := topic_partition fp; fp_max_bytes := fp_max_bytes fp; fp_start_offset := pr_log_start_offset p;
     fp_fetch_offset := fp_fetch_offset fp;
     fp_high_watermark := if bool_decide (pr_error_code p = error_code.none) then pr_high_watermark p else -1;
     fp_last_stable_offset := pr_last_stable_offset p; fp_current_leader_epoch := fp_current_leader_epoch fp |}.

Definition set_included (b : bool) (p : partition_response) : partition_response :=
  {| pr_partition_index := pr_partition_index p; pr_error_code := pr_error_code p;
     pr_high_watermark := pr_high_watermark p; pr_last_stable_offset := pr_last_stable_offset p;
     pr_log_start_offset := pr_log_start_offset p; pr_preferred_read_replica := pr_preferred_read_replica p;
     pr_records := pr_records p; pr_has_to_be_included := b |}.

Definition set_response (p : partition_response) (s : slot) : slot :=
  {| sl_new_topic := sl_new_topic s; sl_topic_id := sl_topic_id s; sl_topic := sl_topic s; sl_response := p |}.

(** The session part of [set]: whether the partition is to be included, and the rotation of
    the session's partitions and of the iteration order. *)
Definition set_in_session (i : nat) (key : kitp) (p : partition_response) (st : session_state) (order : list nat) :
    partition_response * session_state * list nat :=
  match session_map st with
  | None => (p, st, order)
  | Some m =>
      match map_find key m with
      | None => (p, st, order)
      | Some (j, fp) =>
          let p' := set_included (partition_has_changes p fp) p in
          if 0 <? default 0 (pr_records p)
          then (p', with_map (move_to_end j m) st, filter (fun x => x <> i) order ++ [i])
          else (p', st, order)
      end
  end.

(** [response_placeholder::set] on the placeholder of slot [i]. *)
Definition placeholder_set (i : nat) (p : partition_response) (oc : op_context) (st : session_state) :
    res (op_context * session_state) :=
  s ← deref (oc_slots oc !! i);
  _ ← vassert (pr_partition_index p =? pr_partition_index (sl_response s));
  let '(size, budget) := match pr_records (sl_response s) with
                       | Some sz => (u64 (oc_response_size oc - sz), u64 (oc_bytes_left oc + sz))
                       | None => (oc_response_size oc, oc_bytes_left oc)
                       end in
  let '(size, budget) := match pr_records p with
                       | Some sz => (u64 (size + sz), budget - budget `min` sz)
                       | None => (size, budget)
                       end in
  let '(p', st, order) := set_in_session i (slot_key (set_response p s)) p st (oc_iteration_order oc) in
  Ok ({| oc_request := oc_request oc; oc_slots := <[i := set_response p' s]> (oc_slots oc);
         oc_iteration_order := order; oc_bytes_left := budget; oc_response_size := size;
         oc_response_error := oc_response_error oc || negb (bool_decide (pr_error_code p = error_code.none));
         oc_contains_preferred_replica := oc_contains_preferred_replica oc || negb (pr_preferred_read_replica p =? -1) |},
      st).

(** ** Filling *)

Definition result_response (r : read_result) (records : Z) : partition_response :=
  {| pr_partition_index := rr_partition r; pr_error_code := rr_error r; pr_high_watermark := rr_high_watermark r;
     pr_last_stable_offset := rr_last_stable_offset r; pr_log_start_offset := rr_start_offset r;
     pr_preferred_read_replica := match rr_error r with error_code.none => default (-1) (rr_preferred_replica r) | _ => -1 end;
     pr_records := Some records; pr_has_to_be_included := true |}.

(** The first batch is returned even if it exceeds the budget. *)
Definition accepts_data (oc : op_context) (current size : Z) : bool :=
  (size <=? u64 (oc_bytes_left oc - current)) || (oc_response_size oc =? 0).

(** The body of the loop of [fill_fetch_responses]. *)
Definition fill_response (r : read_result) (i : nat) (oc : op_context) (st : session_state) :
    res (op_context * session_state) :=
  if negb (bool_decide (rr_error r = error_code.none)) then placeholder_set i (result_response r 0) oc st
  else
    s ← deref (oc_slots oc !! i);
    let size := match rr_data r with
                | Some n => if accepts_data oc (slot_size s) n then n else 0
                | None => 0
                end in
    placeholder_set i (result_response r size) oc st.

Fixpoint fill_fetch_responses (l : list (read_result * nat)) (oc : op_context) (st : session_state) :
    res (op_context * session_state) :=
  match l with
  | [] => Ok (oc, st)
  | (r, i) :: l' => x ← fill_response r i oc st; fill_fetch_responses l' x.1 x.2
  end.

Definition over_min_bytes (oc : op_context) : bool := fr_min_bytes (oc_request oc) <=? s32 (oc_response_size oc).

(** ** Sending *)

Definition update_session (s : slot) (m : linked_map) : linked_map :=
  match map_find (slot_key s) m with
  | Some (i, fp) => map_set i (update_session_partition (sl_response s) fp) m
  | None => m
  end.

(** The partitions that [response.begin(true)] visits; [carried] says that a topic has begun
    of which no partition has been visited yet. *)
Fixpoint included_slots (carried : bool) (l : list slot) : list slot :=
  match l with
  | [] => []
  | s :: l' =>
      let new_topic := sl_new_topic s || carried in
      if pr_has_to_be_included (sl_response s)
      then {| sl_new_topic := new_topic; sl_topic_id := sl_topic_id s; sl_topic := sl_topic s;
              sl_response := sl_response s |} :: included_slots false l'
      else included_slots new_topic l'
  end.

(** [send_response]: the response and the session after it. *)
Definition send_response (oc : op_context) (st : session_state) : list slot * session_state :=
  match st with
  | no_session => (oc_slots oc, st)
  | full_session m => (oc_slots oc, full_session (fold_left (fun m s => update_session s m) (oc_slots oc) m))
  | incremental_session m =>
      let l := included_slots false (oc_slots oc) in
      (l, incremental_session (fold_left (fun m s => update_session s m) l m))
  end.

End response.
