(* ===== verification/FetchResponseProps.v ===== *)
(** * Fetch responses: correctness

    The first pass over the partitions respects the budget of the request; partitions that
    have data are rotated, so that none waits for ever; and two places where the code does
    less well than it means to. *)

From stdpp Require Import strings.
From S2P Require Import Prelude Errors FetchSession FetchSessionProps FetchResponse.

Section response_props.
Context `{Containers}.

(** ** Sizes *)

Definition slots_size (l : list slot) : Z := foldr (fun s n => slot_size s + n) 0 l.

Lemma slots_size_app a b : slots_size (a ++ b) = slots_size a + slots_size b.
Proof. induction a as [|s a IH]; cbn; [done|]. fold (slots_size (a ++ b)) (slots_size a). lia. Qed.

Lemma slots_size_insert l i s s' : l !! i = Some s -> slots_size (<[i := s']> l) = slots_size l - slot_size s + slot_size s'.
Proof.
  intros Hi. pose proof (lookup_lt_Some _ _ _ Hi).
  rewrite insert_take_drop by done. rewrite <- (take_drop_middle l i s Hi) at 3.
  rewrite !slots_size_app. cbn. fold (slots_size (drop (S i) l)). lia.
Qed.

Lemma slots_size_one l i s : (forall j x, l !! j = Some x -> 0 <= slot_size x) -> l !! i = Some s ->
  0 <= slot_size s <= slots_size l.
Proof.
  intros Hn Hi. split; [by eapply Hn|]. rewrite <- (take_drop_middle l i s Hi).
  rewrite slots_size_app. cbn. fold (slots_size (drop (S i) l)).
  assert (Hpos : forall k, (forall x, x ∈ k -> 0 <= slot_size x) -> 0 <= slots_size k).
  { intros k Hk. induction k as [|x k IH]; cbn; [done|]. fold (slots_size k).
    pose proof (Hk x ltac:(left)). specialize (IH (fun y Hy => Hk y ltac:(by right))). lia. }
  pose proof (Hpos (take i l)) as H1. pose proof (Hpos (drop (S i) l)) as H2. rewrite <- Z.add_0_l at 1.
  apply Z.add_le_mono; [apply H1|rewrite <- Z.add_0_r at 1; apply Z.add_le_mono; [done|apply H2]]; intros x [j Hj]%list_elem_of_lookup.
  - apply lookup_take_Some in Hj as [Hj _]. by eapply Hn.
  - rewrite lookup_drop in Hj. by eapply Hn.
Qed.

Lemma set_in_session_records i k p st order p' st' order' :
  set_in_session i k p st order = (p', st', order') -> pr_records p' = pr_records p.
Proof.
  unfold set_in_session. destruct (session_map st) as [m|]; [|by intros [= <- _ _]].
  destruct (map_find k m) as [[j fp]|]; [|by intros [= <- _ _]]. destruct (0 <? _); by intros [= <- _ _].
Qed.

(** What [set] does to the sizes. *)
Lemma placeholder_set_sizes i p oc st oc' st' cur n s :
  placeholder_set i p oc st = Ok (oc', st') -> oc_slots oc !! i = Some s ->
  pr_records (sl_response s) = Some cur -> pr_records p = Some n ->
  (exists p', oc_slots oc' = <[i := set_response p' s]> (oc_slots oc) /\ pr_records p' = Some n) /\
  oc_response_size oc' = u64 (u64 (oc_response_size oc - cur) + n) /\
  oc_bytes_left oc' = u64 (oc_bytes_left oc + cur) - u64 (oc_bytes_left oc + cur) `min` n.
Proof.
  unfold placeholder_set. intros Hx Hs Hcur Hn. rewrite Hs in Hx. cbn [deref mbind res_bind] in Hx.
  apply res_bind_Ok in Hx as (_ & _ & Hx). rewrite Hcur, Hn in Hx.
  destruct (set_in_session _ _ _ _ _) as [[p' st1] order] eqn:E. apply set_in_session_records in E.
  injection Hx as <- <-. cbn. split; [|done]. exists p'. split; [done|congruence].
Qed.

Lemma fill_response_records r i oc st oc' st' : fill_response r i oc st = Ok (oc', st') ->
  exists s n, oc_slots oc !! i = Some s /\ placeholder_set i (result_response r n) oc st = Ok (oc', st') /\
    (n = 0 \/ rr_data r = Some n /\ rr_error r = error_code.none /\ accepts_data oc (slot_size s) n = true).
Proof.
  unfold fill_response. case_bool_decide as Ee; cbn [negb].
  - intros (s & Hs & Hx)%res_bind_Ok. destruct (oc_slots oc !! i) as [s'|] eqn:Ei; [|done]. injection Hs as ->.
    exists s. destruct (rr_data r) as [n|]; [|exists 0; auto].
    destruct (accepts_data oc (slot_size s) n) eqn:Ea; [exists n; auto 6|exists 0; auto].
  - intros Hx. destruct (oc_slots oc !! i) as [s|] eqn:Ei; [exists s, 0; auto|].
    unfold placeholder_set in Hx. rewrite Ei in Hx. done.
Qed.

(** ** The budget *)

(** Within the budget, or one partition has all the data. *)
Definition within_budget (budget : Z) (l : list slot) : Prop :=
  slots_size l <= budget \/ exists i s, l !! i = Some s /\ slot_size s = slots_size l.

Record budget_ok (budget : Z) (oc : op_context) : Prop := {
  bo_size : oc_response_size oc = slots_size (oc_slots oc);
  bo_records i s : oc_slots oc !! i = Some s -> exists n, pr_records (sl_response s) = Some n /\ 0 <= n;
  bo_left : (slots_size (oc_slots oc) <= budget /\ oc_bytes_left oc = budget - slots_size (oc_slots oc)) \/
    (oc_bytes_left oc = 0 /\ budget < slots_size (oc_slots oc) < 2 ^ 62 /\
     exists i s, oc_slots oc !! i = Some s /\ slot_size s = slots_size (oc_slots oc));
}.

Lemma budget_nonneg budget oc i s : budget_ok budget oc -> oc_slots oc !! i = Some s -> 0 <= slot_size s <= slots_size (oc_slots oc).
Proof.
  intros Hb. apply slots_size_one. intros j x (n & Hn & ?)%(bo_records _ _ Hb). unfold slot_size. by rewrite Hn.
Qed.

Lemma slots_size_nonneg budget oc : budget_ok budget oc -> 0 <= slots_size (oc_slots oc).
Proof.
  intros Hb. destruct (oc_slots oc) as [|s l] eqn:E; [done|]. rewrite <- E.
  destruct (budget_nonneg budget oc 0 s Hb) as [? ?]; [by rewrite E|lia].
Qed.

Lemma fill_response_ok budget r i oc st oc' st' : 0 <= budget < 2 ^ 62 ->
  (forall n, rr_data r = Some n -> 0 <= n < 2 ^ 62) -> budget_ok budget oc ->
  (forall s, oc_slots oc !! i = Some s -> slot_size s = 0) ->
  fill_response r i oc st = Ok (oc', st') ->
  budget_ok budget oc' /\ forall j, j <> i -> oc_slots oc' !! j = oc_slots oc !! j.
Proof.
  intros HB Hn Hb Hz (s & n & Hs & Hset & Hacc)%fill_response_records. specialize (Hz s Hs).
  destruct (bo_records _ _ Hb i s Hs) as (cur & Hcur & _). assert (cur = 0) as -> by (unfold slot_size in Hz; by rewrite Hcur in Hz).
  destruct (placeholder_set_sizes _ _ _ _ _ _ 0 n s Hset Hs Hcur eq_refl) as ((p' & Esl & Hp') & Esz & Ebl).
  rewrite Z.sub_0_r, Z.add_0_r in *. pose proof (slots_size_nonneg _ _ Hb) as H0. pose proof (bo_size _ _ Hb) as Hsz.
  assert (Hsz' : slots_size (oc_slots oc') = slots_size (oc_slots oc) + n).
  { rewrite Esl, (slots_size_insert _ _ _ _ Hs), Hz. unfold slot_size at 1. cbn. rewrite Hp'. cbn. lia. }
  assert (Hn0 : 0 <= n < 2 ^ 62) by (destruct Hacc as [->|(Hd & _)]; [lia|by apply Hn]).
  assert (Hl62 : 0 <= oc_bytes_left oc < 2 ^ 62 /\ slots_size (oc_slots oc) < 2 ^ 62) by (destruct (bo_left _ _ Hb) as [?|?]; lia).
  assert (Hu : forall x, 0 <= x < 2 ^ 63 -> u64 x = x) by (intros; apply uwrap_id; unfold is_u; lia).
  rewrite (Hu (oc_response_size oc)), Hu in Esz by lia. rewrite !Hu in Ebl by lia.
  assert (Hacc' : n = 0 \/ n <= oc_bytes_left oc \/ slots_size (oc_slots oc) = 0).
  { destruct Hacc as [|(_ & _ & Ha)]; [by left|]. right. unfold accepts_data in Ha. rewrite Hz, Z.sub_0_r, Hu in Ha by lia.
    apply orb_true_iff in Ha as [Ha%Z.leb_le|Ha%Z.eqb_eq]; [by left|right; lia]. }
  assert (Hi : oc_slots oc' !! i = Some (set_response p' s)) by (rewrite Esl; apply list_lookup_insert_eq; by eapply lookup_lt_Some).
  split; [|intros j Hj; by rewrite Esl, list_lookup_insert_ne by done]. split.
  - by rewrite Hsz', Esz, Hsz.
  - intros j x. rewrite Esl. intros [(_ & <- & _)|[_ Hx]]%list_lookup_insert_Some; [exists n; split; [done|lia]|by eapply (bo_records _ _ Hb)].
  - rewrite Hsz', Ebl. destruct (bo_left _ _ Hb) as [[Hle Hl]|(Hl & Hlt & j & x & Hj & Hx)].
    + destruct (decide (slots_size (oc_slots oc) + n <= budget)); [left; lia|]. right.
      assert (slots_size (oc_slots oc) = 0) by lia. split; [lia|]. split; [lia|].
      exists i, (set_response p' s). split; [done|]. unfold slot_size. cbn. rewrite Hp'. cbn. lia.
    + assert (n = 0) as -> by lia. right. split; [lia|]. split; [lia|]. exists j, x.
      split; [|lia]. rewrite Esl. rewrite list_lookup_insert_ne; [done|]. intros ->. simplify_eq. lia.
Qed.

Lemma fill_all_ok budget l oc st oc' st' : 0 <= budget < 2 ^ 62 ->
  (forall r i n, (r, i) ∈ l -> rr_data r = Some n -> 0 <= n < 2 ^ 62) -> NoDup l.*2 -> budget_ok budget oc ->
  (forall i s, i ∈ l.*2 -> oc_slots oc !! i = Some s -> slot_size s = 0) ->
  fill_fetch_responses l oc st = Ok (oc', st') -> budget_ok budget oc'.
Proof.
  intros HB. revert oc st. induction l as [|[r i] l IH]; intros oc st Hd Hnd Hb Hz; [by intros [= <- _]|]. cbn.
  intros ([oc1 st1] & H1 & H2)%res_bind_Ok. cbn in Hnd. apply NoDup_cons in Hnd as [Hni Hnd].
  destruct (fill_response_ok budget r i oc st oc1 st1 HB) as [Hb1 Hother]; [|done| |done|].
  - intros n. apply (Hd r i). left.
  - intros s. apply Hz. cbn. left.
  - eapply (IH oc1 st1); [|done|done| |exact H2].
    + intros r' i' n Hin. apply (Hd r' i'). by right.
    + intros j s Hj. rewrite Hother by (intros ->; done). apply Hz. cbn. by right.
Qed.

Lemma empty_slots r st l : create_response_placeholders r st = l ->
  slots_size l = 0 /\ forall i s, l !! i = Some s -> pr_records (sl_response s) = Some 0.
Proof.
  assert (Hsl : forall l, Forall (fun s => pr_records (sl_response s) = Some 0) l ->
    slots_size l = 0 /\ forall i s, l !! i = Some s -> pr_records (sl_response s) = Some 0).
  { clear l. intros l Hl. split; [|by apply Forall_lookup]. induction Hl as [|s l Hs _ IH]; [done|].
    cbn. unfold slot_size at 1. rewrite Hs. cbn. by fold (slots_size l). }
  intros <-. apply Hsl. destruct st as [|m|m]; cbn.
  - apply Forall_fmap, Forall_true. by intros [[]].
  - apply Forall_fmap, Forall_true. by intros [[]].
  - generalize (@None kitp). induction (insertion_order m) as [|fp ps IH]; intros o; cbn; [done|]. constructor; [done|apply IH].
Qed.

(** C26: The budget holds: however the reads turn out, the first time that the places of a
    response are filled its size is the sum of what the places hold, and that is within the
    budget, unless a single partition holds all of the data (a first batch that is larger
    than the budget is still returned). *)
Theorem response_within_budget r bytes st l oc st' :
  0 <= bytes < 2 ^ 62 -> NoDup l.*2 -> (forall x i n, (x, i) ∈ l -> rr_data x = Some n -> 0 <= n < 2 ^ 62) ->
  fill_fetch_responses l (make_op_context r bytes st) st = Ok (oc, st') ->
  oc_response_size oc = slots_size (oc_slots oc) /\ within_budget bytes (oc_slots oc).
Proof.
  intros HB Hnd Hd Hf. destruct (empty_slots r st _ eq_refl) as [Hz Hrec].
  assert (Hb : budget_ok bytes (make_op_context r bytes st)).
  { split; cbn [make_op_context oc_response_size oc_slots oc_bytes_left]; [by rewrite Hz|intros i s Hs; exists 0; split; [by eapply Hrec|lia]|left; rewrite Hz; lia]. }
  eapply fill_all_ok in Hf; [|done|done|done|exact Hb|].
  - split; [apply (bo_size _ _ Hf)|]. destruct (bo_left _ _ Hf) as [[? _]|(_ & _ & ?)]; [by left|by right].
  - intros i s _ Hs. unfold slot_size. by rewrite (Hrec _ _ Hs).
Qed.

(** When a place that holds data is filled again, the check of the budget is wrong: the
    [cur] bytes that are about to be replaced are subtracted from what is left instead of
    added to it.  A read that fits is thrown away, and the place loses the data it had; and
    where more is held than is left, the subtraction wraps and a read of any size is
    taken. *)
Theorem refill_misjudges_budget r i oc st oc' st' s cur n :
  oc_slots oc !! i = Some s -> pr_records (sl_response s) = Some cur -> 0 < cur < 2 ^ 62 ->
  0 < oc_response_size oc -> 0 <= oc_bytes_left oc < 2 ^ 62 ->
  rr_error r = error_code.none -> rr_data r = Some n -> 0 < n < 2 ^ 62 ->
  fill_response r i oc st = Ok (oc', st') ->
  (cur <= oc_bytes_left oc < n + cur -> exists s', oc_slots oc' !! i = Some s' /\ slot_size s' = 0) /\
  (oc_bytes_left oc < cur -> exists s', oc_slots oc' !! i = Some s' /\ slot_size s' = n).
Proof.
  intros Hs Hcur Hc Hrs Hbl He Hd Hn Hf.
  assert (Hkeep : forall k, placeholder_set i (result_response r k) oc st = Ok (oc', st') ->
    exists s', oc_slots oc' !! i = Some s' /\ slot_size s' = k).
  { intros k Hk. destruct (placeholder_set_sizes _ _ _ _ _ _ cur k s Hk Hs Hcur eq_refl) as ((p' & -> & Hp') & _).
    eexists. split; [apply list_lookup_insert_eq; by eapply lookup_lt_Some|]. unfold slot_size. cbn. by rewrite Hp'. }
  unfold fill_response in Hf. rewrite He, Hs, Hd in Hf. cbn in Hf.
  assert (Hsz : slot_size s = cur) by (unfold slot_size; by rewrite Hcur).
  unfold accepts_data in Hf. rewrite Hsz, (proj2 (Z.eqb_neq (oc_response_size oc) 0)), orb_false_r in Hf by lia.
  split; intros Hl.
  - rewrite uwrap_id in Hf by (unfold is_u; lia). rewrite (proj2 (Z.leb_gt _ _)) in Hf by lia. by apply Hkeep.
  - assert (Hu : u64 (oc_bytes_left oc - cur) = oc_bytes_left oc - cur + 2 ^ 64).
    { unfold uwrap. symmetry. apply (Z.mod_unique_pos _ _ (-1)); lia. }
    rewrite Hu, (proj2 (Z.leb_le _ _)) in Hf by lia. by apply Hkeep.
Qed.

(** ** Topics *)

Lemma session_slots_new ps o t : keys_ok {| insertion_order := ps; partitions_table := t |} ->
  (forall k fp, o = Some k -> fp ∈ ps -> kitp_eqb k (topic_partition fp) = false) ->
  Forall (fun s => sl_new_topic s = true) (session_slots o ps).
Proof.
  revert o. induction ps as [|fp ps IH]; intros o Hk Ho; cbn; [constructor|].
  assert (Hnew : match o with Some k' => negb (kitp_eqb k' (topic_partition fp)) | None => true end = true).
  { destruct o as [k|]; [|done]. by rewrite (Ho k fp) by (done || left). }
  rewrite Hnew. constructor; [done|]. apply IH.
  - intros i j a b Ha Hb E. pose proof (Hk (S i) (S j) a b Ha Hb E). lia.
  - intros k fp' [= <-] [j Hj]%list_elem_of_lookup. apply not_true_is_false. intros E.
    pose proof (Hk 0%nat (S j) fp fp' eq_refl Hj E). lia.
Qed.

(** The response of an incremental fetch is not grouped by topic: the loop remembers the
    last partition instead of the last topic, so every partition begins a topic entry of
    its own, also where the partition before it is of the same topic. *)
Theorem incremental_response_splits_topics r m : keys_ok m ->
  length (filter (fun s => sl_new_topic s = true) (create_response_placeholders r (incremental_session m))) =
  length (insertion_order m).
Proof.
  intros Hk. cbn [create_response_placeholders].
  assert (Hn : Forall (fun s => sl_new_topic s = true) (session_slots None (insertion_order m))).
  { apply (session_slots_new _ _ (partitions_table m)); [by destruct m|done]. }
  rewrite filter_all by (by apply Forall_forall).
  clear. generalize (@None kitp). induction (insertion_order m) as [|fp ps IH]; intros o; cbn; [done|]. by rewrite IH.
Qed.

(** ** Rotation *)

(** A partition that got data moves to the end. *)
Definition serve (k : kitp) (m : linked_map) : linked_map :=
  match map_find k m with Some (i, _) => move_to_end i m | None => m end.

Definition position (k : kitp) (m : linked_map) : option nat := fst <$> map_find k m.

Lemma position_spec w k m i : good w m -> key_kind w k ->
  position k m = Some i <-> exists a, insertion_order m !! i = Some a /\ topic_partition a = k.
Proof.
  intros Hg Hk. unfold position. split.
  - intros ([j a] & Hf & [= <-])%fmap_Some. apply map_find_Some in Hf as [Hi Hx]. exists a. split; [done|].
    symmetry. by apply (kitp_eqb_kind w); [|eapply (good_kind _ _ Hg)|].
  - intros (a & Hi & <-). destruct (map_find (topic_partition a) m) as [[j b]|] eqn:E; cbn.
    + apply map_find_Some in E as [Hj Hb]. f_equal. symmetry. by eapply (good_keys _ _ Hg).
    + pose proof (map_find_None _ _ E _ _ Hi) as Hx. by rewrite kitp_eqb_refl in Hx.
Qed.

Lemma move_to_end_lookup (i j : nat) m a : insertion_order m !! j = Some a ->
  forall n x, insertion_order (move_to_end j m) !! n = Some x ->
  insertion_order m !! (if decide (n < j)%nat then n else if decide (S n < length (insertion_order m))%nat then S n else j) = Some x.
Proof.
  intros Hj n x. unfold move_to_end. rewrite Hj. cbn. intros Hx. pose proof (lookup_lt_Some _ _ _ Hj).
  assert (Hlen : length (delete j (insertion_order m)) = (length (insertion_order m) - 1)%nat) by (rewrite length_delete; [done|by eexists]).
  destruct (decide (n < length (insertion_order m) - 1)%nat).
  - rewrite lookup_app_l in Hx by lia. rewrite list_lookup_delete in Hx. case_decide; [done|]. by rewrite decide_True by lia.
  - rewrite lookup_app_r in Hx by lia. apply list_lookup_singleton_Some in Hx as [Hn <-].
    destruct (decide (n < j)%nat); [lia|]. by rewrite decide_False by lia.
Qed.

Lemma move_to_end_good w j m a : good w m -> insertion_order m !! j = Some a -> good w (move_to_end j m).
Proof.
  intros Hg Hj. pose proof (lookup_lt_Some _ _ _ Hj) as Hlt. split.
  - intros n1 n2 x y Hx Hy E. pose proof (lookup_lt_Some _ _ _ Hx) as L1. pose proof (lookup_lt_Some _ _ _ Hy) as L2.
    assert (Hlen : length (insertion_order (move_to_end j m)) = length (insertion_order m)).
    { unfold move_to_end. rewrite Hj. cbn. rewrite length_app, length_delete by (by eexists). cbn. lia. }
    apply (move_to_end_lookup 0 j m a Hj) in Hx, Hy. pose proof (good_keys _ _ Hg _ _ _ _ Hx Hy E).
    repeat case_decide; lia.
  - intros n x Hx. apply (move_to_end_lookup 0 j m a Hj) in Hx. by eapply (good_kind _ _ Hg).
Qed.

Lemma serve_good w k m : good w m -> good w (serve k m).
Proof.
  intros Hg. unfold serve. destruct (map_find k m) as [[i a]|] eqn:E; [|done].
  apply map_find_Some in E as [Hi _]. by eapply move_to_end_good.
Qed.

(** Serving a partition that is ahead moves the others up. *)
Lemma serve_position w k k' m i j : good w m -> key_kind w k -> key_kind w k' ->
  position k m = Some i -> position k' m = Some j -> (j < i)%nat -> position k (serve k' m) = Some (i - 1)%nat.
Proof.
  intros Hg Hk Hk' Hi Hj Hlt. apply (position_spec w); [by apply serve_good|done|].
  apply (position_spec w) in Hi as (a & Ha & <-); [|done..]. exists a. split; [|done].
  unfold serve. unfold position in Hj. destruct (map_find k' m) as [[j' b]|] eqn:E; [|done]. injection Hj as ->.
  apply map_find_Some in E as [Hb _]. unfold move_to_end. rewrite Hb. cbn.
  pose proof (lookup_lt_Some _ _ _ Ha).
  rewrite lookup_app_l by (rewrite length_delete by (by eexists); lia).
  rewrite list_lookup_delete, decide_False by lia. by replace (S (i - 1)) with i by lia.
Qed.

(** [n] rounds in each of which a partition ahead of [k] is served. *)
Inductive passed_over (w : bool) (k : kitp) (m : linked_map) : nat -> linked_map -> Prop :=
  | passed_none : passed_over w k m 0 m
  | passed_round n m' k' i j : passed_over w k m n m' -> key_kind w k' ->
      position k m' = Some i -> position k' m' = Some j -> (j < i)%nat -> passed_over w k m (S n) (serve k' m').

(** C32: No partition of a session starves: in every round in which a partition ahead of it
    in the order is served and it is not, it moves up one place, so a partition at place
    [i] is passed over at most [i] times. *)
Theorem starvation_is_bounded w k i m n m' :
  good w m -> key_kind w k -> position k m = Some i -> passed_over w k m n m' ->
  (n <= i)%nat /\ position k m' = Some (i - n)%nat.
Proof.
  intros Hg Hk Hi Hp.
  assert (Hall : good w m' /\ (n <= i)%nat /\ position k m' = Some (i - n)%nat); [|by destruct Hall as (_ & ? & ?)].
  induction Hp as [|n m' k' i' j Hp IH Hk' Hi' Hj Hlt].
  - split; [done|]. split; [lia|]. by rewrite Nat.sub_0_r.
  - destruct IH as (Hg' & Hn & Hpos). rewrite Hi' in Hpos. injection Hpos as ->.
    split; [by apply serve_good|]. split; [lia|]. rewrite (serve_position w k k' m' (i - n) j) by done.
    f_equal. lia.
Qed.

(** The rotation is what filling a place with data does to the session. *)
Lemma set_serves i k p m order : map_contains k m = true -> 0 < default 0 (pr_records p) ->
  (set_in_session i k p (incremental_session m) order).1.2 = incremental_session (serve k m).
Proof.
  unfold map_contains, set_in_session, serve. cbn. destruct (map_find k m) as [[j fp]|]; [|done]. intros _ Hp.
  by rewrite (proj2 (Z.ltb_lt _ _) Hp).
Qed.

End response_props.

(** ** Witnesses *)

Module response_examples.
Import session_examples.

Definition result (i n : Z) : read_result :=
  {| rr_partition := i; rr_error := error_code.none; rr_start_offset := 0; rr_high_watermark := 10;
     rr_last_stable_offset := 10; rr_preferred_replica := None; rr_data := Some n |}.

Definition three : fetch_request := req 0 0 [part 0 5; part 1 5; part 2 5] [].

Definition filled (l : list (read_result * nat)) (oc : op_context) : op_context :=
  match fill_fetch_responses l oc no_session with Ok (oc', _) => oc' | _ => oc end.

(** Two of three reads fit. *)
Definition first_pass : op_context :=
  filled [(result 0 300, 0%nat); (result 1 800, 1%nat); (result 2 0, 2%nat)] (make_op_context three 1000 no_session).

Definition reads : list (read_result * nat) := [(result 0 300, 0%nat); (result 1 800, 1%nat); (result 2 0, 2%nat)].

Lemma response_within_budget_witness :
  oc_response_size first_pass = 300 /\ within_budget 1000 (oc_slots first_pass) /\
  oc_response_size first_pass = slots_size (oc_slots first_pass).
Proof.
  assert (Hf : fill_fetch_responses reads (make_op_context three 1000 no_session) no_session = Ok (first_pass, no_session))
    by (vm_compute; reflexivity).
  assert (Hnd : NoDup reads.*2) by (apply (bool_decide_unpack _); vm_compute; exact I).
  assert (Hd : forall x i n, (x, i) ∈ reads -> rr_data x = Some n -> 0 <= n < 2 ^ 62).
  { intros x i n Hx Hn. unfold reads in Hx. rewrite !elem_of_cons in Hx.
    destruct Hx as [Hx|[Hx|[Hx|Hx]]]; [injection Hx as -> _; injection Hn as <-; lia..|by apply elem_of_nil in Hx]. }
  destruct (response_within_budget three 1000 no_session reads first_pass no_session ltac:(lia) Hnd Hd Hf) as [Hs Hw].
  split; [vm_compute; reflexivity|]. split; [exact Hw|exact Hs].
Defined.

(** 300 of 1000 bytes are used; the partition is read again and now has 500. *)
Lemma refill_misjudges_budget_witness : exists oc' s',
  fill_response (result 0 500) 0 first_pass no_session = Ok (oc', no_session) /\
  oc_slots oc' !! 0%nat = Some s' /\ slot_size s' = 0.
Proof.
  assert (Hf : exists oc', fill_response (result 0 500) 0 first_pass no_session = Ok (oc', no_session)) by (eexists; vm_compute; reflexivity).
  destruct Hf as [oc' Hf].
  assert (Hs : exists s, oc_slots first_pass !! 0%nat = Some s /\ pr_records (sl_response s) = Some 300) by (eexists; vm_compute; by split).
  destruct Hs as (s & Hs & Hr).
  destruct (refill_misjudges_budget (result 0 500) 0 first_pass no_session oc' no_session s 300 500 Hs Hr) as [Hdrop _];
    [lia|by vm_compute|by vm_compute|reflexivity|reflexivity|lia|exact Hf|].
  destruct Hdrop as (s' & H1 & H2); [by vm_compute|]. by exists oc', s'.
Defined.

Lemma m1_keys : keys_ok m1.
Proof.
  destruct (co_session c1 c1_ok 1 0%nat) as (s & Hs & _ & Hk); [vm_compute; reflexivity|]. unfold m1. by rewrite Hs.
Qed.

Lemma incremental_response_splits_topics_witness :
  length (filter (fun s => sl_new_topic s = true) (create_response_placeholders three (incremental_session m1))) = 3%nat /\
  Forall (fun fp => k_topic (topic_partition fp) = "t"%string) (insertion_order m1).
Proof.
  split; [|by repeat constructor].
  exact (incremental_response_splits_topics three m1 m1_keys).
Defined.

Lemma starvation_is_bounded_witness : position (key 2) (serve (key 1) (serve (key 0) m1)) = Some 0%nat.
Proof.
  assert (Hg : good false m1).
  { split; [exact m1_keys|]. intros i a Ha. destruct i as [|[|[|i]]]; vm_compute in Ha; simplify_eq; reflexivity. }
  assert (Hp : passed_over false (key 2) m1 2 (serve (key 1) (serve (key 0) m1))).
  { eapply passed_round; [eapply passed_round; [apply passed_none|..]|..]; try (vm_compute; reflexivity); lia. }
  destruct (starvation_is_bounded false (key 2) 2 m1 2 _ Hg eq_refl ltac:(vm_compute; reflexivity) Hp) as [_ Hpos].
  exact Hpos.
Defined.

End response_examples.
