(* ===== verification/SegmentIndex.v ===== *)
(** * The sparse index of a log segment (storage/index_state.{h,cc}, storage/segment_index.cc)

    While batches are appended to a segment, some of them are entered into an index of three
    columns: the offset relative to the segment's first, the time relative to that of the
    first batch, and the position in the file.  Readers look up where to start reading for an
    offset, a time or a size.  Offsets and times are kept in 32 bits; times can be stored
    shifted by 2^31 so that negative differences fit.

    [partition_point] is the binary search behind [std::lower_bound] and
    [std::upper_bound], which is also used on the column of times, where entries need not be
    in order. *)

From S2P Require Import Prelude Record RecordBatch.

Definition u32_max : Z := 2 ^ 32 - 1.

(** ** Columns *)

Record index_columns := {
  _relative_offset_index : list Z;
  _relative_time_index : list Z;
  _position_index : list Z;
}.

(** The loop of the search: the first position in [first, first + len) whose element does not
    satisfy [p], if those that do come first. *)
Fixpoint partition_loop (fuel : nat) (p : Z -> bool) (l : list Z) (first len : nat) : nat :=
  match fuel with
  | O => first
  | S fuel =>
      match len with
      | O => first
      | _ => let half := (len `div` 2)%nat in
             if p (l !!! (first + half)%nat)
             then partition_loop fuel p l (first + half + 1)%nat (len - half - 1)%nat
             else partition_loop fuel p l first half
      end
  end.

Definition partition_point (p : Z -> bool) (l : list Z) : option nat :=
  let i := partition_loop (S (length l)) p l 0 (length l) in
  if (i =? length l)%nat then None else Some i.

Definition offset_lower_bound (needle : Z) (c : index_columns) : option nat :=
  partition_point (fun x => x <? needle) (_relative_offset_index c).

Definition position_upper_bound (needle : Z) (c : index_columns) : option nat :=
  partition_point (fun x => x <=? needle) (_position_index c).

Definition time_lower_bound (needle : Z) (c : index_columns) : option nat :=
  partition_point (fun x => x <? needle) (_relative_time_index c).

Definition try_reset_relative_time_index (t : Z) (c : index_columns) : bool * index_columns :=
  match _relative_time_index c with
  | [_] => (true, {| _relative_offset_index := _relative_offset_index c; _relative_time_index := [t];
                     _position_index := _position_index c |})
  | _ => (false, c)
  end.

Definition add_columns (offset time pos : Z) (c : index_columns) : index_columns :=
  {| _relative_offset_index := _relative_offset_index c ++ [offset];
     _relative_time_index := _relative_time_index c ++ [time];
     _position_index := _position_index c ++ [pos] |}.

Definition columns_size (c : index_columns) : res nat :=
  let n := length (_relative_offset_index c) in
  _ ← vassert ((n =? length (_relative_time_index c))%nat && (n =? length (_position_index c))%nat);
  Ok n.

Definition pop_columns (n : nat) (c : index_columns) : index_columns :=
  let keep {A} (l : list A) := take (length l - n) l in
  {| _relative_offset_index := keep (_relative_offset_index c);
     _relative_time_index := keep (_relative_time_index c);
     _position_index := keep (_position_index c) |}.

(** ** Relative times *)

Module offset_time_index.

Definition offset : Z := 2 ^ 31.
Definition delta_time_min : Z := - offset.
Definition delta_time_max : Z := offset - 1.

Definition clamp (x lo hi : Z) : Z := if x <? lo then lo else if hi <? x then hi else x.

(** The constructor from a difference, and [raw_value]. *)
Definition make (with_offset : bool) (ts : Z) : Z :=
  if with_offset then u32 (clamp ts delta_time_min delta_time_max + offset)
  else u32 (clamp ts 0 u32_max).

(** [operator()]. *)
Definition value (with_offset : bool) (raw : Z) : Z :=
  if with_offset then u32 (raw - u32 offset) else raw.

End offset_time_index.

(** ** The index *)

Record index_state := {
  bitflags : Z;
  ix_base_offset : Z;
  ix_max_offset : Z;
  ix_base_timestamp : Z;
  ix_max_timestamp : Z;
  ix_index : index_columns;
  batch_timestamps_are_monotonic : bool;
  ix_with_offset : bool;
  non_data_timestamps : bool;
  broker_timestamp : option Z;
  num_compactible_records_appended : option Z;
  clean_compact_timestamp : option Z;
  may_have_tombstone_records : bool;
  self_compact_timestamp : option Z;
  may_have_transaction_control_batches : bool;
  may_have_transaction_data_or_fence_batches : bool;
}.

Record index_entry := { en_offset : Z; en_timestamp : Z; en_filepos : Z }.

Definition make_empty_index (base_offset : Z) (with_offset : bool) : index_state :=
  {| bitflags := 0; ix_base_offset := base_offset; ix_max_offset := 0; ix_base_timestamp := 0;
     ix_max_timestamp := 0;
     ix_index := {| _relative_offset_index := []; _relative_time_index := []; _position_index := [] |};
     batch_timestamps_are_monotonic := true; ix_with_offset := with_offset; non_data_timestamps := false;
     broker_timestamp := None; num_compactible_records_appended := Some 0; clean_compact_timestamp := None;
     may_have_tombstone_records := true; self_compact_timestamp := None;
     may_have_transaction_control_batches := true; may_have_transaction_data_or_fence_batches := true |}.

Definition set_bounds (max_offset base_ts max_ts : Z) (s : index_state) : index_state :=
  {| bitflags := bitflags s; ix_base_offset := ix_base_offset s; ix_max_offset := max_offset;
     ix_base_timestamp := base_ts; ix_max_timestamp := max_ts; ix_index := ix_index s;
     batch_timestamps_are_monotonic := batch_timestamps_are_monotonic s; ix_with_offset := ix_with_offset s;
     non_data_timestamps := non_data_timestamps s; broker_timestamp := broker_timestamp s;
     num_compactible_records_appended := num_compactible_records_appended s;
     clean_compact_timestamp := clean_compact_timestamp s;
     may_have_tombstone_records := may_have_tombstone_records s; self_compact_timestamp := self_compact_timestamp s;
     may_have_transaction_control_batches := may_have_transaction_control_batches s;
     may_have_transaction_data_or_fence_batches := may_have_transaction_data_or_fence_batches s |}.

Definition set_index (c : index_columns) (non_data : bool) (s : index_state) : index_state :=
  {| bitflags := bitflags s; ix_base_offset := ix_base_offset s; ix_max_offset := ix_max_offset s;
     ix_base_timestamp := ix_base_timestamp s; ix_max_timestamp := ix_max_timestamp s; ix_index := c;
     batch_timestamps_are_monotonic := batch_timestamps_are_monotonic s; ix_with_offset := ix_with_offset s;
     non_data_timestamps := non_data; broker_timestamp := broker_timestamp s;
     num_compactible_records_appended := num_compactible_records_appended s;
     clean_compact_timestamp := clean_compact_timestamp s;
     may_have_tombstone_records := may_have_tombstone_records s; self_compact_timestamp := self_compact_timestamp s;
     may_have_transaction_control_batches := may_have_transaction_control_batches s;
     may_have_transaction_data_or_fence_batches := may_have_transaction_data_or_fence_batches s |}.

Definition set_counts (mono : bool) (broker compactible : option Z) (s : index_state) : index_state :=
  {| bitflags := bitflags s; ix_base_offset := ix_base_offset s; ix_max_offset := ix_max_offset s;
     ix_base_timestamp := ix_base_timestamp s; ix_max_timestamp := ix_max_timestamp s; ix_index := ix_index s;
     batch_timestamps_are_monotonic := mono; ix_with_offset := ix_with_offset s;
     non_data_timestamps := non_data_timestamps s; broker_timestamp := broker;
     num_compactible_records_appended := compactible;
     clean_compact_timestamp := clean_compact_timestamp s;
     may_have_tombstone_records := may_have_tombstone_records s; self_compact_timestamp := self_compact_timestamp s;
     may_have_transaction_control_batches := may_have_transaction_control_batches s;
     may_have_transaction_data_or_fence_batches := may_have_transaction_data_or_fence_batches s |}.

(** The flags of compaction, which a reset keeps. *)
Definition set_compaction (clean : option Z) (tombstones : bool) (self : option Z) (control data : bool)
    (s : index_state) : index_state :=
  {| bitflags := bitflags s; ix_base_offset := ix_base_offset s; ix_max_offset := ix_max_offset s;
     ix_base_timestamp := ix_base_timestamp s; ix_max_timestamp := ix_max_timestamp s; ix_index := ix_index s;
     batch_timestamps_are_monotonic := batch_timestamps_are_monotonic s; ix_with_offset := ix_with_offset s;
     non_data_timestamps := non_data_timestamps s; broker_timestamp := broker_timestamp s;
     num_compactible_records_appended := num_compactible_records_appended s;
     clean_compact_timestamp := clean; may_have_tombstone_records := tombstones; self_compact_timestamp := self;
     may_have_transaction_control_batches := control; may_have_transaction_data_or_fence_batches := data |}.

Definition index_size (s : index_state) : res nat := columns_size (ix_index s).
Definition index_empty (s : index_state) : res bool := n ← index_size s; Ok (n =? 0)%nat.

(** [pop_back]. *)
Definition pop_back (n : nat) (s : index_state) : res index_state :=
  let c := pop_columns n (ix_index s) in
  k ← columns_size c;
  Ok (set_index c (if (k =? 0)%nat then false else non_data_timestamps s) s).

Definition get_entry (i : nat) (s : index_state) : res (Z * Z * Z) :=
  o ← deref (_relative_offset_index (ix_index s) !! i);
  t ← deref (_relative_time_index (ix_index s) !! i);
  p ← deref (_position_index (ix_index s) !! i);
  Ok (o, t, p).

Definition translate_index_entry (e : Z * Z * Z) (s : index_state) : index_entry :=
  let '(o, t, p) := e in
  {| en_offset := s64 (o + ix_base_offset s);
     en_timestamp := s64 (offset_time_index.value (ix_with_offset s) t + ix_base_timestamp s);
     en_filepos := p |}.

(** *** Appending *)

(** The first batch with user data takes over the times of a configuration batch that was
    indexed before it. *)
Definition reset_non_data_timestamps (first_ts last_ts : Z) (s : index_state) : res index_state :=
  let '(ok, c) := try_reset_relative_time_index (offset_time_index.make (ix_with_offset s) last_ts) (ix_index s) in
  _ ← vassert ok;
  Ok (set_bounds (ix_max_offset s) first_ts first_ts (set_index c false s)).

(** The rest of [maybe_index]. *)
Definition index_batch (accumulator step filepos batch_base batch_max first_ts last_ts : Z)
    (new_broker_ts : option Z) (user_data : bool) (compactible : Z) (s : index_state) : res (bool * index_state) :=
  is_empty ← index_empty s;
  let s := if (is_empty : bool) then set_bounds batch_max first_ts first_ts s
           else set_bounds batch_max (ix_base_timestamp s) (ix_max_timestamp s) s in
  let last_ts := if user_data then first_ts `max` last_ts else last_ts in
  let s := if user_data
           then set_counts (batch_timestamps_are_monotonic s)
                  (match new_broker_ts with Some t => Some t | None => broker_timestamp s end)
                  (num_compactible_records_appended s)
                  (set_bounds (ix_max_offset s) (ix_base_timestamp s) (ix_max_timestamp s `max` last_ts) s)
           else s in
  let s := if 0 <? compactible
           then set_counts (batch_timestamps_are_monotonic s) (broker_timestamp s)
                  (Some (u64 (default 0 (num_compactible_records_appended s) + compactible))) s
           else s in
  if ((step <=? accumulator) && user_data) || is_empty then
    let offset_delta := batch_base - ix_base_offset s in
    if offset_delta <=? u32_max then
      let time := offset_time_index.make (ix_with_offset s) (s64 (last_ts - ix_base_timestamp s)) in
      Ok (true, set_index (add_columns (u32 offset_delta) time filepos (ix_index s))
                  (if is_empty && negb user_data then true else non_data_timestamps s) s)
    else Ok (false, s)
  else Ok (false, s).

Definition maybe_index (accumulator step filepos batch_base batch_max first_ts last_ts : Z)
    (new_broker_ts : option Z) (user_data : bool) (compactible : Z) (s : index_state) : res (bool * index_state) :=
  _ ← vassert (ix_base_offset s <=? batch_base);
  s ← (if user_data && non_data_timestamps s then reset_non_data_timestamps first_ts last_ts s else Ok s);
  index_batch accumulator step filepos batch_base batch_max first_ts last_ts new_broker_ts user_data compactible s.

(** *** Looking up *)

(** The loop that walks back from the position found. *)
Fixpoint nearest_loop (i : nat) (needle : Z) (s : index_state) : res (option index_entry) :=
  o ← deref (_relative_offset_index (ix_index s) !! i);
  if o <=? needle then e ← get_entry i s; Ok (Some (translate_index_entry e s))
  else match i with O => Ok None | S i => nearest_loop i needle s end.

Definition find_nearest_offset (o : Z) (s : index_state) : res (option index_entry) :=
  if o <? ix_base_offset s then Ok None
  else
    n ← index_size s;
    if (n =? 0)%nat then Ok None
    else
      let query := o - ix_base_offset s in
      let segment := ix_max_offset s - ix_base_offset s in
      if (u32_max <? query) || (u32_max <? segment) then e ← get_entry 0 s; Ok (Some (translate_index_entry e s))
      else nearest_loop (default (n - 1)%nat (offset_lower_bound query (ix_index s))) query s.

(** [find_entry]: one entry back from the first one that is late enough. *)
Definition find_entry (delta : Z) (s : index_state) : res (option (Z * Z * Z)) :=
  match time_lower_bound (offset_time_index.make (ix_with_offset s) delta) (ix_index s) with
  | None => Ok None
  | Some i => e ← get_entry (i - 1) s; Ok (Some e)
  end.

Definition find_nearest_time (t : Z) (s : index_state) : res (option index_entry) :=
  if t <? ix_base_timestamp s then Ok None
  else
    is_empty ← index_empty s;
    if (is_empty : bool) then Ok None
    else
      found ← find_entry (s64 (t - ix_base_timestamp s)) s;
      Ok (option_map (fun e => translate_index_entry e s) found).

Definition find_above_size_bytes (distance : Z) (s : index_state) : res (option index_entry) :=
  is_empty ← index_empty s;
  if (is_empty : bool) then Ok None
  else match position_upper_bound distance (ix_index s) with
       | None => Ok None
       | Some i => e ← get_entry i s; Ok (Some (translate_index_entry e s))
       end.

Definition find_below_size_bytes (distance : Z) (s : index_state) : res (option index_entry) :=
  n ← index_size s;
  if (n =? 0)%nat then Ok None
  else match default n (position_upper_bound distance (ix_index s)) with
       | O => Ok None
       | S i => e ← get_entry i s; Ok (Some (translate_index_entry e s))
       end.

(** *** Truncation *)

Definition truncate (new_max_offset new_max_timestamp : Z) (s : index_state) : res (bool * index_state) :=
  if new_max_offset <? ix_base_offset s then Ok (false, s)
  else
    let delta := new_max_offset - ix_base_offset s in
    '(persist, s) ← (if delta <=? u32_max then
                       n ← index_size s;
                       let removed := (n - default n (offset_lower_bound delta (ix_index s)))%nat in
                       if (0 <? removed)%nat then s ← pop_back removed s; Ok (true, s) else Ok (false, s)
                     else Ok (false, s));
    if new_max_offset <? ix_max_offset s then
      is_empty ← index_empty s;
      Ok (true, if (is_empty : bool)
                then set_bounds (ix_base_offset s) (ix_base_timestamp s) (ix_base_timestamp s) s
                else set_bounds new_max_offset (ix_base_timestamp s) new_max_timestamp s)
    else Ok (persist, s).

(** ** The index of a segment *)

Record segment_index := {
  _step : Z;
  _acc : Z;
  _needs_persistence : bool;
  _last_batch_max_timestamp : Z;
  _state : index_state;
}.

Definition make_segment_index (step base : Z) (with_offset : bool) (broker clean : option Z) (tombstones : bool)
    (self : option Z) (control data : bool) : segment_index :=
  let s := make_empty_index base with_offset in
  {| _step := step; _acc := 0; _needs_persistence := false; _last_batch_max_timestamp := -1;
     _state := set_compaction clean tombstones self control data
                 (set_counts (batch_timestamps_are_monotonic s) broker (num_compactible_records_appended s) s) |}.

(** [offset_translator_batch_types] and [is_filterable]. *)
Definition offset_translator_batch_types : list Z := [2; 19; 23; 25; 34; 38; 40; 37].
Definition compaction_placeholder : Z := 29.

Definition is_filterable (t : Z) : bool :=
  negb (t =? compaction_placeholder) && negb (existsb (Z.eqb t) offset_translator_batch_types).

Definition maybe_track (internal_topic : bool) (h : record_batch_header) (new_broker_ts : option Z) (filepos : Z)
    (x : segment_index) : res segment_index :=
  let acc := u64 (_acc x + b_size_bytes h) in
  let s := _state x in
  let s := set_counts (batch_timestamps_are_monotonic s && (_last_batch_max_timestamp x <=? max_timestamp h))
             (broker_timestamp s) (num_compactible_records_appended s) s in
  '(indexed, s) ← maybe_index acc (_step x) filepos (base_offset h) (last_offset h) (first_timestamp h)
                    (max_timestamp h) new_broker_ts (internal_topic || (type h =? raft_data))
                    (u64 (if is_filterable (type h) then record_count h else 0)) s;
  Ok {| _step := _step x; _acc := if (indexed : bool) then 0 else acc; _needs_persistence := true;
        _last_batch_max_timestamp := first_timestamp h `max` max_timestamp h; _state := s |}.

Definition set_persistence (b : bool) (x : segment_index) : segment_index :=
  {| _step := _step x; _acc := _acc x; _needs_persistence := b;
     _last_batch_max_timestamp := _last_batch_max_timestamp x; _state := _state x |}.

(** [flush], without the write to the file; [shrink_to_fit] asserts that the columns are of one length. *)
Definition flush (x : segment_index) : res segment_index :=
  if negb (_needs_persistence x) then Ok x
  else _ ← index_size (_state x); Ok (set_persistence false x).

Definition truncate_index (new_max_offset new_max_timestamp : Z) (x : segment_index) : res segment_index :=
  '(persist, s) ← truncate new_max_offset new_max_timestamp (_state x);
  let x := {| _step := _step x; _acc := _acc x; _needs_persistence := persist;
              _last_batch_max_timestamp := _last_batch_max_timestamp x; _state := s |} in
  if (persist : bool) then flush x else Ok x.

(** Compaction replaces the state by that of the segment it has written. *)
Definition swap_index_state (o : index_state) (x : segment_index) : segment_index * index_state :=
  ({| _step := _step x; _acc := 0; _needs_persistence := true;
      _last_batch_max_timestamp := _last_batch_max_timestamp x; _state := o |}, _state x).

Definition reset (with_offset : bool) (x : segment_index) : segment_index :=
  let s := _state x in
  {| _step := _step x; _acc := 0; _needs_persistence := _needs_persistence x;
     _last_batch_max_timestamp := _last_batch_max_timestamp x;
     _state := set_compaction (clean_compact_timestamp s) (may_have_tombstone_records s) (self_compact_timestamp s)
                 (may_have_transaction_control_batches s) (may_have_transaction_data_or_fence_batches s)
                 (make_empty_index (ix_base_offset s) with_offset) |}.

Fixpoint highest_loop (i : nat) (relative : Z) (s : index_state) : res (option Z) :=
  match i with
  | O => Ok None
  | S i =>
      '(_, t, _) ← get_entry i s;
      let v := offset_time_index.value (ix_with_offset s) t in
      if v <? relative then Ok (Some (s64 (ix_base_timestamp s + v))) else highest_loop i relative s
  end.

Definition find_highest_timestamp_before (t : Z) (s : index_state) : res (option Z) :=
  if t <? ix_base_timestamp s then Ok None
  else n ← index_size s; highest_loop n (s64 (t - ix_base_timestamp s)) s.
