(* ===== verification/SegmentIndexProps.v ===== *)
(** * Properties of the segment index

    A segment is the list of its batches with their positions in the file; [indexed] relates
    it to the index that was built while the batches were appended and truncated.  The
    lookups never lead a reader past a batch that it must not miss. *)

From stdpp Require Import sorting.
From S2P Require Import Prelude Record RecordBatch SegmentIndex.

(** ** Binary search *)

Lemma partition_loop_spec p l fuel first len : (len < fuel)%nat -> (first + len <= length l)%nat ->
  let r := partition_loop fuel p l first len in
  (first <= r <= first + len)%nat /\
  (r = first \/ p (l !!! (r - 1)%nat) = true) /\ (r = (first + len)%nat \/ p (l !!! r) = false).
Proof.
  revert first len. induction fuel as [|fuel IH]; intros first len Hf Hl; [lia|].
  destruct len as [|len]; [cbn; split; [lia|]; split; [by left|left; lia]|].
  cbn [partition_loop]. set (half := (S len `div` 2)%nat).
  assert (Hh : (half < S len)%nat) by (apply Nat.div_lt; lia).
  destruct (p (l !!! (first + half)%nat)) eqn:E.
  - destruct (IH (first + half + 1)%nat (S len - half - 1)%nat) as (H1 & H2 & H3); [lia|lia|].
    split; [lia|]. split; [right|destruct H3 as [->|H3]; [left; lia|by right]].
    destruct H2 as [->|H2]; [|done]. by replace (first + half + 1 - 1)%nat with (first + half)%nat by lia.
  - destruct (IH first half) as (H1 & H2 & H3); [lia|lia|].
    split; [lia|]. split; [done|right]. destruct H3 as [->|H3]; done.
Qed.

(** Whatever the order of the list, the search stops where [p] ceases to hold. *)
Lemma partition_point_Some p l i : partition_point p l = Some i ->
  (i < length l)%nat /\ p (l !!! i) = false /\ (i = 0%nat \/ p (l !!! (i - 1)%nat) = true).
Proof.
  unfold partition_point. destruct (partition_loop_spec p l (S (length l)) 0 (length l)) as (H1 & H2 & H3); [lia|lia|].
  set (r := partition_loop _ _ _ _ _) in *. case_match eqn:E; [done|]. apply Nat.eqb_neq in E. intros [= <-].
  split; [lia|]. split; [destruct H3 as [->|]; [lia|done]|done].
Qed.

Lemma partition_point_None p l : partition_point p l = None ->
  l = [] \/ p (l !!! (length l - 1)%nat) = true.
Proof.
  unfold partition_point. destruct (partition_loop_spec p l (S (length l)) 0 (length l)) as (H1 & H2 & H3); [lia|lia|].
  set (r := partition_loop _ _ _ _ _) in *. case_match eqn:E; [|done]. apply Nat.eqb_eq in E. intros _.
  destruct H2 as [H2|H2]; [left; by apply length_zero_iff_nil; lia|right; by rewrite <- E].
Qed.

Lemma sorted_lookup {A} (R : A -> A -> Prop) l i j x y : StronglySorted R l ->
  l !! i = Some x -> l !! j = Some y -> (i < j)%nat -> R x y.
Proof.
  intros Hs Hx Hy Hij. rewrite <- (take_drop j l) in Hs.
  eapply StronglySorted_app_1_elem_of; [exact Hs|..].
  - apply list_elem_of_lookup. exists i. by rewrite lookup_take_lt.
  - apply list_elem_of_lookup. exists 0%nat. by rewrite lookup_drop, Nat.add_0_r.
Qed.

(** On a list in ascending order, it splits the list. *)
Lemma partition_point_sorted p l : StronglySorted Z.le l -> (forall x y, x <= y -> p y = true -> p x = true) ->
  forall j, (j < length l)%nat -> p (l !!! j) = bool_decide (j < default (length l) (partition_point p l))%nat.
Proof.
  intros Hs Hp j Hj.
  assert (Hle : forall i k, (i <= k < length l)%nat -> l !!! i <= l !!! k).
  { intros i k Hik. destruct (decide (i = k)) as [->|Hne]; [done|].
    destruct (lookup_lt_is_Some_2 l i) as [x Hx]; [lia|]. destruct (lookup_lt_is_Some_2 l k) as [y Hy]; [lia|].
    rewrite (list_lookup_total_correct _ _ _ Hx), (list_lookup_total_correct _ _ _ Hy).
    eapply (sorted_lookup Z.le); [done..|lia]. }
  destruct (partition_point p l) as [i|] eqn:E; simpl.
  - apply partition_point_Some in E as (Hi & Hf & Ht). case_bool_decide.
    + destruct Ht as [->|Ht]; [lia|]. eapply Hp; [|exact Ht]. apply Hle. lia.
    + destruct (p (l !!! j)) eqn:E; [|done]. rewrite <- Hf. symmetry. eapply Hp; [|exact E]. apply Hle. lia.
  - rewrite bool_decide_eq_true_2 by lia. apply partition_point_None in E as [->|E]; [simpl in Hj; lia|].
    eapply Hp; [|exact E]. apply Hle. lia.
Qed.

(** ** What one append does to the columns *)

(** The three columns have one length, and only an index of one entry can wait for user data. *)
Definition columns_ok (s : index_state) : Prop :=
  let n := length (_relative_offset_index (ix_index s)) in
  length (_relative_time_index (ix_index s)) = n /\ length (_position_index (ix_index s)) = n /\
  (non_data_timestamps s = true -> n = 1%nat).

Lemma index_size_ok s : columns_ok s -> index_size s = Ok (length (_relative_offset_index (ix_index s))).
Proof. intros (Ht & Hp & _). unfold index_size, columns_size. by rewrite Ht, Hp, !Nat.eqb_refl. Qed.

Lemma index_empty_ok s : columns_ok s ->
  index_empty s = Ok (length (_relative_offset_index (ix_index s)) =? 0)%nat.
Proof. intros H. unfold index_empty. by rewrite index_size_ok. Qed.

(** The columns after the times of a configuration batch were replaced. *)
Definition same_but_first_time (c c' : index_columns) : Prop :=
  _relative_offset_index c' = _relative_offset_index c /\ _position_index c' = _position_index c /\
  length (_relative_time_index c') = length (_relative_time_index c) /\
  forall i, _relative_time_index c' !! S i = _relative_time_index c !! S i.

Lemma reset_non_data_ok first_ts last_ts s : columns_ok s -> non_data_timestamps s = true ->
  exists s', reset_non_data_timestamps first_ts last_ts s = Ok s' /\
    ix_base_offset s' = ix_base_offset s /\ ix_with_offset s' = ix_with_offset s /\
    batch_timestamps_are_monotonic s' = batch_timestamps_are_monotonic s /\
    ix_base_timestamp s' = first_ts /\ non_data_timestamps s' = false /\
    same_but_first_time (ix_index s) (ix_index s').
Proof.
  intros (Ht & Hp & Hn) Hnd. specialize (Hn Hnd).
  unfold reset_non_data_timestamps, try_reset_relative_time_index.
  destruct (_relative_time_index (ix_index s)) as [|t [|]] eqn:E; simpl in Ht; [lia| |lia].
  eexists. split; [reflexivity|]. do 5 (split; [done|]).
  unfold same_but_first_time. rewrite E. by split_and!.
Qed.

(** What [maybe_index] promises: the state stays sound, a batch is entered exactly when it is
    due and representable, and earlier entries keep their place. *)
Definition appended (user_data due : bool) (pos base first_ts last_ts : Z) (s s' : index_state) (b : bool) : Prop :=
  let n := length (_relative_offset_index (ix_index s)) in
  ix_base_offset s' = ix_base_offset s /\ ix_with_offset s' = ix_with_offset s /\
  batch_timestamps_are_monotonic s' = batch_timestamps_are_monotonic s /\ columns_ok s' /\
  (ix_base_timestamp s' = first_ts \/ ix_base_timestamp s' = ix_base_timestamp s) /\
  ((2 <= n)%nat -> ix_base_timestamp s' = ix_base_timestamp s) /\
  b = (due && user_data || (n =? 0)%nat) && (base - ix_base_offset s <=? u32_max) /\
  exists c, same_but_first_time (ix_index s) c /\
    ix_index s' = if b then add_columns (u32 (base - ix_base_offset s))
                              (offset_time_index.make (ix_with_offset s)
                                 (s64 ((if user_data then first_ts `max` last_ts else last_ts) - ix_base_timestamp s')))
                              pos c
                  else c.

Lemma index_batch_appended acc step pos base last first_ts last_ts bts user k s :
  columns_ok s -> user && non_data_timestamps s = false ->
  exists b s', index_batch acc step pos base last first_ts last_ts bts user k s = Ok (b, s') /\
    appended user (step <=? acc) pos base first_ts last_ts s s' b.
Proof.
  intros Hok Hnd. pose proof Hok as (Ht & Hp & H1). unfold index_batch. rewrite index_empty_ok by done. cbn [mbind res_bind].
  set (n := length (_relative_offset_index (ix_index s))) in *.
  unfold appended. fold n.
  destruct user, (0 <? k), (n =? 0)%nat eqn:En, (step <=? acc), (base - ix_base_offset s <=? u32_max) eqn:Eb;
    cbn; rewrite ?Eb; (do 2 eexists; split; [reflexivity|]); cbn in Hnd; cbn;
    first [apply Nat.eqb_eq in En | apply Nat.eqb_neq in En].
  all: do 3 (split; [done|]); (split; [unfold columns_ok; cbn; rewrite ?length_app; cbn; try rewrite Hnd; intuition (congruence || lia)|]).
  all: split; [tauto|]; split; [lia || done|]; split; [done|].
  all: exists (ix_index s); by split.
Qed.

Lemma same_but_first_time_trans a b c : same_but_first_time a b -> same_but_first_time b c -> same_but_first_time a c.
Proof. intros (? & ? & ? & Hi) (? & ? & ? & Hj). split_and!; [congruence..|]. intros i. by rewrite Hj, Hi. Qed.

Lemma maybe_index_appended acc step pos base last first_ts last_ts bts user k s :
  columns_ok s -> ix_base_offset s <= base ->
  exists b s', maybe_index acc step pos base last first_ts last_ts bts user k s = Ok (b, s') /\
    appended user (step <=? acc) pos base first_ts last_ts s s' b.
Proof.
  intros Hok Hb. unfold maybe_index. rewrite (proj2 (Z.leb_le _ _) Hb). cbn [vassert mbind res_bind].
  destruct (user && non_data_timestamps s) eqn:E; [|by apply index_batch_appended].
  apply andb_prop in E as [-> Hnd]. pose proof Hok as (Ht & Hp & H1).
  destruct (reset_non_data_ok first_ts last_ts s Hok Hnd) as (s1 & -> & Hbase & Hw & Hm & Hts & Hnd1 & Hc).
  assert (Hok1 : columns_ok s1).
  { destruct Hc as (H2 & H3 & H4 & _). split_and!; [congruence..|]. rewrite Hnd1. done. }
  edestruct (index_batch_appended acc step pos base last first_ts last_ts bts true k s1 Hok1) as (b & s' & E & H);
    [by rewrite Hnd1|].
  exists b, s'. split; [exact E|]. unfold appended in *. pose proof Hc as (H2 & _). rewrite H2 in H.
  rewrite Hbase, Hw, Hm, Hts in H. destruct H as (? & ? & ? & ? & Hor & _ & ? & c & Hc' & ?).
  do 4 (split; [done|]). split; [tauto|]. split; [intros Hn; rewrite (H1 Hnd) in Hn; lia|]. split; [done|].
  exists c. split; [by eapply same_but_first_time_trans|done].
Qed.

(** ** Segments and their indexes *)

(** A batch in the file, at its position. *)
Abbreviation placed := (record_batch_header * Z)%type.

Definition before (a b : placed) : Prop := last_offset a.1 < base_offset b.1 /\ a.2 < b.2.

(** The time a batch counts for: some clients leave the maximum unset. *)
Definition batch_time (a : placed) : Z := first_timestamp a.1 `max` max_timestamp a.1.

(** What the log guarantees of the batches it appends. *)
Definition appendable (base : Z) (bs : list placed) (a : placed) : Prop :=
  base <= base_offset a.1 <= last_offset a.1 /\ is_s 64 base /\ is_s 64 (base_offset a.1) /\
  is_s 62 (first_timestamp a.1) /\ is_s 62 (max_timestamp a.1) /\ (forall b, b ∈ bs -> before b a).

(** A segment with base offset [base] and the index that appends and truncations have left;
    the flag says whether the segment was ever truncated. *)
Inductive indexed (base : Z) (w : bool) : bool -> list placed -> segment_index -> Prop :=
  | indexed_new step broker clean tombstones self control data :
      indexed base w false [] (make_segment_index step base w broker clean tombstones self control data)
  | indexed_track tr bs x internal bts h pos x' :
      indexed base w tr bs x -> appendable base bs (h, pos) ->
      maybe_track internal h bts pos x = Ok x' -> indexed base w tr (bs ++ [(h, pos)]) x'
  | indexed_truncate tr bs x kept h pos gone ts x' :
      indexed base w tr bs x -> bs = (kept ++ [(h, pos)]) ++ gone ->
      truncate_index (last_offset h) ts x = Ok x' -> indexed base w true (kept ++ [(h, pos)]) x'.

(** The entries [es] of the index of [bs]. *)
Record entries_ok (base : Z) (w tr : bool) (bs es : list placed) (s : index_state) : Prop := {
  eo_columns : columns_ok s;
  eo_base : ix_base_offset s = base;
  eo_with : ix_with_offset s = w;
  eo_offsets : _relative_offset_index (ix_index s) = (fun e => base_offset e.1 - base) <$> es;
  eo_positions : _position_index (ix_index s) = snd <$> es;
  eo_times i e : es !! S i = Some e ->
    _relative_time_index (ix_index s) !! S i = Some (offset_time_index.make w (batch_time e - ix_base_timestamp s));
  eo_base_time : is_s 62 (ix_base_timestamp s);
  eo_sublist : es `sublist_of` bs;
  eo_range e : e ∈ es -> 0 <= base_offset e.1 - base <= u32_max;
  eo_first : tr = false -> head es = head bs \/ es = [] /\ forall b, b ∈ bs -> u32_max < base_offset b.1 - base;
}.

Record segment_ok (base : Z) (w tr : bool) (bs : list placed) (x : segment_index) : Prop := {
  so_sorted : StronglySorted before bs;
  so_batches b : b ∈ bs -> base <= base_offset b.1 <= last_offset b.1 /\ is_s 64 base /\ is_s 64 (base_offset b.1);
  so_entries : exists es, entries_ok base w tr bs es (_state x);
  so_monotonic : batch_timestamps_are_monotonic (_state x) = true ->
    StronglySorted (fun a b => batch_time a <= batch_time b) bs /\
    forall b, b ∈ bs -> batch_time b <= _last_batch_max_timestamp x;
}.

Lemma StronglySorted_snoc {A} (R : A -> A -> Prop) l a :
  StronglySorted R l -> (forall x, x ∈ l -> R x a) -> StronglySorted R (l ++ [a]).
Proof.
  induction 1 as [|y l Hs IH Hy]; intros H; simpl; constructor; [constructor..| |].
  - apply IH. intros x Hx. apply H. by right.
  - apply Forall_app. split; [done|]. constructor; [|done]. apply H. by left.
Qed.

Lemma entries_length base w tr bs es s : entries_ok base w tr bs es s ->
  length (_relative_offset_index (ix_index s)) = length es /\ length (_relative_time_index (ix_index s)) = length es.
Proof. intros H. destruct (eo_columns _ _ _ _ _ _ H) as (Ht & _). rewrite Ht, (eo_offsets _ _ _ _ _ _ H), length_fmap. done. Qed.

(** An index that is due for no entry of its first batch holds none of the others either. *)
Lemma first_entry_kept base w tr bs es s a b : entries_ok base w tr bs es s -> appendable base bs a ->
  (forall x, x ∈ bs -> base_offset x.1 <= last_offset x.1) ->
  (es = [] -> b = (base_offset a.1 - base <=? u32_max)) -> tr = false ->
  let es' := if b : bool then es ++ [a] else es in
  head es' = head (bs ++ [a]) \/ es' = [] /\ forall x, x ∈ bs ++ [a] -> u32_max < base_offset x.1 - base.
Proof.
  intros H (_ & _ & _ & _ & _ & Hbef) Hle Hb Htr.
  destruct es as [|e es].
  - assert (Hbig : bs <> [] -> forall x, x ∈ bs -> u32_max < base_offset x.1 - base).
    { intros Hne. destruct (eo_first _ _ _ _ _ _ H Htr) as [E|[_ E]]; [|done]. destruct bs; done. }
    rewrite (Hb eq_refl). destruct (Z.leb_spec (base_offset a.1 - base) u32_max); [left|right].
    + destruct bs as [|c bs]; [done|]. exfalso. specialize (Hbig ltac:(done) c ltac:(by left)).
      destruct (Hbef c ltac:(by left)) as [Hc _]. specialize (Hle c ltac:(by left)). lia.
    + split; [done|]. intros x [Hx|Hx%list_elem_of_singleton]%elem_of_app; [|subst x; lia]. apply Hbig; [|done]. intros ->. set_solver.
  - left. destruct (eo_first _ _ _ _ _ _ H Htr) as [E|[? _]]; [|done].
    destruct bs; simpl in E; [done|]. injection E as ->. by destruct b.
Qed.

Lemma track_entries base w tr bs es s user due a s' b :
  entries_ok base w tr bs es s -> appendable base bs a -> (forall x, x ∈ bs -> base_offset x.1 <= last_offset x.1) ->
  appended user due a.2 (base_offset a.1) (first_timestamp a.1) (max_timestamp a.1) s s' b ->
  entries_ok base w tr (bs ++ [a]) (if b then es ++ [a] else es) s'.
Proof.
  intros H Ha Hle (Hb & Hw & _ & Hc & Hts & Hts2 & Eb & c & (Ho & Hp & Hl & Ht) & Hi).
  destruct (entries_length _ _ _ _ _ _ H) as [Hn Hnt]. rewrite Hn in *.
  pose proof Ha as (Hr & Hbase & Hao & Hft & Hmt & _).
  rewrite (eo_base _ _ _ _ _ _ H), ?(eo_with _ _ _ _ _ _ H) in *.
  assert (Hlen : forall i e, es !! S i = Some e -> ix_base_timestamp s' = ix_base_timestamp s).
  { intros i e Hie. apply Hts2. apply lookup_lt_Some in Hie. lia. }
  constructor; rewrite ?Hb, ?Hw, ?Hi; try done.
  - destruct b; cbn; [|by rewrite Ho, (eo_offsets _ _ _ _ _ _ H)].
    symmetry in Eb. apply andb_prop in Eb as [_ Eb%Z.leb_le].
    rewrite fmap_app, Ho, (eo_offsets _ _ _ _ _ _ H). f_equal. cbn. rewrite uwrap_id; [done|]. unfold u32_max in *. ranges.
  - destruct b; cbn; rewrite ?fmap_app, Hp, (eo_positions _ _ _ _ _ _ H); done.
  - intros i e Hie. destruct (decide (S i < length es)%nat) as [Hlt|Hge].
    + assert (Hie' : es !! S i = Some e) by (destruct b; [by rewrite lookup_app_l in Hie|done]).
      rewrite (Hlen _ _ Hie'). rewrite <- (eo_times _ _ _ _ _ _ H _ _ Hie'), <- Ht.
      destruct b; [|done]. cbn. rewrite lookup_app_l; [done|lia].
    + destruct b; [|apply lookup_lt_Some in Hie; lia]. pose proof (lookup_lt_Some _ _ _ Hie) as Hlt. rewrite length_app in Hlt.
      simpl in Hlt. rewrite list_lookup_middle in Hie by lia. injection Hie as <-.
      symmetry in Eb. apply andb_prop in Eb as [Eb _]. apply orb_prop in Eb as [Eb|Eb%Nat.eqb_eq]; [|lia].
      apply andb_prop in Eb as [_ ->]. cbn. rewrite list_lookup_middle by lia. do 2 f_equal. unfold batch_time.
      apply swrap_id; [lia|]. pose proof (eo_base_time _ _ _ _ _ _ H). destruct Hts as [Hts|Hts]; rewrite Hts; ranges.
  - destruct Hts as [->| ->]; [done|exact (eo_base_time _ _ _ _ _ _ H)].
  - pose proof (eo_sublist _ _ _ _ _ _ H). destruct b; [by apply sublist_app|by apply sublist_inserts_r].
  - intros e He. assert (e ∈ es \/ b = true /\ e = a) as [He'|[-> ->]].
    { destruct b; [|by left]. apply elem_of_app in He as [|He%list_elem_of_singleton]; [by left|by right]. }
    + exact (eo_range _ _ _ _ _ _ H _ He').
    + symmetry in Eb. apply andb_prop in Eb as [_ Eb%Z.leb_le]. lia.
  - apply first_entry_kept with (w := w) (tr := tr) (s := s); [done..|]. intros ->. subst b. cbn. by rewrite orb_true_r.
Qed.

Lemma maybe_track_ok base w tr bs x internal bts h pos : segment_ok base w tr bs x -> appendable base bs (h, pos) ->
  exists x', maybe_track internal h bts pos x = Ok x' /\ segment_ok base w tr (bs ++ [(h, pos)]) x'.
Proof.
  intros [Hs Hbs [es H] Hm] Ha. unfold maybe_track.
  set (s1 := set_counts _ _ _ (_state x)).
  assert (H1 : entries_ok base w tr bs es s1) by (destruct H; by constructor).
  pose proof Ha as (Hr & Hbase & Hbo & _ & _ & Hbef).
  edestruct (maybe_index_appended (u64 (_acc x + b_size_bytes h)) (_step x) pos (base_offset h) (last_offset h)
    (first_timestamp h) (max_timestamp h) bts) as (b & s' & -> & Happ);
    [exact (eo_columns _ _ _ _ _ _ H1)|rewrite (eo_base _ _ _ _ _ _ H1); apply Hr|].
  eexists. split; [reflexivity|]. constructor; cbn.
  - by apply StronglySorted_snoc.
  - intros c [Hc|Hc%list_elem_of_singleton]%elem_of_app; [by apply Hbs|]. by subst c.
  - eexists. eapply (track_entries _ _ _ _ _ _ _ _ (h, pos)); [done..|intros y Hy; by apply Hbs|exact Happ].
  - destruct Happ as (_ & _ & -> & _). cbn. intros [Hmono Hle%Z.leb_le]%andb_prop. destruct (Hm Hmono) as [Hsm Hlast].
    assert (Hnew : forall c, c ∈ bs -> batch_time c <= batch_time (h, pos)).
    { intros c Hc%Hlast. unfold batch_time in *. cbn. lia. }
    split; [by apply StronglySorted_snoc|]. intros c [Hc|Hc%list_elem_of_singleton]%elem_of_app; [by apply Hnew|by subst c].
Qed.

(** Dropping entries from the end. *)
Lemma pop_back_entries base w tr bs bs' es s r : entries_ok base w tr bs es s ->
  take (length es - r) es `sublist_of` bs' ->
  exists s', pop_back r s = Ok s' /\ entries_ok base w true bs' (take (length es - r) es) s' /\
    batch_timestamps_are_monotonic s' = batch_timestamps_are_monotonic s.
Proof.
  intros H Hsub. destruct (entries_length _ _ _ _ _ _ H) as [Hn Hnt].
  destruct (eo_columns _ _ _ _ _ _ H) as (_ & Hnp & Hnd). rewrite Hn in *.
  unfold pop_back. set (c := pop_columns r (ix_index s)).
  assert (Hc : columns_size c = Ok (length es - r)%nat).
  { unfold columns_size, c, pop_columns. cbn. rewrite !length_take, Hn, Hnt, Hnp.
    replace ((length es - r) `min` length es)%nat with (length es - r)%nat by lia. by rewrite Nat.eqb_refl. }
  rewrite Hc. cbn [mbind res_bind]. eexists. split; [reflexivity|]. split; [|done].
  constructor; cbn; rewrite ?Hn, ?Hnt, ?Hnp; eauto using eo_base, eo_with, eo_base_time; try done.
  - unfold columns_ok. cbn. rewrite !length_take, Hn, Hnt, Hnp. split_and!; [done..|].
    destruct (Nat.eqb_spec (length es - r) 0); [done|]. intros ?%Hnd. lia.
  - by rewrite (eo_offsets _ _ _ _ _ _ H), fmap_take.
  - by rewrite (eo_positions _ _ _ _ _ _ H), fmap_take.
  - intros i e [Hie Hlt]%lookup_take_Some. rewrite lookup_take_lt by done. exact (eo_times _ _ _ _ _ _ H _ _ Hie).
  - intros e He%elem_of_take. exact (eo_range _ _ _ _ _ _ H e ltac:(destruct He as (? & ? & _); by eapply list_elem_of_lookup_2)).
Qed.

Lemma StronglySorted_sublist {A} (R : A -> A -> Prop) l k : l `sublist_of` k -> StronglySorted R k -> StronglySorted R l.
Proof.
  induction 1 as [|x l k Hlk IH|x l k Hlk IH]; intros Hs; [constructor| |]; inversion Hs; subst; [|by apply IH].
  constructor; [by apply IH|]. rewrite Forall_forall in *. eauto using elem_of_sublist.
Qed.

(** A segment's batches ascend, and none is empty. *)
Definition ascending (bs : list placed) : Prop :=
  StronglySorted before bs /\ forall b, b ∈ bs -> base_offset b.1 <= last_offset b.1.

Lemma ascending_sublist es bs : es `sublist_of` bs -> ascending bs -> ascending es.
Proof.
  intros Hsub [Hs Hle]. split; [by eapply StronglySorted_sublist|]. intros b Hb. apply Hle.
  by eapply elem_of_sublist.
Qed.

Lemma segment_ascending base w tr bs x : segment_ok base w tr bs x -> ascending bs.
Proof. intros H. split; [apply (so_sorted _ _ _ _ _ H)|]. intros b Hb. by apply (so_batches _ _ _ _ _ H). Qed.

Lemma offsets_sorted base es : ascending es -> StronglySorted Z.le ((fun e : placed => base_offset e.1 - base) <$> es).
Proof.
  intros [Hs Hle]. induction Hs as [|e es Hs IH He]; [constructor|]. cbn. constructor.
  - apply IH. intros b Hb. apply Hle. by right.
  - apply Forall_fmap, Forall_forall. intros b Hb. cbn. specialize (Hle e ltac:(by left)).
    destruct (proj1 (Forall_forall _ _) He b Hb) as [? _]. lia.
Qed.

(** Entries that start at or before the end of a kept batch belong to the kept batches. *)
Lemma kept_batches_hold kept a gone es k : ascending ((kept ++ [a]) ++ gone) -> es `sublist_of` (kept ++ [a]) ++ gone ->
  (forall e, e ∈ take k es -> base_offset e.1 <= last_offset a.1) -> take k es `sublist_of` kept ++ [a].
Proof.
  intros [Hs _] (e1 & e2 & -> & H1 & H2)%sublist_app_r Hk.
  destruct (decide (k <= length e1)%nat) as [Hle|Hgt].
  - rewrite take_app_le by done. etrans; [apply sublist_take|done].
  - destruct e2 as [|e e2]; [rewrite app_nil_r in *; etrans; [apply sublist_take|done]|]. exfalso.
    assert (He : base_offset e.1 <= last_offset a.1).
    { apply Hk. rewrite take_app_ge by lia. apply elem_of_app. right.
      replace (k - length e1)%nat with (S (k - length e1 - 1)) by lia. by left. }
    assert (before a e) as [? _]; [|lia].
    eapply StronglySorted_app_1_elem_of; [exact Hs|..].
    + apply elem_of_app. right. by apply list_elem_of_singleton.
    + eapply elem_of_sublist; [by left|exact H2].
Qed.

(** The number of entries that start before [o]. *)
Lemma offset_lower_bound_split base w tr bs es s delta e j : entries_ok base w tr bs es s -> ascending bs ->
  es !! j = Some e ->
  (base_offset e.1 - base <? delta) = bool_decide (j < default (length es) (offset_lower_bound delta (ix_index s)))%nat.
Proof.
  intros H Hasc Hj. unfold offset_lower_bound. rewrite (eo_offsets _ _ _ _ _ _ H).
  set (l := _ <$> es).
  assert (Hl : l !!! j = base_offset e.1 - base).
  { apply list_lookup_total_correct. unfold l. by rewrite list_lookup_fmap, Hj. }
  assert (Hll : length l = length es) by apply length_fmap.
  rewrite <- Hl, <- Hll. apply (partition_point_sorted (fun x => x <? delta)).
  - apply offsets_sorted. by eapply ascending_sublist; [exact (eo_sublist _ _ _ _ _ _ H)|].
  - intros x y Hxy Hy%Z.ltb_lt. apply Z.ltb_lt. lia.
  - rewrite Hll. by eapply lookup_lt_Some.
Qed.

Lemma entries_widen base w tr bs bs' es s : entries_ok base w tr bs es s -> es `sublist_of` bs' ->
  entries_ok base w true bs' es s.
Proof. intros [] ?. by constructor. Qed.

Lemma entries_bounds base w tr bs es s o t : entries_ok base w tr bs es s ->
  entries_ok base w tr bs es (set_bounds o (ix_base_timestamp s) t s).
Proof. intros []. by constructor. Qed.

(** The first half of [truncate]. *)
Lemma truncate_pops base w tr kept a gone es s :
  entries_ok base w tr ((kept ++ [a]) ++ gone) es s -> ascending ((kept ++ [a]) ++ gone) ->
  base <= last_offset a.1 ->
  exists p s1 es1,
    (if last_offset a.1 - base <=? u32_max then
       n ← index_size s;
       let removed := (n - default n (offset_lower_bound (last_offset a.1 - base) (ix_index s)))%nat in
       if (0 <? removed)%nat then s ← pop_back removed s; Ok (true, s) else Ok (false, s)
     else Ok (false, s)) = Ok (p, s1) /\ entries_ok base w true (kept ++ [a]) es1 s1 /\
    batch_timestamps_are_monotonic s1 = batch_timestamps_are_monotonic s.
Proof.
  intros H Hasc Hb. destruct (entries_length _ _ _ _ _ _ H) as [Hn _].
  pose proof (eo_sublist _ _ _ _ _ _ H) as Hsub.
  destruct (Z.leb_spec (last_offset a.1 - base) u32_max) as [Hle|Hgt].
  - rewrite (index_size_ok s) by exact (eo_columns _ _ _ _ _ _ H). rewrite Hn. cbn [mbind res_bind]. cbv zeta.
    set (k := default (length es) _).
    assert (Hk : take k es `sublist_of` kept ++ [a]).
    { apply (kept_batches_hold _ _ gone); [done..|]. intros e (j & Hj & Hlt)%elem_of_take.
      pose proof (offset_lower_bound_split _ _ _ _ _ _ (last_offset a.1 - base) e j H Hasc Hj) as E.
      fold k in E. rewrite bool_decide_eq_true_2 in E by done. apply Z.ltb_lt in E. lia. }
    case_match eqn:Er; [apply Nat.ltb_lt in Er|apply Nat.ltb_ge in Er].
    + destruct (pop_back_entries _ _ _ _ (kept ++ [a]) es s (length es - k) H) as (s1 & -> & H1 & Hm);
        [by replace (length es - (length es - k))%nat with k by lia|]. by eexists _, _, _.
    + exists false, s, es. split; [done|]. split; [|done]. eapply entries_widen; [exact H|].
      by rewrite take_ge in Hk by lia.
  - exists false, s, es. split; [done|]. split; [|done]. eapply entries_widen; [exact H|].
    rewrite <- (firstn_all es). apply (kept_batches_hold _ _ gone); [done..|]. rewrite firstn_all. intros e He.
    pose proof (eo_range _ _ _ _ _ _ H e He). lia.
Qed.

Lemma truncate_keeps_entries base w tr kept a gone es s ts :
  entries_ok base w tr ((kept ++ [a]) ++ gone) es s -> ascending ((kept ++ [a]) ++ gone) -> base <= last_offset a.1 ->
  exists p s' es', truncate (last_offset a.1) ts s = Ok (p, s') /\ entries_ok base w true (kept ++ [a]) es' s' /\
    batch_timestamps_are_monotonic s' = batch_timestamps_are_monotonic s.
Proof.
  intros H Hasc Hb. destruct (truncate_pops _ _ _ _ _ _ _ _ H Hasc Hb) as (p & s1 & es1 & E & H1 & Hm).
  unfold truncate. rewrite (eo_base _ _ _ _ _ _ H), (proj2 (Z.ltb_ge _ _) Hb). cbv zeta in E |- *. rewrite E. cbn [mbind res_bind].
  rewrite index_empty_ok by exact (eo_columns _ _ _ _ _ _ H1). cbn [mbind res_bind].
  destruct (last_offset a.1 <? ix_max_offset s1); [|by exists p, s1, es1].
  eexists _, _, es1. split; [reflexivity|]. clear E. case_match; (split; [by apply entries_bounds|exact Hm]).
Qed.

Lemma truncate_index_ok base w tr bs x kept h pos gone ts :
  segment_ok base w tr bs x -> bs = (kept ++ [(h, pos)]) ++ gone ->
  exists x', truncate_index (last_offset h) ts x = Ok x' /\ segment_ok base w true (kept ++ [(h, pos)]) x'.
Proof.
  intros Hx ->. pose proof (segment_ascending _ _ _ _ _ Hx) as Hasc. destruct Hx as [Hs Hbs [es H] Hm].
  assert (Hin : (h, pos) ∈ (kept ++ [(h, pos)]) ++ gone) by set_solver.
  destruct (truncate_keeps_entries _ _ _ _ _ _ _ _ ts H Hasc) as (p & s' & es' & E & H' & Em);
    [destruct (Hbs _ Hin); lia|]. cbn in E.
  unfold truncate_index. rewrite E. cbn [mbind res_bind].
  assert (Hok : forall b, segment_ok base w true (kept ++ [(h, pos)])
    {| _step := _step x; _acc := _acc x; _needs_persistence := b;
       _last_batch_max_timestamp := _last_batch_max_timestamp x; _state := s' |}).
  { intros b. constructor; cbn.
    - by eapply StronglySorted_app_1_l.
    - intros c Hc. apply Hbs. set_solver.
    - by exists es'.
    - rewrite Em. intros [Hsm Hlast]%Hm. split; [by eapply StronglySorted_app_1_l|]. intros c Hc. apply Hlast. set_solver. }
  destruct p; [|by eexists]. unfold flush. cbn [_needs_persistence negb].
  cbn [_state]. rewrite index_size_ok by exact (eo_columns _ _ _ _ _ _ H'). cbn. eexists. split; [reflexivity|]. apply Hok.
Qed.

Lemma indexed_ok base w tr bs x : is_s 64 base -> indexed base w tr bs x -> segment_ok base w tr bs x.
Proof.
  intros Hbase. induction 1 as [step broker clean tombstones self control data|tr bs x internal bts h pos x' _ IH Ha E|tr bs x kept h pos gone ts x' _ IH Hb E].
  - constructor; [constructor|set_solver| |split; [constructor|set_solver]].
    exists []. constructor; cbn; try done; [set_solver|by left].
  - destruct (maybe_track_ok _ _ _ _ _ internal bts h pos IH Ha) as (y & Ey & Hy). congruence.
  - destruct (truncate_index_ok _ _ _ _ _ kept h pos gone ts IH Hb) as (y & Ey & Hy). congruence.
Qed.

(** ** Lookups *)

Lemma before_or_at bs a b : StronglySorted before bs -> a ∈ bs -> b ∈ bs -> before b a \/ a.2 <= b.2.
Proof.
  intros Hs [i Hi]%list_elem_of_lookup [j Hj]%list_elem_of_lookup.
  destruct (lt_eq_lt_dec i j) as [[Hij| ->]|Hij].
  - destruct (sorted_lookup _ _ _ _ _ _ Hs Hi Hj Hij). right. lia.
  - rewrite Hi in Hj. injection Hj as ->. right. lia.
  - left. by eapply sorted_lookup.
Qed.

(** What an entry of the index says of the batch [a]. *)
Definition points_to (e : index_entry) (a : placed) : Prop := en_offset e = base_offset a.1 /\ en_filepos e = a.2.

Section Lookup.

Context (base : Z) (w tr : bool) (bs : list placed) (x : segment_index).
Hypothesis Hx : segment_ok base w tr bs x.
Context (es : list placed).
Hypothesis Hes : entries_ok base w tr bs es (_state x).

Lemma entry_in_segment a : a ∈ es -> a ∈ bs.
Proof using Hes. intros Ha. eapply elem_of_sublist; [exact Ha|]. exact (eo_sublist _ _ _ _ _ _ Hes). Qed.

Lemma offset_column i : _relative_offset_index (ix_index (_state x)) !! i = (fun e => base_offset e.1 - base) <$> es !! i.
Proof using Hes. by rewrite (eo_offsets _ _ _ _ _ _ Hes), list_lookup_fmap. Qed.

Lemma position_column i : _position_index (ix_index (_state x)) !! i = snd <$> es !! i.
Proof using Hes. by rewrite (eo_positions _ _ _ _ _ _ Hes), list_lookup_fmap. Qed.

Lemma get_entry_points i a : es !! i = Some a ->
  exists en, (e ← get_entry i (_state x); Ok (Some (translate_index_entry e (_state x)))) = Ok (Some en) /\ points_to en a.
Proof using Hx Hes.
  intros Hi. destruct (entries_length _ _ _ _ _ _ Hes) as [_ Hnt]. unfold get_entry.
  rewrite offset_column, position_column, Hi. cbn.
  destruct (lookup_lt_is_Some_2 (_relative_time_index (ix_index (_state x))) i) as [t ->];
    [rewrite Hnt; by eapply lookup_lt_Some|].
  cbn. eexists. split; [reflexivity|]. split; [|done]. cbn. rewrite (eo_base _ _ _ _ _ _ Hes).
  destruct (so_batches _ _ _ _ _ Hx a) as (_ & _ & Hs); [by apply entry_in_segment; eapply list_elem_of_lookup_2|].
  replace (base_offset a.1 - base + base) with (base_offset a.1) by lia. by apply swrap_id.
Qed.

(** The walk back stops at the last entry up to [i] that starts at or before the needle. *)
Lemma nearest_loop_spec needle i : (i < length es)%nat ->
  exists r, nearest_loop i needle (_state x) = Ok r /\
    match r with
    | None => forall j a, (j <= i)%nat -> es !! j = Some a -> needle < base_offset a.1 - base
    | Some en => exists k a, (k <= i)%nat /\ es !! k = Some a /\ points_to en a /\ base_offset a.1 - base <= needle /\
        forall j b, (k < j <= i)%nat -> es !! j = Some b -> needle < base_offset b.1 - base
    end.
Proof using Hx Hes.
  induction i as [|i IH]; intros Hi; destruct (lookup_lt_is_Some_2 es _ Hi) as [a Ha];
    cbn [nearest_loop]; rewrite offset_column, Ha; cbn [fmap option_fmap option_map deref mbind res_bind];
    (destruct (Z.leb_spec (base_offset a.1 - base) needle) as [Hle|Hgt];
      [destruct (get_entry_points _ _ Ha) as (en & -> & Hp); eexists; split; [reflexivity|];
       eexists _, a; split; [done|]; split; [exact Ha|]; split; [done|]; split; [done|intros; lia]|]).
  - eexists. split; [reflexivity|]. intros j b Hj Hb. replace j with 0%nat in Hb by lia. congruence.
  - destruct IH as (r & -> & Hr); [lia|]. exists r. split; [done|]. destruct r as [en|].
    + destruct Hr as (k & c & Hk & Hc & Hp & Hle & Hmax). exists k, c. split; [lia|]. do 3 (split; [done|]).
      intros j b Hj Hb. destruct (decide (j = S i)) as [->|]; [congruence|]. eapply (Hmax j); [lia|done].
    + intros j b Hj Hb. destruct (decide (j = S i)) as [->|]; [congruence|]. eapply (Hr j); [lia|done].
Qed.

Lemma entries_ascend i j a b : es !! i = Some a -> es !! j = Some b -> (i < j)%nat ->
  base_offset a.1 < base_offset b.1 /\ a.2 < b.2.
Proof using Hx Hes.
  intros Ha Hb Hij. pose proof (segment_ascending _ _ _ _ _ Hx) as Hasc.
  destruct (ascending_sublist _ _ (eo_sublist _ _ _ _ _ _ Hes) Hasc) as [Hs Hle].
  destruct (sorted_lookup _ _ _ _ _ _ Hs Ha Hb Hij). specialize (Hle a ltac:(by eapply list_elem_of_lookup_2)). lia.
Qed.

(** Beyond the start of the walk back there is nothing that starts at or before the needle. *)
Lemma lower_bound_limit needle j b : es !! j = Some b ->
  (default (length es - 1)%nat (offset_lower_bound needle (ix_index (_state x))) < j)%nat -> needle < base_offset b.1 - base.
Proof using Hx Hes.
  intros Hb Hlt. pose proof (lookup_lt_Some _ _ _ Hb) as Hj. unfold offset_lower_bound in *.
  destruct (partition_point _ _) as [i|] eqn:E; cbn in Hlt; [|lia].
  apply partition_point_Some in E as (Hi & Hf%Z.ltb_ge & _). destruct (entries_length _ _ _ _ _ _ Hes) as [Hn _]. rewrite Hn in Hi.
  destruct (lookup_lt_is_Some_2 es i Hi) as [a Ha].
  rewrite (list_lookup_total_correct _ i (base_offset a.1 - base)) in Hf by (by rewrite offset_column, Ha).
  destruct (entries_ascend i j a b Ha Hb Hlt). lia.
Qed.

Lemma walk_back_spec needle : es <> [] ->
  exists r, nearest_loop (default (length es - 1)%nat (offset_lower_bound needle (ix_index (_state x)))) needle (_state x) = Ok r /\
    match r with
    | None => forall a, a ∈ es -> needle < base_offset a.1 - base
    | Some en => exists a, a ∈ es /\ points_to en a /\ base_offset a.1 - base <= needle /\
        forall b, b ∈ es -> base_offset b.1 - base <= needle -> b.2 <= a.2
    end.
Proof using Hx Hes.
  intros Hne. pose proof (lower_bound_limit needle) as Hlim. set (i := default _ _) in *.
  assert (Hi : (i < length es)%nat).
  { destruct (entries_length _ _ _ _ _ _ Hes) as [Hn _]. unfold i, offset_lower_bound. destruct es; [done|].
    destruct (partition_point _ _) eqn:E; cbn in *; [|lia]. apply partition_point_Some in E as [E _]. lia. }
  destruct (nearest_loop_spec needle i Hi) as (r & -> & Hr). exists r. split; [done|]. destruct r as [en|].
  - destruct Hr as (k & a & Hk & Ha & Hp & Hle & Hmax). exists a. split; [by eapply list_elem_of_lookup_2|].
    do 2 (split; [done|]). intros b [j Hj]%list_elem_of_lookup Hb.
    destruct (lt_eq_lt_dec j k) as [[Hjk| ->]|Hkj].
    + destruct (entries_ascend j k b a Hj Ha Hjk). lia.
    + rewrite Ha in Hj. injection Hj as ->. lia.
    + exfalso. destruct (decide (j <= i)%nat); [specialize (Hmax j b ltac:(lia) Hj); lia|].
      specialize (Hlim j b Hj ltac:(lia)). lia.
  - intros a [j Hj]%list_elem_of_lookup. destruct (decide (j <= i)%nat); [by eapply Hr|].
    apply (Hlim j a Hj). lia.
Qed.

(** An entry that starts at or before the offset leads to no later position than any batch with it. *)
Lemma early_entry_is_safe a b o : a ∈ es -> b ∈ bs -> base_offset a.1 <= o -> o <= last_offset b.1 -> a.2 <= b.2.
Proof using Hx Hes.
  intros Ha%entry_in_segment Hb Hao Hbo.
  destruct (before_or_at bs a b (so_sorted _ _ _ _ _ Hx) Ha Hb) as [[? _]|]; lia.
Qed.

(** The entry of the first batch is safe for any use. *)
Lemma first_entry_is_safe a b : tr = false -> head es = Some a -> b ∈ bs -> a.2 <= b.2.
Proof using Hx Hes.
  intros Htr Ha [j Hj]%list_elem_of_lookup. destruct (eo_first _ _ _ _ _ _ Hes Htr) as [E|[-> _]]; [|done].
  assert (Hbs0 : bs !! 0%nat = Some a) by (rewrite Ha in E; by destruct bs; simpl in *).
  destruct j; [rewrite Hbs0 in Hj; injection Hj as ->; lia|].
  destruct (sorted_lookup _ _ 0 (S j) _ _ (so_sorted _ _ _ _ _ Hx) Hbs0 Hj); lia.
Qed.

End Lookup.

(** An offset index in which 32 bits suffice for the segment. *)
Definition narrow (base o : Z) (s : index_state) : Prop := o - base <= u32_max /\ ix_max_offset s - base <= u32_max.

(** C27: Looking up an offset never leads a reader past it: however the segment was filled and
    truncated, [find_nearest_offset] returns the place of a batch of the segment, and no batch
    that holds the offset or a later one lies before that place.  In a narrow segment it is
    the last entry that starts at or before the offset, and none is returned only if there is no
    such entry.  (A segment that was truncated and spans more than 32 bits is excepted.) *)
Theorem index_never_skips base w tr bs x o : is_s 64 base -> indexed base w tr bs x ->
  tr = false \/ ix_max_offset (_state x) - base <= u32_max ->
  exists r, find_nearest_offset o (_state x) = Ok r /\
    match r with
    | Some en =>
        exists a, a ∈ bs /\ points_to en a /\ (forall b, b ∈ bs -> o <= last_offset b.1 -> en_filepos en <= b.2) /\
          (narrow base o (_state x) -> base_offset a.1 <= o /\
             forall i r p, _relative_offset_index (ix_index (_state x)) !! i = Some r -> r <= o - base ->
               _position_index (ix_index (_state x)) !! i = Some p -> p <= en_filepos en)
    | None => forall i r, _relative_offset_index (ix_index (_state x)) !! i = Some r -> o - base < r
    end.
Proof.
  intros Hbase Hix Hwide. pose proof (indexed_ok _ _ _ _ _ Hbase Hix) as Hx. destruct (so_entries _ _ _ _ _ Hx) as [es Hes].
  pose proof (entries_length _ _ _ _ _ _ Hes) as [Hn _].
  unfold find_nearest_offset. rewrite (eo_base _ _ _ _ _ _ Hes).
  destruct (Z.ltb_spec o base) as [Ho|Ho].
  { eexists. split; [reflexivity|]. intros i r Hi. rewrite (offset_column _ _ _ _ _ _ Hes) in Hi.
    destruct (es !! i) as [a|] eqn:Ea; [|done]. injection Hi as <-.
    pose proof (eo_range _ _ _ _ _ _ Hes a ltac:(by eapply list_elem_of_lookup_2)). lia. }
  rewrite index_size_ok by exact (eo_columns _ _ _ _ _ _ Hes). rewrite Hn. cbn [mbind res_bind].
  destruct es as [|e0 es]; [eexists; split; [reflexivity|]; intros i r Hi; by rewrite (offset_column _ _ _ _ _ _ Hes) in Hi|].
  cbn [length Nat.eqb].
  destruct ((u32_max <? o - base) || (u32_max <? ix_max_offset (_state x) - base)) eqn:Ew.
  - destruct (get_entry_points _ _ _ _ _ Hx _ Hes 0 e0 eq_refl) as (en & -> & Hp). exists (Some en). split; [done|].
    exists e0. split; [by eapply entry_in_segment; [|left]|]. split; [done|].
    apply orb_prop in Ew. rewrite !Z.ltb_lt in Ew. split; [|unfold narrow; lia].
    destruct Hp as [_ ->]. intros b Hb Hob. pose proof (eo_range _ _ _ _ _ _ Hes e0 ltac:(by left)).
    destruct (decide (u32_max < o - base)).
    + eapply early_entry_is_safe; [done..|by left|done| |done]. lia.
    + eapply first_entry_is_safe; [done..| | |done]; [destruct Hwide; [done|lia]|done].
  - destruct (walk_back_spec _ _ _ _ _ Hx _ Hes (o - base)) as (r & Er & Hr); [done|]. cbn [length] in Er.
    rewrite Er. exists r. split; [done|]. destruct r as [en|].
    + destruct Hr as (a & Ha & [Hpo Hpf] & Hle & Hmax). exists a. split; [by eapply entry_in_segment|]. split; [done|].
      rewrite Hpf. split; [intros b Hb Hob; eapply early_entry_is_safe; [done..|]; lia|]. intros _. split; [lia|].
      intros i r p. rewrite (offset_column _ _ _ _ _ _ Hes), (position_column _ _ _ _ _ _ Hes).
      destruct ((e0 :: es) !! i) as [b|] eqn:Eb; [|done]. intros [= <-] Hb [= <-].
      apply Hmax; [by eapply list_elem_of_lookup_2|done].
    + intros i r Hi. rewrite (offset_column _ _ _ _ _ _ Hes) in Hi.
      destruct ((e0 :: es) !! i) as [b|] eqn:Eb; [|done]. injection Hi as <-. apply Hr. by eapply list_elem_of_lookup_2.
Qed.

(** ** Time queries *)

Lemma make_monotone w a b : a <= b -> offset_time_index.make w a <= offset_time_index.make w b.
Proof.
  intros Hab. unfold offset_time_index.make, offset_time_index.clamp, offset_time_index.delta_time_min,
    offset_time_index.delta_time_max, offset_time_index.offset, u32_max.
  destruct w; repeat case_match; rewrite !uwrap_id by ranges; ranges.
Qed.

(** Differences to the first time come back as they were, up to 2^31; those below zero, which the
    shift is there for, come back 2^32 too large. *)
Lemma shifted_time_value d : - 2 ^ 31 <= d < 2 ^ 31 ->
  offset_time_index.value true (offset_time_index.make true d) = if d <? 0 then d + 2 ^ 32 else d.
Proof.
  intros Hd. unfold offset_time_index.value, offset_time_index.make, offset_time_index.clamp, offset_time_index.delta_time_min,
    offset_time_index.delta_time_max, offset_time_index.offset.
  rewrite (proj2 (Z.ltb_ge _ _)), (proj2 (Z.ltb_ge _ _)) by ranges. rewrite (uwrap_id 32 (d + _)) by ranges.
  rewrite (uwrap_id 32 (2 ^ 31)) by ranges. destruct (Z.ltb_spec d 0).
  - rewrite uwrap_neg by ranges. ranges.
  - rewrite uwrap_id by ranges. lia.
Qed.

(** An entry after the first that is earlier than the time sought lies before every batch of that time. *)
Lemma late_entry_is_safe base w tr bs x es i a b t raw : segment_ok base w tr bs x ->
  entries_ok base w tr bs es (_state x) -> batch_timestamps_are_monotonic (_state x) = true ->
  es !! S i = Some a -> _relative_time_index (ix_index (_state x)) !! S i = Some raw ->
  raw < offset_time_index.make w (t - ix_base_timestamp (_state x)) ->
  b ∈ bs -> t <= max_timestamp b.1 -> a.2 <= b.2.
Proof.
  intros Hx Hes Hm Ha Hraw Hlt Hb Ht. rewrite (eo_times _ _ _ _ _ _ Hes _ _ Ha) in Hraw. injection Hraw as <-.
  assert (Hat : batch_time a < t).
  { destruct (Z.lt_ge_cases (batch_time a) t) as [|Hge]; [done|]. exfalso.
    pose proof (make_monotone w (t - ix_base_timestamp (_state x)) (batch_time a - ix_base_timestamp (_state x)) ltac:(lia)). lia. }
  destruct (so_monotonic _ _ _ _ _ Hx Hm) as [Hsm _].
  pose proof (entry_in_segment _ _ _ _ _ _ Hes a ltac:(by eapply list_elem_of_lookup_2)) as Hain.
  apply list_elem_of_lookup in Hain as [j Hj]. apply list_elem_of_lookup in Hb as [k Hk].
  destruct (lt_eq_lt_dec j k) as [[Hjk| ->]|Hkj].
  - destruct (sorted_lookup _ _ _ _ _ _ (so_sorted _ _ _ _ _ Hx) Hj Hk Hjk). lia.
  - rewrite Hj in Hk. injection Hk as ->. lia.
  - exfalso. pose proof (sorted_lookup _ _ _ _ _ _ Hsm Hk Hj Hkj) as Hba. cbn in Hba. unfold batch_time in *. lia.
Qed.

(** C28: Looking up a time in a segment that was not truncated, whose batches the index marks as
    monotonic, returns the place of a batch of the segment, and no batch whose maximum
    timestamp reaches the time lies before that place.  This is so although
    the column of times that the search runs on need not be in order. *)
Theorem timequery_never_skips base w bs x t : is_s 64 base -> indexed base w false bs x ->
  batch_timestamps_are_monotonic (_state x) = true -> is_s 62 t ->
  exists r, find_nearest_time t (_state x) = Ok r /\
    forall en, r = Some en -> exists a, a ∈ bs /\ points_to en a /\
      forall b, b ∈ bs -> t <= max_timestamp b.1 -> en_filepos en <= b.2.
Proof.
  intros Hbase Hix Hm Ht. pose proof (indexed_ok _ _ _ _ _ Hbase Hix) as Hx. destruct (so_entries _ _ _ _ _ Hx) as [es Hes].
  destruct (entries_length _ _ _ _ _ _ Hes) as [Hn Hnt].
  unfold find_nearest_time. case_match; [by eexists|].
  rewrite index_empty_ok by exact (eo_columns _ _ _ _ _ _ Hes). rewrite Hn. cbn [mbind res_bind].
  destruct (Nat.eqb_spec (length es) 0) as [|Hne]; [by eexists|].
  unfold find_entry, time_lower_bound. rewrite (eo_with _ _ _ _ _ _ Hes).
  rewrite swrap_id by (pose proof (eo_base_time _ _ _ _ _ _ Hes); ranges).
  destruct (partition_point _ _) as [i|] eqn:E; [|by eexists]. apply partition_point_Some in E as (Hi & _ & Hlt).
  rewrite Hnt in Hi. destruct (lookup_lt_is_Some_2 es (i - 1)) as [a Ha]; [lia|].
  destruct (get_entry_points _ _ _ _ _ Hx _ Hes _ _ Ha) as (en & Een & [Hpo Hpf]).
  destruct (get_entry (i - 1) (_state x)) as [e| |]; [|done..]. cbn in Een |- *. injection Een as Een.
  eexists. split; [reflexivity|]. intros en' [= <-]. rewrite Een. exists a.
  split; [eapply entry_in_segment; [done|by eapply list_elem_of_lookup_2]|]. split; [done|]. rewrite Hpf. intros b Hb Hbt.
  destruct (decide (i <= 1)%nat).
  - replace (i - 1)%nat with 0%nat in Ha by lia. eapply (first_entry_is_safe base w false bs x Hx es Hes); [done|by destruct es|done].
  - destruct Hlt as [|Hlt%Z.ltb_lt]; [lia|]. replace (i - 1)%nat with (S (i - 2)) in * by lia.
    destruct (lookup_lt_is_Some_2 (_relative_time_index (ix_index (_state x))) (S (i - 2))) as [raw Hraw]; [lia|].
    rewrite (list_lookup_total_correct _ _ _ Hraw) in Hlt. by eapply late_entry_is_safe.
Qed.

(** ** Examples *)

Definition example_placed (base delta first_ts max_ts pos : Z) : placed :=
  ({| header_crc := 0; b_size_bytes := 80; base_offset := base; type := raft_data; crc := 0;
      attrs := 0; last_offset_delta := delta; first_timestamp := first_ts; max_timestamp := max_ts;
      producer_id := 7; producer_epoch := 0; base_sequence := 0; record_count := delta + 1;
      ctx_term := 1; ctx_owner_shard := None |}, pos).

Definition example_index : segment_index := make_segment_index 0 10 true None None true None true true.

Definition example_track (x : segment_index) (a : placed) : segment_index :=
  match maybe_track false a.1 None a.2 x with Ok x => x | _ => x end.

Definition example_segment : list placed :=
  [example_placed 10 0 100 100 0; example_placed 11 3 100 150 80; example_placed 15 1 160 190 160].

(** The first batch, then a truncation that keeps just it, then another second batch. *)
Definition example_truncated : segment_index :=
  match truncate_index 10 100 (foldl example_track example_index (take 2 example_segment)) with
  | Ok x => x
  | _ => example_index
  end.
Definition example_rewritten : list placed := [example_placed 10 0 100 100 0; example_placed 11 3 50 200 80].

Ltac appends := do 5 (split; [concrete|]); intros b Hb; repeat (apply elem_of_cons in Hb as [->|Hb]; [concrete|]); by apply elem_of_nil in Hb.

Lemma example_indexed k : (k <= 3)%nat ->
  indexed 10 true false (take k example_segment) (foldl example_track example_index (take k example_segment)).
Proof.
  assert (H0 : indexed 10 true false [] example_index) by constructor.
  assert (H1 := fun Ha E => indexed_track 10 true false [] _ false None (example_placed 10 0 100 100 0).1 0
    (foldl example_track example_index (take 1 example_segment)) H0 Ha E).
  specialize (H1 ltac:(appends) ltac:(vm_compute; reflexivity)). simpl app in H1.
  assert (H2 := fun Ha E => indexed_track 10 true false _ _ false None (example_placed 11 3 100 150 80).1 80
    (foldl example_track example_index (take 2 example_segment)) H1 Ha E).
  specialize (H2 ltac:(appends) ltac:(vm_compute; reflexivity)). simpl app in H2.
  assert (H3 := fun Ha E => indexed_track 10 true false _ _ false None (example_placed 15 1 160 190 160).1 160
    (foldl example_track example_index (take 3 example_segment)) H2 Ha E).
  specialize (H3 ltac:(appends) ltac:(vm_compute; reflexivity)).
  intros Hk. destruct k as [|[|[|[|]]]]; [done..|lia].
Qed.

Lemma index_never_skips_witness :
  exists r, find_nearest_offset 12 (_state (foldl example_track example_index example_segment)) = Ok r /\
    option_map en_filepos r = Some 80.
Proof.
  destruct (index_never_skips 10 true false example_segment _ 12 ltac:(concrete) (example_indexed 3 ltac:(lia)))
    as (r & Hr & _); [by left|].
  exists r. split; [exact Hr|]. vm_compute in Hr. injection Hr as <-. reflexivity.
Defined.

Lemma timequery_never_skips_witness :
  exists r, find_nearest_time 160 (_state (foldl example_track example_index example_segment)) = Ok r /\
    option_map en_filepos r = Some 80.
Proof.
  destruct (timequery_never_skips 10 true example_segment _ 160 ltac:(concrete) (example_indexed 3 ltac:(lia)))
    as (r & Hr & _); [vm_compute; reflexivity|concrete|].
  exists r. split; [exact Hr|]. vm_compute in Hr. injection Hr as <-. reflexivity.
Defined.

(** A truncation drops the entry of the batch that it keeps if that batch is one record long;
    the next batch then becomes the first entry, and a time query that it answers misses the
    batch before it. *)
Theorem truncation_hides_kept_batch : exists en b,
  indexed 10 true true example_rewritten (example_track example_truncated (example_placed 11 3 50 200 80)) /\
  batch_timestamps_are_monotonic (_state (example_track example_truncated (example_placed 11 3 50 200 80))) = true /\
  find_nearest_time 80 (_state (example_track example_truncated (example_placed 11 3 50 200 80))) = Ok (Some en) /\
  b ∈ example_rewritten /\ 80 <= max_timestamp b.1 /\ b.2 < en_filepos en.
Proof.
  assert (H := fun E => indexed_truncate 10 true false (take 2 example_segment) _ [] (example_placed 10 0 100 100 0).1 0
    [example_placed 11 3 100 150 80] 100 example_truncated (example_indexed 2 ltac:(lia)) eq_refl E).
  specialize (H ltac:(vm_compute; reflexivity)). simpl app in H.
  eexists _, (example_placed 10 0 100 100 0). split.
  - apply (indexed_track 10 true true _ _ false None (example_placed 11 3 50 200 80).1 80 _ H); [appends|vm_compute; reflexivity].
  - split; [vm_compute; reflexivity|]. split; [vm_compute; reflexivity|]. split; [left|]. split; concrete.
Qed.
