(* ===== verification/GroupOffsets.v ===== *)
(** * Committed offsets of a consumer group (kafka/server/group.{h,cc}, group_stm.cc, group_recovery_consumer.cc)

    The coordinator of a group keeps the offsets its consumers have committed in memory and
    writes every commit to the group's partition of the log.  Operations that replicate are
    cut where they wait: the part before gives the records to replicate, the part after
    takes the result.  After a failover the log is read back ([recovery_consumer]) and the
    group is rebuilt from it ([do_recover_group]).

    Metrics, timers and the step-down of raft after an error are left out; the decoding of
    records is that of the values they hold. *)

From S2P Require Import Prelude Errors.

Abbreviation topic_partition := (string * Z)%type.

Inductive group_state := empty | preparing_rebalance | completing_rebalance | stable | dead.

#[global] Instance group_state_eq_dec : EqDecision group_state.
Proof. solve_decision. Defined.

Record offset_metadata := {
  md_log_offset : Z;
  md_offset : Z;
  md_metadata : string;
  md_leader_epoch : Z;
  md_commit_timestamp : Z;
  md_expiry_timestamp : option Z;
  md_non_reclaimable : bool;
}.

Record partition_offset := {
  po_tp : topic_partition;
  po_offset : Z;
  po_leader_epoch : Z;
  po_metadata : option string;
}.

Record pending_tx_offset := { pt_offset_metadata : partition_offset; pt_log_offset : Z }.

Record ongoing_transaction := {
  tx_seq : Z;
  tx_coordinator_partition : Z;
  tx_timeout : Z;
  tx_begin_offset : Z;
  tx_offsets : gmap topic_partition pending_tx_offset;
}.

Record tx_producer := { tp_epoch : Z; tp_transaction : option ongoing_transaction }.

(** The members of [group] that concern offsets. *)
Record group := {
  g_state : group_state;
  g_state_timestamp : option Z;
  g_generation : Z;
  g_protocol_type : option string;
  g_subscriptions : option (gset string);
  g_members : gset string;
  g_static_members : gmap string string;
  g_offsets : gmap topic_partition offset_metadata;
  g_pending_offset_commits : gmap topic_partition offset_metadata;
  g_producers : gmap Z tx_producer;
  g_term : Z;
}.

Definition with_group_state (s : group_state) (t : option Z) (g : group) : group :=
  {| g_state := s; g_state_timestamp := t; g_generation := g_generation g; g_protocol_type := g_protocol_type g;
     g_subscriptions := g_subscriptions g; g_members := g_members g; g_static_members := g_static_members g;
     g_offsets := g_offsets g; g_pending_offset_commits := g_pending_offset_commits g; g_producers := g_producers g;
     g_term := g_term g |}.

Definition with_offsets (os ps : gmap topic_partition offset_metadata) (g : group) : group :=
  {| g_state := g_state g; g_state_timestamp := g_state_timestamp g; g_generation := g_generation g;
     g_protocol_type := g_protocol_type g; g_subscriptions := g_subscriptions g; g_members := g_members g;
     g_static_members := g_static_members g; g_offsets := os; g_pending_offset_commits := ps;
     g_producers := g_producers g; g_term := g_term g |}.

Definition with_producers (ps : gmap Z tx_producer) (term : Z) (g : group) : group :=
  {| g_state := g_state g; g_state_timestamp := g_state_timestamp g; g_generation := g_generation g;
     g_protocol_type := g_protocol_type g; g_subscriptions := g_subscriptions g; g_members := g_members g;
     g_static_members := g_static_members g; g_offsets := g_offsets g;
     g_pending_offset_commits := g_pending_offset_commits g; g_producers := ps; g_term := term |}.

Definition in_group_state (s : group_state) (g : group) : bool := bool_decide (g_state g = s).

(** [valid_previous_state] and [set_state]; the metrics that it sets up are left out. *)
Definition valid_previous_state (s : group_state) (g : group) : bool :=
  match s with
  | empty | completing_rebalance => in_group_state preparing_rebalance g
  | preparing_rebalance => in_group_state empty g || in_group_state stable g || in_group_state completing_rebalance g
  | stable => in_group_state completing_rebalance g
  | dead => true
  end.

Definition set_group_state (now : Z) (s : group_state) (g : group) : res group :=
  _ ← vassert (valid_previous_state s g); Ok (with_group_state s (Some now) g).

(** ** Offsets in memory *)

Definition try_upsert_offset (tp : topic_partition) (md : offset_metadata) (g : group) : bool * group :=
  let store := with_offsets (<[tp := md]> (g_offsets g)) (g_pending_offset_commits g) g in
  match g_offsets g !! tp with
  | Some o => if md_log_offset o <? md_log_offset md then (true, store) else (false, g)
  | None => (true, store)
  end.

(** The end of [complete_offset_commit] and [fail_offset_commit]: the entry is cleared if it is for this offset. *)
Definition clear_pending (tp : topic_partition) (md p : offset_metadata) (g : group) : group :=
  if md_offset p =? md_offset md then with_offsets (g_offsets g) (delete tp (g_pending_offset_commits g)) g else g.

Definition complete_offset_commit (tp : topic_partition) (md : offset_metadata) (g : group) : group :=
  match g_pending_offset_commits g !! tp with
  | Some p => clear_pending tp md p (try_upsert_offset tp md g).2
  | None => g
  end.

Definition fail_offset_commit (tp : topic_partition) (md : offset_metadata) (g : group) : group :=
  match g_pending_offset_commits g !! tp with
  | Some p => clear_pending tp md p g
  | None => g
  end.

Definition has_transactions_in_progress (g : group) : bool :=
  existsb (fun p => match tp_transaction p.2 with Some _ => true | None => false end) (map_to_list (g_producers g)).

Definition has_pending_transaction (tp : topic_partition) (g : group) : bool :=
  bool_decide (is_Some (g_pending_offset_commits g !! tp))
  || existsb (fun p => match tp_transaction p.2 with
                       | Some tx => bool_decide (is_Some (tx_offsets tx !! tp))
                       | None => false
                       end) (map_to_list (g_producers g)).

Definition has_offsets (g : group) : bool :=
  negb (bool_decide (g_offsets g = ∅)) || negb (bool_decide (g_pending_offset_commits g = ∅))
  || has_transactions_in_progress g.

(** ** Committing *)

Record commit_partition := {
  cp_partition_index : Z;
  cp_committed_offset : Z;
  cp_committed_leader_epoch : Z;
  cp_committed_metadata : option string;
  cp_commit_timestamp : Z;
}.

Record offset_commit_request := {
  oc_generation_id : Z;
  oc_member_id : string;
  oc_group_instance_id : option string;
  oc_retention_time_ms : Z;
  oc_topics : list (string * list commit_partition);
}.

(** A result of raft: the last offset written, or an error. *)
Abbreviation replicated := (Z + std_error_code)%type.

Definition map_store_offset_error_code (ec : std_error_code) : error_code.t :=
  match ec with
  | raft_error raft_errc.success => error_code.none
  | raft_error (raft_errc.timeout | raft_errc.shutting_down) => error_code.request_timed_out
  | raft_error (raft_errc.not_leader | raft_errc.replicated_entry_truncated | raft_errc.invalid_input_records) =>
      error_code.not_coordinator
  | _ => error_code.unknown_server_error
  end.

Definition commit_metadata (now retention : Z) (p : commit_partition) : offset_metadata :=
  {| md_log_offset := int64_min;
     md_offset := cp_committed_offset p;
     md_metadata := default EmptyString (cp_committed_metadata p);
     md_leader_epoch := cp_committed_leader_epoch p;
     md_commit_timestamp := if cp_commit_timestamp p =? -1 then now else cp_commit_timestamp p;
     md_expiry_timestamp := if retention =? -1 then None else Some (s64 (now + retention));
     md_non_reclaimable := false |}.

(** The commits of a request, in its order. *)
Definition offset_commits (now : Z) (r : offset_commit_request) : list (topic_partition * offset_metadata) :=
  t ← oc_topics r;
  (fun p => ((t.1, cp_partition_index p), commit_metadata now (oc_retention_time_ms r) p)) <$> t.2.

Definition add_pending (c : topic_partition * offset_metadata) (g : group) : group :=
  with_offsets (g_offsets g) (<[c.1 := c.2]> (g_pending_offset_commits g)) g.

(** [store_offsets] up to the replication: the commits to replicate, none if the request is empty. *)
Definition store_offsets (now : Z) (r : offset_commit_request) (g : group)
    : group * list (topic_partition * offset_metadata) :=
  let commits := offset_commits now r in
  (fold_left (fun g c => add_pending c g) commits g, commits).

Definition with_log_offset (o : Z) (md : offset_metadata) : offset_metadata :=
  {| md_log_offset := o; md_offset := md_offset md; md_metadata := md_metadata md; md_leader_epoch := md_leader_epoch md;
     md_commit_timestamp := md_commit_timestamp md; md_expiry_timestamp := md_expiry_timestamp md;
     md_non_reclaimable := md_non_reclaimable md |}.

(** The continuation of [store_offsets].  A failure that carries raft's code for success has no value to read. *)
Definition offsets_stored (result : replicated) (commits : list (topic_partition * offset_metadata)) (g : group)
    : res (error_code.t * group) :=
  let error := match result with inl _ => error_code.none | inr e => map_store_offset_error_code e end in
  if in_group_state dead g then Ok (error, g)
  else if bool_decide (error = error_code.none) then
    match result with
    | inl last => Ok (error, fold_left (fun g c => complete_offset_commit c.1 (with_log_offset last c.2) g) commits g)
    | inr _ => Throw runtime_error
    end
  else Ok (error, fold_left (fun g c => fail_offset_commit c.1 c.2 g) commits g).

Definition validate_existing_member (member_id : string) (instance_id : option string) (g : group) : error_code.t :=
  match instance_id with
  | Some i =>
      match g_static_members g !! i with
      | None => error_code.unknown_member_id
      | Some m => if bool_decide (m = member_id) then error_code.none else error_code.fenced_instance_id
      end
  | None => if bool_decide (member_id ∈ g_members g) then error_code.none else error_code.unknown_member_id
  end.

(** What becomes of a request: an answer, or commits to replicate. *)
Inductive commit_outcome :=
  | CommitRespond (e : error_code.t)
  | CommitReplicate (commits : list (topic_partition * offset_metadata)).

Definition start_commit (now : Z) (r : offset_commit_request) (g : group) : group * commit_outcome :=
  let '(g, commits) := store_offsets now r g in
  (g, match commits with [] => CommitRespond error_code.none | _ => CommitReplicate commits end).

Definition handle_offset_commit (now : Z) (r : offset_commit_request) (g : group) : res (group * commit_outcome) :=
  if in_group_state dead g then Ok (g, CommitRespond error_code.coordinator_not_available)
  else if (oc_generation_id r <? 0) && in_group_state empty g then Ok (start_commit now r g)
  else
    let ec := validate_existing_member (oc_member_id r) (oc_group_instance_id r) g in
    if negb (bool_decide (ec = error_code.none)) then Ok (g, CommitRespond ec)
    else if negb (oc_generation_id r =? g_generation g) then Ok (g, CommitRespond error_code.illegal_generation)
    else if in_group_state stable g || in_group_state preparing_rebalance g then
      _ ← throw_if (negb (bool_decide (oc_member_id r ∈ g_members g))) out_of_range;
      Ok (start_commit now r g)
    else if in_group_state completing_rebalance g then Ok (g, CommitRespond error_code.rebalance_in_progress)
    else Throw runtime_error.

(** ** Transactions *)

Definition map_tx_replication_error (ec : std_error_code) : tx_errc.t :=
  match ec with
  | raft_error (raft_errc.shutting_down | raft_errc.timeout) => tx_errc.timeout
  | cluster_error (cluster_errc.shutting_down | cluster_errc.timeout) => tx_errc.timeout
  | _ => tx_errc.not_coordinator
  end.

Definition map_tx_errc (ec : tx_errc.t) : error_code.t :=
  match ec with
  | tx_errc.none => error_code.none
  | tx_errc.leader_not_found | tx_errc.shard_not_found | tx_errc.partition_not_found | tx_errc.stm_not_found
  | tx_errc.partition_not_exists | tx_errc.not_coordinator | tx_errc.stale | tx_errc.producer_creation_error =>
      error_code.not_coordinator
  | tx_errc.coordinator_not_available => error_code.coordinator_not_available
  | tx_errc.pid_not_found => error_code.unknown_producer_id
  | tx_errc.timeout => error_code.request_timed_out
  | tx_errc.conflict => error_code.invalid_txn_state
  | tx_errc.fenced | tx_errc.invalid_producer_epoch => error_code.invalid_producer_epoch
  | tx_errc.invalid_txn_state => error_code.invalid_txn_state
  | tx_errc.tx_id_not_found | tx_errc.tx_not_found => error_code.transactional_id_not_found
  | tx_errc.invalid_producer_id_mapping => error_code.invalid_producer_id_mapping
  | tx_errc.partition_disabled => error_code.replica_not_available
  | tx_errc.concurrent_transactions => error_code.concurrent_transactions
  | tx_errc.preparing_rebalance | tx_errc.rebalance_in_progress => error_code.rebalance_in_progress
  | tx_errc.coordinator_load_in_progress => error_code.coordinator_load_in_progress
  | tx_errc.request_rejected | tx_errc.unknown_server_error => error_code.unknown_server_error
  | tx_errc.invalid_timeout => error_code.invalid_transaction_timeout
  | tx_errc.partition_writes_locked => error_code.policy_violation
  end.

(** A producer is a pair of its id and epoch.  A part of an operation ends it with an answer or
    goes on to replicate. *)
Inductive tx_outcome (A : Type) := TxReply (e : tx_errc.t) | TxReplicate (a : A).
Arguments TxReply {_} _.
Arguments TxReplicate {_} _.

Record begin_tx_request := { bt_pid : Z * Z; bt_tx_seq : Z; bt_tm_partition : Z; bt_timeout : Z }.

(** What [begin_tx] does next: answer, have the producer's older transaction ended, or write a fence. *)
Inductive begin_outcome := BeginReply (e : tx_errc.t) | BeginAbortOld (pid : Z * Z) | BeginFence.

(** The checks of [begin_tx] on a transaction that is already there. *)
Definition begin_tx_ongoing (r : begin_tx_request) (p : tx_producer) : begin_outcome :=
  match tp_transaction p with
  | Some tx =>
      if negb (bt_tx_seq r =? tx_seq tx) then BeginReply tx_errc.unknown_server_error
      else if negb (bool_decide (tx_offsets tx = ∅)) then BeginReply tx_errc.unknown_server_error
      else BeginReply tx_errc.none
  | None => BeginFence
  end.

Definition begin_tx_start (partition_term : Z) (r : begin_tx_request) (g : group) : begin_outcome :=
  if negb (partition_term =? g_term g) then BeginReply tx_errc.stale
  else match g_producers g !! (bt_pid r).1 with
       | Some p =>
           if (bt_pid r).2 <? tp_epoch p then BeginReply tx_errc.fenced
           else if tp_epoch p <? (bt_pid r).2 then BeginAbortOld ((bt_pid r).1, tp_epoch p)
           else begin_tx_ongoing r p
       | None => BeginFence
       end.

(** Once the older transaction was ended; the reference to the producer is still held. *)
Definition begin_tx_resume (ended : tx_errc.t) (r : begin_tx_request) (g : group) : res begin_outcome :=
  if negb (bool_decide (ended = tx_errc.none)) then Ok (BeginReply tx_errc.stale)
  else p ← deref (g_producers g !! (bt_pid r).1); Ok (begin_tx_ongoing r p).

Definition begin_tx_fenced (result : replicated) (r : begin_tx_request) (g : group) : tx_errc.t * group :=
  match result with
  | inr e => (map_tx_replication_error e, g)
  | inl last =>
      (tx_errc.none,
       with_producers
         (<[(bt_pid r).1 := {| tp_epoch := (bt_pid r).2;
                               tp_transaction := Some {| tx_seq := bt_tx_seq r; tx_coordinator_partition := bt_tm_partition r;
                                                         tx_timeout := bt_timeout r; tx_begin_offset := last;
                                                         tx_offsets := ∅ |} |}]> (g_producers g)) (g_term g) g)
  end.

Record txn_offset_commit_request := {
  to_producer : Z * Z;
  to_member_id : string;
  to_generation_id : Z;
  to_group_instance_id : option string;
  to_topics : list (string * list commit_partition);
}.

Definition txn_offsets (r : txn_offset_commit_request) : list partition_offset :=
  t ← to_topics r;
  (fun p => {| po_tp := (t.1, cp_partition_index p); po_offset := cp_committed_offset p;
               po_leader_epoch := cp_committed_leader_epoch p; po_metadata := cp_committed_metadata p |}) <$> t.2.

Definition store_txn_offsets (partition_term : Z) (r : txn_offset_commit_request) (g : group)
    : error_code.t + list partition_offset :=
  if negb (partition_term =? g_term g) then inl error_code.unknown_server_error
  else match g_producers g !! (to_producer r).1 with
       | None => inl error_code.invalid_producer_epoch
       | Some p =>
           if negb ((to_producer r).2 =? tp_epoch p) then inl error_code.invalid_producer_epoch
           else match tp_transaction p with
                | None => inl error_code.invalid_producer_epoch
                | Some _ => inr (txn_offsets r)
                end
       end.

Definition set_transaction_of (id : Z) (p : tx_producer) (tx : option ongoing_transaction) (g : group) : group :=
  with_producers (<[id := {| tp_epoch := tp_epoch p; tp_transaction := tx |}]> (g_producers g)) (g_term g) g.

Definition add_tx_offset (last : Z) (tx : ongoing_transaction) (o : partition_offset) : ongoing_transaction :=
  {| tx_seq := tx_seq tx; tx_coordinator_partition := tx_coordinator_partition tx; tx_timeout := tx_timeout tx;
     tx_begin_offset := tx_begin_offset tx;
     tx_offsets := <[po_tp o := {| pt_offset_metadata := o; pt_log_offset := last |}]> (tx_offsets tx) |}.

Definition txn_offsets_stored (result : replicated) (id : Z) (offsets : list partition_offset) (g : group)
    : error_code.t * group :=
  match result with
  | inr e => (map_tx_errc (map_tx_replication_error e), g)
  | inl last =>
      match g_producers g !! id with
      | Some p =>
          match tp_transaction p with
          | Some tx => (error_code.none, set_transaction_of id p (Some (fold_left (add_tx_offset last) offsets tx)) g)
          | None => (error_code.invalid_producer_epoch, g)
          end
      | None => (error_code.invalid_producer_epoch, g)
      end
  end.

(** The checks that [do_abort] and [do_commit] share. *)
Definition end_tx_start (partition_term : Z) (pid : Z * Z) (sequence : Z) (g : group) : tx_outcome ongoing_transaction :=
  if negb (partition_term =? g_term g) then TxReply tx_errc.stale
  else match g_producers g !! pid.1 with
       | None => TxReply tx_errc.none
       | Some p =>
           match tp_transaction p with
           | None => TxReply tx_errc.none
           | Some tx =>
               if negb (pid.2 =? tp_epoch p) then TxReply tx_errc.request_rejected
               else if sequence <? tx_seq tx then TxReply tx_errc.none
               else if negb (tx_seq tx =? sequence) then TxReply tx_errc.request_rejected
               else TxReplicate tx
           end
       end.

Definition do_abort_start (partition_term : Z) (pid : Z * Z) (sequence : Z) (g : group) : tx_outcome unit :=
  match end_tx_start partition_term pid sequence g with
  | TxReply e => TxReply e
  | TxReplicate _ => TxReplicate tt
  end.

Definition do_abort_finish (result : replicated) (pid : Z * Z) (g : group) : tx_errc.t * group :=
  match result with
  | inr e => (map_tx_replication_error e, g)
  | inl _ => (tx_errc.none, match g_producers g !! pid.1 with
                            | Some p => set_transaction_of pid.1 p None g
                            | None => g
                            end)
  end.

(** The metadata that a commit writes for the offsets of its transaction. *)
Definition tx_commit_metadata (now : Z) (o : pending_tx_offset) : offset_metadata :=
  {| md_log_offset := pt_log_offset o; md_offset := po_offset (pt_offset_metadata o);
     md_metadata := default EmptyString (po_metadata (pt_offset_metadata o));
     md_leader_epoch := po_leader_epoch (pt_offset_metadata o); md_commit_timestamp := now;
     md_expiry_timestamp := None; md_non_reclaimable := false |}.

(** [do_commit] up to the replication of the offsets and the end of the transaction. *)
Definition do_commit_start (partition_term now : Z) (pid : Z * Z) (sequence : Z) (g : group)
    : tx_outcome (list (topic_partition * offset_metadata)) :=
  match end_tx_start partition_term pid sequence g with
  | TxReply e => TxReply e
  | TxReplicate tx => TxReplicate (map_to_list (tx_commit_metadata now <$> tx_offsets tx))
  end.

Definition do_commit_finish (now : Z) (result : replicated) (pid : Z * Z) (g : group) : tx_errc.t * group :=
  match result with
  | inr e => (map_tx_replication_error e, g)
  | inl _ =>
      match g_producers g !! pid.1 with
      | Some p =>
          match tp_transaction p with
          | Some tx =>
              (tx_errc.none,
               set_transaction_of pid.1 p None
                 (fold_left (fun g c => (try_upsert_offset c.1 (tx_commit_metadata now c.2) g).2)
                    (map_to_list (tx_offsets tx)) g))
          | None => (tx_errc.unknown_server_error, g)
          end
      | None => (tx_errc.unknown_server_error, g)
      end
  end.

(** [do_try_abort_old_tx]: what the transaction's coordinator is asked, and what follows from its answer. *)
Record try_abort_request := { ta_tm_partition : Z; ta_pid : Z * Z; ta_tx_seq : Z }.
Record try_abort_reply := { tr_ec : tx_errc.t; tr_commited : bool; tr_aborted : bool }.
Inductive try_abort_outcome := TryDone (e : tx_errc.t) | TryCommit (sequence : Z) | TryAbort (sequence : Z).

Definition do_try_abort_old_tx (pid : Z * Z) (g : group) : option try_abort_request :=
  p ← g_producers g !! pid.1;
  tx ← tp_transaction p;
  Some {| ta_tm_partition := tx_coordinator_partition tx; ta_pid := pid; ta_tx_seq := tx_seq tx |}.

Definition old_tx_answered (request : try_abort_request) (r : try_abort_reply) : try_abort_outcome :=
  if negb (bool_decide (tr_ec r = tx_errc.none)) then TryDone (tr_ec r)
  else if tr_commited r then TryCommit (ta_tx_seq request)
  else if tr_aborted r then TryAbort (ta_tx_seq request)
  else TryDone tx_errc.stale.

(** *** The handlers *)

Definition validate_expected_group (r : txn_offset_commit_request) (g : group) : error_code.t :=
  if match to_group_instance_id r with
     | Some i => match g_static_members g !! i with
                 | Some m => negb (bool_decide (m = to_member_id r))
                 | None => false
                 end
     | None => false
     end then error_code.fenced_instance_id
  else if negb (bool_decide (to_member_id r = EmptyString)) && negb (bool_decide (to_member_id r ∈ g_members g))
  then error_code.unknown_member_id
  else if (0 <=? to_generation_id r) && negb (to_generation_id r =? g_generation g) then error_code.illegal_generation
  else error_code.none.

Definition handle_txn_offset_commit (partition_term : Z) (r : txn_offset_commit_request) (g : group)
    : error_code.t + list partition_offset :=
  if in_group_state dead g then inl error_code.coordinator_not_available
  else if in_group_state empty g || in_group_state stable g || in_group_state preparing_rebalance g then
    let check := validate_expected_group r g in
    if negb (bool_decide (check = error_code.none)) then inl check else store_txn_offsets partition_term r g
  else if in_group_state completing_rebalance g then inl error_code.concurrent_transactions
  else inl error_code.unknown_server_error.

(** The state check of [handle_begin_tx], [handle_commit_tx] and [handle_abort_tx]: none if the request is
    processed. *)
Definition tx_state_error (completing : tx_errc.t) (g : group) : option tx_errc.t :=
  match g_state g with
  | dead => Some tx_errc.coordinator_not_available
  | empty | stable | preparing_rebalance => None
  | completing_rebalance => Some completing
  end.

Definition handle_begin_tx (partition_term : Z) (r : begin_tx_request) (g : group) : begin_outcome :=
  match tx_state_error tx_errc.concurrent_transactions g with
  | Some e => BeginReply e
  | None => begin_tx_start partition_term r g
  end.

Definition handle_abort_tx (partition_term : Z) (pid : Z * Z) (sequence : Z) (g : group) : tx_outcome unit :=
  match tx_state_error tx_errc.concurrent_transactions g with
  | Some e => TxReply e
  | None => do_abort_start partition_term pid sequence g
  end.

Definition handle_commit_tx (partition_term now : Z) (pid : Z * Z) (sequence : Z) (g : group)
    : tx_outcome (list (topic_partition * offset_metadata)) :=
  match tx_state_error tx_errc.rebalance_in_progress g with
  | Some e => TxReply e
  | None => do_commit_start partition_term now pid sequence g
  end.

(** ** Fetching *)

Record fetched_offset := {
  fo_partition_index : Z;
  fo_committed_offset : Z;
  fo_leader_epoch : Z;
  fo_metadata : string;
  fo_error_code : error_code.t;
}.

Definition invalid_leader_epoch : Z := -1.

Definition no_offset_fetched (index : Z) (e : error_code.t) : fetched_offset :=
  {| fo_partition_index := index; fo_committed_offset := -1; fo_leader_epoch := invalid_leader_epoch;
     fo_metadata := EmptyString; fo_error_code := e |}.

Definition found_offset (index : Z) (md : offset_metadata) : fetched_offset :=
  {| fo_partition_index := index; fo_committed_offset := md_offset md; fo_leader_epoch := md_leader_epoch md;
     fo_metadata := md_metadata md; fo_error_code := error_code.none |}.

Definition fetch_offset (require_stable : bool) (tp : topic_partition) (g : group) : fetched_offset :=
  if require_stable && has_pending_transaction tp g then no_offset_fetched tp.2 error_code.unstable_offset_commit
  else match g_offsets g !! tp with
       | Some md => found_offset tp.2 md
       | None => no_offset_fetched tp.2 error_code.none
       end.

(** All offsets, by topic; the order within is that of the hash map. *)
Definition fetch_all_offsets (require_stable : bool) (g : group) : gmap string (list fetched_offset) :=
  fold_left (fun m tp => <[tp.1 := default [] (m !! tp.1) ++ [fetch_offset require_stable tp g]]> m)
    (map_to_list (g_offsets g)).*1 ∅.

(** The answer of a dead group: nothing is committed ([offset_fetch_response::make_group]). *)
Definition fetch_nothing (topics : option (list (string * list Z))) : list (string * list fetched_offset) :=
  match topics with
  | None => []
  | Some ts => map (fun t => (t.1, map (fun id => no_offset_fetched id error_code.none) t.2)) ts
  end.

Definition handle_offset_fetch (require_stable : bool) (topics : option (list (string * list Z))) (g : group)
    : list (string * list fetched_offset) :=
  if in_group_state dead g then fetch_nothing topics
  else match topics with
       | None => map_to_list (fetch_all_offsets require_stable g)
       | Some ts => map (fun t => (t.1, map (fun id => fetch_offset require_stable (t.1, id) g) t.2)) ts
       end.

(** ** Deletion and expiry *)

(** A record of the group's partition: an offset or the group's metadata, without a value if it is deleted. *)
Record offset_metadata_value := {
  v_offset : Z;
  v_leader_epoch : Z;
  v_metadata : string;
  v_commit_timestamp : Z;
  v_expiry_timestamp : Z;
  v_non_reclaimable : bool;
}.

Inductive group_record :=
  | offset_record (group_id : string) (tp : topic_partition) (value : option offset_metadata_value)
  | metadata_record (group_id : string) (alive : bool).

(** The value that [update_store_offset_builder] writes and a reader decodes; [non_reclaimable] is not written. *)
Definition stored_value (md : offset_metadata) : offset_metadata_value :=
  {| v_offset := md_offset md; v_leader_epoch := md_leader_epoch md; v_metadata := md_metadata md;
     v_commit_timestamp := md_commit_timestamp md; v_expiry_timestamp := default (-1) (md_expiry_timestamp md);
     v_non_reclaimable := true |}.

Definition commit_records (id : string) (commits : list (topic_partition * offset_metadata)) : list group_record :=
  (fun c => offset_record id c.1 (Some (stored_value c.2))) <$> commits.

Definition tombstones (id : string) (tps : list topic_partition) : list group_record :=
  (fun tp => offset_record id tp None) <$> tps.

(** [remove]: the records to replicate, whose result is ignored. *)
Definition remove_group (now : Z) (id : string) (g : group) : res (error_code.t * group * list group_record) :=
  match g_state g with
  | dead => Ok (error_code.group_id_not_found, g, [])
  | empty =>
      if has_transactions_in_progress g then Ok (error_code.non_empty_group, g, [])
      else
        g ← set_group_state now dead g;
        Ok (error_code.none, g, tombstones id (map_to_list (g_offsets g)).*1 ++ [metadata_record id false])
  | _ => Ok (error_code.non_empty_group, g, [])
  end.

Definition remove_topic_partitions (now : Z) (id : string) (tps : list topic_partition) (g : group)
    : res (group * list group_record) :=
  let '(g, removed) := fold_left (fun '(g, removed) tp =>
      (with_offsets (delete tp (g_offsets g)) (delete tp (g_pending_offset_commits g)) g,
       if bool_decide (is_Some (g_offsets g !! tp)) then removed ++ [tp] else removed)) tps (g, []) in
  g ← (if in_group_state empty g && bool_decide (g_pending_offset_commits g = ∅) && bool_decide (g_offsets g = ∅)
       then set_group_state now dead g else Ok g);
  Ok (g, match removed with
         | [] => []
         | _ => tombstones id removed
                ++ (if in_group_state dead g && (0 <? g_generation g) then [metadata_record id false] else [])
         end).

(** Whether [filter_expired_offsets] takes an offset; [retain_for] is in milliseconds. *)
Definition is_expired (now retain_for : Z) (subscribed : string -> bool) (effective_expires : offset_metadata -> Z)
    (g : group) (tp : topic_partition) (md : offset_metadata) : bool :=
  negb (md_non_reclaimable md)
  && negb (subscribed tp.1 || bool_decide (is_Some (g_pending_offset_commits g !! tp)))
  && match md_expiry_timestamp md with
     | Some expires => negb (now <? expires)
     | None => negb (s64 (now - effective_expires md) <? retain_for)
     end.

Definition filter_expired_offsets (now retain_for : Z) (subscribed : string -> bool)
    (effective_expires : offset_metadata -> Z) (g : group) : list topic_partition :=
  (List.filter (fun o => is_expired now retain_for subscribed effective_expires g o.1 o.2) (map_to_list (g_offsets g))).*1.

Definition consumer_group_protocol_type : string := "consumer".

Definition get_expired_offsets (now retain_for : Z) (g : group) : list topic_partition :=
  match g_protocol_type g with
  | Some pt =>
      match g_subscriptions g with
      | Some subs =>
          if bool_decide (pt = consumer_group_protocol_type) && in_group_state stable g
          then filter_expired_offsets now retain_for (fun t => bool_decide (t ∈ subs)) md_commit_timestamp g
          else if in_group_state empty g
          then filter_expired_offsets now retain_for (fun _ => false)
                 (fun md => default (md_commit_timestamp md) (g_state_timestamp g)) g
          else []
      | None =>
          if in_group_state empty g
          then filter_expired_offsets now retain_for (fun _ => false)
                 (fun md => default (md_commit_timestamp md) (g_state_timestamp g)) g
          else []
      end
  | None => filter_expired_offsets now retain_for (fun _ => false) md_commit_timestamp g
  end.

(** The end of [delete_expired_offsets] and [delete_offsets]. *)
Definition maybe_mark_dead (now : Z) (g : group) : res group :=
  if in_group_state empty g && negb (has_offsets g) then set_group_state now dead g else Ok g.

Definition delete_expired_offsets (now retain_for : Z) (g : group) : res (group * list topic_partition) :=
  let expired := get_expired_offsets now retain_for g in
  let g := fold_left (fun g tp => with_offsets (delete tp (g_offsets g)) (g_pending_offset_commits g) g) expired g in
  g ← maybe_mark_dead now g; Ok (g, expired).

Definition group_subscribed (topic : string) (g : group) : bool :=
  match g_subscriptions g with
  | None => bool_decide (g_protocol_type g = Some consumer_group_protocol_type)
  | Some subs => bool_decide (topic ∈ subs)
  end.

Definition delete_offsets (now : Z) (tps : list topic_partition) (g : group) : res (group * list topic_partition) :=
  let deleted := List.filter (fun tp => negb (group_subscribed tp.1 g)) tps in
  let g := fold_left (fun g tp =>
    with_offsets (delete tp (g_offsets g)) (delete tp (g_pending_offset_commits g)) g) deleted g in
  g ← maybe_mark_dead now g; Ok (g, deleted).

(** The records that [group_manager::delete_offsets] replicates; [registered] tells whether the group is still
    the one under its id, from where a dead group is removed. *)
Definition deletion_records (registered : bool) (id : string) (tps : list topic_partition) (g : group) : list group_record :=
  tombstones id tps
  ++ (if in_group_state dead g && registered && (0 <? g_generation g) then [metadata_record id false] else []).

(** ** Recovery *)

Module group_stm.

Record ongoing_tx := {
  s_tx_seq : Z;
  s_tm_partition : Z;
  s_timeout : Z;
  s_begin_offset : Z;
  s_tx_offsets : gmap topic_partition offset_metadata;
}.

Record producer := { s_epoch : Z; s_tx : option ongoing_tx }.

(** What is read back of a group: the offsets with the place they were read at.  [_is_removed] is never set. *)
Record t := {
  stm_offsets : gmap topic_partition (Z * offset_metadata_value);
  stm_producers : gmap Z producer;
  stm_is_loaded : bool;
}.

Definition make : t := {| stm_offsets := ∅; stm_producers := ∅; stm_is_loaded := false |}.

Definition set_offsets (m : gmap topic_partition (Z * offset_metadata_value)) (s : t) : t :=
  {| stm_offsets := m; stm_producers := stm_producers s; stm_is_loaded := stm_is_loaded s |}.

Definition set_producer (id : Z) (p : producer) (s : t) : t :=
  {| stm_offsets := stm_offsets s; stm_producers := <[id := p]> (stm_producers s); stm_is_loaded := stm_is_loaded s |}.

(** The metadata itself belongs to the group's members. *)
Definition overwrite_metadata (s : t) : t :=
  {| stm_offsets := stm_offsets s; stm_producers := stm_producers s; stm_is_loaded := true |}.

Definition remove_offset (tp : topic_partition) (s : t) : t := set_offsets (delete tp (stm_offsets s)) s.

Definition update_offset (tp : topic_partition) (offset : Z) (v : offset_metadata_value) (s : t) : t :=
  set_offsets (<[tp := (offset, v)]> (stm_offsets s)) s.

Definition tx_offset_metadata (now offset : Z) (o : partition_offset) : offset_metadata :=
  {| md_log_offset := offset; md_offset := po_offset o; md_metadata := default EmptyString (po_metadata o);
     md_leader_epoch := po_leader_epoch o; md_commit_timestamp := now; md_expiry_timestamp := None;
     md_non_reclaimable := false |}.

(** The transaction that an update, a commit or an abort is for. *)
Definition find_tx (pid : Z * Z) (s : t) : option ongoing_tx :=
  p ← stm_producers s !! pid.1;
  if s_epoch p =? pid.2 then s_tx p else None.

Definition add_offset (now offset : Z) (tx : ongoing_tx) (o : partition_offset) : ongoing_tx :=
  {| s_tx_seq := s_tx_seq tx; s_tm_partition := s_tm_partition tx; s_timeout := s_timeout tx;
     s_begin_offset := s_begin_offset tx;
     s_tx_offsets := <[po_tp o := tx_offset_metadata now offset o]> (s_tx_offsets tx) |}.

Definition update_tx_offset (now offset : Z) (pid : Z * Z) (offsets : list partition_offset) (s : t) : t :=
  match find_tx pid s with
  | None => s
  | Some tx => set_producer pid.1 {| s_epoch := pid.2; s_tx := Some (fold_left (add_offset now offset) offsets tx) |} s
  end.

Definition commit_value (md : offset_metadata) : offset_metadata_value :=
  {| v_offset := md_offset md; v_leader_epoch := invalid_leader_epoch; v_metadata := md_metadata md;
     v_commit_timestamp := md_commit_timestamp md; v_expiry_timestamp := default (-1) (md_expiry_timestamp md);
     v_non_reclaimable := true |}.

Definition commit (pid : Z * Z) (s : t) : t :=
  match find_tx pid s with
  | None => s
  | Some tx =>
      set_producer pid.1 {| s_epoch := pid.2; s_tx := None |}
        (set_offsets (((fun md => (md_log_offset md, commit_value md)) <$> s_tx_offsets tx) ∪ stm_offsets s) s)
  end.

Definition abort (pid : Z * Z) (s : t) : t :=
  match stm_producers s !! pid.1 with
  | Some p => if s_epoch p =? pid.2 then set_producer pid.1 {| s_epoch := s_epoch p; s_tx := None |} s else s
  | None => s
  end.

Definition try_set_epoch (id epoch : Z) (s : t) : t :=
  match stm_producers s !! id with
  | Some p => if s_epoch p <? epoch then set_producer id {| s_epoch := epoch; s_tx := s_tx p |} s else s
  | None => set_producer id {| s_epoch := epoch; s_tx := None |} s
  end.

Definition try_set_fence (id epoch txseq timeout tm_partition fence_offset : Z) (s : t) : t :=
  let fenced := {| s_epoch := epoch;
                   s_tx := Some {| s_tx_seq := txseq; s_tm_partition := tm_partition; s_timeout := timeout;
                                   s_begin_offset := fence_offset; s_tx_offsets := ∅ |} |} in
  match stm_producers s !! id with
  | Some p => if s_epoch p <=? epoch then set_producer id fenced s else s
  | None => set_producer id fenced s
  end.

Definition has_data (s : t) : bool := stm_is_loaded s || negb (bool_decide (stm_offsets s = ∅)).

End group_stm.

(** A batch of the group's partition. *)
Inductive group_batch :=
  | raft_data_batch (base_offset : Z) (records : list group_record)
  | prepare_tx_batch (last_offset : Z) (group_id : string) (pid : Z * Z) (offsets : list partition_offset)
  | fence_v0_batch (group_id : string) (pid : Z * Z)
  | fence_v1_batch (base_offset : Z) (group_id : string) (pid : Z * Z) (txseq timeout : Z)
  | fence_batch (base_offset : Z) (group_id : string) (pid : Z * Z) (txseq timeout tm_partition : Z)
  | commit_tx_batch (group_id : string) (pid : Z * Z)
  | abort_tx_batch (group_id : string) (pid : Z * Z)
  | version_fence_batch (retains_offsets : bool)
  | group_block_batch (group_id : string) (blocked : bool) (revision : Z).

Record recovery_state := {
  rs_groups : gmap string group_stm.t;
  rs_has_offset_retention_feature_fence : bool;
  rs_group_blocks : gmap string (bool * Z);
}.

Definition recovery_start : recovery_state :=
  {| rs_groups := ∅; rs_has_offset_retention_feature_fence := false; rs_group_blocks := ∅ |}.

Definition set_groups (m : gmap string group_stm.t) (s : recovery_state) : recovery_state :=
  {| rs_groups := m; rs_has_offset_retention_feature_fence := rs_has_offset_retention_feature_fence s;
     rs_group_blocks := rs_group_blocks s |}.

(** An update of a group that is made if there is none, and of one that must be there. *)
Definition in_group (id : string) (f : group_stm.t -> group_stm.t) (s : recovery_state) : recovery_state :=
  set_groups (<[id := f (default group_stm.make (rs_groups s !! id))]> (rs_groups s)) s.

Definition in_known_group (id : string) (f : group_stm.t -> group_stm.t) (s : recovery_state) : recovery_state :=
  set_groups (alter f id (rs_groups s)) s.

Definition is_group_blocked (id : string) (s : recovery_state) : bool :=
  match rs_group_blocks s !! id with Some (blocked, _) => blocked | None => false end.

Definition no_revision : Z := int64_min.

Definition do_handle_group_block (id : string) (blocked : bool) (revision : Z) (s : recovery_state) : recovery_state :=
  let put := {| rs_groups := rs_groups s;
                rs_has_offset_retention_feature_fence := rs_has_offset_retention_feature_fence s;
                rs_group_blocks := <[id := (blocked, revision)]> (rs_group_blocks s) |} in
  match rs_group_blocks s !! id with
  | None => put
  | Some (was, known) =>
      if revision =? no_revision then put
      else if revision <? known then s
      else if (known =? revision) && negb (Bool.eqb was blocked) then s
      else put
  end.

Definition reclaimable (v : offset_metadata_value) : offset_metadata_value :=
  {| v_offset := v_offset v; v_leader_epoch := v_leader_epoch v; v_metadata := v_metadata v;
     v_commit_timestamp := v_commit_timestamp v; v_expiry_timestamp := v_expiry_timestamp v; v_non_reclaimable := false |}.

Definition handle_record (base_offset : Z) (s : recovery_state) (r : group_record) : recovery_state :=
  match r with
  | metadata_record id alive =>
      if is_group_blocked id s then s
      else if alive then in_group id group_stm.overwrite_metadata s
      else set_groups (delete id (rs_groups s)) s
  | offset_record id tp value =>
      if is_group_blocked id s then s
      else match value with
           | Some v =>
               let v := if rs_has_offset_retention_feature_fence s then reclaimable v else v in
               in_group id (group_stm.update_offset tp base_offset v) s
           | None => in_known_group id (group_stm.remove_offset tp) s
           end
  end.

(** [operator()] of the consumer: one batch of the log. *)
Definition recovery_consumer (now : Z) (s : recovery_state) (b : group_batch) : recovery_state :=
  match b with
  | raft_data_batch base records => fold_left (handle_record base) records s
  | prepare_tx_batch last id pid offsets => in_group id (group_stm.update_tx_offset now last pid offsets) s
  | fence_v0_batch id pid => in_group id (group_stm.try_set_epoch pid.1 pid.2) s
  | fence_v1_batch base id pid seq timeout => in_group id (group_stm.try_set_fence pid.1 pid.2 seq timeout 0 base) s
  | fence_batch base id pid seq timeout tm =>
      in_known_group id (group_stm.try_set_fence pid.1 pid.2 seq timeout tm base) s
  | commit_tx_batch id pid => in_known_group id (group_stm.commit pid) s
  | abort_tx_batch id pid => in_known_group id (group_stm.abort pid) s
  | version_fence_batch retains =>
      if retains
      then {| rs_groups := rs_groups s; rs_has_offset_retention_feature_fence := true;
              rs_group_blocks := rs_group_blocks s |}
      else s
  | group_block_batch id blocked revision => do_handle_group_block id blocked revision s
  end.

Definition recover_log (now : Z) (log : list group_batch) : recovery_state :=
  fold_left (recovery_consumer now) log recovery_start.

(** *** From what was read to a group *)

Definition recovered_metadata (o : Z * offset_metadata_value) : offset_metadata :=
  {| md_log_offset := o.1; md_offset := v_offset o.2; md_metadata := v_metadata o.2; md_leader_epoch := v_leader_epoch o.2;
     md_commit_timestamp := v_commit_timestamp o.2;
     md_expiry_timestamp := if v_expiry_timestamp o.2 =? -1 then None else Some (v_expiry_timestamp o.2);
     md_non_reclaimable := v_non_reclaimable o.2 |}.

Definition group_try_set_fence (id epoch : Z) (g : group) : group :=
  match g_producers g !! id with
  | Some p => if tp_epoch p <? epoch
              then with_producers (<[id := {| tp_epoch := epoch; tp_transaction := None |}]> (g_producers g)) (g_term g) g
              else g
  | None => with_producers (<[id := {| tp_epoch := epoch; tp_transaction := None |}]> (g_producers g)) (g_term g) g
  end.

Definition insert_ongoing_tx (pid : Z * Z) (tx : ongoing_transaction) (g : group) : group :=
  with_producers (<[pid.1 := {| tp_epoch := pid.2; tp_transaction := Some tx |}]> (g_producers g)) (g_term g) g.

Definition recovered_tx (tx : group_stm.ongoing_tx) : ongoing_transaction :=
  {| tx_seq := group_stm.s_tx_seq tx; tx_coordinator_partition := group_stm.s_tm_partition tx;
     tx_timeout := group_stm.s_timeout tx; tx_begin_offset := group_stm.s_begin_offset tx;
     tx_offsets := map_imap (fun tp md => Some {| pt_offset_metadata := {| po_tp := tp; po_offset := md_offset md;
                                                  po_leader_epoch := md_leader_epoch md;
                                                  po_metadata := Some (md_metadata md) |};
                                                  pt_log_offset := md_log_offset md |}) (group_stm.s_tx_offsets tx) |}.

(** [do_recover_group]: [g] is the group that is there, or the one made from the metadata. *)
Definition do_recover_group (stm : group_stm.t) (g : group) : group :=
  if group_stm.has_data stm then
    let g := fold_left (fun g o => (try_upsert_offset o.1 (recovered_metadata o.2) g).2)
               (map_to_list (group_stm.stm_offsets stm)) g in
    fold_left (fun g p =>
        let g := group_try_set_fence p.1 (group_stm.s_epoch p.2) g in
        match group_stm.s_tx p.2 with
        | Some tx => insert_ongoing_tx (p.1, group_stm.s_epoch p.2) (recovered_tx tx) g
        | None => g
        end)
      (map_to_list (group_stm.stm_producers stm)) g
  else g.

(** [reset_tx_state]. *)
Definition reset_tx_state (term : Z) (g : group) : group := with_producers ∅ term g.
