(* ===== verification/GroupOffsetsProps.v ===== *)
(** * Properties of committed offsets

    [coordinator] is a group with the commits that are being replicated and the log of its
    partition; its steps are the handler, raft's appends in the order of the requests, raft's answers in any
    order, transactions that are committed, other batches of the log, and other changes of the group.  The
    steps are restricted for a set of watched partitions only; for these, what a client was told is
    committed is what it is told afterwards, and, without transactions, what a new coordinator reads from the log. *)

From S2P Require Import Prelude Errors GroupOffsets.

Abbreviation commits := (list (topic_partition * offset_metadata)).

(** ** Effects on single partitions *)

Lemma upsert_lookup tp md g tp' :
  g_offsets (try_upsert_offset tp md g).2 !! tp' =
  if decide (tp' = tp)
  then match g_offsets g !! tp with
       | Some o => if md_log_offset o <? md_log_offset md then Some md else Some o
       | None => Some md
       end
  else g_offsets g !! tp'.
Proof.
  unfold try_upsert_offset. destruct (g_offsets g !! tp) eqn:E; [case_match|]; cbn;
    case_decide; subst; by rewrite ?lookup_insert_eq, ?lookup_insert_ne by done.
Qed.

Lemma upsert_pending tp md g : g_pending_offset_commits (try_upsert_offset tp md g).2 = g_pending_offset_commits g.
Proof. unfold try_upsert_offset. by repeat case_match. Qed.

Lemma upsert_state tp md g : g_state (try_upsert_offset tp md g).2 = g_state g.
Proof. unfold try_upsert_offset. by repeat case_match. Qed.

(** What a commit that is completed leaves in memory, and of the pending entry. *)
Definition completed (md : offset_metadata) (pending o : option offset_metadata) : option offset_metadata :=
  match pending with
  | None => o
  | Some _ => match o with
              | Some o => if md_log_offset o <? md_log_offset md then Some md else Some o
              | None => Some md
              end
  end.

Definition cleared (md : offset_metadata) (pending : option offset_metadata) : option offset_metadata :=
  p ← pending; if md_offset p =? md_offset md then None else Some p.

Lemma complete_offsets tp md g tp' :
  g_offsets (complete_offset_commit tp md g) !! tp' =
  if decide (tp' = tp) then completed md (g_pending_offset_commits g !! tp) (g_offsets g !! tp) else g_offsets g !! tp'.
Proof.
  unfold complete_offset_commit, completed. destruct (g_pending_offset_commits g !! tp) as [p|] eqn:E;
    [|by case_decide; subst].
  unfold clear_pending. assert (H := upsert_lookup tp md g tp'). destruct (md_offset p =? md_offset md); cbn; exact H.
Qed.

Lemma complete_pending tp md g tp' :
  g_pending_offset_commits (complete_offset_commit tp md g) !! tp' =
  if decide (tp' = tp) then cleared md (g_pending_offset_commits g !! tp) else g_pending_offset_commits g !! tp'.
Proof.
  unfold complete_offset_commit, clear_pending, cleared. destruct (g_pending_offset_commits g !! tp) as [p|] eqn:E; cbn;
    [|by case_decide; subst].
  destruct (md_offset p =? md_offset md); cbn; rewrite ?upsert_pending; case_decide; subst;
    by rewrite ?lookup_delete_eq, ?lookup_delete_ne by done.
Qed.

Lemma complete_state tp md g : g_state (complete_offset_commit tp md g) = g_state g.
Proof. unfold complete_offset_commit, clear_pending. repeat case_match; cbn; by rewrite ?upsert_state. Qed.

Lemma fail_offsets tp md g : g_offsets (fail_offset_commit tp md g) = g_offsets g.
Proof. unfold fail_offset_commit, clear_pending. by repeat case_match. Qed.

Lemma fail_pending tp md g tp' :
  g_pending_offset_commits (fail_offset_commit tp md g) !! tp' =
  if decide (tp' = tp) then cleared md (g_pending_offset_commits g !! tp) else g_pending_offset_commits g !! tp'.
Proof.
  unfold fail_offset_commit, clear_pending, cleared. destruct (g_pending_offset_commits g !! tp) as [p|] eqn:E; cbn;
    [|by case_decide; subst].
  destruct (md_offset p =? md_offset md); cbn; case_decide; subst;
    by rewrite ?lookup_delete_eq, ?lookup_delete_ne by done.
Qed.

Lemma fail_state tp md g : g_state (fail_offset_commit tp md g) = g_state g.
Proof. unfold fail_offset_commit, clear_pending. by repeat case_match. Qed.

(** ** Effects of whole requests *)

Definition add_all_pending (cs : commits) (g : group) : group := fold_left (fun g c => add_pending c g) cs g.
Definition complete_all (last : Z) (cs : commits) (g : group) : group :=
  fold_left (fun g c => complete_offset_commit c.1 (with_log_offset last c.2) g) cs g.
Definition fail_all (cs : commits) (g : group) : group := fold_left (fun g c => fail_offset_commit c.1 c.2 g) cs g.

(** The commit of a partition in a request: the first, where it is named more than once. *)
Definition named (cs : commits) (tp : topic_partition) : option offset_metadata := list_to_map (M := gmap _ _) cs !! tp.

(** The partition is named at most once. *)
Fixpoint once (tp : topic_partition) (cs : commits) : Prop :=
  match cs with
  | [] => True
  | c :: cs => (c.1 = tp -> tp ∉ cs.*1) /\ once tp cs
  end.

Lemma NoDup_once tp cs : NoDup cs.*1 -> once tp cs.
Proof. induction cs as [|c cs IH]; [done|]. rewrite fmap_cons. intros [Hc Hn]%NoDup_cons. split; [by intros <-|by apply IH]. Qed.

Lemma named_None cs tp : named cs tp = None <-> tp ∉ cs.*1.
Proof. unfold named. by rewrite not_elem_of_list_to_map. Qed.

Lemma named_cons c cs tp : named (c :: cs) tp = if decide (tp = c.1) then Some c.2 else named cs tp.
Proof.
  unfold named. destruct c as [k md]. cbn. case_decide; subst; [by rewrite lookup_insert_eq|by rewrite lookup_insert_ne].
Qed.

Lemma elem_fst {A B} (k : A) (v : B) (l : list (A * B)) : (k, v) ∈ l -> k ∈ l.*1.
Proof. intros H. apply list_elem_of_fmap. by exists (k, v). Qed.

Lemma fst_elem {A B} (k : A) (l : list (A * B)) : k ∈ l.*1 -> exists v, (k, v) ∈ l.
Proof. intros ([k' v] & -> & H)%list_elem_of_fmap. by exists v. Qed.

#[local] Hint Resolve elem_fst : core.

Lemma named_elem cs tp md : once tp cs -> (tp, md) ∈ cs <-> named cs tp = Some md.
Proof.
  induction cs as [|[k m] cs IH]; [intros _; split; [by intros ?%elem_of_nil|done]|]. intros [Hk Hn]. specialize (IH Hn).
  rewrite named_cons, elem_of_cons. cbn in *. case_decide as Hd.
  - subst k. split; [intros [[= ->]|Hin]; [done|]|intros [= ->]; by left]. exfalso. apply (Hk eq_refl). eauto.
  - rewrite <- IH. split; [intros [[= ? ?]|]; [done|done]|by right].
Qed.

Lemma complete_all_spec last cs g tp : once tp cs ->
  let g' := complete_all last cs g in
  g_state g' = g_state g /\
  match named cs tp with
  | None => g_offsets g' !! tp = g_offsets g !! tp /\
      g_pending_offset_commits g' !! tp = g_pending_offset_commits g !! tp
  | Some md =>
      g_offsets g' !! tp = completed (with_log_offset last md) (g_pending_offset_commits g !! tp) (g_offsets g !! tp) /\
      g_pending_offset_commits g' !! tp = cleared md (g_pending_offset_commits g !! tp)
  end.
Proof.
  revert g. induction cs as [|[k md] cs IH]; intros g Hn; [done|]. destruct Hn as [Hk Hn].
  unfold complete_all. cbn [fold_left]. fold (complete_all last cs (complete_offset_commit k (with_log_offset last md) g)).
  specialize (IH (complete_offset_commit k (with_log_offset last md) g) Hn). cbn zeta in IH |- *.
  rewrite complete_state in IH. destruct IH as [Hst IH]. split; [done|]. rewrite named_cons. cbn [fst snd] in *.
  rewrite complete_offsets, complete_pending in IH. destruct (decide (tp = k)) as [->|Hne]; [|exact IH].
  rewrite (proj2 (named_None cs k) (Hk eq_refl)) in IH. exact IH.
Qed.

Lemma fail_all_spec cs g tp : once tp cs ->
  let g' := fail_all cs g in
  g_state g' = g_state g /\ g_offsets g' = g_offsets g /\
  g_pending_offset_commits g' !! tp = match named cs tp with
                                      | Some md => cleared md (g_pending_offset_commits g !! tp)
                                      | None => g_pending_offset_commits g !! tp
                                      end.
Proof.
  revert g. induction cs as [|[k md] cs IH]; intros g Hn; [done|]. destruct Hn as [Hk Hn].
  change (fail_all ((k, md) :: cs) g) with (fail_all cs (fail_offset_commit k md g)).
  specialize (IH (fail_offset_commit k md g) Hn). cbn zeta in IH |- *. rewrite fail_state, fail_offsets in IH.
  destruct IH as (-> & -> & ->). do 2 (split; [done|]). rewrite named_cons, fail_pending. cbn in *.
  destruct (decide (tp = k)) as [->|]; [|done]. by rewrite (proj2 (named_None cs k) (Hk eq_refl)).
Qed.

Lemma add_all_pending_spec cs g tp : once tp cs ->
  let g' := add_all_pending cs g in
  g_state g' = g_state g /\ g_offsets g' = g_offsets g /\
  g_pending_offset_commits g' !! tp = match named cs tp with
                                      | Some md => Some md
                                      | None => g_pending_offset_commits g !! tp
                                      end.
Proof.
  revert g. induction cs as [|[k md] cs IH]; intros g Hn; [done|]. destruct Hn as [Hk Hn].
  unfold add_all_pending. cbn [fold_left]. fold (add_all_pending cs (add_pending (k, md) g)).
  destruct (IH (add_pending (k, md) g) Hn) as (Hs & Ho & Hp). split; [done|]. split; [done|].
  rewrite Hp, named_cons. cbn in *. destruct (decide (tp = k)) as [->|Hne].
  - rewrite (proj2 (named_None cs k) (Hk eq_refl)). by rewrite lookup_insert_eq.
  - by rewrite lookup_insert_ne.
Qed.

(** The end of a transaction: its offsets go to memory unless something later is there. *)
Definition upsert_all (now : Z) (l : list (topic_partition * pending_tx_offset)) (g : group) : group :=
  fold_left (fun g c => (try_upsert_offset c.1 (tx_commit_metadata now c.2) g).2) l g.

Definition tx_commits (now : Z) (l : list (topic_partition * pending_tx_offset)) : commits :=
  (fun c => (c.1, tx_commit_metadata now c.2)) <$> l.

Lemma upsert_all_spec now l g tp :
  let g' := upsert_all now l g in
  g_state g' = g_state g /\ g_pending_offset_commits g' = g_pending_offset_commits g /\
  (forall o, g_offsets g' !! tp = Some o -> g_offsets g !! tp = Some o \/ (tp, o) ∈ tx_commits now l) /\
  forall o, g_offsets g !! tp = Some o -> exists o', g_offsets g' !! tp = Some o' /\ md_log_offset o <= md_log_offset o'.
Proof.
  revert g. induction l as [|[k t] l IH]; intros g; [by split_and!; [| |left|intros o ?; exists o]|].
  change (upsert_all now ((k, t) :: l) g) with (upsert_all now l (try_upsert_offset k (tx_commit_metadata now t) g).2).
  specialize (IH (try_upsert_offset k (tx_commit_metadata now t) g).2). cbn zeta in IH |- *.
  rewrite upsert_state, upsert_pending in IH. destruct IH as (-> & -> & Hor & Hfw). do 2 (split; [done|]).
  unfold tx_commits in *. rewrite fmap_cons. cbn [fst snd]. split.
  - intros o Ho. destruct (Hor o Ho) as [Hu|]; [|right; by right]. rewrite upsert_lookup in Hu.
    case_decide as Hd; [|by left]. subst k. destruct (g_offsets g !! tp) as [o0|]; [case_match|]; injection Hu as <-; [right; left|by left|right; left].
  - intros o Ho. assert (exists o1, g_offsets (try_upsert_offset k (tx_commit_metadata now t) g).2 !! tp = Some o1 /\
      md_log_offset o <= md_log_offset o1) as (o1 & H1 & Hle).
    { rewrite upsert_lookup. case_decide; [subst k; rewrite Ho|by exists o]. case_match eqn:E; [|by exists o].
      apply Z.ltb_lt in E. eexists. split; [done|lia]. }
    destruct (Hfw o1 H1) as (o' & ? & ?). exists o'. split; [done|lia].
Qed.

(** ** Runs of a coordinator *)

(** What the group's partition of the log holds: commits, and batches of other kinds or of other groups. *)
Inductive log_entry := committed (cs : commits) | written (b : group_batch).

Definition entry_size (e : log_entry) : Z := match e with committed cs => Z.of_nat (length cs) | written _ => 1 end.

(** Commits in flight are numbered in the order of their requests; [co_appended] is the first number that can
    still be appended.  [co_log] and [co_acked] hold the batches with their last offsets; [co_failed] are the commits
    that were answered with an error, and [co_txs] the offsets of transactions that were committed. *)
Record coordinator := {
  co_group : group;
  co_flight : gmap nat (commits * option Z);
  co_next : nat;
  co_appended : nat;
  co_end : Z;
  co_log : list (Z * log_entry);
  co_acked : list (Z * commits);
  co_failed : list commits;
  co_txs : commits;
}.

Definition co_with (g : group) (f : gmap nat (commits * option Z)) (acked : list (Z * commits)) (failed : list commits)
    (txs : commits) (c : coordinator) : coordinator :=
  {| co_group := g; co_flight := f; co_next := co_next c; co_appended := co_appended c; co_end := co_end c;
     co_log := co_log c; co_acked := acked; co_failed := failed; co_txs := txs |}.

Definition start_coordinator (g : group) : coordinator :=
  {| co_group := g; co_flight := ∅; co_next := 0; co_appended := 0; co_end := -1; co_log := []; co_acked := [];
     co_failed := []; co_txs := [] |}.

(** No commit in flight is for the same offset of the partition. *)
Definition distinct_offsets (tp : topic_partition) (cs : commits) (c : coordinator) : Prop :=
  forall id cs' pos md md', co_flight c !! id = Some (cs', pos) -> (tp, md) ∈ cs -> (tp, md') ∈ cs' ->
    md_offset md <> md_offset md'.

(** If the commit is for the partition, no other one in flight is. *)
Definition alone (tp : topic_partition) (id : nat) (cs : commits) (c : coordinator) : Prop :=
  forall id' cs' pos, co_flight c !! id' = Some (cs', pos) -> id' <> id -> tp ∈ cs.*1 -> tp ∉ cs'.*1.

(** The steps of a coordinator.  [Q] are the partitions that are watched: a request names them once and not for an
    offset that is in flight already, a commit of one of them that fails is the only one in flight, and what
    changes the group otherwise (members, transactions that begin, prepare or abort, the deletion and expiry of
    offsets) leaves their offsets alone.  Of the other partitions nothing is asked. *)
Inductive coordinator_step (Q : topic_partition -> Prop) (c : coordinator) : coordinator -> Prop :=
  | co_request now r g cs :
      handle_offset_commit now r (co_group c) = Ok (g, CommitReplicate cs) ->
      (forall tp, Q tp -> once tp cs /\ distinct_offsets tp cs c) ->
      coordinator_step Q c
        {| co_group := g; co_flight := <[co_next c := (cs, None)]> (co_flight c); co_next := S (co_next c);
           co_appended := co_appended c; co_end := co_end c; co_log := co_log c; co_acked := co_acked c;
           co_failed := co_failed c; co_txs := co_txs c |}
  | co_refuse now r g e :
      handle_offset_commit now r (co_group c) = Ok (g, CommitRespond e) ->
      coordinator_step Q c (co_with g (co_flight c) (co_acked c) (co_failed c) (co_txs c) c)
  | co_append id cs last :
      co_flight c !! id = Some (cs, None) -> (co_appended c <= id)%nat -> co_end c + Z.of_nat (length cs) <= last ->
      coordinator_step Q c
        {| co_group := co_group c; co_flight := <[id := (cs, Some last)]> (co_flight c); co_next := co_next c;
           co_appended := S id; co_end := last; co_log := co_log c ++ [(last, committed cs)]; co_acked := co_acked c;
           co_failed := co_failed c; co_txs := co_txs c |}
  | co_write last b :
      co_end c + 1 <= last ->
      coordinator_step Q c
        {| co_group := co_group c; co_flight := co_flight c; co_next := co_next c; co_appended := co_appended c;
           co_end := last; co_log := co_log c ++ [(last, written b)]; co_acked := co_acked c;
           co_failed := co_failed c; co_txs := co_txs c |}
  | co_success id cs last g :
      co_flight c !! id = Some (cs, Some last) -> offsets_stored (inl last) cs (co_group c) = Ok (error_code.none, g) ->
      coordinator_step Q c (co_with g (delete id (co_flight c)) (co_acked c ++ [(last, cs)]) (co_failed c) (co_txs c) c)
  | co_failure id cs pos e ec g :
      co_flight c !! id = Some (cs, pos) -> (forall tp, Q tp -> alone tp id cs c) ->
      offsets_stored (inr e) cs (co_group c) = Ok (ec, g) ->
      coordinator_step Q c (co_with g (delete id (co_flight c)) (co_acked c) (co_failed c ++ [cs]) (co_txs c) c)
  | co_transaction now last pid p tx g :
      g_producers (co_group c) !! pid.1 = Some p -> tp_transaction p = Some tx ->
      do_commit_finish now (inl last) pid (co_group c) = (tx_errc.none, g) ->
      coordinator_step Q c (co_with g (co_flight c) (co_acked c) (co_failed c)
                              (co_txs c ++ tx_commits now (map_to_list (tx_offsets tx))) c)
  | co_regroup g :
      (forall tp, Q tp -> g_offsets g !! tp = g_offsets (co_group c) !! tp /\
                          g_pending_offset_commits g !! tp = g_pending_offset_commits (co_group c) !! tp) ->
      g_state g <> dead -> coordinator_step Q c (co_with g (co_flight c) (co_acked c) (co_failed c) (co_txs c) c).

(** Runs from a new group. *)
Definition coordinator_run (Q : topic_partition -> Prop) (c : coordinator) : Prop :=
  exists g, g_offsets g = ∅ /\ g_pending_offset_commits g = ∅ /\ g_state g <> dead /\
    rtc (coordinator_step Q) (start_coordinator g) c.

(** *** The invariant, for one partition *)

(** The commit [id] need not be recorded any more: it will never be appended, or a later one is in memory. *)
Definition superseded (c : coordinator) (id : nat) (pos : option Z) (tp : topic_partition) : Prop :=
  match pos with
  | None => (id < co_appended c)%nat
  | Some last => exists o, g_offsets (co_group c) !! tp = Some o /\ last <= md_log_offset o
  end.

Record coordinator_ok (tp : topic_partition) (c : coordinator) : Prop := {
  ok_alive : g_state (co_group c) <> dead;
  ok_flight id cs pos : co_flight c !! id = Some (cs, pos) ->
    (id < co_next c)%nat /\ once tp cs /\ cs <> [] /\
    forall last, pos = Some last -> (id < co_appended c)%nat /\ (last, committed cs) ∈ co_log c;
  ok_appended : (co_appended c <= co_next c)%nat;
  ok_order id id' cs cs' last last' : co_flight c !! id = Some (cs, Some last) ->
    co_flight c !! id' = Some (cs', Some last') -> (id < id')%nat -> last < last';
  ok_distinct id id' cs cs' pos pos' md md' : co_flight c !! id = Some (cs, pos) ->
    co_flight c !! id' = Some (cs', pos') -> id <> id' -> (tp, md) ∈ cs -> (tp, md') ∈ cs' ->
    md_offset md <> md_offset md';
  ok_pending p : g_pending_offset_commits (co_group c) !! tp = Some p ->
    exists id cs pos, co_flight c !! id = Some (cs, pos) /\ (tp, p) ∈ cs /\
      forall id' cs' pos', co_flight c !! id' = Some (cs', pos') -> tp ∈ cs'.*1 -> (id' <= id)%nat;
  ok_superseded id cs pos : g_pending_offset_commits (co_group c) !! tp = None ->
    co_flight c !! id = Some (cs, pos) -> tp ∈ cs.*1 -> superseded c id pos tp;
  ok_sound o : g_offsets (co_group c) !! tp = Some o ->
    (exists last cs md, (last, cs) ∈ co_acked c /\ (tp, md) ∈ cs /\ o = with_log_offset last md) \/ (tp, o) ∈ co_txs c;
  ok_acked last cs : (last, cs) ∈ co_acked c -> tp ∈ cs.*1 ->
    exists o, g_offsets (co_group c) !! tp = Some o /\ last <= md_log_offset o;
  ok_log_acked last cs : (last, cs) ∈ co_acked c -> (last, committed cs) ∈ co_log c;
  ok_log_rest last cs : (last, committed cs) ∈ co_log c ->
    (last, cs) ∈ co_acked c \/ cs ∈ co_failed c \/ exists id, co_flight c !! id = Some (cs, Some last);
  ok_log last e : (last, e) ∈ co_log c -> last <= co_end c /\ 0 < entry_size e /\ forall cs, e = committed cs -> once tp cs;
  ok_log_order i j b b' : co_log c !! i = Some b -> co_log c !! j = Some b' -> (i < j)%nat ->
    b.1 + entry_size b'.2 <= b'.1;
}.

Lemma start_ok tp g : g_offsets g = ∅ -> g_pending_offset_commits g = ∅ -> g_state g <> dead ->
  coordinator_ok tp (start_coordinator g).
Proof.
  intros Ho Hp Hs. constructor; cbn; rewrite ?Ho, ?Hp; intros; try done;
    repeat match goal with
    | H : ∅ !! _ = Some _ |- _ => by rewrite lookup_empty in H
    | H : _ ∈ [] |- _ => by apply elem_of_nil in H
    end.
Qed.

(** *** What the handlers do to the group *)

Lemma start_commit_outcome now r g :
  start_commit now r g = (g, CommitRespond error_code.none) \/
  exists cs, cs <> [] /\ start_commit now r g = (add_all_pending cs g, CommitReplicate cs).
Proof.
  unfold start_commit, store_offsets. destruct (offset_commits now r) as [|c cs]; [by left|right].
  exists (c :: cs). done.
Qed.

Lemma handle_offset_commit_outcome now r g g' o : handle_offset_commit now r g = Ok (g', o) ->
  (g' = g /\ exists e, o = CommitRespond e) \/
  exists cs, cs <> [] /\ g' = add_all_pending cs g /\ o = CommitReplicate cs.
Proof.
  unfold handle_offset_commit. intros H.
  destruct (start_commit_outcome now r g) as [E|(cs & Hcs & E)]; rewrite E in H;
    repeat (case_match; [simplify_eq; eauto 10|]); try (by destruct (throw_if _ _); simplify_eq/=; eauto 10);
    repeat case_match; simplify_eq; eauto 10.
Qed.

Lemma success_effect last cs g g' : g_state g <> dead -> offsets_stored (inl last) cs g = Ok (error_code.none, g') ->
  g' = complete_all last cs g.
Proof.
  intros Hd. unfold offsets_stored, in_group_state. rewrite bool_decide_eq_false_2 by done. cbn. by intros [= <-].
Qed.

Lemma failure_effect e cs g g' ec : g_state g <> dead -> offsets_stored (inr e) cs g = Ok (ec, g') -> g' = fail_all cs g.
Proof.
  intros Hd. unfold offsets_stored, in_group_state. rewrite bool_decide_eq_false_2 by done.
  case_bool_decide; [done|]. by intros [= _ <-].
Qed.

(** *** Every step keeps the invariant *)

Section invariant.
Variable tp : topic_partition.
Implicit Type c : coordinator.

Lemma regroup_ok c g : coordinator_ok tp c -> g_offsets g !! tp = g_offsets (co_group c) !! tp ->
  g_pending_offset_commits g !! tp = g_pending_offset_commits (co_group c) !! tp -> g_state g <> dead ->
  coordinator_ok tp (co_with g (co_flight c) (co_acked c) (co_failed c) (co_txs c) c).
Proof.
  intros [] Ho Hp Hs. constructor; cbn; rewrite ?Ho, ?Hp; try done.
  intros id cs pos Hn Hf Hin. specialize (ok_superseded0 id cs pos Hn Hf Hin).
  destruct pos; [|done]. cbn in *. by rewrite Ho.
Qed.

(** A request becomes the latest of its partitions. *)
Lemma request_ok c cs : coordinator_ok tp c -> cs <> [] -> once tp cs -> distinct_offsets tp cs c ->
  coordinator_ok tp
    {| co_group := add_all_pending cs (co_group c); co_flight := <[co_next c := (cs, None)]> (co_flight c);
       co_next := S (co_next c); co_appended := co_appended c; co_end := co_end c; co_log := co_log c;
       co_acked := co_acked c; co_failed := co_failed c; co_txs := co_txs c |}.
Proof.
  intros H Hne Hnd Hdist. set (g' := add_all_pending cs (co_group c)).
  destruct (add_all_pending_spec cs (co_group c) tp Hnd) as (Hst & Ho & Hg). fold g' in Hst, Ho, Hg.
  assert (Hold : forall id v, co_flight c !! id = Some v -> (id < co_next c)%nat).
  { intros id [cs' pos'] Hf. by apply (ok_flight _ _ H) in Hf as [? _]. }
  assert (Hin : forall id v, <[co_next c := (cs, None)]> (co_flight c) !! id = Some v ->
    id = co_next c /\ v = (cs, None) \/ id <> co_next c /\ co_flight c !! id = Some v).
  { intros id v Hf. apply lookup_insert_Some in Hf as [[? ?]|[? ?]]; [left|right]; by split. }
  constructor; cbn; rewrite ?Hst, ?Ho; try apply H.
  - intros id cs' pos [[-> [= -> ->]]|[_ Hf]]%Hin; [by repeat split; try lia|].
    destruct (ok_flight _ _ H _ _ _ Hf) as (? & ? & ? & ?). split_and!; [lia|done..].
  - pose proof (ok_appended _ _ H). lia.
  - intros id id' cs1 cs2 l1 l2 [[_ [=]]|[_ H1]]%Hin [[_ [=]]|[_ H2]]%Hin. by eapply (ok_order _ _ H).
  - intros id id' cs1 cs2 p1 p2 md md' [[-> [= -> ->]]|[_ H1]]%Hin [[-> [= -> ->]]|[_ H2]]%Hin Hid M1 M2;
      [done|by eapply Hdist|intros E; symmetry in E; by eapply (Hdist id cs1 p1 md' md)|by eapply (ok_distinct _ _ H id id')].
  - intros p Hp. rewrite Hg in Hp. destruct (named cs tp) as [md|] eqn:En.
    + injection Hp as ->. exists (co_next c), cs, None. rewrite lookup_insert_eq. split; [done|].
      split; [by apply named_elem|]. intros id' cs' pos' [[-> _]|[_ Hf]]%Hin _; [done|]. apply Hold in Hf. lia.
    + destruct (ok_pending _ _ H p Hp) as (id & cs1 & pos & Hf & Hm & Hmax). exists id, cs1, pos.
      split; [rewrite lookup_insert_ne; [done|]; apply Hold in Hf; lia|]. split; [done|].
      intros id' cs' pos' [[-> [= -> ->]]|[_ Hf']]%Hin Htp; [|by eapply Hmax].
      apply named_None in En. done.
  - intros id cs1 pos Hp Hf Htp. rewrite Hg in Hp. destruct (named cs tp) as [md|] eqn:En; [done|]. apply named_None in En.
    apply Hin in Hf as [[-> [= -> ->]]|[_ Hf]]; [done|].
    pose proof (ok_superseded _ _ H id cs1 pos Hp Hf Htp) as Hsup. destruct pos; [|done]. cbn in *. by rewrite Ho.
  - intros last cs' Hl. destruct (ok_log_rest _ _ H last cs' Hl) as [|[|[id Hf]]]; [by left|by right; left|right; right].
    exists id. rewrite lookup_insert_ne; [done|]. apply Hold in Hf. lia.
Qed.

(** The log stays in order when an entry is appended. *)
Lemma log_grows c last e : coordinator_ok tp c -> co_end c + entry_size e <= last ->
  forall i j b b', (co_log c ++ [(last, e)]) !! i = Some b -> (co_log c ++ [(last, e)]) !! j = Some b' -> (i < j)%nat ->
    b.1 + entry_size b'.2 <= b'.1.
Proof.
  intros H Hlast i j b b' Hi Hj Hij. destruct (decide (j < length (co_log c))%nat) as [Hjl|Hjl].
  - rewrite lookup_app_l in Hi, Hj by lia. by eapply (ok_log_order _ _ H i j).
  - assert (j = length (co_log c)) as ->. { apply lookup_lt_Some in Hj. rewrite length_app in Hj. simpl in Hj. lia. }
    rewrite list_lookup_middle in Hj by done. injection Hj as <-. rewrite lookup_app_l in Hi by lia.
    destruct b as [l e']. apply list_elem_of_lookup_2 in Hi. destruct (ok_log _ _ H _ _ Hi) as (? & _). cbn. lia.
Qed.

Lemma append_ok c id cs last : coordinator_ok tp c -> co_flight c !! id = Some (cs, None) ->
  (co_appended c <= id)%nat -> co_end c + Z.of_nat (length cs) <= last ->
  coordinator_ok tp
    {| co_group := co_group c; co_flight := <[id := (cs, Some last)]> (co_flight c); co_next := co_next c;
       co_appended := S id; co_end := last; co_log := co_log c ++ [(last, committed cs)]; co_acked := co_acked c;
       co_failed := co_failed c; co_txs := co_txs c |}.
Proof.
  intros H Hid Happ Hlast. destruct (ok_flight _ _ H _ _ _ Hid) as (Hlt & Hnd & Hne & _).
  assert (Hlen : 0 < Z.of_nat (length cs)) by (destruct cs; [done|cbn; lia]).
  assert (Hin : forall id' cs' pos', <[id := (cs, Some last)]> (co_flight c) !! id' = Some (cs', pos') ->
    exists pos, co_flight c !! id' = Some (cs', pos) /\ (id' = id /\ pos' = Some last /\ cs' = cs \/ id' <> id /\ pos' = pos)).
  { intros id' cs' pos' Hf. apply lookup_insert_Some in Hf as [[<- [= <- <-]]|[? ?]]; [exists None; split; [done|by left]|exists pos'; split; [done|by right]]. }
  constructor; cbn; try done; try apply H.
  - intros id' cs' pos' (pos & Hf & [(-> & -> & ->)|[Hn ->]])%Hin.
    + split_and!; [done..|]. intros l [= <-]. split; [lia|]. apply elem_of_app. right. by apply list_elem_of_singleton.
    + destruct (ok_flight _ _ H _ _ _ Hf) as (? & ? & ? & Hp). split_and!; [done..|].
      intros l Hl. destruct (Hp l Hl). split; [lia|]. apply elem_of_app. by left.
  - intros i1 i2 c1 c2 l1 l2 (p1 & F1 & [(-> & E1 & ->)|[N1 <-]])%Hin (p2 & F2 & [(-> & E2 & ->)|[N2 <-]])%Hin Hi.
    + lia.
    + destruct (ok_flight _ _ H _ _ _ F2) as (_ & _ & _ & Hp). destruct (Hp _ eq_refl). lia.
    + injection E2 as ->. destruct (ok_flight _ _ H _ _ _ F1) as (_ & _ & _ & Hp). destruct (Hp _ eq_refl) as [_ Hl].
      destruct (ok_log _ _ H _ _ Hl) as (? & _). lia.
    + by eapply (ok_order _ _ H).
  - intros i1 i2 c1 c2 p1 p2 md md' (q1 & F1 & _)%Hin (q2 & F2 & _)%Hin. by eapply (ok_distinct _ _ H).
  - intros p Hp. destruct (ok_pending _ _ H p Hp) as (i & c1 & pos & Hf & Hm & Hmax).
    destruct (decide (i = id)) as [->|Hi].
    + rewrite Hid in Hf. injection Hf as <- <-. exists id, cs, (Some last). rewrite lookup_insert_eq.
      split; [done|]. split; [done|]. intros i' c' p' (q & F & _)%Hin. by eapply Hmax.
    + exists i, c1, pos. rewrite lookup_insert_ne by done. split; [done|]. split; [done|].
      intros i' c' p' (q & F & _)%Hin. by eapply Hmax.
  - intros i c1 p1 Hp (q & F & [(-> & -> & ->)|[Hi ->]])%Hin Htp; pose proof (ok_superseded _ _ H _ _ _ Hp F Htp) as Hsup.
    + rewrite Hid in F. injection F as <-. cbn in Hsup. lia.
    + destruct q; cbn in *; [done|lia].
  - intros l cs' Hb. apply elem_of_app. left. by apply (ok_log_acked _ _ H).
  - intros l cs' [Hl|Hl%list_elem_of_singleton]%elem_of_app.
    + destruct (ok_log_rest _ _ H l cs' Hl) as [|[|[i Hf]]]; [by left|by right; left|right; right]. exists i.
      rewrite lookup_insert_ne; [done|]. intros <-. congruence.
    + injection Hl as -> ->. right. right. exists id. by rewrite lookup_insert_eq.
  - intros l e [Hl|Hl%list_elem_of_singleton]%elem_of_app.
    + destruct (ok_log _ _ H _ _ Hl) as (? & ? & ?). split_and!; [lia|done..].
    + injection Hl as -> ->. split_and!; [done|done|by intros cs' [= <-]].
  - by apply log_grows.
Qed.

Lemma write_ok c last b : coordinator_ok tp c -> co_end c + 1 <= last ->
  coordinator_ok tp
    {| co_group := co_group c; co_flight := co_flight c; co_next := co_next c; co_appended := co_appended c;
       co_end := last; co_log := co_log c ++ [(last, written b)]; co_acked := co_acked c;
       co_failed := co_failed c; co_txs := co_txs c |}.
Proof.
  intros H Hlast. constructor; cbn; try apply H.
  - intros id cs pos Hf. destruct (ok_flight _ _ H _ _ _ Hf) as (? & ? & ? & Hp). split_and!; [done..|].
    intros l Hl. destruct (Hp l Hl). split; [done|]. apply elem_of_app. by left.
  - intros l cs' Hb. apply elem_of_app. left. by apply (ok_log_acked _ _ H).
  - intros l cs' [Hl|Hl%list_elem_of_singleton]%elem_of_app; [by apply (ok_log_rest _ _ H)|done].
  - intros l e [Hl|Hl%list_elem_of_singleton]%elem_of_app.
    + destruct (ok_log _ _ H _ _ Hl) as (? & ? & ?). split_and!; [lia|done..].
    + by injection Hl as -> ->.
  - by apply log_grows.
Qed.

(** The commit that a pending entry stands for is the latest of its partition. *)
Lemma pending_is_latest c id cs pos md p : coordinator_ok tp c -> co_flight c !! id = Some (cs, pos) -> (tp, md) ∈ cs ->
  g_pending_offset_commits (co_group c) !! tp = Some p ->
  (forall id' cs' pos', co_flight c !! id' = Some (cs', pos') -> tp ∈ cs'.*1 -> (id' <= id)%nat) -> p = md.
Proof.
  intros H Hf Hm Hp Hmax. destruct (ok_pending _ _ H p Hp) as (i & c1 & q & Hf1 & Hm1 & Hmax1).
  assert (i = id) as ->.
  { pose proof (Hmax _ _ _ Hf1 (elem_fst _ _ _ Hm1)). pose proof (Hmax1 _ _ _ Hf (elem_fst _ _ _ Hm)). lia. }
  rewrite Hf in Hf1. injection Hf1 as <- <-. destruct (ok_flight _ _ H _ _ _ Hf) as (_ & Hnd & _).
  apply (named_elem _ _ _ Hnd) in Hm, Hm1. congruence.
Qed.

Lemma cleared_same md : cleared md (Some md) = None.
Proof. unfold cleared. cbn. by rewrite Z.eqb_refl. Qed.

Lemma cleared_Some md p q : cleared md (Some p) = Some q -> q = p /\ md_offset p <> md_offset md.
Proof. unfold cleared. cbn. destruct (Z.eqb_spec (md_offset p) (md_offset md)); [done|]. by intros [= <-]. Qed.

Lemma cleared_inv md p q : cleared md p = Some q -> p = Some q.
Proof. destruct p; [|done]. by intros [-> _]%cleared_Some. Qed.

Lemma failure_ok c id cs pos : coordinator_ok tp c -> co_flight c !! id = Some (cs, pos) -> alone tp id cs c ->
  coordinator_ok tp (co_with (fail_all cs (co_group c)) (delete id (co_flight c)) (co_acked c) (co_failed c ++ [cs]) (co_txs c) c).
Proof.
  intros H Hid Halone. set (g' := fail_all cs (co_group c)).
  destruct (ok_flight _ _ H _ _ _ Hid) as (_ & Hnd & _).
  destruct (fail_all_spec cs (co_group c) tp Hnd) as (Hst & Ho & Hg). fold g' in Hst, Ho, Hg.
  assert (Hin : forall i v, delete id (co_flight c) !! i = Some v -> i <> id /\ co_flight c !! i = Some v).
  { intros i v Hf. by apply lookup_delete_Some in Hf as [? ?]. }
  constructor; cbn; rewrite ?Hst, ?Ho; try apply H; try done.
  - intros i c1 p1 [_ Hf]%Hin. by apply (ok_flight _ _ H).
  - intros i1 i2 c1 c2 l1 l2 [_ F1]%Hin [_ F2]%Hin. by eapply (ok_order _ _ H).
  - intros i1 i2 c1 c2 p1 p2 md md' [_ F1]%Hin [_ F2]%Hin. by eapply (ok_distinct _ _ H).
  - intros p Hp. rewrite Hg in Hp. destruct (named cs tp) as [md|] eqn:En.
    + apply named_elem in En; [|done]. pose proof (cleared_inv _ _ _ Hp) as Hp'. rewrite Hp' in Hp.
      assert (p = md) as ->; [|by rewrite cleared_same in Hp].
      eapply pending_is_latest; [done|exact Hid|done..|]. intros i c1 q F Htp.
      destruct (decide (i = id)) as [->|Hi]; [done|]. exfalso. by eapply (Halone i c1 q F Hi); eauto.
    + destruct (ok_pending _ _ H p Hp) as (i & c1 & q & Hf & Hm & Hmax). apply named_None in En.
      assert (i <> id) by (intros ->; rewrite Hid in Hf; injection Hf as <- <-; eauto).
      exists i, c1, q. rewrite lookup_delete_ne by done. split; [done|]. split; [done|].
      intros i' c' p' [_ F]%Hin. by eapply Hmax.
  - intros i c1 q Hp [Hi F]%Hin Htp. rewrite Hg in Hp. destruct (named cs tp) as [md|] eqn:En.
    + apply named_elem in En; [|done]. exfalso. by eapply (Halone i _ _ F Hi); [eauto|].
    + pose proof (ok_superseded _ _ H _ _ _ Hp F Htp) as Hsup. destruct q; cbn in *; [by rewrite Ho|done].
  - intros l c1 Hl. destruct (ok_log_rest _ _ H l c1 Hl) as [|[|[i Hf]]]; [by left|right; left; apply elem_of_app; by left|].
    destruct (decide (i = id)) as [->|].
    + right. left. rewrite Hid in Hf. injection Hf as <- _. apply elem_of_app. right. by apply list_elem_of_singleton.
    + right. right. exists i. by rewrite lookup_delete_ne.
Qed.

(** Completing a commit only moves memory forward. *)
Lemma completed_forward md p o : match o with
  | Some o => exists o', completed md p (Some o) = Some o' /\ md_log_offset o <= md_log_offset o'
  | None => True end.
Proof.
  destruct o as [o|]; [|done]. unfold completed. destruct p; [|by exists o].
  destruct (Z.ltb_spec (md_log_offset o) (md_log_offset md)); eexists; (split; [done|lia]).
Qed.

Lemma completed_reaches md p o : exists o', completed md (Some p) o = Some o' /\ md_log_offset md <= md_log_offset o'.
Proof.
  unfold completed. destruct o as [o|]; [|by exists md].
  destruct (Z.ltb_spec (md_log_offset o) (md_log_offset md)); eexists; (split; [done|lia]).
Qed.

Lemma completed_origin md p o o' : completed md p o = Some o' -> o = Some o' \/ o' = md.
Proof. unfold completed. repeat case_match; intros; simplify_eq; auto. Qed.

Lemma complete_all_forward last cs g o : once tp cs -> g_offsets g !! tp = Some o ->
  exists o', g_offsets (complete_all last cs g) !! tp = Some o' /\ md_log_offset o <= md_log_offset o'.
Proof.
  intros Hnd Ho. destruct (complete_all_spec last cs g tp Hnd) as [_ E]. destruct (named cs tp) as [md|].
  - destruct E as [-> _]. rewrite Ho. apply (completed_forward _ _ (Some o)).
  - destruct E as [-> _]. by exists o.
Qed.

(** After a success the partition, if the request names it, is in memory at least as new. *)
Lemma success_reaches c id cs last : coordinator_ok tp c -> co_flight c !! id = Some (cs, Some last) -> tp ∈ cs.*1 ->
  exists o, g_offsets (complete_all last cs (co_group c)) !! tp = Some o /\ last <= md_log_offset o.
Proof.
  intros H Hid Htp. destruct (ok_flight _ _ H _ _ _ Hid) as (_ & Hnd & _).
  destruct (g_pending_offset_commits (co_group c) !! tp) as [p|] eqn:Ep.
  - destruct (complete_all_spec last cs (co_group c) tp Hnd) as [_ E]. apply fst_elem in Htp as [md Hm].
    apply (named_elem _ _ _ Hnd) in Hm. rewrite Hm in E. destruct E as [-> _]. rewrite Ep. apply completed_reaches.
  - destruct (ok_superseded _ _ H _ _ _ Ep Hid Htp) as (o & Ho & Hle).
    destruct (complete_all_forward last cs _ o Hnd Ho) as (o' & -> & ?). exists o'. split; [done|lia].
Qed.

(** When a success clears the pending entry, the other commits in flight are older. *)
Lemma success_supersedes c id cs last md p i cs' pos : coordinator_ok tp c -> co_flight c !! id = Some (cs, Some last) ->
  (tp, md) ∈ cs -> g_pending_offset_commits (co_group c) !! tp = Some p -> cleared md (Some p) = None ->
  i <> id -> co_flight c !! i = Some (cs', pos) -> tp ∈ cs'.*1 ->
  match pos with
  | None => (i < co_appended c)%nat
  | Some l => exists o, g_offsets (complete_all last cs (co_group c)) !! tp = Some o /\ l <= md_log_offset o
  end.
Proof.
  intros H Hid Hm Hp Hcl Hi F Htp. destruct (ok_pending _ _ H p Hp) as (j & cj & q & Hf & Hmj & Hmax).
  assert (md_offset p = md_offset md) by (unfold cleared in Hcl; cbn in Hcl; by destruct (Z.eqb_spec (md_offset p) (md_offset md))).
  assert (j = id) as ->.
  { destruct (decide (j = id)) as [|Hj]; [done|]. exfalso. by eapply (ok_distinct _ _ H j id). }
  pose proof (Hmax _ _ _ F Htp). destruct (ok_flight _ _ H _ _ _ Hid) as (_ & _ & _ & Hl). destruct (Hl _ eq_refl) as [? _].
  destruct pos as [l|]; [|lia]. pose proof (ok_order _ _ H _ _ _ _ _ _ F Hid ltac:(lia)).
  destruct (success_reaches c id cs last H Hid (elem_fst _ _ _ Hm)) as (o & Ho & ?). exists o. split; [done|lia].
Qed.

Lemma success_ok c id cs last : coordinator_ok tp c -> co_flight c !! id = Some (cs, Some last) ->
  coordinator_ok tp (co_with (complete_all last cs (co_group c)) (delete id (co_flight c)) (co_acked c ++ [(last, cs)])
                       (co_failed c) (co_txs c) c).
Proof.
  intros H Hid. set (g' := complete_all last cs (co_group c)).
  destruct (ok_flight _ _ H _ _ _ Hid) as (_ & Hnd & _ & Hlast). destruct (Hlast _ eq_refl) as [Happ Hlog].
  destruct (complete_all_spec last cs (co_group c) tp Hnd) as [Hst E]. fold g' in Hst, E.
  assert (Hfw : forall o, _) by exact (fun o => complete_all_forward last cs (co_group c) o Hnd). fold g' in Hfw.
  assert (Hin : forall i v, delete id (co_flight c) !! i = Some v -> i <> id /\ co_flight c !! i = Some v).
  { intros i v Hf. by apply lookup_delete_Some in Hf as [? ?]. }
  constructor; cbn; try apply H; try done.
  - rewrite Hst. apply H.
  - intros i c1 p1 [_ Hf]%Hin. by apply (ok_flight _ _ H).
  - intros i1 i2 c1 c2 l1 l2 [_ F1]%Hin [_ F2]%Hin. by eapply (ok_order _ _ H).
  - intros i1 i2 c1 c2 p1 p2 md md' [_ F1]%Hin [_ F2]%Hin. by eapply (ok_distinct _ _ H).
  - intros p Hp.
    assert (Hp' : g_pending_offset_commits (co_group c) !! tp = Some p).
    { destruct (named cs tp); destruct E as [_ E]; rewrite E in Hp; [by eapply cleared_inv|done]. }
    destruct (ok_pending _ _ H p Hp') as (i & c1 & q & Hf & Hm & Hmax).
    assert (i <> id).
    { intros ->. rewrite Hid in Hf. injection Hf as <- <-. apply (named_elem _ _ _ Hnd) in Hm. rewrite Hm in E.
      destruct E as [_ E]. rewrite Hp', cleared_same in E. congruence. }
    exists i, c1, q. rewrite lookup_delete_ne by done. split; [done|]. split; [done|].
    intros i' c' p' [_ F]%Hin. by eapply Hmax.
  - intros i c1 q Hp [Hi F]%Hin Htp.
    destruct (g_pending_offset_commits (co_group c) !! tp) as [p|] eqn:Ep.
    + destruct (named cs tp) as [md|] eqn:En; destruct E as [_ E]; rewrite E in Hp; [|done].
      apply named_elem in En; [|done]. exact (success_supersedes c id cs last md p i c1 q H Hid En Ep Hp Hi F Htp).
    + pose proof (ok_superseded _ _ H _ _ _ Ep F Htp) as Hsup. destruct q as [l|]; cbn in *; [|done].
      destruct Hsup as (o & Ho & Hle). destruct (Hfw o Ho) as (o' & Ho' & ?). exists o'. split; [done|lia].
  - intros o Ho. assert (Hcase : g_offsets (co_group c) !! tp = Some o \/ exists md, (tp, md) ∈ cs /\ o = with_log_offset last md).
    { destruct (named cs tp) as [md|] eqn:En; destruct E as [E _]; rewrite E in Ho; [|by left].
      apply completed_origin in Ho as [Ho| ->]; [by left|right]. exists md. split; [by apply named_elem|done]. }
    destruct Hcase as [Ho'|(md & Hm & ->)].
    + destruct (ok_sound _ _ H _ Ho') as [(l & c1 & m & Hl & Hm & ->)|]; [left|by right].
      exists l, c1, m. split; [|done]. apply elem_of_app. by left.
    + left. exists last, cs, md. split; [apply elem_of_app; right; by apply list_elem_of_singleton|done].
  - intros l c1 [Hl|Hl%list_elem_of_singleton]%elem_of_app Htp.
    + destruct (ok_acked _ _ H _ _ Hl Htp) as (o & Ho & Hle). destruct (Hfw o Ho) as (o' & Ho' & ?).
      exists o'. split; [done|lia].
    + injection Hl as -> ->. by eapply success_reaches.
  - intros l c1 [Hb|Hb%list_elem_of_singleton]%elem_of_app; [by apply (ok_log_acked _ _ H)|by injection Hb as -> ->].
  - intros l c1 Hl. destruct (ok_log_rest _ _ H l c1 Hl) as [|[|[i Hf]]]; [left; apply elem_of_app; by left|by right; left|].
    destruct (decide (i = id)) as [->|].
    + left. rewrite Hid in Hf. injection Hf as <- <-. apply elem_of_app. right. by apply list_elem_of_singleton.
    + right. right. exists i. by rewrite lookup_delete_ne.
Qed.

Lemma transaction_ok c now last pid p tx g : coordinator_ok tp c -> g_producers (co_group c) !! pid.1 = Some p ->
  tp_transaction p = Some tx -> do_commit_finish now (inl last) pid (co_group c) = (tx_errc.none, g) ->
  coordinator_ok tp (co_with g (co_flight c) (co_acked c) (co_failed c) (co_txs c ++ tx_commits now (map_to_list (tx_offsets tx))) c).
Proof.
  intros H Hp Htx. unfold do_commit_finish. rewrite Hp, Htx. intros [= <-]. fold (upsert_all now (map_to_list (tx_offsets tx)) (co_group c)).
  destruct (upsert_all_spec now (map_to_list (tx_offsets tx)) (co_group c) tp) as (Hs & Hpe & Hor & Hfw). cbv zeta in *.
  constructor; cbn; rewrite ?Hs, ?Hpe; try apply H.
  - intros id cs pos Hn Hf Htp. pose proof (ok_superseded _ _ H _ _ _ Hn Hf Htp) as Hsup. destruct pos as [l|]; cbn in *; [|done].
    destruct Hsup as (o & Ho & Hle). destruct (Hfw o Ho) as (o' & Ho' & ?). exists o'. split; [done|lia].
  - intros o [Ho|Ho]%Hor; [|right; apply elem_of_app; by right].
    destruct (ok_sound _ _ H _ Ho) as [|]; [by left|right; apply elem_of_app; by left].
  - intros l cs Hl Htp. destruct (ok_acked _ _ H _ _ Hl Htp) as (o & Ho & Hle). destruct (Hfw o Ho) as (o' & Ho' & ?).
    exists o'. split; [done|lia].
Qed.

Lemma coordinator_step_ok (Q : topic_partition -> Prop) c c' : Q tp -> coordinator_ok tp c -> coordinator_step Q c c' -> coordinator_ok tp c'.
Proof.
  intros HQ H. destruct 1 as [now r g cs E Hq|now r g e E|id cs last Hf Ha Hl|last b Hl|id cs last g Hf E|id cs pos e ec g Hf Hal E|
    now last pid p tx g Hp Htx E|g Hg Hs].
  - destruct (Hq tp HQ) as [Hn Hd].
    destruct (handle_offset_commit_outcome _ _ _ _ _ E) as [[_ [e ?]]|(cs' & Hne & -> & [= <-])]; [done|]. by apply request_ok.
  - destruct (handle_offset_commit_outcome _ _ _ _ _ E) as [[-> _]|(cs' & _ & _ & ?)]; [|done].
    apply regroup_ok; [done..|apply H].
  - by apply append_ok.
  - by apply write_ok.
  - apply success_effect in E as ->; [|apply H]. by apply success_ok.
  - apply failure_effect in E as ->; [|apply H]. eapply failure_ok; [done|done|by apply Hal].
  - by eapply transaction_ok.
  - destruct (Hg tp HQ). by apply regroup_ok.
Qed.

Lemma coordinator_run_ok (Q : topic_partition -> Prop) c : Q tp -> coordinator_run Q c -> coordinator_ok tp c.
Proof.
  intros HQ (g & Ho & Hp & Hs & Hrun). pose proof (start_ok tp g Ho Hp Hs) as H. clear Ho Hp Hs.
  induction Hrun as [|c1 c2 c3 Hstep _ IH]; [done|]. by apply IH, (coordinator_step_ok Q c1).
Qed.
End invariant.

(** *** Other handlers are steps *)

Section other_steps.
Variables (Q : topic_partition -> Prop) (c : coordinator).
Hypothesis alive : g_state (co_group c) <> dead.
Abbreviation to g := (co_with g (co_flight c) (co_acked c) (co_failed c) (co_txs c) c).

(** Transactions change the offsets only when they are committed. *)
Lemma begin_tx_is_step result r : coordinator_step Q c (to (begin_tx_fenced result r (co_group c)).2).
Proof. apply co_regroup; by destruct result. Qed.

Lemma txn_offsets_is_step result id offsets : coordinator_step Q c (to (txn_offsets_stored result id offsets (co_group c)).2).
Proof. apply co_regroup; unfold txn_offsets_stored; by repeat case_match. Qed.

Lemma abort_tx_is_step result pid : coordinator_step Q c (to (do_abort_finish result pid (co_group c)).2).
Proof. apply co_regroup; unfold do_abort_finish; cbn; by repeat case_match. Qed.

(** Deletions of offsets of other partitions. *)
Lemma deletion_fold_spec tps g tp : tp ∉ tps ->
  let g' := fold_left (fun g tp => with_offsets (delete tp (g_offsets g)) (delete tp (g_pending_offset_commits g)) g) tps g in
  g_state g' = g_state g /\ g_offsets g' !! tp = g_offsets g !! tp /\
  g_pending_offset_commits g' !! tp = g_pending_offset_commits g !! tp.
Proof.
  revert g. induction tps as [|t tps IH]; intros g Hn; [done|]. apply not_elem_of_cons in Hn as [Hne Hn]. cbn [fold_left].
  specialize (IH (with_offsets (delete t (g_offsets g)) (delete t (g_pending_offset_commits g)) g) Hn). cbv zeta in *.
  destruct IH as (-> & -> & ->). cbn. by rewrite !lookup_delete_ne.
Qed.

Lemma delete_offsets_is_step now tps g deleted : delete_offsets now tps (co_group c) = Ok (g, deleted) ->
  (forall tp, Q tp -> tp ∉ tps) -> g_state g <> dead -> coordinator_step Q c (to g).
Proof.
  unfold delete_offsets. intros E HQ Hd. apply co_regroup; [|done]. intros tp Htp.
  set (del := List.filter (fun tp => negb (group_subscribed tp.1 (co_group c))) tps) in E.
  assert (Hn : tp ∉ del). { intros Hin%list_elem_of_In. apply filter_In in Hin as [Hin%list_elem_of_In _]. by apply (HQ tp). }
  pose proof (deletion_fold_spec del (co_group c) tp Hn) as (_ & Ho & Hp).
  unfold maybe_mark_dead in E. case_match; [|injection E as <- <-; done].
  unfold set_group_state in E. destruct (vassert _); [|done|done]. by injection E as <- <-.
Qed.
End other_steps.

(** ** Reading back the log *)






Section reading.
Variables (now : Z) (id : string) (tp : topic_partition).









(** *** A batch that does not concern the partition *)





(** *** The commits of the group *)




End reading.

(** *** The group made from what was read *)




(** The group a new coordinator has after reading the log [log] of the group [id], which [fresh] is made for. *)
Definition after_failover (now : Z) (id : string) (log : list group_batch) (fresh : group) : group :=
  match rs_groups (recover_log now log) !! id with
  | Some stm => do_recover_group stm fresh
  | None => fresh
  end.

(** C5: What a client was told is committed stays committed, for every partition that is left to plain and transactional
    commits: in every run of a coordinator, in which requests are appended in order and answered in any order, among
    other batches and requests for other partitions of which nothing is asked, once a commit of a partition in [Q] is acknowledged a fetch
    returns it, or a commit of the partition that has a later log offset: a plain one that is acknowledged too, or one of a
    committed transaction.  [Q] are partitions that no request names twice, of which the commits in flight together are for
    different offsets, of which a commit that fails is the only one in flight, and whose offsets
    are not deleted or expired (nor the group removed); [later_failure_hides_commit] shows what happens otherwise. *)
Theorem acknowledged_commits_are_fetched Q c last cs tp md : coordinator_run Q c -> Q tp -> (last, cs) ∈ co_acked c -> (tp, md) ∈ cs ->
  exists md', handle_offset_fetch false (Some [(tp.1, [tp.2])]) (co_group c) = [(tp.1, [found_offset tp.2 md'])] /\
    ((exists last' cs', (last', cs') ∈ co_acked c /\ last <= last' /\ (tp, md') ∈ cs') \/
     (tp, md') ∈ co_txs c /\ last <= md_log_offset md').
Proof.
  intros Hrun HQ Hack Hm. pose proof (coordinator_run_ok tp Q c HQ Hrun) as H.
  destruct (ok_acked _ _ H _ _ Hack ltac:(eauto)) as (o & Ho & Hle).
  assert (Hf : forall md', found_offset tp.2 o = found_offset tp.2 md' ->
    handle_offset_fetch false (Some [(tp.1, [tp.2])]) (co_group c) = [(tp.1, [found_offset tp.2 md'])]).
  { intros md' <-. unfold handle_offset_fetch, in_group_state. rewrite bool_decide_eq_false_2 by apply H.
    cbn. unfold fetch_offset. cbn. by rewrite <- (surjective_pairing tp), Ho. }
  destruct (ok_sound _ _ H _ Ho) as [(last' & cs' & md' & Hack' & Hm' & ->)|Htx].
  - exists md'. split; [by apply Hf|]. left. by exists last', cs'.
  - exists o. split; [by apply Hf|by right].
Qed.






(** ** Where memory and log part *)

Lemma fail_clears cs g tp md : once tp cs -> (tp, md) ∈ cs -> g_pending_offset_commits g !! tp = Some md ->
  g_pending_offset_commits (fail_all cs g) !! tp = None.
Proof.
  intros Hnd Hm Hp. destruct (fail_all_spec cs g tp Hnd) as (_ & _ & ->).
  apply (named_elem _ _ _ Hnd) in Hm. by rewrite Hm, Hp, cleared_same.
Qed.

(** C37: If a second commit of a partition fails while the first is in flight, the first is answered with success
    when it is replicated, but its offset does not reach memory: fetches return what they did before. *)
Theorem later_failure_hides_commit cs1 cs2 g e ec last g1 g2 tp : g_state g <> dead -> NoDup cs1.*1 -> NoDup cs2.*1 ->
  offsets_stored (inr e) cs2 (add_all_pending cs2 (add_all_pending cs1 g)) = Ok (ec, g1) ->
  offsets_stored (inl last) cs1 g1 = Ok (error_code.none, g2) -> tp ∈ cs2.*1 ->
  fetch_offset false tp g2 = fetch_offset false tp g.
Proof.
  intros Hd N1%(NoDup_once tp) N2%(NoDup_once tp) E1 E2 Htp. unfold fetch_offset. cbn [andb].
  destruct (add_all_pending_spec cs1 g tp N1) as (S1 & O1 & _).
  destruct (add_all_pending_spec cs2 (add_all_pending cs1 g) tp N2) as (S2 & O2 & P2).
  apply failure_effect in E1 as ->; [|by rewrite S2, S1].
  destruct (fail_all_spec cs2 (add_all_pending cs2 (add_all_pending cs1 g)) tp N2) as (S3 & O3 & _).
  apply success_effect in E2 as ->; [|by rewrite S3, S2, S1].
  apply fst_elem in Htp as [md Hm]. pose proof Hm as Hm2. apply (named_elem _ _ _ N2) in Hm. rewrite Hm in P2.
  pose proof (fail_clears _ _ _ _ N2 Hm2 P2) as Hp.
  destruct (complete_all_spec last cs1 (fail_all cs2 (add_all_pending cs2 (add_all_pending cs1 g))) tp N1) as [_ E].
  rewrite Hp, O3, O2, O1 in E. destruct (named cs1 tp); by destruct E as [-> _].
Qed.

(** ** Examples *)

Module offset_examples.

Definition g0 : group :=
  {| g_state := empty; g_state_timestamp := None; g_generation := 0; g_protocol_type := None; g_subscriptions := None;
     g_members := ∅; g_static_members := ∅; g_offsets := ∅; g_pending_offset_commits := ∅; g_producers := ∅; g_term := 1 |}.

(** A standalone consumer commits an offset of partition 0 of a topic. *)
Definition req (offset : Z) : offset_commit_request :=
  {| oc_generation_id := -1; oc_member_id := ""; oc_group_instance_id := None; oc_retention_time_ms := -1;
     oc_topics := [("t"%string, [{| cp_partition_index := 0; cp_committed_offset := offset; cp_committed_leader_epoch := 3;
                                   cp_committed_metadata := None; cp_commit_timestamp := -1 |}])] |}.

Definition offset_held (g : group) : option Z := md_offset <$> g_offsets g !! ("t"%string, 0).
Definition cs_of (offset : Z) : commits := offset_commits 1000 (req offset).

(** Two commits overlap; the second is answered first. *)
Definition state (g : group) (flight : gmap nat (commits * option Z)) (n : nat) (last : Z) (log : list (Z * log_entry))
    (acked : list (Z * commits)) :=
  {| co_group := g; co_flight := flight; co_next := n; co_appended := n; co_end := last; co_log := log; co_acked := acked;
     co_failed := []; co_txs := [] |}.

Definition g5 : group := add_all_pending (cs_of 5) g0.
Definition g57 : group := add_all_pending (cs_of 7) g5.
Definition c2 : coordinator :=
  state g57 (<[1%nat := (cs_of 7, Some 11)]> (<[0%nat := (cs_of 5, Some 10)]> ∅)) 2 11
    [(10, committed (cs_of 5)); (11, committed (cs_of 7))] [].
Definition c3 : coordinator :=
  co_with (complete_all 11 (cs_of 7) g57) (delete 1%nat (co_flight c2)) [(11, cs_of 7)] [] [] c2.
Definition c4 : coordinator :=
  co_with (complete_all 10 (cs_of 5) (complete_all 11 (cs_of 7) g57)) (delete 0%nat (co_flight c3))
    [(11, cs_of 7); (10, cs_of 5)] [] [] c2.

(** The group's metadata and a record of another group follow. *)
Definition other_batch : group_batch := raft_data_batch 12 [metadata_record "grp" true; offset_record "other" ("t"%string, 0) None].
Definition c5 : coordinator := state (co_group c4) (co_flight c4) 2 13 (co_log c4 ++ [(13, written other_batch)]) (co_acked c4).

Definition watched (tp : topic_partition) : Prop := tp = ("t"%string, 0).

Lemma once_cs tp offset : once tp (cs_of offset).
Proof. split; [intros _; apply not_elem_of_nil|done]. Qed.

Lemma c2_run : rtc (coordinator_step watched) (start_coordinator g0) c2.
Proof.
  eapply rtc_l; [apply (co_request _ (start_coordinator g0) 1000 (req 5) g5 (cs_of 5)); [vm_compute; reflexivity|]|].
  { intros tp _. split; [apply once_cs|]. intros id ? ? ? ? Hf. cbn in Hf. by rewrite lookup_empty in Hf. }
  eapply rtc_l; [apply (co_append _ _ 0 (cs_of 5) 10); [vm_compute; reflexivity|cbn; lia|vm_compute; discriminate]|].
  cbn [co_group co_flight co_next co_appended co_end co_log co_acked co_failed co_txs]. rewrite insert_insert_eq.
  eapply rtc_l; [apply (co_request _ _ 1000 (req 7) g57 (cs_of 7)); [vm_compute; reflexivity|]|].
  { intros tp _. split; [apply once_cs|]. intros id cs pos md md' Hf. cbn in Hf.
    apply lookup_insert_Some in Hf as [[<- [= <- <-]]|[_ Hf]]; [|by rewrite lookup_empty in Hf].
    intros H1%list_elem_of_singleton H2%list_elem_of_singleton. simplify_eq. cbn. lia. }
  eapply rtc_l; [apply (co_append _ _ 1 (cs_of 7) 11); [vm_compute; reflexivity|cbn; lia|vm_compute; discriminate]|].
  cbn [co_group co_flight co_next co_appended co_end co_log co_acked co_failed co_txs]. rewrite insert_insert_eq. apply rtc_refl.
Qed.

Lemma c5_run : coordinator_run watched c5.
Proof.
  exists g0. do 3 (split; [done|]). etrans; [apply c2_run|].
  eapply rtc_l; [apply (co_success _ c2 1 (cs_of 7) 11 (complete_all 11 (cs_of 7) g57)); vm_compute; reflexivity|].
  eapply rtc_l; [apply (co_success _ c3 0 (cs_of 5) 10 (complete_all 10 (cs_of 5) (co_group c3))); vm_compute; reflexivity|].
  eapply rtc_l; [apply (co_write _ c4 13 other_batch); vm_compute; discriminate|].
  apply rtc_refl.
Qed.

Lemma acknowledged_commits_are_fetched_witness :
  exists md', handle_offset_fetch false (Some [("t"%string, [0])]) (co_group c5) = [("t"%string, [found_offset 0 md'])] /\
    md_offset md' = 7.
Proof.
  destruct (acknowledged_commits_are_fetched watched c5 10 (cs_of 5) ("t"%string, 0) (commit_metadata 1000 (-1)
    {| cp_partition_index := 0; cp_committed_offset := 5; cp_committed_leader_epoch := 3;
       cp_committed_metadata := None; cp_commit_timestamp := -1 |}) c5_run eq_refl) as (md' & H & _).
  - right. left.
  - left.
  - exists md'. split; [exact H|]. vm_compute in H. by injection H.
Defined.


Lemma later_failure_hides_commit_witness :
  fetch_offset false ("t"%string, 0)
    (complete_all 10 (cs_of 5) (fail_all (cs_of 7) (add_all_pending (cs_of 7) (add_all_pending (cs_of 5) g0)))) =
  fetch_offset false ("t"%string, 0) g0.
Proof.
  apply (later_failure_hides_commit (cs_of 5) (cs_of 7) g0 (raft_error raft_errc.timeout) error_code.request_timed_out 10
    (fail_all (cs_of 7) (add_all_pending (cs_of 7) (add_all_pending (cs_of 5) g0)))).
  - vm_compute. discriminate.
  - apply NoDup_singleton.
  - apply NoDup_singleton.
  - vm_compute. reflexivity.
  - vm_compute. reflexivity.
  - left.
Defined.

(** *** Transactions *)

Definition pid : Z * Z := (9, 0).
Definition tx_request : begin_tx_request := {| bt_pid := pid; bt_tx_seq := 1; bt_tm_partition := 0; bt_timeout := 100 |}.
Definition tx_offset (offset : Z) : list partition_offset :=
  [{| po_tp := ("t"%string, 0); po_offset := offset; po_leader_epoch := 3; po_metadata := None |}].

(** A transaction that commits [a], written at 5, and a plain commit of [b] at 6 before the transaction ends at 8. *)
Definition tx_begun : group := (begin_tx_fenced (inl 4) tx_request g0).2.
Definition tx_stored (a : Z) : group := (txn_offsets_stored (inl 5) 9 (tx_offset a) tx_begun).2.
Definition plain_stored (a b : Z) : group := complete_all 6 (cs_of b) (add_all_pending (cs_of b) (tx_stored a)).
Definition tx_ended (a b : Z) : tx_errc.t * group := do_commit_finish 3000 (inl 8) pid (plain_stored a b).

Definition tx_log (a b : Z) : list group_batch :=
  [raft_data_batch 3 [metadata_record "grp" true]; fence_batch 4 "grp" pid 1 100 0; prepare_tx_batch 5 "grp" pid (tx_offset a);
   raft_data_batch 6 (commit_records "grp" (cs_of b));
   raft_data_batch 7 (commit_records "grp" match do_commit_start 1 3000 pid 1 (plain_stored a b) with
                                          | TxReplicate cs => cs | TxReply _ => [] end);
   commit_tx_batch "grp" pid].

(** The offset that a commit was prepared with is compared with the log offset of the preparation, while the log
    holds it at the end of the transaction: a commit in between stays in memory and is replaced after a failover. *)
Theorem transaction_lost_until_failover :
  (tx_ended 100 200).1 = tx_errc.none /\ offset_held (tx_ended 100 200).2 = Some 200 /\
  offset_held (after_failover 4000 "grp" (tx_log 100 200) g0) = Some 100.
Proof. split_and!; vm_compute; reflexivity. Qed.

(** The fence of a group of which nothing else is in the log yet is skipped, and with it the offsets of the
    transaction; the commit that follows the failover is answered with success and commits nothing. *)
Definition unknown_log (a : Z) : list group_batch := [fence_batch 4 "grp" pid 1 100 0; prepare_tx_batch 5 "grp" pid (tx_offset a)].

Theorem transaction_of_unknown_group_is_lost a :
  handle_commit_tx 1 3000 pid 1 (tx_stored a) <> TxReply tx_errc.none /\
  handle_commit_tx 1 3000 pid 1 (after_failover 4000 "grp" (unknown_log a) g0) = TxReply tx_errc.none /\
  offset_held (after_failover 4000 "grp" (unknown_log a) g0) = None.
Proof. split_and!; vm_compute; done. Qed.

End offset_examples.
