(* ===== verification/GroupMembership.v ===== *)
(** * Members of a consumer group (kafka/server/group.{h,cc}, kafka/server/member.{h,cc})

    Consumers join a group, wait until the coordinator has collected everybody, learn the
    group's protocol and leader, and wait again for the leader's assignments.  A group is in
    one of five states; a member that waits holds a promise, here the number of the request
    that is answered later.  Answers to waiting requests are collected in [mg_answers].

    The join timer holds the callback it will run; when it and the timers of the members
    fire is left to the environment.  Writes of the group's metadata are entries of
    [mg_stores], whose results arrive later ([store_finished]).  The order in which hash maps
    are iterated is a parameter ([IterationOrder]).  Subscriptions, metrics and log messages
    are left out. *)

From S2P Require Import Prelude Errors GroupOffsets.

Abbreviation member_protocol := (string * list Z)%type.

(** A member, with the number of the object behind the shared pointer. *)
Record group_member := {
  m_object : nat;
  m_id : string;
  m_group_instance_id : option string;
  m_client_id : string;
  m_client_host : string;
  m_session_timeout : Z;
  m_rebalance_timeout : Z;
  m_protocol_type : string;
  m_protocols : list member_protocol;
  m_assignment : list Z;
  m_is_new : bool;
  m_latest_heartbeat : Z;
  m_expire_timer : option Z;
  m_join_promise : option nat;
  m_sync_promise : option nat;
}.

Definition is_joining (m : group_member) : bool := match m_join_promise m with Some _ => true | None => false end.
Definition is_syncing (m : group_member) : bool := match m_sync_promise m with Some _ => true | None => false end.
Definition is_static (m : group_member) : bool := match m_group_instance_id m with Some _ => true | None => false end.

Definition set_member_id (id : string) (m : group_member) : group_member :=
  {| m_object := m_object m; m_id := id; m_group_instance_id := m_group_instance_id m; m_client_id := m_client_id m;
     m_client_host := m_client_host m; m_session_timeout := m_session_timeout m; m_rebalance_timeout := m_rebalance_timeout m;
     m_protocol_type := m_protocol_type m; m_protocols := m_protocols m; m_assignment := m_assignment m; m_is_new := m_is_new m;
     m_latest_heartbeat := m_latest_heartbeat m; m_expire_timer := m_expire_timer m; m_join_promise := m_join_promise m;
     m_sync_promise := m_sync_promise m |}.

Definition set_client (protocols : list member_protocol) (client : option string) (host : string) (session rebalance : Z)
    (m : group_member) : group_member :=
  {| m_object := m_object m; m_id := m_id m; m_group_instance_id := m_group_instance_id m;
     m_client_id := default (m_client_id m) client; m_client_host := host; m_session_timeout := session;
     m_rebalance_timeout := rebalance; m_protocol_type := m_protocol_type m; m_protocols := protocols;
     m_assignment := m_assignment m; m_is_new := m_is_new m; m_latest_heartbeat := m_latest_heartbeat m;
     m_expire_timer := m_expire_timer m; m_join_promise := m_join_promise m; m_sync_promise := m_sync_promise m |}.

Definition set_assignment (a : list Z) (m : group_member) : group_member :=
  {| m_object := m_object m; m_id := m_id m; m_group_instance_id := m_group_instance_id m; m_client_id := m_client_id m;
     m_client_host := m_client_host m; m_session_timeout := m_session_timeout m; m_rebalance_timeout := m_rebalance_timeout m;
     m_protocol_type := m_protocol_type m; m_protocols := m_protocols m; m_assignment := a; m_is_new := m_is_new m;
     m_latest_heartbeat := m_latest_heartbeat m; m_expire_timer := m_expire_timer m; m_join_promise := m_join_promise m;
     m_sync_promise := m_sync_promise m |}.

Definition set_timer (is_new : bool) (heartbeat : Z) (deadline : option Z) (m : group_member) : group_member :=
  {| m_object := m_object m; m_id := m_id m; m_group_instance_id := m_group_instance_id m; m_client_id := m_client_id m;
     m_client_host := m_client_host m; m_session_timeout := m_session_timeout m; m_rebalance_timeout := m_rebalance_timeout m;
     m_protocol_type := m_protocol_type m; m_protocols := m_protocols m; m_assignment := m_assignment m; m_is_new := is_new;
     m_latest_heartbeat := heartbeat; m_expire_timer := deadline; m_join_promise := m_join_promise m;
     m_sync_promise := m_sync_promise m |}.

Definition set_promises (join sync : option nat) (m : group_member) : group_member :=
  {| m_object := m_object m; m_id := m_id m; m_group_instance_id := m_group_instance_id m; m_client_id := m_client_id m;
     m_client_host := m_client_host m; m_session_timeout := m_session_timeout m; m_rebalance_timeout := m_rebalance_timeout m;
     m_protocol_type := m_protocol_type m; m_protocols := m_protocols m; m_assignment := m_assignment m; m_is_new := m_is_new m;
     m_latest_heartbeat := m_latest_heartbeat m; m_expire_timer := m_expire_timer m; m_join_promise := join;
     m_sync_promise := sync |}.

(** [vote_for_protocol], [get_protocol_metadata] and [should_keep_alive]. *)
Definition vote_for_protocol (candidates : gset string) (m : group_member) : res string :=
  match List.find (fun p => bool_decide (p.1 ∈ candidates)) (m_protocols m) with
  | Some p => Ok p.1
  | None => Throw out_of_range
  end.

Definition get_protocol_metadata (name : string) (m : group_member) : res (list Z) :=
  match List.find (fun p => bool_decide (p.1 = name)) (m_protocols m) with
  | Some p => Ok p.2
  | None => Throw out_of_range
  end.

Definition should_keep_alive (deadline new_join_timeout : Z) (m : group_member) : bool :=
  if is_joining m then m_is_new m || (deadline <? m_latest_heartbeat m + new_join_timeout)
  else if is_syncing m then deadline <? m_latest_heartbeat m + m_session_timeout m
  else false.

(** ** Answers *)

Record member_config := { mc_member_id : string; mc_group_instance_id : option string; mc_metadata : list Z }.

Record join_group_response := {
  jr_error_code : error_code.t;
  jr_generation_id : Z;
  jr_protocol_name : string;
  jr_leader : string;
  jr_member_id : string;
  jr_members : list member_config;
}.

Definition make_join_error (id : string) (e : error_code.t) : join_group_response :=
  {| jr_error_code := e; jr_generation_id := -1; jr_protocol_name := ""; jr_leader := ""; jr_member_id := id;
     jr_members := [] |}.

Record sync_group_response := { sr_error_code : error_code.t; sr_assignment : list Z }.

Definition sync_error (e : error_code.t) : sync_group_response := {| sr_error_code := e; sr_assignment := [] |}.

Inductive answer := JoinAnswer (r : join_group_response) | SyncAnswer (r : sync_group_response).

(** ** The group *)

Inductive join_callback := Debounce (initial delay remaining : Z) | CompleteJoin.

(** A write in flight, with what its continuation has captured. *)
Inductive group_store :=
  | StoreEmpty
  | StoreSync (generation : Z) (assignments : gmap string (list Z))
  | StoreStatic (object : nat) (instance new_id old_id : string) (protocols : list member_protocol)
      (client host : string) (session rebalance : Z).

(** The metadata that is written: of a member its state, with its metadata for the group's protocol as subscription. *)
Record member_state := {
  ms_id : string;
  ms_instance_id : option string;
  ms_client_id : string;
  ms_client_host : string;
  ms_rebalance_timeout : Z;
  ms_session_timeout : Z;
  ms_subscription : list Z;
  ms_assignment : list Z;
}.

Record group_metadata := {
  gm_protocol_type : string;
  gm_generation : Z;
  gm_protocol : option string;
  gm_leader : option string;
  gm_members : list member_state;
}.

Record membership := {
  mg_state : group_state;
  mg_generation : Z;
  mg_supported_protocols : gmap string Z;
  mg_members : gmap string group_member;
  mg_static_members : gmap string string;
  mg_num_members_joining : Z;
  mg_pending_members : gset string;
  mg_protocol_type : option string;
  mg_protocol : option string;
  mg_leader : option string;
  mg_join_timer : option join_callback;
  mg_new_member_added : bool;
  mg_initial_join_in_progress : bool;
  mg_next_object : nat;
  mg_next_promise : nat;
  mg_answers : list (nat * answer);
  mg_stores : list (group_store * group_metadata);
}.

Record group_config := { group_new_member_join_timeout : Z; group_initial_rebalance_delay : Z }.

(** The order in which hash maps are visited. *)
Class IterationOrder := {
  iter_members : gmap string group_member -> list (string * group_member);
  iter_votes : gmap string Z -> list (string * Z);
}.

Class IterationLaws `{IterationOrder} := {
  iter_members_perm m : iter_members m ≡ₚ map_to_list m;
  iter_votes_perm m : iter_votes m ≡ₚ map_to_list m;
}.

Definition mg_set_state (s : group_state) (g : membership) : membership :=
  {| mg_state := s; mg_generation := mg_generation g; mg_supported_protocols := mg_supported_protocols g;
     mg_members := mg_members g; mg_static_members := mg_static_members g; mg_num_members_joining := mg_num_members_joining g;
     mg_pending_members := mg_pending_members g; mg_protocol_type := mg_protocol_type g; mg_protocol := mg_protocol g;
     mg_leader := mg_leader g; mg_join_timer := mg_join_timer g; mg_new_member_added := mg_new_member_added g;
     mg_initial_join_in_progress := mg_initial_join_in_progress g; mg_next_object := mg_next_object g;
     mg_next_promise := mg_next_promise g; mg_answers := mg_answers g; mg_stores := mg_stores g |}.

Definition mg_set_members (sp : gmap string Z) (ms : gmap string group_member) (g : membership) : membership :=
  {| mg_state := mg_state g; mg_generation := mg_generation g; mg_supported_protocols := sp;
     mg_members := ms; mg_static_members := mg_static_members g; mg_num_members_joining := mg_num_members_joining g;
     mg_pending_members := mg_pending_members g; mg_protocol_type := mg_protocol_type g; mg_protocol := mg_protocol g;
     mg_leader := mg_leader g; mg_join_timer := mg_join_timer g; mg_new_member_added := mg_new_member_added g;
     mg_initial_join_in_progress := mg_initial_join_in_progress g; mg_next_object := mg_next_object g;
     mg_next_promise := mg_next_promise g; mg_answers := mg_answers g; mg_stores := mg_stores g |}.

Definition mg_set_static (sm : gmap string string) (g : membership) : membership :=
  {| mg_state := mg_state g; mg_generation := mg_generation g; mg_supported_protocols := mg_supported_protocols g;
     mg_members := mg_members g; mg_static_members := sm; mg_num_members_joining := mg_num_members_joining g;
     mg_pending_members := mg_pending_members g; mg_protocol_type := mg_protocol_type g; mg_protocol := mg_protocol g;
     mg_leader := mg_leader g; mg_join_timer := mg_join_timer g; mg_new_member_added := mg_new_member_added g;
     mg_initial_join_in_progress := mg_initial_join_in_progress g; mg_next_object := mg_next_object g;
     mg_next_promise := mg_next_promise g; mg_answers := mg_answers g; mg_stores := mg_stores g |}.

Definition mg_set_pending (p : gset string) (g : membership) : membership :=
  {| mg_state := mg_state g; mg_generation := mg_generation g; mg_supported_protocols := mg_supported_protocols g;
     mg_members := mg_members g; mg_static_members := mg_static_members g; mg_num_members_joining := mg_num_members_joining g;
     mg_pending_members := p; mg_protocol_type := mg_protocol_type g; mg_protocol := mg_protocol g;
     mg_leader := mg_leader g; mg_join_timer := mg_join_timer g; mg_new_member_added := mg_new_member_added g;
     mg_initial_join_in_progress := mg_initial_join_in_progress g; mg_next_object := mg_next_object g;
     mg_next_promise := mg_next_promise g; mg_answers := mg_answers g; mg_stores := mg_stores g |}.

Definition mg_set_leader (pt : option string) (l : option string) (g : membership) : membership :=
  {| mg_state := mg_state g; mg_generation := mg_generation g; mg_supported_protocols := mg_supported_protocols g;
     mg_members := mg_members g; mg_static_members := mg_static_members g; mg_num_members_joining := mg_num_members_joining g;
     mg_pending_members := mg_pending_members g; mg_protocol_type := pt; mg_protocol := mg_protocol g;
     mg_leader := l; mg_join_timer := mg_join_timer g; mg_new_member_added := mg_new_member_added g;
     mg_initial_join_in_progress := mg_initial_join_in_progress g; mg_next_object := mg_next_object g;
     mg_next_promise := mg_next_promise g; mg_answers := mg_answers g; mg_stores := mg_stores g |}.

Definition mg_set_join (timer : option join_callback) (added initial : bool) (g : membership) : membership :=
  {| mg_state := mg_state g; mg_generation := mg_generation g; mg_supported_protocols := mg_supported_protocols g;
     mg_members := mg_members g; mg_static_members := mg_static_members g; mg_num_members_joining := mg_num_members_joining g;
     mg_pending_members := mg_pending_members g; mg_protocol_type := mg_protocol_type g; mg_protocol := mg_protocol g;
     mg_leader := mg_leader g; mg_join_timer := timer; mg_new_member_added := added;
     mg_initial_join_in_progress := initial; mg_next_object := mg_next_object g;
     mg_next_promise := mg_next_promise g; mg_answers := mg_answers g; mg_stores := mg_stores g |}.

Definition mg_set_generation (n : Z) (p : option string) (g : membership) : membership :=
  {| mg_state := mg_state g; mg_generation := n; mg_supported_protocols := mg_supported_protocols g;
     mg_members := mg_members g; mg_static_members := mg_static_members g; mg_num_members_joining := mg_num_members_joining g;
     mg_pending_members := mg_pending_members g; mg_protocol_type := mg_protocol_type g; mg_protocol := p;
     mg_leader := mg_leader g; mg_join_timer := mg_join_timer g; mg_new_member_added := mg_new_member_added g;
     mg_initial_join_in_progress := mg_initial_join_in_progress g; mg_next_object := mg_next_object g;
     mg_next_promise := mg_next_promise g; mg_answers := mg_answers g; mg_stores := mg_stores g |}.

(** The counters, and the answers and writes so far. *)
Definition mg_set_counts (joining : Z) (next_object next_promise : nat) (answers : list (nat * answer))
    (stores : list (group_store * group_metadata)) (g : membership) : membership :=
  {| mg_state := mg_state g; mg_generation := mg_generation g; mg_supported_protocols := mg_supported_protocols g;
     mg_members := mg_members g; mg_static_members := mg_static_members g; mg_num_members_joining := joining;
     mg_pending_members := mg_pending_members g; mg_protocol_type := mg_protocol_type g; mg_protocol := mg_protocol g;
     mg_leader := mg_leader g; mg_join_timer := mg_join_timer g; mg_new_member_added := mg_new_member_added g;
     mg_initial_join_in_progress := mg_initial_join_in_progress g; mg_next_object := next_object;
     mg_next_promise := next_promise; mg_answers := answers; mg_stores := stores |}.

Definition put_member (m : group_member) (g : membership) : membership :=
  mg_set_members (mg_supported_protocols g) (<[m_id m := m]> (mg_members g)) g.

Definition answered (p : nat) (a : answer) (g : membership) : membership :=
  mg_set_counts (mg_num_members_joining g) (mg_next_object g) (mg_next_promise g) (mg_answers g ++ [(p, a)]) (mg_stores g) g.

Definition joining_more (n : Z) (g : membership) : membership :=
  mg_set_counts (mg_num_members_joining g + n) (mg_next_object g) (mg_next_promise g) (mg_answers g) (mg_stores g) g.

Definition store_group (s : group_store) (md : group_metadata) (g : membership) : membership :=
  mg_set_counts (mg_num_members_joining g) (mg_next_object g) (mg_next_promise g) (mg_answers g) (mg_stores g ++ [(s, md)]) g.

Definition in_mg_state (s : group_state) (g : membership) : bool := bool_decide (mg_state g = s).
Definition is_group_leader (id : string) (g : membership) : bool := bool_decide (mg_leader g = Some id).

Definition member_state_valid (s : group_state) (g : membership) : bool :=
  match s with
  | empty | completing_rebalance => in_mg_state preparing_rebalance g
  | preparing_rebalance => in_mg_state empty g || in_mg_state stable g || in_mg_state completing_rebalance g
  | stable => in_mg_state completing_rebalance g
  | dead => true
  end.

Definition change_state (s : group_state) (g : membership) : res membership :=
  _ ← vassert (member_state_valid s g); Ok (mg_set_state s g).

Definition get_member (id : string) (g : membership) : res group_member :=
  match mg_members g !! id with Some m => Ok m | None => Throw out_of_range end.

Definition contains_pending_member (id : string) (g : membership) : bool := bool_decide (id ∈ mg_pending_members g).

Definition all_members_joined (g : membership) : res bool :=
  _ ← vassert (0 <=? mg_num_members_joining g);
  Ok ((Z.of_nat (size (mg_members g)) =? mg_num_members_joining g) && bool_decide (mg_pending_members g = ∅)).

(** ** Protocols *)

(** [_supported_protocols[name] += n] for the protocols of a member. *)
Definition count_protocols (n : Z) (ps : list member_protocol) (sp : gmap string Z) : gmap string Z :=
  fold_left (fun sp p => <[p.1 := default 0 (sp !! p.1) + n]> sp) ps sp.

(** The same downwards, where every count is checked. *)
Definition uncount_protocols (ps : list member_protocol) (sp : gmap string Z) : res (gmap string Z) :=
  fold_left (fun acc p =>
    sp ← acc;
    let count := default 0 (sp !! p.1) - 1 in
    _ ← vassert (0 <=? count);
    Ok (<[p.1 := count]> sp)) ps (Ok sp).

Record join_group_request := {
  jg_version : Z;
  jg_member_id : string;
  jg_group_instance_id : option string;
  jg_client_id : option string;
  jg_client_host : string;
  jg_session_timeout_ms : Z;
  jg_rebalance_timeout_ms : Z;
  jg_protocol_type : string;
  jg_protocols : list member_protocol;
}.

Definition supports_protocols (r : join_group_request) (g : membership) : bool :=
  if in_mg_state empty g
  then negb (bool_decide (jg_protocol_type r = EmptyString)) && negb (bool_decide (jg_protocols r = []))
  else if negb (bool_decide (mg_protocol_type g = Some (jg_protocol_type r))) then false
  else existsb (fun p => bool_decide (mg_supported_protocols g !! p.1 = Some (Z.of_nat (size (mg_members g))))) (jg_protocols r).

Section Iteration.

Context `{IterationOrder}.

(** The first of the candidates with the most votes, in the order of iteration. *)
Fixpoint max_vote (best : string * Z) (l : list (string * Z)) : string * Z :=
  match l with
  | [] => best
  | v :: l => max_vote (if best.2 <? v.2 then v else best) l
  end.

Definition candidates (g : membership) : gset string :=
  list_to_set ((filter (fun p => p.2 = Z.of_nat (size (mg_members g))) (map_to_list (mg_supported_protocols g))).*1).

Definition count_votes (cs : gset string) (ms : list (string * group_member)) : res (gmap string Z) :=
  fold_left (fun acc m =>
    votes ← acc;
    choice ← vote_for_protocol cs m.2;
    Ok (<[choice := default 0 (votes !! choice) + 1]> votes)) ms (Ok ∅).

Definition select_protocol (g : membership) : res string :=
  votes ← count_votes (candidates g) (iter_members (mg_members g));
  match iter_votes votes with
  | [] => Crash
  | v :: l => Ok (max_vote v l).1
  end.

(** ** Members *)

Definition add_member_no_join (m : group_member) (g : membership) : res membership :=
  g ← match m_group_instance_id m with
      | Some i => match mg_static_members g !! i with
                  | Some _ => Throw runtime_error
                  | None => Ok (mg_set_static (<[i := m_id m]> (mg_static_members g)) g)
                  end
      | None => Ok g
      end;
  let g := mg_set_leader (if bool_decide (mg_members g = ∅) then Some (m_protocol_type m) else mg_protocol_type g)
             (match mg_leader g with Some l => Some l | None => Some (m_id m) end) g in
  match mg_members g !! m_id m with
  | Some _ => Throw runtime_error
  | None => Ok (mg_set_members (count_protocols 1 (m_protocols m) (mg_supported_protocols g))
                  (<[m_id m := m]> (mg_members g)) g)
  end.

(** A new promise for a member's join request. *)
Definition get_join_response (m : group_member) (g : membership) : nat * membership :=
  let p := mg_next_promise g in
  (p, put_member (set_promises (Some p) (m_sync_promise m) m)
        (mg_set_counts (mg_num_members_joining g + 1) (mg_next_object g) (S p) (mg_answers g) (mg_stores g) g)).

Definition get_sync_response (m : group_member) (g : membership) : nat * membership :=
  let p := mg_next_promise g in
  (p, put_member (set_promises (m_join_promise m) (Some p) m)
        (mg_set_counts (mg_num_members_joining g) (mg_next_object g) (S p) (mg_answers g) (mg_stores g) g)).

Definition add_member (m : group_member) (g : membership) : res (nat * membership) :=
  g ← add_member_no_join m g; Ok (get_join_response m g).

Definition update_member_no_join (id : string) (protocols : list member_protocol) (client : option string) (host : string)
    (session rebalance : Z) (g : membership) : res membership :=
  m ← get_member id g;
  sp ← uncount_protocols (m_protocols m) (mg_supported_protocols g);
  Ok (mg_set_members (count_protocols 1 protocols sp)
        (<[id := set_client protocols client host session rebalance m]> (mg_members g)) g).

(** None is the exception that a member that is already joining gets. *)
Definition update_member (id : string) (r : join_group_request) (g : membership) : res (option nat * membership) :=
  g ← update_member_no_join id (jg_protocols r) (jg_client_id r) (jg_client_host r) (jg_session_timeout_ms r)
        (jg_rebalance_timeout_ms r) g;
  m ← get_member id g;
  if is_joining m then Ok (None, g)
  else let '(p, g) := get_join_response m g in Ok (Some p, g).

Definition rebalance_timeout (g : membership) : Z :=
  match iter_members (mg_members g) with
  | [] => 0
  | m :: l => fold_left (fun t m => t `max` m_rebalance_timeout m.2) l (m_rebalance_timeout m.2)
  end.

Definition try_finish_joining_member (id : string) (r : join_group_response) (g : membership) : res membership :=
  match mg_members g !! id with
  | Some m =>
      match m_join_promise m with
      | Some p =>
          let g := joining_more (-1) (answered p (JoinAnswer r) (put_member (set_promises None (m_sync_promise m) m) g)) in
          _ ← vassert (0 <=? mg_num_members_joining g);
          Ok g
      | None => Ok g
      end
  | None => Ok g
  end.

Definition set_sync_response (id : string) (r : sync_group_response) (g : membership) : membership :=
  match mg_members g !! id with
  | Some m => match m_sync_promise m with
              | Some p => answered p (SyncAnswer r) (put_member (set_promises (m_join_promise m) None m) g)
              | None => g
              end
  | None => g
  end.

Definition schedule_next_heartbeat_expiration (now : Z) (id : string) (g : membership) : membership :=
  match mg_members g !! id with
  | Some m => put_member (set_timer (m_is_new m) now (Some (now + m_session_timeout m)) m) g
  | None => g
  end.

(** Every member in turn. *)
Definition for_each_member (f : string -> membership -> res membership) (g : membership) : res membership :=
  fold_left (fun acc m => g ← acc; f m.1 g) (iter_members (mg_members g)) (Ok g).

Definition member_metadata (g : membership) : res (list member_config) :=
  _ ← throw_if (in_mg_state dead g || in_mg_state preparing_rebalance g) runtime_error;
  fold_left (fun acc m =>
    l ← acc;
    name ← opt_value (mg_protocol g);
    md ← get_protocol_metadata name m.2;
    Ok (l ++ [{| mc_member_id := m.1; mc_group_instance_id := m_group_instance_id m.2; mc_metadata := md |}]))
    (iter_members (mg_members g)) (Ok []).

Definition member_assignments (l : list (string * list Z)) : gmap string (list Z) :=
  fold_left (fun res a => match res !! a.1 with Some _ => res | None => <[a.1 := a.2]> res end) l ∅.

Definition add_missing_assignments (a : gmap string (list Z)) (g : membership) : gmap string (list Z) :=
  a ∪ ((fun _ => []) <$> mg_members g).

Definition set_assignments (a : gmap string (list Z)) (g : membership) : res membership :=
  for_each_member (fun id g =>
    m ← get_member id g;
    x ← match a !! id with Some x => Ok x | None => Throw out_of_range end;
    Ok (put_member (set_assignment x m) g)) g.

Definition clear_assignments (g : membership) : membership :=
  mg_set_members (mg_supported_protocols g) (set_assignment [] <$> mg_members g) g.

Definition state_of (m : group_member) (assignment subscription : list Z) : member_state :=
  {| ms_id := m_id m; ms_instance_id := m_group_instance_id m; ms_client_id := m_client_id m;
     ms_client_host := m_client_host m; ms_rebalance_timeout := m_rebalance_timeout m;
     ms_session_timeout := m_session_timeout m; ms_subscription := subscription; ms_assignment := assignment |}.

(** [do_checkpoint], with the assignments given. *)
Definition checkpoint (a : gmap string (list Z)) (g : membership) : res group_metadata :=
  ms ← fold_left (fun acc m =>
         l ← acc;
         x ← match a !! m.1 with Some x => Ok x | None => Throw out_of_range end;
         name ← opt_value (mg_protocol g);
         md ← get_protocol_metadata name m.2;
         Ok (l ++ [state_of m.2 x md])) (iter_members (mg_members g)) (Ok []);
  Ok {| gm_protocol_type := default EmptyString (mg_protocol_type g); gm_generation := mg_generation g;
        gm_protocol := mg_protocol g; gm_leader := mg_leader g; gm_members := ms |}.

(** ** Rebalancing *)

Definition finish_syncing_members (now : Z) (e : error_code.t) (g : membership) : res membership :=
  for_each_member (fun id g =>
    m ← get_member id g;
    if is_syncing m
    then Ok (schedule_next_heartbeat_expiration now id
               (set_sync_response id {| sr_error_code := e; sr_assignment := m_assignment m |} g))
    else Ok g) g.

Definition leader_rejoined (g : membership) : res (bool * membership) :=
  match mg_leader g with
  | None => Ok (false, g)
  | Some l =>
      m ← get_member l g;
      if is_joining m then Ok (true, g)
      else match List.find (fun m => is_joining m.2) (iter_members (mg_members g)) with
           | None => Ok (false, g)
           | Some m => Ok (true, mg_set_leader (mg_protocol_type g) (Some m.1) g)
           end
  end.

(** The generation is a signed 32-bit number; its overflow is undefined and counts as a crash. *)
Definition advance_generation (g : membership) : res membership :=
  _ ← vassert (mg_generation g <? 2147483647);
  let n := mg_generation g + 1 in
  if bool_decide (mg_members g = ∅) then change_state empty (mg_set_generation n None g)
  else p ← select_protocol g; change_state completing_rebalance (mg_set_generation n (Some p) g).

(** The leader after a member is gone: any of the others. *)
Definition next_leader (g : membership) : option string :=
  match iter_members (mg_members g) with m :: _ => Some m.1 | [] => None end.

(** The removal of a member that has not joined, in the loop of [complete_join]. *)
Definition remove_unjoined (id : string) (g : membership) : res membership :=
  m ← get_member id g;
  if negb (is_joining m) && negb (is_static m) then
    sp ← uncount_protocols (m_protocols m) (mg_supported_protocols g);
    let leader := is_group_leader id g in
    let g := mg_set_members sp (delete id (mg_members g)) g in
    Ok (if (leader : bool) then mg_set_leader (mg_protocol_type g) (next_leader g) g else g)
  else Ok g.

Definition join_response (id : string) (md : list member_config) (g : membership) : join_group_response :=
  {| jr_error_code := error_code.none; jr_generation_id := mg_generation g;
     jr_protocol_name := default EmptyString (mg_protocol g); jr_leader := default EmptyString (mg_leader g);
     jr_member_id := id; jr_members := md |}.

Definition finish_join_of (now : Z) (id : string) (g : membership) : res membership :=
  md ← (if is_group_leader id g then member_metadata g else Ok []);
  g ← try_finish_joining_member id (join_response id md g) g;
  let g := schedule_next_heartbeat_expiration now id g in
  m ← get_member id g;
  Ok (put_member (set_timer false (m_latest_heartbeat m) (m_expire_timer m) m) g).

Definition arm_join (t : join_callback) (g : membership) : membership :=
  mg_set_join (Some t) (mg_new_member_added g) (mg_initial_join_in_progress g) g.

Definition cancel_join_timer (g : membership) : membership :=
  mg_set_join None (mg_new_member_added g) (mg_initial_join_in_progress g) g.

Definition complete_join (now : Z) (g : membership) : res membership :=
  let g := mg_set_join (mg_join_timer g) (mg_new_member_added g) false g in
  g ← for_each_member remove_unjoined g;
  if in_mg_state dead g then Ok g
  else
    '(rejoined, g) ← leader_rejoined g;
    if negb rejoined && negb (bool_decide (mg_members g = ∅)) then Ok (arm_join CompleteJoin g)
    else
      g ← advance_generation g;
      if in_mg_state empty g then md ← checkpoint ∅ g; Ok (store_group StoreEmpty md g)
      else for_each_member (finish_join_of now) g.

Definition try_prepare_rebalance (c : group_config) (now : Z) (g : membership) : res membership :=
  if negb (member_state_valid preparing_rebalance g) then Ok g
  else
    g ← (if in_mg_state completing_rebalance g
         then finish_syncing_members now error_code.rebalance_in_progress (clear_assignments g) else Ok g);
    let initial := in_mg_state empty g in
    g ← change_state preparing_rebalance g;
    let g := mg_set_join (mg_join_timer g) (mg_new_member_added g) initial g in
    if (initial : bool) then
      let delay := group_initial_rebalance_delay c in
      Ok (arm_join (Debounce delay delay ((rebalance_timeout g - delay) `max` 0)) g)
    else
      joined ← all_members_joined g;
      if (joined : bool) then complete_join now g else Ok (arm_join CompleteJoin g).

(** The join timer fires. *)
Definition join_timer_fired (now : Z) (g : membership) : res membership :=
  match mg_join_timer g with
  | None => Ok g
  | Some CompleteJoin => complete_join now (cancel_join_timer g)
  | Some (Debounce initial delay remaining) =>
      let g := cancel_join_timer g in
      if mg_new_member_added g && negb (remaining =? 0)
      then Ok (mg_set_join (Some (Debounce initial (initial `min` remaining) ((remaining - delay) `max` 0))) false
                 (mg_initial_join_in_progress g) g)
      else complete_join now g
  end.


(** ** Departures *)

Definition is_armed (g : membership) : bool := match mg_join_timer g with Some _ => true | None => false end.

(** The join phase ends early when nobody is missing. *)
Definition complete_if_joined (now : Z) (g : membership) : res membership :=
  joined ← all_members_joined g;
  if (joined : bool) then complete_join now (cancel_join_timer g) else Ok g.

Definition remove_pending_member (now : Z) (id : string) (g : membership) : res membership :=
  let g := mg_set_pending (mg_pending_members g ∖ {[id]}) g in
  if in_mg_state preparing_rebalance g && is_armed g then complete_if_joined now g else Ok g.

(** The waiting join request is answered first, so the member does not join when it is counted out. *)
Definition remove_member (c : group_config) (now : Z) (id : string) (g : membership) : res membership :=
  g ← try_finish_joining_member id (make_join_error "" error_code.unknown_member_id) g;
  g ← match mg_members g !! id with
      | Some m =>
          sp ← uncount_protocols (m_protocols m) (mg_supported_protocols g);
          let g := match m_group_instance_id m with
                   | Some i => mg_set_static (delete i (mg_static_members g)) g
                   | None => g
                   end in
          Ok (mg_set_members sp (delete id (mg_members g)) g)
      | None => Ok g
      end;
  let g := if is_group_leader id g then mg_set_leader (mg_protocol_type g) (next_leader g) g else g in
  match mg_state g with
  | preparing_rebalance => if is_armed g then complete_if_joined now g else Ok g
  | stable | completing_rebalance => try_prepare_rebalance c now g
  | empty | dead => Ok g
  end.

Fixpoint remove_members (fuel : nat) (c : group_config) (now : Z) (g : membership) : res membership :=
  match fuel, next_leader g with
  | _, None => Ok g
  | S fuel, Some id => g ← remove_member c now id g; remove_members fuel c now g
  | O, Some _ => Crash
  end.

Definition remove_full_members (c : group_config) (now : Z) (g : membership) : res membership :=
  remove_members (size (mg_members g)) c now g.

(** [heartbeat_expire]. *)
Definition heartbeat_expire (c : group_config) (now : Z) (id : string) (deadline : Z) (g : membership) : res membership :=
  if in_mg_state dead g then Ok g
  else if contains_pending_member id g then remove_pending_member now id g
  else match mg_members g !! id with
       | None => Ok g
       | Some m => if should_keep_alive deadline (group_new_member_join_timeout c) m then Ok g else remove_member c now id g
       end.

(** A member's timer fires: it is disarmed and runs the callback with its deadline. *)
Definition member_timer_fired (c : group_config) (now : Z) (id : string) (g : membership) : res membership :=
  match mg_members g !! id with
  | Some m => match m_expire_timer m with
              | Some deadline =>
                  heartbeat_expire c now id deadline (put_member (set_timer (m_is_new m) (m_latest_heartbeat m) None m) g)
              | None => Ok g
              end
  | None => Ok g
  end.

Definition pending_timer_fired (now : Z) (id : string) (g : membership) : res membership :=
  if contains_pending_member id g then remove_pending_member now id g else Ok g.

(** ** Joining *)

Inductive join_outcome := JoinNow (r : join_group_response) | JoinLater (p : nat) | JoinException.

Definition outcome_of (p : option nat) : join_outcome := match p with Some p => JoinLater p | None => JoinException end.

Definition validate_member (id : string) (instance : option string) (g : membership) : error_code.t :=
  match instance with
  | Some i => match mg_static_members g !! i with
              | None => error_code.unknown_member_id
              | Some m => if bool_decide (m = id) then error_code.none else error_code.fenced_instance_id
              end
  | None => if bool_decide (id ∈ dom (mg_members g)) then error_code.none else error_code.unknown_member_id
  end.

(** A static member gets a new id, which nobody has yet; its requests under the old id end. *)
Definition replace_static_member (instance old_id new_id : string) (g : membership) : res membership :=
  match mg_members g !! old_id with
  | None => Throw runtime_error
  | Some m =>
      let g := mg_set_members (mg_supported_protocols g)
                 (<[new_id := set_member_id new_id m]> (delete old_id (mg_members g))) g in
      g ← try_finish_joining_member new_id (make_join_error old_id error_code.fenced_instance_id) g;
      let g := set_sync_response new_id (sync_error error_code.fenced_instance_id) g in
      let g := if is_group_leader old_id g then mg_set_leader (mg_protocol_type g) (Some new_id) g else g in
      _ ← vassert (bool_decide (is_Some (mg_static_members g !! instance)));
      Ok (mg_set_static (<[instance := new_id]> (mg_static_members g)) g)
  end.

Definition new_member (id : string) (r : join_group_request) (object : nat) : group_member :=
  {| m_object := object; m_id := id; m_group_instance_id := jg_group_instance_id r;
     m_client_id := default EmptyString (jg_client_id r); m_client_host := jg_client_host r;
     m_session_timeout := jg_session_timeout_ms r; m_rebalance_timeout := jg_rebalance_timeout_ms r;
     m_protocol_type := jg_protocol_type r; m_protocols := jg_protocols r; m_assignment := []; m_is_new := true;
     m_latest_heartbeat := 0; m_expire_timer := None; m_join_promise := None; m_sync_promise := None |}.

Definition add_member_and_rebalance (c : group_config) (now : Z) (id : string) (r : join_group_request) (g : membership) :
    res (join_outcome * membership) :=
  let m := new_member id r (mg_next_object g) in
  let g := mg_set_counts (mg_num_members_joining g) (S (mg_next_object g)) (mg_next_promise g) (mg_answers g) (mg_stores g) g in
  let g := if in_mg_state preparing_rebalance g && (mg_generation g =? 0)
           then mg_set_join (mg_join_timer g) true (mg_initial_join_in_progress g) g else g in
  '(p, g) ← add_member m g;
  let g := mg_set_pending (mg_pending_members g ∖ {[id]}) g in
  m ← get_member id g;
  let g := put_member (set_timer true now (Some (now + group_new_member_join_timeout c)) m) g in
  g ← try_prepare_rebalance c now g;
  Ok (JoinLater p, g).

Definition update_member_and_rebalance (c : group_config) (now : Z) (id : string) (r : join_group_request) (g : membership) :
    res (join_outcome * membership) :=
  '(p, g) ← update_member id r g;
  g ← try_prepare_rebalance c now g;
  Ok (outcome_of p, g).

(** The protocols that a failed write brings back are read after the update, as the code does. *)
Definition update_static_member_and_rebalance (c : group_config) (now : Z) (instance old_id new_id : string)
    (r : join_group_request) (g : membership) : res (join_outcome * membership) :=
  g ← replace_static_member instance old_id new_id g;
  let g := schedule_next_heartbeat_expiration now new_id g in
  old ← get_member new_id g;
  '(p, g) ← update_member new_id r g;
  m ← get_member new_id g;
  match mg_state g with
  | stable =>
      next ← select_protocol g;
      if bool_decide (mg_protocol g = Some next) then
        md ← checkpoint (m_assignment <$> mg_members g) g;
        Ok (outcome_of p,
            store_group (StoreStatic (m_object m) instance new_id old_id (m_protocols m) (m_client_id old)
                           (m_client_host old) (m_session_timeout old) (m_rebalance_timeout old)) md g)
      else g ← try_prepare_rebalance c now g; Ok (outcome_of p, g)
  | preparing_rebalance => Ok (outcome_of p, g)
  | completing_rebalance => g ← try_prepare_rebalance c now g; Ok (outcome_of p, g)
  | empty | dead => Throw runtime_error
  end.

Definition add_new_static_member (c : group_config) (now : Z) (instance new_id : string) (r : join_group_request)
    (g : membership) : res (join_outcome * membership) :=
  match mg_static_members g !! instance with
  | Some old_id => update_static_member_and_rebalance c now instance old_id new_id r g
  | None => add_member_and_rebalance c now new_id r g
  end.

Definition add_pending_member (id : string) (g : membership) : membership :=
  mg_set_pending ({[id]} ∪ mg_pending_members g) g.

Definition add_new_dynamic_member (c : group_config) (now : Z) (new_id : string) (r : join_group_request) (g : membership) :
    res (join_outcome * membership) :=
  if 4 <=? jg_version r
  then Ok (JoinNow (make_join_error new_id error_code.member_id_required), add_pending_member new_id g)
  else add_member_and_rebalance c now new_id r g.

Definition join_group_unknown_member (c : group_config) (now : Z) (new_id : string) (r : join_group_request) (g : membership) :
    res (join_outcome * membership) :=
  if in_mg_state dead g then Ok (JoinNow (make_join_error "" error_code.coordinator_not_available), g)
  else if negb (supports_protocols r g) then Ok (JoinNow (make_join_error "" error_code.inconsistent_group_protocol), g)
  else match jg_group_instance_id r with
       | Some i => add_new_static_member c now i new_id r g
       | None => add_new_dynamic_member c now new_id r g
       end.

Definition join_group_known_member (c : group_config) (now : Z) (r : join_group_request) (g : membership) :
    res (join_outcome * membership) :=
  let id := jg_member_id r in
  if in_mg_state dead g then Ok (JoinNow (make_join_error id error_code.coordinator_not_available), g)
  else if negb (supports_protocols r g) then Ok (JoinNow (make_join_error id error_code.inconsistent_group_protocol), g)
  else if contains_pending_member id g then add_member_and_rebalance c now id r g
  else
    let ec := validate_member id (jg_group_instance_id r) g in
    if negb (bool_decide (ec = error_code.none)) then Ok (JoinNow (make_join_error id ec), g)
    else
      m ← get_member id g;
      let same := bool_decide (jg_protocols r = m_protocols m) in
      match mg_state g with
      | preparing_rebalance => update_member_and_rebalance c now id r g
      | completing_rebalance =>
          if (same : bool) then
            md ← (if is_group_leader id g then member_metadata g else Ok []);
            Ok (JoinNow (join_response id md g), g)
          else update_member_and_rebalance c now id r g
      | stable =>
          if is_group_leader id g || negb same then update_member_and_rebalance c now id r g
          else Ok (JoinNow (join_response id [] g), g)
      | empty | dead => Ok (JoinNow (make_join_error id error_code.unknown_member_id), g)
      end.

(** [new_id] is the id that [generate_member_id] makes for an unknown member. *)
Definition handle_join_group (c : group_config) (now : Z) (new_id : string) (is_new_group : bool) (r : join_group_request)
    (g : membership) : res (join_outcome * membership) :=
  '(out, g) ← (if bool_decide (jg_member_id r = EmptyString) then join_group_unknown_member c now new_id r g
               else join_group_known_member c now r g);
  if negb is_new_group && negb (mg_initial_join_in_progress g) && in_mg_state preparing_rebalance g
  then g ← complete_if_joined now g; Ok (out, g)
  else Ok (out, g).

(** ** Syncing, heartbeats and departures *)

Record sync_group_request := {
  sg_member_id : string;
  sg_group_instance_id : option string;
  sg_generation_id : Z;
  sg_assignments : list (string * list Z);
}.

Inductive sync_outcome := SyncNow (r : sync_group_response) | SyncLater (p : nat).

Definition sync_group_completing_rebalance (r : sync_group_request) (g : membership) : res (sync_outcome * membership) :=
  m ← get_member (sg_member_id r) g;
  let '(p, g) := get_sync_response m g in
  if negb (is_group_leader (sg_member_id r) g) then Ok (SyncLater p, g)
  else
    let a := add_missing_assignments (member_assignments (sg_assignments r)) g in
    md ← checkpoint a g;
    Ok (SyncLater p, store_group (StoreSync (mg_generation g) a) md g).

Definition handle_sync_group (now : Z) (r : sync_group_request) (g : membership) : res (sync_outcome * membership) :=
  if in_mg_state dead g then Ok (SyncNow (sync_error error_code.coordinator_not_available), g)
  else
    let ec := validate_member (sg_member_id r) (sg_group_instance_id r) g in
    if negb (bool_decide (ec = error_code.none)) then Ok (SyncNow (sync_error ec), g)
    else if negb (sg_generation_id r =? mg_generation g) then Ok (SyncNow (sync_error error_code.illegal_generation), g)
    else match mg_state g with
         | empty => Ok (SyncNow (sync_error error_code.unknown_member_id), g)
         | preparing_rebalance => Ok (SyncNow (sync_error error_code.rebalance_in_progress), g)
         | completing_rebalance => sync_group_completing_rebalance r g
         | stable =>
             m ← get_member (sg_member_id r) g;
             Ok (SyncNow {| sr_error_code := error_code.none; sr_assignment := m_assignment m |},
                 schedule_next_heartbeat_expiration now (sg_member_id r) g)
         | dead => Crash
         end.

Record heartbeat_request := { hb_member_id : string; hb_group_instance_id : option string; hb_generation_id : Z }.

Definition handle_heartbeat (now : Z) (r : heartbeat_request) (g : membership) : res (error_code.t * membership) :=
  if in_mg_state dead g then Ok (error_code.coordinator_not_available, g)
  else
    let ec := validate_member (hb_member_id r) (hb_group_instance_id r) g in
    if negb (bool_decide (ec = error_code.none)) then Ok (ec, g)
    else if negb (hb_generation_id r =? mg_generation g) then Ok (error_code.illegal_generation, g)
    else match mg_state g with
         | empty => Ok (error_code.unknown_member_id, g)
         | completing_rebalance => Ok (error_code.rebalance_in_progress, g)
         | preparing_rebalance =>
             _ ← get_member (hb_member_id r) g;
             Ok (error_code.rebalance_in_progress, schedule_next_heartbeat_expiration now (hb_member_id r) g)
         | stable =>
             _ ← get_member (hb_member_id r) g;
             Ok (error_code.none, schedule_next_heartbeat_expiration now (hb_member_id r) g)
         | dead => Crash
         end.

Definition leave_known (c : group_config) (now : Z) (id : string) (instance : option string) (g : membership) :
    res (error_code.t * membership) :=
  if contains_pending_member id g then g ← remove_pending_member now id g; Ok (error_code.none, g)
  else
    let ec := validate_member id instance g in
    if negb (bool_decide (ec = error_code.none)) then Ok (ec, g)
    else _ ← get_member id g; g ← remove_member c now id g; Ok (error_code.none, g).

(** A static member that is mapped to the unknown id would make the recursion endless. *)
Definition member_leave_group (c : group_config) (now : Z) (id : string) (instance : option string) (g : membership) :
    res (error_code.t * membership) :=
  if bool_decide (id = EmptyString) then
    match i ← instance; mg_static_members g !! i with
    | None => Ok (error_code.unknown_member_id, g)
    | Some m => if bool_decide (m = EmptyString) then Crash else leave_known c now m instance g
    end
  else leave_known c now id instance g.

Record leave_group_request := {
  lg_version : Z;
  lg_member_id : string;
  lg_members : list (string * option string);
}.

Record leave_group_response := { lr_error_code : error_code.t; lr_members : list (string * option string * error_code.t) }.

Definition leave_members (c : group_config) (now : Z) (l : list (string * option string)) (g : membership) :
    res (list (string * option string * error_code.t) * membership) :=
  fold_left (fun acc m =>
    '(out, g) ← acc;
    '(ec, g) ← member_leave_group c now m.1 m.2 g;
    Ok (out ++ [(m, ec)], g)) l (Ok ([], g)).

Definition handle_leave_group (c : group_config) (now : Z) (r : leave_group_request) (g : membership) :
    res (leave_group_response * membership) :=
  if in_mg_state dead g then Ok ({| lr_error_code := error_code.coordinator_not_available; lr_members := [] |}, g)
  else if lg_version r <? 3 then
    '(ec, g) ← member_leave_group c now (lg_member_id r) None g;
    Ok ({| lr_error_code := ec; lr_members := [] |}, g)
  else
    '(out, g) ← leave_members c now (lg_members r) g;
    Ok ({| lr_error_code := error_code.none; lr_members := out |}, g).

(** The end of the group on this node: the timers stop and the waiting requests are answered. *)
Definition stop_member (id : string) (g : membership) : res membership :=
  m ← get_member id g;
  let m := set_timer (m_is_new m) (m_latest_heartbeat m) None m in
  let g := put_member m g in
  if is_syncing m
  then Ok (set_sync_response id {| sr_error_code := error_code.not_coordinator; sr_assignment := m_assignment m |} g)
  else if is_joining m then try_finish_joining_member id (make_join_error id error_code.not_coordinator) g
  else Ok g.

Definition shutdown (g : membership) : res membership := for_each_member stop_member (cancel_join_timer g).

(** ** Results of writes *)

Definition store_synced (c : group_config) (now : Z) (error : option std_error_code) (n : Z) (a : gmap string (list Z))
    (g : membership) : res membership :=
  if negb (in_mg_state completing_rebalance g) || negb (n =? mg_generation g) then Ok g
  else match error with
       | None => g ← set_assignments a g; g ← finish_syncing_members now error_code.none g; change_state stable g
       | Some _ => g ← finish_syncing_members now error_code.not_coordinator (clear_assignments g);
                   try_prepare_rebalance c now g
       end.

Definition member_of_object (o : nat) (g : membership) : option string :=
  fst <$> List.find (fun m => Nat.eqb (m_object m.2) o) (map_to_list (mg_members g)).

Definition static_stored (o : nat) (new_id : string) (g : membership) : res membership :=
  md ← (if is_group_leader new_id g then member_metadata g else Ok []);
  match member_of_object o g with
  | Some id => try_finish_joining_member id (join_response new_id md g) g
  | None => Ok g
  end.

Definition static_not_stored (now : Z) (error : std_error_code) (instance new_id old_id : string)
    (protocols : list member_protocol) (client host : string) (session rebalance : Z) (g : membership) : res membership :=
  g ← replace_static_member instance new_id old_id g;
  g ← update_member_no_join old_id protocols (Some client) host session rebalance g;
  let g := schedule_next_heartbeat_expiration now old_id g in
  try_finish_joining_member old_id (make_join_error "" (map_store_offset_error_code error)) g.

Definition store_continues (c : group_config) (now : Z) (error : option std_error_code) (s : group_store) (g : membership) :
    res membership :=
  match s with
  | StoreEmpty => Ok g
  | StoreSync n a => store_synced c now error n a g
  | StoreStatic o i new_id old_id protocols client host session rebalance =>
      match error with
      | None => static_stored o new_id g
      | Some e => static_not_stored now e i new_id old_id protocols client host session rebalance g
      end
  end.

(** The result of the i-th write.  An exception of the continuation is lost with its task; in a sound group it comes before
    anything is changed. *)
Definition store_finished (c : group_config) (now : Z) (error : option std_error_code) (i : nat) (g : membership) : res membership :=
  match mg_stores g !! i with
  | None => Ok g
  | Some (s, _) =>
      let g := mg_set_counts (mg_num_members_joining g) (mg_next_object g) (mg_next_promise g) (mg_answers g)
                 (delete i (mg_stores g)) g in
      match store_continues c now error s g with
      | Throw _ => Ok g
      | r => r
      end
  end.

(** ** Groups *)

Definition new_group : membership :=
  {| mg_state := empty; mg_generation := 0; mg_supported_protocols := ∅; mg_members := ∅; mg_static_members := ∅;
     mg_num_members_joining := 0; mg_pending_members := ∅; mg_protocol_type := None; mg_protocol := None; mg_leader := None;
     mg_join_timer := None; mg_new_member_added := false; mg_initial_join_in_progress := false; mg_next_object := 0;
     mg_next_promise := 0; mg_answers := []; mg_stores := [] |}.

(** A group made from the metadata in the log, and its members' timers. *)
Definition recovered_member (md : group_metadata) (object : nat) (s : member_state) : group_member :=
  {| m_object := object; m_id := ms_id s; m_group_instance_id := ms_instance_id s; m_client_id := ms_client_id s;
     m_client_host := ms_client_host s; m_session_timeout := ms_session_timeout s;
     m_rebalance_timeout := ms_rebalance_timeout s; m_protocol_type := gm_protocol_type md;
     m_protocols := [(default EmptyString (gm_protocol md), ms_subscription s)]; m_assignment := ms_assignment s;
     m_is_new := false; m_latest_heartbeat := 0; m_expire_timer := None; m_join_promise := None; m_sync_promise := None |}.

Definition group_of_metadata (md : group_metadata) : membership :=
  {| mg_state := (if bool_decide (gm_members md = []) then empty else stable); mg_generation := gm_generation md;
     mg_supported_protocols := ∅; mg_members := ∅; mg_static_members := ∅; mg_num_members_joining := 0;
     mg_pending_members := ∅; mg_protocol_type := Some (gm_protocol_type md); mg_protocol := gm_protocol md;
     mg_leader := gm_leader md; mg_join_timer := None; mg_new_member_added := false; mg_initial_join_in_progress := false;
     mg_next_object := 0; mg_next_promise := 0; mg_answers := []; mg_stores := [] |}.

Definition recover_members (md : group_metadata) : res membership :=
  fold_left (fun acc s =>
    g ← acc;
    let m := recovered_member md (mg_next_object g) s in
    add_member_no_join m (mg_set_counts 0 (S (mg_next_object g)) (mg_next_promise g) (mg_answers g) (mg_stores g) g))
    (gm_members md) (Ok (group_of_metadata md)).

Definition reschedule_all_member_heartbeats (now : Z) (g : membership) : res membership :=
  for_each_member (fun id g => Ok (schedule_next_heartbeat_expiration now id g)) g.

Definition recovered_group (now : Z) (md : group_metadata) : res membership :=
  g ← recover_members md; reschedule_all_member_heartbeats now g.

End Iteration.
