(* ===== verification/GroupMembershipProps.v ===== *)
(** * Properties of consumer group membership

    A group is [sound] when its counters agree with its members, its leader and its static
    members are members, the members have a protocol in common, and the join timer runs
    exactly while members are collected.  Every request, timer and write result keeps a
    group sound and none of them fails. *)

From S2P Require Import Prelude Errors GroupOffsets GroupMembership.

(** ** Results that are values *)

Definition ok {A} (r : res A) (Q : A -> Prop) : Prop := exists x, r = Ok x /\ Q x.

Lemma ok_ret {A} (x : A) (Q : A -> Prop) : Q x -> ok (Ok x) Q.
Proof. intros. by exists x. Qed.

Lemma ok_bind {A B} (r : res A) (f : A -> res B) (P : A -> Prop) (Q : B -> Prop) :
  ok r P -> (forall x, P x -> ok (f x) Q) -> ok (r ≫= f) Q.
Proof. intros (x & -> & Hx) Hf. exact (Hf x Hx). Qed.

Lemma ok_mono {A} (r : res A) (P Q : A -> Prop) : ok r P -> (forall x, P x -> Q x) -> ok r Q.
Proof. intros (x & -> & Hx) HPQ. by exists x; auto. Qed.

Lemma ok_vassert {B} (b : bool) (f : unit -> res B) (Q : B -> Prop) : b = true -> ok (f tt) Q -> ok (vassert b ≫= f) Q.
Proof. by intros -> H. Qed.

(** A loop, with what holds when the given elements are still to come. *)
Lemma ok_loop {A S} (f : A -> S -> res S) (P : list A -> S -> Prop) l s :
  P l s -> (forall x l s, P (x :: l) s -> ok (f x s) (P l)) -> ok (fold_left (fun acc x => s ← acc; f x s) l (Ok s)) (P []).
Proof.
  intros HP Hf. revert s HP. induction l as [|x l IH]; intros s HP; cbn; [by apply ok_ret|].
  destruct (Hf x l s HP) as (s' & -> & HP'). by apply IH.
Qed.

(** ** Sums over members *)

Definition msum {A} (f : A -> Z) (m : gmap string A) : Z := foldr (fun kv a => f kv.2 + a) 0 (map_to_list m).

Lemma foldr_sum_perm {A} (f : string * A -> Z) l l' :
  l ≡ₚ l' -> foldr (fun kv a => f kv + a) 0 l = foldr (fun kv a => f kv + a) 0 l'.
Proof. induction 1; cbn; lia. Qed.

Lemma foldr_sum_app {A} (f : A -> Z) l l' :
  foldr (fun x a => f x + a) 0 (l ++ l') = foldr (fun x a => f x + a) 0 l + foldr (fun x a => f x + a) 0 l'.
Proof. induction l; cbn; lia. Qed.

Lemma msum_empty {A} (f : A -> Z) : msum f ∅ = 0.
Proof. unfold msum. by rewrite map_to_list_empty. Qed.

Lemma msum_insert {A} (f : A -> Z) m k x : m !! k = None -> msum f (<[k := x]> m) = f x + msum f m.
Proof.
  intros Hk. unfold msum. by rewrite (foldr_sum_perm (fun kv => f kv.2) _ _ (map_to_list_insert m k x Hk)).
Qed.

Lemma msum_delete {A} (f : A -> Z) m k x : m !! k = Some x -> msum f (delete k m) = msum f m - f x.
Proof.
  intros Hk. rewrite <- (insert_delete_id m k x Hk) at 2. rewrite msum_insert by apply lookup_delete_eq. lia.
Qed.

Lemma msum_update {A} (f : A -> Z) m k x y : m !! k = Some x -> msum f (<[k := y]> m) = msum f m - f x + f y.
Proof.
  intros Hk. rewrite <- (insert_delete_eq m k y), msum_insert by apply lookup_delete_eq. rewrite (msum_delete f m k x Hk). lia.
Qed.

Lemma msum_fmap {A B} (h : A -> B) (f : B -> Z) m : msum f (h <$> m) = msum (fun x => f (h x)) m.
Proof.
  unfold msum. rewrite map_to_list_fmap. induction (map_to_list m) as [|[k x] l IH]; cbn; [done|]. by rewrite IH.
Qed.

Lemma msum_bounds {A} (f : A -> Z) m : (forall x, 0 <= f x <= 1) -> 0 <= msum f m <= Z.of_nat (size m).
Proof.
  intros Hf. unfold msum. rewrite <- length_map_to_list. induction (map_to_list m) as [|[k x] l IH]; cbn; [lia|].
  specialize (Hf x). lia.
Qed.

Lemma msum_full {A} (f : A -> Z) m :
  (forall x, 0 <= f x <= 1) -> msum f m = Z.of_nat (size m) <-> (forall k x, m !! k = Some x -> f x = 1).
Proof.
  intros Hf. unfold msum. rewrite <- length_map_to_list.
  setoid_rewrite <- elem_of_map_to_list.
  assert (Hb : forall l, foldr (fun kv a => f kv.2 + a) 0 l <= Z.of_nat (length (A := string * A) l)).
  { induction l as [|[k x] l IH]; cbn; [lia|]. specialize (Hf x). lia. }
  induction (map_to_list m) as [|[k x] l IH]; cbn.
  - split; [set_solver|done].
  - specialize (Hb l). specialize (Hf x). split.
    + intros Hs k' x' Hin. apply elem_of_cons in Hin as [[= -> ->]|Hin]; [lia|]. eapply IH; [lia|done].
    + intros Hall. rewrite (Hall k x) by set_solver. rewrite (proj2 IH) by (intros; apply (Hall k0); set_solver). lia.
Qed.

Lemma msum_zero {A} (f : A -> Z) m : (forall x, 0 <= f x <= 1) -> msum f m = 0 <-> (forall k x, m !! k = Some x -> f x = 0).
Proof.
  intros Hf. unfold msum. setoid_rewrite <- elem_of_map_to_list.
  assert (Hb : forall l, 0 <= foldr (fun (kv : string * A) a => f kv.2 + a) 0 l).
  { induction l as [|[k x] l IH]; cbn; [lia|]. specialize (Hf x). lia. }
  induction (map_to_list m) as [|[k x] l IH]; cbn.
  - split; [set_solver|done].
  - specialize (Hb l). specialize (Hf x). split.
    + intros Hs k' x' Hin. apply elem_of_cons in Hin as [[= -> ->]|Hin]; [lia|]. eapply IH; [lia|done].
    + intros Hall. rewrite (Hall k x) by set_solver. rewrite (proj2 IH) by (intros; apply (Hall k0); set_solver). lia.
Qed.

(** ** What the counters count *)

Definition names (m : group_member) : list string := (m_protocols m).*1.
Definition lists (p : string) (m : group_member) : Z := if bool_decide (p ∈ names m) then 1 else 0.
Definition joins (m : group_member) : Z := if is_joining m then 1 else 0.

Lemma lists_bounds p m : 0 <= lists p m <= 1.
Proof. unfold lists. case_bool_decide; lia. Qed.

Lemma joins_bounds m : 0 <= joins m <= 1.
Proof. unfold joins. case_match; lia. Qed.

#[local] Hint Resolve lists_bounds joins_bounds : core.

Definition support (sp : gmap string Z) (p : string) : Z := default 0 (sp !! p).

Lemma support_insert sp p n q : support (<[p := n]> sp) q = if bool_decide (q = p) then n else support sp q.
Proof. unfold support. case_bool_decide; subst; by rewrite ?lookup_insert_eq, ?lookup_insert_ne by done. Qed.

Lemma count_support n ps sp q :
  NoDup ps.*1 -> support (count_protocols n ps sp) q = support sp q + (if bool_decide (q ∈ ps.*1) then n else 0).
Proof.
  revert sp. induction ps as [|p ps IH]; intros sp Hnd; cbn in *.
  - case_bool_decide; [set_solver|lia].
  - apply NoDup_cons in Hnd as [Hp Hnd]. unfold count_protocols in IH |- *. cbn [fold_left]. rewrite IH by done.
    rewrite support_insert. fold (support sp p.1).
    repeat case_bool_decide; subst; try lia; set_solver.
Qed.

Lemma uncount_support ps sp :
  NoDup ps.*1 -> (forall p, p ∈ ps.*1 -> 1 <= support sp p) ->
  ok (uncount_protocols ps sp) (fun sp' => forall q, support sp' q = support sp q - (if bool_decide (q ∈ ps.*1) then 1 else 0)).
Proof.
  revert sp. induction ps as [|p ps IH]; intros sp Hnd Hge; unfold uncount_protocols in *; cbn in *.
  - apply ok_ret. intros q. case_bool_decide; [set_solver|lia].
  - apply NoDup_cons in Hnd as [Hp Hnd]. fold (support sp p.1).
    assert (H1 := Hge p.1 (list_elem_of_here _ _)).
    replace (0 <=? support sp p.1 - 1) with true by lia. cbn.
    eapply ok_mono; [apply IH|].
    + done.
    + intros q Hq. rewrite support_insert. case_bool_decide; subst; [done|]. apply Hge. set_solver.
    + cbn. intros sp' Hsp' q. rewrite Hsp', support_insert. repeat case_bool_decide; subst; try lia; set_solver.
Qed.

(** ** Sound groups *)

Definition common_protocol (p : string) (g : membership) : Prop :=
  forall id m, mg_members g !! id = Some m -> p ∈ names m.

(** Ids of writes in flight that may come back. *)
Definition store_ids (s : group_store) : list string :=
  match s with StoreStatic _ _ new_id old_id _ _ _ _ _ => [new_id; old_id] | _ => [] end.

Definition reverts_to (s : group_store) : list string :=
  match s with StoreStatic _ _ _ old_id _ _ _ _ _ => [old_id] | _ => [] end.

Definition store_ok (own : string -> nat * option string) (g : membership) (s : group_store) : Prop :=
  match s with
  | StoreEmpty => True
  | StoreSync n _ => n <= mg_generation g
  | StoreStatic o i new_id old_id ps _ _ _ _ =>
      own new_id = (o, Some i) /\ own old_id = (o, Some i) /\ NoDup ps.*1 /\
      new_id <> EmptyString /\ old_id <> EmptyString /\ new_id <> old_id /\
      new_id ∉ mg_pending_members g /\ old_id ∉ mg_pending_members g /\ mg_members g !! old_id = None
  end.

(** The assignments of the current generation cover its members. *)
Definition covers (g : membership) (s : group_store) : Prop :=
  match s with
  | StoreSync n a => n = mg_generation g -> forall id m, mg_members g !! id = Some m -> is_Some (a !! id)
  | _ => True
  end.

Definition owns (own : string -> nat * option string) (g : membership) : Prop :=
  forall id m, mg_members g !! id = Some m -> own id = (m_object m, m_group_instance_id m).

Definition leads (g : membership) : Prop :=
  match mg_leader g with Some l => is_Some (mg_members g !! l) | None => mg_members g = ∅ end.

(** What holds in every state, also inside of the operations. *)
Record core (g : membership) : Prop := {
  co_ids : forall id m, mg_members g !! id = Some m -> m_id m = id /\ id <> EmptyString;
  co_names : forall id m, mg_members g !! id = Some m -> NoDup (names m);
  co_counts : forall p, support (mg_supported_protocols g) p = msum (lists p) (mg_members g);
  co_joining : mg_num_members_joining g = msum joins (mg_members g);
  co_static : forall i id,
    mg_static_members g !! i = Some id <-> exists m, mg_members g !! id = Some m /\ m_group_instance_id m = Some i;
  co_pending : forall id, id ∈ mg_pending_members g -> mg_members g !! id = None /\ id <> EmptyString;
  co_leader : leads g;
  co_common : mg_members g = ∅ \/ exists p, common_protocol p g;
  co_own : exists own, owns own g /\ Forall (fun s => store_ok own g s.1) (mg_stores g);
  co_reverts : NoDup (concat (map (fun s => reverts_to s.1) (mg_stores g)));
}.

Record sound (g : membership) : Prop := {
  so_core : core g;
  so_empty : mg_state g = empty \/ mg_state g = dead -> mg_members g = ∅;
  so_protocol : mg_state g = completing_rebalance \/ mg_state g = stable ->
    mg_members g <> ∅ /\ exists p, mg_protocol g = Some p /\ common_protocol p g;
  so_timer : is_Some (mg_join_timer g) <-> mg_state g = preparing_rebalance;
  so_syncing : forall id m, mg_members g !! id = Some m -> is_syncing m = true -> mg_state g = completing_rebalance;
  so_joined : mg_state g = completing_rebalance -> mg_num_members_joining g = 0;
  so_stores : mg_state g = completing_rebalance -> Forall (fun s => covers g s.1) (mg_stores g);
}.

(** ** Changes that leave the shape of the members alone *)

Definition shape (m : group_member) := (m_object m, m_id m, m_group_instance_id m, m_protocols m).

Record soft (g g' : membership) : Prop := {
  sf_members : shape <$> mg_members g' = shape <$> mg_members g;
  sf_state : mg_state g' = mg_state g;
  sf_generation : mg_generation g' = mg_generation g;
  sf_supported : mg_supported_protocols g' = mg_supported_protocols g;
  sf_static : mg_static_members g' = mg_static_members g;
  sf_pending : mg_pending_members g' = mg_pending_members g;
  sf_protocol : mg_protocol g' = mg_protocol g;
  sf_leader : mg_leader g' = mg_leader g;
  sf_timer : mg_join_timer g' = mg_join_timer g;
  sf_stores : mg_stores g' = mg_stores g;
}.

#[global] Instance soft_preorder : PreOrder soft.
Proof.
  split; [by intros g; constructor|].
  intros g1 g2 g3 [] []. constructor; by etrans.
Qed.

Lemma soft_lookup g g' id m' :
  soft g g' -> mg_members g' !! id = Some m' -> exists m, mg_members g !! id = Some m /\ shape m = shape m'.
Proof.
  intros Hs Hm. assert (H := f_equal (fun x => x !! id) (sf_members _ _ Hs)). cbn in H.
  rewrite !lookup_fmap, Hm in H. destruct (mg_members g !! id) as [m|]; [|done]. exists m. split; [done|]. symmetry. by apply (inj Some).
Qed.

Lemma soft_none g g' id : soft g g' -> mg_members g' !! id = None <-> mg_members g !! id = None.
Proof.
  intros Hs. assert (H := f_equal (fun x => x !! id) (sf_members _ _ Hs)). cbn in H. rewrite !lookup_fmap in H.
  destruct (mg_members g !! id), (mg_members g' !! id); cbn in H; naive_solver.
Qed.

Lemma soft_empty g g' : soft g g' -> mg_members g' = ∅ <-> mg_members g = ∅.
Proof. intros Hs. rewrite <- !(fmap_empty_iff shape), (sf_members _ _ Hs). done. Qed.

Lemma soft_lookup' g g' id m :
  soft g g' -> mg_members g !! id = Some m -> exists m', mg_members g' !! id = Some m' /\ shape m = shape m'.
Proof.
  intros Hs Hm. destruct (mg_members g' !! id) as [m'|] eqn:E.
  - destruct (soft_lookup _ _ _ _ Hs E) as (m0 & Hm0 & Heq). exists m'. split; [done|]. congruence.
  - apply (soft_none _ _ _ Hs) in E. congruence.
Qed.

Lemma shape_names m m' : shape m = shape m' -> names m = names m'.
Proof. intros H. exact (f_equal (fun s => (s.2).*1) H). Qed.

Lemma shape_object m m' : shape m = shape m' -> m_object m = m_object m'.
Proof. intros H. exact (f_equal (fun s => s.1.1.1) H). Qed.

Lemma shape_id m m' : shape m = shape m' -> m_id m = m_id m'.
Proof. intros H. exact (f_equal (fun s => s.1.1.2) H). Qed.

Lemma shape_instance m m' : shape m = shape m' -> m_group_instance_id m = m_group_instance_id m'.
Proof. intros H. exact (f_equal (fun s => s.1.2) H). Qed.

Lemma shape_protocols m m' : shape m = shape m' -> m_protocols m = m_protocols m'.
Proof. intros H. exact (f_equal (fun s => s.2) H). Qed.

Lemma soft_sum p g g' : soft g g' -> msum (lists p) (mg_members g') = msum (lists p) (mg_members g).
Proof.
  intros Hs. set (f := fun s : nat * string * option string * list member_protocol => if bool_decide (p ∈ (s.2).*1) then 1 else 0).
  change (lists p) with (fun m => f (shape m)). 
  rewrite <- (msum_fmap shape f (mg_members g')), <- (msum_fmap shape f (mg_members g)). by rewrite (sf_members _ _ Hs).
Qed.

Lemma soft_common p g g' : soft g g' -> common_protocol p g -> common_protocol p g'.
Proof.
  intros Hs Hc id m' Hm. destruct (soft_lookup _ _ _ _ Hs Hm) as (m & Hm0 & Heq). rewrite <- (shape_names _ _ Heq). eauto.
Qed.

Lemma soft_store own g g' s : soft g g' -> store_ok own g s -> store_ok own g' s.
Proof.
  intros Hs. destruct s; cbn; [done| |].
  - by rewrite (sf_generation _ _ Hs).
  - rewrite (sf_pending _ _ Hs), (soft_none _ _ _ Hs). done.
Qed.

Lemma soft_covers g g' s : soft g g' -> covers g s -> covers g' s.
Proof.
  intros Hs. destruct s; cbn; [done| |done]. rewrite (sf_generation _ _ Hs). intros Hc Hn id m Hm.
  destruct (soft_lookup _ _ _ _ Hs Hm) as (? & ? & _). eauto.
Qed.

(** Only the number of joining members has to be checked. *)
Lemma soft_core g g' : soft g g' -> core g -> mg_num_members_joining g' = msum joins (mg_members g') -> core g'.
Proof.
  intros Hs Hc Hj. constructor; try done.
  - intros id m' Hm. destruct (soft_lookup _ _ _ _ Hs Hm) as (m & Hm0 & Heq). destruct (co_ids _ Hc _ _ Hm0).
    apply shape_id in Heq. by split; congruence.
  - intros id m' Hm. destruct (soft_lookup _ _ _ _ Hs Hm) as (m & Hm0 & Heq). rewrite <- (shape_names _ _ Heq).
    by eapply co_names.
  - intros p. rewrite (sf_supported _ _ Hs), (soft_sum _ _ _ Hs). by apply co_counts.
  - intros i id. rewrite (sf_static _ _ Hs), (co_static _ Hc). split; intros (m & Hm & Hi).
    + destruct (soft_lookup' _ _ _ _ Hs Hm) as (m' & ? & Heq%shape_instance). exists m'. by split; congruence.
    + destruct (soft_lookup _ _ _ _ Hs Hm) as (m' & ? & Heq%shape_instance). exists m'. by split; congruence.
  - intros id. rewrite (sf_pending _ _ Hs), (soft_none _ _ _ Hs). by apply co_pending.
  - assert (H := co_leader _ Hc). unfold leads in *. rewrite (sf_leader _ _ Hs). case_match; [|by apply (soft_empty _ _ Hs)].
    destruct H as [m Hm]. destruct (soft_lookup' _ _ _ _ Hs Hm) as (m' & ? & _). eauto.
  - rewrite (soft_empty _ _ Hs). destruct (co_common _ Hc) as [?|[p Hp]]; [by left|right; exists p; by eapply soft_common].
  - destruct (co_own _ Hc) as (own & Ho & Hst). exists own. split.
    + intros id m' Hm. destruct (soft_lookup _ _ _ _ Hs Hm) as (m & Hm0 & Heq). rewrite (Ho _ _ Hm0).
      by rewrite (shape_object _ _ Heq), (shape_instance _ _ Heq).
    + rewrite (sf_stores _ _ Hs). eapply Forall_impl; [exact Hst|]. intros s. by apply soft_store.
  - rewrite (sf_stores _ _ Hs). by apply co_reverts.
Qed.

(** ** Single members *)

Definition end_join (m : group_member) : group_member := set_promises None (m_sync_promise m) m.
Definition end_sync (m : group_member) : group_member := set_promises (m_join_promise m) None m.
Definition restart_timer (now : Z) (m : group_member) : group_member :=
  set_timer (m_is_new m) now (Some (now + m_session_timeout m)) m.
Definition not_new (m : group_member) : group_member := set_timer false (m_latest_heartbeat m) (m_expire_timer m) m.

Definition join_answer (r : join_group_response) (o : option group_member) : list (nat * answer) :=
  match o ≫= m_join_promise with Some p => [(p, JoinAnswer r)] | None => [] end.

Definition jcount (g : membership) : Prop := mg_num_members_joining g = msum joins (mg_members g).

Lemma alter_shape (f : group_member -> group_member) id (ms : gmap string group_member) :
  (forall m, shape (f m) = shape m) -> shape <$> alter f id ms = shape <$> ms.
Proof.
  intros Hf. apply map_eq. intros k. rewrite !lookup_fmap. destruct (decide (k = id)) as [->|].
  - rewrite lookup_alter_eq. destruct (ms !! id); cbn; by rewrite ?Hf.
  - by rewrite lookup_alter_ne.
Qed.

Lemma alter_joins (f : group_member -> group_member) id (ms : gmap string group_member) :
  msum joins (alter f id ms) =
  msum joins ms + match ms !! id with Some m => joins (f m) - joins m | None => 0 end.
Proof.
  destruct (ms !! id) as [m|] eqn:E.
  - replace (alter f id ms) with (<[id := f m]> ms); [rewrite (msum_update _ _ _ _ _ E); lia|].
    apply map_eq. intros k. destruct (decide (k = id)) as [->|].
    + by rewrite lookup_alter_eq, lookup_insert_eq, E.
    + by rewrite lookup_alter_ne, lookup_insert_ne.
  - rewrite alter_id; [lia|]. intros x Hx. congruence.
Qed.

Lemma put_alter (f : group_member -> group_member) id m (ms : gmap string group_member) :
  ms !! id = Some m -> <[id := f m]> ms = alter f id ms.
Proof.
  intros E. apply map_eq. intros k. destruct (decide (k = id)) as [->|].
  - by rewrite lookup_alter_eq, lookup_insert_eq, E.
  - by rewrite lookup_alter_ne, lookup_insert_ne.
Qed.

Lemma alter_same (f : group_member -> group_member) id (ms : gmap string group_member) :
  (forall m, ms !! id = Some m -> f m = m) -> alter f id ms = ms.
Proof. apply alter_id. Qed.

Ltac soft_by := constructor; cbn; try reflexivity.

Lemma schedule_members now id g : core g ->
  mg_members (schedule_next_heartbeat_expiration now id g) = alter (restart_timer now) id (mg_members g).
Proof.
  intros Hc. unfold schedule_next_heartbeat_expiration. destruct (mg_members g !! id) as [m|] eqn:E.
  - cbn. destruct (co_ids _ Hc _ _ E) as [-> _]. by rewrite (put_alter (restart_timer now) id m).
  - rewrite alter_same; [done|]. congruence.
Qed.

Lemma schedule_soft now id g : core g ->
  soft g (schedule_next_heartbeat_expiration now id g) /\ core (schedule_next_heartbeat_expiration now id g).
Proof.
  intros Hc. assert (Hm := schedule_members now id g Hc).
  assert (Hs : soft g (schedule_next_heartbeat_expiration now id g)).
  { unfold schedule_next_heartbeat_expiration in *. destruct (mg_members g !! id) as [m|] eqn:E; [|reflexivity].
    soft_by. cbn in Hm. rewrite Hm. by apply alter_shape. }
  split; [done|]. apply (soft_core _ _ Hs Hc). rewrite Hm, alter_joins.
  replace (mg_num_members_joining (schedule_next_heartbeat_expiration now id g)) with (mg_num_members_joining g)
    by (unfold schedule_next_heartbeat_expiration; by case_match).
  rewrite (co_joining _ Hc). case_match; [|lia]. change (joins (restart_timer now g0)) with (joins g0). lia.
Qed.

Lemma schedule_answers now id g : mg_answers (schedule_next_heartbeat_expiration now id g) = mg_answers g.
Proof. unfold schedule_next_heartbeat_expiration. by case_match. Qed.

Lemma try_finish_ok id r g : core g ->
  ok (try_finish_joining_member id r g) (fun g' =>
    soft g g' /\ core g' /\ mg_members g' = alter end_join id (mg_members g) /\
    mg_answers g' = mg_answers g ++ join_answer r (mg_members g !! id)).
Proof.
  intros Hc. unfold try_finish_joining_member, join_answer.
  destruct (mg_members g !! id) as [m|] eqn:E; cbn.
  2:{ apply ok_ret. rewrite alter_same by congruence. by rewrite app_nil_r. }
  destruct (m_join_promise m) as [p|] eqn:Ep.
  2:{ apply ok_ret. rewrite alter_same, app_nil_r; [done|]. intros ? [= ->]%(eq_trans (eq_sym E)).
      unfold end_join. destruct m0; cbn in *. by subst. }
  destruct (co_ids _ Hc _ _ E) as [Hid _].
  set (g' := joining_more (-1) _).
  assert (Hm : mg_members g' = alter end_join id (mg_members g)).
  { cbn. rewrite Hid. by rewrite (put_alter end_join id m). }
  assert (Hs : soft g g') by (soft_by; cbn in Hm; rewrite Hm; by apply alter_shape).
  assert (Hj : mg_num_members_joining g' = msum joins (mg_members g')).
  { rewrite Hm, alter_joins, E. cbn. rewrite (co_joining _ Hc). unfold joins at 3, is_joining. rewrite Ep. cbn. lia. }
  apply ok_vassert.
  - change ((0 <=? mg_num_members_joining g') = true). rewrite Hj. apply Z.leb_le. apply msum_bounds. auto.
  - apply ok_ret. split; [done|]. split; [by apply (soft_core _ _ Hs)|]. done.
Qed.

(** ** Loops over the members *)

Section Loops.

Context `{IterationLaws}.

Lemma iter_elem (ms : gmap string group_member) k m : (k, m) ∈ iter_members ms <-> ms !! k = Some m.
Proof. by rewrite iter_members_perm, elem_of_map_to_list. Qed.

Lemma iter_nodup (ms : gmap string group_member) : NoDup (iter_members ms).*1.
Proof. rewrite iter_members_perm. apply NoDup_fst_map_to_list. Qed.

Lemma iter_nil (ms : gmap string group_member) : iter_members ms = [] <-> ms = ∅.
Proof.
  split; intros Hi.
  - apply map_to_list_empty_iff, Permutation_nil_r. by rewrite <- iter_members_perm, Hi.
  - subst. apply Permutation_nil_r. by rewrite iter_members_perm, map_to_list_empty.
Qed.

(** A loop that changes one member per step, by [h], and answers what [R] says. *)
Lemma for_each_ok (f : string -> membership -> res membership) (h : string -> group_member -> group_member)
    (R : string -> group_member -> list (nat * answer) -> Prop) g :
  core g ->
  (forall id m g', soft g g' -> core g' -> mg_members g !! id = Some m -> mg_members g' !! id = Some m ->
     ok (f id g') (fun g'' => soft g' g'' /\ core g'' /\ mg_members g'' = alter (h id) id (mg_members g') /\
       exists l, mg_answers g'' = mg_answers g' ++ l /\ R id m l)) ->
  ok (for_each_member f g) (fun g' => soft g g' /\ core g' /\ (forall id, mg_members g' !! id = h id <$> mg_members g !! id) /\
    exists ls, mg_answers g' = mg_answers g ++ concat ls /\ Forall2 (fun x l => R x.1 x.2 l) (iter_members (mg_members g)) ls).
Proof.
  intros Hc Hf. unfold for_each_member.
  apply (ok_mono _ (fun g' => exists done, iter_members (mg_members g) = done ++ [] /\ soft g g' /\ core g' /\
    (forall id, mg_members g' !! id = if bool_decide (id ∈ done.*1) then h id <$> mg_members g !! id else mg_members g !! id) /\
    exists ls, mg_answers g' = mg_answers g ++ concat ls /\ Forall2 (fun x l => R x.1 x.2 l) done ls)).
  - apply (ok_loop (fun x => f x.1) (fun l g' => exists done, iter_members (mg_members g) = done ++ l /\ soft g g' /\ core g' /\
      (forall id, mg_members g' !! id = if bool_decide (id ∈ done.*1) then h id <$> mg_members g !! id else mg_members g !! id) /\
      exists ls, mg_answers g' = mg_answers g ++ concat ls /\ Forall2 (fun x l => R x.1 x.2 l) done ls)).
    { exists []. split_and!; [done|reflexivity|done|done|]. exists []. by rewrite app_nil_r. }
    intros [k m] l g' (done & Hit & Hs & Hc' & Hms & ls & Hans & HR). cbn.
    assert (Hk : mg_members g !! k = Some m) by (apply iter_elem; rewrite Hit; set_solver).
    assert (Hnd := iter_nodup (mg_members g)). rewrite Hit, fmap_app, NoDup_app in Hnd. destruct Hnd as (_ & Hnd & _).
    assert (Hkd : k ∉ done.*1) by (intros Hin; apply (Hnd k Hin); cbn; set_solver).
    assert (Hk' : mg_members g' !! k = Some m) by (rewrite Hms; by case_bool_decide).
    eapply ok_mono; [by apply (Hf k m)|]. intros g'' (Hs' & Hc'' & Hms' & l' & Hans' & HR').
    exists (done ++ [(k, m)]). split_and!; [by rewrite <- app_assoc|by etrans|done| |].
    + intros id. rewrite Hms', fmap_app. cbn. destruct (decide (id = k)) as [->|].
      * rewrite lookup_alter_eq, Hk', bool_decide_eq_true_2, Hk by set_solver. done.
      * rewrite lookup_alter_ne, Hms by done. repeat case_bool_decide; set_solver.
    + exists (ls ++ [l']). rewrite Hans', Hans, concat_app. cbn. rewrite app_nil_r, app_assoc. split; [done|].
      apply Forall2_app; [done|]. by constructor.
  - intros g' (done & Hit & Hs & Hc' & Hms & Hans). rewrite app_nil_r in Hit. subst done.
    split_and!; [done|done| |done]. intros id. rewrite Hms. case_bool_decide as Hd; [done|].
    destruct (mg_members g !! id) as [m|] eqn:E; [|done]. apply iter_elem in E. exfalso. apply Hd.
    apply list_elem_of_fmap. by exists (id, m).
Qed.

Definition sync_answer (r : sync_group_response) (o : option group_member) : list (nat * answer) :=
  match o ≫= m_sync_promise with Some p => [(p, SyncAnswer r)] | None => [] end.

Lemma set_sync_ok id r g : core g ->
  soft g (set_sync_response id r g) /\ core (set_sync_response id r g) /\
  mg_members (set_sync_response id r g) = alter end_sync id (mg_members g) /\
  mg_answers (set_sync_response id r g) = mg_answers g ++ sync_answer r (mg_members g !! id).
Proof.
  intros Hc. unfold set_sync_response, sync_answer.
  destruct (mg_members g !! id) as [m|] eqn:E; cbn.
  2:{ rewrite alter_same by congruence. by rewrite app_nil_r. }
  destruct (m_sync_promise m) as [p|] eqn:Ep.
  2:{ rewrite alter_same, app_nil_r; [done|]. intros ? [= ->]%(eq_trans (eq_sym E)).
      unfold end_sync. destruct m0; cbn in *. by subst. }
  destruct (co_ids _ Hc _ _ E) as [Hid _].
  set (g' := answered _ _ _).
  assert (Hm : mg_members g' = alter end_sync id (mg_members g)).
  { cbn. rewrite Hid. by rewrite (put_alter end_sync id m). }
  assert (Hs : soft g g') by (soft_by; cbn in Hm; rewrite Hm; by apply alter_shape).
  split; [done|]. split; [|done]. apply (soft_core _ _ Hs Hc). rewrite Hm, alter_joins, E. cbn. rewrite (co_joining _ Hc).
  change (joins (end_sync m)) with (joins m). lia.
Qed.

(** What the end of a synchronisation leaves of a member. *)
Definition synced (now : Z) (m : group_member) : group_member := if is_syncing m then restart_timer now (end_sync m) else m.

Lemma finish_syncing_ok now e g : core g ->
  ok (finish_syncing_members now e g) (fun g' => soft g g' /\ core g' /\
    (forall id, mg_members g' !! id = synced now <$> mg_members g !! id) /\
    exists ls, mg_answers g' = mg_answers g ++ concat ls /\
      Forall2 (fun x l => l = sync_answer {| sr_error_code := e; sr_assignment := m_assignment x.2 |} (Some x.2))
        (iter_members (mg_members g)) ls).
Proof.
  intros Hc. apply (for_each_ok _ (fun _ => synced now)
    (fun _ m l => l = sync_answer {| sr_error_code := e; sr_assignment := m_assignment m |} (Some m))); [done|].
  intros id m g' Hs Hc' _ Hm. unfold get_member. rewrite Hm. cbn [mbind res_bind].
  set (r := {| sr_error_code := e; sr_assignment := m_assignment m |}).
  destruct (is_syncing m) eqn:Es; apply ok_ret.
  - destruct (set_sync_ok id r g' Hc') as (Hs1 & Hc1 & Hm1 & Ha1).
    destruct (schedule_soft now id _ Hc1) as (Hs2 & Hc2). split_and!; [by etrans|done| |].
    + rewrite schedule_members, Hm1 by done. apply map_eq. intros k. destruct (decide (k = id)) as [->|].
      * rewrite !lookup_alter_eq, Hm. cbn. unfold synced. by rewrite Es.
      * by rewrite !lookup_alter_ne.
    + rewrite schedule_answers, Ha1, Hm. by eexists.
  - split_and!; [done|done| |].
    + rewrite alter_same; [done|]. intros m' Hm'. unfold synced. replace m' with m by congruence. by rewrite Es.
    + exists []. rewrite app_nil_r. split; [done|]. unfold is_syncing in Es. unfold sync_answer. cbn. by case_match.
Qed.

Lemma set_assignments_ok a g : core g -> (forall id m, mg_members g !! id = Some m -> is_Some (a !! id)) ->
  ok (set_assignments a g) (fun g' => soft g g' /\ core g' /\
    (forall id, mg_members g' !! id = set_assignment (default [] (a !! id)) <$> mg_members g !! id) /\
    mg_answers g' = mg_answers g).
Proof.
  intros Hc Ha. eapply ok_mono.
  - apply (for_each_ok _ (fun id => set_assignment (default [] (a !! id))) (fun _ _ l => l = [])); [done|].
    intros id m g' Hs Hc' Hm0 Hm. unfold get_member. rewrite Hm. cbn [mbind res_bind].
    destruct (Ha _ _ Hm0) as [x Hx]. rewrite Hx. cbn [mbind res_bind default]. apply ok_ret.
    destruct (co_ids _ Hc' _ _ Hm) as [Hid _].
    assert (He : mg_members (put_member (set_assignment x m) g') = alter (set_assignment x) id (mg_members g')).
    { cbn. rewrite Hid. by rewrite (put_alter (set_assignment x) id m). }
    assert (Hs' : soft g' (put_member (set_assignment x m) g')).
    { soft_by. cbn in He. rewrite He. by apply alter_shape. }
    split_and!; [done| |done|by exists []; rewrite app_nil_r].
    apply (soft_core _ _ Hs' Hc'). rewrite He, alter_joins, Hm. cbn. rewrite (co_joining _ Hc').
    change (joins (set_assignment x m)) with (joins m). lia.
  - cbn. intros g' (? & ? & ? & ls & Hl & HF). split_and!; [done|done|done|]. rewrite Hl.
    replace (concat ls) with (@nil (nat * answer)); [by rewrite app_nil_r|]. clear Hl.
    induction HF as [|? ? ? ? -> ? IH]; cbn; done.
Qed.

Lemma clear_ok g : core g -> soft g (clear_assignments g) /\ core (clear_assignments g).
Proof.
  intros Hc.
  assert (Hs : soft g (clear_assignments g)).
  { soft_by. rewrite <- map_fmap_compose. by apply map_fmap_ext. }
  split; [done|]. apply (soft_core _ _ Hs Hc). cbn. rewrite msum_fmap, (co_joining _ Hc). done.
Qed.

(** ** Metadata and votes *)

Lemma metadata_ok p m : p ∈ names m -> ok (get_protocol_metadata p m) (fun _ => True).
Proof.
  intros Hp. unfold get_protocol_metadata. destruct (List.find _ _) as [x|] eqn:E; [by apply ok_ret|].
  apply list_elem_of_fmap in Hp as (x & -> & Hx). apply list_elem_of_In in Hx.
  apply (find_none _ _ E) in Hx. by rewrite bool_decide_eq_true_2 in Hx.
Qed.

Lemma member_metadata_ok p g :
  mg_state g <> dead -> mg_state g <> preparing_rebalance -> mg_protocol g = Some p -> common_protocol p g ->
  ok (member_metadata g) (fun l => Forall2 (fun x c => c = {| mc_member_id := x.1; mc_group_instance_id := m_group_instance_id x.2;
    mc_metadata := mc_metadata c |} /\ get_protocol_metadata p x.2 = Ok (mc_metadata c)) (iter_members (mg_members g)) l).
Proof.
  intros Hd Hp Hpr Hc. unfold member_metadata, in_mg_state. rewrite !bool_decide_eq_false_2 by done. cbn [orb throw_if mbind res_bind].
  eapply ok_mono; [apply (ok_loop _ (fun l out => exists done, iter_members (mg_members g) = done ++ l /\
    Forall2 (fun x c => c = {| mc_member_id := x.1; mc_group_instance_id := m_group_instance_id x.2;
    mc_metadata := mc_metadata c |} /\ get_protocol_metadata p x.2 = Ok (mc_metadata c)) done out))|].
  - by exists [].
  - intros [k m] l out (done & Hit & HF). rewrite Hpr. cbn [opt_value mbind res_bind].
    destruct (metadata_ok p m) as (md & Hmd & _). { apply (Hc k), iter_elem. rewrite Hit. set_solver. }
    cbn. rewrite Hmd. cbn. apply ok_ret. exists (done ++ [(k, m)]). rewrite <- app_assoc. split; [done|].
    apply Forall2_app; [done|]. by repeat constructor.
  - cbn. intros out (done & Hit & HF). rewrite app_nil_r in Hit. by subst.
Qed.

Definition writes (a : gmap string (list Z)) (p : option string) (x : string * group_member) (s : member_state) : Prop :=
  exists v md q, a !! x.1 = Some v /\ p = Some q /\ get_protocol_metadata q x.2 = Ok md /\ s = state_of x.2 v md.

Lemma checkpoint_ok a g :
  (forall id m, mg_members g !! id = Some m -> is_Some (a !! id)) ->
  mg_members g = ∅ \/ (exists p, mg_protocol g = Some p /\ common_protocol p g) ->
  ok (checkpoint a g) (fun md => gm_protocol_type md = default EmptyString (mg_protocol_type g) /\
    gm_generation md = mg_generation g /\ gm_protocol md = mg_protocol g /\ gm_leader md = mg_leader g /\
    Forall2 (writes a (mg_protocol g)) (iter_members (mg_members g)) (gm_members md)).
Proof.
  intros Ha Hp. unfold checkpoint.
  apply (ok_bind _ _ (Forall2 (writes a (mg_protocol g)) (iter_members (mg_members g)))).
  - eapply ok_mono; [apply (ok_loop _ (fun l out => exists done, iter_members (mg_members g) = done ++ l /\
      Forall2 (writes a (mg_protocol g)) done out))|].
    + by exists [].
    + intros [k m] l out (done & Hit & HF). cbn.
      assert (Hm : mg_members g !! k = Some m) by (apply iter_elem; rewrite Hit; set_solver).
      destruct Hp as [He|(p & Hpr & Hc)]; [rewrite He in Hm; done|].
      destruct (Ha _ _ Hm) as [v Hv]. rewrite Hv, Hpr. cbn. destruct (metadata_ok p m (Hc _ _ Hm)) as (md & Hmd & _).
      rewrite Hmd. cbn. apply ok_ret. exists (done ++ [(k, m)]). rewrite <- app_assoc. split; [done|].
      rewrite <- Hpr. apply Forall2_app; [done|]. constructor; [|done]. by exists v, md, p.
    + cbn. intros out (done & Hit & HF). rewrite app_nil_r in Hit. by subst.
  - intros ms HF. by apply ok_ret.
Qed.

Lemma candidates_common g p : core g -> mg_members g <> ∅ -> p ∈ candidates g <-> common_protocol p g.
Proof.
  intros Hc Hne. unfold candidates. rewrite elem_of_list_to_set, list_elem_of_fmap.
  assert (Hsz : size (mg_members g) <> 0%nat) by (by rewrite map_size_non_empty_iff).
  assert (Hsum : msum (lists p) (mg_members g) = Z.of_nat (size (mg_members g)) <-> common_protocol p g).
  { rewrite msum_full by auto. unfold common_protocol, lists. split; intros Hl id m Hm.
    - specialize (Hl id m Hm). by case_bool_decide.
    - by rewrite bool_decide_eq_true_2 by eauto. }
  rewrite <- Hsum, <- (co_counts _ Hc). unfold support. split.
  - intros ([q n] & -> & Hin). apply list_elem_of_filter in Hin as [Hn Hin]. apply elem_of_map_to_list in Hin.
    cbn in *. by rewrite Hin.
  - intros He. destruct (mg_supported_protocols g !! p) as [n|] eqn:E; cbn in He; [|lia].
    exists (p, n). split; [done|]. apply list_elem_of_filter. split; [done|]. by apply elem_of_map_to_list.
Qed.

(** The vote of a member, and the number of votes for a protocol. *)
Definition voted (cs : gset string) (q : string) (m : group_member) : Z :=
  match vote_for_protocol cs m with Ok c => if bool_decide (c = q) then 1 else 0 | _ => 0 end.

Lemma vote_ok cs m p : p ∈ cs -> p ∈ names m ->
  ok (vote_for_protocol cs m) (fun c => c ∈ cs /\ c ∈ names m).
Proof.
  intros Hcs Hp. unfold vote_for_protocol. destruct (List.find _ _) as [x|] eqn:E.
  - apply ok_ret. apply find_some in E as [Hin Hx]. apply list_elem_of_In in Hin. apply bool_decide_eq_true in Hx.
    split; [done|]. by apply (list_elem_of_fmap_2 fst).
  - apply list_elem_of_fmap in Hp as (x & -> & Hx). apply list_elem_of_In in Hx.
    apply (find_none _ _ E) in Hx. by rewrite bool_decide_eq_true_2 in Hx.
Qed.

Lemma count_votes_ok cs ms p :
  p ∈ cs -> (forall x, x ∈ ms -> p ∈ names x.2) ->
  ok (count_votes cs ms) (fun votes =>
    (forall q, support votes q = foldr (fun x a => voted cs q x.2 + a) 0 ms) /\
    (forall q n, votes !! q = Some n -> q ∈ cs) /\ (ms <> [] -> votes <> ∅)).
Proof.
  intros Hp Hms. unfold count_votes. eapply ok_mono; [apply (ok_loop _ (fun l votes => exists done, ms = done ++ l /\
    (forall q, support votes q = foldr (fun x a => voted cs q x.2 + a) 0 done) /\
    (forall q n, votes !! q = Some n -> q ∈ cs) /\ (done <> [] -> votes <> ∅)))|].
  - exists []. by split_and!.
  - intros x l votes (done & -> & Hv & Hk & Hn). destruct (vote_ok cs x.2 p) as (c & Hc & Hcs & _); [done|apply Hms; set_solver|].
    cbn. rewrite Hc. cbn. apply ok_ret. exists (done ++ [x]). split_and!.
    + by rewrite <- app_assoc.
    + intros q. rewrite support_insert, (foldr_sum_app (fun x => voted cs q x.2)). cbn. unfold voted at 2. rewrite Hc. rewrite <- Hv. case_bool_decide; subst.
      * rewrite bool_decide_eq_true_2 by done. unfold support. lia.
      * rewrite bool_decide_eq_false_2 by done. lia.
    + intros q n. destruct (decide (q = c)) as [->|]; [done|]. rewrite lookup_insert_ne by done. apply Hk.
    + intros _. apply insert_non_empty.
  - cbn. intros votes (done & Hd & Hv & Hk & Hn). rewrite app_nil_r in Hd. by subst.
Qed.

Lemma max_vote_spec l v : max_vote v l ∈ v :: l /\ forall x, x ∈ v :: l -> x.2 <= (max_vote v l).2.
Proof.
  revert v. induction l as [|w l IH]; intros v; cbn.
  - split; [set_solver|]. intros x ->%list_elem_of_singleton. lia.
  - specialize (IH (if v.2 <? w.2 then w else v)) as [Hin Hmax]. split.
    + destruct (v.2 <? w.2); set_solver.
    + intros x Hx. destruct (v.2 <? w.2) eqn:E.
      * assert (Hw := Hmax w). apply elem_of_cons in Hx as [->|Hx]; [|by apply Hmax].
        specialize (Hw (list_elem_of_here _ _)). lia.
      * assert (Hv : v.2 <= (max_vote v l).2) by (apply Hmax; set_solver).
        apply elem_of_cons in Hx as [->|Hx]; [done|]. apply elem_of_cons in Hx as [->|Hx]; [lia|]. apply Hmax. set_solver.
Qed.

(** The winner is a protocol that all members have, and no other protocol has more votes. *)
Lemma select_ok g : core g -> mg_members g <> ∅ ->
  ok (select_protocol g) (fun p => common_protocol p g /\
    forall q, msum (voted (candidates g) q) (mg_members g) <= msum (voted (candidates g) p) (mg_members g)).
Proof.
  intros Hc Hne. destruct (co_common _ Hc) as [?|[p Hp]]; [done|]. unfold select_protocol.
  assert (Hpc : p ∈ candidates g) by by apply candidates_common.
  eapply ok_bind; [apply (count_votes_ok (candidates g) (iter_members (mg_members g)) p Hpc)|].
  { intros [k m] Hx. apply iter_elem in Hx. by apply (Hp k). }
  intros votes (Hv & Hk & Hn). assert (Hne' := Hn (fun E => Hne (proj1 (iter_nil _) E))).
  assert (Hsum : forall q, support votes q = msum (voted (candidates g) q) (mg_members g)).
  { intros q. rewrite Hv. unfold msum. apply (foldr_sum_perm (fun kv => voted (candidates g) q kv.2)). apply iter_members_perm. }
  destruct (iter_votes votes) as [|v l] eqn:El.
  { destruct Hne'. apply map_to_list_empty_iff, Permutation_nil_r. by rewrite <- iter_votes_perm, El. }
  apply ok_ret. destruct (max_vote_spec l v) as [Hin Hmax]. rewrite <- El in Hin, Hmax.
  assert (Hel : forall q n, (q, n) ∈ iter_votes votes <-> votes !! q = Some n) by (intros; by rewrite iter_votes_perm, elem_of_map_to_list).
  destruct (max_vote v l) as [w n]. apply Hel in Hin. cbn in *. split; [apply (candidates_common _ _ Hc Hne); by eapply Hk|].
  intros q. rewrite <- !Hsum. unfold support. rewrite Hin. cbn. destruct (votes !! q) as [k|] eqn:Eq; cbn.
  - apply Hel in Eq. apply (Hmax (q, k) Eq).
  - assert (Hw := Hsum w). unfold support in Hw. rewrite Hin in Hw. cbn in Hw. rewrite Hw.
    apply msum_bounds. intros m. unfold voted. repeat case_match; lia.
Qed.

(** ** Members that go *)

(** What the removal of single members leaves alone. *)
Record hard (g g' : membership) : Prop := {
  hd_state : mg_state g' = mg_state g;
  hd_generation : mg_generation g' = mg_generation g;
  hd_pending : mg_pending_members g' = mg_pending_members g;
  hd_protocol : mg_protocol g' = mg_protocol g;
  hd_timer : mg_join_timer g' = mg_join_timer g;
  hd_stores : mg_stores g' = mg_stores g;
  hd_answers : mg_answers g' = mg_answers g;
}.

#[global] Instance hard_preorder : PreOrder hard.
Proof. split; [by intros g; constructor|]. intros g1 g2 g3 [] []. constructor; by etrans. Qed.

Definition dropped (id : string) (m : group_member) (sp : gmap string Z) (g : membership) : membership :=
  let g := match m_group_instance_id m with Some i => mg_set_static (delete i (mg_static_members g)) g | None => g end in
  let g := mg_set_members sp (delete id (mg_members g)) g in
  if is_group_leader id g then mg_set_leader (mg_protocol_type g) (next_leader g) g else g.

Lemma dropped_fields id m sp g :
  hard g (dropped id m sp g) /\ mg_members (dropped id m sp g) = delete id (mg_members g) /\
  mg_supported_protocols (dropped id m sp g) = sp /\
  mg_num_members_joining (dropped id m sp g) = mg_num_members_joining g /\
  mg_static_members (dropped id m sp g) =
    match m_group_instance_id m with Some i => delete i (mg_static_members g) | None => mg_static_members g end /\
  mg_leader (dropped id m sp g) =
    if bool_decide (mg_leader g = Some id) then fst <$> head (iter_members (delete id (mg_members g))) else mg_leader g.
Proof.
  unfold dropped, is_group_leader, next_leader. destruct (m_group_instance_id m); cbn; case_bool_decide; cbn; split_and!;
    try done; destruct (iter_members _); done.
Qed.

Lemma drop_leads id (ms : gmap string group_member) :
  match fst <$> head (iter_members (delete id ms)) with
  | Some l => is_Some (delete id ms !! l)
  | None => delete id ms = ∅
  end.
Proof.
  destruct (iter_members (delete id ms)) as [|[k m] l] eqn:E; cbn; [by apply iter_nil|].
  exists m. apply iter_elem. rewrite E. set_solver.
Qed.

Lemma drop_store own g g' id s :
  hard g g' -> mg_members g' = delete id (mg_members g) -> store_ok own g s -> store_ok own g' s.
Proof.
  intros Hh Hm. destruct s; cbn; [done| |].
  - by rewrite (hd_generation _ _ Hh).
  - rewrite (hd_pending _ _ Hh), Hm. intros (? & ? & ? & ? & ? & ? & ? & ? & Ho). split_and!; try done.
    by rewrite lookup_delete, Ho; case_decide.
Qed.

Lemma drop_static id m g i k : core g -> mg_members g !! id = Some m ->
  match m_group_instance_id m with Some i => delete i (mg_static_members g) | None => mg_static_members g end !! i = Some k <->
  exists m, delete id (mg_members g) !! k = Some m /\ m_group_instance_id m = Some i.
Proof.
  intros Hc Hm. transitivity (mg_static_members g !! i = Some k /\ k <> id).
  - destruct (m_group_instance_id m) as [j|] eqn:Ej; [rewrite lookup_delete_Some|].
    + assert (Hj : mg_static_members g !! j = Some id) by (apply (co_static _ Hc); eauto).
      split; [|intros [Hi Hk]; split; [congruence|done]].
      intros [Hji Hi]. split; [done|]. intros ->. apply (co_static _ Hc) in Hi as (m' & Hm' & Hi'). congruence.
    + split; [|by intros []]. intros Hi. split; [done|]. intros ->. apply (co_static _ Hc) in Hi as (m' & Hm' & Hi'). congruence.
  - rewrite (co_static _ Hc). setoid_rewrite lookup_delete_Some. naive_solver.
Qed.

Lemma drop_core id m sp g : core g -> mg_members g !! id = Some m -> is_joining m = false ->
  (forall q, support sp q = support (mg_supported_protocols g) q - lists q m) -> core (dropped id m sp g).
Proof.
  intros Hc Hm Hj Hsp. destruct (dropped_fields id m sp g) as (Hh & Hms & Hsup & Hnum & Hst & Hl).
  assert (Hsub : forall k x, mg_members (dropped id m sp g) !! k = Some x -> mg_members g !! k = Some x).
  { rewrite Hms. by intros k x [_ ?]%lookup_delete_Some. }
  constructor.
  - intros k x Hk. eapply co_ids; eauto.
  - intros k x Hk. eapply co_names; eauto.
  - intros p. rewrite Hsup, Hsp, (co_counts _ Hc), Hms, (msum_delete _ _ _ _ Hm). done.
  - rewrite Hnum, Hms, (msum_delete _ _ _ _ Hm), (co_joining _ Hc). unfold joins at 3. rewrite Hj. lia.
  - intros i k. rewrite Hst, Hms. by apply drop_static.
  - intros k. rewrite (hd_pending _ _ Hh). intros Hk. destruct (co_pending _ Hc _ Hk) as [Hn ?]. split; [|done].
    rewrite Hms, lookup_delete, Hn. by destruct (decide _).
  - unfold leads. rewrite Hl, Hms. case_bool_decide as Hlead; [apply drop_leads|].
    assert (H1 := co_leader _ Hc). unfold leads in H1. destruct (mg_leader g) as [l|]; [|by rewrite H1, delete_empty].
    rewrite lookup_delete_ne by congruence. done.
  - destruct (co_common _ Hc) as [He|[p Hp]]; [left; rewrite Hms, He; apply delete_empty|].
    right. exists p. intros k x Hk. eauto.
  - destruct (co_own _ Hc) as (own & Ho & Hs). exists own. split; [intros k x Hk; eauto|].
    rewrite (hd_stores _ _ Hh). eapply Forall_impl; [exact Hs|]. intros s. by apply (drop_store own g _ id).
  - rewrite (hd_stores _ _ Hh). by apply co_reverts.
Qed.

(** The protocols of a member can be counted out. *)
Lemma uncount_member id m g : core g -> mg_members g !! id = Some m ->
  ok (uncount_protocols (m_protocols m) (mg_supported_protocols g)) (fun sp =>
    forall q, support sp q = support (mg_supported_protocols g) q - lists q m).
Proof.
  intros Hc Hm. apply uncount_support; [by eapply co_names|]. intros p Hp.
  rewrite (co_counts _ Hc), <- (insert_id _ _ _ Hm), <- insert_delete_eq, msum_insert by apply lookup_delete_eq.
  unfold lists at 1. rewrite bool_decide_eq_true_2 by done.
  assert (Hb := msum_bounds (lists p) (delete id (mg_members g)) (lists_bounds p)). lia.
Qed.

Definition stays (m : group_member) : bool := is_joining m || is_static m.

Lemma remove_unjoined_ok id m g : core g -> mg_members g !! id = Some m ->
  ok (remove_unjoined id g) (fun g' => core g' /\ hard g g' /\
    mg_members g' = if stays m then mg_members g else delete id (mg_members g)).
Proof.
  intros Hc Hm. unfold remove_unjoined, get_member. rewrite Hm. cbn [mbind res_bind].
  replace (negb (is_joining m) && negb (is_static m)) with (negb (stays m)) by (unfold stays; by destruct (is_joining m)).
  destruct (stays m) eqn:Es; cbn [negb]; [by apply ok_ret|].
  apply orb_false_iff in Es as [Ej Es]. eapply ok_bind; [by apply (uncount_member id)|]. intros sp Hsp. apply ok_ret.
  assert (Hd : (if is_group_leader id g then mg_set_leader (mg_protocol_type (mg_set_members sp (delete id (mg_members g)) g))
      (next_leader (mg_set_members sp (delete id (mg_members g)) g)) (mg_set_members sp (delete id (mg_members g)) g)
      else mg_set_members sp (delete id (mg_members g)) g) = dropped id m sp g).
  { unfold dropped. unfold is_static in Es. by destruct (m_group_instance_id m). }
  cbn zeta. rewrite Hd. destruct (dropped_fields id m sp g) as (? & ? & _). split; [by apply drop_core|done].
Qed.

Lemma remove_all_unjoined_ok g : core g ->
  ok (for_each_member remove_unjoined g) (fun g' => core g' /\ hard g g' /\
    forall id, mg_members g' !! id = match mg_members g !! id with Some m => if stays m then Some m else None | None => None end).
Proof.
  intros Hc. unfold for_each_member. eapply ok_mono; [apply (ok_loop (fun x => remove_unjoined x.1) (fun l g' =>
    exists done, iter_members (mg_members g) = done ++ l /\ core g' /\ hard g g' /\ forall id, mg_members g' !! id =
      match mg_members g !! id with Some m => if bool_decide (id ∈ done.*1) && negb (stays m) then None else Some m | None => None end))|].
  - exists []. split_and!; [done|done|reflexivity|]. intros id. cbn. by case_match.
  - intros [k m] l g' (done & Hit & Hc' & Hh & Hms). cbn.
    assert (Hk : mg_members g !! k = Some m) by (apply iter_elem; rewrite Hit; set_solver).
    assert (Hnd := iter_nodup (mg_members g)). rewrite Hit, fmap_app, NoDup_app in Hnd. destruct Hnd as (_ & Hnd & _).
    assert (Hkd : k ∉ done.*1) by (intros Hin; apply (Hnd k Hin); cbn; set_solver).
    assert (Hk' : mg_members g' !! k = Some m) by (rewrite Hms, Hk, bool_decide_eq_false_2 by done; done).
    eapply ok_mono; [by apply remove_unjoined_ok|]. intros g'' (Hc'' & Hh' & Hms'). exists (done ++ [(k, m)]).
    split_and!; [by rewrite <- app_assoc|done|by etrans|]. intros id. rewrite fmap_app. cbn.
    destruct (decide (id = k)) as [->|Hne].
    + rewrite Hk, bool_decide_eq_true_2 by set_solver. cbn. rewrite Hms'. destruct (stays m); cbn; [done|]. by rewrite lookup_delete_eq.
    + replace (bool_decide (id ∈ done.*1 ++ [k])) with (bool_decide (id ∈ done.*1)) by (apply bool_decide_ext; set_solver).
      rewrite <- Hms, Hms'. destruct (stays m); [done|]. by rewrite lookup_delete_ne.
  - cbn. intros g' (done & Hit & Hc' & Hh & Hms). rewrite app_nil_r in Hit. subst done. split_and!; [done|done|].
    intros id. rewrite Hms. destruct (mg_members g !! id) as [m|] eqn:E; [|done].
    rewrite bool_decide_eq_true_2; [cbn; by destruct (stays m)|]. apply list_elem_of_fmap. exists (id, m). by rewrite iter_elem.
Qed.

(** ** The end of the join phase *)

Ltac core_same Hc := destruct Hc; constructor; assumption.

Lemma core_leader pt l g : core g -> is_Some (mg_members g !! l) -> core (mg_set_leader pt (Some l) g).
Proof. intros [] Hl. by constructor. Qed.

Lemma core_join t added initial g : core g -> core (mg_set_join t added initial g).
Proof. intros Hc. core_same Hc. Qed.

Lemma core_generation n p s g : core g -> mg_generation g <= n -> core (mg_set_state s (mg_set_generation n p g)).
Proof.
  intros [] Hn. constructor; try assumption. destruct co_own0 as (own & Ho & Hst). exists own. split; [done|].
  eapply Forall_impl; [exact Hst|]. intros [st md]. destruct st; cbn; [done|lia|done].
Qed.

Lemma core_state s g : core g -> core (mg_set_state s g).
Proof. intros Hc. core_same Hc. Qed.

Lemma core_store s md g : core g -> reverts_to s = [] -> (forall own, store_ok own g s) -> core (store_group s md g).
Proof.
  intros [] Hr Hs. constructor; try assumption.
  - destruct co_own0 as (own & Ho & Hst). exists own. split; [done|]. cbn. apply Forall_app. split; [exact Hst|].
    constructor; [|done]. apply Hs.
  - cbn. rewrite map_app, concat_app. cbn. by rewrite Hr, !app_nil_r.
Qed.

Lemma joining_member g : jcount g -> mg_num_members_joining g = 0 <-> forall id m, mg_members g !! id = Some m -> is_joining m = false.
Proof.
  intros Hj. rewrite Hj, msum_zero by auto. unfold joins. split; intros H1 id m Hm; specialize (H1 id m Hm); by destruct (is_joining m).
Qed.

Lemma leader_rejoined_ok g : core g ->
  ok (leader_rejoined g) (fun x => core x.2 /\ (exists l, x.2 = mg_set_leader (mg_protocol_type g) l g) /\
    if (x.1 : bool)
    then exists l m, mg_leader x.2 = Some l /\ mg_members g !! l = Some m /\ is_joining m = true
    else forall id m, mg_members g !! id = Some m -> is_joining m = false).
Proof.
  intros Hc. unfold leader_rejoined. assert (Hl := co_leader _ Hc). unfold leads in Hl.
  assert (Hsame : exists l, g = mg_set_leader (mg_protocol_type g) l g) by (exists (mg_leader g); by destruct g).
  destruct (mg_leader g) as [l|] eqn:El.
  2:{ apply ok_ret. split_and!; [done|done|]. cbn. rewrite Hl. done. }
  destruct Hl as [m Hm]. unfold get_member. rewrite Hm. cbn [mbind res_bind]. destruct (is_joining m) eqn:Ej.
  { apply ok_ret. split_and!; [done|done|]. cbn. eauto. }
  destruct (List.find _ _) as [[k x]|] eqn:Ef; apply ok_ret.
  - apply find_some in Ef as [Hin Hx]. apply list_elem_of_In, iter_elem in Hin. cbn in *.
    split_and!; [by apply core_leader; eauto|by eexists|eauto].
  - split_and!; [done|done|]. cbn. intros id x Hx. apply iter_elem, list_elem_of_In in Hx. by apply (find_none _ _ Ef) in Hx.
Qed.

Lemma advance_ok g : core g -> mg_state g = preparing_rebalance -> mg_generation g < 2147483647 ->
  ok (advance_generation g) (fun g' => core g' /\
    if bool_decide (mg_members g = ∅)
    then g' = mg_set_state empty (mg_set_generation (mg_generation g + 1) None g)
    else exists p, g' = mg_set_state completing_rebalance (mg_set_generation (mg_generation g + 1) (Some p) g) /\
      common_protocol p g /\
      forall q, msum (voted (candidates g) q) (mg_members g) <= msum (voted (candidates g) p) (mg_members g)).
Proof.
  intros Hc Hs Hg. unfold advance_generation. apply ok_vassert; [by apply Z.ltb_lt|].
  unfold change_state, member_state_valid, in_mg_state. case_bool_decide as He; cbn.
  - rewrite Hs. cbn. apply ok_ret. split; [|done]. apply core_generation; [done|lia].
  - eapply ok_bind; [by apply select_ok|]. intros p (Hp & Hv). cbn. rewrite Hs. cbn. apply ok_ret.
    split; [apply core_generation; [done|lia]|by exists p].
Qed.

(** The member, after it was told that the join phase is over. *)
Definition settled (now : Z) (m : group_member) : group_member := not_new (restart_timer now (end_join m)).

(** What it was told: the leader learns about everybody. *)
Definition join_told (g : membership) (id : string) (m : group_member) (l : list (nat * answer)) : Prop :=
  exists md, l = join_answer (join_response id md g) (Some m) /\
    (mg_leader g <> Some id -> md = []) /\
    (mg_leader g = Some id -> map mc_member_id md ≡ₚ (map_to_list (mg_members g)).*1).

Lemma member_metadata_ids p g :
  mg_state g = completing_rebalance -> mg_protocol g = Some p -> common_protocol p g ->
  ok (member_metadata g) (fun md => map mc_member_id md ≡ₚ (map_to_list (mg_members g)).*1).
Proof.
  intros Hs Hp Hc. eapply ok_mono; [apply (member_metadata_ok p); by rewrite ?Hs|]. cbn. intros md HF.
  rewrite <- iter_members_perm. induction HF as [|x c ? ? [-> _] ? IH]; cbn; [done|]. by constructor.
Qed.

Lemma soft_dom g g' : soft g g' -> (map_to_list (mg_members g')).*1 ≡ₚ (map_to_list (mg_members g)).*1.
Proof.
  intros Hs. assert (H1 := f_equal (fun m => (map_to_list m).*1) (sf_members _ _ Hs)). cbn in H1.
  assert (Hk : forall ms : gmap string group_member, (map_to_list (shape <$> ms)).*1 ≡ₚ (map_to_list ms).*1).
  { intros ms. rewrite map_to_list_fmap, <- list_fmap_compose. apply reflexive_eq. by apply list_fmap_ext. }
  by rewrite <- (Hk (mg_members g)), <- (Hk (mg_members g')), H1.
Qed.

Lemma join_response_soft g g' id md : soft g g' -> join_response id md g' = join_response id md g.
Proof. intros Hs. unfold join_response. by rewrite (sf_generation _ _ Hs), (sf_protocol _ _ Hs), (sf_leader _ _ Hs). Qed.

Lemma finish_join_ok now p g :
  core g -> mg_state g = completing_rebalance -> mg_protocol g = Some p -> common_protocol p g ->
  ok (for_each_member (finish_join_of now) g) (fun g' => soft g g' /\ core g' /\
    (forall id, mg_members g' !! id = settled now <$> mg_members g !! id) /\
    exists ls, mg_answers g' = mg_answers g ++ concat ls /\
      Forall2 (fun x l => join_told g x.1 x.2 l) (iter_members (mg_members g)) ls).
Proof.
  intros Hc Hst Hp Hcom. apply (for_each_ok _ (fun _ => settled now) (join_told g)); [done|].
  intros id m g' Hs Hc' _ Hm. unfold finish_join_of.
  apply (ok_bind _ _ (fun md => (mg_leader g <> Some id -> md = []) /\
    (mg_leader g = Some id -> map mc_member_id md ≡ₚ (map_to_list (mg_members g)).*1))).
  { unfold is_group_leader. rewrite (sf_leader _ _ Hs). case_bool_decide; [|by apply ok_ret].
    eapply ok_mono; [apply (member_metadata_ids p)|].
    - by rewrite (sf_state _ _ Hs). - by rewrite (sf_protocol _ _ Hs). - by eapply soft_common.
    - cbn. intros md ->. split; [done|]. intros _. by apply soft_dom. }
  intros md Hmd. rewrite (join_response_soft _ _ _ _ Hs). eapply ok_bind; [by apply try_finish_ok|].
  intros g1 (Hs1 & Hc1 & Hm1 & Ha1). cbn zeta.
  destruct (schedule_soft now id g1 Hc1) as (Hs2 & Hc2). set (g2 := schedule_next_heartbeat_expiration now id g1) in *.
  assert (Hm2 : mg_members g2 !! id = Some (restart_timer now (end_join m))).
  { unfold g2. rewrite schedule_members, Hm1, !lookup_alter_eq, Hm by done. done. }
  unfold get_member. rewrite Hm2. cbn [mbind res_bind]. apply ok_ret.
  destruct (co_ids _ Hc' _ _ Hm) as [Hid _].
  assert (He : mg_members (put_member (settled now m) g2) = alter (settled now) id (mg_members g')).
  { cbn. rewrite Hid. apply map_eq. intros k. destruct (decide (k = id)) as [->|].
    - by rewrite lookup_insert_eq, lookup_alter_eq, Hm.
    - rewrite lookup_insert_ne, lookup_alter_ne by done. unfold g2. by rewrite schedule_members, Hm1, !lookup_alter_ne. }
  assert (Hs3 : soft g2 (put_member (settled now m) g2)).
  { soft_by. change (_ <$> <[_ := _]> _) with (shape <$> mg_members (put_member (settled now m) g2)). rewrite He.
    rewrite alter_shape by done. symmetry. rewrite <- (sf_members _ _ Hs1). apply (sf_members _ _ Hs2). }
  split_and!; [by do 2 (etrans; [eassumption|])| |done|].
  - apply (soft_core _ _ Hs3 Hc2). cbn. rewrite Hid, (msum_update _ _ _ _ _ Hm2), (co_joining _ Hc2).
    change (joins (settled now m)) with (joins (restart_timer now (end_join m))). lia.
  - exists (join_answer (join_response id md g) (Some m)). cbn. unfold g2. rewrite schedule_answers, Ha1, Hm. split; [done|].
    exists md. split; [done|]. exact Hmd.
Qed.

Definition kept (g : membership) : gmap string group_member := filter (fun x => stays x.2 = true) (mg_members g).

Definition most_votes (p : string) (g : membership) : Prop :=
  forall q, msum (voted (candidates g) q) (mg_members g) <= msum (voted (candidates g) p) (mg_members g).

(** The three ways in which a join phase ends: nobody is left, only static members that did not join are left, or the
    members that joined form the next generation. *)
Definition completes (now : Z) (g g' : membership) : Prop :=
  (kept g = ∅ /\ mg_state g' = empty /\ mg_members g' = ∅ /\ mg_generation g' = mg_generation g + 1 /\
   mg_answers g' = mg_answers g) \/
  (kept g <> ∅ /\ (forall id m, kept g !! id = Some m -> is_joining m = false) /\ mg_state g' = preparing_rebalance /\
   mg_join_timer g' = Some CompleteJoin /\ mg_members g' = kept g /\ mg_generation g' = mg_generation g /\
   mg_answers g' = mg_answers g) \/
  (exists l p m, kept g !! l = Some m /\ is_joining m = true /\ mg_leader g' = Some l /\ mg_protocol g' = Some p /\
   common_protocol p g' /\ most_votes p g' /\ mg_state g' = completing_rebalance /\
   mg_generation g' = mg_generation g + 1 /\ mg_members g' = settled now <$> kept g /\
   exists ls, mg_answers g' = mg_answers g ++ concat ls /\
     Forall2 (fun x a => join_told g' x.1 x.2 a) (iter_members (kept g)) ls).

Lemma soft_votes p g g' : soft g g' -> most_votes p g -> most_votes p g'.
Proof.
  intros Hs Hv q.
  assert (Hsz : size (mg_members g') = size (mg_members g)).
  { by rewrite <- !length_map_to_list, <- !(length_fmap fst), (soft_dom _ _ Hs). }
  assert (Hcs : candidates g' = candidates g) by (unfold candidates; by rewrite (sf_supported _ _ Hs), Hsz).
  set (f := fun q (s : nat * string * option string * list member_protocol) =>
    match List.find (fun p => bool_decide (p.1 ∈ candidates g)) s.2 with
    | Some c => if bool_decide (c.1 = q) then 1 else 0 | None => 0 end).
  assert (Hf : forall q ms, msum (voted (candidates g) q) ms = msum (f q) (shape <$> ms)).
  { intros q' ms. rewrite msum_fmap. unfold msum. induction (map_to_list ms) as [|[k m] l IH]; cbn; [done|]. rewrite IH. f_equal.
    unfold voted, vote_for_protocol, f. cbn. by destruct (List.find _ _). }
  rewrite Hcs, !Hf, (sf_members _ _ Hs), <- !Hf. apply Hv.
Qed.

Lemma join_told_soft g g' id m l : soft g g' -> join_told g id m l -> join_told g' id m l.
Proof.
  intros Hs (md & Hl & H1 & H2). exists md. rewrite (join_response_soft _ _ _ _ Hs), (sf_leader _ _ Hs). split_and!; [done|done|].
  intros Hld. rewrite (soft_dom _ _ Hs). by apply H2.
Qed.

Lemma kept_some g id m : kept g !! id = Some m <-> mg_members g !! id = Some m /\ stays m = true.
Proof. apply map_lookup_filter_Some. Qed.

(** No assignments of an earlier generation count in the next. *)
Lemma later_covers p s g : core g -> let g' := mg_set_state s (mg_set_generation (mg_generation g + 1) p g) in
  Forall (fun s => covers g' s.1) (mg_stores g').
Proof.
  intros [] g'. destruct co_own0 as (own & _ & Hst). eapply Forall_impl; [exact Hst|].
  intros [[] md]; cbn; [done| |done]. intros ? ->. lia.
Qed.

(** The members are answered and settled, which ends the phase soundly. *)
Lemma finish_phase_ok now p g :
  core g -> mg_state g = completing_rebalance -> mg_protocol g = Some p -> common_protocol p g -> mg_members g <> ∅ ->
  mg_join_timer g = None -> Forall (fun s => covers g s.1) (mg_stores g) ->
  ok (for_each_member (finish_join_of now) g) (fun g' => sound g' /\ soft g g' /\ mg_members g' = settled now <$> mg_members g /\
    exists ls, mg_answers g' = mg_answers g ++ concat ls /\
      Forall2 (fun x a => join_told g' x.1 x.2 a) (iter_members (mg_members g)) ls).
Proof.
  intros Hc Hst Hp Hcom Hne Ht Hcov. eapply ok_mono; [by apply (finish_join_ok now p)|].
  intros g' (Hs & Hc' & Hms & ls & Ha & HF).
  assert (Hst' := sf_state _ _ Hs). rewrite Hst in Hst'.
  assert (Hms' : mg_members g' = settled now <$> mg_members g) by (apply map_eq; intros k; by rewrite Hms, lookup_fmap).
  split; [|split_and!; [done|done|exists ls; split; [done|]]].
  - constructor; [done| | | | | |].
    + rewrite Hst'. by intros [].
    + intros _. rewrite (soft_empty _ _ Hs), (sf_protocol _ _ Hs). split; [done|]. exists p. split; [done|by eapply soft_common].
    + rewrite (sf_timer _ _ Hs), Ht, Hst'. split; [by intros []|done].
    + done.
    + intros _. apply joining_member; [by apply co_joining|]. intros id m Hm. rewrite Hms in Hm.
      by apply fmap_Some in Hm as (? & _ & ->).
    + intros _. rewrite (sf_stores _ _ Hs). eapply Forall_impl; [exact Hcov|]. intros s. by apply soft_covers.
  - eapply Forall2_impl; [exact HF|]. intros x a. by apply join_told_soft.
Qed.

Lemma complete_join_ok now g :
  core g -> mg_state g = preparing_rebalance -> mg_join_timer g = None -> mg_generation g < 2147483647 ->
  (forall id m, mg_members g !! id = Some m -> is_syncing m = false) ->
  ok (complete_join now g) (fun g' => sound g' /\ completes now g g').
Proof.
  intros Hc Hst Ht Hg Hsync. unfold complete_join.
  eapply ok_bind; [apply remove_all_unjoined_ok; by apply core_join|]. intros g1 (Hc1 & Hh & Hms).
  assert (Hk : mg_members g1 = kept g).
  { apply map_eq. intros k. rewrite Hms. cbn. unfold kept. rewrite map_lookup_filter. destruct (mg_members g !! k) as [m|]; cbn; [|done].
    destruct (stays m) eqn:E; [by rewrite option_guard_True|by rewrite option_guard_False; rewrite ?E]. }
  assert (Hsub : forall id m, mg_members g1 !! id = Some m -> is_syncing m = false).
  { rewrite Hk. intros id m [Hm _]%kept_some. eauto. }
  destruct Hh as [Hst1 Hgen1 Hpend1 Hprot1 Ht1 Hstores1 Hans1]; cbn in *. unfold in_mg_state at 1. rewrite Hst1, Hst.
  rewrite bool_decide_eq_false_2 by done.
  eapply ok_bind; [by apply leader_rejoined_ok|]. intros [b g2] (Hc2 & [l' Hl'] & Hb). cbn [fst snd] in *.
  assert (Hm2 : mg_members g2 = kept g) by (rewrite Hl'; exact Hk).
  destruct (negb b && negb (bool_decide (mg_members g2 = ∅))) eqn:Eb.
  - apply andb_true_iff in Eb as [->%negb_true_iff Hne%negb_true_iff%bool_decide_eq_false]. apply ok_ret. split.
    + constructor; cbn; [by apply core_join| | | | | |]; subst g2; cbn in *; rewrite ?Hst1, ?Hst; try done; try (by intros []).
      intros id m Hm Hsy. by rewrite (Hsub _ _ Hm) in Hsy.
    + right. left. subst g2. cbn in *. rewrite <- Hk. split_and!; try done; congruence.
  - eapply ok_bind; [apply advance_ok; subst g2; cbn in *; try done; [congruence|lia]|]. intros g3 (Hc3 & Hadv).
    case_bool_decide as He.
    + subst g3. cbn -[checkpoint]. eapply ok_bind; [apply checkpoint_ok; cbn; rewrite ?He; [done|by left]|].
      intros md _. apply ok_ret. rewrite He in Hm2.
      split; [|left; subst g2; cbn in *; split_and!; congruence].
      constructor; cbn; [by apply core_store| | | | | |]; subst g2; cbn in *; try done; try naive_solver.
      * rewrite Ht1, Ht. split; [by intros []|done].
      * rewrite He. done.
    + destruct Hadv as (p & Hg3 & Hcom & Hv). assert (Hms3 : mg_members g3 = kept g) by (subst g3; exact Hm2).
      unfold in_mg_state. rewrite bool_decide_eq_false_2 by (by subst g3).
      assert (Hb' : b = true) by (by destruct b). rewrite Hb' in *. destruct Hb as (l & m & Hl & Hm & Hj).
      eapply ok_mono; [apply (finish_phase_ok now p); [done|by subst g3|by subst g3|subst g3; exact Hcom|congruence|
        subst g3 g2; cbn in *; congruence|subst g3; by apply later_covers]|].
      intros g' (Hs' & Hsf & Hms' & ls & Ha & HF). split; [done|]. right. right. exists l, p, m.
      rewrite Hms3 in HF, Hms'. rewrite (sf_leader _ _ Hsf), (sf_protocol _ _ Hsf), (sf_state _ _ Hsf), (sf_generation _ _ Hsf).
      rewrite Hk in Hm. split_and!; try done; subst g3 g2; cbn in *; try congruence.
      * eapply soft_common; [exact Hsf|exact Hcom].
      * eapply soft_votes; [exact Hsf|exact Hv].
      * exists ls. split; [congruence|done].
Qed.

(** ** Rebalances *)

(** Sound, at most [n] generations later, and with no new member. *)
Record reaches (n : Z) (g g' : membership) : Prop := {
  re_sound : sound g';
  re_generation : mg_generation g <= mg_generation g' <= mg_generation g + n;
  re_members : dom (mg_members g') ⊆ dom (mg_members g);
}.

Lemma kept_dom g : dom (kept g) ⊆ dom (mg_members g).
Proof. apply dom_filter_subseteq. Qed.

Lemma completes_bounds now g g' : completes now g g' ->
  mg_generation g <= mg_generation g' <= mg_generation g + 1 /\ dom (mg_members g') ⊆ dom (mg_members g).
Proof.
  assert (Hk := kept_dom g).
  intros [(_&_&->&?&_)|[(_&_&_&_&->&?&_)|(?&?&?&_&_&_&_&_&_&_&?&->&_)]]; (split; [lia|]).
  - rewrite dom_empty. set_solver.
  - done.
  - by rewrite dom_fmap.
Qed.

Lemma reaches_same n g g' : sound g' -> 0 <= n -> mg_generation g' = mg_generation g -> dom (mg_members g') = dom (mg_members g) ->
  reaches n g g'.
Proof. intros ? ? Hg Hd. constructor; [done|lia|by rewrite Hd]. Qed.

Lemma reaches_trans n1 n2 g g1 g2 : reaches n1 g g1 -> reaches n2 g1 g2 -> reaches (n1 + n2) g g2.
Proof. intros [? ? ?] [? ? ?]. constructor; [done|lia|set_solver]. Qed.

Lemma soft_members_dom g g' : soft g g' -> dom (mg_members g') = dom (mg_members g).
Proof. intros Hs. rewrite <- (dom_fmap_L shape), (sf_members _ _ Hs). apply dom_fmap_L. Qed.

Lemma complete_join_reaches now g :
  core g -> mg_state g = preparing_rebalance -> mg_join_timer g = None -> mg_generation g < 2147483647 ->
  (forall id m, mg_members g !! id = Some m -> is_syncing m = false) -> ok (complete_join now g) (reaches 1 g).
Proof.
  intros. eapply ok_mono; [by apply complete_join_ok|]. intros g' [? [? ?]%completes_bounds]. by constructor.
Qed.

Lemma all_joined_ok g : core g -> ok (all_members_joined g) (fun _ => True).
Proof.
  intros Hc. unfold all_members_joined. apply ok_vassert; [|by apply ok_ret].
  rewrite (co_joining _ Hc). apply Z.leb_le, msum_bounds. auto.
Qed.

(** Collecting members, which needs only the timer to be sound. *)
Lemma collecting_sound t added initial g :
  core g -> mg_state g = preparing_rebalance -> (forall id m, mg_members g !! id = Some m -> is_syncing m = false) ->
  sound (mg_set_join (Some t) added initial g).
Proof.
  intros Hc Hst Hs. constructor; cbn; rewrite ?Hst; try done; try (by intros []); [by apply core_join|].
  intros id m Hm Hsy. by rewrite (Hs _ _ Hm) in Hsy.
Qed.

Lemma sound_not_syncing g : sound g -> mg_state g <> completing_rebalance ->
  forall id m, mg_members g !! id = Some m -> is_syncing m = false.
Proof. intros Hs Hst id m Hm. destruct (is_syncing m) eqn:E; [|done]. by destruct Hst, (so_syncing _ Hs _ _ Hm E). Qed.

Lemma complete_if_joined_ok now g :
  sound g -> mg_state g = preparing_rebalance -> mg_generation g < 2147483647 -> ok (complete_if_joined now g) (reaches 1 g).
Proof.
  intros Hs Hst Hg. unfold complete_if_joined. eapply ok_bind; [apply all_joined_ok, Hs|]. intros [] _.
  - eapply ok_mono; [apply complete_join_reaches; try done; [apply core_join, Hs|]|by intros g' []; constructor].
    apply (sound_not_syncing g); [done|by rewrite Hst].
  - apply ok_ret. by apply reaches_same.
Qed.

(** Members that wait for assignments are sent back to join. *)
Lemma stop_syncing_ok now e g : core g ->
  ok (finish_syncing_members now e (clear_assignments g)) (fun g' => soft g g' /\ core g' /\
    (forall id m, mg_members g' !! id = Some m -> is_syncing m = false)).
Proof.
  intros Hc. destruct (clear_ok g Hc) as [Hs1 Hc1]. eapply ok_mono; [by apply finish_syncing_ok|].
  intros g' (Hs & Hc' & Hms & _). split_and!; [by etrans|done|]. intros id m Hm. rewrite Hms in Hm.
  apply fmap_Some in Hm as (m0 & _ & ->). unfold synced. destruct (is_syncing m0) eqn:E; done.
Qed.

Lemma prepare_ok c now g :
  core g -> mg_state g <> preparing_rebalance -> mg_state g <> dead -> mg_join_timer g = None -> mg_generation g < 2147483647 ->
  (forall id m, mg_members g !! id = Some m -> is_syncing m = true -> mg_state g = completing_rebalance) ->
  ok (try_prepare_rebalance c now g) (reaches 1 g).
Proof.
  intros Hc Hnp Hnd Ht Hg Hsy. unfold try_prepare_rebalance.
  replace (member_state_valid preparing_rebalance g) with true
    by (unfold member_state_valid, in_mg_state; by destruct (mg_state g)). cbn [negb].
  apply (ok_bind _ _ (fun g1 => soft g g1 /\ core g1 /\ forall id m, mg_members g1 !! id = Some m -> is_syncing m = false)).
  { unfold in_mg_state. case_bool_decide as Hcs; [by apply stop_syncing_ok|]. apply ok_ret. split_and!; [reflexivity|done|].
    intros id m Hm. destruct (is_syncing m) eqn:E; [|done]. destruct Hcs. eauto. }
  intros g1 (Hs1 & Hc1 & Hsy1). unfold change_state.
  replace (member_state_valid preparing_rebalance g1) with true
    by (unfold member_state_valid, in_mg_state; rewrite (sf_state _ _ Hs1); by destruct (mg_state g)). cbn [vassert mbind res_bind].
  assert (Hc2 : core (mg_set_state preparing_rebalance g1)) by by apply core_state.
  assert (Hdom := soft_members_dom _ _ Hs1). assert (Hgen := sf_generation _ _ Hs1). assert (Htm := sf_timer _ _ Hs1). rewrite Ht in Htm.
  destruct (in_mg_state empty g1).
  - apply ok_ret. apply reaches_same; [|done|done|done]. apply collecting_sound; cbn; [by apply core_join|done|done].
  - eapply ok_bind; [by apply all_joined_ok, core_join|]. intros [] _.
    + eapply ok_mono; [apply complete_join_reaches; cbn; [by apply core_join|done|done|lia|done]|].
      intros g' [? Hr Hd]. cbn in Hr, Hd. constructor; [done|lia|by rewrite <- Hdom].
    + apply ok_ret. apply reaches_same; [|done|done|done]. apply collecting_sound; cbn; [by apply core_join|done|done].
Qed.

(** In the states in which nothing can be prepared. *)
Lemma prepare_nothing c now g :
  mg_state g = preparing_rebalance \/ mg_state g = dead -> try_prepare_rebalance c now g = Ok g.
Proof. unfold try_prepare_rebalance, member_state_valid, in_mg_state. by intros [-> | ->]. Qed.

(** ** Departures *)

Lemma core_pending ps g : core g -> ps ⊆ mg_pending_members g -> core (mg_set_pending ps g).
Proof.
  intros [] Hps. constructor; try assumption; cbn; [set_solver|]. destruct co_own0 as (own & Ho & Hst). exists own.
  split; [done|]. eapply Forall_impl; [exact Hst|]. intros [[] md]; cbn; [done|done|set_solver].
Qed.

Lemma sound_pending ps g : sound g -> ps ⊆ mg_pending_members g -> sound (mg_set_pending ps g).
Proof. intros [] Hps. constructor; try assumption. by apply core_pending. Qed.

Lemma join_timer_ok now g : sound g -> mg_generation g < 2147483647 -> ok (join_timer_fired now g) (reaches 1 g).
Proof.
  intros Hs Hg. unfold join_timer_fired. destruct (mg_join_timer g) as [t|] eqn:Et; [|by apply ok_ret, reaches_same].
  assert (Hst : mg_state g = preparing_rebalance) by (apply (so_timer _ Hs); by rewrite Et).
  assert (Hsy := sound_not_syncing g Hs ltac:(by rewrite Hst)).
  assert (Hcj : ok (complete_join now (cancel_join_timer g)) (reaches 1 g)).
  { eapply ok_mono; [apply complete_join_reaches; try done; apply core_join, Hs|]. by intros g' []; constructor. }
  destruct t as [initial delay remaining|]; [|done]. case_match; [|done].
  apply ok_ret, reaches_same; [|done|done|done]. apply collecting_sound; [apply core_join, Hs|done|done].
Qed.

Lemma remove_pending_ok now id g : sound g -> mg_generation g < 2147483647 -> ok (remove_pending_member now id g) (reaches 1 g).
Proof.
  intros Hs Hg. unfold remove_pending_member.
  assert (Hs' : sound (mg_set_pending (mg_pending_members g ∖ {[id]}) g)) by (apply sound_pending; [done|set_solver]).
  case_match eqn:E; [|by apply ok_ret, reaches_same].
  apply andb_true_iff in E as [E _]. apply bool_decide_eq_true in E. cbn in E.
  eapply ok_mono; [by apply complete_if_joined_ok|]. by intros g' []; constructor.
Qed.

Lemma remove_member_ok c now id g : sound g -> mg_generation g < 2147483647 -> is_Some (mg_members g !! id) ->
  ok (remove_member c now id g) (fun g' => reaches 1 g g' /\ id ∉ dom (mg_members g')).
Proof.
  intros Hs Hg [m Hm]. unfold remove_member. eapply ok_bind; [apply try_finish_ok, Hs|].
  intros g1 (Hs1 & Hc1 & Hm1 & _).
  assert (Hm1' : mg_members g1 !! id = Some (end_join m)) by (by rewrite Hm1, lookup_alter_eq, Hm).
  rewrite Hm1'. apply (ok_bind _ _ (fun g2 => exists sp, (if is_group_leader id g2
      then mg_set_leader (mg_protocol_type g2) (next_leader g2) g2 else g2) = dropped id (end_join m) sp g1 /\
      forall q, support sp q = support (mg_supported_protocols g1) q - lists q (end_join m))).
  { eapply ok_bind; [by apply (uncount_member id)|]. intros sp Hsp. apply ok_ret. exists sp. split; [|done].
    unfold dropped. by destruct (m_group_instance_id (end_join m)). }
  intros g2 (sp & He & Hsp). cbn zeta. rewrite He.
  destruct (dropped_fields id (end_join m) sp g1) as ([Hst Hgen _ Hpr Ht _ _] & Hms & _).
  assert (Hc3 : core (dropped id (end_join m) sp g1)) by (by apply drop_core).
  set (g3 := dropped id (end_join m) sp g1) in *. clear He Hsp.
  assert (Hst' : mg_state g3 = mg_state g) by (rewrite Hst; apply Hs1).
  assert (Ht' : mg_join_timer g3 = mg_join_timer g) by (rewrite Ht; apply Hs1).
  assert (Hgen' : mg_generation g3 = mg_generation g) by (rewrite Hgen; apply Hs1).
  assert (Hdom : dom (mg_members g3) ⊆ dom (mg_members g) ∖ {[id]}).
  { rewrite Hms, dom_delete_L, (soft_members_dom _ _ Hs1). done. }
  assert (Hsy : forall k x, mg_members g3 !! k = Some x -> is_syncing x = true -> mg_state g = completing_rebalance).
  { intros k x. rewrite Hms, Hm1. intros [Hk Hx]%lookup_delete_Some. rewrite lookup_alter_ne in Hx by done. by apply (so_syncing _ Hs k). }
  assert (Hre : forall g', reaches 1 g3 g' -> reaches 1 g g' /\ id ∉ dom (mg_members g')).
  { intros g' [? ? ?]. split; [constructor; [done|lia|set_solver]|set_solver]. }
  assert (Hne : mg_members g <> ∅) by (intros E; by rewrite E in Hm).
  assert (Hnt : mg_state g <> preparing_rebalance -> mg_join_timer g3 = None).
  { rewrite Ht', <- (so_timer _ Hs). by destruct (mg_join_timer g); [intros []|]. }
  rewrite Hst'. destruct (mg_state g) eqn:Es.
  - destruct Hne. apply (so_empty _ Hs). by left.
  - assert (Hs3 : sound g3).
    { constructor; rewrite ?Hst'; try done; try (by intros []).
      rewrite Ht', (so_timer _ Hs). done. }
    destruct (is_armed g3); [|by apply ok_ret, Hre, reaches_same].
    eapply ok_mono; [apply complete_if_joined_ok; [done|done|lia]|done].
  - eapply ok_mono; [apply prepare_ok; rewrite ?Hst'; [done|done|done|by apply Hnt|lia|done]|done].
  - eapply ok_mono; [apply prepare_ok; rewrite ?Hst'; [done|done|done|by apply Hnt|lia|done]|done].
  - destruct Hne. apply (so_empty _ Hs). by right.
Qed.

End Loops.
