(* ===== verification/GroupMembershipSound.v ===== *)
(** * Consumer groups stay sound

    The requests, timers and write results of [GroupMembership] as events of a group; every
    event of a sound group ends in a sound group.  The assumptions on an event say what the
    code relies on: generated ids are new, a request names a protocol once, and the
    generation does not overflow. *)

From S2P Require Import Prelude Errors GroupOffsets GroupMembership GroupMembershipProps.

#[local] Hint Resolve lists_bounds joins_bounds : core.

(** An id that nobody has and no write in flight brings back. *)
Definition fresh_for (id : string) (g : membership) : Prop :=
  mg_members g !! id = None /\ id <> EmptyString /\ id ∉ mg_pending_members g /\
  forall s, s ∈ mg_stores g -> id ∉ store_ids s.1.

(** ** Changes of members *)

Lemma fresh_own id v own g :
  fresh_for id g -> owns own g -> Forall (fun s => store_ok own g s.1) (mg_stores g) ->
  let own' := fun k => if bool_decide (k = id) then v else own k in
  owns own' g /\ Forall (fun s => store_ok own' g s.1) (mg_stores g).
Proof.
  intros (Hn & _ & _ & Hs) Ho Hst own'. unfold own'. split.
  - intros k m Hk. rewrite bool_decide_eq_false_2 by congruence. by apply Ho.
  - rewrite Forall_forall in Hst |- *. intros s Hin. specialize (Hs s Hin). specialize (Hst s Hin).
    destruct s as [[] md]; cbn in *; try done. rewrite !bool_decide_eq_false_2 by set_solver. done.
Qed.

(** Stores do not depend on members that they do not revert to. *)
Lemma store_ok_members own g g' id s :
  mg_generation g' = mg_generation g -> mg_pending_members g' = mg_pending_members g ->
  (forall k, k <> id -> mg_members g !! k = None -> mg_members g' !! k = None) -> id ∉ reverts_to s ->
  store_ok own g s -> store_ok own g' s.
Proof.
  intros Hg Hp Hm Hid. destruct s; cbn; rewrite ?Hg, ?Hp; [done|done|]. cbn in Hid.
  intros (? & ? & ? & ? & ? & ? & ? & ? & Ho). split_and!; try done. apply Hm; [set_solver|done].
Qed.

Lemma common_insert p id m g g' :
  mg_members g' = <[id := m]> (mg_members g) -> (forall k x, k <> id -> mg_members g !! k = Some x -> p ∈ names x) ->
  p ∈ names m -> common_protocol p g'.
Proof.
  intros Hms Hc Hp k x. rewrite Hms. intros [[<- <-]|[Hk Hx]]%lookup_insert_Some; [done|]. eauto.
Qed.

Record added (m : group_member) (g g' : membership) : Prop := {
  ad_members : mg_members g' = <[m_id m := m]> (mg_members g);
  ad_supported : mg_supported_protocols g' = count_protocols 1 (m_protocols m) (mg_supported_protocols g);
  ad_joining : mg_num_members_joining g' = mg_num_members_joining g + joins m;
  ad_static : mg_static_members g' =
    match m_group_instance_id m with Some i => <[i := m_id m]> (mg_static_members g) | None => mg_static_members g end;
  ad_pending : mg_pending_members g' = mg_pending_members g;
  ad_leader : mg_leader g' = match mg_leader g with Some l => Some l | None => Some (m_id m) end;
  ad_stores : mg_stores g' = mg_stores g;
  ad_generation : mg_generation g' = mg_generation g;
}.

Lemma added_static m g g' i k : core g -> added m g g' -> mg_members g !! m_id m = None ->
  (forall i, m_group_instance_id m = Some i -> mg_static_members g !! i = None) ->
  mg_static_members g' !! i = Some k <-> exists x, mg_members g' !! k = Some x /\ m_group_instance_id x = Some i.
Proof.
  intros Hc Ha Hn Hi. rewrite (ad_static _ _ _ Ha), (ad_members _ _ _ Ha). setoid_rewrite lookup_insert_Some.
  destruct (m_group_instance_id m) as [j|] eqn:Ej.
  - specialize (Hi j eq_refl). rewrite lookup_insert_Some, (co_static _ Hc). split.
    + intros [[-> <-]|[Hne (x & Hx & Hxi)]]; [eauto|]. exists x. split; [|done]. right. split; [congruence|done].
    + intros (x & [[<- <-]|[Hk Hx]] & Hxi); [left; split; congruence|]. right. split; [|eauto].
      intros ->. assert (mg_static_members g !! i = Some k) by (apply (co_static _ Hc); eauto). congruence.
  - rewrite (co_static _ Hc). split.
    + intros (x & Hx & Hxi). exists x. split; [|done]. right. split; [congruence|done].
    + intros (x & [[<- <-]|[Hk Hx]] & Hxi); [congruence|eauto].
Qed.

Lemma add_core m g g' p :
  core g -> added m g g' -> fresh_for (m_id m) g -> NoDup (names m) ->
  (forall i, m_group_instance_id m = Some i -> mg_static_members g !! i = None) ->
  common_protocol p g -> p ∈ names m -> core g'.
Proof.
  intros Hc Ha Hf Hnd Hi Hp Hpm. destruct Hf as (Hn & Hne & Hpend & Hst) eqn:Ef. clear Ef.
  assert (Hms := ad_members _ _ _ Ha). constructor.
  - intros k x. rewrite Hms. intros [[<- <-]|[Hk Hx]]%lookup_insert_Some; [done|by eapply co_ids].
  - intros k x. rewrite Hms. intros [[<- <-]|[Hk Hx]]%lookup_insert_Some; [done|by eapply co_names].
  - intros q. rewrite (ad_supported _ _ _ Ha), count_support, Hms, msum_insert, (co_counts _ Hc) by done. unfold lists, names. lia.
  - rewrite (ad_joining _ _ _ Ha), Hms, msum_insert, (co_joining _ Hc) by done. lia.
  - intros i k. by apply (added_static m g).
  - intros k. rewrite (ad_pending _ _ _ Ha), Hms. intros Hk. destruct (co_pending _ Hc _ Hk). split; [|done].
    by rewrite lookup_insert_ne by set_solver.
  - unfold leads. rewrite (ad_leader _ _ _ Ha), Hms. assert (Hl := co_leader _ Hc). unfold leads in Hl.
    destruct (mg_leader g); [by apply lookup_insert_is_Some'; right|]. by rewrite lookup_insert_eq.
  - right. exists p. eapply common_insert; [done| |done]. intros k x _. apply Hp.
  - destruct (co_own _ Hc) as (own & Ho & Hs). destruct (fresh_own _ (m_object m, m_group_instance_id m) own g Hf Ho Hs) as [Ho' Hs'].
    exists (fun k => if bool_decide (k = m_id m) then (m_object m, m_group_instance_id m) else own k). split.
    + intros k x. rewrite Hms. intros [[<- <-]|[Hk Hx]]%lookup_insert_Some; cbn; [by rewrite bool_decide_eq_true_2|].
      rewrite bool_decide_eq_false_2 by done. by apply Ho.
    + rewrite (ad_stores _ _ _ Ha). rewrite Forall_forall in Hs' |- *. intros s Hin.
      apply (store_ok_members _ g _ (m_id m)); [apply Ha|apply Ha| | |by apply Hs'].
      * intros k Hk. by rewrite Hms, lookup_insert_ne.
      * specialize (Hst s Hin). destruct s as [[] ?]; set_solver.
  - rewrite (ad_stores _ _ _ Ha). apply Hc.
Qed.

(** The protocols of a member and whether it joins may change. *)
Record updated (id : string) (m m' : group_member) (g g' : membership) : Prop := {
  up_members : mg_members g' = <[id := m']> (mg_members g);
  up_supported : forall q, support (mg_supported_protocols g') q = support (mg_supported_protocols g) q - lists q m + lists q m';
  up_joining : mg_num_members_joining g' = mg_num_members_joining g - joins m + joins m';
  up_static : mg_static_members g' = mg_static_members g;
  up_pending : mg_pending_members g' = mg_pending_members g;
  up_leader : mg_leader g' = mg_leader g;
  up_stores : mg_stores g' = mg_stores g;
  up_generation : mg_generation g' = mg_generation g;
}.

Lemma update_core id m m' g g' p :
  core g -> updated id m m' g g' -> mg_members g !! id = Some m -> NoDup (names m') ->
  m_object m' = m_object m -> m_id m' = m_id m -> m_group_instance_id m' = m_group_instance_id m ->
  (forall k x, k <> id -> mg_members g !! k = Some x -> p ∈ names x) -> p ∈ names m' -> core g'.
Proof.
  intros Hc Hu Hm Hnd Hob Hid Hin Hp Hpm. assert (Hms := up_members _ _ _ _ _ Hu).
  destruct (co_ids _ Hc _ _ Hm) as [Hid0 Hne]. constructor.
  - intros k x. rewrite Hms. intros [[<- <-]|[Hk Hx]]%lookup_insert_Some; [split; congruence|by eapply co_ids].
  - intros k x. rewrite Hms. intros [[<- <-]|[Hk Hx]]%lookup_insert_Some; [done|by eapply co_names].
  - intros q. rewrite (up_supported _ _ _ _ _ Hu), (co_counts _ Hc), Hms, (msum_update _ _ _ _ _ Hm). done.
  - rewrite (up_joining _ _ _ _ _ Hu), (co_joining _ Hc), Hms, (msum_update _ _ _ _ _ Hm). done.
  - intros i k. rewrite (up_static _ _ _ _ _ Hu), (co_static _ Hc), Hms. setoid_rewrite lookup_insert_Some. split.
    + intros (x & Hx & Hi). destruct (decide (k = id)) as [->|]; [exists m'; split; [by left|congruence]|exists x; split; [by right|done]].
    + intros (x & [[<- <-]|[Hk Hx]] & Hi); [exists m; split; congruence|eauto].
  - intros k. rewrite (up_pending _ _ _ _ _ Hu), Hms. intros Hk. destruct (co_pending _ Hc _ Hk). split; [|done].
    rewrite lookup_insert_ne by congruence. done.
  - unfold leads. rewrite (up_leader _ _ _ _ _ Hu), Hms. assert (Hl := co_leader _ Hc). unfold leads in Hl.
    destruct (mg_leader g); [by apply lookup_insert_is_Some'; right|]. by rewrite Hl in Hm.
  - right. exists p. by eapply common_insert.
  - destruct (co_own _ Hc) as (own & Ho & Hs). exists own. split.
    + intros k x. rewrite Hms. intros [[<- <-]|[Hk Hx]]%lookup_insert_Some; [rewrite (Ho _ _ Hm); congruence|by apply Ho].
    + rewrite (up_stores _ _ _ _ _ Hu). eapply Forall_impl; [exact Hs|]. intros [s md]. destruct s; cbn;
        rewrite ?(up_generation _ _ _ _ _ Hu), ?(up_pending _ _ _ _ _ Hu); [done|done|].
      intros (? & ? & ? & ? & ? & ? & ? & ? & Hold). split_and!; try done. rewrite Hms, lookup_insert_ne by congruence. done.
  - rewrite (up_stores _ _ _ _ _ Hu). apply Hc.
Qed.

(** ** Static members under a new id *)

Definition moved (id : string) (m : group_member) : group_member := set_promises None None (set_member_id id m).

Record replaced (instance old_id new_id : string) (m : group_member) (g g' : membership) : Prop := {
  rp_members : mg_members g' = <[new_id := moved new_id m]> (delete old_id (mg_members g));
  rp_supported : mg_supported_protocols g' = mg_supported_protocols g;
  rp_joining : mg_num_members_joining g' = mg_num_members_joining g - joins m;
  rp_static : mg_static_members g' = <[instance := new_id]> (mg_static_members g);
  rp_pending : mg_pending_members g' = mg_pending_members g;
  rp_leader : mg_leader g' = if bool_decide (mg_leader g = Some old_id) then Some new_id else mg_leader g;
  rp_stores : mg_stores g' = mg_stores g;
  rp_generation : mg_generation g' = mg_generation g;
  rp_state : mg_state g' = mg_state g;
  rp_timer : mg_join_timer g' = mg_join_timer g;
  rp_protocol : mg_protocol g' = mg_protocol g;
}.

Lemma replace_ok instance old_id new_id m g :
  core g -> mg_members g !! old_id = Some m -> m_group_instance_id m = Some instance -> mg_members g !! new_id = None ->
  ok (replace_static_member instance old_id new_id g) (replaced instance old_id new_id m g).
Proof.
  intros Hc Hm Hi Hn. unfold replace_static_member. rewrite Hm. cbn zeta.
  set (g1 := mg_set_members _ _ g).
  apply (ok_bind _ _ (fun g2 => mg_members g2 = <[new_id := set_promises None (m_sync_promise m) (set_member_id new_id m)]>
      (delete old_id (mg_members g)) /\ mg_num_members_joining g2 = mg_num_members_joining g - joins m /\
      exists ans, g2 = mg_set_counts (mg_num_members_joining g2) (mg_next_object g) (mg_next_promise g) ans (mg_stores g)
        (mg_set_members (mg_supported_protocols g) (mg_members g2) g))).
  { unfold try_finish_joining_member. cbn. rewrite lookup_insert_eq. cbn.
    destruct (m_join_promise m) as [p|] eqn:Ep; cbn.
    - assert (Hj : joins m = 1) by (unfold joins, is_joining; by rewrite Ep).
      assert (Hb : 1 <= mg_num_members_joining g).
      { rewrite (co_joining _ Hc). assert (H1 := msum_delete joins _ _ _ Hm).
        assert (H2 := msum_bounds joins (delete old_id (mg_members g)) joins_bounds). lia. }
      replace (0 <=? _) with true by (symmetry; apply Z.leb_le; lia). cbn. apply ok_ret.
      split_and!; [cbn; by rewrite insert_insert_eq|cbn; lia|eexists; reflexivity].
    - apply ok_ret. cbn. assert (Hj : joins m = 0) by (unfold joins, is_joining; by rewrite Ep).
      split_and!; [|lia|exists (mg_answers g); by destruct g].
      f_equal. clear -Ep. destruct m; cbn in *. by subst. }
  intros g2 (Hm2 & Hn2 & ans & Hg2). clear g1.
  assert (Hstat : is_Some (mg_static_members g !! instance)) by (exists old_id; apply (co_static _ Hc); eauto).
  set (g3 := set_sync_response new_id _ g2).
  assert (H3 : mg_members g3 = <[new_id := moved new_id m]> (delete old_id (mg_members g)) /\
    exists ans, g3 = mg_set_counts (mg_num_members_joining g2) (mg_next_object g) (mg_next_promise g) ans (mg_stores g)
        (mg_set_members (mg_supported_protocols g) (mg_members g3) g)).
  { unfold g3, set_sync_response. rewrite Hm2, lookup_insert_eq. cbn. destruct (m_sync_promise m) as [p|] eqn:Ep.
    - split; [cbn; by rewrite Hm2, insert_insert_eq|]. rewrite Hg2. eexists. reflexivity.
    - split; [|by exists ans; rewrite <- Hg2]. by rewrite Hm2. }
  clearbody g3. destruct H3 as (Hm3 & ans' & Hg3). cbn zeta. unfold is_group_leader. rewrite Hg3.
  apply ok_vassert.
  { cbn. apply bool_decide_eq_true_2. by destruct (bool_decide (mg_leader g = Some old_id)). }
  apply ok_ret. cbn [mg_leader mg_set_counts mg_set_members].
  destruct (bool_decide (mg_leader g = Some old_id)) eqn:El; constructor; cbn; rewrite ?El; done.
Qed.

(** The requests that wait under the old id are told that the instance is fenced. *)
Lemma replace_answers instance old_id new_id m g g' :
  mg_members g !! old_id = Some m -> replace_static_member instance old_id new_id g = Ok g' ->
  mg_answers g' = mg_answers g ++ join_answer (make_join_error old_id error_code.fenced_instance_id) (Some m) ++
    sync_answer (sync_error error_code.fenced_instance_id) (Some m).
Proof.
  intros Hm. unfold replace_static_member, try_finish_joining_member, join_answer, sync_answer. rewrite Hm. cbn.
  rewrite lookup_insert_eq. cbn. destruct (m_join_promise m) as [p|] eqn:Ep; cbn.
  - destruct (0 <=? _); [|done]. cbn. unfold set_sync_response. cbn. rewrite lookup_insert_eq. cbn.
    destruct (m_sync_promise m); cbn; destruct (is_group_leader _ _); cbn;
      (destruct (bool_decide _); [cbn|done]); intros [= <-]; cbn; by rewrite <- ?app_assoc.
  - unfold set_sync_response. cbn. rewrite lookup_insert_eq. cbn.
    destruct (m_sync_promise m); cbn; destruct (is_group_leader _ _); cbn;
      (destruct (bool_decide _); [cbn|done]); intros [= <-]; cbn; by rewrite ?app_nil_r.
Qed.

Lemma replaced_static instance old_id new_id m g g' i k :
  core g -> replaced instance old_id new_id m g g' -> mg_members g !! old_id = Some m ->
  m_group_instance_id m = Some instance -> mg_members g !! new_id = None ->
  mg_static_members g' !! i = Some k <-> exists x, mg_members g' !! k = Some x /\ m_group_instance_id x = Some i.
Proof.
  intros Hc Hr Hm Hi Hn. rewrite (rp_static _ _ _ _ _ _ Hr), (rp_members _ _ _ _ _ _ Hr).
  setoid_rewrite lookup_insert_Some. setoid_rewrite lookup_delete_Some. rewrite (co_static _ Hc). split.
  - intros [[<- <-]|[Hne (x & Hx & Hxi)]]; [exists (moved new_id m); split; [by left|done]|].
    exists x. split; [|done]. right. split_and!; [congruence|congruence|done].
  - intros (x & [[<- <-]|(Hk & Hk' & Hx)] & Hxi); [left; split; [|done]; change (m_group_instance_id m = Some i) in Hxi; congruence|].
    right. split; [|eauto]. intros ->.
    assert (H1 : mg_static_members g !! i = Some k) by (apply (co_static _ Hc); eauto).
    assert (H2 : mg_static_members g !! i = Some old_id) by (apply (co_static _ Hc); eauto). congruence.
Qed.

Lemma replace_core instance old_id new_id m g g' own :
  core g -> replaced instance old_id new_id m g g' -> mg_members g !! old_id = Some m ->
  m_group_instance_id m = Some instance -> mg_members g !! new_id = None -> new_id <> EmptyString ->
  new_id ∉ mg_pending_members g -> (forall s, s ∈ mg_stores g -> new_id ∉ reverts_to s.1) ->
  owns own g -> Forall (fun s => store_ok own g s.1) (mg_stores g) -> own new_id = (m_object m, Some instance) ->
  core g' /\ owns own g' /\ Forall (fun s => store_ok own g' s.1) (mg_stores g').
Proof.
  intros Hc Hr Hm Hi Hn Hne Hp Hrev Ho Hs Hown. assert (Hms := rp_members _ _ _ _ _ _ Hr).
  assert (Hnd : delete old_id (mg_members g) !! new_id = None) by (apply lookup_delete_None; by right).
  assert (Hsum : forall f : group_member -> Z, msum f (mg_members g') = msum f (mg_members g) - f m + f (moved new_id m)).
  { intros f. rewrite Hms, msum_insert, (msum_delete _ _ _ _ Hm) by done. lia. }
  assert (Hsub : forall k x, mg_members g' !! k = Some x -> (k = new_id /\ x = moved new_id m) \/ mg_members g !! k = Some x).
  { intros k x. rewrite Hms. intros [[<- <-]|[Hk [_ Hx]%lookup_delete_Some]]%lookup_insert_Some; auto. }
  assert (Hown' : owns own g' /\ Forall (fun s => store_ok own g' s.1) (mg_stores g')).
  { split.
    + intros k x Hk. destruct (Hsub _ _ Hk) as [[-> ->]|Hx]; [cbn; rewrite Hi; done|by apply Ho].
    + rewrite (rp_stores _ _ _ _ _ _ Hr). rewrite Forall_forall in Hs |- *. intros s Hin.
      apply (store_ok_members _ g _ new_id); [apply Hr|apply Hr| |by apply Hrev|by apply Hs].
      intros k Hk Hkn. rewrite Hms, lookup_insert_ne by done. apply lookup_delete_None. by right. }
  split; [|done]. constructor.
  - intros k x Hk. destruct (Hsub _ _ Hk) as [[-> ->]|Hx]; [done|by eapply co_ids].
  - intros k x Hk. destruct (Hsub _ _ Hk) as [[-> ->]|Hx]; [by eapply (co_names _ Hc old_id m)|by eapply co_names].
  - intros q. rewrite (rp_supported _ _ _ _ _ _ Hr), (co_counts _ Hc), Hsum. change (lists q (moved new_id m)) with (lists q m). lia.
  - rewrite (rp_joining _ _ _ _ _ _ Hr), (co_joining _ Hc), Hsum. change (joins (moved new_id m)) with 0. lia.
  - intros i k. by eapply replaced_static.
  - intros k. rewrite (rp_pending _ _ _ _ _ _ Hr), Hms. intros Hk. destruct (co_pending _ Hc _ Hk). split; [|done].
    rewrite lookup_insert_ne by congruence. apply lookup_delete_None. by right.
  - unfold leads. rewrite (rp_leader _ _ _ _ _ _ Hr), Hms. case_bool_decide; [by rewrite lookup_insert_eq|].
    assert (Hl := co_leader _ Hc). unfold leads in Hl. destruct (mg_leader g) as [l|]; [|by rewrite Hl in Hm].
    apply lookup_insert_is_Some'. right. rewrite lookup_delete_ne by congruence. done.
  - right. destruct (co_common _ Hc) as [He|[p Hcp]]; [by rewrite He in Hm|]. exists p. intros k x Hk.
    destruct (Hsub _ _ Hk) as [[-> ->]|Hx]; [exact (Hcp old_id m Hm)|by apply (Hcp k)].
  - by exists own.
  - rewrite (rp_stores _ _ _ _ _ _ Hr). apply Hc.
Qed.

(** ** Requests to join *)

Section Requests.

Context `{IterationLaws} (c : group_config) (now : Z).

(** Sound, and at most [n] generations later. *)
Definition later (n : Z) (g g' : membership) : Prop :=
  sound g' /\ mg_generation g <= mg_generation g' <= mg_generation g + n.

Lemma reaches_later n g g' : reaches n g g' -> later n g g'.
Proof. by intros []. Qed.

Lemma later_same n g g' : sound g' -> 0 <= n -> mg_generation g' = mg_generation g -> later n g g'.
Proof. intros ? ? He. split; [done|lia]. Qed.

Lemma no_timer g : sound g -> mg_state g <> preparing_rebalance -> mg_join_timer g = None.
Proof. intros Hs Hst. destruct (mg_join_timer g) eqn:E; [|done]. destruct Hst. apply (so_timer _ Hs). by rewrite E. Qed.

(** A rebalance after the members of a sound group have changed. *)
Lemma prepare_after g g' :
  sound g -> mg_state g <> dead -> mg_generation g < 2147483647 -> core g' -> mg_state g' = mg_state g ->
  mg_join_timer g' = mg_join_timer g -> mg_generation g' = mg_generation g ->
  (forall id m, mg_members g' !! id = Some m -> is_syncing m = true -> mg_state g = completing_rebalance) ->
  ok (try_prepare_rebalance c now g') (later 1 g).
Proof.
  intros Hs Hd Hg Hc' Hst Ht Hgen Hsy. destruct (decide (mg_state g = preparing_rebalance)) as [Hp|Hp].
  - rewrite prepare_nothing by (rewrite Hst; by left). apply ok_ret, later_same; [|done|done].
    replace g' with (mg_set_join (mg_join_timer g') (mg_new_member_added g') (mg_initial_join_in_progress g') g') by (by destruct g').
    rewrite Ht. destruct (proj2 (so_timer _ Hs) Hp) as [t ->]. apply collecting_sound; [done|congruence|].
    intros id m Hm. destruct (is_syncing m) eqn:E; [|done]. specialize (Hsy _ _ Hm E). congruence.
  - eapply ok_mono; [apply prepare_ok; rewrite ?Hst, ?Ht, ?Hgen; try done; by apply no_timer|].
    intros g'' [? Hr _]. split; [done|lia].
Qed.

Lemma supports_ok r g : sound g -> supports_protocols r g = true -> exists p, p ∈ (jg_protocols r).*1 /\ common_protocol p g.
Proof.
  intros Hs. unfold supports_protocols, in_mg_state. case_bool_decide as He.
  - rewrite andb_true_iff, !negb_true_iff, !bool_decide_eq_false. intros [_ Hne]. destruct (jg_protocols r) as [|p ps]; [done|].
    exists p.1. split; [set_solver|]. intros id m. by rewrite (so_empty _ Hs) by by left.
  - case_bool_decide; [cbn [negb]|done]. rewrite existsb_exists. intros (p & Hin & Hp).
    exists p.1. split; [apply list_elem_of_fmap; exists p; split; [done|by apply list_elem_of_In]|].
    apply bool_decide_eq_true in Hp. assert (Hsum := co_counts _ (so_core _ Hs) p.1). unfold support in Hsum. rewrite Hp in Hsum.
    cbn in Hsum. symmetry in Hsum. rewrite msum_full in Hsum by auto. intros id m Hm. specialize (Hsum _ _ Hm).
    unfold lists in Hsum. by case_bool_decide.
Qed.

Definition joined_now (m : group_member) (p : nat) : group_member :=
  set_timer true now (Some (now + group_new_member_join_timeout c)) (set_promises (Some p) None m).

Lemma add_rebalance_ok id r g p :
  sound g -> mg_state g <> dead -> mg_generation g < 2147483647 ->
  fresh_for id (mg_set_pending (mg_pending_members g ∖ {[id]}) g) -> NoDup (jg_protocols r).*1 ->
  (forall i, jg_group_instance_id r = Some i -> mg_static_members g !! i = None) ->
  p ∈ (jg_protocols r).*1 -> common_protocol p g ->
  ok (add_member_and_rebalance c now id r g) (fun x => later 1 g x.2).
Proof.
  intros Hs Hd Hg Hf Hnd Hi Hp Hcom. set (g0 := mg_set_pending (mg_pending_members g ∖ {[id]}) g) in *.
  assert (Hc0 : core g0) by (apply core_pending; [apply Hs|set_solver]).
  unfold add_member_and_rebalance. cbn zeta. set (g1 := if in_mg_state preparing_rebalance _ && _ then _ else _).
  assert (Hg1 : exists more, g1 = mg_set_join (mg_join_timer g) more (mg_initial_join_in_progress g)
    (mg_set_counts (mg_num_members_joining g) (S (mg_next_object g)) (mg_next_promise g) (mg_answers g) (mg_stores g) g)).
  { unfold g1. case_match; [by exists true|exists (mg_new_member_added g); by destruct g]. }
  clearbody g1. destruct Hg1 as [more ->]. unfold add_member, add_member_no_join. cbn.
  assert (Hn : mg_members g !! id = None) by apply Hf.
  apply (ok_bind _ _ (fun x => exists q, x.1 = q /\ core (mg_set_pending (mg_pending_members x.2 ∖ {[id]}) x.2) /\ mg_state x.2 = mg_state g /\
    mg_join_timer x.2 = mg_join_timer g /\ mg_generation x.2 = mg_generation g /\
    mg_members x.2 = <[id := set_promises (Some q) None (new_member id r (mg_next_object g))]> (mg_members g))).
  { set (q := mg_next_promise g). set (m := set_promises (Some q) None (new_member id r (mg_next_object g))).
    assert (Hadd : forall g', added m g0 g' -> core g').
    { intros g' Ha. by apply (add_core m g0 g' p). }
    destruct (jg_group_instance_id r) as [i|] eqn:Ei; [rewrite (Hi i eq_refl)|]; cbn; rewrite Hn; cbn; apply ok_ret; exists q;
      (split_and!; [done| |done|done|done|cbn; by rewrite insert_insert_eq]); apply Hadd; constructor; cbn; rewrite ?Ei; try done;
      by rewrite insert_insert_eq. }
  intros [q g2] (_ & <- & Hc2 & Hst2 & Ht2 & Hgen2 & Hm2). cbn [fst snd] in *. unfold get_member. cbn. rewrite Hm2, lookup_insert_eq. cbn.
  set (g3 := put_member _ _).
  assert (Hs3 : soft (mg_set_pending (mg_pending_members g2 ∖ {[id]}) g2) g3).
  { soft_by. rewrite Hm2, insert_insert_eq, !fmap_insert. done. }
  assert (Hc3 : core g3).
  { apply (soft_core _ _ Hs3 Hc2). assert (H1 := co_joining _ Hc2). cbn in H1 |- *. rewrite H1, Hm2, insert_insert_eq, !msum_insert by done.
    done. }
  eapply ok_bind; [apply (prepare_after g g3); try done|].
  - intros k x. cbn. rewrite Hm2, insert_insert_eq. intros [[<- <-]|[Hk Hx]]%lookup_insert_Some; [done|]. by apply (so_syncing _ Hs k).
  - intros g' Hl. by apply ok_ret.
Qed.

(** Members updated by a request keep who they are. *)
Lemma update_no_join_ok id m ps client host session rebalance g :
  core g -> mg_members g !! id = Some m -> NoDup ps.*1 ->
  ok (update_member_no_join id ps client host session rebalance g) (fun g' =>
    updated id m (set_client ps client host session rebalance m) g g' /\
    exists sp, g' = mg_set_members sp (<[id := set_client ps client host session rebalance m]> (mg_members g)) g).
Proof.
  intros Hc Hm Hnd. unfold update_member_no_join, get_member. rewrite Hm. cbn [mbind res_bind].
  eapply ok_bind; [by apply (uncount_member id)|]. intros sp Hsp. apply ok_ret. split; [|by eexists].
  constructor; cbn; try done.
  - intros q. rewrite count_support, Hsp by done. unfold lists at 2. cbn. done.
  - change (joins (set_client ps client host session rebalance m)) with (joins m). lia.
Qed.

Definition client_of (r : join_group_request) (m : group_member) : group_member :=
  set_client (jg_protocols r) (jg_client_id r) (jg_client_host r) (jg_session_timeout_ms r) (jg_rebalance_timeout_ms r) m.

Lemma update_member_ok id m r g p :
  core g -> mg_members g !! id = Some m -> NoDup (jg_protocols r).*1 ->
  (forall k x, k <> id -> mg_members g !! k = Some x -> p ∈ names x) -> p ∈ (jg_protocols r).*1 ->
  ok (update_member id r g) (fun x => exists j m',
    core x.2 /\ m' = set_promises j (m_sync_promise m) (client_of r m) /\ j <> None /\
    x.1 = (if is_joining m then None else j) /\
    updated id m m' g x.2 /\ mg_state x.2 = mg_state g /\ mg_join_timer x.2 = mg_join_timer g /\ mg_protocol x.2 = mg_protocol g).
Proof.
  intros Hc Hm Hnd Hp Hpr. unfold update_member. eapply ok_bind; [by apply (update_no_join_ok id m)|].
  intros g1 (Hu & sp & Hg1). destruct (co_ids _ Hc _ _ Hm) as [Hid _].
  assert (Hm1 : mg_members g1 !! id = Some (client_of r m)) by (rewrite Hg1; cbn; by rewrite lookup_insert_eq).
  unfold get_member. rewrite Hm1. cbn [mbind res_bind].
  change (is_joining (client_of r m)) with (is_joining m). fold (client_of r m) in *.
  destruct (is_joining m) eqn:Ej.
  - apply ok_ret. exists (m_join_promise m), (client_of r m). cbn [fst snd].
    split_and!; [|by destruct m|unfold is_joining in Ej; by destruct (m_join_promise m)|done|done|by rewrite Hg1|by rewrite Hg1|by rewrite Hg1].
    by apply (update_core id m (client_of r m) g g1 p).
  - cbn. apply ok_ret. set (j := Some (mg_next_promise g1)).
    exists j, (set_promises j (m_sync_promise m) (client_of r m)). cbn [fst snd].
    assert (Hu' : updated id m (set_promises j (m_sync_promise m) (client_of r m)) g
      (put_member (set_promises j (m_sync_promise m) (client_of r m))
         (mg_set_counts (mg_num_members_joining g1 + 1) (mg_next_object g1) (S (mg_next_promise g1)) (mg_answers g1) (mg_stores g1) g1))).
    { destruct Hu. constructor; cbn; try done.
      - rewrite Hid, up_members0. by rewrite insert_insert_eq.
      - rewrite up_joining0. change (joins (set_promises j _ _)) with 1.
        change (joins (client_of r m)) with (joins m). unfold joins. rewrite Ej. lia. }
    split_and!; [|done|done|done|done|by rewrite Hg1|by rewrite Hg1|by rewrite Hg1].
    by apply (update_core id m (set_promises j (m_sync_promise m) (client_of r m)) g _ p).
Qed.

Lemma update_rebalance_ok id m r g p :
  sound g -> mg_state g <> dead -> mg_generation g < 2147483647 -> mg_members g !! id = Some m ->
  NoDup (jg_protocols r).*1 -> p ∈ (jg_protocols r).*1 -> common_protocol p g ->
  ok (update_member_and_rebalance c now id r g) (fun x => later 1 g x.2).
Proof.
  intros Hs Hd Hg Hm Hnd Hp Hcom. unfold update_member_and_rebalance.
  eapply ok_bind; [apply (update_member_ok id m r g p); try done; [apply Hs|intros k x _; apply Hcom]|].
  intros [q g1] (j & m' & Hc1 & Hm' & _ & _ & Hu & Hst & Ht & _). cbn [fst snd] in *.
  eapply ok_bind; [apply (prepare_after g g1); try done|].
  - apply Hu.
  - intros k x. rewrite (up_members _ _ _ _ _ Hu). intros [[<- <-]|[Hk Hx]]%lookup_insert_Some; [|by apply (so_syncing _ Hs k)].
    subst m'. by apply (so_syncing _ Hs id m).
  - intros g' Hl. by apply ok_ret.
Qed.

(** ** Static members that come back *)

(** Who owns which id carries over to a group with the same stores. *)
Lemma own_transfer own g g' :
  owns own g -> Forall (fun s => store_ok own g s.1) (mg_stores g) ->
  mg_stores g' = mg_stores g -> mg_generation g' = mg_generation g -> mg_pending_members g' = mg_pending_members g ->
  (forall k x', mg_members g' !! k = Some x' -> exists x, mg_members g !! k = Some x /\ m_object x' = m_object x /\
     m_group_instance_id x' = m_group_instance_id x) ->
  owns own g' /\ Forall (fun s => store_ok own g' s.1) (mg_stores g').
Proof.
  intros Ho Hs Hst Hgen Hpend Hms. split.
  - intros k x' Hk. destruct (Hms _ _ Hk) as (x & Hx & -> & ->). by apply Ho.
  - rewrite Hst. eapply Forall_impl; [exact Hs|]. intros [s md]. destruct s; cbn; rewrite ?Hgen, ?Hpend; [done|done|].
    intros (? & ? & ? & ? & ? & ? & ? & ? & Hold). split_and!; try done.
    destruct (mg_members g' !! old_id) as [x'|] eqn:E; [|done]. destruct (Hms _ _ E) as (x & Hx & _). congruence.
Qed.

Lemma core_static_store own s md g :
  core g -> owns own g -> Forall (fun s => store_ok own g s.1) (mg_stores g) -> store_ok own g s ->
  (forall id, id ∈ reverts_to s -> forall s', s' ∈ mg_stores g -> id ∉ reverts_to s'.1) -> NoDup (reverts_to s) ->
  core (store_group s md g).
Proof.
  intros [] Ho Hst Hs Hr Hnd. constructor; try assumption.
  - exists own. split; [done|]. cbn. apply Forall_app. split; [exact Hst|]. by constructor.
  - cbn. rewrite map_app, concat_app. cbn. rewrite app_nil_r. apply NoDup_app. split_and!; [done| |done].
    intros id Hin Hid. apply list_elem_of_In, in_concat in Hin as (l & Hl & Hin).
    apply in_map_iff in Hl as (s' & <- & Hs'). apply (Hr id Hid s'); by apply list_elem_of_In.
Qed.

(** The member, its new id and its request: what the group is then. *)
Record rejoined (instance old_id new_id : string) (m : group_member) (r : join_group_request) (g g' : membership) : Prop := {
  rj_core : core g';
  rj_member : exists j, mg_members g' = <[new_id := set_promises (Some j) None (client_of r (restart_timer now (moved new_id m)))]>
    (delete old_id (mg_members g));
  rj_state : mg_state g' = mg_state g;
  rj_timer : mg_join_timer g' = mg_join_timer g;
  rj_protocol : mg_protocol g' = mg_protocol g;
  rj_generation : mg_generation g' = mg_generation g;
  rj_pending : mg_pending_members g' = mg_pending_members g;
  rj_stores : mg_stores g' = mg_stores g;
  rj_own : exists own, owns own g' /\ Forall (fun s => store_ok own g' s.1) (mg_stores g') /\
    own new_id = (m_object m, Some instance) /\ own old_id = (m_object m, Some instance);
}.

Lemma rejoin_ok instance old_id new_id m r g p :
  core g -> mg_members g !! old_id = Some m -> m_group_instance_id m = Some instance -> fresh_for new_id g ->
  NoDup (jg_protocols r).*1 -> p ∈ (jg_protocols r).*1 -> common_protocol p g ->
  ok (replace_static_member instance old_id new_id g) (fun g1 =>
    let g2 := schedule_next_heartbeat_expiration now new_id g1 in
    mg_members g2 !! new_id = Some (restart_timer now (moved new_id m)) /\
    ok (update_member new_id r g2) (fun x => rejoined instance old_id new_id m r g x.2)).
Proof.
  intros Hc Hm Hi Hf Hnd Hp Hcom. destruct (Hf) as (Hn & Hne & Hpend & Hst).
  eapply ok_mono; [by apply (replace_ok instance old_id new_id m g)|]. intros g1 Hr. cbn zeta.
  destruct (co_own _ Hc) as (own0 & Ho0 & Hs0).
  destruct (fresh_own _ (m_object m, Some instance) own0 g Hf Ho0 Hs0) as [Ho Hs].
  set (own := fun k => if bool_decide (k = new_id) then (m_object m, Some instance) else own0 k) in *.
  assert (Hown : own new_id = (m_object m, Some instance)) by (unfold own; by rewrite bool_decide_eq_true_2).
  assert (Hrev : forall s, s ∈ mg_stores g -> new_id ∉ reverts_to s.1).
  { intros s Hin. specialize (Hst s Hin). destruct s as [[] ?]; set_solver. }
  destruct (replace_core instance old_id new_id m g g1 own) as [Hc1 [Ho1 Hs1]]; try done.
  destruct (schedule_soft now new_id g1 Hc1) as [Hs2 Hc2]. set (g2 := schedule_next_heartbeat_expiration now new_id g1) in *.
  assert (Hm1 : mg_members g1 !! new_id = Some (moved new_id m)) by (rewrite (rp_members _ _ _ _ _ _ Hr); by rewrite lookup_insert_eq).
  assert (Hms2 : mg_members g2 = <[new_id := restart_timer now (moved new_id m)]> (delete old_id (mg_members g))).
  { unfold g2. rewrite schedule_members by done.
    by rewrite <- (put_alter (restart_timer now) _ _ _ Hm1), (rp_members _ _ _ _ _ _ Hr), insert_insert_eq. }
  assert (Hm2 : mg_members g2 !! new_id = Some (restart_timer now (moved new_id m))) by (by rewrite Hms2, lookup_insert_eq).
  split; [done|]. eapply ok_mono; [apply (update_member_ok new_id (restart_timer now (moved new_id m)) r g2 p); try done|].
  { intros k x Hk. rewrite Hms2, lookup_insert_ne by done. intros [_ Hx]%lookup_delete_Some. by apply (Hcom k). }
  intros [q g3] (j & m' & Hc3 & Hm' & Hj & _ & Hu & Hst3 & Ht3 & Hp3). cbn [fst snd] in *.
  destruct (own_transfer own g1 g2 Ho1 Hs1 (sf_stores _ _ Hs2) (sf_generation _ _ Hs2) (sf_pending _ _ Hs2)) as [Ho2 Hst2].
  { intros k x' Hx'. destruct (soft_lookup _ _ _ _ Hs2 Hx') as (x & Hx & He). exists x.
    by rewrite (shape_object _ _ He), (shape_instance _ _ He). }
  destruct (own_transfer own g2 g3 Ho2 Hst2 (up_stores _ _ _ _ _ Hu) (up_generation _ _ _ _ _ Hu) (up_pending _ _ _ _ _ Hu)) as [Ho3 Hs3].
  { intros k x'. rewrite (up_members _ _ _ _ _ Hu). intros [[<- <-]|[Hk Hx]]%lookup_insert_Some; [|by exists x'].
    eexists. split; [exact Hm2|]. by subst m'. }
  destruct j as [j|]; [|done].
  constructor; [done|exists j| | | | | | |exists own; split_and!; [done|done|done|]].
  - rewrite (up_members _ _ _ _ _ Hu), Hms2, insert_insert_eq. by subst m'.
  - rewrite Hst3, (sf_state _ _ Hs2). apply Hr.
  - rewrite Ht3, (sf_timer _ _ Hs2). apply Hr.
  - rewrite Hp3, (sf_protocol _ _ Hs2). apply Hr.
  - rewrite (up_generation _ _ _ _ _ Hu), (sf_generation _ _ Hs2). apply Hr.
  - rewrite (up_pending _ _ _ _ _ Hu), (sf_pending _ _ Hs2). apply Hr.
  - rewrite (up_stores _ _ _ _ _ Hu), (sf_stores _ _ Hs2). apply Hr.
  - rewrite <- Hi. by apply Ho.
Qed.

Lemma get_member_some id g m : mg_members g !! id = Some m -> get_member id g = Ok m.
Proof. unfold get_member. by intros ->. Qed.

Lemma rejoined_syncing instance old_id new_id m r g g' k x :
  sound g -> rejoined instance old_id new_id m r g g' -> mg_members g' !! k = Some x -> is_syncing x = true ->
  mg_state g = completing_rebalance.
Proof.
  intros Hs Hj. destruct (rj_member _ _ _ _ _ _ _ Hj) as [j ->].
  intros [[<- <-]|[_ [_ Hx]%lookup_delete_Some]]%lookup_insert_Some; [done|]. by apply (so_syncing _ Hs k).
Qed.

(** A stable group that keeps its protocol writes the new id and stays as it is. *)
Lemma rejoin_stable_ok instance old_id new_id m r md g g' p :
  sound g -> mg_state g = stable -> mg_members g !! old_id = Some m -> fresh_for new_id g -> NoDup (jg_protocols r).*1 ->
  rejoined instance old_id new_id m r g g' -> mg_protocol g' = Some p -> common_protocol p g' -> forall cl ho se re,
  sound (store_group (StoreStatic (m_object m) instance new_id old_id (jg_protocols r) cl ho se re) md g').
Proof.
  intros Hs Hst Hm Hf Hnd Hj Hp Hcom cl ho se re. destruct Hf as (Hn & Hne & Hpend & Hsts).
  destruct (rj_own _ _ _ _ _ _ _ Hj) as (own & Ho & Hos & Hon & Hoo). destruct (rj_member _ _ _ _ _ _ _ Hj) as [j Hms].
  assert (Hne2 : new_id <> old_id) by congruence.
  assert (Hold : mg_members g' !! old_id = None) by (rewrite Hms, lookup_insert_ne by done; apply lookup_delete_eq).
  constructor; cbn -[store_group].
  - apply (core_static_store own); [apply Hj|done|done| | |apply NoDup_singleton].
    + cbn. rewrite (rj_pending _ _ _ _ _ _ _ Hj). destruct (co_ids _ (so_core _ Hs) _ _ Hm).
      split_and!; try done. intros Hin. destruct (co_pending _ (so_core _ Hs) _ Hin). congruence.
    + intros id ->%list_elem_of_singleton s' Hin. rewrite (rj_stores _ _ _ _ _ _ _ Hj) in Hin.
      destruct (co_own _ (so_core _ Hs)) as (own' & _ & Hst'). rewrite Forall_forall in Hst'. specialize (Hst' _ Hin).
      destruct s' as [[] ?]; cbn in *; [set_solver|set_solver|]. intros ->%list_elem_of_singleton. naive_solver.
  - cbn. rewrite (rj_state _ _ _ _ _ _ _ Hj), Hst. by intros [].
  - intros _. cbn. split; [rewrite Hms; apply insert_non_empty|]. exists p. done.
  - cbn. rewrite (rj_timer _ _ _ _ _ _ _ Hj), (rj_state _ _ _ _ _ _ _ Hj). apply (so_timer _ Hs).
  - cbn. intros k x Hk Hy. assert (H1 := rejoined_syncing _ _ _ _ _ _ _ _ _ Hs Hj Hk Hy). congruence.
  - cbn. rewrite (rj_state _ _ _ _ _ _ _ Hj), Hst. done.
  - cbn. rewrite (rj_state _ _ _ _ _ _ _ Hj), Hst. done.
Qed.

Lemma static_rejoin_ok instance old_id new_id m r g p :
  sound g -> mg_generation g < 2147483647 -> mg_members g !! old_id = Some m -> m_group_instance_id m = Some instance ->
  fresh_for new_id g -> NoDup (jg_protocols r).*1 -> p ∈ (jg_protocols r).*1 -> common_protocol p g ->
  ok (update_static_member_and_rebalance c now instance old_id new_id r g) (fun x => later 1 g x.2).
Proof.
  intros Hs Hg Hm Hi Hf Hnd Hp Hcom. unfold update_static_member_and_rebalance.
  eapply ok_bind; [by apply (rejoin_ok instance old_id new_id m r g p (so_core _ Hs))|]. cbn zeta. intros g1 [Hm2 Hu].
  cbn zeta. rewrite (get_member_some _ _ _ Hm2). cbn [mbind res_bind].
  eapply ok_bind; [exact Hu|]. intros [q g3] Hj. cbn [fst snd] in *.
  destruct (rj_member _ _ _ _ _ _ _ Hj) as [j Hms].
  assert (Hm3 := lookup_insert_eq (delete old_id (mg_members g)) new_id
    (set_promises (Some j) None (client_of r (restart_timer now (moved new_id m))))).
  rewrite <- Hms in Hm3. rewrite (get_member_some _ _ _ Hm3). cbn [mbind res_bind].
  assert (Hne : mg_members g3 <> ∅) by (rewrite Hms; apply insert_non_empty).
  assert (Hst : mg_state g <> empty /\ mg_state g <> dead).
  { split; intros E; assert (He := so_empty _ Hs); rewrite E in He; rewrite He in Hm by auto; done. }
  assert (Hprep : ok (try_prepare_rebalance c now g3) (later 1 g)).
  { apply (prepare_after g g3); try apply Hj; try done; [apply Hst|]. intros k x. by eapply rejoined_syncing. }
  assert (Hstate := rj_state _ _ _ _ _ _ _ Hj).
  destruct (mg_state g3) eqn:Es; [by destruct Hst| | | |by destruct Hst].
  - rewrite prepare_nothing in Hprep by auto. destruct Hprep as (? & [= <-] & Hl). by apply ok_ret.
  - eapply ok_bind; [exact Hprep|]. intros g4 Hl. by apply ok_ret.
  - eapply ok_bind; [by apply select_ok; [apply Hj|]|]. intros next (Hcn & _). case_bool_decide as Hpn.
    + eapply ok_bind; [apply checkpoint_ok|].
      * intros k x Hx. rewrite lookup_fmap, Hx. by eexists.
      * right. by exists next.
      * intros md _. apply ok_ret, later_same; [|done|apply Hj].
        by apply (rejoin_stable_ok instance old_id new_id m r md g g3 next).
    + eapply ok_bind; [exact Hprep|]. intros g4 Hl. by apply ok_ret.
Qed.

(** ** The join handler *)

Definition join_ok (new_id : string) (r : join_group_request) (g : membership) : Prop :=
  fresh_for new_id g /\ NoDup (jg_protocols r).*1 /\
  (contains_pending_member (jg_member_id r) g = true ->
   forall i, jg_group_instance_id r = Some i -> mg_static_members g !! i = None).

Lemma later_refl n g : sound g -> 0 <= n -> later n g g.
Proof. intros. by apply later_same. Qed.

Lemma pending_fresh id g : core g -> id ∈ mg_pending_members g -> fresh_for id (mg_set_pending (mg_pending_members g ∖ {[id]}) g).
Proof.
  intros Hc Hin. destruct (co_pending _ Hc _ Hin) as [Hn Hne]. split_and!; [done|done|set_solver|].
  intros s Hs. destruct (co_own _ Hc) as (own & _ & Hst). rewrite Forall_forall in Hst. specialize (Hst s Hs).
  destruct s as [[] ?]; cbn in *; [set_solver|set_solver|]. destruct Hst as (_ & _ & _ & _ & _ & _ & Hn1 & Hn2 & _). set_solver.
Qed.

Lemma fresh_pending id g : fresh_for id g -> fresh_for id (mg_set_pending (mg_pending_members g ∖ {[id]}) g).
Proof. intros (? & ? & ? & ?). split_and!; [done|done|set_solver|done]. Qed.

Lemma sound_add_pending id g : sound g -> fresh_for id g -> sound (add_pending_member id g).
Proof.
  intros Hs (Hn & Hne & Hp & Hst). assert (Hc := so_core _ Hs). constructor; try apply Hs.
  constructor; try apply Hc; cbn.
  - intros k [->%elem_of_singleton|Hk]%elem_of_union; [done|by apply (co_pending _ Hc)].
  - destruct (co_own _ Hc) as (own & Ho & Hs0). exists own. split; [done|]. rewrite Forall_forall in Hs0 |- *. intros s Hin.
    specialize (Hs0 s Hin). specialize (Hst s Hin). destruct s as [[] ?]; cbn in *; [done|done|]. set_solver.
Qed.

Lemma join_unknown_ok new_id r g :
  sound g -> mg_generation g < 2147483647 -> fresh_for new_id g -> NoDup (jg_protocols r).*1 ->
  ok (join_group_unknown_member c now new_id r g) (fun x => later 1 g x.2).
Proof.
  intros Hs Hg Hf Hnd. unfold join_group_unknown_member, in_mg_state.
  case_bool_decide; [by apply ok_ret, later_refl|]. destruct (supports_protocols r g) eqn:Esup; [|by apply ok_ret, later_refl].
  destruct (supports_ok r g Hs Esup) as (p & Hp & Hcom). cbn [negb].
  destruct (jg_group_instance_id r) as [i|] eqn:Ei.
  - unfold add_new_static_member. destruct (mg_static_members g !! i) as [old_id|] eqn:Eo.
    + apply (co_static _ (so_core _ Hs)) in Eo as (m & Hm & Hi). by apply (static_rejoin_ok i old_id new_id m r g p).
    + apply (add_rebalance_ok new_id r g p); try done; [by apply fresh_pending|]. intros j. rewrite Ei. by intros [= <-].
  - unfold add_new_dynamic_member. case_match; [apply ok_ret, later_same; [by apply sound_add_pending|done|done]|].
    apply (add_rebalance_ok new_id r g p); try done; [by apply fresh_pending|]. intros j. by rewrite Ei.
Qed.

Lemma validate_ok id instance g : core g -> validate_member id instance g = error_code.none -> is_Some (mg_members g !! id).
Proof.
  intros Hc. unfold validate_member. destruct instance as [i|].
  - destruct (mg_static_members g !! i) as [k|] eqn:E; [|done]. case_bool_decide; [|done]. subst k. intros _.
    apply (co_static _ Hc) in E as (m & ? & _). eauto.
  - case_bool_decide as Hd; [|done]. intros _. by apply elem_of_dom.
Qed.

Lemma join_known_ok r g :
  sound g -> mg_generation g < 2147483647 -> NoDup (jg_protocols r).*1 ->
  (contains_pending_member (jg_member_id r) g = true -> forall i, jg_group_instance_id r = Some i -> mg_static_members g !! i = None) ->
  ok (join_group_known_member c now r g) (fun x => later 1 g x.2).
Proof.
  intros Hs Hg Hnd Hpend. unfold join_group_known_member. unfold in_mg_state at 1.
  case_bool_decide; [by apply ok_ret, later_refl|]. destruct (supports_protocols r g) eqn:Esup; [|by apply ok_ret, later_refl].
  destruct (supports_ok r g Hs Esup) as (p & Hp & Hcom). cbn [negb].
  destruct (contains_pending_member (jg_member_id r) g) eqn:Epend.
  { apply (add_rebalance_ok _ r g p); try done; [|by apply Hpend].
    apply pending_fresh; [apply Hs|by apply bool_decide_eq_true in Epend]. }
  case_bool_decide as Ev; cbn [negb]; [|by apply ok_ret, later_refl].
  destruct (validate_ok _ _ _ (so_core _ Hs) Ev) as [m Hm]. unfold get_member. rewrite Hm. cbn [mbind res_bind].
  assert (Hup : ok (update_member_and_rebalance c now (jg_member_id r) r g) (fun x => later 1 g x.2))
    by (by apply (update_rebalance_ok _ m r g p)).
  destruct (mg_state g) eqn:Es; [by apply ok_ret, later_refl|done| | |by apply ok_ret, later_refl].
  - case_bool_decide; [|done]. apply (ok_bind _ _ (fun _ => True)).
    + case_match; [|by apply ok_ret]. destruct (so_protocol _ Hs) as [_ (q & Hq & Hqc)]; [by left|].
      eapply ok_mono; [by apply (member_metadata_ids q)|done].
    + intros md _. by apply ok_ret, later_refl.
  - case_match; [done|]. by apply ok_ret, later_refl.
Qed.

Lemma handle_join_ok new_id is_new r g :
  sound g -> mg_generation g + 1 < 2147483647 -> join_ok new_id r g ->
  ok (handle_join_group c now new_id is_new r g) (fun x => later 2 g x.2).
Proof.
  intros Hs Hg (Hf & Hnd & Hpend). unfold handle_join_group.
  apply (ok_bind _ _ (fun x => later 1 g x.2)).
  { case_bool_decide; [apply join_unknown_ok|apply join_known_ok]; try done; lia. }
  intros [out g1] [Hs1 Hg1]. cbn [fst snd] in *. case_match eqn:E.
  - apply andb_true_iff in E as [_ E]. apply bool_decide_eq_true in E.
    eapply ok_bind; [apply complete_if_joined_ok; [done|done|lia]|]. intros g2 [? ? _]. apply ok_ret. split; [done|cbn; lia].
  - apply ok_ret. split; [done|cbn; lia].
Qed.

(** ** Changes of promises and timers only *)

Lemma soft_sound g g' :
  sound g -> soft g g' -> core g' ->
  (forall id m, mg_members g' !! id = Some m -> is_syncing m = true -> mg_state g = completing_rebalance) ->
  (mg_state g = completing_rebalance -> mg_num_members_joining g' = 0) -> sound g'.
Proof.
  intros Hs Hsf Hc Hsy Hj. constructor; rewrite ?(sf_state _ _ Hsf); [done| | | |done|done|].
  - rewrite (soft_empty _ _ Hsf). apply Hs.
  - intros Hst. destruct (so_protocol _ Hs Hst) as (Hne & p & Hp & Hcom). rewrite (soft_empty _ _ Hsf), (sf_protocol _ _ Hsf).
    split; [done|]. exists p. split; [done|by eapply soft_common].
  - rewrite (sf_timer _ _ Hsf). apply Hs.
  - intros Hst. rewrite (sf_stores _ _ Hsf). eapply Forall_impl; [by apply (so_stores _ Hs)|]. intros s. by apply soft_covers.
Qed.

(** The same when one member changes without a new promise. *)
Lemma alter_sound (f : group_member -> group_member) id g g' :
  sound g -> soft g g' -> core g' -> mg_members g' = alter f id (mg_members g) ->
  (forall m, is_syncing (f m) = true -> is_syncing m = true) -> (forall m, is_joining (f m) = true -> is_joining m = true) ->
  sound g'.
Proof.
  intros Hs Hsf Hc Hms Hsy Hj. apply (soft_sound g); try done.
  - intros k x. rewrite Hms. intros Hx Hy. destruct (decide (k = id)) as [->|Hne].
    + rewrite lookup_alter_eq in Hx. apply fmap_Some in Hx as (m & Hm & ->). by apply (so_syncing _ Hs id m); auto.
    + rewrite lookup_alter_ne in Hx by done. by apply (so_syncing _ Hs k x).
  - intros Hst. apply joining_member; [by apply co_joining|]. assert (Hz := so_joined _ Hs Hst).
    rewrite (joining_member g) in Hz by (apply co_joining, Hs). intros k x. rewrite Hms. intros Hx.
    destruct (decide (k = id)) as [->|Hne].
    + rewrite lookup_alter_eq in Hx. apply fmap_Some in Hx as (m & Hm & ->). specialize (Hz _ _ Hm).
      destruct (is_joining (f m)) eqn:E; [|done]. by rewrite (Hj _ E) in Hz.
    + rewrite lookup_alter_ne in Hx by done. eauto.
Qed.

Lemma schedule_sound id g : sound g -> sound (schedule_next_heartbeat_expiration now id g).
Proof.
  intros Hs. destruct (schedule_soft now id g (so_core _ Hs)) as [Hsf Hc].
  by apply (alter_sound (restart_timer now) id g); [|done| |apply schedule_members, Hs| |].
Qed.

Lemma schedule_later n id g : sound g -> 0 <= n -> later n g (schedule_next_heartbeat_expiration now id g).
Proof.
  intros Hs Hn. apply later_same; [by apply schedule_sound|done|]. apply (schedule_soft now id g (so_core _ Hs)).
Qed.

Lemma finish_sound id r g : sound g -> ok (try_finish_joining_member id r g) (later 0 g).
Proof.
  intros Hs. eapply ok_mono; [apply try_finish_ok, Hs|]. intros g' (Hsf & Hc & Hms & _).
  apply later_same; [|done|apply Hsf]. by apply (alter_sound end_join id g).
Qed.

(** ** Timers *)

Lemma heartbeat_expire_ok id deadline g :
  sound g -> mg_generation g < 2147483647 -> ok (heartbeat_expire c now id deadline g) (later 1 g).
Proof.
  intros Hs Hg. unfold heartbeat_expire. case_match; [by apply ok_ret, later_refl|]. case_match.
  { eapply ok_mono; [by apply remove_pending_ok|]. intros g'. apply reaches_later. }
  destruct (mg_members g !! id) as [m|] eqn:E; [|by apply ok_ret, later_refl].
  case_match; [by apply ok_ret, later_refl|].
  eapply ok_mono; [by apply remove_member_ok|]. intros g' [Hr _]. by apply reaches_later.
Qed.

Lemma member_timer_ok id g : sound g -> mg_generation g < 2147483647 -> ok (member_timer_fired c now id g) (later 1 g).
Proof.
  intros Hs Hg. unfold member_timer_fired. destruct (mg_members g !! id) as [m|] eqn:E; [|by apply ok_ret, later_refl].
  destruct (m_expire_timer m) as [d|]; [|by apply ok_ret, later_refl].
  destruct (co_ids _ (so_core _ Hs) _ _ E) as [Hid _].
  set (f := fun m => set_timer (m_is_new m) (m_latest_heartbeat m) None m). fold (f m).
  assert (Hms : mg_members (put_member (f m) g) = alter f id (mg_members g)).
  { cbn. rewrite Hid. by rewrite (put_alter f id m). }
  assert (Hsf : soft g (put_member (f m) g)) by (soft_by; cbn in Hms; rewrite Hms; by apply alter_shape).
  assert (Hc : core (put_member (f m) g)).
  { apply (soft_core _ _ Hsf); [apply Hs|]. rewrite Hms, alter_joins, E. cbn. rewrite (co_joining _ (so_core _ Hs)).
    change (joins (f m)) with (joins m). lia. }
  eapply ok_mono; [apply heartbeat_expire_ok; [by apply (alter_sound f id g)|done]|]. done.
Qed.

Lemma pending_timer_ok id g : sound g -> mg_generation g < 2147483647 -> ok (pending_timer_fired now id g) (later 1 g).
Proof.
  intros Hs Hg. unfold pending_timer_fired. case_match; [|by apply ok_ret, later_refl].
  eapply ok_mono; [by apply remove_pending_ok|]. intros g'. apply reaches_later.
Qed.

Lemma remove_members_ok fuel g :
  sound g -> (size (mg_members g) <= fuel)%nat -> mg_generation g + Z.of_nat fuel < 2147483647 ->
  ok (remove_members fuel c now g) (fun g' => later (Z.of_nat fuel) g g' /\ mg_members g' = ∅).
Proof.
  revert g. induction fuel as [|fuel IH]; intros g Hs Hsz Hg.
  - assert (He : mg_members g = ∅) by (apply map_size_empty_inv; lia). cbn. unfold next_leader.
    rewrite (proj2 (iter_nil _) He). apply ok_ret. split; [by apply later_refl|done].
  - cbn. unfold next_leader. destruct (iter_members (mg_members g)) as [|[id m] l] eqn:El.
    { apply ok_ret. split; [apply later_refl; [done|lia]|by apply iter_nil]. }
    assert (Hm : mg_members g !! id = Some m) by (apply iter_elem; rewrite El; set_solver). cbn.
    eapply ok_bind; [apply remove_member_ok; [done|lia|by eexists]|]. intros g1 [[Hs1 Hg1 Hd1] Hid].
    assert (Hlt : (size (mg_members g1) < size (mg_members g))%nat).
    { rewrite <- !size_dom. apply subset_size. split; [done|]. intros Hsub. apply Hid, Hsub, elem_of_dom. by eexists. }
    eapply ok_mono; [apply IH; [done|lia|lia]|]. intros g2 [[? ?] ?]. split; [split; [done|lia]|done].
Qed.

(** ** Syncs, heartbeats and departures *)

Lemma heartbeat_ok r g : sound g -> ok (handle_heartbeat now r g) (fun x => later 0 g x.2).
Proof.
  intros Hs. unfold handle_heartbeat. unfold in_mg_state at 1. case_bool_decide as Hd; [by apply ok_ret, later_refl|].
  case_bool_decide as Ev; cbn [negb]; [|by apply ok_ret, later_refl].
  destruct (validate_ok _ _ _ (so_core _ Hs) Ev) as [m Hm]. rewrite !(get_member_some _ _ _ Hm). cbn [mbind res_bind].
  case_match; [by apply ok_ret, later_refl|].
  destruct (mg_state g); try done; apply ok_ret; first [by apply later_refl | by apply schedule_later].
Qed.

Lemma missing_covers l g id m : mg_members g !! id = Some m -> is_Some (add_missing_assignments l g !! id).
Proof.
  intros Hm. unfold add_missing_assignments. apply lookup_union_is_Some. right. rewrite lookup_fmap, Hm. by eexists.
Qed.

Lemma sync_completing_ok r m g :
  sound g -> mg_state g = completing_rebalance -> mg_members g !! sg_member_id r = Some m ->
  ok (sync_group_completing_rebalance r g) (fun x => later 0 g x.2).
Proof.
  intros Hs Hst Hm. unfold sync_group_completing_rebalance. rewrite (get_member_some _ _ _ Hm).
  cbn [mbind res_bind get_sync_response].
  destruct (co_ids _ (so_core _ Hs) _ _ Hm) as [Hid _].
  set (f := fun m => set_promises (m_join_promise m) (Some (mg_next_promise g)) m). fold (f m). set (g1 := put_member _ _).
  assert (Hms : mg_members g1 = alter f (sg_member_id r) (mg_members g)).
  { cbn. rewrite Hid. by rewrite (put_alter f _ m). }
  assert (Hsf : soft g g1) by (soft_by; cbn in Hms; rewrite Hms; by apply alter_shape).
  assert (Hc : core g1).
  { apply (soft_core _ _ Hsf); [apply Hs|]. rewrite Hms, alter_joins, Hm. cbn. rewrite (co_joining _ (so_core _ Hs)).
    change (joins (f m)) with (joins m). lia. }
  assert (Hs1 : sound g1) by (apply (soft_sound g); try done; intros _; exact (so_joined _ Hs Hst)).
  case_match; [by apply ok_ret, later_same|].
  destruct (so_protocol _ Hs1) as (Hne & p & Hp & Hcom); [left; exact Hst|].
  eapply ok_bind; [apply checkpoint_ok; [intros k x; apply missing_covers|right; by exists p]|].
  intros md _. apply ok_ret, later_same; [|done|done].
  assert (Hcs : core (store_group (StoreSync (mg_generation g1) (add_missing_assignments (member_assignments (sg_assignments r)) g1)) md g1))
    by (apply core_store; [done|done|intros own; cbn; lia]).
  constructor; try apply Hs1; [done|]. intros _. cbn [mg_stores store_group mg_set_counts]. apply Forall_app. split.
  - eapply Forall_impl; [apply (so_stores _ Hs1); exact Hst|]. done.
  - constructor; [|done]. intros _ k x Hx. by apply (missing_covers _ g1 k x).
Qed.

Lemma sync_ok r g : sound g -> ok (handle_sync_group now r g) (fun x => later 0 g x.2).
Proof.
  intros Hs. unfold handle_sync_group. unfold in_mg_state at 1. case_bool_decide as Hd; [by apply ok_ret, later_refl|].
  case_bool_decide as Ev; cbn [negb]; [|by apply ok_ret, later_refl].
  destruct (validate_ok _ _ _ (so_core _ Hs) Ev) as [m Hm]. rewrite !(get_member_some _ _ _ Hm). cbn [mbind res_bind].
  case_match; [by apply ok_ret, later_refl|].
  destruct (mg_state g) eqn:Es; try done; try (by apply ok_ret, later_refl).
  - by apply (sync_completing_ok r m).
  - apply ok_ret. by apply schedule_later.
Qed.

Lemma leave_known_ok id instance g :
  sound g -> mg_generation g < 2147483647 -> ok (leave_known c now id instance g) (fun x => later 1 g x.2).
Proof.
  intros Hs Hg. unfold leave_known. case_match.
  { eapply ok_bind; [by apply remove_pending_ok|]. intros g' Hr. apply ok_ret. by apply reaches_later. }
  case_bool_decide as Ev; cbn [negb]; [|by apply ok_ret, later_refl].
  destruct (validate_ok _ _ _ (so_core _ Hs) Ev) as [m Hm]. rewrite (get_member_some _ _ _ Hm). cbn [mbind res_bind].
  eapply ok_bind; [apply remove_member_ok; [done|done|by eexists]|]. intros g' [Hr _]. apply ok_ret. by apply reaches_later.
Qed.

Lemma member_leave_ok id instance g :
  sound g -> mg_generation g < 2147483647 -> ok (member_leave_group c now id instance g) (fun x => later 1 g x.2).
Proof.
  intros Hs Hg. unfold member_leave_group. case_bool_decide; [|by apply leave_known_ok].
  destruct instance as [i|]; cbn; [|by apply ok_ret, later_refl].
  destruct (mg_static_members g !! i) as [k|] eqn:E; [|by apply ok_ret, later_refl].
  apply (co_static _ (so_core _ Hs)) in E as (m & Hm & _). destruct (co_ids _ (so_core _ Hs) _ _ Hm) as [_ Hne].
  rewrite bool_decide_eq_false_2 by done. by apply leave_known_ok.
Qed.

Lemma later_trans n1 n2 g g1 g2 : later n1 g g1 -> later n2 g1 g2 -> later (n1 + n2) g g2.
Proof. intros [? ?] [? ?]. split; [done|lia]. Qed.

Lemma leave_members_ok l g :
  sound g -> mg_generation g + Z.of_nat (length l) < 2147483647 ->
  ok (leave_members c now l g) (fun x => later (Z.of_nat (length l)) g x.2).
Proof.
  intros Hs Hg. unfold leave_members.
  eapply ok_mono; [apply (ok_loop (fun m '(out, g) => '(ec, g) ← member_leave_group c now m.1 m.2 g; Ok (out ++ [(m, ec)], g))
    (fun l' x => later (Z.of_nat (length l) - Z.of_nat (length l')) g x.2 /\ (length l' <= length l)%nat))|].
  - cbn. split; [apply later_refl; [done|lia]|done].
  - intros x l' [out g'] [[Hs' Hg'] Hlen]. cbn [snd length] in *. eapply ok_bind; [apply member_leave_ok; [done|lia]|].
    intros [ec g''] [Hs'' Hg'']. cbn [snd] in *. apply ok_ret. cbn [snd]. split; [split; [done|lia]|lia].
  - cbn. intros x [Hl _]. by rewrite Z.sub_0_r in Hl.
Qed.

Lemma leave_ok r g :
  sound g -> mg_generation g + Z.of_nat (S (length (lg_members r))) < 2147483647 ->
  ok (handle_leave_group c now r g) (fun x => later (Z.of_nat (S (length (lg_members r)))) g x.2).
Proof.
  intros Hs Hg. unfold handle_leave_group. case_match; [apply ok_ret, later_refl; [done|lia]|]. case_match.
  - eapply ok_bind; [apply member_leave_ok; [done|lia]|]. intros [ec g'] [? ?]. apply ok_ret. cbn [snd] in *. split; [done|lia].
  - eapply ok_bind; [apply leave_members_ok; [done|lia]|]. intros [out g'] [? ?]. apply ok_ret. cbn [snd] in *. split; [done|lia].
Qed.

(** ** Results of writes *)

Definition unstored (i : nat) (g : membership) : membership :=
  mg_set_counts (mg_num_members_joining g) (mg_next_object g) (mg_next_promise g) (mg_answers g) (delete i (mg_stores g)) g.

(** The write is no longer in flight; what it knows stays true. *)
Lemma unstored_sound i g s md :
  sound g -> mg_stores g !! i = Some (s, md) ->
  sound (unstored i g) /\
  (exists own, owns own (unstored i g) /\ Forall (fun s => store_ok own (unstored i g) s.1) (mg_stores (unstored i g)) /\
     store_ok own (unstored i g) s) /\
  (forall id s', id ∈ reverts_to s -> s' ∈ mg_stores (unstored i g) -> id ∉ reverts_to s'.1) /\
  (mg_state g = completing_rebalance -> covers (unstored i g) s).
Proof.
  intros Hs Hi. assert (Hin := list_elem_of_lookup_2 _ _ _ Hi).
  assert (Hsub : forall P : group_store * group_metadata -> Prop, Forall P (mg_stores g) -> Forall P (delete i (mg_stores g)))
    by (intros P; apply Forall_delete).
  destruct (co_own _ (so_core _ Hs)) as (own & Ho & Hst).
  assert (Hrev := co_reverts _ (so_core _ Hs)).
  rewrite <- (take_drop_middle _ _ _ Hi) in Hrev. rewrite map_app, concat_app in Hrev. cbn in Hrev.
  apply NoDup_app in Hrev as (Hr1 & Hr12 & Hr2). apply NoDup_app in Hr2 as (_ & Hr23 & Hr3).
  split_and!.
  - constructor; try apply Hs.
    + constructor; try apply Hs; cbn.
      * exists own. split; [done|]. by apply Hsub.
      * rewrite delete_take_drop, map_app, concat_app. apply NoDup_app. split_and!; [done| |done]. intros id H1 H2.
        apply (Hr12 id H1). set_solver.
    + intros Hcs. by apply Hsub, (so_stores _ Hs).
  - exists own. split_and!; [done|by apply Hsub|]. rewrite Forall_forall in Hst. exact (Hst _ Hin).
  - intros id s' Hid Hs' Hid'. cbn in Hs'. rewrite delete_take_drop in Hs'.
    assert (Hc : forall l, s' ∈ l -> id ∈ concat (map (fun s => reverts_to s.1) l)).
    { intros l Hl. apply list_elem_of_In, in_concat. exists (reverts_to s'.1). split; [|by apply list_elem_of_In].
      apply in_map_iff. exists s'. split; [done|by apply list_elem_of_In]. }
    apply elem_of_app in Hs' as [Hs'|Hs'].
    + apply (Hr12 id (Hc _ Hs')). set_solver.
    + apply (Hr23 id Hid), (Hc _ Hs').
  - intros Hcs. assert (Hcov := so_stores _ Hs Hcs). rewrite Forall_forall in Hcov. exact (Hcov _ Hin).
Qed.

Lemma in_concat_Forall2 {A B} (R : A -> list B -> Prop) l ls x b :
  Forall2 R l ls -> x ∈ l -> (forall bs, R x bs -> b ∈ bs) -> b ∈ concat ls.
Proof.
  intros HF Hx Hb. induction HF as [|y bs l ls Hy HF IH]; [set_solver|]. cbn.
  apply elem_of_cons in Hx as [->|Hx]; set_solver.
Qed.

(** What the members have and are sent when assignments are written. *)
Definition assigned (a : gmap string (list Z)) (g g' : membership) : Prop :=
  forall id m, mg_members g !! id = Some m -> exists x m', a !! id = Some x /\ mg_members g' !! id = Some m' /\
    m_assignment m' = x /\ m_sync_promise m' = None /\
    forall q, m_sync_promise m = Some q -> (q, SyncAnswer {| sr_error_code := error_code.none; sr_assignment := x |}) ∈ mg_answers g'.

Lemma assignments_stored_ok n a g :
  sound g -> mg_state g = completing_rebalance -> n = mg_generation g -> covers g (StoreSync n a) ->
  ok (store_synced c now None n a g) (fun g' => later 0 g g' /\ mg_state g' = stable /\ assigned a g g').
Proof.
  intros Hs Hst En Hcov. unfold store_synced. unfold in_mg_state at 1.
  rewrite bool_decide_eq_true_2 by done. rewrite (proj2 (Z.eqb_eq _ _) En). cbn [negb orb].
  eapply ok_bind; [apply set_assignments_ok; [apply Hs|exact (Hcov En)]|]. intros g1 (Hsf1 & Hc1 & Hms1 & _).
  eapply ok_bind; [by apply finish_syncing_ok|]. intros g2 (Hsf2 & Hc2 & Hms & ls & Ha & HF).
  assert (Hsf : soft g g2) by (by etrans). assert (Hst2 := sf_state _ _ Hsf). rewrite Hst in Hst2.
  unfold change_state, member_state_valid, in_mg_state. rewrite bool_decide_eq_true_2 by done. apply ok_ret.
  destruct (so_protocol _ Hs) as (Hne & p & Hp & Hcom); [by left|].
  split_and!; [apply later_same; [|done|apply Hsf]; constructor; cbn; try done|done|].
  - by apply core_state.
  - by intros [].
  - intros _. rewrite (soft_empty _ _ Hsf), (sf_protocol _ _ Hsf). split; [done|]. exists p. split; [done|]. by apply (soft_common p g g2).
  - rewrite (sf_timer _ _ Hsf), (no_timer g Hs) by (by rewrite Hst). split; [by intros []|done].
  - intros id m Hm Hy. rewrite Hms in Hm. apply fmap_Some in Hm as (m0 & _ & ->). unfold synced in Hy.
    destruct (is_syncing m0) eqn:E; [done|congruence].
  - intros id m Hm. destruct (Hcov En _ _ Hm) as [x Hx]. set (m1 := set_assignment x m).
    assert (Hm1 : mg_members g1 !! id = Some m1) by (by rewrite Hms1, Hm, Hx).
    exists x, (synced now m1). cbn. rewrite Hms, Hm1. split_and!; [done|done| | |].
    + unfold synced. by destruct (is_syncing m1).
    + unfold synced. destruct (is_syncing m1) eqn:E; [done|]. unfold is_syncing in E. by destruct (m_sync_promise m1).
    + intros q Hq. rewrite Ha. apply elem_of_app. right. apply (in_concat_Forall2 _ _ _ (id, m1) _ HF); [by apply iter_elem|].
      intros bs ->. unfold sync_answer. cbn. rewrite Hq. set_solver.
Qed.

Lemma store_synced_ok error n a g :
  sound g -> mg_generation g < 2147483647 -> (mg_state g = completing_rebalance -> covers g (StoreSync n a)) ->
  ok (store_synced c now error n a g) (later 1 g).
Proof.
  intros Hs Hg Hcov. destruct (decide (mg_state g = completing_rebalance /\ n = mg_generation g)) as [[Hst En]|Hno].
  - destruct error as [e|].
    + unfold store_synced, in_mg_state. rewrite bool_decide_eq_true_2 by done. rewrite (proj2 (Z.eqb_eq _ _) En). cbn [negb orb].
      eapply ok_bind; [apply stop_syncing_ok, Hs|]. intros g1 (Hsf & Hc & Hsy).
      apply prepare_after; try done; try apply Hsf. by rewrite Hst.
    + eapply ok_mono; [by apply assignments_stored_ok; auto|]. intros g' [[? ?] _]. split; [done|lia].
  - unfold store_synced, in_mg_state. case_bool_decide; cbn [negb orb]; [|by apply ok_ret, later_refl].
    destruct (n =? mg_generation g) eqn:En; cbn [negb]; [|by apply ok_ret, later_refl]. apply Z.eqb_eq in En. by destruct Hno.
Qed.

Lemma member_metadata_throws g : (exists md, member_metadata g = Ok md) \/ (exists e, member_metadata g = Throw e).
Proof.
  unfold member_metadata. destruct (in_mg_state dead g || in_mg_state preparing_rebalance g); cbn; [by right; eexists|].
  set (F := fun acc m => _).
  assert (HF : forall l acc, ((exists md, acc = Ok md) \/ (exists e, acc = Throw e)) ->
    (exists md, fold_left F l acc = Ok md) \/ (exists e, fold_left F l acc = Throw e)).
  { induction l as [|x l IH]; intros acc Hacc; cbn; [done|]. apply IH. unfold F. destruct Hacc as [[md ->]|[e ->]]; cbn; [|by right; eexists].
    destruct (mg_protocol g); cbn; [|by right; eexists]. unfold get_protocol_metadata. destruct (List.find _ _); cbn; [left|right]; by eexists. }
  apply HF. left. by eexists.
Qed.

Definition ok_or_throw (r : res membership) (Q : membership -> Prop) : Prop := ok r Q \/ exists e, r = Throw e.

Lemma static_stored_ok o new_id g : sound g -> ok_or_throw (static_stored o new_id g) (later 0 g).
Proof.
  intros Hs. unfold static_stored.
  assert (Hmd : (exists md, (if is_group_leader new_id g then member_metadata g else Ok []) = Ok md) \/
    (exists e, (if is_group_leader new_id g then member_metadata g else Ok []) = Throw e)).
  { destruct (is_group_leader new_id g); [apply member_metadata_throws|left; by eexists]. }
  destruct Hmd as [[md ->]|[e ->]]; cbn; [left|right; by eexists].
  destruct (member_of_object o g); [by apply finish_sound|by apply ok_ret, later_refl].
Qed.

(** What a failed write of a static member needs, so that the old protocols still fit. *)
Definition revert_ok (new_id : string) (ps : list member_protocol) (g : membership) : Prop :=
  is_Some (mg_members g !! new_id) ->
  mg_state g <> completing_rebalance /\
  exists p, p ∈ ps.*1 /\ (forall k x, k <> new_id -> mg_members g !! k = Some x -> p ∈ names x) /\
    (mg_state g = stable -> mg_protocol g = Some p).

Definition reverted (now : Z) (ps : list member_protocol) (client host : string) (session rebalance : Z) (old_id : string)
    (m : group_member) : group_member :=
  restart_timer now (set_client ps (Some client) host session rebalance (moved old_id m)).

(** The group after the failed write: the waiting request was answered when the id was replaced. *)
Lemma not_stored_ok e o instance new_id old_id ps client host session rebalance own m g p :
  sound g -> owns own g -> Forall (fun s => store_ok own g s.1) (mg_stores g) ->
  store_ok own g (StoreStatic o instance new_id old_id ps client host session rebalance) ->
  (forall s', s' ∈ mg_stores g -> old_id ∉ reverts_to s'.1) -> mg_members g !! new_id = Some m ->
  mg_state g <> completing_rebalance -> p ∈ ps.*1 ->
  (forall k x, k <> new_id -> mg_members g !! k = Some x -> p ∈ names x) -> (mg_state g = stable -> mg_protocol g = Some p) ->
  ok (static_not_stored now e instance new_id old_id ps client host session rebalance g) (fun g' =>
    later 0 g g' /\
    mg_members g' = <[old_id := reverted now ps client host session rebalance old_id m]> (delete new_id (mg_members g)) /\
    mg_answers g' = mg_answers g ++ join_answer (make_join_error new_id error_code.fenced_instance_id) (Some m)).
Proof.
  intros Hs Ho Hst (Hnew & Hold & Hnd & Hne1 & Hne2 & Hne3 & Hp1 & Hp2 & Hon) Hrev Hm Hncs Hp Hoth Hpr.
  assert (Hown : own new_id = (m_object m, m_group_instance_id m)) by (by apply Ho). rewrite Hnew in Hown.
  injection Hown as Hobj Hinst. symmetry in Hinst. unfold static_not_stored.
  destruct (replace_ok instance new_id old_id m g) as (g1 & E1 & Hr); try done; [apply Hs|]. rewrite E1. cbn [mbind res_bind].
  assert (Ha1 := replace_answers _ _ _ _ _ _ Hm E1).
  destruct (replace_core instance new_id old_id m g g1 own) as [Hc1 _]; try done; [apply Hs|by rewrite Hold, Hobj|].
  assert (Hms1 := rp_members _ _ _ _ _ _ Hr).
  assert (Hm1 : mg_members g1 !! old_id = Some (moved old_id m)) by (by rewrite Hms1, lookup_insert_eq).
  eapply ok_bind; [by apply (update_no_join_ok old_id (moved old_id m))|]. intros g2 (Hu & sp & Hg2).
  assert (Hoth1 : forall k x, k <> old_id -> mg_members g1 !! k = Some x -> p ∈ names x).
  { intros k x Hk. rewrite Hms1, lookup_insert_ne by done. intros [Hk' Hx]%lookup_delete_Some. by apply (Hoth k). }
  set (m2 := set_client ps (Some client) host session rebalance (moved old_id m)) in *.
  assert (Hc2 : core g2) by (by apply (update_core old_id (moved old_id m) m2 g1 g2 p)).
  assert (Hms2 : mg_members g2 = <[old_id := m2]> (delete new_id (mg_members g))).
  { by rewrite (up_members _ _ _ _ _ Hu), Hms1, insert_insert_eq. }
  cbn zeta. destruct (schedule_soft now old_id g2 Hc2) as [Hsf3 Hc3].
  assert (Hms3 := schedule_members now old_id g2 Hc2). set (g3 := schedule_next_heartbeat_expiration now old_id g2) in *.
  assert (Hms3' : mg_members g3 = <[old_id := restart_timer now m2]> (delete new_id (mg_members g))).
  { rewrite Hms3, <- (put_alter (restart_timer now) old_id m2), Hms2 by (by rewrite Hms2, lookup_insert_eq). by rewrite insert_insert_eq. }
  eapply ok_mono; [by apply try_finish_ok|]. intros g4 (Hsf4 & Hc4 & Hms4 & Ha4).
  assert (Hms4' : mg_members g4 = <[old_id := restart_timer now m2]> (delete new_id (mg_members g))).
  { rewrite Hms4, Hms3', <- (put_alter end_join old_id (restart_timer now m2)) by (by rewrite lookup_insert_eq). by rewrite insert_insert_eq. }
  assert (Hsf : soft g2 g4) by (by etrans). split_and!; [|exact Hms4'|].
  2:{ rewrite Ha4, Hms3', lookup_insert_eq. unfold g3. rewrite schedule_answers, Hg2. cbn. rewrite Ha1.
      assert (Hns := sound_not_syncing g Hs Hncs _ _ Hm). unfold is_syncing in Hns. unfold sync_answer. cbn.
      destruct (m_sync_promise m); [done|]. by rewrite !app_nil_r. }
  assert (Hst4 : mg_state g4 = mg_state g) by (rewrite (sf_state _ _ Hsf), Hg2; apply Hr).
  apply later_same; [|done|rewrite (sf_generation _ _ Hsf), (up_generation _ _ _ _ _ Hu); apply Hr].
  assert (Hnem : mg_members g <> ∅) by (intros E; by rewrite E in Hm).
  constructor; rewrite ?Hst4; [done| | | | |done|done].
  - intros Hed. destruct Hnem. by apply Hs.
  - intros [?|Hsta]; [done|]. split; [rewrite Hms4'; apply insert_non_empty|]. exists p.
    split; [rewrite (sf_protocol _ _ Hsf), Hg2; cbn; rewrite (rp_protocol _ _ _ _ _ _ Hr); by apply Hpr|].
    intros k x. rewrite Hms4'. intros [[<- <-]|[Hk [Hk' Hx]%lookup_delete_Some]]%lookup_insert_Some; [done|]. by apply (Hoth k).
  - rewrite (sf_timer _ _ Hsf), Hg2. cbn. rewrite (rp_timer _ _ _ _ _ _ Hr). apply Hs.
  - intros k x. rewrite Hms4'. intros [[<- <-]|[Hk [Hk' Hx]%lookup_delete_Some]]%lookup_insert_Some; [done|]. by apply (so_syncing _ Hs k).
Qed.

Definition store_result_ok (error : option std_error_code) (i : nat) (g : membership) : Prop :=
  match error, mg_stores g !! i with
  | Some _, Some (StoreStatic _ _ new_id _ ps _ _ _ _, _) => revert_ok new_id ps g
  | _, _ => True
  end.

Lemma store_finished_ok error i g :
  sound g -> mg_generation g < 2147483647 -> store_result_ok error i g -> ok (store_finished c now error i g) (later 1 g).
Proof.
  intros Hs Hg Hok. unfold store_finished, store_result_ok in *. destruct (mg_stores g !! i) as [[s md]|] eqn:Ei;
    [|by apply ok_ret, later_refl].
  destruct (unstored_sound i g s md Hs Ei) as (Hs1 & (own & Ho & Hst & Hown) & Hrev & Hcov). fold (unstored i g).
  assert (Hres : ok_or_throw (store_continues c now error s (unstored i g)) (later 1 (unstored i g))).
  { destruct s as [|n a|o inst new_id old_id ps client host session rebalance]; cbn [store_continues].
    - left. by apply ok_ret, later_refl.
    - left. by apply store_synced_ok.
    - destruct error as [e|].
      + destruct (mg_members g !! new_id) as [m|] eqn:Em.
        * destruct Hok as (Hncs & p & Hp & Hoth & Hpr); [by rewrite Em|]. left.
          eapply ok_mono; [apply (not_stored_ok e o inst new_id old_id ps client host session rebalance own m _ p); try done|].
          -- intros s' Hs'. apply Hrev; [cbn; set_solver|done].
          -- intros g' [[? ?] _]. split; [done|lia].
        * right. unfold static_not_stored, replace_static_member. cbn. rewrite Em. by eexists.
      + destruct (static_stored_ok o new_id (unstored i g) Hs1) as [Hk|Hk]; [left|by right].
        eapply ok_mono; [exact Hk|]. intros g' [? ?]. split; [done|lia]. }
  destruct Hres as [(g' & -> & Hl)|[e ->]]; [by apply ok_ret|]. apply ok_ret. by apply later_same.
Qed.

End Requests.
