(* ===== verification/GroupEvents.v ===== *)
(** * The life of a consumer group

    Runs of a group's events, the end of its join and sync phases, its recovery from the
    log, and the answers that the failed write of a static member leads to. *)

From S2P Require Import Prelude Errors GroupOffsets GroupMembership GroupMembershipProps GroupMembershipSound.

(** ** Events *)

Inductive event :=
  | Join (new_id : string) (is_new_group : bool) (r : join_group_request)
  | Sync (r : sync_group_request)
  | Heartbeat (r : heartbeat_request)
  | Leave (r : leave_group_request)
  | JoinTimer
  | MemberTimer (id : string)
  | PendingTimer (id : string)
  | StoreResult (i : nat) (error : option std_error_code)
  | RemoveMembers
  | Die.

(** How many generations an event may start. *)
Definition generations (e : event) (g : membership) : Z :=
  match e with
  | Join _ _ _ => 1
  | Leave r => Z.of_nat (S (length (lg_members r)))
  | RemoveMembers => Z.of_nat (size (mg_members g))
  | _ => 0
  end.

Definition event_ok (e : event) (g : membership) : Prop :=
  mg_generation g + generations e g < 2147483647 /\
  match e with
  | Join new_id _ r => join_ok new_id r g
  | StoreResult i error => store_result_ok error i g
  | Die => mg_state g = empty
  | _ => True
  end.

Section Events.

Context `{IterationLaws} (c : group_config).

Definition run_event (now : Z) (e : event) (g : membership) : res membership :=
  match e with
  | Join new_id is_new r => snd <$> handle_join_group c now new_id is_new r g
  | Sync r => snd <$> handle_sync_group now r g
  | Heartbeat r => snd <$> handle_heartbeat now r g
  | Leave r => snd <$> handle_leave_group c now r g
  | JoinTimer => join_timer_fired now g
  | MemberTimer id => member_timer_fired c now id g
  | PendingTimer id => pending_timer_fired now id g
  | StoreResult i error => store_finished c now error i g
  | RemoveMembers => remove_full_members c now g
  | Die => change_state dead g
  end.

Fixpoint run_events (es : list (Z * event)) (g : membership) : res membership :=
  match es with
  | [] => Ok g
  | (now, e) :: es => g ← run_event now e g; run_events es g
  end.

(** Every event meets its assumptions in the group it finds. *)
Fixpoint events_ok (es : list (Z * event)) (g : membership) : Prop :=
  match es with
  | [] => True
  | (now, e) :: es => event_ok e g /\ match run_event now e g with Ok g' => events_ok es g' | _ => True end
  end.

Lemma ok_snd {A} (r : res (A * membership)) (Q : membership -> Prop) : ok r (fun x => Q x.2) -> ok (snd <$> r) Q.
Proof. intros (x & -> & Hx). by exists x.2. Qed.

Lemma sound_new : sound new_group.
Proof.
  constructor; cbn; try done; try (by intros []).
  constructor; cbn; try done; try (by intros ? []).
  - intros i id. split; [done|]. by intros (m & Hm & _).
  - by left.
  - by exists (fun _ => (0%nat, None)).
  - apply NoDup_nil_2.
Qed.

Lemma run_event_ok now e g : sound g -> event_ok e g -> ok (run_event now e g) sound.
Proof.
  intros Hs [Hg He].
  assert (Hl : forall n r, ok r (later n g) -> ok r sound) by (intros n r Hr; eapply ok_mono; [exact Hr|]; by intros g' []).
  destruct e; cbn [run_event generations] in *.
  - apply (Hl 2), ok_snd. by apply handle_join_ok.
  - apply (Hl 0), ok_snd. by apply sync_ok.
  - apply (Hl 0), ok_snd. by apply heartbeat_ok.
  - eapply Hl, ok_snd. by apply leave_ok.
  - eapply ok_mono; [apply join_timer_ok; [done|lia]|]. by intros g' [].
  - apply (Hl 1). apply member_timer_ok; [done|lia].
  - apply (Hl 1). apply pending_timer_ok; [done|lia].
  - apply (Hl 1). apply store_finished_ok; [done|lia|done].
  - eapply ok_mono; [apply remove_members_ok; [done|done|exact Hg]|]. by intros g' [[] _].
  - apply ok_ret. destruct Hs. assert (Hm : mg_members g = ∅) by (apply so_empty; by left).
    constructor; cbn; try done; try (by intros []); [by apply core_state|rewrite so_timer, He; done|].
    intros id m. by rewrite Hm.
Qed.


(** ** The end of the join phase *)

(** The timer of a group that was empty waits on, for the rest of the rebalance timeout at most, if a member was added since it
    was armed. *)
Definition debounced (t : join_callback) (g g' : membership) : Prop :=
  exists initial delay remaining, t = Debounce initial delay remaining /\ mg_new_member_added g = true /\ remaining <> 0 /\
    g' = mg_set_join (Some (Debounce initial (initial `min` remaining) ((remaining - delay) `max` 0))) false
           (mg_initial_join_in_progress g) g.

(** C14: When the join timer of a sound group fires, with either of its callbacks, the group is sound afterwards, and one of four
    things has happened.  The timer that waits for more members of a group that was empty is armed again, and nothing else is
    changed, exactly if a member was added and time is left.  Otherwise the join phase is completed: without a member that joined
    or is static the group is empty; with only static members that did not join the timer is armed again; or else the members that
    did not join are gone unless they are static, the leader is a member that joined, the protocol is one that all members
    support and that has the most votes, and every waiting join request is answered with the next generation. *)
Theorem join_timer_ends_phase now t g :
  sound g -> mg_join_timer g = Some t -> mg_generation g < 2147483647 ->
  exists g', join_timer_fired now g = Ok g' /\ sound g' /\
    match t with
    | Debounce _ _ remaining => if mg_new_member_added g && negb (remaining =? 0) then debounced t g g' else completes now g g'
    | CompleteJoin => completes now g g'
    end.
Proof.
  intros Hs Ht Hg. unfold join_timer_fired. rewrite Ht.
  assert (Hst : mg_state g = preparing_rebalance) by (apply (so_timer _ Hs); by rewrite Ht).
  assert (Hc : exists g', complete_join now (cancel_join_timer g) = Ok g' /\ sound g' /\ completes now g g').
  { apply (complete_join_ok now (cancel_join_timer g)); try done; [apply core_join, Hs|].
    apply (sound_not_syncing g); [done|by rewrite Hst]. }
  destruct t as [initial delay remaining|]; [|done]. cbn [mg_new_member_added cancel_join_timer mg_set_join].
  destruct (mg_new_member_added g) eqn:Ha; cbn [andb]; [|done]. destruct (Z.eqb_spec remaining 0) as [|Hr]; cbn [negb]; [done|].
  eexists. split; [reflexivity|]. split; [|by exists initial, delay, remaining].
  destruct Hs. constructor; cbn; try done. by apply core_join, core_join.
Qed.

(** ** The end of the sync phase *)

(** When the leader's assignments of the current generation are written, the group becomes stable, every member has its
    assignment, and every member that waits for it is sent it. *)
Theorem assignments_reach_members now i n a md g :
  sound g -> mg_state g = completing_rebalance -> mg_stores g !! i = Some (StoreSync n a, md) -> n = mg_generation g ->
  exists g', store_finished c now None i g = Ok g' /\ sound g' /\ mg_state g' = stable /\ mg_generation g' = n /\ assigned a g g'.
Proof.
  intros Hs Hst Hi Hn. destruct (unstored_sound i g _ md Hs Hi) as (Hs1 & _ & _ & Hcov). specialize (Hcov Hst).
  unfold store_finished. rewrite Hi. cbn [store_continues]. fold (unstored i g).
  destruct (assignments_stored_ok c now n a (unstored i g)) as (g' & E & [Hsnd Hg] & Hst' & Has); try done.
  rewrite E. exists g'. split_and!; try done. cbn in Hg. lia.
Qed.

(** ** A static member whose new id cannot be written *)

(** C38: When the write of a static member's new id fails, the group goes back to the old id, and the member's waiting join
    request is answered with [fenced_instance_id]: the replacement of the id ends it, before the error of the write could be
    sent. *)
Theorem failed_rejoin_is_fenced now e i o instance new_id old_id ps client host session rebalance md q m g :
  sound g -> mg_stores g !! i = Some (StoreStatic o instance new_id old_id ps client host session rebalance, md) ->
  revert_ok new_id ps g -> mg_members g !! new_id = Some m -> m_join_promise m = Some q ->
  exists g', store_finished c now (Some e) i g = Ok g' /\ sound g' /\
    mg_answers g' = mg_answers g ++ [(q, JoinAnswer (make_join_error new_id error_code.fenced_instance_id))] /\
    mg_members g' !! new_id = None /\ exists m', mg_members g' !! old_id = Some m' /\ m_object m' = o /\ m_join_promise m' = None.
Proof.
  intros Hs Hi Hrev Hm Hq. destruct (unstored_sound i g _ md Hs Hi) as (Hs1 & (own & Ho & Hst & Hown) & Hr & _).
  destruct Hrev as (Hncs & p & Hp & Hoth & Hpr); [by eexists|].
  unfold store_finished. rewrite Hi. cbn [store_continues]. fold (unstored i g).
  destruct (not_stored_ok now e o instance new_id old_id ps client host session rebalance own m (unstored i g) p)
    as (g' & E & [Hsnd Hg] & Hms & Ha); try done.
  { intros s' Hs'. apply Hr; [cbn; set_solver|done]. }
  rewrite E. destruct Hown as (Hnew & _ & _ & _ & _ & Hne & _). exists g'. split_and!; [done|done| | |].
  - rewrite Ha. unfold join_answer. cbn. by rewrite Hq.
  - rewrite Hms, lookup_insert_ne by done. apply lookup_delete_eq.
  - eexists. split; [rewrite Hms; apply lookup_insert_eq|]. split; [|done]. cbn.
    specialize (Ho new_id m Hm). rewrite Hnew in Ho. by injection Ho.
Qed.

(** ** Recovery from the log *)

(** What a recovered member has of the member that was written. *)
Definition recalled (a : gmap string (list Z)) (p : string) (m m' : group_member) : Prop :=
  m_id m' = m_id m /\ m_group_instance_id m' = m_group_instance_id m /\ m_client_id m' = m_client_id m /\
  m_client_host m' = m_client_host m /\ m_session_timeout m' = m_session_timeout m /\
  m_rebalance_timeout m' = m_rebalance_timeout m /\ a !! m_id m = Some (m_assignment m') /\
  exists md, get_protocol_metadata p m = Ok md /\ m_protocols m' = [(p, md)].

Lemma recalled_of a p id m s md n :
  m_id m = id -> gm_protocol md = Some p -> writes a (Some p) (id, m) s -> recalled a p m (recovered_member md n s).
Proof.
  intros <- Hp (v & x & q & Hv & [= <-] & Hx & ->). cbn in *. unfold recalled. cbn. rewrite Hp. cbn.
  split_and!; try done. by exists x.
Qed.

(** A group that is being filled, as if its first member led it. *)
Definition led_by (l : option string) (g : membership) : membership := mg_set_leader (mg_protocol_type g) l g.

Record filling (md : group_metadata) (a : gmap string (list Z)) (p : string) (known : list (string * group_member))
    (g : membership) : Prop := {
  fi_core : core (led_by (fst <$> head known) g);
  fi_known : forall k m, (k, m) ∈ known -> exists m', mg_members g !! k = Some m' /\ recalled a p m m';
  fi_others : forall k, k ∉ known.*1 -> mg_members g !! k = None;
  fi_names : forall k m, mg_members g !! k = Some m -> names m = [p] /\ is_joining m = false /\ is_syncing m = false;
  fi_fields : mg_state g = mg_state (group_of_metadata md) /\ mg_generation g = gm_generation md /\
    mg_protocol g = gm_protocol md /\ mg_leader g = gm_leader md /\ mg_join_timer g = None /\ mg_stores g = [] /\
    mg_pending_members g = ∅;
}.

Lemma fill_step md a p known k m s g l :
  gm_protocol md = Some p -> gm_leader md = Some l -> filling md a p known g -> writes a (Some p) (k, m) s -> m_id m = k ->
  k <> EmptyString -> k ∉ known.*1 ->
  (forall i, m_group_instance_id m = Some i -> forall k' m', (k', m') ∈ known -> m_group_instance_id m' <> Some i) ->
  ok (let m := recovered_member md (mg_next_object g) s in
      add_member_no_join m (mg_set_counts 0 (S (mg_next_object g)) (mg_next_promise g) (mg_answers g) (mg_stores g) g))
    (filling md a p (known ++ [(k, m)])).
Proof.
  intros Hp Hl Hf Hw Hid Hne Hk Hinst. destruct Hf as [Hc Hkn Hot Hna (Hf1 & Hf2 & Hf3 & Hf4 & Hf5 & Hf6 & Hf7)].
  assert (Hre := recalled_of a p k m s md (mg_next_object g) Hid Hp Hw). cbn zeta.
  set (m' := recovered_member md (mg_next_object g) s) in *.
  assert (Hid' : m_id m' = k) by (destruct Hre as [-> _]; done).
  assert (Hjs : is_joining m' = false /\ is_syncing m' = false) by done. clearbody m'.
  assert (Hi' : m_group_instance_id m' = m_group_instance_id m) by apply Hre.
  assert (Hst : forall i, m_group_instance_id m' = Some i -> mg_static_members g !! i = None).
  { rewrite Hi'. intros i Hi. destruct (mg_static_members g !! i) as [k'|] eqn:E; [|done].
    apply (co_static _ Hc) in E as (x & Hx & Hxi). cbn in Hx.
    destruct (decide (k' ∈ known.*1)) as [Hin|Hn]; [|by rewrite Hot in Hx].
    apply list_elem_of_fmap in Hin as ([k0 m0] & -> & Hin). cbn in Hx. destruct (Hkn _ _ Hin) as (x' & Hx' & _ & Hx'i & _).
    destruct (Hinst i Hi _ _ Hin). congruence. }
  assert (Hnames : names m' = [p]) by (unfold names; destruct Hre as (_&_&_&_&_&_&_& x & _ & ->); done).
  assert (Hnone : mg_members g !! k = None) by (by apply Hot).
  set (g1 := mg_set_counts 0 (S (mg_next_object g)) (mg_next_promise g) (mg_answers g) (mg_stores g) g).
  assert (Hadd : exists pt, add_member_no_join m' g1 = Ok (mg_set_members (count_protocols 1 (m_protocols m') (mg_supported_protocols g))
    (<[k := m']> (mg_members g)) (mg_set_leader pt (Some l) (mg_set_static
      match m_group_instance_id m' with Some i => <[i := k]> (mg_static_members g) | None => mg_static_members g end g1)))).
  { unfold add_member_no_join, g1. cbn [mg_static_members mg_set_counts]. rewrite <- Hid' in Hnone.
    destruct (m_group_instance_id m') as [i|] eqn:Ei; [rewrite (Hst i eq_refl)|]; cbn; rewrite Hf4, Hl, Hnone; cbn; rewrite Hid'; by eexists. }
  destruct Hadd as [pt ->]. apply ok_ret. constructor.
  - assert (Hj : mg_num_members_joining g = 0).
    { apply (joining_member (led_by (fst <$> head known) g)); [apply Hc|]. intros k' x Hx. apply (Hna k' x Hx). }
    apply (add_core m' (led_by (fst <$> head known) g) _ p); cbn.
    + exact Hc.
    + constructor; cbn; rewrite ?Hid'; try done; [|by destruct known]. unfold joins. destruct Hjs as [-> _]. lia.
    + rewrite Hid'. split_and!; cbn; [done|done|by rewrite Hf7|rewrite Hf6; set_solver].
    + rewrite Hnames. apply NoDup_singleton.
    + exact Hst.
    + intros k' x Hx. destruct (Hna k' x Hx) as [-> _]. set_solver.
    + rewrite Hnames. set_solver.
  - cbn. intros k' x Hx. apply elem_of_app in Hx as [Hx|[= -> ->]%list_elem_of_singleton].
    + destruct (Hkn _ _ Hx) as (x' & Hx' & Hrx). exists x'. rewrite lookup_insert_ne; [done|]. intros <-. congruence.
    + exists m'. by rewrite lookup_insert_eq.
  - cbn. intros k' Hk'. rewrite fmap_app in Hk'. cbn in Hk'. rewrite lookup_insert_ne by set_solver. apply Hot. set_solver.
  - cbn. intros k' x [[<- <-]|[_ Hx]]%lookup_insert_Some; [done|]. by apply (Hna k').
  - cbn. by split_and!.
Qed.

Lemma group_of_metadata_filling md a p : filling md a p [] (group_of_metadata md).
Proof.
  constructor; cbn; try done; [|intros k m Hm; set_solver].
  constructor; cbn; try done.
  - intros i id. split; [done|]. by intros (m & Hm & _).
  - by left.
  - by exists (fun _ => (0%nat, None)).
  - apply NoDup_nil_2.
Qed.

Lemma recover_members_ok a p l g md :
  core g -> mg_protocol g = Some p -> mg_leader g = Some l -> gm_protocol md = mg_protocol g -> gm_leader md = mg_leader g ->
  Forall2 (writes a (mg_protocol g)) (iter_members (mg_members g)) (gm_members md) ->
  ok (recover_members md) (filling md a p (iter_members (mg_members g))).
Proof.
  intros Hc Hp Hl Hmp Hml HF. rewrite Hp in HF, Hmp. rewrite Hl in Hml. unfold recover_members.
  eapply ok_mono; [apply (ok_loop (fun s g' => let m := recovered_member md (mg_next_object g') s in
    add_member_no_join m (mg_set_counts 0 (S (mg_next_object g')) (mg_next_promise g') (mg_answers g') (mg_stores g') g'))
    (fun rest g' => exists known todo, iter_members (mg_members g) = known ++ todo /\ Forall2 (writes a (Some p)) todo rest /\
      filling md a p known g'))|].
  - exists [], (iter_members (mg_members g)). split_and!; [done|done|apply group_of_metadata_filling].
  - intros s rest g' (known & todo & Hit & HF' & Hfi). destruct todo as [|[k m] todo]; [by apply Forall2_nil_inv_l in HF'|].
    apply Forall2_cons in HF' as [Hw HF'].
    assert (Hm : mg_members g !! k = Some m) by (apply iter_elem; rewrite Hit; set_solver).
    destruct (co_ids _ Hc _ _ Hm) as [Hid Hne].
    assert (Hnd := iter_nodup (mg_members g)). rewrite Hit, fmap_app, NoDup_app in Hnd. destruct Hnd as (_ & Hnd & _).
    assert (Hk : k ∉ known.*1) by (intros Hin; apply (Hnd k Hin); cbn; set_solver).
    eapply ok_mono; [apply (fill_step md a p known k m s g' l); try done|].
    + intros i Hi k' m' Hin Hi'.
      assert (Hm' : mg_members g !! k' = Some m') by (apply iter_elem; rewrite Hit; set_solver).
      assert (H1 : mg_static_members g !! i = Some k) by (apply (co_static _ Hc); eauto).
      assert (H2 : mg_static_members g !! i = Some k') by (apply (co_static _ Hc); eauto).
      apply Hk. apply list_elem_of_fmap. exists (k', m'). split; [cbn; congruence|done].
    + intros g'' Hfi'. exists (known ++ [(k, m)]), todo. rewrite <- app_assoc. done.
  - intros g' (known & todo & Hit & HF' & Hfi). apply Forall2_nil_inv_r in HF'. subst todo. rewrite app_nil_r in Hit. by subst known.
Qed.

Lemma writes_nil a q ms : Forall2 (writes a q) (iter_members ms) [] -> ms = ∅.
Proof. intros HF%Forall2_nil_inv_r. by apply iter_nil. Qed.

(** A filled group is sound, once its leader is known. *)
Lemma filled_sound md a p l known g :
  filling md a p known g -> known <> [] -> gm_members md <> [] -> gm_protocol md = Some p -> gm_leader md = Some l -> l ∈ known.*1 ->
  sound g.
Proof.
  intros [Hc Hkn Hot Hna (Hf1 & Hf2 & Hf3 & Hf4 & Hf5 & Hf6 & Hf7)] Hne Hme Hp Hl Hin.
  cbn in Hf1. rewrite bool_decide_eq_false_2 in Hf1 by done.
  apply list_elem_of_fmap in Hin as ([k m] & -> & Hin). destruct (Hkn _ _ Hin) as (m' & Hm' & _). cbn in *.
  assert (Hc' : core g).
  { replace g with (mg_set_leader (mg_protocol_type g) (Some k) (led_by (fst <$> head known) g))
      by (rewrite Hl in Hf4; rewrite <- Hf4; by destruct g). apply core_leader; [done|by eexists]. }
  constructor; rewrite ?Hf1; try done.
  - by intros [].
  - intros _. split; [intros E; by rewrite E in Hm'|]. exists p. split; [congruence|]. intros k' x Hx.
    destruct (Hna k' x Hx) as [-> _]. set_solver.
  - rewrite Hf5. split; [by intros []|done].
  - intros k' x Hx Hy. destruct (Hna k' x Hx) as (_ & _ & ?). congruence.
Qed.

Lemma filled_static md a p g g' :
  core g -> core g' -> filling md a p (iter_members (mg_members g)) g' -> mg_static_members g' = mg_static_members g.
Proof.
  intros Hc Hc' [_ Hkn Hot _ _]. apply map_eq. intros i. apply option_eq. intros k. rewrite (co_static _ Hc), (co_static _ Hc').
  split; intros (m & Hm & Hi).
  - destruct (mg_members g !! k) as [x|] eqn:E.
    + destruct (Hkn k x) as (m' & Hm' & _ & Hi' & _); [by apply iter_elem|]. exists x. split; [done|congruence].
    + rewrite Hot in Hm; [done|]. intros ([k' x] & -> & Hin)%list_elem_of_fmap. apply iter_elem in Hin. cbn in E. congruence.
  - destruct (Hkn k m) as (m' & Hm' & _ & Hi' & _); [by apply iter_elem|]. exists m'. split; [done|congruence].
Qed.

Lemma filled_dom md a p g g' :
  filling md a p (iter_members (mg_members g)) g' -> dom (mg_members g') = dom (mg_members g).
Proof.
  intros [_ Hkn Hot _ _]. apply set_eq. intros k. rewrite !elem_of_dom. split; intros [m Hm].
  - destruct (mg_members g !! k) as [x|] eqn:E; [by eexists|]. rewrite Hot in Hm; [done|].
    intros ([k' x] & -> & Hin)%list_elem_of_fmap. apply iter_elem in Hin. cbn in E. congruence.
  - destruct (Hkn k m) as (m' & Hm' & _); [by apply iter_elem|]. by eexists.
Qed.

(** C23: A coordinator that reads the metadata a group wrote when its assignments were decided has the same group: it is stable
    and sound, with the generation, protocol and leader that were written, and with the members, their instances, clients,
    timeouts and assignments, whose timers start anew. *)
Theorem recovery_restores_group now a g :
  sound g -> mg_state g = completing_rebalance \/ mg_state g = stable ->
  (forall id m, mg_members g !! id = Some m -> is_Some (a !! id)) ->
  exists md g', checkpoint a g = Ok md /\ recovered_group now md = Ok g' /\ sound g' /\ mg_state g' = stable /\
    mg_generation g' = mg_generation g /\ mg_protocol g' = mg_protocol g /\ mg_leader g' = mg_leader g /\
    mg_static_members g' = mg_static_members g /\ dom (mg_members g') = dom (mg_members g) /\
    forall id m, mg_members g !! id = Some m ->
      exists m' p, mg_members g' !! id = Some m' /\ mg_protocol g = Some p /\ recalled a p m m' /\
        m_expire_timer m' = Some (now + m_session_timeout m).
Proof.
  intros Hs Hst Hcov. assert (Hc := so_core _ Hs). destruct (so_protocol _ Hs Hst) as (Hne & p & Hp & Hcom).
  destruct (checkpoint_ok a g Hcov) as (md & E & Hpt & Hgen & Hpr & Hld & HF); [right; by exists p|].
  assert (Hleads := co_leader _ Hc). unfold leads in Hleads. destruct (mg_leader g) as [l|] eqn:Hl; [|done].
  destruct Hleads as [ml Hml].
  destruct (recover_members_ok a p l g md Hc Hp Hl) as (g1 & E1 & Hfi); [done|by rewrite Hl|done|].
  assert (Hs1 : sound g1).
  { apply (filled_sound md a p l (iter_members (mg_members g))); [done|by rewrite iter_nil| | congruence|done|].
    - intros Hnil. rewrite Hnil in HF. by apply writes_nil in HF.
    - apply list_elem_of_fmap. exists (l, ml). by rewrite iter_elem. }
  destruct (for_each_ok (fun id g => Ok (schedule_next_heartbeat_expiration now id g)) (fun _ => restart_timer now) (fun _ _ l => l = [])
    g1 (so_core _ Hs1)) as (g2 & E2 & Hsf & Hc2 & Hms & _).
  { intros id m g' _ Hc' _ _. apply ok_ret. destruct (schedule_soft now id g' Hc') as [? ?]. split_and!; [done|done|by apply schedule_members|].
    exists []. by rewrite schedule_answers, app_nil_r. }
  assert (Hfields := fi_fields _ _ _ _ _ Hfi). destruct Hfields as (Hf1 & Hf2 & Hf3 & Hf4 & _). cbn in Hf1.
  assert (Hst2 : mg_state g1 = stable).
  { rewrite Hf1. rewrite bool_decide_eq_false_2; [done|]. intros Hnil. rewrite Hnil in HF. by apply writes_nil in HF. }
  exists md, g2. split_and!; [done|unfold recovered_group, reschedule_all_member_heartbeats; rewrite E1; exact E2| | | | | | | |].
  - apply (soft_sound g1); try done; rewrite Hst2; [|done]. intros id m Hm Hy. rewrite Hms in Hm. apply fmap_Some in Hm as (m0 & Hm0 & ->).
    destruct (fi_names _ _ _ _ _ Hfi _ _ Hm0) as (_ & _ & ?). change (is_syncing m0 = true) in Hy. congruence.
  - by rewrite (sf_state _ _ Hsf).
  - rewrite (sf_generation _ _ Hsf). congruence.
  - rewrite (sf_protocol _ _ Hsf). congruence.
  - rewrite (sf_leader _ _ Hsf). congruence.
  - rewrite (sf_static _ _ Hsf). apply (filled_static md a p); [done|apply Hs1|done].
  - rewrite (soft_members_dom _ _ Hsf). by apply (filled_dom md a p).
  - intros id m Hm. destruct (fi_known _ _ _ _ _ Hfi id m) as (m' & Hm' & Hre); [by apply iter_elem|].
    exists (restart_timer now m'), p. rewrite Hms, Hm'. split_and!; [done|done|exact Hre|].
    cbn. by destruct Hre as (_ & _ & _ & _ & -> & _).
Qed.

End Events.

(** ** A group of a dynamic and a static member *)

Module group_examples.

#[local] Instance listed_order : IterationOrder := {| iter_members := map_to_list; iter_votes := map_to_list |}.

#[local] Instance listed_laws : IterationLaws.
Proof. by split. Qed.

Definition conf : group_config := {| group_new_member_join_timeout := 30000; group_initial_rebalance_delay := 3000 |}.

Definition request (id : string) (instance : option string) (ps : list string) : join_group_request :=
  {| jg_version := 3; jg_member_id := id; jg_group_instance_id := instance; jg_client_id := Some "client"; jg_client_host := "host";
     jg_session_timeout_ms := 10000; jg_rebalance_timeout_ms := 60000; jg_protocol_type := "consumer";
     jg_protocols := (fun p => (p, [1])) <$> ps |}.

Definition sync_request (id : string) (generation : Z) (a : list (string * list Z)) : sync_group_request :=
  {| sg_member_id := id; sg_group_instance_id := None; sg_generation_id := generation; sg_assignments := a |}.

(** Two members join, the second is static; the debounced timer fires twice; both sync, and the assignments are written. *)
Definition first_join : event := Join "a-1" true (request "" None ["range"; "roundrobin"]).
Definition static_join : event := Join "b-1" false (request "" (Some "b") ["roundrobin"]).
Definition leader_sync : event := Sync (sync_request "a-1" 1 [("a-1", [7]); ("b-1", [8])]).
Definition member_sync : event := Sync (sync_request "b-1" 1 []).

Definition forming : list (Z * event) := [(0, first_join); (10, static_join); (3000, JoinTimer); (6000, JoinTimer)].
Definition syncing : list (Z * event) := [(6010, leader_sync); (6020, member_sync)].

Definition state_after (es : list (Z * event)) (g : membership) : membership :=
  match run_events conf es g with Ok g' => g' | _ => g end.

Definition formed : membership := Eval vm_compute in state_after forming new_group.
Definition waiting : membership := Eval vm_compute in state_after syncing formed.
Definition settled_group : membership := Eval vm_compute in state_after [(6100, StoreResult 0 None)] waiting.

(** A third member makes the group collect its members again; the static member may come back under a new id. *)
Definition late_join : event := Join "c-1" false (request "" None ["roundrobin"]).
Definition static_return : event := Join "b-2" false (request "" (Some "b") ["roundrobin"]).

Definition collecting : membership := Eval vm_compute in state_after [(7000, late_join)] settled_group.
Definition returning : membership := Eval vm_compute in state_after [(7000, static_return)] settled_group.

Ltac fresh_by :=
  split_and!; [reflexivity|discriminate|by apply (bool_decide_unpack _); vm_compute|
    intros s Hs; cbn in Hs; repeat (apply elem_of_cons in Hs as [->|Hs]; [cbn; set_solver|]); by apply not_elem_of_nil in Hs].

Ltac join_by := split; [reflexivity|]; split_and!; [fresh_by|apply (bool_decide_unpack _); vm_compute; exact I|vm_compute; discriminate].

Lemma events_cons now e es g g' :
  event_ok e g -> run_event conf now e g = Ok g' -> events_ok conf es g' -> events_ok conf ((now, e) :: es) g.
Proof. intros He Hr Hes. cbn. by rewrite Hr. Qed.

Lemma events_sound es g g' : sound g -> events_ok conf es g -> run_events conf es g = Ok g' -> sound g'.
Proof.
  revert g. induction es as [|[now e] es IH]; intros g Hs Hok Hr; cbn in *; [by injection Hr as <-|].
  destruct Hok as [He Hes]. destruct (run_event_ok conf now e g Hs He) as (g1 & E & Hs1). rewrite E in *. by eapply IH.
Qed.

Lemma forming_ok : events_ok conf forming new_group.
Proof.
  unfold forming. eapply events_cons; [join_by|vm_compute; reflexivity|].
  eapply events_cons; [join_by|vm_compute; reflexivity|].
  eapply events_cons; [by split|vm_compute; reflexivity|].
  eapply events_cons; [by split|vm_compute; reflexivity|done].
Qed.

Lemma formed_sound : sound formed.
Proof. apply (events_sound forming new_group); [apply sound_new|apply forming_ok|vm_compute; reflexivity]. Qed.

Lemma waiting_sound : sound waiting.
Proof.
  apply (events_sound syncing formed); [apply formed_sound| |vm_compute; reflexivity].
  eapply events_cons; [by split|vm_compute; reflexivity|]. eapply events_cons; [by split|vm_compute; reflexivity|done].
Qed.

Lemma settled_sound : sound settled_group.
Proof.
  apply (events_sound [(6100, StoreResult 0 None)] waiting); [apply waiting_sound| |vm_compute; reflexivity].
  eapply events_cons; [by split|vm_compute; reflexivity|done].
Qed.

Lemma collecting_sound_group : sound collecting.
Proof.
  apply (events_sound [(7000, late_join)] settled_group); [apply settled_sound| |vm_compute; reflexivity].
  eapply events_cons; [join_by|vm_compute; reflexivity|done].
Qed.

Lemma returning_sound : sound returning.
Proof.
  apply (events_sound [(7000, static_return)] settled_group); [apply settled_sound| |vm_compute; reflexivity].
  eapply events_cons; [join_by|vm_compute; reflexivity|done].
Qed.


(** The timer that was armed for the first member waits on for the second. *)
Definition arriving : membership := Eval vm_compute in state_after [(0, first_join); (10, static_join)] new_group.
Definition armed : join_callback := Debounce 3000 3000 57000.

Lemma arriving_sound : sound arriving.
Proof.
  apply (events_sound [(0, first_join); (10, static_join)] new_group); [apply sound_new| |vm_compute; reflexivity].
  eapply events_cons; [join_by|vm_compute; reflexivity|]. eapply events_cons; [join_by|vm_compute; reflexivity|done].
Qed.

Lemma join_timer_ends_phase_witness :
  (exists g', join_timer_fired 3000 arriving = Ok g' /\ sound g' /\ debounced armed arriving g') /\
  exists g', join_timer_fired 67000 collecting = Ok g' /\ sound g' /\ completes 67000 collecting g'.
Proof.
  split.
  - exact (join_timer_ends_phase 3000 armed arriving arriving_sound eq_refl eq_refl).
  - exact (join_timer_ends_phase 67000 CompleteJoin collecting collecting_sound_group eq_refl eq_refl).
Defined.

(** What is written by the leader's sync. *)
Definition written : gmap string (list Z) := {["a-1" := [7]; "b-1" := [8]]}.

Definition store_metadata (i : nat) (g : membership) : group_metadata :=
  match mg_stores g !! i with
  | Some (_, md) => md
  | None => {| gm_protocol_type := ""; gm_generation := 0; gm_protocol := None; gm_leader := None; gm_members := [] |}
  end.

Lemma assignments_reach_members_witness :
  mg_state waiting = completing_rebalance /\
  exists g', store_finished conf 6100 None 0 waiting = Ok g' /\ sound g' /\ mg_state g' = stable /\ mg_generation g' = 1 /\
    assigned written waiting g'.
Proof.
  split; [reflexivity|].
  apply (assignments_reach_members conf 6100 0 1 written (store_metadata 0 waiting) waiting waiting_sound);
    [reflexivity|vm_compute; reflexivity|reflexivity].
Defined.

Lemma returning_reverts : revert_ok "b-2" (jg_protocols (request "" (Some "b") ["roundrobin"])) returning.
Proof.
  intros _. split; [discriminate|]. exists "roundrobin"%string. split_and!; [set_solver| |reflexivity].
  destruct (so_protocol _ returning_sound) as (_ & p & Hp & Hcom); [by right|]. vm_compute in Hp. injection Hp as <-.
  intros k x _. apply Hcom.
Qed.

Definition returned : group_member := Eval vm_compute in default (recovered_member (store_metadata 0 returning) 0
  {| ms_id := ""; ms_instance_id := None; ms_client_id := ""; ms_client_host := ""; ms_rebalance_timeout := 0;
     ms_session_timeout := 0; ms_subscription := []; ms_assignment := [] |}) (mg_members returning !! "b-2"%string).

Lemma failed_rejoin_is_fenced_witness :
  mg_state returning = stable /\ m_join_promise returned = Some 4%nat /\
  exists g', store_finished conf 7100 (Some (raft_error raft_errc.timeout)) 0 returning = Ok g' /\ sound g' /\
    mg_answers g' = mg_answers returning ++ [(4%nat, JoinAnswer (make_join_error "b-2" error_code.fenced_instance_id))] /\
    mg_members g' !! "b-2"%string = None /\
    exists m', mg_members g' !! "b-1"%string = Some m' /\ m_object m' = 1%nat /\ m_join_promise m' = None.
Proof.
  split; [reflexivity|]. split; [reflexivity|].
  apply (failed_rejoin_is_fenced conf 7100 (raft_error raft_errc.timeout) 0 1 "b" "b-2" "b-1"
    (jg_protocols (request "" (Some "b") ["roundrobin"])) "client" "host" 10000 60000 (store_metadata 0 returning) 4 returned
    returning returning_sound); [vm_compute; reflexivity|apply returning_reverts|vm_compute; reflexivity|reflexivity].
Defined.

Lemma written_covers id m : mg_members waiting !! id = Some m -> is_Some (written !! id).
Proof.
  intros Hm. assert (Hs := so_stores _ waiting_sound eq_refl). apply Forall_cons in Hs as [Hs _]. exact (Hs eq_refl id m Hm).
Qed.

Lemma recovery_restores_group_witness :
  exists md g', checkpoint written waiting = Ok md /\ recovered_group 9000 md = Ok g' /\ sound g' /\ mg_state g' = stable /\
    mg_generation g' = 1 /\ mg_protocol g' = Some "roundrobin"%string /\ mg_leader g' = Some "a-1"%string /\
    mg_static_members g' = mg_static_members waiting /\ dom (mg_members g') = dom (mg_members waiting) /\
    forall id m, mg_members waiting !! id = Some m ->
      exists m' p, mg_members g' !! id = Some m' /\ mg_protocol waiting = Some p /\ recalled written p m m' /\
        m_expire_timer m' = Some (9000 + m_session_timeout m).
Proof.
  apply (recovery_restores_group 9000 written waiting waiting_sound); [by left|apply written_covers].
Defined.

(** ** What the code does not guard against *)

(** A request that names a protocol twice is counted twice: no protocol is then common to all members, the vote throws, and the
    join phase cannot end. *)
Lemma repeated_protocol_blocks_group :
  run_events conf [(0, Join "a-1" true (request "" None ["range"; "range"])); (3000, JoinTimer)] new_group = Throw out_of_range.
Proof. vm_compute. reflexivity. Qed.

(** A member whose session ends while it waits for its assignment is removed, and its sync request is never answered. *)
Lemma expired_sync_is_dropped :
  exists g, run_events conf [(16000, MemberTimer "b-1")] waiting = Ok g /\ mg_state g = preparing_rebalance /\
    mg_members g !! "b-1"%string = None /\ (m_sync_promise <$> mg_members waiting !! "b-1"%string) = Some (Some 3%nat) /\
    Forall (fun x => x.1 <> 3%nat) (mg_answers g).
Proof. eexists. split; [vm_compute; reflexivity|]. vm_compute. repeat split; repeat constructor; discriminate. Qed.

(** The write of a static member's id fails after the next generation was formed: its assignments name an id that is gone, and
    the members wait although the write of the assignments succeeds. *)
Lemma late_failure_blocks_sync :
  exists g, run_events conf
    [(7000, static_return); (7010, late_join); (7020, Join "-" false (request "a-1" None ["range"; "roundrobin"]));
     (7030, Sync (sync_request "a-1" 2 [])); (7040, StoreResult 0 (Some (raft_error raft_errc.timeout)));
     (7050, StoreResult 0 None)] settled_group = Ok g /\
    mg_state g = completing_rebalance /\ mg_stores g = [] /\
    (is_syncing <$> mg_members g !! "a-1"%string) = Some true.
Proof. eexists. split; [vm_compute; reflexivity|]. vm_compute. done. Qed.

End group_examples.
