(* ===== verification/KeyOffsetMap.v ===== *)
(** * The maps from keys to their latest offsets (compaction/key_offset_map.{h,cc})

    Compaction looks up, for the key of a record, the newest offset at which that key was
    seen.  Two maps serve it: [simple_key_offset_map] keeps whole keys in a tree, and
    [hash_key_offset_map] keeps only the SHA-256 digest of a key, in a table of fixed size.
    The table is probed at the eight 32-bit words of the digest and then linearly; it never
    grows, so that an insertion may be refused.

    [key_offset_map] is the abstract class of the source, [KeyOffsetMapLaws] what its
    implementations promise for the keys in use: each behaves as a finite map with a limit on
    the number of its keys.  Both implementations meet it, so that the users of the class are
    verified once ([Compaction]).

    [sha256] belongs to OpenSSL and is a parameter; [DigestLaws] says what is relied on: it
    gives 32 bytes, and on the keys in use it has no collisions and does not give the
    digest of zeros, which marks a free entry. *)

From S2P Require Import Prelude IobufParser.

(** A default-constructed [model::offset]. *)
Definition no_offset : Z := int64_min.

(** ** The interface *)

Class key_offset_map (M : Type) := {
  put : list Z -> Z -> M -> res (M * bool);
  get : list Z -> M -> res (option Z);
  max_offset : M -> Z;
  map_size : M -> Z;
  map_capacity : M -> Z;
  reset : M -> M;
}.

(** What the class's comments promise, over a finite map [g]. *)
Definition insert_max (k : list Z) (o : Z) (g : gmap (list Z) Z) : gmap (list Z) Z :=
  <[k := from_option (Z.max o) o (g !! k)]> g.

Definition has_room (k : list Z) (capacity : Z) (g : gmap (list Z) Z) : bool :=
  bool_decide (is_Some (g !! k)) || (Z.of_nat (size g) <? capacity).

Definition is_max (g : gmap (list Z) Z) (x : Z) : Prop :=
  no_offset <= x /\ (forall k o, g !! k = Some o -> o <= x) /\
  (x = no_offset \/ exists k, g !! k = Some x).

Class KeyOffsetMapLaws (M : Type) `{key_offset_map M} (K : list Z -> Prop) := {
  models : M -> gmap (list Z) Z -> Prop;
  get_models : forall m g k, models m g -> K k -> get k m = Ok (g !! k);
  put_models : forall m g k o, models m g -> K k -> no_offset <= o ->
    exists m', put k o m = Ok (m', has_room k (map_capacity m) g) /\
      models m' (if has_room k (map_capacity m) g then insert_max k o g else g) /\
      map_capacity m' = map_capacity m;
  max_models : forall m g, models m g -> is_max g (max_offset m);
  size_models : forall m g, models m g -> map_size m = Z.of_nat (size g);
  reset_models : forall m g, models m g -> models (reset m) ∅ /\ map_capacity (reset m) = map_capacity m;
}.

Lemma is_max_empty : is_max ∅ no_offset.
Proof. split; [done|]. split; [by intros k o; rewrite lookup_empty|]. by left. Qed.

Lemma is_max_insert g x k o : is_max g x -> no_offset <= o -> is_max (insert_max k o g) (x `max` o).
Proof.
  intros (Hb & Hm & Hx) Ho. unfold insert_max. split; [lia|]. split.
  - intros k' o'. destruct (decide (k = k')) as [<-|].
    + rewrite lookup_insert_eq. intros [= <-]. destruct (g !! k) as [o'|] eqn:E; cbn; [|lia].
      specialize (Hm _ _ E). lia.
    + rewrite lookup_insert_ne by done. intros E. specialize (Hm _ _ E). lia.
  - destruct (decide (o <= x)) as [Hle|].
    + rewrite Z.max_l by done. destruct Hx as [->|(k' & E)].
      * right. exists k. rewrite lookup_insert_eq. f_equal.
        destruct (g !! k) as [o'|] eqn:E; cbn; [|lia]. specialize (Hm _ _ E). lia.
      * right. destruct (decide (k = k')) as [<-|]; [exists k|exists k'].
        -- rewrite lookup_insert_eq, E. cbn. f_equal. lia.
        -- by rewrite lookup_insert_ne.
    + rewrite Z.max_r by lia. right. exists k. rewrite lookup_insert_eq. f_equal.
      destruct (g !! k) as [o'|] eqn:E; cbn; [|done]. specialize (Hm _ _ E). lia.
Qed.

(** A value that does not exceed the one present changes nothing. *)
Lemma insert_max_old g k o o' : g !! k = Some o' -> o <= o' -> insert_max k o g = g.
Proof. intros E Ho. unfold insert_max. rewrite E. cbn. rewrite Z.max_r by lia. by apply insert_id. Qed.

Lemma size_insert_max g k o :
  Z.of_nat (size (insert_max k o g)) = Z.of_nat (size g) + (if decide (is_Some (g !! k)) then 0 else 1).
Proof.
  unfold insert_max. destruct (g !! k) as [o'|] eqn:E; cbn; destruct (decide _) as [Hd|Hd].
  - rewrite map_size_insert_Some by eauto. lia.
  - destruct Hd. eauto.
  - by destruct Hd.
  - rewrite map_size_insert_None by done. lia.
Qed.

(** ** The map of whole keys *)

Module simple_key_offset_map.

Record t := {
  _map : gmap (list Z) Z;
  _max_offset : Z;
  _max_keys : Z;
}.

Definition default_key_limit : Z := 1000.

Definition make (max_keys : option Z) : t :=
  {| _map := ∅; _max_offset := no_offset; _max_keys := default default_key_limit max_keys |}.

Definition put (key : list Z) (o : Z) (m : t) : res (t * bool) :=
  let done m' := Ok ({| _map := m'; _max_offset := _max_offset m `max` o; _max_keys := _max_keys m |}, true) in
  match _map m !! key with
  | None =>
      if Z.of_nat (size (_map m)) >=? _max_keys m then Ok (m, false)
      else done (<[key := o]> (_map m))
  | Some o' => done (<[key := o `max` o']> (_map m))
  end.

Definition get (key : list Z) (m : t) : res (option Z) := Ok (_map m !! key).

Definition reset (m : t) : t := {| _map := ∅; _max_offset := no_offset; _max_keys := _max_keys m |}.

#[global] Instance simple_map : key_offset_map t := {|
  KeyOffsetMap.put := put; KeyOffsetMap.get := get; KeyOffsetMap.max_offset := _max_offset;
  KeyOffsetMap.map_size m := Z.of_nat (size (_map m)); KeyOffsetMap.map_capacity := _max_keys;
  KeyOffsetMap.reset := reset |}.

Definition simple_models (m : t) (g : gmap (list Z) Z) : Prop := _map m = g /\ is_max g (_max_offset m).

#[global] Instance simple_laws (K : list Z -> Prop) : KeyOffsetMapLaws t K.
Proof.
  refine {| models := simple_models |}; cbn.
  - by intros m g k [<- _].
  - intros m g k o [<- Hm] _ Ho. unfold put, has_room.
    pose proof (is_max_insert _ _ k o Hm Ho) as Hmax. unfold insert_max in *.
    destruct (_map m !! k) as [o'|] eqn:E; cbn in *.
    + eexists. done.
    + destruct (Z.geb_spec (Z.of_nat (size (_map m))) (_max_keys m)) as [H|H].
      * rewrite (proj2 (Z.ltb_ge _ _)) by lia. by exists m.
      * rewrite (proj2 (Z.ltb_lt _ _)) by lia. eexists. done.
  - by intros m g [_ ?].
  - by intros m g [<- _].
  - intros m g _. split; [|done]. split; [done|]. apply is_max_empty.
Defined.

End simple_key_offset_map.

(** ** The table of digests *)

Module hash_key_offset_map.

Definition digest_size : nat := 32.

Record entry := { digest : list Z; offset : Z }.

Definition zero_digest : list Z := replicate digest_size 0.
Definition empty_entry : entry := {| digest := zero_digest; offset := no_offset |}.

(** [entry::empty]. *)
Definition entry_empty (e : entry) : bool := bool_decide (digest e = zero_digest).

Record t := {
  entries_ : list entry;
  size_ : Z;
  max_offset_ : Z;
  capacity_ : Z;
  search_count_ : Z;
  probe_count_ : Z;
}.

Definition default_map : t :=
  {| entries_ := []; size_ := 0; max_offset_ := no_offset; capacity_ := 0; search_count_ := 0; probe_count_ := 0 |}.

Definition count_search (m : t) : t :=
  {| entries_ := entries_ m; size_ := size_ m; max_offset_ := max_offset_ m; capacity_ := capacity_ m;
     search_count_ := u64 (search_count_ m + 1); probe_count_ := probe_count_ m |}.
Definition count_probe (m : t) : t :=
  {| entries_ := entries_ m; size_ := size_ m; max_offset_ := max_offset_ m; capacity_ := capacity_ m;
     search_count_ := search_count_ m; probe_count_ := u64 (probe_count_ m + 1) |}.
Definition set_entry (slot : nat) (e : entry) (size max : Z) (m : t) : t :=
  {| entries_ := <[slot := e]> (entries_ m); size_ := size; max_offset_ := max; capacity_ := capacity_ m;
     search_count_ := search_count_ m; probe_count_ := probe_count_ m |}.

(** [probe::next]: the next word of the digest, and the bytes after it. *)
Definition probe_next (iter : list Z) : option (Z * list Z) :=
  if blen iter <? 4 then None else Some (le_value (btake 4 iter), bdrop 4 iter).

(** The entry at a probe position; the remainder by a table of no entries is undefined. *)
Definition normalize (index : Z) (m : t) : res (nat * entry) :=
  _ ← vassert (negb (blen (entries_ m) =? 0));
  let slot := Z.to_nat (index mod blen (entries_ m)) in
  e ← deref (entries_ m !! slot);
  Ok (slot, e).

(** The two lambdas [handle_entry]; [Some] stops the search. *)
Definition get_handle_entry (hash : list Z) (index : Z) (m : t) : res (t * option (option Z)) :=
  let m := count_probe m in
  '(_, e) ← normalize index m;
  if entry_empty e then Ok (m, Some None)
  else if bool_decide (digest e = hash) then Ok (m, Some (Some (offset e)))
  else Ok (m, None).

Inductive handle := inserted | not_inserted | not_inserted_full.

Definition put_handle_entry (hash : list Z) (o : Z) (full : bool) (index : Z) (m : t) : res (t * handle) :=
  let m := count_probe m in
  '(slot, e) ← normalize index m;
  if entry_empty e then
    if full then Ok (m, not_inserted_full)
    else Ok (set_entry slot {| digest := hash; offset := o |} (u64 (size_ m + 1)) (max_offset_ m `max` o) m, inserted)
  else if bool_decide (digest e = hash) then
    if o >? offset e
    then Ok (set_entry slot {| digest := digest e; offset := o |} (size_ m) (max_offset_ m `max` o) m, inserted)
    else Ok (m, inserted)
  else Ok (m, not_inserted).

Definition put_step (hash : list Z) (o : Z) (full : bool) (index : Z) (m : t) : res (t * option bool) :=
  '(m, h) ← put_handle_entry hash o full index m;
  Ok (m, match h with inserted => Some true | not_inserted_full => Some false | not_inserted => None end).

Section search.
Context {A : Type} (f : Z -> t -> res (t * option A)).

(** The loop over the words of the digest: an answer, or the last word tried. *)
Fixpoint probe_loop (fuel : nat) (index : Z) (iter : list Z) (m : t) : res (t * (A + Z)) :=
  match fuel with
  | O => Crash
  | S fuel =>
      '(m, r) ← f index m;
      match r with
      | Some a => Ok (m, inl a)
      | None =>
          match probe_next iter with
          | Some (index, iter) => probe_loop fuel index iter m
          | None => Ok (m, inr index)
          end
      end
  end.

(** The linear probe, with [n] entries still to look at. *)
Fixpoint linear_loop (n : nat) (linear_base probe : Z) (m : t) : res (t * option A) :=
  match n with
  | O => Ok (m, None)
  | S n =>
      '(m, r) ← f (u64 (linear_base + probe)) m;
      match r with
      | Some a => Ok (m, Some a)
      | None => linear_loop n linear_base (probe + 1) m
      end
  end.

Definition search (hash : list Z) (m : t) : res (t * option A) :=
  let m := count_search m in
  match probe_next hash with
  | Some (index, iter) =>
      '(m, r) ← probe_loop (length hash) index iter m;
      match r with
      | inl a => Ok (m, Some a)
      | inr index => linear_loop (length (entries_ m)) index 0 m
      end
  | None => linear_loop (length (entries_ m)) 0 0 m
  end.
End search.

Section operations.
Variable sha256 : list Z -> list Z.

Definition hash_key (key : list Z) : list Z := sha256 key.

(** [get], with the counters it updates. *)
Definition get_counted (key : list Z) (m : t) : res (t * option Z) :=
  '(m, r) ← search (get_handle_entry (hash_key key)) (hash_key key) m;
  Ok (m, default None r).

Definition put (key : list Z) (o : Z) (m : t) : res (t * bool) :=
  let hash := hash_key key in
  let full := size_ m >=? capacity_ m in
  '(m, r) ← search (put_step hash o full) hash m;
  Ok (m, default false r).

Definition reset (m : t) : t :=
  {| entries_ := replicate (length (entries_ m)) empty_entry; size_ := 0; max_offset_ := no_offset;
     capacity_ := capacity_ m; search_count_ := 0; probe_count_ := 0 |}.

(** The counters only serve the hit rate: they are not part of what the class promises. *)
Definition hash_map : key_offset_map t := {|
  KeyOffsetMap.put := put;
  KeyOffsetMap.get k m := snd <$> get_counted k m;
  KeyOffsetMap.max_offset := max_offset_;
  KeyOffsetMap.map_size := size_;
  KeyOffsetMap.map_capacity := capacity_;
  KeyOffsetMap.reset := reset |}.
End operations.

(** *** Sizing the table *)

(** The shape of the [chunked_vector] of entries: its size, the number of its fragments and its
    capacity (container/chunked_vector.h).  An entry takes 40 bytes, so that a fragment of at most 128 KiB
    holds 2048, and a fragment's vector takes 24. *)
Record vector_shape := { v_size : Z; v_frags : Z; v_capacity : Z }.

Definition sizeof_entry : Z := 40.
Definition elements_per_fragment : Z := 2 ^ Z.log2 (128 * 1024 / sizeof_entry).

Definition memory_size (v : vector_shape) : Z := v_frags v * 24 + v_capacity v * sizeof_entry.

Definition add_capacity (v : vector_shape) : vector_shape :=
  if (v_frags v =? 1) && (v_capacity v <? elements_per_fragment)
  then {| v_size := v_size v; v_frags := v_frags v;
          v_capacity := elements_per_fragment `min` (v_capacity v * 2) |}
  else if v_frags v =? 0
  then {| v_size := v_size v; v_frags := 1; v_capacity := 1 `max` (32 / sizeof_entry) |}
  else {| v_size := v_size v; v_frags := v_frags v + 1; v_capacity := v_capacity v + elements_per_fragment |}.

Definition push_back (v : vector_shape) : vector_shape :=
  let v := if v_size v =? v_capacity v then add_capacity v else v in
  {| v_size := v_size v + 1; v_frags := v_frags v; v_capacity := v_capacity v |}.

Fixpoint grow_loop (fuel : nat) (size_bytes : Z) (v : vector_shape) : option vector_shape :=
  if memory_size v <? size_bytes then
    match fuel with
    | O => None
    | S fuel =>
        let required_size := size_bytes - memory_size v in
        let required_entries := (required_size / sizeof_entry) `max` 1 in
        let num_elements := required_entries `min` elements_per_fragment in
        grow_loop fuel size_bytes (Nat.iter (Z.to_nat num_elements) push_back v)
    end
  else Some v.

(** [static_cast<size_t>(static_cast<double>(n) * 0.95)]: 0.95 is the double
    [max_load_factor / 2^53], and the product is rounded to 53 bits, to nearest and ties to even. *)
Definition max_load_factor : Z := 8556839292003942.

Definition round_even (p s : Z) : Z :=
  let q := p / 2 ^ s in
  let r := p mod 2 ^ s in
  if (2 * r <? 2 ^ s) || ((2 * r =? 2 ^ s) && Z.even q) then q else q + 1.

Definition load_limit (n : Z) : Z :=
  let p := n * max_load_factor in
  let s := 0 `max` (Z.log2 p + 1 - 53) in
  round_even p s * 2 ^ s / 2 ^ 53.

(** [initialize]: nothing is kept of the map it is called on.  [None] stands for a loop that has not ended
    within the fuel, which does not happen ([initialize_total]). *)
Definition initialize (size_bytes : Z) : option t :=
  v ← grow_loop (Z.to_nat size_bytes) size_bytes {| v_size := 0; v_frags := 0; v_capacity := 0 |};
  Some {| entries_ := replicate (Z.to_nat (v_size v)) empty_entry; size_ := 0; max_offset_ := no_offset;
          capacity_ := if v_size v >? 0 then 1 `max` load_limit (v_size v) else 0;
          search_count_ := 0; probe_count_ := 0 |}.

Example load_limits : load_limit <$> [1; 2; 19; 20; 21; 100; 2048; 3355443] = [0; 1; 18; 19; 19; 95; 1945; 3187670].
Proof. reflexivity. Qed.


Example small_tables :
  (fun b => match initialize b with Some m => (length (entries_ m), capacity_ m) | None => (0%nat, -1) end)
    <$> [0; 1; 100; 1000; 100000]
  = [(0%nat, 0); (1%nat, 1); (2%nat, 1); (25%nat, 23); (2499%nat, 2374)].
Proof. reflexivity. Qed.

Record shape_ok (v : vector_shape) : Prop := {
  sh_size : 0 <= v_size v <= v_capacity v;
  sh_none : v_frags v = 0 -> v_capacity v = 0;
  sh_some : v_frags v <> 0 -> 0 < v_frags v /\ 0 < v_size v;
}.

Lemma push_back_ok v : shape_ok v -> shape_ok (push_back v) /\ v_size (push_back v) = v_size v + 1.
Proof.
  intros [Hs Hn Hp].
  assert (Hadd : let v' := add_capacity v in
    v_size v' = v_size v /\ v_capacity v < v_capacity v' /\ 0 < v_frags v').
  { unfold add_capacity, elements_per_fragment, sizeof_entry.
    change (2 ^ Z.log2 (128 * 1024 / 40)) with 2048. change (1 `max` (32 / 40)) with 1.
    destruct (Z.eqb_spec (v_frags v) 1), (Z.ltb_spec (v_capacity v) 2048);
      destruct (Z.eqb_spec (v_frags v) 0); cbn [andb v_size v_capacity v_frags]; lia. }
  cbv zeta in Hadd. unfold push_back. generalize dependent (add_capacity v). intros v' Hadd.
  destruct (Z.eqb_spec (v_size v) (v_capacity v)); (split; [split; cbn; lia|cbn; lia]).
Qed.

Lemma push_many_ok n v : shape_ok v ->
  shape_ok (Nat.iter n push_back v) /\ v_size (Nat.iter n push_back v) = v_size v + Z.of_nat n.
Proof.
  intros Hv. induction n as [|n [IH Hsz]]; [split; [done|cbn; lia]|]. 
  change (Nat.iter (S n) push_back v) with (push_back (Nat.iter n push_back v)).
  destruct (push_back_ok _ IH) as [? ->]. split; [done|]. lia.
Qed.

Lemma memory_covers v : shape_ok v -> 40 * v_size v <= memory_size v.
Proof. intros [Hs Hn Hp]. unfold memory_size, sizeof_entry. lia. Qed.

Lemma grow_loop_total fuel bytes v : shape_ok v -> bytes <= v_size v + Z.of_nat fuel ->
  v_size v <= bytes ->
  exists v', grow_loop fuel bytes v = Some v' /\ shape_ok v' /\ bytes <= memory_size v' /\ v_size v' <= bytes.
Proof.
  revert v. induction fuel as [|fuel IH]; intros v Hv Hb Hle; pose proof (memory_covers _ Hv); cbn [grow_loop].
  - destruct (Z.ltb_spec (memory_size v) bytes); [pose proof (sh_size _ Hv); lia|]. by exists v.
  - destruct (Z.ltb_spec (memory_size v) bytes); [|by exists v].
    set (n := Z.to_nat _).
    assert (1 <= Z.of_nat n <= ((bytes - memory_size v) / 40) `max` 1).
    { unfold n, elements_per_fragment, sizeof_entry. change (2 ^ Z.log2 (128 * 1024 / 40)) with 2048. lia. }
    destruct (push_many_ok n v Hv) as [? ?]. apply IH; [done|lia|].
    pose proof (Z.mul_div_le (bytes - memory_size v) 40). pose proof (sh_size _ Hv). lia.
Qed.

(** The table is never expected to fill up beyond its entries. *)
Lemma load_limit_le n : 0 <= n -> 0 <= load_limit n <= n.
Proof.
  intros H0. unfold load_limit. set (p := n * max_load_factor). set (s := 0 `max` (Z.log2 p + 1 - 53)).
  assert (Hp : 0 <= p) by (unfold p, max_load_factor; lia).
  assert (Hs : 0 <= s) by lia. assert (H2 : 0 < 2 ^ s) by lia.
  assert (Hr : 0 <= round_even p s * 2 ^ s <= p + 2 ^ s / 2).
  { unfold round_even. pose proof (Z.div_mod p (2 ^ s) ltac:(lia)). pose proof (Z.mod_pos_bound p (2 ^ s) H2).
    pose proof (Z.div_pos p (2 ^ s) Hp H2). pose proof (Z.div_mod (2 ^ s) 2 ltac:(lia)).
    pose proof (Z.mod_pos_bound (2 ^ s) 2 ltac:(lia)).
    destruct (Z.ltb_spec (2 * (p mod 2 ^ s)) (2 ^ s)); cbn; [nia|].
    destruct (Z.eqb_spec (2 * (p mod 2 ^ s)) (2 ^ s)); cbn; [destruct (Z.even _)|]; nia. }
  assert (Hh : 2 ^ s / 2 <= n).
  { destruct (decide (s = 0)) as [E|]; [rewrite E; change (2 ^ 0 / 2) with 0; done|].
    assert (Hlog : Z.log2 p = (s - 1) + 53) by (unfold s in *; lia).
    assert (0 < p) by (destruct (decide (p = 0)) as [E|]; [rewrite E in Hlog; cbn in Hlog|]; lia).
    pose proof (Z.log2_spec p ltac:(lia)) as [Hl _]. rewrite Hlog, Z.pow_add_r in Hl by lia.
    assert (Hs2 : 2 ^ s = 2 ^ (s - 1) * 2) by (change 2 with (2 ^ 1) at 3; rewrite <- Z.pow_add_r by lia; f_equal; lia).
    rewrite Hs2.
    rewrite Z.div_mul by lia. unfold p, max_load_factor in Hl. pow2s. nia. }
  split; [apply Z.div_pos; lia|]. apply Z.div_le_upper_bound; [lia|].
  unfold p, max_load_factor in *. pow2s. nia.
Qed.

Lemma initialize_total size_bytes : 0 <= size_bytes -> exists m, initialize size_bytes = Some m /\
  entries_ m = replicate (length (entries_ m)) empty_entry /\ size_ m = 0 /\ max_offset_ m = no_offset /\
  capacity_ m <= blen (entries_ m) <= size_bytes /\ (0 < size_bytes -> 1 <= capacity_ m).
Proof.
  intros Hb. unfold initialize.
  destruct (grow_loop_total (Z.to_nat size_bytes) size_bytes {| v_size := 0; v_frags := 0; v_capacity := 0 |})
    as (v & -> & Hv & Hm & Hle); [by split; cbn; lia|cbn; lia|cbn; lia|].
  eexists. split; [done|]. pose proof (load_limit_le (v_size v)). destruct Hv as [Hs Hn Hp].
  cbn. rewrite length_replicate. unfold blen. rewrite length_replicate. repeat split.
  - destruct (Z.gtb_spec (v_size v) 0); lia.
  - lia.
  - intros ?. destruct (Z.gtb_spec (v_size v) 0); [lia|]. unfold memory_size, sizeof_entry in Hm. lia.
Qed.

(** *** The positions a digest is looked for at *)

Fixpoint words (fuel : nat) (iter : list Z) : list Z :=
  match fuel with
  | O => []
  | S fuel => match probe_next iter with Some (i, iter) => i :: words fuel iter | None => [] end
  end.

Definition linear_path (n : nat) (base probe : Z) : list Z :=
  (fun j => u64 (base + (probe + Z.of_nat j))) <$> seq 0 n.

Definition path (n : nat) (hash : list Z) : list Z :=
  let ws := words (length hash) hash in ws ++ linear_path n (default 0 (last ws)) 0.

Lemma linear_path_S n base probe :
  linear_path (S n) base probe = u64 (base + probe) :: linear_path n base (probe + 1).
Proof.
  unfold linear_path. cbn. rewrite Z.add_0_r. f_equal. rewrite <- seq_shift, <- list_fmap_compose.
  apply list_fmap_ext. intros i j _. cbn. do 2 f_equal. lia.
Qed.

Lemma probe_next_Some iter i rest : probe_next iter = Some (i, rest) -> length iter = (4 + length rest)%nat.
Proof.
  unfold probe_next. destruct (Z.ltb_spec (blen iter) 4) as [|H]; [done|]. intros [= _ <-].
  unfold bdrop, blen in *. rewrite length_drop. lia.
Qed.

Lemma words_fuel n m iter : (length iter <= n)%nat -> (length iter <= m)%nat -> words n iter = words m iter.
Proof.
  revert m iter. induction n as [|n IH]; intros m iter Hn Hm.
  - destruct iter; [|cbn in *; lia]. by destruct m.
  - destruct m as [|m]; [by destruct iter; [|cbn in *; lia]|]. cbn [words].
    destruct (probe_next iter) as [[i rest]|] eqn:E; [|done].
    apply probe_next_Some in E. f_equal. apply IH; lia.
Qed.

Lemma default_last {A} (d x : A) l : default d (last (x :: l)) = default x (last l).
Proof. rewrite last_cons. by destruct (last l). Qed.

(** A search tries the positions in turn until one answers. *)
Fixpoint walk {A} (f : Z -> t -> res (t * option A)) (p : list Z) (m : t) : res (t * option A) :=
  match p with
  | [] => Ok (m, None)
  | i :: p => '(m, r) ← f i m; match r with Some a => Ok (m, Some a) | None => walk f p m end
  end.

Lemma linear_loop_walk {A} (f : Z -> t -> res (t * option A)) n base probe m :
  linear_loop f n base probe m = walk f (linear_path n base probe) m.
Proof.
  revert probe m. induction n as [|n IH]; intros probe m; [done|]. rewrite linear_path_S.
  cbn [linear_loop walk]. destruct (f _ m) as [[m' [a|]]|e|]; cbn [mbind res_bind]; [done| |done|done]. apply IH.
Qed.

(** A step that keeps the length of the table. *)
Definition keeps_length {A} (f : Z -> t -> res (t * option A)) : Prop :=
  forall i m m' r, f i m = Ok (m', r) -> length (entries_ m') = length (entries_ m).

Lemma probe_loop_walk {A} (f : Z -> t -> res (t * option A)) fuel i iter m : keeps_length f ->
  (length iter < fuel)%nat ->
  ('(m', r) ← probe_loop f fuel i iter m;
   match r with inl a => Ok (m', Some a) | inr i => linear_loop f (length (entries_ m')) i 0 m' end)
  = walk f ((i :: words fuel iter) ++ linear_path (length (entries_ m)) (default i (last (words fuel iter))) 0) m.
Proof.
  intros Hf. revert i iter m. induction fuel as [|fuel IH]; intros i iter m Hfuel; [lia|].
  cbn [probe_loop words app walk]. destruct (f i m) as [[m' [a|]]|e|] eqn:E; cbn [mbind res_bind]; [done| |done|done].
  rewrite <- (Hf _ _ _ _ E). destruct (probe_next iter) as [[i' rest]|] eqn:En.
  - apply probe_next_Some in En. rewrite IH by lia.
    by rewrite default_last.
  - cbn [app last default]. apply linear_loop_walk.
Qed.

Lemma search_walk {A} (f : Z -> t -> res (t * option A)) hash m : keeps_length f ->
  search f hash m = walk f (path (length (entries_ m)) hash) (count_search m).
Proof.
  intros Hf. unfold search, path. destruct (probe_next hash) as [[i iter]|] eqn:E.
  - pose proof (probe_next_Some _ _ _ E). rewrite probe_loop_walk by (done || lia).
    assert (words (length hash) hash = i :: words (length hash) iter) as ->.
    { destruct (length hash) as [|n]; [lia|]. transitivity (i :: words n iter); [cbn [words]; by rewrite E|].
      f_equal. apply words_fuel; lia. }
    by rewrite default_last.
  - rewrite linear_loop_walk. destruct (length hash); cbn [words]; rewrite ?E; done.
Qed.

(** *** What a search finds *)

Definition home_slot (es : list entry) (i : Z) : nat := Z.to_nat (i mod blen es).

(** The first free entry or entry of the digest, along a path. *)
Fixpoint find_slot (es : list entry) (h : list Z) (p : list Z) : option (nat * entry) :=
  match p with
  | [] => None
  | i :: p =>
      match es !! home_slot es i with
      | Some e => if entry_empty e || bool_decide (digest e = h) then Some (home_slot es i, e) else find_slot es h p
      | None => None
      end
  end.

Definition same_table (m m' : t) : Prop :=
  entries_ m' = entries_ m /\ size_ m' = size_ m /\ max_offset_ m' = max_offset_ m /\ capacity_ m' = capacity_ m.

Lemma slot_lookup es i : es <> [] -> exists e, es !! home_slot es i = Some e.
Proof.
  intros Hes. apply lookup_lt_is_Some. unfold home_slot.
  assert (0 < blen es) by (destruct es; [done|unfold blen; cbn; lia]).
  pose proof (Z.mod_pos_bound i (blen es) ltac:(lia)). unfold blen in *. lia.
Qed.

Lemma normalize_ok i m e : entries_ m !! home_slot (entries_ m) i = Some e ->
  normalize i m = Ok (home_slot (entries_ m) i, e).
Proof.
  intros He. unfold normalize, home_slot in *.
  assert (blen (entries_ m) <> 0).
  { intros H0. unfold blen in H0. destruct (entries_ m); [done|cbn in H0; lia]. }
  rewrite (proj2 (Z.eqb_neq _ _)) by done. cbn [negb vassert mbind res_bind]. by rewrite He.
Qed.

Lemma get_keeps_length h : keeps_length (get_handle_entry h).
Proof.
  intros i m m' r. unfold get_handle_entry. destruct (normalize i _) as [[n e]|ex|]; cbn; [|done|done].
  repeat case_match; naive_solver.
Qed.

Lemma put_keeps_length h o full : keeps_length (put_step h o full).
Proof.
  intros i m m' r. unfold put_step, put_handle_entry. destruct (normalize i _) as [[n e]|ex|]; cbn; [|done|done].
  repeat case_match; naive_solver (rewrite ?length_insert; done).
Qed.

Lemma walk_get h p m : entries_ m <> [] -> exists m', walk (get_handle_entry h) p m
  = Ok (m', (fun '(_, e) => if entry_empty e then None else Some (offset e)) <$> find_slot (entries_ m) h p).
Proof.
  revert m. induction p as [|i p IH]; intros m Hm; cbn [walk find_slot]; [by exists m|].
  destruct (slot_lookup _ i Hm) as (e & He). rewrite He.
  unfold get_handle_entry. rewrite (normalize_ok i (count_probe m) e He). cbn [mbind res_bind].
  destruct (entry_empty e) eqn:Ee; cbn [orb].
  { exists (count_probe m). cbn. by rewrite Ee. }
  case_bool_decide; [exists (count_probe m); cbn; by rewrite Ee|]. exact (IH (count_probe m) Hm).
Qed.

(** The table after an insertion that ends at an entry. *)
Definition put_at (h : list Z) (o : Z) (full : bool) (r : option (nat * entry)) (m : t) : t * option bool :=
  match r with
  | None => (m, None)
  | Some (s, e) =>
      if entry_empty e then
        if full then (m, Some false)
        else (set_entry s {| digest := h; offset := o |} (u64 (size_ m + 1)) (max_offset_ m `max` o) m, Some true)
      else if o >? offset e
      then (set_entry s {| digest := digest e; offset := o |} (size_ m) (max_offset_ m `max` o) m, Some true)
      else (m, Some true)
  end.

Lemma walk_put h o full p m : entries_ m <> [] -> exists m', same_table m m' /\
  walk (put_step h o full) p m = Ok (put_at h o full (find_slot (entries_ m) h p) m').
Proof.
  revert m. induction p as [|i p IH]; intros m Hm; cbn [walk find_slot]; [by exists m|].
  destruct (slot_lookup _ i Hm) as (e & He). rewrite He.
  unfold put_step, put_handle_entry. rewrite (normalize_ok i (count_probe m) e He). cbn [mbind res_bind].
  destruct (entry_empty e) eqn:Ee; cbn [orb].
  { exists (count_probe m). split; [done|]. cbn [put_at]. rewrite Ee. by destruct full. }
  case_bool_decide.
  - exists (count_probe m). split; [done|]. cbn [put_at]. rewrite Ee. by destruct (_ >? _).
  - destruct (IH (count_probe m) Hm) as (m' & Hs & Hw). by exists m'.
Qed.

Lemma find_slot_Some es h p s e : find_slot es h p = Some (s, e) ->
  es !! s = Some e /\ (entry_empty e = true \/ digest e = h).
Proof.
  induction p as [|i p IH]; cbn; [done|]. destruct (es !! home_slot es i) as [e'|] eqn:E; [|done].
  destruct (entry_empty e') eqn:Ee; cbn; [intros [= <- <-]; eauto|].
  case_bool_decide; [intros [= <- <-]; eauto|]. apply IH.
Qed.

(** A free entry on the path ends every search. *)
Lemma find_slot_free es h p i e : es <> [] -> i ∈ p -> es !! home_slot es i = Some e -> entry_empty e = true ->
  is_Some (find_slot es h p).
Proof.
  intros Hes Hi He Hf. induction p as [|j p IH]; [by apply elem_of_nil in Hi|]. cbn.
  destruct (slot_lookup es j Hes) as (e' & He'). rewrite He'.
  destruct (entry_empty e' || bool_decide (digest e' = h)) eqn:E; [eauto|].
  apply elem_of_cons in Hi as [->|Hi]; [|by apply IH].
  rewrite He in He'. injection He' as <-. by rewrite Hf in E.
Qed.

(** Filling a free entry does not move the entries that were found past it. *)
Lemma find_slot_insert es h p s e s' e' e0 : find_slot es h p = Some (s, e) -> entry_empty e = false ->
  es !! s' = Some e0 -> entry_empty e0 = true -> find_slot (<[s' := e']> es) h p = Some (s, e).
Proof.
  intros Hf He H0 He0. revert Hf. induction p as [|i p IH]; cbn; [done|].
  assert (Hsl : home_slot (<[s' := e']> es) i = home_slot es i) by (unfold home_slot, blen; by rewrite length_insert).
  rewrite Hsl. destruct (decide (s' = home_slot es i)) as [->|Hne].
  - rewrite H0, He0. cbn. intros [= -> ->]. congruence.
  - rewrite list_lookup_insert_ne by done. destruct (es !! home_slot es i); [|done].
    destruct (entry_empty _ || _); [done|apply IH].
Qed.

(** Nor does replacing an entry by one of the same digest. *)
Lemma find_slot_update es h p s e s' e0 e' : find_slot es h p = Some (s, e) ->
  es !! s' = Some e0 -> digest e' = digest e0 ->
  find_slot (<[s' := e']> es) h p = Some (s, if decide (s = s') then e' else e).
Proof.
  intros Hf H0 Hd. revert Hf. induction p as [|i p IH]; cbn; [done|].
  assert (Hsl : home_slot (<[s' := e']> es) i = home_slot es i) by (unfold home_slot, blen; by rewrite length_insert).
  rewrite Hsl. destruct (decide (s' = home_slot es i)) as [->|Hne].
  - rewrite H0. rewrite list_lookup_insert_eq by (by eapply lookup_lt_Some).
    assert (entry_empty e' = entry_empty e0) as -> by (unfold entry_empty; by rewrite Hd). rewrite Hd.
    destruct (entry_empty _ || _); [intros [= <- <-]; by rewrite decide_True|apply IH].
  - rewrite list_lookup_insert_ne by done. destruct (es !! home_slot es i); [|done].
    destruct (entry_empty _ || _); [intros [= <- <-]; by rewrite decide_False|apply IH].
Qed.

(** A digest is found where it was put. *)
Lemma find_slot_fill es h p s e e' : find_slot es h p = Some (s, e) -> entry_empty e = true ->
  digest e' = h -> find_slot (<[s := e']> es) h p = Some (s, e').
Proof.
  intros Hf He Hd. pose proof (proj1 (find_slot_Some _ _ _ _ _ Hf)) as Hs.
  revert Hf. induction p as [|i p IH]; cbn; [done|].
  assert (Hsl : home_slot (<[s := e']> es) i = home_slot es i) by (unfold home_slot, blen; by rewrite length_insert).
  rewrite Hsl. destruct (decide (s = home_slot es i)) as [->|Hne].
  - intros _. rewrite list_lookup_insert_eq by (by eapply lookup_lt_Some).
    by rewrite Hd, bool_decide_true, orb_true_r.
  - rewrite list_lookup_insert_ne by done. destruct (es !! home_slot es i); [|done].
    destruct (entry_empty _ || _); [intros [= <- _]; done|apply IH].
Qed.

(** *** The table as a finite map *)

Class DigestLaws (sha256 : list Z -> list Z) (K : list Z -> Prop) : Prop := {
  digest_bytes : forall k, K k -> Forall (is_u 8) (sha256 k);
  digest_nonzero : forall k, K k -> sha256 k <> zero_digest;
  digest_inj : forall k1 k2, K k1 -> K k2 -> sha256 k1 = sha256 k2 -> k1 = k2;
}.

Section table.
Context (sha256 : list Z -> list Z) (K : list Z -> Prop) `{!DigestLaws sha256 K}.

Record table_ok (m : t) (g : gmap (list Z) Z) : Prop := {
  tb_entries : entries_ m <> [];
  tb_bound : blen (entries_ m) < 2 ^ 62;
  tb_occupied : forall s e, entries_ m !! s = Some e -> entry_empty e = false ->
    exists k, K k /\ digest e = sha256 k /\ g !! k = Some (offset e);
  tb_stored : forall k o, g !! k = Some o ->
    K k /\ exists s e, entries_ m !! s = Some e /\ digest e = sha256 k /\ offset e = o;
  tb_found : forall s e, entries_ m !! s = Some e -> entry_empty e = false ->
    find_slot (entries_ m) (digest e) (path (length (entries_ m)) (digest e)) = Some (s, e);
  tb_size : size_ m = Z.of_nat (size g);
  tb_capacity : capacity_ m <= blen (entries_ m);
  tb_max : is_max g (max_offset_ m);
}.

Definition lookup_slot (k : list Z) (m : t) : option (nat * entry) :=
  find_slot (entries_ m) (sha256 k) (path (length (entries_ m)) (sha256 k)).

Lemma word_range iter n : Forall (is_u 8) iter -> Forall (is_u 32) (words n iter).
Proof.
  revert iter. induction n as [|n IH]; intros iter Hb; cbn; [constructor|].
  destruct (probe_next iter) as [[i rest]|] eqn:E; [|constructor]. unfold probe_next in E.
  destruct (Z.ltb_spec (blen iter) 4) as [|H4]; [done|]. injection E as <- <-. constructor; [|by apply IH, Forall_drop].
  destruct iter as [|a [|b [|c [|d iter]]]]; unfold blen in H4; cbn [length] in H4; try lia.
  repeat (apply Forall_cons in Hb as [? Hb]). change (btake 4 _) with [a; b; c; d]. cbn [le_value]. ranges.
Qed.

(** The linear probe reaches every entry. *)
Lemma path_covers es h s : Forall (is_u 8) h -> (s < length es)%nat -> blen es < 2 ^ 62 ->
  exists i, i ∈ path (length es) h /\ home_slot es i = s.
Proof.
  intros Hh Hs Hn. unfold path. set (ws := words (length h) h).
  assert (Hb : is_u 32 (default 0 (last ws))).
  { destruct (last ws) as [w|] eqn:E; [|cbn; ranges]. cbn. apply last_Some in E as [l Hl].
    pose proof (word_range h (length h) Hh) as Hw. fold ws in Hw. rewrite Hl, Forall_app in Hw.
    by destruct Hw as [_ [? _]%Forall_cons]. }
  set (b := default 0 (last ws)) in *. set (j := Z.to_nat ((Z.of_nat s - b) mod blen es)).
  assert (Hpos : 0 < blen es) by (unfold blen; lia).
  pose proof (Z.mod_pos_bound (Z.of_nat s - b) (blen es) Hpos) as Hj.
  exists (u64 (b + (0 + Z.of_nat j))). split.
  - apply elem_of_app. right. unfold linear_path.
    apply (list_elem_of_fmap_2 (fun j => u64 (b + (0 + Z.of_nat j)))). apply elem_of_seq. unfold j, blen in *. lia.
  - unfold home_slot, j. rewrite Z2Nat.id, Z.add_0_l by lia. rewrite uwrap_id by (ranges).
    rewrite Z.add_mod_idemp_r by lia. replace (b + (Z.of_nat s - b)) with (Z.of_nat s) by lia.
    rewrite Z.mod_small by (unfold blen; lia). lia.
Qed.

Lemma key_not_free k e : K k -> digest e = sha256 k -> entry_empty e = false.
Proof. intros Hk He. unfold entry_empty. apply bool_decide_false. rewrite He. by apply digest_nonzero. Qed.

Lemma lookup_stored m g k o : table_ok m g -> g !! k = Some o ->
  exists s e, lookup_slot k m = Some (s, e) /\ digest e = sha256 k /\ offset e = o /\ entry_empty e = false.
Proof.
  intros Hm Hg. destruct (tb_stored _ _ Hm _ _ Hg) as (Hk & s & e & Hs & Hd & Ho).
  pose proof (key_not_free k e Hk Hd) as He. exists s, e. unfold lookup_slot.
  rewrite <- Hd. split; [by apply (tb_found _ _ Hm)|done].
Qed.

Lemma lookup_absent m g k s e : table_ok m g -> K k -> g !! k = None -> lookup_slot k m = Some (s, e) ->
  entry_empty e = true.
Proof.
  intros Hm Hk Hg Hl. destruct (entry_empty e) eqn:Ee; [done|exfalso].
  apply find_slot_Some in Hl as [Hs [|Hd]]; [congruence|].
  destruct (tb_occupied _ _ Hm _ _ Hs Ee) as (k' & Hk' & Hd' & Hg').
  assert (k' = k) as -> by (apply digest_inj; congruence). congruence.
Qed.

(** Digests are stored once. *)
Lemma digests_NoDup m g : table_ok m g -> (forall s e, entries_ m !! s = Some e -> entry_empty e = false) ->
  NoDup (digest <$> entries_ m).
Proof.
  intros Hm Hfull. apply NoDup_alt. intros i j d Hi Hj.
  apply list_lookup_fmap_Some in Hi as (e & -> & Hi). apply list_lookup_fmap_Some in Hj as (e' & Hd & Hj).
  pose proof (tb_found _ _ Hm _ _ Hi (Hfull _ _ Hi)) as Fi. pose proof (tb_found _ _ Hm _ _ Hj (Hfull _ _ Hj)) as Fj.
  rewrite Hd in Fi. rewrite Fi in Fj. congruence.
Qed.

Lemma some_free m g : table_ok m g -> Z.of_nat (size g) < blen (entries_ m) ->
  exists s e, entries_ m !! s = Some e /\ entry_empty e = true.
Proof.
  intros Hm Hlt. destruct (decide (Exists (fun e => entry_empty e = true) (entries_ m))) as [Hex|Hno].
  { apply Exists_exists in Hex as (e & Hin & He). apply list_elem_of_lookup in Hin as [s Hs]. by exists s, e. }
  exfalso.
  assert (Hfull : forall s e, entries_ m !! s = Some e -> entry_empty e = false).
  { intros s e Hs. destruct (entry_empty e) eqn:Ee; [|done]. exfalso. apply Hno. apply Exists_exists.
    exists e. split; [by eapply list_elem_of_lookup_2|done]. }
  pose proof (digests_NoDup m g Hm Hfull) as Hnd.
  assert (Hsub : (digest <$> entries_ m) ⊆+ (sha256 <$> (map_to_list g).*1)).
  { apply NoDup_submseteq; [done|]. intros d Hd. apply list_elem_of_fmap in Hd as (e & -> & Hin).
    apply list_elem_of_lookup in Hin as [s Hs].
    destruct (tb_occupied _ _ Hm _ _ Hs (Hfull _ _ Hs)) as (k & _ & -> & Hg).
    apply list_elem_of_fmap_2. apply list_elem_of_fmap. exists (k, offset e). split; [done|].
    by apply elem_of_map_to_list. }
  apply submseteq_length in Hsub. rewrite !length_fmap, length_map_to_list in Hsub. unfold blen in Hlt. lia.
Qed.

Lemma insert_max_ne g k k' o : k <> k' -> insert_max k o g !! k' = g !! k'.
Proof. intros. unfold insert_max. by rewrite lookup_insert_ne. Qed.

Lemma insert_max_eq g k o : insert_max k o g !! k = Some (from_option (Z.max o) o (g !! k)).
Proof. unfold insert_max. by rewrite lookup_insert_eq. Qed.

Lemma table_same m m' g : same_table m m' -> table_ok m g -> table_ok m' g.
Proof. intros (E1 & E2 & E3 & E4) []. by split; rewrite ?E1, ?E2, ?E3, ?E4. Qed.

(** A new digest takes the free entry its search ended at. *)
Lemma table_insert m g k o s e : table_ok m g -> K k -> no_offset <= o -> g !! k = None ->
  lookup_slot k m = Some (s, e) -> Z.of_nat (size g) < capacity_ m ->
  table_ok (set_entry s {| digest := sha256 k; offset := o |} (u64 (size_ m + 1)) (max_offset_ m `max` o) m)
    (insert_max k o g).
Proof.
  intros Hm Hk Ho Hg Hl Hroom. pose proof (lookup_absent _ _ _ _ _ Hm Hk Hg Hl) as He.
  pose proof (proj1 (find_slot_Some _ _ _ _ _ Hl)) as Hs.
  assert (Hlen : (s < length (entries_ m))%nat) by (by eapply lookup_lt_Some).
  assert (Hk' : forall k' o', g !! k' = Some o' -> k <> k') by congruence.
  split; cbn [set_entry entries_ size_ max_offset_ capacity_]; unfold blen; rewrite ?length_insert.
  - intros H0%(f_equal length). rewrite length_insert in H0. cbn in H0. lia.
  - apply (tb_bound _ _ Hm).
  - intros s' e'. rewrite list_lookup_insert_Some. intros [(<- & <- & _)|[Hne Hs']] He'; cbn.
    + exists k. by rewrite insert_max_eq, Hg.
    + destruct (tb_occupied _ _ Hm _ _ Hs' He') as (k' & ? & ? & Hg'). exists k'.
      rewrite insert_max_ne by eauto. done.
  - intros k' o'. destruct (decide (k = k')) as [<-|Hne].
    + rewrite insert_max_eq, Hg. intros [= <-]. split; [done|]. eexists s, _. by rewrite list_lookup_insert_eq.
    + rewrite insert_max_ne by done. intros Hg'. destruct (tb_stored _ _ Hm _ _ Hg') as (Hk2 & s' & e' & Hs' & Hd & Ho').
      split; [done|]. exists s', e'. rewrite list_lookup_insert_ne; [done|]. intros <-.
      pose proof (key_not_free k' e' Hk2 Hd). congruence.
  - intros s' e'. rewrite list_lookup_insert_Some. intros [(<- & <- & _)|[Hne Hs']] He'; cbn [digest].
    + by eapply find_slot_fill.
    + eapply find_slot_insert; [by apply (tb_found _ _ Hm)|done|done|done].
  - rewrite size_insert_max, decide_False by (rewrite Hg; by intros [? ?]).
    pose proof (tb_size _ _ Hm). pose proof (tb_capacity _ _ Hm). pose proof (tb_bound _ _ Hm).
    rewrite uwrap_id by ranges. lia.
  - apply (tb_capacity _ _ Hm).
  - apply is_max_insert; [apply (tb_max _ _ Hm)|done].
Qed.

(** A digest that is present gets the larger offset. *)
Lemma table_update m g k o s e : table_ok m g -> K k -> no_offset <= o -> g !! k = Some (offset e) ->
  offset e < o -> lookup_slot k m = Some (s, e) -> digest e = sha256 k ->
  table_ok (set_entry s {| digest := digest e; offset := o |} (size_ m) (max_offset_ m `max` o) m)
    (insert_max k o g).
Proof.
  intros Hm Hk Ho Hg Hlt Hl Hd. pose proof (proj1 (find_slot_Some _ _ _ _ _ Hl)) as Hs.
  assert (Hlen : (s < length (entries_ m))%nat) by (by eapply lookup_lt_Some).
  assert (Hother : forall s' e' k', entries_ m !! s' = Some e' -> K k' -> digest e' = sha256 k' -> k = k' <-> s = s').
  { intros s' e' k' Hs' Hk' Hd'. pose proof (tb_found _ _ Hm _ _ Hs' (key_not_free _ _ Hk' Hd')) as Hf. split.
    - intros <-. unfold lookup_slot in Hl. rewrite Hd' in Hf. congruence.
    - intros <-. apply digest_inj; congruence. }
  split; cbn [set_entry entries_ size_ max_offset_ capacity_]; unfold blen; rewrite ?length_insert.
  - intros H0%(f_equal length). rewrite length_insert in H0. cbn in H0. lia.
  - apply (tb_bound _ _ Hm).
  - intros s' e'. rewrite list_lookup_insert_Some. intros [(<- & <- & _)|[Hne Hs']] He'; cbn.
    + exists k. rewrite insert_max_eq, Hg. cbn. rewrite Z.max_l by lia. done.
    + destruct (tb_occupied _ _ Hm _ _ Hs' He') as (k' & Hk' & Hd' & Hg'). exists k'.
      rewrite insert_max_ne; [done|]. intros E. apply Hne. by apply (Hother s' e' k').
  - intros k' o'. destruct (decide (k = k')) as [<-|Hne].
    + rewrite insert_max_eq, Hg. cbn. rewrite Z.max_l by lia. intros [= <-]. split; [done|].
      eexists s, _. by rewrite list_lookup_insert_eq.
    + rewrite insert_max_ne by done. intros Hg'. destruct (tb_stored _ _ Hm _ _ Hg') as (Hk2 & s' & e' & Hs' & Hd' & Ho').
      split; [done|]. exists s', e'. rewrite list_lookup_insert_ne; [done|]. intros E. apply Hne. by apply (Hother s' e' k').
  - intros s' e'. rewrite list_lookup_insert_Some. intros [(<- & <- & _)|[Hne Hs']] He'; cbn [digest].
    + rewrite Hd. erewrite find_slot_update by done. by rewrite decide_True.
    + rewrite (find_slot_update _ _ _ s' e' _ _ _ (tb_found _ _ Hm _ _ Hs' He') Hs) by done. by rewrite decide_False.
  - rewrite size_insert_max, decide_True by eauto. pose proof (tb_size _ _ Hm). lia.
  - apply (tb_capacity _ _ Hm).
  - apply is_max_insert; [apply (tb_max _ _ Hm)|done].
Qed.

Lemma put_table m g k o : table_ok m g -> K k -> no_offset <= o ->
  exists m', put sha256 k o m = Ok (m', has_room k (capacity_ m) g) /\
    table_ok m' (if has_room k (capacity_ m) g then insert_max k o g else g) /\ capacity_ m' = capacity_ m.
Proof.
  intros Hm Hk Ho. unfold put, hash_key. rewrite search_walk by apply put_keeps_length.
  destruct (walk_put (sha256 k) o (size_ m >=? capacity_ m) (path (length (entries_ m)) (sha256 k)) (count_search m))
    as (m1 & (E1 & E2 & E3 & E4) & ->); [apply (tb_entries _ _ Hm)|].
  cbn [entries_ size_ max_offset_ capacity_ count_search] in *. fold (lookup_slot k m).
  assert (Hm1 : table_ok m1 g) by (apply (table_same m); done).
  assert (Hl1 : lookup_slot k m1 = lookup_slot k m) by (unfold lookup_slot; by rewrite E1).
  rewrite (tb_size _ _ Hm). unfold has_room. destruct (g !! k) as [o'|] eqn:Hg.
  - rewrite bool_decide_true by eauto. cbn [orb].
    destruct (lookup_stored _ _ _ _ Hm Hg) as (s & e & Hl & Hd & <- & He). rewrite Hl. cbn [put_at]. rewrite He.
    destruct (Z.gtb_spec o (offset e)).
    + eexists. split; [done|]. cbn [capacity_ set_entry]. split; [|done]. apply table_update; first [done|lia|congruence].
    + eexists. split; [done|]. erewrite insert_max_old by (done || lia). done.
  - rewrite bool_decide_false by (by intros [? ?]). cbn [orb].
    destruct (Z.geb_spec (Z.of_nat (size g)) (capacity_ m)) as [Hfull|Hroom].
    + rewrite (proj2 (Z.ltb_ge _ _)) by lia. exists m1. split; [|done].
      destruct (lookup_slot k m) as [[s e]|] eqn:Hl; [|done]. cbn [put_at].
      by rewrite (lookup_absent _ _ _ _ _ Hm Hk Hg Hl).
    + rewrite (proj2 (Z.ltb_lt _ _)) by lia. pose proof (tb_capacity _ _ Hm).
      destruct (some_free _ _ Hm ltac:(lia)) as (s0 & e0 & Hs0 & He0).
      destruct (path_covers (entries_ m) (sha256 k) s0) as (i & Hi & Hsl);
        [by apply digest_bytes|by eapply lookup_lt_Some|apply (tb_bound _ _ Hm)|]. rewrite <- Hsl in Hs0.
      destruct (find_slot_free _ (sha256 k) _ _ _ (tb_entries _ _ Hm) Hi Hs0 He0) as [[s e] Hl].
      fold (lookup_slot k m) in Hl. rewrite Hl. cbn [put_at]. rewrite (lookup_absent _ _ _ _ _ Hm Hk Hg Hl).
      eexists. split; [done|]. cbn [capacity_ set_entry]. split; [|done]. apply (table_insert m1 g k o s e); first [done|lia|congruence].
Qed.

Lemma get_table m g k : table_ok m g -> K k -> snd <$> get_counted sha256 k m = Ok (g !! k).
Proof.
  intros Hm Hk. unfold get_counted, hash_key. rewrite search_walk by apply get_keeps_length.
  destruct (walk_get (sha256 k) (path (length (entries_ m)) (sha256 k)) (count_search m)) as (m1 & ->);
    [apply (tb_entries _ _ Hm)|].
  cbn [entries_ count_search]. fold (lookup_slot k m). cbn. f_equal.
  destruct (g !! k) as [o|] eqn:Hg.
  - destruct (lookup_stored _ _ _ _ Hm Hg) as (s & e & -> & _ & <- & He). cbn. by rewrite He.
  - destruct (lookup_slot k m) as [[s e]|] eqn:Hl; [|done]. cbn.
    by rewrite (lookup_absent _ _ _ _ _ Hm Hk Hg Hl).
Qed.

Lemma empty_table m n : entries_ m = replicate n empty_entry -> (0 < n)%nat -> Z.of_nat n < 2 ^ 62 ->
  size_ m = 0 -> max_offset_ m = no_offset -> capacity_ m <= Z.of_nat n -> table_ok m ∅.
Proof.
  intros He Hn Hb Hs Hmax Hc.
  assert (Hfree : forall s e, entries_ m !! s = Some e -> entry_empty e = true).
  { intros s e. rewrite He. intros [-> _]%lookup_replicate. done. }
  split.
  - rewrite He. by destruct n; [lia|].
  - unfold blen. by rewrite He, length_replicate.
  - intros s e H1 H2. apply Hfree in H1. congruence.
  - intros k o. by rewrite lookup_empty.
  - intros s e H1 H2. apply Hfree in H1. congruence.
  - by rewrite map_size_empty.
  - unfold blen. by rewrite He, length_replicate.
  - rewrite Hmax. apply is_max_empty.
Qed.

Definition hash_laws : @KeyOffsetMapLaws t (hash_map sha256) K.
Proof.
  refine {| models := table_ok |}; cbn.
  - intros. by apply get_table.
  - intros. by apply put_table.
  - intros m g Hm. apply (tb_max _ _ Hm).
  - intros m g Hm. apply (tb_size _ _ Hm).
  - intros m g Hm. split; [|done]. pose proof (tb_entries _ _ Hm) as He. pose proof (tb_bound _ _ Hm).
    pose proof (tb_capacity _ _ Hm). unfold blen in *.
    eapply (empty_table _ (length (entries_ m))); cbn; try done; destruct (entries_ m); [done|cbn; lia].
Defined.

(** A table of at least one entry, as [initialize] makes it. *)
Lemma initialize_models size_bytes : 0 < size_bytes < 2 ^ 60 -> exists m,
  initialize size_bytes = Some m /\ table_ok m ∅ /\ 1 <= capacity_ m.
Proof.
  intros [H0 H1]. destruct (initialize_total size_bytes) as (m & Hi & He & Hs & Hmax & [Hc Hb] & Hpos); [lia|].
  exists m. split; [done|]. specialize (Hpos H0). split; [|done]. unfold blen in *.
  eapply (empty_table m (length (entries_ m))); try done; ranges.
Qed.
End table.

End hash_key_offset_map.

(** ** Both maps give the same answers *)

Inductive map_op :=
  | op_put (key : list Z) (o : Z)
  | op_get (key : list Z)
  | op_max_offset
  | op_size
  | op_reset.

Inductive map_answer :=
  | ans_put (stored : bool)
  | ans_get (o : option Z)
  | ans_number (z : Z)
  | ans_reset.

Section runs.
Context {M : Type} `{key_offset_map M}.

Definition run_op (x : map_op) (m : M) : res (M * map_answer) :=
  match x with
  | op_put k o => '(m, b) ← put k o m; Ok (m, ans_put b)
  | op_get k => o ← get k m; Ok (m, ans_get o)
  | op_max_offset => Ok (m, ans_number (max_offset m))
  | op_size => Ok (m, ans_number (map_size m))
  | op_reset => Ok (reset m, ans_reset)
  end.

Fixpoint run_ops (ops : list map_op) (m : M) : res (list map_answer) :=
  match ops with
  | [] => Ok []
  | x :: ops => '(m, a) ← run_op x m; rest ← run_ops ops m; Ok (a :: rest)
  end.
End runs.

Definition op_ok (K : list Z -> Prop) (x : map_op) : Prop :=
  match x with
  | op_put k o => K k /\ no_offset <= o
  | op_get k => K k
  | _ => True
  end.

(** The largest offset is determined by the map. *)
Lemma is_max_unique g x y : is_max g x -> is_max g y -> x = y.
Proof.
  intros (Hx & Hbx & [Ex|[k Ex]]) (Hy & Hby & [Ey|[k' Ey]]).
  - congruence.
  - subst x. specialize (Hbx _ _ Ey). lia.
  - subst y. specialize (Hby _ _ Ex). lia.
  - specialize (Hbx _ _ Ey). specialize (Hby _ _ Ex). lia.
Qed.

Section agreement.
Context {M N : Type} (K : list Z -> Prop).
Context `{key_offset_map M, !KeyOffsetMapLaws M K, key_offset_map N, !KeyOffsetMapLaws N K}.

(** Two maps that stand for the same finite map and have the same limit cannot be told apart. *)
Lemma maps_agree ops (m : M) (n : N) g : models m g -> models n g -> map_capacity m = map_capacity n ->
  Forall (op_ok K) ops -> exists answers, run_ops ops m = Ok answers /\ run_ops ops n = Ok answers.
Proof.
  intros Hm Hn Hc Hops. revert m n g Hm Hn Hc.
  induction Hops as [|x ops Hx _ IH]; intros m n g Hm Hn Hc; [by exists []|]. cbn [run_ops].
  enough (exists m' n' a g', run_op x m = Ok (m', a) /\ run_op x n = Ok (n', a) /\ models m' g' /\ models n' g' /\
    map_capacity m' = map_capacity n') as (m' & n' & a & g' & -> & -> & Hm' & Hn' & Hc').
  { cbn [mbind res_bind]. destruct (IH _ _ _ Hm' Hn' Hc') as (answers & -> & ->). by exists (a :: answers). }
  destruct x as [k o|k| | |]; cbn [op_ok run_op] in *.
  - destruct Hx as [Hk Ho]. destruct (put_models m g k o Hm Hk Ho) as (m' & -> & Hm' & Hcm).
    destruct (put_models n g k o Hn Hk Ho) as (n' & -> & Hn' & Hcn). rewrite Hc in *.
    do 4 eexists. split; [done|]. split; [done|]. split; [exact Hm'|]. split; [exact Hn'|]. congruence.
  - rewrite (get_models m g k Hm Hx), (get_models n g k Hn Hx). by exists m, n, (ans_get (g !! k)), g.
  - exists m, n, (ans_number (max_offset m)), g.
    by rewrite (is_max_unique g (max_offset m) (max_offset n) (max_models _ _ Hm) (max_models _ _ Hn)).
  - exists m, n, (ans_number (map_size m)), g. by rewrite (size_models m g Hm), (size_models n g Hn).
  - destruct (reset_models m g Hm) as [? ?], (reset_models n g Hn) as [? ?].
    exists (reset m), (reset n), ans_reset, ∅. repeat split; try done. congruence.
Qed.
End agreement.

(** C15: the table of digests is as good as the map that stores whole keys: made by [initialize] with any
    positive number of bytes, it answers every sequence of insertions, lookups and resets exactly as a
    [simple_key_offset_map] limited to the table's capacity does, and never fails: an insertion is refused
    only when the key is absent and the limit is reached, and a lookup gives the largest offset put for the
    key.  The digest must have no collisions on the keys in use and not be zero on them. *)
Theorem hash_map_answers_as_simple_map (sha256 : list Z -> list Z) (K : list Z -> Prop) size_bytes ops :
  hash_key_offset_map.DigestLaws sha256 K -> 0 < size_bytes < 2 ^ 60 -> Forall (op_ok K) ops ->
  exists m answers, hash_key_offset_map.initialize size_bytes = Some m /\ 1 <= hash_key_offset_map.capacity_ m /\
    @run_ops _ (hash_key_offset_map.hash_map sha256) ops m = Ok answers /\
    run_ops ops (simple_key_offset_map.make (Some (hash_key_offset_map.capacity_ m))) = Ok answers.
Proof.
  intros HD Hb Hops.
  destruct (hash_key_offset_map.initialize_models sha256 K size_bytes Hb) as (m & Hi & Hm & Hc).
  destruct (@maps_agree _ simple_key_offset_map.t K (hash_key_offset_map.hash_map sha256)
    (hash_key_offset_map.hash_laws sha256 K) _ (simple_key_offset_map.simple_laws K) ops m
    (simple_key_offset_map.make (Some (hash_key_offset_map.capacity_ m))) ∅ Hm) as (answers & H1 & H2);
    [split; [done|apply is_max_empty]|done|done|].
  by exists m, answers.
Qed.

(** Three keys under a toy digest, in a table of two entries: one of them is refused. *)
Definition toy_sha256 (k : list Z) : list Z := k ++ replicate 31 7.
Definition toy_keys (k : list Z) : Prop := k ∈ [[97]; [98]; [99]].

#[export] Instance toy_digest_laws : hash_key_offset_map.DigestLaws toy_sha256 toy_keys.
Proof.
  split; unfold toy_keys.
  - intros k Hk. repeat (apply elem_of_cons in Hk as [->|Hk]); [..|by apply elem_of_nil in Hk];
      (unfold toy_sha256; apply Forall_app; split; [|apply Forall_replicate]; repeat constructor; ranges).
  - intros k Hk. repeat (apply elem_of_cons in Hk as [->|Hk]); [..|by apply elem_of_nil in Hk]; done.
  - intros k1 k2 _ _ E. by apply app_inj_2 in E as [? _].
Qed.

Lemma hash_map_answers_as_simple_map_witness :
  let ops := [op_put [97] 5; op_put [97] 3; op_put [98] 7; op_get [97]; op_get [98]; op_max_offset; op_size; op_reset; op_put [99] 1] in
  exists m answers, hash_key_offset_map.initialize 100 = Some m /\ 1 <= hash_key_offset_map.capacity_ m /\
    @run_ops _ (hash_key_offset_map.hash_map toy_sha256) ops m = Ok answers /\
    run_ops ops (simple_key_offset_map.make (Some (hash_key_offset_map.capacity_ m))) = Ok answers.
Proof.
  apply (hash_map_answers_as_simple_map toy_sha256 toy_keys); [apply toy_digest_laws|ranges|].
  repeat constructor; cbn; unfold toy_keys, no_offset; try ranges; set_solver.
Defined.
