(* ===== verification/CompactionIndex.v ===== *)
(** * The compaction index of a segment (storage/compaction_key.cc, storage/spill_key_index.{h,cc},
      storage/compacted_index*.{h,cc}, storage/compaction_reducers.cc, storage/segment_utils.cc)

    Beside every segment of a compacted topic lies a file of entries, one for the latest record of a
    key seen while the segment was written: the batch's first offset, the record's distance from it and
    the key, prefixed by the batch's type and whether it is a control batch.  [spill_key_index] writes
    the file: it collects the entries in memory and, short of memory, writes some of them out early, so
    that the file may hold several entries of one key.  Self compaction reads the file twice: once to
    find the entries to keep ([compaction_key_reducer], which also works in bounded memory), and once to
    copy them.  The offsets that remain are those of the records to keep.

    The hash map of the writer has no specified order: it is a list in its order of iteration, and
    [place] puts a new entry into it.  The memory its tables take, the shard's memory allowance and the
    hash function (absl, Seastar and xxhash) are parameters: the theorems hold for all of them. *)

From S2P Require Import Prelude Vint IobufParser Record RecordBatch KeyOffsetMap.

(** [enhance_key]: the batch's type, the control flag and the record's key. *)
Definition enhance_key (batch_type : Z) (is_control_batch : bool) (key : list Z) : list Z :=
  le_bytes 1 batch_type ++ le_bytes 1 (if is_control_batch then 1 else 0) ++ key.

Module compacted_index.

Definition max_entry_size : Z := 2 ^ 16 - 1.

(** The bits of [footer_flags]. *)
Definition flag_self_compaction : Z := 2.
Definition flag_incomplete : Z := 4.

Inductive recovery_state := index_missing | index_needs_rebuild | already_compacted | index_recovered.

Record footer := {
  f_size : Z;
  f_keys : Z;
  f_size_deprecated : Z;
  f_keys_deprecated : Z;
  f_flags : Z;
  f_crc : Z;
}.

Definition empty_footer : footer :=
  {| f_size := 0; f_keys := 0; f_size_deprecated := 0; f_keys_deprecated := 0; f_flags := 0; f_crc := 0 |}.

(** [entry_type::key]. *)
Definition type_key : Z := 1.

Record entry := { e_type : Z; e_key : list Z; e_offset : Z; e_delta : Z }.

(** The offset of the record an entry stands for, a sum of named 64-bit integers. *)
Definition e_full (e : entry) : Z := s64 (e_offset e + e_delta e).

(** A closed file: its entries' bytes, and the footer (whose own encoding is not modelled). *)
Record file := { data : list Z; foot : footer }.

End compacted_index.
Import compacted_index.

(** ** Writing the file *)

Module spill_key_index.

Record value_type := { base_offset : Z; delta : Z }.

Definition max_key_size : Z := max_entry_size - 2 * vint.max_length.

(** What the shard's accounting answers during one insertion: whether it hints at spilling, and whether
    memory is available before each step of the spilling loop. *)
Record resources := { checkpoint_hint : bool; bytes_available : nat -> bool }.

Record t := {
  _midx : list (list Z * value_type);
  _last_key_indexed : list Z;
  _max_mem : Z;
  _keys_mem_usage : Z;
  _footer : footer;
  _crc : Z;
  _appender : list Z;
}.

Definition make (max_mem : Z) : t :=
  {| _midx := []; _last_key_indexed := []; _max_mem := max_mem; _keys_mem_usage := 0;
     _footer := empty_footer; _crc := 0; _appender := [] |}.

Definition default_max_mem : Z := 512 * 1024.

(** A key's [bytes] take 40 bytes, and more than 31 of content are kept outside of them; a value takes 16. *)
Definition entry_mem_usage (k : list Z) : Z :=
  (if blen k >? 31 then 40 + blen k else 40) + 16.

(** The payload collected for one write: bytes and number of keys. *)
Record spill_payload := { p_data : list Z; p_keys : Z }.

Definition append_to_spill_payload (payload : spill_payload) (type : Z) (b : list Z) (v : value_type)
    : res spill_payload :=
  let body := le_bytes 1 type ++ vint.to_bytes (base_offset v) ++ vint.to_bytes (delta v)
              ++ btake (max_key_size `min` blen b) b in
  let payload_size := 2 + blen body in
  let size := payload_size - 2 in
  _ ← vassert (payload_size <=? max_entry_size);
  Ok {| p_data := p_data payload ++ le_bytes 2 size ++ body; p_keys := u32 (p_keys payload + 1) |}.

Definition set_midx (l : list (list Z * value_type)) (x : t) : t :=
  {| _midx := l; _last_key_indexed := _last_key_indexed x; _max_mem := _max_mem x;
     _keys_mem_usage := _keys_mem_usage x; _footer := _footer x; _crc := _crc x; _appender := _appender x |}.

Definition release_entry_memory (k : list Z) (x : t) : t :=
  {| _midx := _midx x; _last_key_indexed := _last_key_indexed x; _max_mem := _max_mem x;
     _keys_mem_usage := u64 (_keys_mem_usage x - entry_mem_usage k); _footer := _footer x; _crc := _crc x;
     _appender := _appender x |}.

Section writer.
Variable crc_extend : Z -> list Z -> Z.
Variable idx_mem_usage : list (list Z * value_type) -> Z.
Variable place : list (list Z * value_type) -> list Z * value_type -> list (list Z * value_type).

(** [spill(spill_payload)]. *)
Definition spill (payload : spill_payload) (x : t) : t :=
  let f := _footer x in
  let size := u64 (f_size f + blen (p_data payload)) in
  {| _midx := _midx x; _last_key_indexed := _last_key_indexed x; _max_mem := _max_mem x;
     _keys_mem_usage := _keys_mem_usage x;
     _footer := {| f_size := size; f_keys := u64 (f_keys f + p_keys payload); f_size_deprecated := u32 size;
                   f_keys_deprecated := u32 (f_keys_deprecated f + p_keys payload); f_flags := f_flags f;
                   f_crc := f_crc f |};
     _crc := crc_extend (_crc x) (p_data payload);
     _appender := _appender x ++ p_data payload |}.

(** [spill(type, key, value)]. *)
Definition spill_one (type : Z) (b : list Z) (v : value_type) (x : t) : res t :=
  payload ← append_to_spill_payload {| p_data := []; p_keys := 0 |} type b v;
  Ok (spill payload x).

Definition total_mem (entry_size : Z) (x : t) : Z :=
  u64 (idx_mem_usage (_midx x) + _keys_mem_usage x + entry_size).

Definition stop_cond (r : resources) (i : nat) (entry_size min_index_size : Z) (x : t) : bool :=
  let total_mem := total_mem entry_size x in
  let local_ok := total_mem <? _max_mem x in
  let global_ok := bytes_available r i || (total_mem <? min_index_size) in
  match _midx x with [] => true | _ => local_ok && global_ok end.

(** The loop of [spill_some] at the entry in place [pos]; every round removes one entry. *)
Fixpoint spill_loop (fuel i : nat) (r : resources) (entry_size min_index_size : Z) (pos : nat)
    (payload : spill_payload) (x : t) : res (spill_payload * t) :=
  if stop_cond r i entry_size min_index_size x then Ok (payload, x)
  else
    match fuel with
    | O => Crash
    | S fuel =>
        '(k, v) ← deref (_midx x !! pos);
        let x := release_entry_memory k x in
        payload ← append_to_spill_payload payload type_key k v;
        let x := set_midx (delete pos (_midx x)) x in
        let pos := if (pos =? length (_midx x))%nat then 0%nat else pos in
        spill_loop fuel (S i) r entry_size min_index_size pos payload x
    end.

(** The place of the entry after that of a key, or the first one. *)
Definition place_after (k : list Z) (l : list (list Z * value_type)) : nat :=
  match list_find (fun e => e.1 = k) l with
  | Some (i, _) => if (S i =? length l)%nat then 0 else S i
  | None => 0
  end%nat.

Definition spill_some (r : resources) (entry_size min_index_size : Z) (x : t) : res t :=
  let it := place_after (_last_key_indexed x) (_midx x) in
  '(payload, x) ← spill_loop (length (_midx x)) 0 r entry_size min_index_size it {| p_data := []; p_keys := 0 |} x;
  Ok (match p_data payload with [] => x | _ => spill payload x end).

Definition add_key (r : resources) (b : list Z) (v : value_type) (x : t) : res t :=
  let entry_size := entry_mem_usage b in
  let expected_size := total_mem entry_size x in
  let min_index_size := (32 * 1024) `min` _max_mem x in
  x ← (if (checkpoint_hint r && (expected_size >? min_index_size)) || (expected_size >=? _max_mem x)
       then spill_some r entry_size min_index_size x else Ok x);
  Ok {| _midx := place (_midx x) (b, v); _last_key_indexed := b; _max_mem := _max_mem x;
        _keys_mem_usage := u64 (_keys_mem_usage x + entry_size); _footer := _footer x; _crc := _crc x;
        _appender := _appender x |}.

(** Replace the value of a key that is present. *)
Definition replace_value (k : list Z) (v : value_type) (l : list (list Z * value_type)) : list (list Z * value_type) :=
  (fun e => if decide (e.1 = k) then (k, v) else e) <$> l.

Definition find_value (k : list Z) (l : list (list Z * value_type)) : option value_type :=
  (fun e => e.2.2) <$> list_find (fun e => e.1 = k) l.

(** [index(compaction_key, offset, delta)]: compares the first offsets of the batches only. *)
Definition index_key (r : resources) (key : list Z) (o d : Z) (x : t) : res t :=
  match find_value key (_midx x) with
  | Some cur =>
      Ok (if o >? base_offset cur
          then set_midx (replace_value key {| base_offset := o; delta := d |} (_midx x)) x else x)
  | None => add_key r key {| base_offset := o; delta := d |} x
  end.

(** [index(batch_type, is_control_batch, key, offset, delta)]. *)
Definition index_record (r : resources) (batch_type : Z) (is_control_batch : bool) (b : list Z) (o d : Z) (x : t)
    : res t :=
  let key := enhance_key batch_type is_control_batch b in
  match find_value key (_midx x) with
  | Some cur =>
      let record := s64 (o + d) in
      let current := s64 (base_offset cur + delta cur) in
      Ok (if record >? current
          then set_midx (replace_value key {| base_offset := o; delta := d |} (_midx x)) x else x)
  | None => add_key r key {| base_offset := o; delta := d |} x
  end.

Definition append (e : entry) (x : t) : res t :=
  spill_one (e_type e) (e_key e) {| base_offset := e_offset e; delta := e_delta e |} x.

Definition set_flag (f : Z) (x : t) : t :=
  let g := _footer x in
  {| _midx := _midx x; _last_key_indexed := _last_key_indexed x; _max_mem := _max_mem x;
     _keys_mem_usage := _keys_mem_usage x;
     _footer := {| f_size := f_size g; f_keys := f_keys g; f_size_deprecated := f_size_deprecated g;
                   f_keys_deprecated := f_keys_deprecated g; f_flags := Z.lor (f_flags g) f; f_crc := f_crc g |};
     _crc := _crc x; _appender := _appender x |}.

Fixpoint drain_loop (l : list (list Z * value_type)) (x : t) : res t :=
  match l with
  | [] => Ok (set_midx [] x)
  | (k, v) :: l =>
      let x := release_entry_memory k (set_midx l x) in
      x ← spill_one type_key k v x;
      drain_loop l x
  end.

Definition drain_all_keys (x : t) : res t := drain_loop (_midx x) x.

(** [close], without the failures of the file system. *)
Definition close (x : t) : res file :=
  x ← drain_all_keys x;
  _ ← vassert (_keys_mem_usage x =? 0);
  let f := _footer x in
  Ok {| data := _appender x;
        foot := {| f_size := f_size f; f_keys := f_keys f; f_size_deprecated := f_size_deprecated f;
                   f_keys_deprecated := f_keys_deprecated f; f_flags := f_flags f; f_crc := _crc x |} |}.
End writer.

End spill_key_index.

(** ** Reading it *)

(** One round of [load_slice]: the entry at the front of the remaining bytes.  [read_iobuf_exactly] gives
    fewer bytes at the end of the file, which the parsers refuse. *)
Definition read_entry (rest : list Z) : res (entry * list Z) :=
  '(entry_size, _) ← consume_type 16 (iobuf_parser.Owned (iobuf_parser.make [btake 2 rest]));
  let rest := bdrop 2 rest in
  let p := iobuf_parser.Owned (iobuf_parser.make [btake entry_size rest]) in
  '(ty, p) ← consume_type 8 p;
  '(o, _, p) ← read_varlong p;
  '(d, _, p) ← read_varlong p;
  '(key, _) ← consume_to (bytes_left p) p;
  Ok ({| e_type := ty; e_key := key; e_offset := o; e_delta := s32 d |}, bdrop entry_size rest).

(** All the entries: the slices a reader loads one after the other. *)
Fixpoint read_entries (fuel : nat) (rest : list Z) : res (list entry) :=
  match rest with
  | [] => Ok []
  | _ =>
      match fuel with
      | O => Crash
      | S fuel => '(e, rest) ← read_entry rest; es ← read_entries fuel rest; Ok (e :: es)
      end
  end.

Definition file_entries (f : file) : res (list entry) :=
  read_entries (length (data f)) (btake (f_size (foot f)) (data f)).

Section integrity.
Variable crc_extend : Z -> list Z -> Z.

(** [verify_integrity], once the footer is read. *)
Definition verify_integrity (f : file) : res unit :=
  throw_if (negb (f_crc (foot f) =? crc_extend 0 (btake (f_size (foot f)) (data f)))) runtime_error.

(** [detect_compaction_index_state]: every exception is taken for a file to be rebuilt. *)
Definition detect_compaction_index_state (f : option file) : recovery_state :=
  match f with
  | None => index_missing
  | Some f =>
      match verify_integrity f with
      | Ok _ =>
          if negb (Z.land (f_flags (foot f)) flag_self_compaction =? 0) then already_compacted
          else if negb (Z.land (f_flags (foot f)) flag_incomplete =? 0) then index_needs_rebuild
          else index_recovered
      | _ => index_needs_rebuild
      end
  end.

Definition compacted_index_needs_rebuild (s : recovery_state) : bool :=
  match s with index_missing | index_needs_rebuild => true | index_recovered | already_compacted => false end.
End integrity.

(** ** The entries to keep *)

Module compaction_key_reducer.

Record value_type := { key : list Z; offset : Z; natural_index : Z }.

Record t := {
  _keys_mem_usage : Z;
  _max_mem : Z;
  _natural_index : Z;
  _inverted : gset Z;
  _indices : list (Z * value_type);
}.

Definition default_max_memory_usage : Z := 5 * 1024 * 1024.

Definition make (max_mem : Z) : t :=
  {| _keys_mem_usage := 0; _max_mem := max_mem; _natural_index := 0; _inverted := ∅; _indices := [] |}.

Section reducer.
Variable _hasher : list Z -> Z.
Variable idx_mem_usage : list (Z * value_type) -> Z.

(** The loop that evicts the first entries of the multimap, which is sorted by hash. *)
Fixpoint evict (key_size max_mem keys_mem : Z) (inverted : gset Z) (indices : list (Z * value_type))
    : Z * gset Z * list (Z * value_type) :=
  match indices with
  | [] => (keys_mem, inverted, [])
  | (_, v) :: rest =>
      if u64 (idx_mem_usage indices + keys_mem + key_size) >=? max_mem
      then evict key_size max_mem (u64 (keys_mem - blen (key v))) ({[natural_index v]} ∪ inverted) rest
      else (keys_mem, inverted, indices)
  end.

(** [emplace] of a multimap: after the entries of the same hash. *)
Fixpoint emplace (h : Z) (v : value_type) (l : list (Z * value_type)) : list (Z * value_type) :=
  match l with
  | [] => [(h, v)]
  | (h', v') :: rest => if h <? h' then (h, v) :: l else (h', v') :: emplace h v rest
  end.

(** The update of the entry found for a key. *)
Fixpoint update_first (k : list Z) (h o ni : Z) (l : list (Z * value_type)) : list (Z * value_type) :=
  match l with
  | [] => []
  | (h', v) :: rest =>
      if (h' =? h) && bool_decide (key v = k)
      then (h', if o >? offset v then {| key := key v; offset := o; natural_index := ni |} else v) :: rest
      else (h', v) :: update_first k h o ni rest
  end.

Definition found (k : list Z) (h : Z) (l : list (Z * value_type)) : bool :=
  existsb (fun '(h', v) => (h' =? h) && bool_decide (key v = k)) l.

Definition step (e : entry) (x : t) : t :=
  let o := e_full e in
  let h := _hasher (e_key e) in
  let ni := _natural_index x in
  if found (e_key e) h (_indices x) then
    {| _keys_mem_usage := _keys_mem_usage x; _max_mem := _max_mem x; _natural_index := u32 (ni + 1);
       _inverted := _inverted x; _indices := update_first (e_key e) h o ni (_indices x) |}
  else
    let '(keys_mem, inverted, indices) :=
      evict (blen (e_key e)) (_max_mem x) (_keys_mem_usage x) (_inverted x) (_indices x) in
    {| _keys_mem_usage := u64 (keys_mem + blen (e_key e)); _max_mem := _max_mem x; _natural_index := u32 (ni + 1);
       _inverted := inverted;
       _indices := emplace h {| key := e_key e; offset := o; natural_index := ni |} indices |}.

Definition end_of_stream (x : t) : gset Z :=
  foldl (fun b '(_, v) => {[natural_index v]} ∪ b) (_inverted x) (_indices x).
End reducer.

End compaction_key_reducer.

Section self_compaction.
Variable crc_extend : Z -> list Z -> Z.
Variable idx_mem_usage : list (list Z * spill_key_index.value_type) -> Z.
Variable place : list (list Z * spill_key_index.value_type) -> list Z * spill_key_index.value_type ->
  list (list Z * spill_key_index.value_type).
Variable _hasher : list Z -> Z.
Variable tree_mem_usage : list (Z * compaction_key_reducer.value_type) -> Z.

Definition natural_index_of_entries_to_keep (max_mem : Z) (es : list entry) : gset Z :=
  compaction_key_reducer.end_of_stream
    (foldl (fun x e => compaction_key_reducer.step _hasher tree_mem_usage e x)
       (compaction_key_reducer.make max_mem) es).

(** [index_filtered_copy_reducer]; [env] answers for the shard's memory at each entry. *)
Fixpoint filtered_copy (env : nat -> spill_key_index.resources) (natural_index : Z) (bm : gset Z) (es : list entry)
    (w : spill_key_index.t) : res spill_key_index.t :=
  match es with
  | [] => Ok w
  | e :: es =>
      w ← (if decide (natural_index ∈ bm)
           then spill_key_index.index_key crc_extend idx_mem_usage place (env (Z.to_nat natural_index)) (e_key e) (e_offset e) (e_delta e) w
           else Ok w);
      filtered_copy env (u32 (natural_index + 1)) bm es w
  end.

(** [copy_filtered_entries] and [do_write_clean_compacted_index], without the renaming of files. *)
Definition copy_filtered_entries (env : nat -> spill_key_index.resources) (bm : gset Z) (es : list entry)
    : res file :=
  w ← filtered_copy env 0 bm es (spill_key_index.make spill_key_index.default_max_mem);
  spill_key_index.close crc_extend (spill_key_index.set_flag flag_self_compaction w).

Definition do_write_clean_compacted_index (env : nat -> spill_key_index.resources) (max_mem : Z) (f : file)
    : res file :=
  es ← file_entries f;
  copy_filtered_entries env (natural_index_of_entries_to_keep max_mem es) es.
End self_compaction.

(** ** The offsets to keep (storage/compacted_offset_list.h) *)

Module compacted_offset_list.

Record t := { _base : Z; _to_keep : gset Z }.

Definition add (o : Z) (l : t) : res t :=
  _ ← vassert (_base l <=? o);
  Ok {| _base := _base l; _to_keep := {[u32 (s64 (o - _base l))]} ∪ _to_keep l |}.

Definition contains (o : Z) (l : t) : bool := bool_decide (u32 (s64 (o - _base l)) ∈ _to_keep l).

(** [generate_compacted_list]. *)
Fixpoint generate (es : list entry) (l : t) : res t :=
  match es with
  | [] => Ok l
  | e :: es => l ← add (e_full e) l; generate es l
  end.

End compacted_offset_list.

Definition generate_compacted_list (o : Z) (f : file) : res compacted_offset_list.t :=
  es ← file_entries f;
  compacted_offset_list.generate es {| compacted_offset_list._base := o; compacted_offset_list._to_keep := ∅ |}.

(** ** What a file holds *)

Module index_facts.
Import spill_key_index.

(** Keys too long for an entry are cut. *)
Definition cut (e : entry) : entry :=
  {| e_type := e_type e; e_key := btake max_key_size (e_key e); e_offset := e_offset e; e_delta := e_delta e |}.

Definition entry_of (kv : list Z * value_type) : entry :=
  {| e_type := type_key; e_key := kv.1; e_offset := base_offset kv.2; e_delta := delta kv.2 |}.

Definition encode_body (e : entry) : list Z :=
  le_bytes 1 (e_type e) ++ vint.to_bytes (e_offset e) ++ vint.to_bytes (e_delta e)
  ++ btake (max_key_size `min` blen (e_key e)) (e_key e).

Definition encode_entry (e : entry) : list Z := le_bytes 2 (blen (encode_body e)) ++ encode_body e.

(** The machine ranges of an entry's fields. *)
Record entry_ranges (e : entry) : Prop := {
  er_type : is_u 8 (e_type e);
  er_offset : is_s 64 (e_offset e);
  er_delta : is_s 32 (e_delta e);
}.

Lemma btake_whole {A} n (l : list A) : blen l <= n -> btake n l = l.
Proof. intros. unfold btake, blen in *. apply take_ge. lia. Qed.

Lemma btake_min {A} n (l : list A) : 0 <= n -> btake (n `min` blen l) l = btake n l.
Proof.
  intros. destruct (Z.min_spec n (blen l)) as [[? ->]|[? ->]]; [done|]. by rewrite !btake_whole by lia.
Qed.

(** A 32-bit integer takes at most five bytes. *)
Lemma small_vint d : is_s 32 d -> 1 <= blen (vint.serialize d) <= 5.
Proof.
  intros Hd. assert (Hs : is_s 64 d) by ranges. split.
  - rewrite vint.length_serialize by done. by apply vint.size_bounds.
  - pose proof (vint.encode_zigzag_range d Hs) as Hu. unfold vint.serialize.
    rewrite unsigned_vint.serialize_eq by done.
    assert (Hz : 0 <= vint.encode_zigzag d < 128 ^ Z.of_nat 5).
    { rewrite vint.encode_zigzag_eq by done. change (128 ^ Z.of_nat 5) with 34359738368. case_decide; ranges. }
    rewrite (unsigned_vint.encode_fuel 9 4); [|by apply unsigned_vint.u64_pow128; [|lia]|done].
    unfold blen. pose proof (unsigned_vint.encode_length 5 (vint.encode_zigzag d)). lia.
Qed.

(** Two variable-length integers and a key fit into an entry with room to spare. *)
Lemma encode_body_bounds e : entry_ranges e -> 1 <= blen (encode_body e) <= max_entry_size - 2.
Proof.
  intros [Ht Ho Hd]. unfold encode_body. rewrite !blen_app.
  pose proof (vint.size_bounds _ Ho) as Hs. unfold vint.to_bytes. rewrite (vint.length_serialize _ Ho).
  pose proof (small_vint _ Hd).
  assert (blen (le_bytes 1 (e_type e)) = 1) as -> by (unfold blen; by rewrite le_bytes_length).
  assert (0 <= blen (btake (max_key_size `min` blen (e_key e)) (e_key e)) <= max_key_size).
  { pose proof (blen_nonneg (e_key e)). rewrite blen_btake; unfold max_key_size, max_entry_size, vint.max_length; lia. }
  unfold max_key_size, max_entry_size, vint.max_length in *. lia.
Qed.

Lemma append_payload_ok payload e : entry_ranges e ->
  append_to_spill_payload payload (e_type e) (e_key e) {| base_offset := e_offset e; delta := e_delta e |}
  = Ok {| p_data := p_data payload ++ encode_entry e; p_keys := u32 (p_keys payload + 1) |}.
Proof.
  intros He. pose proof (encode_body_bounds e He) as Hb. unfold append_to_spill_payload. cbn [base_offset delta].
  fold (encode_body e). rewrite (proj2 (Z.leb_le _ _)) by lia. cbn [vassert mbind res_bind].
  replace (2 + blen (encode_body e) - 2) with (blen (encode_body e)) by lia. done.
Qed.

Lemma append_held payload k v : entry_ranges (entry_of (k, v)) ->
  append_to_spill_payload payload type_key k v
  = Ok {| p_data := p_data payload ++ encode_entry (entry_of (k, v)); p_keys := u32 (p_keys payload + 1) |}.
Proof. intros H. pose proof (append_payload_ok payload _ H) as E. by destruct v. Qed.

#[local] Abbreviation parser b := (iobuf_parser.Owned (iobuf_parser.make [b])).

Lemma parser_view (b : list Z) : view (parser b) b 0.
Proof. pose proof (iobuf_parser.owned_make_view [b]) as H. cbn in H. by rewrite app_nil_r in H. Qed.

Lemma read_entry_encode e rest : entry_ranges e -> read_entry (encode_entry e ++ rest) = Ok (cut e, rest).
Proof.
  intros He. pose proof (encode_body_bounds e He) as Hb. destruct He as [Ht Ho Hd].
  unfold read_entry, encode_entry.
  set (body := encode_body e) in *. set (size := le_bytes 2 (blen body)).
  assert (Hsz : blen size = 2) by (unfold size, blen; by rewrite le_bytes_length).
  assert (Hsplit : btake 2 (size ++ body ++ rest) = size /\ bdrop 2 (size ++ body ++ rest) = body ++ rest).
  { rewrite <- Hsz. by rewrite btake_app, bdrop_app. }
  rewrite <- app_assoc. destruct Hsplit as [-> ->].
  unfold consume_type.
  destruct (consume_to_ok (parser size) size 0 2 (parser_view size) ltac:(lia)) as (p0 & E0 & _).
  change (16 / 8) with 2. rewrite E0, btake_whole by lia. cbn [mbind res_bind].
  unfold size. rewrite le_value_le_bytes. change (8 * Z.of_nat 2) with 16.
  rewrite uwrap_id by (unfold max_entry_size in *; ranges). rewrite btake_app, bdrop_app.
  destruct (consume_to_ok (parser body) body 0 1 (parser_view body) ltac:(lia)) as (p1 & E1 & Hp1).
  change (8 / 8) with 1. rewrite E1. cbn [mbind res_bind].
  assert (Htb : btake 1 body = le_bytes 1 (e_type e) /\ bdrop 1 body = vint.to_bytes (e_offset e) ++
    vint.to_bytes (e_delta e) ++ btake (max_key_size `min` blen (e_key e)) (e_key e)).
  { assert (H1 : blen (le_bytes 1 (e_type e)) = 1) by (unfold blen; by rewrite le_bytes_length).
    unfold body, encode_body. rewrite <- H1. by rewrite btake_app, bdrop_app. }
  destruct Htb as [-> Htb]. rewrite Htb in Hp1. unfold vint.to_bytes in Hp1.
  destruct (read_varlong_view p1 _ _ _ Ho Hp1) as (p2 & -> & Hp2). cbn [mbind res_bind].
  assert (Hd64 : is_s 64 (e_delta e)) by ranges.
  destruct (read_varlong_view p2 _ _ _ Hd64 Hp2) as (p3 & -> & Hp3). cbn [mbind res_bind].
  rewrite (view_left _ _ _ Hp3).
  destruct (consume_to_ok p3 _ _ (blen (btake (max_key_size `min` blen (e_key e)) (e_key e))) Hp3) as (p4 & -> & _);
    [pose proof (blen_nonneg (btake (max_key_size `min` blen (e_key e)) (e_key e))); lia|].
  cbn [mbind res_bind]. rewrite btake_whole, btake_min by (unfold max_key_size, max_entry_size, vint.max_length; lia).
  rewrite le_value_le_bytes. change (8 * Z.of_nat 1) with 8. rewrite uwrap_id, swrap_id by (done || ranges). done.
Qed.

Lemma entry_nonempty e : encode_entry e <> [].
Proof. unfold encode_entry. destruct (le_bytes 2 _) eqn:E; [|done]. apply (f_equal length) in E. by rewrite le_bytes_length in E. Qed.

Lemma read_entries_encode es fuel : Forall entry_ranges es -> (length es <= fuel)%nat ->
  read_entries fuel (concat (encode_entry <$> es)) = Ok (cut <$> es).
Proof.
  intros Hes. revert fuel. induction Hes as [|e es He _ IH]; intros fuel Hf; [by destruct fuel|].
  destruct fuel as [|fuel]; [cbn in Hf; lia|]. cbn [fmap list_fmap concat]. cbn [read_entries].
  pose proof (entry_nonempty e). destruct (encode_entry e ++ concat (encode_entry <$> es)) as [|b l] eqn:E.
  { by apply app_eq_nil in E as [? _]. }
  rewrite <- E, read_entry_encode by done. cbn [mbind res_bind]. rewrite IH by (cbn in Hf; lia). done.
Qed.

(** *** The writer loses nothing *)

Section writer_facts.
Context (crc_extend : Z -> list Z -> Z) `{!CrcLaws crc_extend}.
Context (idx_mem_usage : list (list Z * value_type) -> Z).
Context (place : list (list Z * value_type) -> list Z * value_type -> list (list Z * value_type)).
Hypothesis place_permutes : forall l kv, place l kv ≡ₚ kv :: l.

#[local] Abbreviation held x := (entry_of <$> _midx x).

Definition mem_of (l : list (list Z * value_type)) : Z := foldr (fun kv a => entry_mem_usage kv.1 + a) 0 l.

(** The writer's accounting, with the entries [es] written so far and at most [n] in all. *)
Record writer_ok (n : Z) (es : list entry) (x : t) : Prop := {
  wo_file : _appender x = concat (encode_entry <$> es);
  wo_size : f_size (_footer x) = u64 (blen (_appender x));
  wo_crc : _crc x = crc_extend 0 (_appender x);
  wo_mem : _keys_mem_usage x = u64 (mem_of (_midx x));
  wo_nodup : NoDup (_midx x).*1;
  wo_ranges : Forall entry_ranges (es ++ held x);
  wo_count : blen (es ++ held x) <= n;
}.

#[global] Instance mem_of_proper : Proper ((≡ₚ) ==> eq) mem_of.
Proof. intros l l' H. unfold mem_of. induction H; cbn; lia. Qed.

Lemma mem_of_cons k v l : mem_of ((k, v) :: l) = entry_mem_usage k + mem_of l.
Proof. done. Qed.

Lemma uwrap_sub_cancel a b : u64 (u64 (a + b) - a) = u64 b.
Proof. unfold uwrap. rewrite Zminus_mod_idemp_l. f_equal. lia. Qed.

Lemma spill_loop_ok fuel i r esz mins pos payload ps x :
  p_data payload = concat (encode_entry <$> ps) -> (length (_midx x) <= fuel)%nat ->
  (_midx x <> [] -> (pos < length (_midx x))%nat) ->
  _keys_mem_usage x = u64 (mem_of (_midx x)) -> NoDup (_midx x).*1 -> Forall entry_ranges (held x) ->
  exists payload' ps' x', spill_loop idx_mem_usage fuel i r esz mins pos payload x = Ok (payload', x') /\
    p_data payload' = concat (encode_entry <$> ps') /\ ps' ++ held x' ≡ₚ ps ++ held x /\
    _keys_mem_usage x' = u64 (mem_of (_midx x')) /\ (_midx x').*1 ⊆ (_midx x).*1 /\ NoDup (_midx x').*1 /\
    _appender x' = _appender x /\ _footer x' = _footer x /\ _crc x' = _crc x.
Proof.
  revert i pos payload ps x. induction fuel as [|fuel IH]; intros i pos payload ps x Hp Hf Hpos Hmem Hnd Hr;
    cbn [spill_loop]; destruct (stop_cond _ _ _ _ _ x) eqn:Hstop; try (by exists payload, ps, x).
  - unfold stop_cond in Hstop. destruct (_midx x); [done|cbn in Hf; lia].
  - assert (Hne : _midx x <> []) by (unfold stop_cond in Hstop; by destruct (_midx x)).
    specialize (Hpos Hne). destruct (lookup_lt_is_Some_2 _ _ Hpos) as [[k v] Hkv]. rewrite Hkv. cbn [deref mbind res_bind].
    pose proof (delete_Permutation _ _ _ Hkv) as Hperm.
    assert (Hkr : entry_ranges (entry_of (k, v))).
    { eapply Forall_lookup_1; [exact Hr|]. rewrite list_lookup_fmap, Hkv. done. }
    rewrite append_held by done. cbn [mbind res_bind release_entry_memory set_midx _midx].
    edestruct (IH (S i)) as (payload' & ps' & x' & E & Hp' & Hperm' & Hmem' & Hsub' & Hnd' & Ha & Hfo & Hc);
      [| | | | | |exists payload', ps', x'; split; [exact E|]]; cbn [p_data set_midx release_entry_memory _midx _keys_mem_usage _appender _footer _crc] in *.
    + rewrite Hp. instantiate (1 := ps ++ [entry_of (k, v)]). rewrite fmap_app, concat_app. cbn. by rewrite app_nil_r.
    + rewrite length_delete by done. lia.
    + intros Hne'. assert (0 < length (delete pos (_midx x)))%nat by (destruct (delete pos (_midx x)); [done|cbn; lia]).
      assert (length (delete pos (_midx x)) = length (_midx x) - 1)%nat by (by rewrite length_delete).
      destruct (Nat.eqb_spec pos (length (delete pos (_midx x)))); lia.
    + rewrite Hmem, (mem_of_proper _ _ Hperm), mem_of_cons. apply uwrap_sub_cancel.
    + rewrite Hperm in Hnd. cbn in Hnd. by apply NoDup_cons in Hnd as [_ ?].
    + rewrite Hperm in Hr. cbn in Hr. by apply Forall_cons in Hr as [_ ?].
    + repeat split; try done.
      * rewrite Hperm', <- app_assoc. cbn. by rewrite (fmap_Permutation entry_of _ _ Hperm).
      * intros k' Hk'%Hsub'. rewrite Hperm. cbn. set_solver.
Qed.

Lemma spill_ok n es x payload ps l : writer_ok n es x -> p_data payload = concat (encode_entry <$> ps) ->
  NoDup l.*1 -> ps ++ (entry_of <$> l) ≡ₚ held x -> _keys_mem_usage x = u64 (mem_of (_midx x)) ->
  forall x', _appender x' = _appender x -> _footer x' = _footer x -> _crc x' = _crc x -> _midx x' = l ->
  _keys_mem_usage x' = u64 (mem_of l) -> writer_ok n (es ++ ps) (spill crc_extend payload x').
Proof.
  intros [Hf Hs Hc Hm Hnd Hr Hn] Hp Hl Hperm _ x' Ha Hfo Hcr Hmi Hk.
  assert (Hall : (es ++ ps) ++ (entry_of <$> l) ≡ₚ es ++ held x) by (by rewrite <- app_assoc, Hperm).
  split; cbn [spill _appender _footer f_size _crc _midx _keys_mem_usage]; rewrite ?Ha, ?Hfo, ?Hcr, ?Hmi.
  - by rewrite Hf, Hp, fmap_app, concat_app.
  - rewrite Hs, blen_app. unfold uwrap. by rewrite Zplus_mod_idemp_l.
  - by rewrite Hc, crc_extend_app.
  - done.
  - done.
  - by rewrite Hall.
  - unfold blen in *. by rewrite Hall.
Qed.

Lemma place_after_lt k l : l <> [] -> (place_after k l < length l)%nat.
Proof.
  intros Hl. unfold place_after. destruct (list_find _ l) as [[i e]|] eqn:E; [|destruct l; [done|cbn; lia]].
  apply list_find_Some in E as (E%lookup_lt_Some & _). destruct (Nat.eqb_spec (S i) (length l)); lia.
Qed.

Lemma spill_some_ok n es r esz mins x : writer_ok n es x ->
  exists es' x', spill_some crc_extend idx_mem_usage r esz mins x = Ok x' /\ writer_ok n es' x' /\
    es' ++ held x' ≡ₚ es ++ held x /\ (_midx x').*1 ⊆ (_midx x).*1.
Proof.
  intros Hx. pose proof Hx as [Hf Hs Hc Hm Hnd Hr Hn]. unfold spill_some.
  destruct (spill_loop_ok (length (_midx x)) 0 r esz mins (place_after (_last_key_indexed x) (_midx x))
    {| p_data := []; p_keys := 0 |} [] x) as (payload & ps & x' & -> & Hp & Hperm & Hm' & Hsub & Hnd' & Ha & Hfo & Hcr);
    [done|done|by apply place_after_lt|done|done|by apply Forall_app in Hr as [_ ?]|].
  cbn [mbind res_bind app] in *.
  pose proof (spill_ok n es x payload ps (_midx x') Hx Hp Hnd' Hperm Hm x' Ha Hfo Hcr eq_refl Hm') as Hsp.
  exists (es ++ ps). destruct (p_data payload) as [|b l] eqn:Ep.
  - exists x'. split; [done|]. assert (ps = []) as ->.
    { by destruct ps as [|e ps]. }
    rewrite app_nil_r in *. split; [|by rewrite <- Hperm]. destruct Hsp as [H1 H2 H3 H4 H5 H6 H7]. split; try done; congruence.
  - eexists. split; [done|]. split; [done|]. by rewrite <- app_assoc, <- Hperm.
Qed.

Lemma add_key_ok n es r k v x : writer_ok n es x -> k ∉ (_midx x).*1 -> entry_ranges (entry_of (k, v)) ->
  exists es' x', add_key crc_extend idx_mem_usage place r k v x = Ok x' /\ writer_ok (n + 1) es' x' /\
    es' ++ held x' ≡ₚ entry_of (k, v) :: es ++ held x.
Proof.
  intros Hx Hk Hkr. unfold add_key.
  assert (exists es' x', (if (checkpoint_hint r && (total_mem idx_mem_usage (entry_mem_usage k) x >? (32 * 1024) `min` _max_mem x))
       || (total_mem idx_mem_usage (entry_mem_usage k) x >=? _max_mem x)
       then spill_some crc_extend idx_mem_usage r (entry_mem_usage k) ((32 * 1024) `min` _max_mem x) x else Ok x) = Ok x' /\
    writer_ok n es' x' /\ es' ++ held x' ≡ₚ es ++ held x /\ (_midx x').*1 ⊆ (_midx x).*1)
    as (es' & x' & -> & Hx' & Hperm & Hsub).
  { destruct (_ || _); [by apply spill_some_ok|by exists es, x]. }
  cbn [mbind res_bind]. eexists es', _. split; [done|]. cbn [_midx].
  assert (Hall : es' ++ (entry_of <$> place (_midx x') (k, v)) ≡ₚ entry_of (k, v) :: es ++ held x).
  { rewrite (fmap_Permutation entry_of _ _ (place_permutes _ _)). cbn. by rewrite <- Hperm, Permutation_middle. }
  split; [|done]. destruct Hx' as [Hf Hs Hc Hm Hnd Hr Hn], Hx as [_ _ _ _ _ Hr0 Hn0].
  split; cbn [_appender _footer _crc _midx _keys_mem_usage]; try done.
  - rewrite (mem_of_proper _ _ (place_permutes _ _)), mem_of_cons, Hm. unfold uwrap. rewrite Zplus_mod_idemp_l. f_equal. lia.
  - rewrite (fmap_Permutation fst _ _ (place_permutes _ _)). cbn. apply NoDup_cons. split; [|done]. by intros ?%Hsub.
  - rewrite Hall. by constructor.
  - unfold blen in *. rewrite Hall. cbn [length]. lia.
Qed.

(** *** Indexing keeps the largest entry of every key, by some measure of the entries *)

Definition covered (μ : entry -> Z) (rs l : list entry) : Prop :=
  forall r, r ∈ rs -> exists e, e ∈ l /\ e_key e = e_key r /\ μ r <= μ e.

Definition index_by (μ : entry -> Z) (r : resources) (e : entry) (x : t) : res t :=
  match find_value (e_key e) (_midx x) with
  | Some cur =>
      Ok (if μ e >? μ (entry_of (e_key e, cur))
          then set_midx (replace_value (e_key e) {| base_offset := e_offset e; delta := e_delta e |} (_midx x)) x else x)
  | None => add_key crc_extend idx_mem_usage place r (e_key e) {| base_offset := e_offset e; delta := e_delta e |} x
  end.

Lemma index_key_by r k o d x :
  index_key crc_extend idx_mem_usage place r k o d x
  = index_by e_offset r {| e_type := type_key; e_key := k; e_offset := o; e_delta := d |} x.
Proof. done. Qed.

Lemma index_record_by r ty c k o d x :
  index_record crc_extend idx_mem_usage place r ty c k o d x
  = index_by e_full r {| e_type := type_key; e_key := enhance_key ty c k; e_offset := o; e_delta := d |} x.
Proof. done. Qed.

Lemma find_value_Some k l v : find_value k l = Some v -> (k, v) ∈ l.
Proof.
  unfold find_value. destruct (list_find _ l) as [[i [k' v']]|] eqn:E; [|done]. intros [= <-].
  apply list_find_Some in E as (E & Hk & _). cbn in Hk. subst k'. by eapply list_elem_of_lookup_2.
Qed.

Lemma find_value_None k l : find_value k l = None -> k ∉ l.*1.
Proof.
  unfold find_value. destruct (list_find _ l) as [|] eqn:E; [done|]. intros _ Hin.
  apply list_find_None in E. apply list_elem_of_fmap in Hin as ([k' v] & -> & Hin).
  by apply (proj1 (Forall_forall _ _) E _ Hin).
Qed.

Lemma held_replace k v l : entry_of <$> replace_value k v l
  = (fun e => if decide (e_key e = k) then entry_of (k, v) else e) <$> (entry_of <$> l).
Proof.
  unfold replace_value. rewrite <- !list_fmap_compose. apply list_fmap_ext. intros i [k' v'] _. cbn. by case_decide.
Qed.

Lemma replace_keys k v l : (replace_value k v l).*1 = l.*1.
Proof.
  unfold replace_value. rewrite <- list_fmap_compose. apply list_fmap_ext. intros i [k' v'] _. cbn. by case_decide.
Qed.

Lemma replace_mem k v l : mem_of (replace_value k v l) = mem_of l.
Proof.
  induction l as [|[k' v'] l IH]; [done|]. unfold replace_value in *. rewrite fmap_cons. cbn [fst].
  case_decide; subst; rewrite !mem_of_cons; lia.
Qed.

Lemma covered_mono μ rs l l' : covered μ rs l -> (forall e, e ∈ l -> exists e', e' ∈ l' /\ e_key e' = e_key e /\ μ e <= μ e') ->
  covered μ rs l'.
Proof.
  intros Hc Hl r Hr. destruct (Hc r Hr) as (e & He & Hk & Hm). destruct (Hl e He) as (e' & He' & Hk' & Hm').
  exists e'. split; [done|]. split; [congruence|lia].
Qed.

Lemma same_key_held x kv1 kv2 : NoDup (_midx x).*1 -> kv1 ∈ _midx x -> kv2 ∈ _midx x -> kv1.1 = kv2.1 -> kv1 = kv2.
Proof.
  intros Hnd H1 H2 He. apply list_elem_of_lookup in H1 as [i H1]. apply list_elem_of_lookup in H2 as [j H2].
  assert (i = j) as ->; [|congruence].
  eapply (NoDup_lookup _ _ _ kv1.1 Hnd); rewrite list_lookup_fmap; [by rewrite H1|by rewrite H2, He].
Qed.

Lemma index_by_ok μ n es r e rs x : writer_ok n es x -> e_type e = type_key -> entry_ranges e ->
  covered μ rs (es ++ held x) -> es ++ held x ⊆ rs ->
  exists es' x', index_by μ r e x = Ok x' /\ writer_ok (n + 1) es' x' /\
    covered μ (e :: rs) (es' ++ held x') /\ es' ++ held x' ⊆ e :: rs.
Proof.
  intros Hx Hty Her Hcov Hsub. unfold index_by.
  assert (He : entry_of (e_key e, {| base_offset := e_offset e; delta := e_delta e |}) = e)
    by (destruct e; cbn in *; by subst).
  destruct (find_value (e_key e) (_midx x)) as [cur|] eqn:Ef.
  2:{ destruct (add_key_ok n es r (e_key e) {| base_offset := e_offset e; delta := e_delta e |} x)
        as (es' & x' & -> & Hx' & Hperm); [done|by apply find_value_None|by rewrite He|]. rewrite He in Hperm.
      exists es', x'. split; [done|]. split; [done|]. split; [|intros e'; rewrite Hperm; set_solver].
      intros r' [->|Hr']%elem_of_cons.
      - exists e. split; [rewrite Hperm; set_solver|done].
      - destruct (Hcov r' Hr') as (e' & ? & ?). exists e'. split; [rewrite Hperm; set_solver|done]. }
  apply find_value_Some in Ef. pose proof Hx as [Hf Hs Hc Hm Hnd Hr Hn].
  destruct (Z.gtb_spec (μ e) (μ (entry_of (e_key e, cur)))) as [Hgt|Hle].
  - eexists es, _. split; [done|]. cbn [set_midx _midx].
    rewrite held_replace, He. set (f := fun e0 => if decide (e_key e0 = e_key e) then e else e0).
    assert (Hin : e ∈ f <$> held x).
    { apply list_elem_of_fmap. exists (entry_of (e_key e, cur)). split; [|by apply (list_elem_of_fmap_2 entry_of)].
      unfold f. cbn. by rewrite decide_True. }
    assert (Hmove : forall e', e' ∈ es ++ held x -> exists e'', e'' ∈ es ++ (f <$> held x) /\ e_key e'' = e_key e' /\ μ e' <= μ e'').
    { intros e' [He'|He']%elem_of_app; [exists e'; set_solver by lia|].
      destruct (decide (e_key e' = e_key e)) as [Hk|Hk].
      - exists e. split; [set_solver|]. split; [done|]. apply list_elem_of_fmap in He' as (kv & -> & Hkv).
        rewrite (same_key_held x kv (e_key e, cur) Hnd Hkv Ef Hk). lia.
      - exists e'. split; [|done]. apply elem_of_app. right. apply list_elem_of_fmap. exists e'. split; [|done].
        unfold f. by rewrite decide_False. }
    assert (Hsub' : es ++ (f <$> held x) ⊆ e :: rs).
    { intros e' [He'|He']%elem_of_app; [set_solver|]. apply list_elem_of_fmap in He' as (e0 & -> & He0). unfold f.
      case_decide; set_solver. }
    split.
    + split; cbn [set_midx _appender _footer _crc _midx _keys_mem_usage]; try done.
      * by rewrite replace_mem.
      * by rewrite replace_keys.
      * rewrite held_replace, He. apply Forall_app in Hr as [? Hr]. apply Forall_app. split; [done|].
        apply Forall_fmap. eapply Forall_impl; [exact Hr|]. intros e0 ?. cbn. by case_decide.
      * rewrite held_replace. unfold blen in *. rewrite !length_app, !length_fmap in *. lia.
    + split; [|done]. intros r' [->|Hr']%elem_of_cons; [exists e; set_solver|]. exact (covered_mono μ rs _ _ Hcov Hmove r' Hr').
  - exists es, x. split; [done|]. split; [split; try done; lia|]. split; [|set_solver].
    intros r' [->|Hr']%elem_of_cons; [|by apply Hcov].
    exists (entry_of (e_key e, cur)). split; [|split; [done|lia]]. apply elem_of_app. right. by apply (list_elem_of_fmap_2 entry_of).
Qed.

Lemma make_ok mem : writer_ok 0 [] (make mem).
Proof. split; cbn; first [done|by rewrite crc_extend_nil|constructor]. Qed.

Lemma set_flag_ok f n es x : writer_ok n es x -> writer_ok n es (set_flag f x).
Proof. intros [? ? ? ? ? ? ?]. by split. Qed.

Lemma drain_ok n l x es : writer_ok n es x -> _midx x = l ->
  exists x', drain_loop crc_extend l x = Ok x' /\ writer_ok n (es ++ (entry_of <$> l)) x' /\ _midx x' = [] /\
    f_flags (_footer x') = f_flags (_footer x).
Proof.
  revert x es. induction l as [|[k v] l IH]; intros x es Hx Hl; cbn [drain_loop].
  - eexists. split; [done|]. split; [|done]. cbn. rewrite app_nil_r. destruct Hx as [Hf Hs Hc Hm Hnd Hr Hn].
    rewrite Hl in *. by split.
  - pose proof Hx as [Hf Hs Hc Hm Hnd Hr Hn]. rewrite Hl in *. unfold spill_one.
    assert (Hkr : entry_ranges (entry_of (k, v))).
    { apply Forall_app in Hr as [_ Hr]. by apply Forall_cons in Hr as [? _]. }
    rewrite append_held by done. cbn [mbind res_bind].
    set (payload := {| p_data := _; p_keys := _ |}).
    edestruct (IH (spill crc_extend payload (release_entry_memory k (set_midx l x))) (es ++ [entry_of (k, v)]))
      as (x' & E & Hx' & Hmi & Hfl); [| |exists x'; split; [exact E|]].
    + eapply (spill_ok n es x _ [entry_of (k, v)] l Hx); cbn; try done.
      * by rewrite app_nil_r.
      * by apply NoDup_cons in Hnd as [_ ?].
      * by rewrite Hl.
      * by rewrite Hl.
      * rewrite Hm. apply uwrap_sub_cancel.
    + done.
    + rewrite <- app_assoc in Hx'. done.
Qed.

(** A closed file has the entries written and those that were still held. *)
Lemma close_writer_ok n es x : writer_ok n es x ->
  exists f, close crc_extend x = Ok f /\ data f = concat (encode_entry <$> (es ++ held x)) /\
    f_size (foot f) = u64 (blen (data f)) /\ f_crc (foot f) = crc_extend 0 (data f) /\
    f_flags (foot f) = f_flags (_footer x).
Proof.
  intros Hx. unfold close, drain_all_keys.
  destruct (drain_ok n (_midx x) x es Hx eq_refl) as (x' & -> & [Hf Hs Hc Hm _ _ _] & Hmi & Hfl). cbn [mbind res_bind].
  rewrite Hm, Hmi. cbn. eexists. split; [done|]. by rewrite <- Hf.
Qed.

Lemma encoded_size es : Forall entry_ranges es -> blen (concat (encode_entry <$> es)) <= max_entry_size * blen es.
Proof.
  induction 1 as [|e es He _ IH]; [done|]. cbn [fmap list_fmap concat]. rewrite blen_app, blen_cons.
  unfold encode_entry at 1. rewrite blen_app. pose proof (encode_body_bounds e He).
  assert (blen (le_bytes 2 (blen (encode_body e))) = 2) as -> by (unfold blen; by rewrite le_bytes_length). lia.
Qed.

Lemma read_entries_length es : (length es <= length (concat (encode_entry <$> es)))%nat.
Proof.
  induction es as [|e es IH]; [done|]. cbn [fmap list_fmap concat length]. rewrite length_app.
  pose proof (entry_nonempty e). destruct (encode_entry e); [done|cbn [length]; lia].
Qed.

Lemma file_entries_ok es f : Forall entry_ranges es -> blen es < 2 ^ 40 ->
  data f = concat (encode_entry <$> es) -> f_size (foot f) = u64 (blen (data f)) ->
  file_entries f = Ok (cut <$> es).
Proof.
  intros Hr Hn Hd Hs. pose proof (encoded_size es Hr) as Hb. unfold file_entries. rewrite Hs, Hd.
  rewrite uwrap_id by (pose proof (blen_nonneg (concat (encode_entry <$> es))); unfold max_entry_size in *; ranges).
  rewrite btake_whole by done. apply read_entries_encode; [done|apply read_entries_length].
Qed.

(** Closing a writer and reading the file. *)
Lemma close_reads n es x : writer_ok n es x -> n < 2 ^ 40 ->
  exists f, close crc_extend x = Ok f /\ file_entries f = Ok (cut <$> (es ++ held x)) /\
    verify_integrity crc_extend f = Ok tt /\ f_flags (foot f) = f_flags (_footer x).
Proof.
  intros Hx Hn. destruct (close_writer_ok n es x Hx) as (f & Hc & Hd & Hs & Hcrc & Hfl). destruct Hx as [_ _ _ _ _ Hr Hcnt].
  exists f. split; [done|]. split; [by apply file_entries_ok; [done|lia|done|done]|]. split; [|done].
  unfold verify_integrity. rewrite Hs, Hd, uwrap_id.
  - rewrite btake_whole by done. by rewrite Hcrc, Hd, Z.eqb_refl.
  - pose proof (encoded_size _ Hr). pose proof (blen_nonneg (concat (encode_entry <$> (es ++ held x)))).
    unfold max_entry_size in *. ranges.
Qed.

(** *** Copying the entries of a bitmap *)

Fixpoint chosen (i : Z) (bm : gset Z) (es : list entry) : list entry :=
  match es with
  | [] => []
  | e :: es => (if decide (i ∈ bm) then [e] else []) ++ chosen (i + 1) bm es
  end.

Lemma filtered_copy_ok env n i bm es ws rs w : writer_ok n ws w ->
  0 <= i -> i + blen es < 2 ^ 32 -> Forall (fun e => e_type e = type_key) es -> Forall entry_ranges es ->
  covered e_offset rs (ws ++ held w) -> ws ++ held w ⊆ rs ->
  exists ws' w', filtered_copy crc_extend idx_mem_usage place env i bm es w = Ok w' /\
    writer_ok (n + blen es) ws' w' /\ covered e_offset (chosen i bm es ++ rs) (ws' ++ held w') /\
    ws' ++ held w' ⊆ chosen i bm es ++ rs.
Proof.
  revert n i ws rs w. induction es as [|e es IH]; intros n i ws rs w Hw H0 Hi Hty Hr Hcov Hsub.
  { exists ws, w. cbn. rewrite Z.add_0_r. done. }
  apply Forall_cons in Hty as [Hty Htys]. apply Forall_cons in Hr as [Hr Hrs]. rewrite blen_cons in *.
  pose proof (blen_nonneg es). cbn [filtered_copy chosen]. rewrite uwrap_id by ranges.
  case_decide as Hin; cbn [mbind res_bind].
  - rewrite index_key_by.
    replace {| e_type := type_key; e_key := e_key e; e_offset := e_offset e; e_delta := e_delta e |} with e
      by (destruct e; cbn in *; by subst).
    destruct (index_by_ok e_offset n ws (env (Z.to_nat i)) e rs w Hw Hty Hr Hcov Hsub)
      as (ws1 & w1 & -> & Hw1 & Hcov1 & Hsub1). cbn [mbind res_bind].
    destruct (IH (n + 1) (i + 1) ws1 (e :: rs) w1) as (ws' & w' & -> & Hw' & Hcov' & Hsub'); try done; try lia.
    exists ws', w'. split; [done|]. split; [by rewrite Z.add_assoc|]. split.
    + intros r Hr'. apply Hcov'. set_solver.
    + intros r Hr'. apply Hsub' in Hr'. set_solver.
  - destruct (IH n (i + 1) ws rs w) as (ws' & w' & -> & Hw' & Hcov' & Hsub'); try done; try lia.
    exists ws', w'. split; [done|]. split; [|done]. destruct Hw'. split; try done. lia.
Qed.

End writer_facts.

End index_facts.

(** ** The reducer keeps the latest entry of every key *)

Module reducer_facts.
Import compaction_key_reducer.

Section reducer_facts.
Context (_hasher : list Z -> Z) (idx_mem_usage : list (Z * value_type) -> Z).

(** [kept i x]: the entry numbered [i] is among those to keep. *)
Definition kept (i : Z) (x : t) : Prop := i ∈ _inverted x \/ exists h v, (h, v) ∈ _indices x /\ natural_index v = i.

Record reducer_ok (es : list entry) (x : t) : Prop := {
  ro_next : _natural_index x = blen es;
  ro_sound : forall h v, (h, v) ∈ _indices x -> exists e, es !! Z.to_nat (natural_index v) = Some e /\
    0 <= natural_index v /\ e_key e = key v /\ e_full e = offset v;
  ro_kept : forall e, e ∈ es -> exists i e', es !! i = Some e' /\ e_key e' = e_key e /\ e_full e <= e_full e' /\
    kept (Z.of_nat i) x;
}.

Lemma evict_ok ks mm km inv l km' inv' l' : evict idx_mem_usage ks mm km inv l = (km', inv', l') ->
  l' ⊆ l /\ (forall i, i ∈ inv \/ (exists h v, (h, v) ∈ l /\ natural_index v = i) ->
             i ∈ inv' \/ (exists h v, (h, v) ∈ l' /\ natural_index v = i)).
Proof.
  revert km inv. induction l as [|[h v] l IH]; intros km inv; cbn [evict].
  { intros [= <- <- <-]. done. }
  destruct (_ >=? _).
  - intros E%IH. destruct E as [Hsub Hk]. split; [set_solver|]. intros i [Hi|(h' & v' & Hin & Hi)].
    + apply Hk. set_solver.
    + apply elem_of_cons in Hin as [[= -> ->]|Hin]; apply Hk; [left; set_solver|right; eauto].
  - intros [= <- <- <-]. done.
Qed.

Lemma emplace_elem h v l x : x ∈ emplace h v l <-> x = (h, v) \/ x ∈ l.
Proof.
  induction l as [|[h' v'] l IH]; cbn [emplace]; [set_solver|]. destruct (h <? h'); [set_solver|].
  rewrite elem_of_cons, IH. set_solver.
Qed.

Lemma found_elem k h l : found k h l = true -> exists v, (h, v) ∈ l /\ key v = k.
Proof.
  unfold found. rewrite existsb_exists. intros ([h' v] & Hin%list_elem_of_In & Hb).
  apply andb_true_iff in Hb as [Hh%Z.eqb_eq Hk%bool_decide_eq_true]. subst. eauto.
Qed.

(** The entry that is updated, and the others. *)
Lemma update_first_split k h o ni l : found k h l = true -> exists l1 v l2, l = l1 ++ (h, v) :: l2 /\ key v = k /\
  update_first k h o ni l = l1 ++ (h, if o >? offset v then {| key := key v; offset := o; natural_index := ni |} else v) :: l2.
Proof.
  induction l as [|[h' v] l IH]; cbn; [done|]. destruct ((h' =? h) && bool_decide (key v = k)) eqn:E; cbn.
  - apply andb_true_iff in E as [->%Z.eqb_eq Hk%bool_decide_eq_true]. intros _. by exists [], v, l.
  - intros Hf. destruct (IH Hf) as (l1 & v1 & l2 & -> & Hk & ->). by exists ((h', v) :: l1), v1, l2.
Qed.

Lemma lookup_snoc_old {A} (l : list A) x i y : l !! i = Some y -> (l ++ [x]) !! i = Some y.
Proof. intros E. rewrite lookup_app_l; [done|by eapply lookup_lt_Some]. Qed.

Lemma lookup_snoc_new {A} (l : list A) x : (l ++ [x]) !! length l = Some x.
Proof. rewrite lookup_app_r, Nat.sub_diag by done. done. Qed.

(** A key that is held: its entry is replaced if the new one is later. *)
Lemma step_found_ok es e x : reducer_ok es x -> found (e_key e) (_hasher (e_key e)) (_indices x) = true ->
  forall km mm, reducer_ok (es ++ [e])
    {| _keys_mem_usage := km; _max_mem := mm; _natural_index := blen es + 1; _inverted := _inverted x;
       _indices := update_first (e_key e) (_hasher (e_key e)) (e_full e) (blen es) (_indices x) |}.
Proof.
  intros [Hn Hs Hk] Ef km mm.
  destruct (update_first_split _ _ (e_full e) (blen es) _ Ef) as (l1 & v & l2 & Hl & Hkv & Hu). rewrite Hu.
  split; cbn [_natural_index _indices _inverted].
  - rewrite blen_app. done.
  - intros h' v'. rewrite elem_of_app, elem_of_cons. intros Hin.
    assert (Hcase : (h', v') ∈ _indices x \/ v' = {| key := key v; offset := e_full e; natural_index := blen es |}).
    { rewrite Hl, elem_of_app, elem_of_cons. destruct (_ >? _); naive_solver. }
    destruct Hcase as [Hin'| ->].
    + destruct (Hs _ _ Hin') as (e0 & He0 & ?). exists e0. split; [by apply lookup_snoc_old|done].
    + exists e. cbn. unfold blen. rewrite Nat2Z.id. split; [apply lookup_snoc_new|]. split; [lia|done].
  - assert (Hv : (_hasher (e_key e), v) ∈ _indices x) by (rewrite Hl; set_solver).
    destruct (Hs _ _ Hv) as (ev & Hev & Hev0 & Hekv & Heo).
    assert (Hnew : exists i e', (es ++ [e]) !! i = Some e' /\ e_key e' = e_key e /\ e_full e <= e_full e' /\
      e_full ev <= e_full e' /\ exists h v', (h, v') ∈ (l1 ++ (_hasher (e_key e), if e_full e >? offset v
         then {| key := key v; offset := e_full e; natural_index := blen es |} else v) :: l2) /\ natural_index v' = Z.of_nat i).
    { destruct (Z.gtb_spec (e_full e) (offset v)) as [Hgt|Hle].
      - exists (length es), e. split; [apply lookup_snoc_new|]. split; [done|]. split; [lia|]. split; [lia|].
        eexists _, _. split; [apply elem_of_app; right; left|done].
      - exists (Z.to_nat (natural_index v)), ev. split; [by apply lookup_snoc_old|]. split; [congruence|]. split; [lia|]. split; [lia|].
        eexists _, _. split; [apply elem_of_app; right; left|lia]. }
    destruct Hnew as (i0 & e0 & Hi0 & Hk0 & Hf0 & Hf1 & Hin0).
    intros e1 [He1| ->%list_elem_of_singleton]%elem_of_app; [|exists i0, e0; by split; [|split; [|split; [|right]]]].
    destruct (Hk e1 He1) as (i & e' & Hi & Hke & Hfe & [Hinv|(h & v' & Hin & Hni)]).
    + exists i, e'. split; [by apply lookup_snoc_old|]. do 2 (split; [done|]). by left.
    + rewrite Hl, elem_of_app, elem_of_cons in Hin. destruct Hin as [Hin|[[= -> ->]|Hin]].
      * exists i, e'. split; [by apply lookup_snoc_old|]. do 2 (split; [done|]). right. exists h, v'. set_solver.
      * rewrite Hni, Nat2Z.id, Hi in Hev. injection Hev as ->.
         exists i0, e0. split; [done|]. split; [congruence|]. split; [lia|]. by right.
      * exists i, e'. split; [by apply lookup_snoc_old|]. do 2 (split; [done|]). right. exists h, v'. set_solver.
Qed.

(** A new key: what is evicted to make room is kept. *)
Lemma step_insert_ok es e x km inv l ks mm0 km0 : reducer_ok es x ->
  evict idx_mem_usage ks mm0 km0 (_inverted x) (_indices x) = (km, inv, l) ->
  forall km' mm, reducer_ok (es ++ [e])
    {| _keys_mem_usage := km'; _max_mem := mm; _natural_index := blen es + 1; _inverted := inv;
       _indices := emplace (_hasher (e_key e)) {| key := e_key e; offset := e_full e; natural_index := blen es |} l |}.
Proof.
  intros [Hn Hs Hk] Ee km' mm.
  destruct (evict_ok _ _ _ _ _ _ _ _ Ee) as [Hsub Hev].
  split; cbn [_natural_index _indices _inverted].
  - rewrite blen_app. done.
  - intros h' v'. rewrite emplace_elem. intros [[= -> ->]|Hin].
    + exists e. cbn. unfold blen. rewrite Nat2Z.id. split; [apply lookup_snoc_new|]. split; [lia|done].
    + apply Hsub in Hin. destruct (Hs _ _ Hin) as (e0 & He0 & ?). exists e0. split; [by apply lookup_snoc_old|done].
  - intros e1 [He1| ->%list_elem_of_singleton]%elem_of_app.
    + destruct (Hk e1 He1) as (i & e' & Hi & Hke & Hfe & Hkept). exists i, e'. split; [by apply lookup_snoc_old|]. do 2 (split; [done|]).
      apply Hev in Hkept as [Hkept|(h & v & Hin & Hni)]; [by left|]. right. exists h, v. cbn. rewrite emplace_elem. eauto.
    + exists (length es), e. split; [apply lookup_snoc_new|]. do 2 (split; [done|]). right.
      eexists _, _. cbn. rewrite emplace_elem. split; [by left|done].
Qed.

Lemma reducer_step_ok es e x : reducer_ok es x -> blen es + 1 < 2 ^ 32 -> reducer_ok (es ++ [e]) (step _hasher idx_mem_usage e x).
Proof.
  intros Hx Hb. pose proof (blen_nonneg es). unfold step. rewrite (ro_next _ _ Hx), uwrap_id by ranges.
  destruct (found _ _ _) eqn:Ef; [by apply step_found_ok|].
  destruct (evict _ _ _ _ _ _) as [[km inv] l] eqn:Ee. by eapply step_insert_ok.
Qed.

Lemma steps_ok es done x : reducer_ok done x -> blen done + blen es < 2 ^ 32 ->
  reducer_ok (done ++ es) (foldl (fun x e => step _hasher idx_mem_usage e x) x es).
Proof.
  revert done x. induction es as [|e es IH]; intros done x Hx Hb; [by rewrite app_nil_r|]. rewrite blen_cons in Hb.
  pose proof (blen_nonneg es). cbn [foldl]. rewrite cons_middle, app_assoc. apply IH; [apply reducer_step_ok; [done|lia]|].
  rewrite blen_app. change (blen [e]) with 1. lia.
Qed.

Lemma end_of_stream_elem i x : i ∈ end_of_stream x <-> kept i x.
Proof.
  unfold end_of_stream, kept. generalize (_inverted x). induction (_indices x) as [|[h v] l IH]; intros s; cbn [foldl].
  - set_solver.
  - rewrite IH. set_solver.
Qed.

(** For every entry the bitmap has one of the same key that is as late. *)
Lemma bitmap_covers max_mem es : blen es < 2 ^ 32 ->
  forall e, e ∈ es -> exists i e', es !! i = Some e' /\ e_key e' = e_key e /\ e_full e <= e_full e' /\
    Z.of_nat i ∈ natural_index_of_entries_to_keep _hasher idx_mem_usage max_mem es.
Proof.
  intros Hb e He. unfold natural_index_of_entries_to_keep.
  assert (H0 : reducer_ok [] (make max_mem)) by (split; [done| |]; set_solver).
  destruct (ro_kept _ _ (steps_ok es [] _ H0 Hb) e He) as (i & e' & Hi & Hk & Hf & Hkept).
  exists i, e'. by rewrite end_of_stream_elem.
Qed.

End reducer_facts.
End reducer_facts.

(** ** Self compaction of the file *)

Import index_facts.

(** The entries a file can hold: keys are cut when they are written. *)
Record index_entries_ok (es : list entry) : Prop := {
  ix_types : Forall (fun e => e_type e = type_key) es;
  ix_ranges : Forall entry_ranges es;
  ix_keys : Forall (fun e => blen (e_key e) <= spill_key_index.max_key_size) es;
  ix_count : blen es < 2 ^ 32;
}.

Lemma chosen_elem bm es i j e : es !! j = Some e -> i + Z.of_nat j ∈ bm -> e ∈ chosen i bm es.
Proof.
  revert i j. induction es as [|e0 es IH]; intros i [|j]; cbn; [done|done| |].
  - intros [= ->]. rewrite Z.add_0_r. intros Hin. rewrite decide_True by done. set_solver.
  - intros Hj Hin. apply elem_of_app. right. apply (IH (i + 1) j Hj). by replace (i + 1 + Z.of_nat j) with (i + Z.of_nat (S j)) by lia.
Qed.

Lemma chosen_sub bm es i : chosen i bm es ⊆ es.
Proof. revert i. induction es as [|e0 es IH]; intros i; cbn; [done|]. specialize (IH (i + 1)). case_decide; set_solver. Qed.

Lemma cut_short e : blen (e_key e) <= spill_key_index.max_key_size -> cut e = e.
Proof. intros H. unfold cut. rewrite btake_whole by done. by destruct e. Qed.

Lemma cut_short_list es : Forall (fun e => blen (e_key e) <= spill_key_index.max_key_size) es -> cut <$> es = es.
Proof. induction 1 as [|e es He _ IH]; [done|]. cbn. by rewrite cut_short, IH. Qed.

Section self_compaction_facts.
Context (crc_extend : Z -> list Z -> Z) `{!CrcLaws crc_extend}.
Context (idx_mem_usage : list (list Z * spill_key_index.value_type) -> Z).
Context (place : list (list Z * spill_key_index.value_type) -> list Z * spill_key_index.value_type ->
  list (list Z * spill_key_index.value_type)).
Hypothesis place_permutes : forall l kv, place l kv ≡ₚ kv :: l.
Context (_hasher : list Z -> Z) (tree_mem_usage : list (Z * compaction_key_reducer.value_type) -> Z).

(** The file of a writer that is marked as compacted and closed. *)
Lemma clean_file n ws w : writer_ok crc_extend n ws w -> n < 2 ^ 40 ->
  Forall (fun e => blen (e_key e) <= spill_key_index.max_key_size) (ws ++ (entry_of <$> spill_key_index._midx w)) ->
  exists g, spill_key_index.close crc_extend (spill_key_index.set_flag flag_self_compaction w) = Ok g /\
    file_entries g = Ok (ws ++ (entry_of <$> spill_key_index._midx w)) /\
    detect_compaction_index_state crc_extend (Some g) = already_compacted.
Proof.
  intros Hw Hn Hk. set (wf := spill_key_index.set_flag flag_self_compaction w).
  assert (Hwf : writer_ok crc_extend n ws wf) by (by apply set_flag_ok).
  destruct (close_reads crc_extend n ws wf Hwf Hn) as (g & -> & Hg & Hi & Hfl).
  exists g. split; [done|]. split; [rewrite Hg; f_equal; by apply cut_short_list|].
  cbn. rewrite Hi, Hfl. cbn [wf spill_key_index.set_flag spill_key_index._footer f_flags].
  rewrite Z.land_lor_distr_l. change (Z.land flag_self_compaction flag_self_compaction) with 2.
  assert (negb (Z.lor (Z.land (f_flags (spill_key_index._footer w)) flag_self_compaction) 2 =? 0) = true) as ->; [|done].
  apply negb_true_iff, Z.eqb_neq. intros E. apply Z.lor_eq_0_iff in E as [_ E]. discriminate.
Qed.

Lemma write_clean_index env max_mem f es : file_entries f = Ok es -> index_entries_ok es ->
  exists g es', do_write_clean_compacted_index crc_extend idx_mem_usage place _hasher tree_mem_usage env max_mem f = Ok g /\
    file_entries g = Ok es' /\ detect_compaction_index_state crc_extend (Some g) = already_compacted /\
    es' ⊆ es /\ covered e_offset (chosen 0 (natural_index_of_entries_to_keep _hasher tree_mem_usage max_mem es) es) es'.
Proof.
  intros Hf [Hty Hr Hk Hn]. unfold do_write_clean_compacted_index, copy_filtered_entries. rewrite Hf. cbn [mbind res_bind].
  set (bm := natural_index_of_entries_to_keep _ _ _ _).
  destruct (filtered_copy_ok crc_extend idx_mem_usage place place_permutes env 0 0 bm es [] []
    (spill_key_index.make spill_key_index.default_max_mem) ltac:(by apply make_ok) ltac:(lia) ltac:(lia) Hty Hr)
    as (ws & w & -> & Hw & Hcov & Hsub); [intros ?; set_solver|set_solver|]. cbn [mbind res_bind].
  rewrite app_nil_r in *. assert (Hsub2 : ws ++ (entry_of <$> spill_key_index._midx w) ⊆ es).
  { intros e He. apply (chosen_sub bm es 0). by apply Hsub. }
  destruct (clean_file (0 + blen es) ws w Hw ltac:(ranges)) as (g & -> & Hg & Hst).
  { rewrite Forall_forall in *. intros e He. by apply Hk, Hsub2. }
  by exists g, (ws ++ (entry_of <$> spill_key_index._midx w)).
Qed.

(** *** Two entries of one key in one batch *)

(** The entries the reducer puts into the bitmap for good. *)
Lemma inverted_step e x : compaction_key_reducer._inverted x ⊆ compaction_key_reducer._inverted (compaction_key_reducer.step _hasher tree_mem_usage e x).
Proof.
  unfold compaction_key_reducer.step. destruct (compaction_key_reducer.found _ _ _); [done|].
  destruct (compaction_key_reducer.evict _ _ _ _ _ _) as [[km inv] l] eqn:Ee.
  intros i Hi. cbn. revert Ee. generalize (compaction_key_reducer._keys_mem_usage x). revert Hi. generalize (compaction_key_reducer._inverted x).
  induction (compaction_key_reducer._indices x) as [|[h v] idx IH]; intros s0 Hi km0; cbn [compaction_key_reducer.evict]; [by intros [= _ <- _]|].
  case_match; [|by intros [= _ <- _]]. apply IH. set_solver.
Qed.

Lemma inverted_steps es x i : i ∈ compaction_key_reducer._inverted x ->
  i ∈ compaction_key_reducer._inverted (foldl (fun x e => compaction_key_reducer.step _hasher tree_mem_usage e x) x es).
Proof. revert x. induction es as [|e es IH]; intros x Hi; [done|]. apply IH. by apply inverted_step. Qed.

(** The entry numbered [length l1] has been evicted by the time the reducer has read [l1 ++ e1 :: l2]. *)
Definition evicted_before (max_mem : Z) (l1 : list entry) (e1 : entry) (l2 : list entry) : Prop :=
  blen l1 ∈ compaction_key_reducer._inverted (foldl (fun x e => compaction_key_reducer.step _hasher tree_mem_usage e x)
              (compaction_key_reducer.make max_mem) (l1 ++ e1 :: l2)).

Lemma evicted_in_bitmap max_mem l1 e1 l2 l : evicted_before max_mem l1 e1 l2 ->
  blen l1 ∈ natural_index_of_entries_to_keep _hasher tree_mem_usage max_mem ((l1 ++ e1 :: l2) ++ l).
Proof.
  intros H. unfold natural_index_of_entries_to_keep. rewrite foldl_app. apply (reducer_facts.end_of_stream_elem tree_mem_usage). left.
  by apply inverted_steps.
Qed.

Section quiet.
(** A writer with room for [count] entries that take [c] bytes each, next to the memory of its table. *)
Context (env : nat -> spill_key_index.resources) (c m count : Z).
Hypothesis no_hint : forall i, spill_key_index.checkpoint_hint (env i) = false.
Hypothesis table_memory : forall l, blen l < count -> 0 <= idx_mem_usage l <= m.
Hypothesis room : m + c * count < spill_key_index.default_max_mem.

Abbreviation held x := (entry_of <$> spill_key_index._midx x).

(** A writer that holds entries of [seen] and has written none. *)
Record quiet (n : Z) (seen : list entry) (x : spill_key_index.t) : Prop := {
  qu_ok : writer_ok crc_extend n [] x;
  qu_max : spill_key_index._max_mem x = spill_key_index.default_max_mem;
  qu_seen : held x ⊆ seen;
}.

Lemma entry_mem_nonneg k : 0 <= spill_key_index.entry_mem_usage k.
Proof. unfold spill_key_index.entry_mem_usage. pose proof (blen_nonneg k). destruct (_ >? _); lia. Qed.

Lemma held_memory x seen : held x ⊆ seen -> Forall (fun e => spill_key_index.entry_mem_usage (e_key e) <= c) seen ->
  0 <= mem_of (spill_key_index._midx x) <= c * blen (spill_key_index._midx x).
Proof.
  intros Hs Hc. assert (H : Forall (fun kv => spill_key_index.entry_mem_usage kv.1 <= c) (spill_key_index._midx x)).
  { apply Forall_forall. intros kv Hkv. rewrite Forall_forall in Hc. by apply (Hc (entry_of kv)), Hs, list_elem_of_fmap_2. }
  clear Hs. revert H. generalize (spill_key_index._midx x). intros mi H. induction H as [|[k v] l Hk _ IH]; [unfold blen; cbn; lia|]. rewrite mem_of_cons, blen_cons. cbn [fst] in Hk.
  pose proof (entry_mem_nonneg k). lia.
Qed.

(** An entry added to a quiet writer does not make it spill. *)
Lemma quiet_step n seen i e x : quiet n seen x -> n < count -> e_type e = type_key -> entry_ranges e ->
  Forall (fun e => spill_key_index.entry_mem_usage (e_key e) <= c) (e :: seen) ->
  exists x', index_by crc_extend idx_mem_usage place e_offset (env i) e x = Ok x' /\ quiet (n + 1) (e :: seen) x' /\
    covered e_offset (e :: held x) (held x') /\
    forall e', e' ∈ held x' -> e' ∈ held x \/ e' = e /\ forall e0, e0 ∈ held x -> e_key e0 = e_key e -> e_offset e0 < e_offset e.
Proof.
  intros [Hx Hm Hs] Hn Hty Hr Hc. apply Forall_cons in Hc as [Hce Hc]. pose proof (held_memory x seen Hs Hc) as Hmem.
  pose proof Hx as [_ _ _ Hk Hnd _ Hcnt]. cbn [app] in Hcnt. unfold blen in Hcnt. rewrite length_fmap in Hcnt. fold (blen (spill_key_index._midx x)) in Hcnt.
  destruct (index_by_ok crc_extend idx_mem_usage place place_permutes e_offset n [] (env i) e (held x) x Hx Hty Hr)
    as (es' & x' & Ei & Hx' & Hcov & Hsub); [by intros r Hr'; exists r|done|].
  assert (He : entry_of (e_key e, {| spill_key_index.base_offset := e_offset e; spill_key_index.delta := e_delta e |}) = e)
    by (destruct e; cbn in *; by subst).
  assert (Hq : spill_key_index._appender x' = spill_key_index._appender x /\ spill_key_index._max_mem x' = spill_key_index._max_mem x /\
    forall e', e' ∈ held x' -> e' ∈ held x \/ e' = e /\ forall e0, e0 ∈ held x -> e_key e0 = e_key e -> e_offset e0 < e_offset e).
  { unfold index_by in Ei. destruct (spill_key_index.find_value _ _) as [cur|] eqn:Ef.
    - apply find_value_Some in Ef. destruct (Z.gtb_spec (e_offset e) (e_offset (entry_of (e_key e, cur)))) as [Hgt|]; injection Ei as <-; [|by split_and!; [| |left]].
      do 2 (split; [done|]). cbn [spill_key_index.set_midx spill_key_index._midx]. intros e'. rewrite held_replace, He.
      intros (e0 & -> & He0)%list_elem_of_fmap. case_decide as Hd; [|by left]. right. split; [done|].
      intros e2 (kv & -> & Hkv)%list_elem_of_fmap Hk2. rewrite (same_key_held x kv (e_key e, cur) Hnd Hkv Ef Hk2). lia.
    - apply find_value_None in Ef. unfold spill_key_index.add_key, spill_key_index.total_mem in Ei. rewrite no_hint in Ei. cbn [andb orb] in Ei.
      assert (Hroom : u64 (idx_mem_usage (spill_key_index._midx x) + spill_key_index._keys_mem_usage x + spill_key_index.entry_mem_usage (e_key e))
        < spill_key_index._max_mem x).
      { pose proof (table_memory (spill_key_index._midx x) ltac:(lia)).
        pose proof (entry_mem_nonneg (e_key e)).
        assert (mem_of (spill_key_index._midx x) + spill_key_index.entry_mem_usage (e_key e) <= c * count)
          by (pose proof (Z.mul_le_mono_nonneg_l (blen (spill_key_index._midx x) + 1) count c ltac:(lia) ltac:(lia)); lia).
        rewrite Hk, Hm. unfold spill_key_index.default_max_mem in *. rewrite (uwrap_id 64 (mem_of _)) by ranges. rewrite uwrap_id by ranges. lia. }
      assert ((u64 (idx_mem_usage (spill_key_index._midx x) + spill_key_index._keys_mem_usage x + spill_key_index.entry_mem_usage (e_key e))
        >=? spill_key_index._max_mem x) = false) as Hge by (rewrite Z.geb_leb; apply Z.leb_gt; lia).
      rewrite Hge in Ei. cbn [mbind res_bind] in Ei. injection Ei as <-. do 2 (split; [done|]). cbn [spill_key_index._midx]. intros e'.
      rewrite (fmap_Permutation entry_of _ _ (place_permutes _ _)). rewrite fmap_cons, He. intros [->|]%elem_of_cons; [|by left].
      right. split; [done|]. intros e0 (kv & -> & Hkv)%list_elem_of_fmap Hk0. exfalso. apply Ef. cbn in Hk0. rewrite <- Hk0. by apply list_elem_of_fmap_2. }
  destruct Hq as (Ha & Hmx & Hin). assert (es' = []) as ->.
  { pose proof (wo_file _ _ _ _ Hx') as Hf. rewrite Ha, (wo_file _ _ _ _ Hx) in Hf. destruct es' as [|e0 es0]; [done|]. exfalso.
    cbn [fmap list_fmap concat] in Hf. symmetry in Hf. apply app_eq_nil in Hf as [Hf _]. by apply (entry_nonempty e0). }
  exists x'. split; [done|]. split; [|done]. split; [done|congruence|]. intros e' [He'|[-> _]]%Hin; [right; by apply Hs|left].
Qed.

Lemma quiet_copy bm es n seen x : quiet n seen x -> 0 <= n -> n + blen es <= count -> count < 2 ^ 32 ->
  Forall (fun e => e_type e = type_key) es -> Forall entry_ranges es ->
  Forall (fun e => spill_key_index.entry_mem_usage (e_key e) <= c) (es ++ seen) ->
  exists x', filtered_copy crc_extend idx_mem_usage place env n bm es x = Ok x' /\ quiet (n + blen es) (es ++ seen) x' /\
    covered e_offset (chosen n bm es ++ held x) (held x') /\
    forall e', e' ∈ held x' -> e' ∈ held x \/ e' ∈ es /\ forall e0, e0 ∈ held x -> e_key e0 = e_key e' -> e_offset e0 < e_offset e'.
Proof.
  intros Hq H0 Hn Hcount Hty Hr Hc. revert n seen x Hq H0 Hn Hc.
  induction es as [|e es IH]; intros n seen x Hq H0 Hn Hc; cbn [filtered_copy chosen app].
  { exists x. split; [done|]. rewrite Z.add_0_r. split; [done|]. split; [intros r Hr'; by exists r|by left]. }
  apply Forall_cons in Hty as [Ht Hty]. apply Forall_cons in Hr as [Hre Hr]. rewrite blen_cons in *. pose proof (blen_nonneg es).
  cbn [app] in Hc. apply Forall_cons in Hc as [Hce Hc]. rewrite uwrap_id by ranges.
  assert (Hc1 : Forall (fun e => spill_key_index.entry_mem_usage (e_key e) <= c) (es ++ e :: seen)).
  { apply Forall_app in Hc as [? ?]. apply Forall_app. split; [done|by constructor]. }
  assert (exists x1, (if decide (n ∈ bm) then spill_key_index.index_key crc_extend idx_mem_usage place (env (Z.to_nat n)) (e_key e) (e_offset e) (e_delta e) x
      else Ok x) = Ok x1 /\ quiet (n + 1) (e :: seen) x1 /\
    covered e_offset ((if decide (n ∈ bm) then [e] else []) ++ held x) (held x1) /\
    forall e', e' ∈ held x1 -> e' ∈ held x \/ e' = e /\ forall e0, e0 ∈ held x -> e_key e0 = e_key e -> e_offset e0 < e_offset e)
    as (x1 & -> & Hq1 & Hcov1 & Hin1).
  { case_decide.
    - rewrite index_key_by. replace {| e_type := type_key; e_key := e_key e; e_offset := e_offset e; e_delta := e_delta e |} with e
        by (destruct e; cbn in *; by subst).
      apply (quiet_step n seen); [done|lia|done|done|]. apply Forall_app in Hc as [_ ?]. by constructor.
    - exists x. split; [done|]. destruct Hq as [Hq1 Hq2 Hq3]. split; [|split; [intros r Hr'; by exists r|by left]].
      split; [destruct Hq1; split; (done || lia)|done|set_solver]. }
  cbn [mbind res_bind]. destruct (IH Hty Hr (n + 1) (e :: seen) x1 Hq1 ltac:(lia) ltac:(lia) Hc1) as (x2 & -> & Hq2 & Hcov2 & Hin2).
  exists x2. split; [done|]. replace (n + (1 + blen es)) with (n + 1 + blen es) by lia. split; [|split].
  - destruct Hq2 as [? ? Hs]. split; [done|done|]. intros e' He'. specialize (Hs e' He'). set_solver.
  - intros r. rewrite <- app_assoc, elem_of_app, (elem_of_app (chosen _ _ _)). intros [Hr'|[Hr'|Hr']].
    + destruct (Hcov1 r) as (e1 & He1 & Hk1 & Hl1); [set_solver|]. destruct (Hcov2 e1) as (e2 & He2 & Hk2 & Hl2); [set_solver|].
      exists e2. split; [done|]. split; [congruence|lia].
    + apply Hcov2. set_solver.
    + destruct (Hcov1 r) as (e1 & He1 & Hk1 & Hl1); [set_solver|]. destruct (Hcov2 e1) as (e2 & He2 & Hk2 & Hl2); [set_solver|].
      exists e2. split; [done|]. split; [congruence|lia].
  - intros e' [He'|[He' Hgt]]%Hin2.
    + apply Hin1 in He' as [|[-> Hgt]]; [by left|right]. split; [left|done].
    + right. split; [by right|]. intros e0 He0 Hk0. destruct (Hcov1 e0) as (e1 & He1 & Hk1 & Hl1); [set_solver|].
      specialize (Hgt e1 He1 ltac:(congruence)). lia.
Qed.

Lemma quiet_make : quiet 0 [] (spill_key_index.make spill_key_index.default_max_mem).
Proof. split; [by apply make_ok|done|done]. Qed.
End quiet.

Lemma filtered_copy_app env i bm es es' w : 0 <= i -> i + blen (es ++ es') < 2 ^ 32 ->
  filtered_copy crc_extend idx_mem_usage place env i bm (es ++ es') w
  = (w ← filtered_copy crc_extend idx_mem_usage place env i bm es w; filtered_copy crc_extend idx_mem_usage place env (i + blen es) bm es' w).
Proof.
  revert i w. induction es as [|e es IH]; intros i w H0 Hi; [cbn; by rewrite Z.add_0_r|]. cbn [app] in *. rewrite blen_cons in *.
  pose proof (blen_nonneg (es ++ es')). cbn [filtered_copy]. destruct (if decide _ then _ else _) as [w1| |]; [|done|done]. cbn [mbind res_bind].
  rewrite uwrap_id by ranges. rewrite IH by lia. f_equal. rewrite Z.add_assoc. done.
Qed.

(** C40: two records of one key in one batch can cost the newer one.  Where a compaction index has two entries [e1] and
    [e2] of one key and one batch, [e2] being the latest of the key, and the reducer's memory runs out, so that
    [e1] is evicted before [e2] is read, then for every hash, allocator and further content of the index, the bitmap
    keeps both, and the writer, which compares the batches' first offsets only, keeps an earlier entry than [e2] as long as it
    does not spill itself (its [c] bytes for every entry and the [m] of its table stay below its limit): self compaction of
    the index succeeds, and every entry of the key that the new file holds, of which there is one, is older
    than [e2].  The latest record of the key is then removed from the segment, and a superseded one stays. *)
Theorem same_batch_entry_is_lost env max_mem c m f l1 e1 l2 e2 l3 :
  let es := l1 ++ e1 :: l2 ++ e2 :: l3 in
  file_entries f = Ok es -> index_entries_ok es ->
  e_key e1 = e_key e2 -> e_offset e1 = e_offset e2 ->
  (forall e, e ∈ l1 ++ e1 :: l2 ++ l3 -> e_key e = e_key e2 -> e_full e < e_full e2) ->
  evicted_before max_mem l1 e1 l2 ->
  (forall i, spill_key_index.checkpoint_hint (env i) = false) -> (forall l, blen l < blen es -> 0 <= idx_mem_usage l <= m) ->
  Forall (fun e => spill_key_index.entry_mem_usage (e_key e) <= c) es -> m + c * blen es < spill_key_index.default_max_mem ->
  exists g es', do_write_clean_compacted_index crc_extend idx_mem_usage place _hasher tree_mem_usage env max_mem f = Ok g /\
    file_entries g = Ok es' /\ detect_compaction_index_state crc_extend (Some g) = already_compacted /\
    (exists e, e ∈ es' /\ e_key e = e_key e2) /\ forall e, e ∈ es' -> e_key e = e_key e2 -> e_full e < e_full e2.
Proof.
  intros es Hf [Hty Hr Hk Hn] Hkey Hoff Hold Hev Hhint Htab Hc Hroom.
  assert (Hsplit : es = (l1 ++ e1 :: l2) ++ e2 :: l3) by (by unfold es; rewrite <- app_assoc).
  unfold do_write_clean_compacted_index, copy_filtered_entries. rewrite Hf. cbn [mbind res_bind].
  set (bm := natural_index_of_entries_to_keep _ _ _ _).
  assert (Hbm : blen l1 ∈ bm) by (unfold bm; rewrite Hsplit; by apply evicted_in_bitmap).
  clearbody bm. clear Hf Hev. rewrite Hsplit in Hty, Hr, Hk, Hn, Htab, Hc, Hroom |- *. clear Hsplit es.
  set (es1 := l1 ++ e1 :: l2) in *. rewrite filtered_copy_app by lia. rewrite blen_app in *.
  pose proof (blen_nonneg es1). pose proof (blen_nonneg (e2 :: l3)).
  apply Forall_app in Hty as [Ht1 Ht2]. apply Forall_app in Hr as [Hr1 Hr2]. pose proof Hc as [Hc1 _]%Forall_app.
  destruct (quiet_copy env c m _ Hhint Htab Hroom bm es1 0 [] _ quiet_make) as (w1 & -> & Hq1 & Hcov1 & Hin1);
    [lia|lia|lia|done|done|by rewrite app_nil_r|]. cbn [mbind res_bind].
  destruct (quiet_copy env c m _ Hhint Htab Hroom bm (e2 :: l3) (0 + blen es1) _ w1 Hq1) as (w2 & -> & Hq2 & Hcov2 & Hin2);
    [lia|lia|lia|done|done| |]. { rewrite app_nil_r. apply Forall_app in Hc as [? ?]. by apply Forall_app. }
  cbn [mbind res_bind]. rewrite app_nil_r in *. destruct Hq2 as [Hw2 _ Hs2].
  destruct (clean_file _ [] w2 Hw2 ltac:(ranges)) as (g & -> & Hg & Hst).
  { cbn [app]. rewrite Forall_forall in *. intros e He. apply Hk. specialize (Hs2 e He). set_solver. }
  exists g, (entry_of <$> spill_key_index._midx w2). do 3 (split; [done|]).
  assert (Hfirst : e1 ∈ chosen 0 bm es1).
  { apply (chosen_elem bm es1 0 (length l1)); [unfold es1; by rewrite lookup_app_r, Nat.sub_diag|done]. }
  destruct (Hcov1 e1) as (h & Hh & Hkh & Hlh); [set_solver|].
  destruct (Hcov2 h) as (h2 & Hh2 & Hkh2 & _); [set_solver|]. split; [exists h2; split; [done|congruence]|].
  intros e He Hke. apply Hold; [|done].
  apply Hin2 in He as [He|[He Hgt]].
  - apply (qu_seen _ _ _ Hq1) in He. unfold es1 in He. set_solver.
  - specialize (Hgt h Hh ltac:(congruence)). apply elem_of_cons in He as [->|He]; [lia|set_solver].
Qed.

End self_compaction_facts.

(** *** Examples *)

Definition example_entry (k o d : Z) : entry :=
  {| e_type := type_key; e_key := enhance_key raft_data false [k]; e_offset := o; e_delta := d |}.

Definition example_file (es : list entry) : file :=
  let bytes := concat (encode_entry <$> es) in
  {| data := bytes; foot := {| f_size := blen bytes; f_keys := blen es; f_size_deprecated := blen bytes;
       f_keys_deprecated := blen es; f_flags := 0; f_crc := sum_extend 0 bytes |} |}.

(** An allocator that accounts for 3 MiB per node, and one that takes nothing. *)
Definition example_tree_mem (l : list (Z * compaction_key_reducer.value_type)) : Z := 3 * 1024 * 1024 * blen l.
Definition example_env (n : nat) : spill_key_index.resources :=
  {| spill_key_index.checkpoint_hint := false; spill_key_index.bytes_available := fun _ => true |}.
Definition example_clean (f : file) : res file :=
  do_write_clean_compacted_index sum_extend (fun _ => 0) (fun l x => l ++ [x]) (fun _ => 0) example_tree_mem example_env
    compaction_key_reducer.default_max_memory_usage f.

(** Four entries and a reducer with room for one: the entry 97@10+5 is lost, 97@10+0 stays. *)
Lemma same_batch_entry_is_lost_witness :
  exists g es', example_clean (example_file [example_entry 97 10 0; example_entry 98 10 1; example_entry 99 10 2; example_entry 97 10 5]) = Ok g /\
    file_entries g = Ok es' /\
    (exists e, e ∈ es' /\ e_key e = e_key (example_entry 97 10 5)) /\
    forall e, e ∈ es' -> e_key e = e_key (example_entry 97 10 5) -> e_full e < 15.
Proof.
  destruct (same_batch_entry_is_lost sum_extend (fun _ => 0) (fun l x => l ++ [x]) (fun l kv => symmetry (Permutation_cons_append l kv))
    (fun _ => 0) example_tree_mem example_env compaction_key_reducer.default_max_memory_usage 100 0
    (example_file [example_entry 97 10 0; example_entry 98 10 1; example_entry 99 10 2; example_entry 97 10 5])
    [] (example_entry 97 10 0) [example_entry 98 10 1; example_entry 99 10 2] (example_entry 97 10 5) [])
    as (g & es' & Hg & He & _ & Hex & Hall).
  - vm_compute. reflexivity.
  - split; [by repeat constructor|repeat apply Forall_cons_2; [split; concrete..|constructor]|repeat apply Forall_cons_2; [concrete..|constructor]|concrete].
  - reflexivity.
  - reflexivity.
  - intros e He. repeat (apply elem_of_cons in He as [->|He]); [vm_compute; congruence..|by apply elem_of_nil in He].
  - unfold evicted_before. vm_compute. reflexivity.
  - reflexivity.
  - intros l _. lia.
  - repeat apply Forall_cons_2; [concrete..|constructor].
  - vm_compute. reflexivity.
  - exists g, es'. split; [exact Hg|]. split; [exact He|]. split; [exact Hex|]. exact Hall.
Defined.
