(* ===== verification/Compaction.v ===== *)
(** * Compaction of segments (compaction/utils.cc, compaction/filter.cc, storage/compaction_reducers.cc,
      storage/segment_utils.{h,cc}, storage/segment_deduplication_utils.cc, storage/disk_log_impl.cc)

    A compacted log keeps the latest record of every key.  A pass over a window of segments first
    compacts every segment by itself ([self_compact_segment], with the segment's compaction index), then
    collects the latest offsets of the keys from the newest segment to the oldest until the map is full
    ([build_offset_map]), and then rewrites the segments, dropping the records for which the map has a later
    offset ([deduplicate_segment]).  When not even one segment fits into the map, the newest segment is
    indexed in chunks, and the window is rewritten once per chunk ([chunked_sliding_window_compact]).

    The map is any implementation of the class [key_offset_map].  Batches are decoded and encoded as they
    are on disk.  The stm's answers about transactions and idempotence, the clock and the feature flags are
    parameters.  Locks, the swapping of files and the races with truncation they guard against are left out:
    a pass runs by itself. *)

From Stdlib Require Import Strings.String.
From S2P Require Import Prelude Vint IobufParser Record RecordBatch SegmentIndex KeyOffsetMap CompactionIndex.
Import compacted_index.

(** ** Batch types (model/record_batch_types.h, compaction/utils.cc) *)

Definition tx_fence : Z := 10.
Definition group_prepare_tx : Z := 14.
Definition group_commit_tx : Z := 15.
Definition group_abort_tx : Z := 16.
Definition group_fence_tx : Z := 33.

(** The part of an [ntp] compaction looks at. *)
Record topic_namespace := { tn_ns : string; tn_tp : string }.

Definition is_consumer_offsets_topic (n : topic_namespace) : bool :=
  (tn_ns n =? "kafka")%string && (tn_tp n =? "__consumer_offsets")%string.

Definition is_removable_control_batch (ntp : topic_namespace) (batch_type : Z) (remove_user_tx_fence_enabled : bool) : bool :=
  let is_co_topic := is_consumer_offsets_topic ntp in
  let tx_fence_removable := (batch_type =? tx_fence) && (is_co_topic || remove_user_tx_fence_enabled) in
  tx_fence_removable || (batch_type =? group_fence_tx) || (batch_type =? group_prepare_tx)
  || (batch_type =? group_abort_tx) || (batch_type =? group_commit_tx).

Definition is_control_header (h : record_batch_header) : bool := record_batch_attributes.is_control (attrs h).
Definition is_transactional_header (h : record_batch_header) : bool := record_batch_attributes.is_transactional (attrs h).

Definition is_compactible (h : record_batch_header) : bool :=
  if is_control_header h then false else is_filterable (type h).

(** The offset of a record of a batch. *)
Definition record_offset (b : record_batch) (r : record) : Z := s64 (base_offset (header b) + offset_delta r).

(** ** What to do with a record (storage/segment_utils.h) *)

(** What is passed to [should_keep] besides the record. *)
Record keep_config := {
  kc_ntp : topic_namespace;
  kc_placeholder_enabled : bool;
  kc_segment_last_offset : Z;
  kc_past_tombstone_delete_horizon : bool;
  kc_past_tx_delete_horizon : bool;
  kc_tx_batch_compaction_enabled : bool;
}.

(** The flags it reports for the new index. *)
Record keep_flags := {
  kf_may_have_tombstone_records : bool;
  kf_has_tx_control_batches : bool;
  kf_has_tx_data_or_fence_batches : bool;
}.

Definition no_flags : keep_flags :=
  {| kf_may_have_tombstone_records := false; kf_has_tx_control_batches := false; kf_has_tx_data_or_fence_batches := false |}.

Definition raise_flags (tombstone control data_or_fence : bool) (f : keep_flags) : keep_flags :=
  {| kf_may_have_tombstone_records := tombstone || kf_may_have_tombstone_records f;
     kf_has_tx_control_batches := control || kf_has_tx_control_batches f;
     kf_has_tx_data_or_fence_batches := data_or_fence || kf_has_tx_data_or_fence_batches f |}.

Definition can_discard (c : keep_config) (b : record_batch) (r : record) : bool :=
  if is_removable_control_batch (kc_ntp c) (type (header b)) (kc_tx_batch_compaction_enabled c) then true
  else if is_tombstone r && kc_past_tombstone_delete_horizon c then true
  else is_control_header (header b) && kc_past_tx_delete_horizon c.

Section should_keep.
Variable is_latest_key : record_batch -> record -> res bool.

Definition should_keep (c : keep_config) (b : record_batch) (r : record) (is_last_record_in_batch : bool) (f : keep_flags)
    : res (bool * keep_flags) :=
  let h := header b in
  let is_last_batch := last_offset h =? kc_segment_last_offset c in
  let is_tx_control_batch := is_control_header h in
  let is_tx_data_batch := (type h =? raft_data) && is_transactional_header h in
  let is_tx_fence_batch := type h =? tx_fence in
  if negb (kc_placeholder_enabled c) && (is_last_batch && is_last_record_in_batch) then
    Ok (true, raise_flags (is_tombstone r) is_tx_control_batch (is_tx_data_batch || is_tx_fence_batch) f)
  else if can_discard c b r then Ok (false, f)
  else if negb (is_compactible h) then Ok (true, raise_flags false is_tx_control_batch is_tx_fence_batch f)
  else
    keep ← is_latest_key b r;
    Ok (keep, raise_flags (is_tombstone r && keep) false (is_tx_data_batch && keep) f).
End should_keep.

(** ** Iterating over the records of a batch with a function that may fail *)

Section iterate_res.
Variable uninit : nat -> byte.
Context {A : Type} (f : A -> record -> res (A * bool)).

Definition for_each_record_res (b : record_batch) (a : A) : res A :=
  acc ← for_each_record uninit
          (fun acc r => match acc with
                        | Ok a => match f a r with
                                  | Ok (a, stop) => (Ok a, stop)
                                  | Throw e => (Throw e, true)
                                  | Crash => (Crash, true)
                                  end
                        | _ => (acc, true)
                        end) b (Ok a);
  acc.
End iterate_res.

(** ** Copying a segment's batches (storage/compaction_reducers.cc) *)

Definition with_filtered (h : record_batch_header) (a first max count : Z) : record_batch_header :=
  {| header_crc := header_crc h; b_size_bytes := b_size_bytes h; base_offset := base_offset h;
     type := type h; crc := crc h; attrs := a; last_offset_delta := last_offset_delta h;
     first_timestamp := first; max_timestamp := max; producer_id := producer_id h;
     producer_epoch := producer_epoch h; base_sequence := base_sequence h;
     record_count := count; ctx_term := ctx_term h; ctx_owner_shard := ctx_owner_shard h |}.

Section copy_reducer.
Variable crc_extend : Z -> list Z -> Z.
Variable uninit : nat -> byte.
Variable uncompress : compression_type -> list bytes -> res (list bytes).
Variable compress : compression_type -> list bytes -> res (list bytes).
(** [stm_hookset::is_batch_in_idempotent_window]. *)
Variable is_batch_in_idempotent_window : record_batch_header -> bool.

(** [copy_data_segment_reducer::make_placeholder_batch]: the rest of the header is default constructed. *)
Definition make_placeholder_batch (h : record_batch_header) : res record_batch :=
  let h := {| header_crc := 0; b_size_bytes := 0; base_offset := base_offset h; type := compaction_placeholder; crc := 0;
              attrs := 0; last_offset_delta := last_offset_delta h; first_timestamp := first_timestamp h;
              max_timestamp := max_timestamp h; producer_id := producer_id h; producer_epoch := producer_epoch h;
              base_sequence := base_sequence h; record_count := 0; ctx_term := int64_min; ctx_owner_shard := None |} in
  make_batch (reset_size_checksum_metadata crc_extend h []) [].

(** The records kept while a batch is rewritten: the payload, their number, and the time deltas of the
    first and the last of them. *)
Record rewrite := { rw_ret : list Z; rw_count : Z; rw_first : option Z; rw_last : Z }.

Definition rewrite_record (offset_deltas : list Z) (w : rewrite) (r : record) : rewrite :=
  if decide (offset_delta r ∈ offset_deltas) then
    {| rw_ret := append_record_to_buffer (rw_ret w) r; rw_count := s32 (rw_count w + 1);
       rw_first := match rw_first w with None => Some (timestamp_delta r) | Some d => Some d end;
       rw_last := timestamp_delta r |}
  else w.

Definition rewrite_records (offset_deltas : list Z) (b : record_batch) : res rewrite :=
  for_each_record uninit (fun w r => (rewrite_record offset_deltas w r, false)) b
    {| rw_ret := []; rw_count := 0; rw_first := None; rw_last := 0 |}.

(** The header of the rewritten batch: the times of its records, its count and its checksums. *)
Definition rewritten_header (h : record_batch_header) (a : Z) (w : rewrite) : res record_batch_header :=
  d ← opt_value (rw_first w);
  let first_time := s64 (first_timestamp h + d) in
  let last_time :=
    match record_batch_attributes.get_timestamp_type (attrs h) with
    | create_time => s64 (first_time + rw_last w)
    | append_time => max_timestamp h
    end in
  Ok (reset_size_checksum_metadata crc_extend (with_filtered h a first_time last_time (rw_count w)) [rw_ret w]).

(** The bit of a committed transaction is removed from the batches that are kept. *)
Definition unset_transaction (enabled : bool) (h : record_batch_header) : Z :=
  if (type h =? raft_data) && is_transactional_header h && negb (is_control_header h) && enabled
  then record_batch_attributes.remove_transactional_type (attrs h) else attrs h.

Section filter.
(** [_should_keep_fn], with the flags it reports. *)
Variable should_keep_fn : record_batch -> record -> bool -> keep_flags -> res (bool * keep_flags).
Variables (_segment_last_offset : Z) (_compaction_placeholder_enabled _unset_transaction_bit_enabled : bool).

(** The offset deltas of the records to keep, [maybe_keep_offset] at each of them. *)
Definition deltas_to_keep (b : record_batch) (f : keep_flags) : res (list Z * Z * keep_flags) :=
  for_each_record_res uninit
    (fun '(deltas, seen, f) r =>
       let seen := s32 (seen + 1) in
       '(keep, f) ← should_keep_fn b r (batch_record_count b =? seen) f;
       Ok ((if keep : bool then deltas ++ [offset_delta r] else deltas, seen, f), false))
    b ([], 0, f).

Definition filter (b : record_batch) (f : keep_flags) : res (option record_batch * keep_flags) :=
  let h := header b in
  let is_last_batch_in_segment := last_offset h =? _segment_last_offset in
  if (type h =? compaction_placeholder) && negb is_last_batch_in_segment && negb (is_batch_in_idempotent_window h)
  then Ok (None, f)
  else if negb (is_filterable (type h)) then Ok (Some b, f)
  else
    '(offset_deltas, _, f) ← deltas_to_keep b f;
    match offset_deltas with
    | [] =>
        if _compaction_placeholder_enabled && (is_last_batch_in_segment || is_batch_in_idempotent_window h)
        then p ← make_placeholder_batch h; Ok (Some p, f)
        else Ok (None, f)
    | _ =>
        if blen offset_deltas =? u64 (batch_record_count b) then
          let a := unset_transaction _unset_transaction_bit_enabled h in
          if (type h =? raft_data) && is_transactional_header h && negb (is_control_header h) && _unset_transaction_bit_enabled
          then Ok (Some {| header := reset_size_checksum_metadata crc_extend (with_attrs h a) (records b);
                           records := records b; compressed := compressed b |}, f)
          else Ok (Some b, f)
        else
          w ← rewrite_records offset_deltas b;
          if rw_count w =? 0 then Ok (None, f)
          else
            let a := record_batch_attributes.remove_compression (unset_transaction _unset_transaction_bit_enabled h) in
            h' ← rewritten_header h a w;
            b' ← make_batch h' [rw_ret w];
            Ok (Some b', f)
    end.
End filter.

(** [compaction::stats]. *)
Record stats := {
  batches_processed : Z;
  batches_discarded : Z;
  records_discarded : Z;
  non_compactible_batches : Z;
  control_batches_discarded : Z;
  expired_tombstones_discarded : Z;
}.

Definition no_stats : stats :=
  {| batches_processed := 0; batches_discarded := 0; records_discarded := 0; non_compactible_batches := 0;
     control_batches_discarded := 0; expired_tombstones_discarded := 0 |}.

Definition has_removed_data (s : stats) : bool :=
  (batches_discarded s >? 0) || (records_discarded s >? 0) || (control_batches_discarded s >? 0)
  || (expired_tombstones_discarded s >? 0).

(** A reducer over the batches of a segment: what it has appended to the new file, the new index, and the new
    compaction index where one is written. *)
Record copy_state := {
  cs_batches : list record_batch;
  cs_file_byte_offset : Z;
  cs_idx : index_state;
  cs_acc : Z;
  cs_compacted_idx : option spill_key_index.t;
  cs_calls : nat;
  cs_stats : stats;
  cs_flags : keep_flags;
}.

Definition new_copy (idx : index_state) (w : option spill_key_index.t) : copy_state :=
  {| cs_batches := []; cs_file_byte_offset := 0; cs_idx := idx; cs_acc := 0; cs_compacted_idx := w; cs_calls := 0;
     cs_stats := no_stats; cs_flags := no_flags |}.

Definition set_stats (st : stats) (f : keep_flags) (s : copy_state) : copy_state :=
  {| cs_batches := cs_batches s; cs_file_byte_offset := cs_file_byte_offset s; cs_idx := cs_idx s; cs_acc := cs_acc s;
     cs_compacted_idx := cs_compacted_idx s; cs_calls := cs_calls s; cs_stats := st; cs_flags := f |}.

Section append.
Variable idx_mem_usage : list (list Z * spill_key_index.value_type) -> Z.
Variable place : list (list Z * spill_key_index.value_type) -> list Z * spill_key_index.value_type ->
  list (list Z * spill_key_index.value_type).
Variable env : nat -> spill_key_index.resources.

(** The records of a batch entered into a compaction index ([index_rebuilder_reducer::do_index] and the loop in
    [filter_and_append]). *)
Definition index_batch_records (b : record_batch) (w : spill_key_index.t) (calls : nat) : res (spill_key_index.t * nat) :=
  let h := header b in
  for_each_record_res uninit
    (fun '(w, calls) r =>
       w ← spill_key_index.index_record crc_extend idx_mem_usage place (env calls) (type h) (is_control_header h)
             (key r) (base_offset h) (offset_delta r) w;
       Ok ((w, S calls), false)) b (w, calls).

Variable filter_fn : record_batch -> keep_flags -> res (option record_batch * keep_flags).
Variable _internal_topic : bool.

Definition append_batch (original : compression) (batch : record_batch) (s : copy_state) : res copy_state :=
  let compactible_batch := is_compactible (header batch) in
  '(w, calls) ← match cs_compacted_idx s with
                | Some w =>
                    if compactible_batch
                    then '(w, calls) ← index_batch_records batch w (cs_calls s); Ok (Some w, calls)
                    else Ok (Some w, cs_calls s)
                | None => Ok (None, cs_calls s)
                end;
  batch ← (if decide (original <> none) then compress_batch crc_extend compress original batch else Ok batch);
  let start_pos := cs_file_byte_offset s in
  let h := header batch in
  let acc := u64 (cs_acc s + b_size_bytes h) in
  let filterable_batch := is_filterable (type h) in
  '(indexed, idx) ← maybe_index acc (4096 * 8) start_pos (base_offset h) (last_offset h) (first_timestamp h) (max_timestamp h)
                      None (_internal_topic || (type h =? raft_data)) (if filterable_batch then u64 (record_count h) else 0)
                      (cs_idx s);
  Ok {| cs_batches := cs_batches s ++ [batch]; cs_file_byte_offset := start_pos + b_size_bytes h; cs_idx := idx;
        cs_acc := if (indexed : bool) then 0 else acc; cs_compacted_idx := w; cs_calls := calls; cs_stats := cs_stats s;
        cs_flags := cs_flags s |}.

Definition filter_and_append (original : compression) (b : record_batch) (s : copy_state) : res copy_state :=
  let st := cs_stats s in
  let record_count_before := batch_record_count b in
  let is_control_batch := is_control_header (header b) in
  '(maybe_batch, f) ← filter_fn b (cs_flags s);
  match maybe_batch with
  | None =>
      Ok (set_stats {| batches_processed := u64 (batches_processed st + 1);
                       batches_discarded := u64 (batches_discarded st + 1);
                       records_discarded := u64 (records_discarded st + record_count_before);
                       non_compactible_batches := non_compactible_batches st;
                       control_batches_discarded :=
                         if is_control_batch then u64 (control_batches_discarded st + 1) else control_batches_discarded st;
                       expired_tombstones_discarded := expired_tombstones_discarded st |}
            f s)
  | Some batch =>
      let records_to_remove := s32 (record_count_before - batch_record_count batch) in
      append_batch original batch
        (set_stats {| batches_processed := u64 (batches_processed st + 1); batches_discarded := batches_discarded st;
                      records_discarded := u64 (records_discarded st + records_to_remove);
                      non_compactible_batches :=
                        if is_compactible (header batch) then non_compactible_batches st
                        else u64 (non_compactible_batches st + 1);
                      control_batches_discarded := control_batches_discarded st;
                      expired_tombstones_discarded := expired_tombstones_discarded st |} f s)
  end.

(** [copy_data_segment_reducer::operator()], without the injected failures and the abort source. *)
Definition copy_reduce (b : record_batch) (s : copy_state) : res copy_state :=
  comp ← record_batch_attributes.get_compression (attrs (header b));
  if negb (compressed b) then filter_and_append comp b s
  else b ← decompress_batch crc_extend uncompress b; filter_and_append comp b s.

Fixpoint copy_all (bs : list record_batch) (s : copy_state) : res copy_state :=
  match bs with
  | [] => Ok s
  | b :: bs => s ← copy_reduce b s; copy_all bs s
  end.
End append.
End copy_reducer.
