(* ===== verification/CompactionWindow.v ===== *)
(** * Passes over a window of segments (storage/segment_utils.cc, storage/segment_deduplication_utils.cc,
      storage/compaction_reducers.cc, storage/disk_log_impl.cc)

    The segments with their files, and the functions that compact them: rebuilding a compaction index without
    the data of aborted transactions, self compaction, building the map of latest offsets, deduplicating, and
    the two passes of a log. *)

From S2P Require Import Prelude Vint IobufParser Record RecordBatch SegmentIndex KeyOffsetMap CompactionIndex Compaction.
Import compacted_index.

(** ** Configuration and segments *)

Record compaction_config := {
  max_removable_local_log_offset : Z;
  max_tombstone_remove_offset : Z;
  max_tx_end_remove_offset : Z;
  tombstone_retention_ms : option Z;
  tx_retention_ms : option Z;
  min_lag_ms : Z;
}.

(** A segment: its data file, offset tracker, index and compaction index file. *)
Record segment := {
  sg_ntp : topic_namespace;
  sg_internal_topic : bool;
  sg_batches : list record_batch;
  sg_base_offset : Z;
  sg_committed_offset : Z;
  sg_stable_offset : Z;
  sg_dirty_offset : Z;
  sg_index : segment_index;
  sg_compacted_index : option file;
  sg_has_appender : bool;
  sg_closed : bool;
  sg_finished_windowed_compaction : bool;
}.

Definition set_compacted_index (f : option file) (s : segment) : segment :=
  {| sg_ntp := sg_ntp s; sg_internal_topic := sg_internal_topic s; sg_batches := sg_batches s;
     sg_base_offset := sg_base_offset s; sg_committed_offset := sg_committed_offset s;
     sg_stable_offset := sg_stable_offset s; sg_dirty_offset := sg_dirty_offset s; sg_index := sg_index s;
     sg_compacted_index := f; sg_has_appender := sg_has_appender s; sg_closed := sg_closed s;
     sg_finished_windowed_compaction := sg_finished_windowed_compaction s |}.

Definition set_segment_index (x : segment_index) (finished : bool) (s : segment) : segment :=
  {| sg_ntp := sg_ntp s; sg_internal_topic := sg_internal_topic s; sg_batches := sg_batches s;
     sg_base_offset := sg_base_offset s; sg_committed_offset := sg_committed_offset s;
     sg_stable_offset := sg_stable_offset s; sg_dirty_offset := sg_dirty_offset s; sg_index := x;
     sg_compacted_index := sg_compacted_index s; sg_has_appender := sg_has_appender s; sg_closed := sg_closed s;
     sg_finished_windowed_compaction := finished |}.

(** The new files take the place of the old ones: [do_swap_data_file_handles], [swap_index_state] and
    [force_set_commit_offset_from_index]. *)
Definition swap_files (bs : list record_batch) (idx : index_state) (f : option file) (s : segment) : segment :=
  let x := fst (swap_index_state idx (sg_index s)) in
  let m := ix_max_offset idx in
  {| sg_ntp := sg_ntp s; sg_internal_topic := sg_internal_topic s; sg_batches := bs;
     sg_base_offset := sg_base_offset s; sg_committed_offset := m; sg_stable_offset := m; sg_dirty_offset := m;
     sg_index := x; sg_compacted_index := f; sg_has_appender := sg_has_appender s; sg_closed := sg_closed s;
     sg_finished_windowed_compaction := sg_finished_windowed_compaction s |}.

Definition seg_state (s : segment) : index_state := _state (sg_index s).
Definition has_clean_compact_timestamp (s : segment) : bool := bool_decide (is_Some (clean_compact_timestamp (seg_state s))).
Definition has_self_compact_timestamp (s : segment) : bool := bool_decide (is_Some (self_compact_timestamp (seg_state s))).

Definition may_have_compactible_records (s : segment) : bool :=
  match num_compactible_records_appended (seg_state s) with None => true | Some n => n >? 0 end.

(** [maybe_set_clean_compact_timestamp] and [maybe_set_self_compact_timestamp]. *)
Definition maybe_set_clean_compact_timestamp (t : Z) (x : segment_index) : bool * segment_index :=
  let s := _state x in
  match clean_compact_timestamp s with
  | None =>
      (true, {| _step := _step x; _acc := _acc x; _needs_persistence := true;
                _last_batch_max_timestamp := _last_batch_max_timestamp x;
                _state := set_compaction (Some t) (may_have_tombstone_records s) (self_compact_timestamp s)
                            (may_have_transaction_control_batches s) (may_have_transaction_data_or_fence_batches s) s |})
  | Some _ => (false, x)
  end.

Definition maybe_set_self_compact_timestamp (t : Z) (x : segment_index) : bool * segment_index :=
  let s := _state x in
  match self_compact_timestamp s with
  | None =>
      (true, {| _step := _step x; _acc := _acc x; _needs_persistence := true;
                _last_batch_max_timestamp := _last_batch_max_timestamp x;
                _state := set_compaction (clean_compact_timestamp s) (may_have_tombstone_records s) (Some t)
                            (may_have_transaction_control_batches s) (may_have_transaction_data_or_fence_batches s) s |})
  | Some _ => (false, x)
  end.

(** [create_segment_full_reader]: the batches from [start_offset] on, up to the segment's dirty offset. *)
Fixpoint read_batches (start max : Z) (bs : list record_batch) : list record_batch :=
  match bs with
  | [] => []
  | b :: bs =>
      if max <? base_offset (header b) then []
      else if last_offset (header b) <? start then read_batches start max bs
      else b :: read_batches start max bs
  end.

Definition segment_full_reader (s : segment) (start_offset : option Z) : list record_batch :=
  read_batches (default (sg_base_offset s) start_offset) (sg_dirty_offset s) (sg_batches s).

(** ** The horizons *)

Section horizons.
Variables (now : Z) (tx_batch_compaction_enabled : bool).

Definition is_past_tombstone_delete_horizon (seg : segment) (cfg : compaction_config) : bool :=
  match clean_compact_timestamp (seg_state seg), tombstone_retention_ms cfg with
  | Some ts, Some ms => (sg_stable_offset seg <=? max_tombstone_remove_offset cfg) && (now - ts >? ms)
  | _, _ => false
  end.

Definition may_have_removable_tombstones (seg : segment) (cfg : compaction_config) : bool :=
  may_have_tombstone_records (seg_state seg) && is_past_tombstone_delete_horizon seg cfg.

Definition is_past_transaction_batch_delete_horizon (seg : segment) (cfg : compaction_config) : bool :=
  tx_batch_compaction_enabled
  && match self_compact_timestamp (seg_state seg), tx_retention_ms cfg with
     | Some ts, Some ms => (sg_stable_offset seg <=? max_tx_end_remove_offset cfg) && (now - ts >? ms)
     | _, _ => false
     end.

Definition has_removable_transaction_batches (seg : segment) (cfg : compaction_config) : bool :=
  may_have_transaction_data_or_fence_batches (seg_state seg)
  || (may_have_transaction_control_batches (seg_state seg) && is_past_transaction_batch_delete_horizon seg cfg).

Definition mark_segment_as_finished_window_compaction (seg : segment) (set_clean : bool) : res (bool * segment) :=
  let seg := set_segment_index (sg_index seg) true seg in
  if set_clean then
    let '(did_set, x) := maybe_set_clean_compact_timestamp now (sg_index seg) in
    if did_set then x ← flush x; Ok (true, set_segment_index x true seg) else Ok (false, seg)
  else Ok (false, seg).

Definition mark_segment_as_finished_self_compaction (seg : segment) : res (bool * segment) :=
  let '(did_set, x) := maybe_set_self_compact_timestamp now (sg_index seg) in
  if did_set then x ← flush x; Ok (true, set_segment_index x (sg_finished_windowed_compaction seg) seg) else Ok (false, seg).
End horizons.

(** ** Aborted transactions *)

Inductive stm_type := non_transactional | user_topic_transactional | consumer_offsets_transactional.

Record tx_range := { tx_pid : producer_identity; tx_first : Z; tx_last : Z }.

(** What a transactional state machine answers. *)
Record stm_hooks := {
  transactional_stm_type : option stm_type;
  aborted_tx_ranges : Z -> Z -> list tx_range;
  is_tx_abort : record_batch -> bool;
  is_batch_in_idempotent_window : record_batch_header -> bool;
}.

Module tx_reducer.

(** The heap by first offset, and the aborted transactions running at the batch consumed last. *)
Record t := { _aborted_txs : list tx_range; _ongoing_aborted_txs : list (producer_identity * tx_range) }.

(** The range with the smallest first offset, and the others. *)
Fixpoint pop (l : list tx_range) : option (tx_range * list tx_range) :=
  match l with
  | [] => None
  | r :: l =>
      match pop l with
      | Some (r', l') => if tx_first r' <? tx_first r then Some (r', r :: l') else Some (r, l)
      | None => Some (r, [])
      end
  end.

Definition insert_ongoing (r : tx_range) (l : list (producer_identity * tx_range)) : list (producer_identity * tx_range) :=
  (tx_pid r, r) :: base.filter (fun e => e.1 <> tx_pid r) l.

Fixpoint start_aborted (fuel : nat) (upto : Z) (x : t) : t :=
  match fuel with
  | O => x
  | S fuel =>
      match pop (_aborted_txs x) with
      | Some (top, rest) =>
          if tx_first top <=? upto
          then start_aborted fuel upto
                 {| _aborted_txs := rest; _ongoing_aborted_txs := insert_ongoing top (_ongoing_aborted_txs x) |}
          else x
      | None => x
      end
  end.

Section reduce.
Variable h : stm_hooks.
Variables (ntp : topic_namespace) (tx_batch_compaction_enabled : bool).

Definition batch_pid (b : record_batch) : producer_identity :=
  {| pid_id := producer_id (header b); pid_epoch := producer_epoch (header b) |}.

Definition refresh_ongoing_aborted_txs (b : record_batch) (x : t) : t :=
  let x := start_aborted (length (_aborted_txs x)) (last_offset (header b)) x in
  if is_transactional_header (header b) && is_control_header (header b) && is_tx_abort h b
  then {| _aborted_txs := _aborted_txs x;
          _ongoing_aborted_txs := base.filter (fun e => e.1 <> batch_pid b) (_ongoing_aborted_txs x) |}
  else x.

Definition can_discard_tx_data_batch (b : record_batch) (x : t) : bool :=
  match transactional_stm_type h with
  | Some user_topic_transactional =>
      is_transactional_header (header b) && (type (header b) =? raft_data) && negb (is_control_header (header b))
      && bool_decide (batch_pid b ∈ (_ongoing_aborted_txs x).*1)
  | _ => false
  end.

Definition can_discard_consumer_offsets_batch (b : record_batch) : bool :=
  match transactional_stm_type h with
  | Some consumer_offsets_transactional => is_removable_control_batch ntp (type (header b)) tx_batch_compaction_enabled
  | _ => false
  end.

(** [operator()]: whether the batch is passed on. *)
Definition step (b : record_batch) (x : t) : bool * t :=
  match transactional_stm_type h with
  | None => (true, x)
  | Some _ =>
      let x := refresh_ongoing_aborted_txs b x in
      (negb (can_discard_tx_data_batch b x || can_discard_consumer_offsets_batch b), x)
  end.
End reduce.

End tx_reducer.

(** ** Compacting segments *)

(** A loop over segments that stops at the first failure and keeps what was done until then. *)
Fixpoint each (f : segment -> res segment) (segs : list segment) : list segment * res unit :=
  match segs with
  | [] => ([], Ok tt)
  | s :: rest =>
      match f s with
      | Ok s => let '(rest, r) := each f rest in (s :: rest, r)
      | Throw e => (s :: rest, Throw e)
      | Crash => (s :: rest, Crash)
      end
  end.

(** The environment of a pass. *)
Record environment := {
  en_crc_extend : Z -> list Z -> Z;
  en_uninit : nat -> byte;
  en_uncompress : compression_type -> list bytes -> res (list bytes);
  en_compress : compression_type -> list bytes -> res (list bytes);
  en_idx_mem_usage : list (list Z * spill_key_index.value_type) -> Z;
  en_place : list (list Z * spill_key_index.value_type) -> list Z * spill_key_index.value_type ->
    list (list Z * spill_key_index.value_type);
  en_resources : nat -> spill_key_index.resources;
  en_hasher : list Z -> Z;
  en_tree_mem_usage : list (Z * compaction_key_reducer.value_type) -> Z;
  en_hooks : stm_hooks;
  en_now : Z;
  en_retention_timestamp : segment_index -> Z;
  en_tx_batch_compaction_enabled : bool;
  en_placeholder_enabled : bool;
  en_apply_delta_time_offset : bool;
}.

Section passes.
Variable E : environment.

#[local] Abbreviation crc_extend := (en_crc_extend E).
#[local] Abbreviation horizon_tombstone := (is_past_tombstone_delete_horizon (en_now E)).
#[local] Abbreviation horizon_tx := (is_past_transaction_batch_delete_horizon (en_now E) (en_tx_batch_compaction_enabled E)).
#[local] Abbreviation removable_tombstones := (may_have_removable_tombstones (en_now E)).
#[local] Abbreviation removable_tx := (has_removable_transaction_batches (en_now E) (en_tx_batch_compaction_enabled E)).
#[local] Abbreviation finish_window := (mark_segment_as_finished_window_compaction (en_now E)).

(** [segment::is_compactible]. *)
Definition segment_is_compactible (seg : segment) (cfg : compaction_config) : bool :=
  negb (en_now E - en_retention_timestamp E (sg_index seg) <? min_lag_ms cfg)
  && (sg_stable_offset seg <=? max_removable_local_log_offset cfg).

(** *** Rebuilding a compaction index *)

Definition index_batch_plain (b : record_batch) (w : spill_key_index.t) (calls : nat) : res (spill_key_index.t * nat) :=
  b ← (if compressed b then decompress_batch crc_extend (en_uncompress E) b else Ok b);
  index_batch_records crc_extend (en_uninit E) (en_idx_mem_usage E) (en_place E) (en_resources E) b w calls.

Fixpoint rebuild_loop (ntp : topic_namespace) (bs : list record_batch) (x : tx_reducer.t) (w : spill_key_index.t) (calls : nat)
    : res spill_key_index.t :=
  match bs with
  | [] => Ok w
  | b :: bs =>
      let '(pass, x) := tx_reducer.step (en_hooks E) ntp (en_tx_batch_compaction_enabled E) b x in
      '(w, calls) ← (if pass : bool then index_batch_plain b w calls else Ok (w, calls));
      rebuild_loop ntp bs x w calls
  end.

Definition rebuild_compaction_index (s : segment) : res segment :=
  _ ← throw_if (sg_closed s) segment_closed_exception;
  let aborted := aborted_tx_ranges (en_hooks E) (sg_base_offset s) (sg_stable_offset s) in
  w ← rebuild_loop (sg_ntp s) (segment_full_reader s None)
        {| tx_reducer._aborted_txs := aborted; tx_reducer._ongoing_aborted_txs := [] |}
        (spill_key_index.make spill_key_index.default_max_mem) 0;
  f ← spill_key_index.close crc_extend w;
  Ok (set_compacted_index (Some f) s).

(** The loop of [maybe_rebuild_compaction_index]: a rebuilt index is not rebuilt again. *)
Fixpoint rebuild_until_valid (fuel : nat) (s : segment) : res (recovery_state * segment) :=
  _ ← throw_if (sg_closed s) segment_closed_exception;
  let state := detect_compaction_index_state crc_extend (sg_compacted_index s) in
  if negb (compacted_index_needs_rebuild state) then Ok (state, s)
  else match fuel with
       | O => Crash
       | S fuel => s ← rebuild_compaction_index s; rebuild_until_valid fuel s
       end.

Definition maybe_rebuild_compaction_index (s : segment) : res (recovery_state * segment) := rebuild_until_valid 1 s.

(** *** Rewriting a segment *)

(** The copy of a segment's batches under a test for the latest record of a key. *)
Definition copy_segment (cfg : compaction_config) (is_latest : record_batch -> record -> res bool)
    (w : option spill_key_index.t) (seg : segment) : res copy_state :=
  let kc := {| kc_ntp := sg_ntp seg; kc_placeholder_enabled := en_placeholder_enabled E;
               kc_segment_last_offset := sg_committed_offset seg;
               kc_past_tombstone_delete_horizon := horizon_tombstone seg cfg;
               kc_past_tx_delete_horizon := horizon_tx seg cfg;
               kc_tx_batch_compaction_enabled := en_tx_batch_compaction_enabled E |} in
  copy_all crc_extend (en_uninit E) (en_uncompress E) (en_compress E) (en_idx_mem_usage E) (en_place E) (en_resources E)
    (filter crc_extend (en_uninit E) (is_batch_in_idempotent_window (en_hooks E)) (should_keep is_latest kc)
       (sg_committed_offset seg) (en_placeholder_enabled E) (en_tx_batch_compaction_enabled E))
    (sg_internal_topic seg) (segment_full_reader seg None)
    (new_copy (make_empty_index (ix_base_offset (seg_state seg)) (en_apply_delta_time_offset E)) w).

(** The new index keeps the old one's timestamps and takes the flags the copy reported. *)
Definition restore_index (seg : segment) (cs : copy_state) : index_state :=
  let old := seg_state seg in
  let f := cs_flags cs in
  let idx := cs_idx cs in
  set_compaction (clean_compact_timestamp old) (kf_may_have_tombstone_records f) (self_compact_timestamp old)
    (kf_has_tx_control_batches f) (kf_has_tx_data_or_fence_batches f)
    (set_counts (batch_timestamps_are_monotonic idx) (broker_timestamp old) (num_compactible_records_appended idx) idx).

Definition do_copy_segment_data (cfg : compaction_config) (f : file) (seg : segment) : res copy_state :=
  compacted_offsets ← generate_compacted_list (sg_base_offset seg) f;
  copy_segment cfg (fun b r => Ok (compacted_offset_list.contains (record_offset b r) compacted_offsets)) None seg.

(** Goes on with the answer of a step; where it fails, the segment stays as the steps before it left it. *)
Definition and_then {A B} (seg : segment) (r : res A) (k : A -> segment * res B) : segment * res B :=
  match r with Ok a => k a | Throw e => (seg, Throw e) | Crash => (seg, Crash) end.

(** [do_self_compact_segment]: the segment, and how it ended.  The cleaned compaction index takes the old one's
    place before the data is copied, so that it stays when the copy fails. *)
Definition do_self_compact_segment (cfg : compaction_config) (seg : segment) : segment * res unit :=
  and_then seg (throw_if (sg_closed seg) segment_closed_exception) (fun _ =>
  and_then seg (f ← match sg_compacted_index seg with Some f => Ok f | None => Throw runtime_error end;
                do_write_clean_compacted_index crc_extend (en_idx_mem_usage E) (en_place E) (en_hasher E) (en_tree_mem_usage E)
                  (en_resources E) compaction_key_reducer.default_max_memory_usage f) (fun f =>
  let seg := set_compacted_index (Some f) seg in
  and_then seg (do_copy_segment_data cfg f seg) (fun cs =>
  let seg := swap_files (cs_batches cs) (restore_index seg cs) (Some f) seg in
  and_then seg (mark_segment_as_finished_self_compaction (en_now E) seg) (fun '(_, seg) =>
  and_then seg (flush (sg_index seg)) (fun x =>
  (set_segment_index x (sg_finished_windowed_compaction seg) seg, Ok tt)))))).

(** [self_compact_segment]: the segment, and whether it was compacted. *)
Definition self_compact_segment (cfg : compaction_config) (force_compaction : bool) (seg : segment) : segment * res bool :=
  and_then seg (throw_if (sg_has_appender seg) runtime_error) (fun _ =>
  let should_force_compaction := force_compaction || removable_tombstones seg cfg || removable_tx seg cfg in
  let segment_needs_compaction :=
    segment_is_compactible seg cfg && (negb (has_self_compact_timestamp seg) || should_force_compaction) in
  if negb segment_needs_compaction then (seg, Ok false)
  else
    and_then seg (maybe_rebuild_compaction_index seg) (fun '(state, seg) =>
    and_then seg (vassert (match state with index_recovered | already_compacted => true | _ => false end)) (fun _ =>
    let '(seg, r) := do_self_compact_segment cfg seg in
    and_then seg r (fun _ => (seg, Ok true))))).

(** *** The map of latest offsets *)

Section with_map.
Context {M : Type} `{key_offset_map M}.

Definition put_entry (e : entry) (m : M) : res (M * bool) := put (e_key e) (e_full e) m.

(** The entries in order until the map refuses one; whether all went in. *)
Fixpoint put_entries (es : list entry) (m : M) : res (M * bool) :=
  match es with
  | [] => Ok (m, true)
  | e :: es => '(m, success) ← put_entry e m; if success : bool then put_entries es m else Ok (m, false)
  end.

Definition build_offset_map_for_segment (seg : segment) (m : M) : res (M * bool) :=
  f ← match sg_compacted_index seg with Some f => Ok f | None => Throw runtime_error end;
  _ ← verify_integrity crc_extend f;
  es ← file_entries f;
  put_entries es m.

(** The loop of [build_offset_map] over the segments from the newest to the oldest; [newer] are those it has
    passed. *)
Fixpoint build_loop (rev_segs newer : list segment) (m : M) (min_segment_fully_indexed : option Z)
    : res (list segment * M * option Z) :=
  match rev_segs with
  | [] => Ok (newer, m, min_segment_fully_indexed)
  | seg :: older =>
      if has_clean_compact_timestamp seg then build_loop older (seg :: newer) m (Some (sg_base_offset seg))
      else
        match maybe_rebuild_compaction_index seg with
        | Throw segment_closed_exception => Ok (rev older ++ seg :: newer, m, min_segment_fully_indexed)
        | Throw e => Throw e
        | Crash => Crash
        | Ok (_, seg) =>
            '(m, seg_fully_indexed) ← build_offset_map_for_segment seg m;
            if negb seg_fully_indexed then Ok (rev older ++ seg :: newer, m, min_segment_fully_indexed)
            else build_loop older (seg :: newer) m (Some (sg_base_offset seg))
        end
  end.

(** [build_offset_map]: the segments with the indices that were rebuilt, the map, and the answer or the
    exception it ends with. *)
Definition build_offset_map (segs : list segment) (m : M) : res (list segment * M * res Z) :=
  _ ← throw_if (match segs with [] => true | _ => false end) runtime_error;
  '(segs, m, min) ← build_loop (rev segs) [] m None;
  Ok (segs, m, match min with Some o => Ok o | None => Throw zero_segments_indexed_exception end).

Definition is_latest_record_for_enhanced_key (m : M) (b : record_batch) (r : record) : res bool :=
  let o := record_offset b r in
  let k := enhance_key (type (header b)) (is_control_header (header b)) (key r) in
  latest_offset_indexed ← get k m;
  match latest_offset_indexed with
  | None => Ok true
  | Some latest => Ok (latest <=? o)
  end.

Definition deduplicate_segment (cfg : compaction_config) (m : M) (seg : segment) : res copy_state :=
  _ ← throw_if (sg_closed seg) segment_closed_exception;
  copy_segment cfg (is_latest_record_for_enhanced_key m)
    (Some (spill_key_index.make spill_key_index.default_max_mem)) seg.

Fixpoint some_superseded (es : list entry) (m : M) : res bool :=
  match es with
  | [] => Ok false
  | e :: es =>
      map_entry ← get (e_key e) m;
      match map_entry with
      | Some o => if o >? e_full e then Ok true else some_superseded es m
      | None => some_superseded es m
      end
  end.

Definition segment_needs_rewrite_with_offset_map (seg : segment) (m : M) : res bool :=
  match sg_compacted_index seg with
  | None => Ok true
  | Some f =>
      match verify_integrity crc_extend f with
      | Ok _ => es ← file_entries f; some_superseded es m
      | Throw _ => Ok true
      | Crash => Crash
      end
  end.

(** [rewrite_segment_with_offset_map], without the accounting of bytes. *)
Definition rewrite_segment_with_offset_map (cfg : compaction_config) (m : M)
    (is_finished_window_compaction is_clean_compacted : bool) (seg : segment) : res segment :=
  if sg_base_offset seg >? max_offset m then '(_, seg) ← finish_window seg is_clean_compacted; Ok seg
  else if negb (may_have_compactible_records seg) then '(_, seg) ← finish_window seg is_clean_compacted; Ok seg
  else
    cs ← deduplicate_segment cfg m seg;
    w ← deref (cs_compacted_idx cs);
    f ← spill_key_index.close crc_extend w;
    _ ← throw_if (sg_closed seg) segment_closed_exception;
    let seg := swap_files (cs_batches cs) (restore_index seg cs) (Some f) seg in
    seg ← (if is_finished_window_compaction then '(_, seg) ← finish_window seg is_clean_compacted; Ok seg else Ok seg);
    x ← flush (sg_index seg);
    Ok (set_segment_index x (sg_finished_windowed_compaction seg) seg).

Definition needs_rewrite (cfg : compaction_config) (m : M) (seg : segment) : res bool :=
  if removable_tombstones seg cfg || removable_tx seg cfg then Ok true
  else segment_needs_rewrite_with_offset_map seg m.

(** *** The pass over a window *)

(** The body of the last loop of [sliding_window_compact]. *)
Definition window_rewrite (cfg : compaction_config) (m : M) (idx_start_offset : Z) (seg : segment) : res segment :=
  if sg_closed seg then Ok seg
  else
    let is_clean_compacted := sg_base_offset seg >=? idx_start_offset in
    needs ← needs_rewrite cfg m seg;
    if negb needs then '(_, seg) ← finish_window seg is_clean_compacted; Ok seg
    else rewrite_segment_with_offset_map cfg m true is_clean_compacted seg.

(** [map_building_reducer]. *)
Definition maybe_index_record_in_map (start base_offset batch_type : Z) (r : record) (m : M) : res (M * bool) :=
  let offset := s64 (base_offset + offset_delta r) in
  if offset <? start then Ok (m, true)
  else put (enhance_key batch_type false (key r)) offset m.

(** Whether all of a batch's records went into the map. *)
Definition map_building_batch (start : Z) (b : record_batch) (m : M) : res (M * bool) :=
  if negb (is_compactible (header b)) then Ok (m, true)
  else
    b ← (if compressed b then decompress_batch crc_extend (en_uncompress E) b else Ok b);
    for_each_record_res (en_uninit E)
      (fun '(m, _) r =>
         '(m, success) ← maybe_index_record_in_map start (base_offset (header b)) (type (header b)) r m;
         Ok ((m, success), negb success)) b (m, true).

Fixpoint map_building_loop (start : Z) (bs : list record_batch) (m : M) : res (M * bool) :=
  match bs with
  | [] => Ok (m, true)
  | b :: bs =>
      '(m, fully_indexed_batch) ← map_building_batch start b m;
      if fully_indexed_batch : bool then map_building_loop start bs m else Ok (m, false)
  end.

(** [index_chunk_of_segment_for_map]: the map, whether the segment's end was reached, and the last offset
    indexed. *)
Definition next_indexed (o : Z) : Z := if o <? 0 then 0 else if o =? int64_max then int64_max else s64 (o + 1).

Definition index_chunk_of_segment_for_map (seg : segment) (last_indexed_offset : Z) (m : M) : res (M * bool * Z) :=
  _ ← throw_if (sg_closed seg) segment_closed_exception;
  let m := reset m in
  let start := next_indexed last_indexed_offset in
  '(m, fully_indexed_segment) ← map_building_loop start (segment_full_reader seg (Some start)) m;
  Ok (m, fully_indexed_segment, max_offset m).

Definition chunk_rewrite (cfg : compaction_config) (m : M) (seg : segment) : res segment :=
  if sg_closed seg then Ok seg
  else
    needs ← needs_rewrite cfg m seg;
    if negb needs then Ok seg else rewrite_segment_with_offset_map cfg m false false seg.

(** The loop of [chunked_sliding_window_compact]: the newest segment is indexed chunk by chunk. *)
Fixpoint chunk_loop (fuel : nat) (cfg : compaction_config) (last_indexed_offset : Z) (segs : list segment) (m : M)
    : list segment * M * res unit :=
  match fuel with
  | O => (segs, m, Crash)
  | S fuel =>
      match last segs with
      | None => (segs, m, Crash)
      | Some seg =>
          match index_chunk_of_segment_for_map seg last_indexed_offset m with
          | Throw e => (segs, m, Throw e)
          | Crash => (segs, m, Crash)
          | Ok (m, segment_fully_indexed, last_indexed_offset) =>
              let '(segs, r) := each (chunk_rewrite cfg m) segs in
              match r with
              | Ok _ => if segment_fully_indexed : bool then (segs, m, Ok tt)
                        else chunk_loop fuel cfg last_indexed_offset segs m
              | Throw e => (segs, m, Throw e)
              | Crash => (segs, m, Crash)
              end
          end
      end
  end.

(** Mark all the segments as finished, and the last one as clean. *)
Definition finish_chunked (segs : list segment) : list segment * res unit :=
  let '(segs, r) := each (fun s => '(_, s) ← finish_window s false; Ok s) segs in
  match r with
  | Ok _ =>
      match rev segs with
      | [] => (segs, Ok tt)
      | seg :: older =>
          match finish_window seg true with
          | Ok (_, seg) => (rev (seg :: older), Ok tt)
          | Throw e => (segs, Throw e)
          | Crash => (segs, Crash)
          end
      end
  | _ => (segs, r)
  end.

Definition round_complete (segs : list segment) : bool :=
  forallb (fun s => negb (may_have_compactible_records s) || has_clean_compact_timestamp s) segs.

(** [chunked_sliding_window_compact]: the segments, the start of the next window, and the answer. *)
Definition chunked_sliding_window_compact (fuel : nat) (cfg : compaction_config) (segs : list segment) (window : option Z) (m : M)
    : list segment * option Z * res bool :=
  match last segs with
  | None => (segs, window, Crash)
  | Some seg =>
      if sg_closed seg then (segs, window, Ok false)
      else
        let '(segs, m, r) := chunk_loop fuel cfg no_offset segs m in
        match r with
        | Throw e => (segs, window, Throw e)
        | Crash => (segs, window, Crash)
        | Ok _ =>
            let '(segs, r) := finish_chunked segs in
            match r with
            | Throw e => (segs, window, Throw e)
            | Crash => (segs, window, Crash)
            | Ok _ => (segs, if round_complete segs then None else Some (sg_base_offset seg), Ok true)
            end
        end
  end.

Fixpoint pop_front_uncompactible (segs : list segment) : res (list segment * list segment) :=
  match segs with
  | [] => Ok ([], [])
  | s :: rest =>
      if may_have_compactible_records s then Ok ([], segs)
      else
        '(_, s) ← finish_window s true;
        '(front, rest) ← pop_front_uncompactible rest;
        Ok (s :: front, rest)
  end.

(** The trailing segments that are clean, of the reversed window. *)
Fixpoint pop_back_clean (rev_segs : list segment) : list segment * list segment :=
  match rev_segs with
  | [] => ([], [])
  | s :: rest => if has_clean_compact_timestamp s then let '(mid, tail) := pop_back_clean rest in (mid, tail ++ [s])
                 else (rev rev_segs, [])
  end.

(** The part of [sliding_window_compact] after self compaction: the map is built from the segments left in the
    window and used to rewrite them. *)
Definition window_pass (fuel : nat) (cfg : compaction_config) (segs : list segment) (window : option Z) (m : M)
    : list segment * option Z * res bool :=
  match build_offset_map segs (reset m) with
  | Crash => (segs, window, Crash)
  | Throw _ => (segs, None, Ok false)
  | Ok (segs, m, Throw zero_segments_indexed_exception) =>
      match chunked_sliding_window_compact fuel cfg segs window m with
      | (segs, window, Throw _) => (segs, window, Ok false)
      | x => x
      end
  | Ok (segs, m, Throw _) => (segs, None, Ok false)
  | Ok (segs, m, Crash) => (segs, window, Crash)
  | Ok (segs, m, Ok idx_start_offset) =>
      let next_window :=
        if bool_decide (Some idx_start_offset = sg_base_offset <$> head segs) then None else Some idx_start_offset in
      match each (window_rewrite cfg m idx_start_offset) segs with
      | (segs, Ok _) => (segs, next_window, Ok true)
      | (segs, Throw e) => (segs, window, Throw e)
      | (segs, Crash) => (segs, window, Crash)
      end
  end.

(** Self compaction of the segments in turn; whether one of them that is still open was compacted. *)
Fixpoint self_compact_all (cfg : compaction_config) (segs : list segment) : list segment * bool * res unit :=
  match segs with
  | [] => ([], false, Ok tt)
  | s :: rest =>
      let '(s, r) := self_compact_segment cfg false s in
      match r with
      | Ok did =>
          let '(rest, did_rest, r) := self_compact_all cfg rest in
          (s :: rest, (did && negb (sg_closed s)) || did_rest, r)
      | Throw e => (s :: rest, false, Throw e)
      | Crash => (s :: rest, false, Crash)
      end
  end.

(** [sliding_window_compact] on the segments [find_sliding_range] gives it. *)
Definition sliding_window_compact (fuel : nat) (cfg : compaction_config) (segs : list segment) (window : option Z) (m : M)
    : list segment * option Z * res bool :=
  match segs with
  | [] => (segs, window, Ok false)
  | _ =>
      let '(segs, has_self_compacted, r) := self_compact_all cfg segs in
      match r with
      | Throw e => (segs, window, Throw e)
      | Crash => (segs, window, Crash)
      | Ok _ =>
          let '(mid, tail) := pop_back_clean (rev segs) in
          match pop_front_uncompactible mid with
          | Throw e => (segs, window, Throw e)
          | Crash => (segs, window, Crash)
          | Ok (front, []) => (front ++ tail, window, Ok has_self_compacted)
          | Ok (front, mid) =>
              let '(mid, window, r) := window_pass fuel cfg mid window m in
              (front ++ mid ++ tail, window, r)
          end
      end
  end.

(** [find_sliding_range]: the window's segments and its start offset. *)
Fixpoint collect_range (cfg : compaction_config) (new_start_offset last_start : option Z) (segs : list segment) : list segment :=
  match segs with
  | [] => []
  | s :: rest =>
      if sg_has_appender s || negb (segment_is_compactible s cfg) then []
      else if match last_start with Some o => o <=? sg_base_offset s | None => false end then []
      else if match new_start_offset with Some o => sg_base_offset s <? o | None => false end
      then collect_range cfg new_start_offset last_start rest
      else s :: collect_range cfg new_start_offset last_start rest
  end.

Definition find_sliding_range (cfg : compaction_config) (new_start_offset last_start : option Z) (segs : list segment)
    : res (option Z * list segment) :=
  last_start ← match last_start with
               | None => Ok None
               | Some o => front ← deref (head segs);
                           Ok (if o <=? sg_base_offset front then None else Some o)
               end;
  Ok (last_start, collect_range cfg new_start_offset last_start segs).
End with_map.
End passes.
