(* ===== verification/CompactionFilter.v ===== *)
(** * What a rewritten segment holds

    The copy of a segment's batches by [copy_data_segment_reducer], described on the records its batches
    decode to: exactly the records that are to be kept remain, in order, in batches of the same offset
    ranges. *)

From Stdlib Require Import Strings.String.
From S2P Require Import Prelude Vint IobufParser Record RecordBatch SegmentIndex SegmentIndexProps KeyOffsetMap CompactionIndex Compaction.
Import compacted_index index_facts.

(** ** Iterating over a decoded batch *)

(** A batch in the clear and its records. *)
Record plain_ok (b : record_batch) (recs : list record) : Prop := {
  po_wf : Forall record_wf recs;
  po_enc : concat (records b) = encode_records recs;
  po_count : record_count (header b) = blen recs;
  po_fits : blen recs <= int32_max;
  po_plain : compressed b = false;
  po_attrs : is_u 16 (attrs (header b)) /\ Z.land (attrs (header b)) 7 = 0;
  po_deltas : NoDup (offset_delta <$> recs);
}.

Section iteration.
Variable uninit : nat -> byte.
Abbreviation CP := (iobuf_parser.const_parser uninit).
#[local] Existing Instance iobuf_parser.const_laws.
Abbreviation cview := (@view _ CP (iobuf_parser.const_laws uninit)).

Lemma for_each_loop_view {A} (f : A -> record -> A * bool) recs acc p k :
  Forall record_wf recs -> cview p (concat (append_record_to_buffer [] <$> recs)) k ->
  for_each_record_loop uninit f (length recs) acc p = Ok (fold_stop f acc recs).1.
Proof.
  intros Hr. revert acc p k. induction Hr as [|r recs Hr _ IH]; intros acc p k Hp; cbn [length for_each_record_loop]; [done|].
  destruct (copy_iterator_next_view uninit (length recs) p r recs k Hr eq_refl Hp) as (p' & -> & Hp').
  cbn [mbind res_bind fold_stop]. destruct (f acc r) as [acc' [|]]; [done|]. exact (IH _ _ _ Hp').
Qed.

Lemma for_each_record_encoded {A} (f : A -> record -> A * bool) b recs acc : plain_ok b recs ->
  for_each_record uninit f b acc = Ok (fold_stop f acc recs).1.
Proof.
  intros [Hw He Hc _ Hp _ _]. unfold for_each_record, copy_iterator_create, batch_record_count.
  rewrite Hp, Hc. cbn [negb vassert mbind res_bind]. unfold blen. rewrite Nat2Z.id.
  pose proof (iobuf_parser.const_make_view uninit (records b)) as Hv.
  rewrite He, encode_records_eq in Hv by done. exact (for_each_loop_view f recs acc _ _ Hw Hv).
Qed.

(** The iteration with a function that may fail, on the list. *)
Fixpoint fold_res {A} (f : A -> record -> res (A * bool)) (a : A) (recs : list record) : res A :=
  match recs with
  | [] => Ok a
  | r :: recs => '(a, stop) ← f a r; if stop : bool then Ok a else fold_res f a recs
  end.

Lemma for_each_res_encoded {A} (f : A -> record -> res (A * bool)) b recs a : plain_ok b recs ->
  for_each_record_res uninit f b a = fold_res f a recs.
Proof.
  intros Hb. unfold for_each_record_res. rewrite (for_each_record_encoded _ b recs) by done. cbn [mbind res_bind].
  clear Hb. revert a. induction recs as [|r recs IH]; intros a; [done|]. cbn [fold_stop fold_res].
  destruct (f a r) as [[a' [|]]|e|]; cbn [mbind res_bind fst]; [done|apply IH|done|done].
Qed.
End iteration.

(** ** Which records are kept *)

(** The records selected by a test that also sees whether a record is the last one. *)
Fixpoint kept (P : record -> bool -> bool) (recs : list record) : list record :=
  match recs with
  | [] => []
  | r :: rest => (if P r (bool_decide (rest = [])) then [r] else []) ++ kept P rest
  end.

Lemma kept_sublist P recs : kept P recs `sublist_of` recs.
Proof.
  induction recs as [|r rest IH]; cbn; [done|]. destruct (P r _); cbn; [by constructor|by constructor].
Qed.

Lemma kept_elem P recs r : r ∈ kept P recs -> r ∈ recs.
Proof. intros H. eapply elem_of_submseteq; [exact H|]. apply sublist_submseteq, kept_sublist. Qed.

Lemma kept_in P recs r : r ∈ recs -> (forall l, P r l = true) -> r ∈ kept P recs.
Proof.
  intros Hr HP. induction recs as [|r0 rest IH]; cbn; [done|]. apply elem_of_cons in Hr as [->|Hr].
  - rewrite HP. set_solver.
  - apply elem_of_app. right. by apply IH.
Qed.

Section keep.
Variables (kc : keep_config) (latest : record_batch -> record -> bool).

Definition keep_record (b : record_batch) (r : record) (is_last : bool) : bool :=
  (negb (kc_placeholder_enabled kc) && ((last_offset (header b) =? kc_segment_last_offset kc) && is_last))
  || (negb (can_discard kc b r) && (negb (is_compactible (header b)) || latest b r)).

Lemma should_keep_ok is_latest b r l f : is_latest b r = Ok (latest b r) ->
  exists f', should_keep is_latest kc b r l f = Ok (keep_record b r l, f').
Proof.
  intros Hl. unfold should_keep, keep_record. destruct (negb _ && (_ && l)) eqn:E1; [eauto|].
  destruct (can_discard kc b r) eqn:E2; [eauto|]. destruct (negb (is_compactible _)) eqn:E3; [eauto|].
  rewrite Hl. cbn. eauto.
Qed.

Lemma deltas_to_keep_ok uninit is_latest b recs f : plain_ok b recs ->
  (forall r, r ∈ recs -> is_latest b r = Ok (latest b r)) ->
  exists f', deltas_to_keep uninit (should_keep is_latest kc) b f
    = Ok (offset_delta <$> kept (keep_record b) recs, blen recs, f').
Proof.
  intros Hb Hl. unfold deltas_to_keep. rewrite (for_each_res_encoded uninit _ b recs) by done.
  pose proof (po_count _ _ Hb) as Hc. pose proof (po_fits _ _ Hb) as Hf. unfold batch_record_count. rewrite Hc.
  enough (Hg : forall rest i ds f, (forall r, r ∈ rest -> is_latest b r = Ok (latest b r)) -> 0 <= i -> i + blen rest = blen recs ->
    exists f', fold_res (fun '(deltas, seen, f) r => '(keep, f) ← should_keep is_latest kc b r (blen recs =? s32 (seen + 1)) f;
         Ok ((if keep : bool then deltas ++ [offset_delta r] else deltas, s32 (seen + 1), f), false)) (ds, i, f) rest
      = Ok (ds ++ (offset_delta <$> kept (keep_record b) rest), blen recs, f')).
  { destruct (Hg recs 0 [] f Hl) as (f' & ->); [lia|lia|eauto]. }
  intros rest. induction rest as [|r rest IH]; intros i ds f0 Hlr Hi Hsum; cbn [fold_res kept].
  - exists f0. rewrite app_nil_r. change (blen []) with 0 in Hsum. do 3 f_equal. lia.
  - rewrite blen_cons in Hsum. pose proof (blen_nonneg rest). rewrite swrap_id by ranges.
    destruct (should_keep_ok is_latest b r (blen recs =? i + 1) f0) as (f1 & ->); [apply Hlr; left|]. cbn [mbind res_bind].
    assert (Hlast : (blen recs =? i + 1) = bool_decide (rest = [])).
    { destruct rest; [rewrite bool_decide_true by done; apply Z.eqb_eq; change (blen []) with 0 in Hsum; lia|].
      rewrite bool_decide_false by done. apply Z.eqb_neq. rewrite blen_cons in *. pose proof (blen_nonneg rest). lia. }
    rewrite Hlast. destruct (keep_record b r (bool_decide (rest = []))).
    + destruct (IH (i + 1) (ds ++ [offset_delta r]) f1) as (f' & ->); [set_solver|lia|lia|]. exists f'. by rewrite <- app_assoc.
    + destruct (IH (i + 1) ds f1) as (f' & ->); [set_solver|lia|lia|]. by exists f'.
Qed.
End keep.

(** ** Rewriting a batch *)

Lemma filter_ext_in {A} (P Q : A -> Prop) `{forall x, Decision (P x), forall x, Decision (Q x)} (l : list A) :
  (forall x, x ∈ l -> P x <-> Q x) -> base.filter P l = base.filter Q l.
Proof.
  induction l as [|x l IH]; intros Hpq; [done|]. rewrite !filter_cons. rewrite IH by set_solver.
  specialize (Hpq x ltac:(left)). repeat case_decide; done || tauto.
Qed.

Lemma selected_records {A} (d : A -> Z) (ks recs : list A) : ks `sublist_of` recs -> NoDup (d <$> recs) ->
  base.filter (fun r => d r ∈ d <$> ks) recs = ks.
Proof.
  induction 1 as [|r ks recs Hs IH|r ks recs Hs IH]; intros Hnd; [done|..];
    rewrite fmap_cons in Hnd; apply NoDup_cons in Hnd as [Hr Hnd].
  - rewrite filter_cons_True by (rewrite fmap_cons; set_solver). f_equal.
    transitivity (base.filter (fun r => d r ∈ d <$> ks) recs); [|by apply IH].
    apply filter_ext_in. intros x Hx. rewrite fmap_cons, elem_of_cons. split; [|tauto].
    intros [E|?]; [|done]. destruct Hr. rewrite <- E. by apply list_elem_of_fmap_2.
  - rewrite filter_cons_False; [by apply IH|]. intros Hin. apply Hr.
    apply list_elem_of_fmap in Hin as (x & -> & Hx). apply list_elem_of_fmap_2.
    eapply elem_of_submseteq; [exact Hx|]. by apply sublist_submseteq.
Qed.

Lemma foldl_rewrite ds recs w :
  foldl (rewrite_record ds) w recs
  = foldl (fun w r => {| rw_ret := append_record_to_buffer (rw_ret w) r; rw_count := s32 (rw_count w + 1);
                         rw_first := match rw_first w with None => Some (timestamp_delta r) | Some d => Some d end;
                         rw_last := timestamp_delta r |}) w (base.filter (fun r => offset_delta r ∈ ds) recs).
Proof.
  revert w. induction recs as [|r recs IH]; intros w; [done|]. cbn [foldl]. rewrite IH. unfold rewrite_record at 1.
  rewrite filter_cons. by case_decide.
Qed.

Lemma foldl_rewritten ks ret c first lst : 0 <= c -> c + blen ks <= int32_max ->
  foldl (fun w r => {| rw_ret := append_record_to_buffer (rw_ret w) r; rw_count := s32 (rw_count w + 1);
                       rw_first := match rw_first w with None => Some (timestamp_delta r) | Some d => Some d end;
                       rw_last := timestamp_delta r |})
    {| rw_ret := ret; rw_count := c; rw_first := first; rw_last := lst |} ks
  = {| rw_ret := foldl append_record_to_buffer ret ks; rw_count := c + blen ks;
       rw_first := match first with Some d => Some d | None => timestamp_delta <$> head ks end;
       rw_last := default lst (timestamp_delta <$> last ks) |}.
Proof.
  revert ret c first lst. induction ks as [|r ks IH]; intros ret c first lst Hc Hb.
  { cbn. rewrite Z.add_0_r. by destruct first. }
  rewrite blen_cons in *. pose proof (blen_nonneg ks). cbn [foldl rw_ret rw_count rw_first rw_last].
  rewrite swrap_id by ranges. rewrite IH by lia. f_equal; [lia| |].
  - by destruct first.
  - rewrite last_cons. by destruct (last ks).
Qed.

Lemma rewrite_records_ok uninit b recs ks : plain_ok b recs -> ks `sublist_of` recs ->
  rewrite_records uninit (offset_delta <$> ks) b
  = Ok {| rw_ret := encode_records ks; rw_count := blen ks; rw_first := timestamp_delta <$> head ks;
          rw_last := default 0 (timestamp_delta <$> last ks) |}.
Proof.
  intros Hb Hs. unfold rewrite_records. rewrite (for_each_record_encoded uninit _ b recs) by done.
  rewrite fold_stop_never. cbn [fst]. rewrite foldl_rewrite, selected_records by (done || apply (po_deltas _ _ Hb)).
  rewrite foldl_rewritten; [done|lia|]. pose proof (po_fits _ _ Hb). apply sublist_length in Hs. unfold blen in *. lia.
Qed.

(** The attributes of a rewritten batch. *)
Lemma land_keeps a m k : Z.land m k = k -> Z.land (Z.land a m) k = Z.land a k.
Proof. intros E. by rewrite <- Z.land_assoc, E. Qed.

Lemma land_u16 a m : is_u 16 a -> 0 <= m -> is_u 16 (Z.land a m).
Proof.
  intros [H0 H1] Hm. split; [apply Z.land_nonneg; lia|].
  destruct (decide (Z.land a m = 0)) as [->|Hne]; [ranges|].
  apply Z.log2_lt_pow2; [pose proof (Z.land_nonneg a m); lia|].
  pose proof (Z.log2_land a m H0 Hm). destruct (decide (a = 0)) as [->|]; [by rewrite Z.land_0_l in Hne|].
  apply Z.log2_lt_pow2 in H1; lia.
Qed.

Definition plain_attrs (a : Z) : Prop := is_u 16 a /\ Z.land a 7 = 0.

Lemma remove_transactional_plain a : plain_attrs a -> plain_attrs (record_batch_attributes.remove_transactional_type a).
Proof.
  intros [Hu Ha]. unfold record_batch_attributes.remove_transactional_type, record_batch_attributes.transactional_mask.
  change (u16 (Z.lnot 0x10)) with 0xFFEF. split; [by apply land_u16|]. by rewrite land_keeps.
Qed.

Lemma remove_compression_plain a : is_u 16 a -> plain_attrs (record_batch_attributes.remove_compression a).
Proof.
  intros Hu. unfold record_batch_attributes.remove_compression, record_batch_attributes.compression_mask.
  change (u16 (Z.lnot 7)) with 0xFFF8. split; [by apply land_u16|]. rewrite <- Z.land_assoc. change (Z.land 0xFFF8 7) with 0. apply Z.land_0_r.
Qed.

Lemma remove_transactional_control a :
  record_batch_attributes.is_control (record_batch_attributes.remove_transactional_type a) = record_batch_attributes.is_control a.
Proof.
  unfold record_batch_attributes.is_control, record_batch_attributes.remove_transactional_type.
  unfold record_batch_attributes.control_mask, record_batch_attributes.transactional_mask.
  change (u16 (Z.lnot 0x10)) with 0xFFEF. by rewrite land_keeps.
Qed.

Lemma remove_compression_control a :
  record_batch_attributes.is_control (record_batch_attributes.remove_compression a) = record_batch_attributes.is_control a.
Proof.
  unfold record_batch_attributes.is_control, record_batch_attributes.remove_compression.
  unfold record_batch_attributes.control_mask, record_batch_attributes.compression_mask.
  change (u16 (Z.lnot 7)) with 0xFFF8. by rewrite land_keeps.
Qed.

Lemma or_compression_control a c :
  record_batch_attributes.is_control (record_batch_attributes.or_compression a c) = record_batch_attributes.is_control a.
Proof.
  unfold record_batch_attributes.is_control, record_batch_attributes.or_compression.
  unfold record_batch_attributes.control_mask, record_batch_attributes.compression_mask.
  rewrite Z.land_lor_distr_l. replace (Z.land (Z.land (compression_code c) 7) 0x20) with 0 by (by destruct c).
  by rewrite Z.lor_0_r.
Qed.

Lemma unset_transaction_plain en h : plain_attrs (attrs h) ->
  plain_attrs (unset_transaction en h) /\
  record_batch_attributes.is_control (unset_transaction en h) = record_batch_attributes.is_control (attrs h).
Proof.
  intros Ha. unfold unset_transaction. destruct (_ && _); [|done].
  split; [by apply remove_transactional_plain|apply remove_transactional_control].
Qed.

(** What every version of a batch shares: its offsets, and its producer's identity and sequence number, by which
    the producer's state is restored from the log. *)
Definition same_batch (h h' : record_batch_header) : Prop :=
  base_offset h' = base_offset h /\ last_offset_delta h' = last_offset_delta h /\
  producer_id h' = producer_id h /\ producer_epoch h' = producer_epoch h /\ base_sequence h' = base_sequence h.

(** The version has the same records' keys and types. *)
Definition same_kind (h h' : record_batch_header) : Prop := type h' = type h /\ is_control_header h' = is_control_header h.

Lemma kept_plain b b' recs ks : plain_ok b recs -> ks `sublist_of` recs -> concat (records b') = encode_records ks ->
  record_count (header b') = blen ks -> compressed b' = false -> plain_attrs (attrs (header b')) -> plain_ok b' ks.
Proof.
  intros [Hw _ _ Hf _ _ Hd] Hs He Hc Hp Ha. pose proof (sublist_length _ _ Hs). split; [|done|done| |done|done|].
  - rewrite Forall_forall in *. intros r Hr. apply Hw. eapply elem_of_submseteq; [exact Hr|]. by apply sublist_submseteq.
  - unfold blen in *. lia.
  - eapply sublist_NoDup; [exact Hd|]. by apply fmap_sublist.
Qed.

Lemma sublist_whole {A} (l1 l2 : list A) : l1 `sublist_of` l2 -> length l1 = length l2 -> l1 = l2.
Proof.
  induction 1 as [|x l1 l2 Hs IH|x l1 l2 Hs IH]; intros Hl; [done|..]; cbn in Hl.
  - f_equal. apply IH. lia.
  - apply sublist_length in Hs. lia.
Qed.

(** A batch without records that stands for the offsets and the producer's sequence of [h]. *)
Record placeholder_for (h : record_batch_header) (p : record_batch) : Prop := {
  pf_type : type (header p) = compaction_placeholder;
  pf_plain : plain_ok p [];
  pf_same : same_batch h (header p);
}.

Section filter_facts.
Variables (crc_extend : Z -> list Z -> Z) (uninit : nat -> byte) (in_window : record_batch_header -> bool).
Variables (kc : keep_config) (latest : record_batch -> record -> bool) (is_latest : record_batch -> record -> res bool).
Variables (seg_last : Z) (placeholders unset : bool).

Lemma make_placeholder_ok h : exists p, make_placeholder_batch crc_extend h = Ok p /\ placeholder_for h p.
Proof.
  unfold make_placeholder_batch. rewrite (make_batch_reset _ _ _ none) by done. eexists. split; [done|].
  split; [done| |by split_and!]. split; try done. constructor.
Qed.

(** The outcome of filtering a batch of which [ks] remain. *)
Definition filtered (b : record_batch) (ks : list record) (o : option record_batch) : Prop :=
  match o with
  | None => ks = []
  | Some b' => (ks = [] /\ placeholder_for (header b) b') \/
               (plain_ok b' ks /\ same_batch (header b) (header b') /\ same_kind (header b) (header b'))
  end.

Lemma rewritten_ok b recs ks w h' : plain_ok b recs -> ks `sublist_of` recs -> ks <> [] ->
  w = {| rw_ret := encode_records ks; rw_count := blen ks; rw_first := timestamp_delta <$> head ks;
         rw_last := default 0 (timestamp_delta <$> last ks) |} ->
  rewritten_header crc_extend (header b) (record_batch_attributes.remove_compression (unset_transaction unset (header b))) w = Ok h' ->
  exists b', make_batch h' [rw_ret w] = Ok b' /\ plain_ok b' ks /\ same_batch (header b) (header b') /\ same_kind (header b) (header b') /\
    first_timestamp (header b') = s64 (first_timestamp (header b) + default 0 (timestamp_delta <$> head ks)).
Proof.
  intros Hb Hs Hne -> E. destruct ks as [|k ks]; [done|]. cbn [head fmap option_fmap option_map rewritten_header rw_first opt_value mbind res_bind] in E.
  injection E as <-. destruct (unset_transaction_plain unset (header b)) as [[Hu Ha] Hc]; [apply (po_attrs _ _ Hb)|].
  destruct (remove_compression_plain _ Hu) as [Hu' Ha']. rewrite (make_batch_reset _ _ _ none) by (by apply attrs_none).
  eexists. split; [done|]. split; [|split; [done|]].
  - eapply kept_plain; [exact Hb|exact Hs|..]; try done. cbn. apply app_nil_r.
  - split; [|done]. split; [done|]. unfold is_control_header. cbn. rewrite remove_compression_control. exact Hc.
Qed.

(** The last two cases of [filter], where some records remain. *)
Lemma filter_some_ok b recs ks f : plain_ok b recs -> ks `sublist_of` recs -> ks <> [] ->
  exists b', (if blen (offset_delta <$> ks) =? u64 (batch_record_count b) then
          let a := unset_transaction unset (header b) in
          if (type (header b) =? raft_data) && is_transactional_header (header b) && negb (is_control_header (header b)) && unset
          then Ok (Some {| header := reset_size_checksum_metadata crc_extend (with_attrs (header b) a) (records b);
                           records := records b; compressed := compressed b |}, f)
          else Ok (Some b, f)
        else
          w ← rewrite_records uninit (offset_delta <$> ks) b;
          if rw_count w =? 0 then Ok (None, f)
          else
            let a := record_batch_attributes.remove_compression (unset_transaction unset (header b)) in
            h' ← rewritten_header crc_extend (header b) a w;
            b' ← make_batch h' [rw_ret w];
            Ok (Some b', f)) = Ok (Some b', f : keep_flags) /\
    plain_ok b' ks /\ same_batch (header b) (header b') /\ same_kind (header b) (header b') /\
    (ks <> recs -> first_timestamp (header b') = s64 (first_timestamp (header b) + default 0 (timestamp_delta <$> head ks))).
Proof.
  intros Hb Hs Hne. pose proof (po_fits _ _ Hb). pose proof (blen_nonneg recs). unfold batch_record_count.
  rewrite (po_count _ _ Hb), uwrap_id by ranges. unfold blen at 1. rewrite length_fmap. fold (blen ks).
  destruct (blen ks =? blen recs) eqn:Ec.
  - apply Z.eqb_eq in Ec. assert (ks = recs) as -> by (apply sublist_whole; [done|unfold blen in Ec; lia]).
    destruct (unset_transaction_plain unset (header b)) as [Ha Hc]; [apply (po_attrs _ _ Hb)|]. cbv zeta.
    destruct (_ && unset); [|exists b; by split_and!]. eexists. split; [done|]. split; [|split; [done|by split]].
    apply (kept_plain b _ recs recs); try done; [apply (po_enc _ _ Hb)|apply (po_count _ _ Hb)|apply (po_plain _ _ Hb)].
  - rewrite (rewrite_records_ok uninit b recs ks Hb Hs). cbn [mbind res_bind]. set (w := {| rw_ret := _ |}).
    destruct ks as [|k ks]; [done|]. rewrite (proj2 (Z.eqb_neq (rw_count w) 0))
      by (cbn [w rw_count]; rewrite blen_cons; pose proof (blen_nonneg ks); lia).
    destruct (rewritten_ok b recs (k :: ks) w _ Hb Hs Hne eq_refl eq_refl) as (b' & E & Hok). cbv zeta.
    cbn [rewritten_header w rw_first fmap option_fmap option_map head opt_value mbind res_bind] in E |- *.
    rewrite E. exists b'. naive_solver.
Qed.

(** A batch of which some records are kept. *)
Lemma filter_keeps b recs ks f : plain_ok b recs -> is_filterable (type (header b)) = true ->
  (forall r, r ∈ recs -> is_latest b r = Ok (latest b r)) -> kept (keep_record kc latest b) recs = ks -> ks <> [] ->
  exists b' f', filter crc_extend uninit in_window (should_keep is_latest kc) seg_last placeholders unset b f = Ok (Some b', f') /\
    plain_ok b' ks /\ same_batch (header b) (header b') /\ same_kind (header b) (header b') /\
    (ks <> recs -> first_timestamp (header b') = s64 (first_timestamp (header b) + default 0 (timestamp_delta <$> head ks))).
Proof.
  intros Hb Hty Hl Hks Hne. unfold filter. rewrite Hty. cbn [negb].
  assert ((type (header b) =? compaction_placeholder) = false) as ->.
  { unfold is_filterable in Hty. by destruct (type (header b) =? compaction_placeholder). }
  cbn [andb]. destruct (deltas_to_keep_ok kc latest uninit is_latest b recs f Hb Hl) as (f' & ->). cbn [mbind res_bind].
  pose proof (kept_sublist (keep_record kc latest b) recs) as Hs. rewrite Hks in *. destruct ks as [|k ks]; [done|].
  destruct (filter_some_ok b recs (k :: ks) f' Hb Hs Hne) as (b' & E & Hok). exists b', f'. split; [exact E|done].
Qed.

Lemma filter_ok b recs f : plain_ok b recs -> is_filterable (type (header b)) = true ->
  (forall r, r ∈ recs -> is_latest b r = Ok (latest b r)) ->
  exists o f', filter crc_extend uninit in_window (should_keep is_latest kc) seg_last placeholders unset b f = Ok (o, f') /\
    filtered b (kept (keep_record kc latest b) recs) o.
Proof.
  intros Hb Hty Hl. destruct (kept (keep_record kc latest b) recs) as [|k ks] eqn:Eks.
  - unfold filter. rewrite Hty. cbn [negb]. assert ((type (header b) =? compaction_placeholder) = false) as ->.
    { unfold is_filterable in Hty. by destruct (type (header b) =? compaction_placeholder). }
    cbn [andb]. destruct (deltas_to_keep_ok kc latest uninit is_latest b recs f Hb Hl) as (f' & ->). rewrite Eks. cbn [mbind res_bind fmap list_fmap].
    destruct (_ && _); [|by exists None, f'].
    destruct (make_placeholder_ok (header b)) as (p & -> & Hp). cbn. do 2 eexists. split; [done|]. by left.
  - destruct (filter_keeps b recs (k :: ks) f Hb Hty Hl Eks) as (b' & f' & E & Hp & Hs & Hk & _); [done|].
    exists (Some b'), f'. split; [exact E|]. by right.
Qed.

(** The time of a record: its batch's first time and its own difference to that. *)
Definition record_time (h : record_batch_header) (r : record) : Z := s64 (first_timestamp h + timestamp_delta r).

(** C39: compaction moves the times of the records it keeps: when the first records of a batch are removed, the
    first time of the batch becomes that of the first record left, but the records keep the differences to the old
    first time, so that every record of the new batch is later by the difference of its first record. *)
Theorem compaction_shifts_times b recs k ks f : plain_ok b recs -> is_filterable (type (header b)) = true ->
  (forall r, r ∈ recs -> is_latest b r = Ok (latest b r)) -> kept (keep_record kc latest b) recs = k :: ks -> k :: ks <> recs ->
  exists b' f', filter crc_extend uninit in_window (should_keep is_latest kc) seg_last placeholders unset b f = Ok (Some b', f') /\
    plain_ok b' (k :: ks) /\
    forall r, r ∈ k :: ks -> record_time (header b') r = s64 (record_time (header b) r + timestamp_delta k).
Proof.
  intros Hb Hty Hl Eks Hne. destruct (filter_keeps b recs (k :: ks) f Hb Hty Hl Eks) as (b' & f' & E & Hp & _ & _ & Ht); [done|].
  exists b', f'. split; [done|]. split; [done|]. intros r _. unfold record_time. rewrite Ht by done.
  change (default 0 (timestamp_delta <$> head (k :: ks))) with (timestamp_delta k).
  rewrite !swrap_add_l. f_equal. lia.
Qed.
End filter_facts.

(** ** Copying a segment *)

(** A record with what identifies it: its batch's type, the control bit and the first offset. *)
Record item := { it_type : Z; it_control : bool; it_base : Z; it_rec : record }.

Definition item_of (h : record_batch_header) (r : record) : item :=
  {| it_type := type h; it_control := is_control_header h; it_base := base_offset h; it_rec := r |}.

Definition it_key (x : item) : list Z := enhance_key (it_type x) (it_control x) (key (it_rec x)).
Definition it_offset (x : item) : Z := s64 (it_base x + offset_delta (it_rec x)).

Lemma item_of_same h h' r : same_batch h h' -> same_kind h h' -> item_of h' r = item_of h r.
Proof. intros (Hb & _) (Ht & Hc). unfold item_of. by rewrite Hb, Ht, Hc. Qed.

Lemma same_batch_trans a b c : same_batch a b -> same_batch b c -> same_batch a c.
Proof. intros (? & ? & ? & ? & ?) (? & ? & ? & ? & ?). split_and!; congruence. Qed.

Lemma same_kind_trans a b c : same_kind a b -> same_kind b c -> same_kind a c.
Proof. intros (? & ?) (? & ?). split; congruence. Qed.

Lemma same_last_offset h h' : same_batch h h' -> last_offset h' = last_offset h.
Proof. intros (Hb & Hl & _). unfold last_offset. by rewrite Hb, Hl. Qed.

(** The records of a list of batches. *)
Definition items (bs : list record_batch) (rss : list (list record)) : list item :=
  concat (zip_with (fun b recs => item_of (header b) <$> recs) bs rss).

(** The offsets batches stand for. *)
Definition span (b : record_batch) : Z * Z := (base_offset (header b), last_offset (header b)).

Lemma items_app bs1 bs2 rss1 rss2 : length bs1 = length rss1 ->
  items (bs1 ++ bs2) (rss1 ++ rss2) = items bs1 rss1 ++ items bs2 rss2.
Proof. intros Hl. unfold items. by rewrite zip_with_app, concat_app. Qed.

Lemma items_same b b' recs : same_batch (header b) (header b') -> (same_kind (header b) (header b') \/ recs = []) ->
  item_of (header b') <$> recs = item_of (header b) <$> recs.
Proof.
  intros Hs [Hk| ->]; [|done]. apply list_fmap_ext. intros i r _. by apply item_of_same.
Qed.

Section copy_facts.
Context (crc_extend : Z -> list Z -> Z) `{!CrcLaws crc_extend}.
Variable uninit : nat -> byte.
Context (uncompress compress : compression_type -> list bytes -> res (list bytes)) `{!CodecLaws uncompress compress}.

Definition decoded (b : record_batch) : res record_batch :=
  if compressed b then decompress_batch crc_extend uncompress b else Ok b.

(** A batch as it is on disk, and its records. *)
Definition stored (b : record_batch) (recs : list record) : Prop :=
  (type (header b) = compaction_placeholder -> recs = []) /\
  exists b0, decoded b = Ok b0 /\ plain_ok b0 recs /\ same_batch (header b) (header b0) /\ same_kind (header b) (header b0).

Lemma stored_plain b recs : plain_ok b recs -> (type (header b) = compaction_placeholder -> recs = []) -> stored b recs.
Proof. intros Hb Hp. split; [done|]. exists b. unfold decoded. by rewrite (po_plain _ _ Hb). Qed.

Lemma plain_by_contents b b' recs : plain_ok b recs -> concat (records b') = concat (records b) ->
  record_count (header b') = record_count (header b) -> attrs (header b') = attrs (header b) -> compressed b' = false ->
  plain_ok b' recs.
Proof. intros [Hw He Hc Hf Hp Ha Hd] H1 H2 H3 H4. split; try done; [congruence|congruence|by rewrite H3]. Qed.

Lemma compress_same c b recs b' : plain_ok b recs -> compress_batch crc_extend compress c b = Ok b' ->
  same_batch (header b) (header b') /\ same_kind (header b) (header b') /\ compressed b' = true.
Proof.
  intros Hb E. pose proof (po_attrs _ _ Hb) as [Hu Ha]. unfold compress_batch in E. destruct (compressed b); [done|].
  destruct (decide (c = none)) as [->|Hn]; [done|]. rewrite bool_decide_eq_false_2 in E by done. cbn [throw_if mbind res_bind] in E.
  destruct (to_compression_type c) as [t| |] eqn:Et; try done. cbn [mbind res_bind] in E.
  destruct (compress t (records b)) as [payload| |]; try done. cbn [mbind res_bind] in E.
  rewrite (make_batch_reset _ _ _ c) in E by (cbn [attrs with_attrs with_timestamp]; by eapply get_or_compression).
  rewrite bool_decide_eq_true_2 in E by done. injection E as <-. split; [done|]. split; [|done]. split; [done|].
  apply or_compression_control.
Qed.

Lemma stored_compress c b recs b' : plain_ok b recs -> (type (header b) = compaction_placeholder -> recs = []) ->
  compress_batch crc_extend compress c b = Ok b' ->
  stored b' recs /\ same_batch (header b) (header b') /\ same_kind (header b) (header b').
Proof.
  intros Hb Hph E. pose proof (po_attrs _ _ Hb) as [Hu Ha].
  destruct (decompress_compress crc_extend uncompress compress b c b' Hu Ha E) as (body & Hbody & Hd).
  destruct (compress_same c b recs b' Hb E) as (Hs & Hk & Hc). split; [|by split]. split; [destruct Hk as [-> _]; done|].
  exists {| header := reset_size_checksum_metadata crc_extend (header b) body; records := body; compressed := false |}.
  unfold decoded. rewrite Hc. split; [done|]. split; [by apply (plain_by_contents b)|].
  destruct Hs as (? & ? & ? & ? & ?), Hk. unfold same_batch, same_kind. by split_and!.
Qed.

(** What a copy keeps of a batch. *)
Definition remaining (kc : keep_config) (latest : item -> bool) (b : record_batch) (recs : list record) : list record :=
  if is_filterable (type (header b)) then kept (keep_record kc (fun b r => latest (item_of (header b) r)) b) recs else recs.

Lemma remaining_same kc latest b b0 recs : same_batch (header b) (header b0) -> same_kind (header b) (header b0) ->
  remaining kc latest b0 recs = remaining kc latest b recs.
Proof.
  intros Hs Hk. pose proof Hk as [Ht Hc]. pose proof (same_last_offset _ _ Hs) as Hl. unfold remaining. rewrite Ht.
  destruct (is_filterable _); [|done]. induction recs as [|r recs IH]; [done|]. cbn [kept]. rewrite IH. f_equal.
  unfold keep_record, can_discard, is_compactible. by rewrite (item_of_same _ _ r Hs Hk), Hl, Ht, Hc.
Qed.

Lemma maybe_index_max acc step pos base last first_ts last_ts bts user k s b s' :
  maybe_index acc step pos base last first_ts last_ts bts user k s = Ok (b, s') -> ix_max_offset s' = last.
Proof.
  unfold maybe_index. destruct (vassert _); [|done|done]. cbn [mbind res_bind].
  destruct (if user && non_data_timestamps s then _ else _) as [s1| |]; [|done|done]. cbn [mbind res_bind]. unfold index_batch.
  destruct (index_empty s1) as [e| |]; [|done|done]. cbn [mbind res_bind].
  destruct e, user, (0 <? k); cbn; repeat case_match; intros [= <- <-]; done.
Qed.

Section with_test.
Variables (idx_mem_usage : list (list Z * spill_key_index.value_type) -> Z).
Variable place : list (list Z * spill_key_index.value_type) -> list Z * spill_key_index.value_type ->
  list (list Z * spill_key_index.value_type).
Variable env : nat -> spill_key_index.resources.
Variable in_window : record_batch_header -> bool.
Variables (kc : keep_config) (latest : item -> bool) (is_latest : record_batch -> record -> res bool).
Variables (placeholders unset internal : bool).
Abbreviation seg_filter :=
  (filter crc_extend uninit in_window (should_keep is_latest kc) (kc_segment_last_offset kc) placeholders unset).

(** The test is answered for the records of a batch. *)
Definition answered (h : record_batch_header) (recs : list record) : Prop :=
  forall b r, same_batch h (header b) -> same_kind h (header b) -> r ∈ recs -> is_latest b r = Ok (latest (item_of h r)).

(** The new version of a batch, where there is one. *)
Definition copied (b : record_batch) (recs : list record) (o : option record_batch) : Prop :=
  match o with
  | None => remaining kc latest b recs = []
  | Some b' => stored b' (remaining kc latest b recs) /\ same_batch (header b) (header b') /\
               (same_kind (header b) (header b') \/ remaining kc latest b recs = [])
  end.

Lemma filter_any b b0 recs f : stored b recs -> plain_ok b0 recs -> same_batch (header b) (header b0) ->
  same_kind (header b) (header b0) -> answered (header b) recs ->
  exists o f', seg_filter b0 f = Ok (o, f') /\
    match o with
    | None => remaining kc latest b recs = []
    | Some b' => plain_ok b' (remaining kc latest b recs) /\ same_batch (header b) (header b') /\
        (type (header b') = compaction_placeholder -> remaining kc latest b recs = []) /\
        (same_kind (header b) (header b') \/ remaining kc latest b recs = [])
    end.
Proof.
  intros [Hph _] Hb Hs Hk Hans. rewrite <- (remaining_same kc latest b b0 recs) by done. pose proof Hk as [Ht _].
  unfold remaining. destruct (is_filterable (type (header b0))) eqn:Ef.
  - destruct (filter_ok crc_extend uninit in_window kc (fun b r => latest (item_of (header b) r)) is_latest
      (kc_segment_last_offset kc) placeholders unset b0 recs f Hb Ef) as (o & f' & -> & Ho).
    { intros r Hr. rewrite (Hans b0 r) by done. by rewrite <- (item_of_same _ _ r Hs Hk). }
    exists o, f'. split; [done|]. destruct o as [b'|]; [|exact Ho]. destruct Ho as [(-> & [Hpt Hp Hps])|(Hp & Hps & Hpk)].
    + split; [done|]. split; [by eapply same_batch_trans|]. split; [done|by right].
    + split; [done|]. split; [by eapply same_batch_trans|]. split; [|left; by eapply same_kind_trans].
      intros E. destruct Hpk as [E' _]. rewrite <- E', E in Ef. done.
  - unfold filter. rewrite Ef. cbn [negb]. destruct (type (header b0) =? compaction_placeholder) eqn:Et.
    + apply Z.eqb_eq in Et. rewrite Hph in * by congruence. destruct (_ && _); [by exists None, f|].
      exists (Some b0), f. split; [done|]. split; [done|]. split; [done|]. split; [done|by left].
    + exists (Some b0), f. cbn [andb]. apply Z.eqb_neq in Et. split; [done|]. split; [done|]. split; [done|]. split; [done|by left].
Qed.

Abbreviation appended_by batch := (append_batch crc_extend uninit compress idx_mem_usage place env internal batch).

Lemma append_batch_batches c batch recs s s' : plain_ok batch recs -> (type (header batch) = compaction_placeholder -> recs = []) ->
  appended_by c batch s = Ok s' ->
  exists b', cs_batches s' = cs_batches s ++ [b'] /\ ix_max_offset (cs_idx s') = last_offset (header b') /\
    stored b' recs /\ same_batch (header batch) (header b') /\ same_kind (header batch) (header b').
Proof.
  intros Hb Hph. unfold append_batch. set (m := match cs_compacted_idx s with Some _ => _ | None => _ end).
  destruct m as [[w calls]| |]; [|done|done]. cbn [mbind res_bind].
  destruct (if decide (c <> none) then _ else _) as [b'| |] eqn:Ec; [|done|done]. cbn [mbind res_bind].
  assert (Hb' : stored b' recs /\ same_batch (header batch) (header b') /\ same_kind (header batch) (header b')).
  { destruct (decide (c <> none)); [by eapply stored_compress|]. injection Ec as <-. by split; [apply stored_plain|]. }
  destruct (maybe_index _ _ _ _ _ _ _ _ _ _ _) as [[ix idx]| |] eqn:Ei; [|done|done]. cbn [mbind res_bind]. intros [= <-].
  exists b'. cbn [cs_batches cs_idx]. by rewrite (maybe_index_max _ _ _ _ _ _ _ _ _ _ _ _ _ Ei).
Qed.

Abbreviation reduced_by b := (copy_reduce crc_extend uninit uncompress compress idx_mem_usage place env seg_filter internal b).

(** One batch of the copy, when the copy goes on. *)
Lemma copy_reduce_batches b recs s s' : stored b recs -> answered (header b) recs -> reduced_by b s = Ok s' ->
  exists o, copied b recs o /\ cs_batches s' = cs_batches s ++ option_list o /\
    ix_max_offset (cs_idx s') = from_option (fun b' => last_offset (header b')) (ix_max_offset (cs_idx s)) o.
Proof.
  intros Hst Hans. pose proof Hst as [Hph (b0 & Hd & Hb & Hs & Hk)]. unfold copy_reduce, decoded in *.
  destruct (record_batch_attributes.get_compression _) as [c| |]; [|done|done]. cbn [mbind res_bind].
  assert ((if negb (compressed b) then filter_and_append crc_extend uninit compress idx_mem_usage place env seg_filter internal c b s
     else b1 ← decompress_batch crc_extend uncompress b;
          filter_and_append crc_extend uninit compress idx_mem_usage place env seg_filter internal c b1 s)
    = filter_and_append crc_extend uninit compress idx_mem_usage place env seg_filter internal c b0 s) as ->.
  { destruct (compressed b); cbn [negb]; [by rewrite Hd|by injection Hd as ->]. }
  unfold filter_and_append.
  destruct (filter_any b b0 recs (cs_flags s) Hst Hb Hs Hk Hans) as (o & f' & -> & Ho). cbn [mbind res_bind].
  destruct o as [b1|].
  - destruct Ho as (Hb1 & Hs1 & Hph1 & Hk1). intros Ha.
    destruct (append_batch_batches c b1 _ _ s' Hb1 Hph1 Ha) as (b' & E & Em & Hst' & Hs' & Hk'). exists (Some b').
    split; [|by split]. split; [done|]. split; [by eapply same_batch_trans|].
    destruct Hk1; [left; by eapply same_kind_trans|by right].
  - intros [= <-]. exists None. split; [done|]. cbn. by rewrite app_nil_r.
Qed.

Abbreviation copied_by bs := (copy_all crc_extend uninit uncompress compress idx_mem_usage place env seg_filter internal bs).

(** A copy of batches, when it ends: it holds what remains of every one of them, in order and at the same offsets. *)
Lemma copy_all_batches bs rss s s' : Forall2 stored bs rss -> Forall2 (fun b recs => answered (header b) recs) bs rss ->
  copied_by bs s = Ok s' ->
  exists out outs, cs_batches s' = cs_batches s ++ out /\ Forall2 stored out outs /\
    items out outs = items bs (zip_with (remaining kc latest) bs rss) /\
    span <$> out `sublist_of` span <$> bs /\
    ix_max_offset (cs_idx s') = from_option (fun b => last_offset (header b)) (ix_max_offset (cs_idx s)) (last out).
Proof.
  intros Hst Hans. revert s. induction Hst as [|b recs bs rss Hb Hst IH]; intros s E.
  { injection E as <-. exists [], []. rewrite app_nil_r. by split_and!. }
  apply Forall2_cons in Hans as [Ha Hans]. cbn [copy_all] in E.
  destruct (copy_reduce _ _ _ _ _ _ _ _ _ _ _) as [s1| |] eqn:Er; [|done|done]. cbn [mbind res_bind] in E.
  destruct (copy_reduce_batches b recs s s1 Hb Ha Er) as (o & Ho & Eb & Em).
  destruct (IH Hans s1 E) as (out & outs & Eb' & Hst' & Hit & Hsp & Em'). rewrite Eb, <- app_assoc in Eb'.
  destruct o as [b'|]; cbn [option_list app copied] in *.
  - destruct Ho as (Hb' & Hs & Hk). exists (b' :: out), (remaining kc latest b recs :: outs).
    split; [done|]. split; [by constructor|]. split.
    { unfold items in *. cbn. rewrite Hit. by rewrite (items_same b b'). }
    split.
    { rewrite !fmap_cons. assert (span b' = span b) as -> by (unfold span; rewrite (same_last_offset _ _ Hs); by destruct Hs as [-> _]).
      by constructor. }
    rewrite Em', Em, last_cons. by destruct (last out).
  - exists out, outs. split; [done|]. split; [done|]. split; [|split; [by constructor|by rewrite Em', Em]].
    unfold items in *. cbn. by rewrite Ho, Hit.
Qed.
End with_test.
End copy_facts.

(** ** An example *)

Definition example_shifted : record_batch :=
  let recs := [make_record 0 0 0 (Some [97]) (Some [1]) []; make_record 0 3 1 (Some [98]) (Some [2]) []] in
  let h := {| header_crc := 0; b_size_bytes := 0; base_offset := 10; type := raft_data; crc := 0; attrs := 0;
              last_offset_delta := 1; first_timestamp := 1000; max_timestamp := 1003; producer_id := -1; producer_epoch := -1;
              base_sequence := -1; record_count := 2; ctx_term := 1; ctx_owner_shard := None |} in
  {| header := reset_size_checksum_metadata sum_extend h [encode_records recs]; records := [encode_records recs]; compressed := false |}.

(** A record written at time 1003 is at time 1006 after the compaction. *)
Lemma compaction_shifts_times_witness :
  let r := make_record 0 3 1 (Some [98]) (Some [2]) [] in
  let kc := {| kc_ntp := {| tn_ns := "kafka"%string; tn_tp := "topic"%string |}; kc_placeholder_enabled := true; kc_segment_last_offset := 20;
               kc_past_tombstone_delete_horizon := false; kc_past_tx_delete_horizon := false; kc_tx_batch_compaction_enabled := true |} in
  exists b' f', filter sum_extend (fun _ => 0) (fun _ => false) (should_keep (fun _ r => Ok (bool_decide (key r = [98]))) kc) 20 true true
      example_shifted no_flags = Ok (Some b', f') /\
    record_time (header example_shifted) r = 1003 /\ record_time (header b') r = 1006.
Proof.
  intros r kc.
  destruct (compaction_shifts_times sum_extend (fun _ => 0) (fun _ => false) kc (fun _ r => bool_decide (key r = [98]))
    (fun _ r => Ok (bool_decide (key r = [98]))) 20 true true example_shifted
    [make_record 0 0 0 (Some [97]) (Some [1]) []; r] r [] no_flags) as (b' & f' & E & _ & Ht).
  - split; [|reflexivity|reflexivity|concrete|reflexivity|split; [concrete|reflexivity]|].
    + repeat apply Forall_cons_2; [apply make_record_wf..|constructor]; (split; [concrete..|constructor|concrete|concrete|concrete]).
    + apply NoDup_cons. split; [rewrite list_elem_of_singleton; discriminate|apply NoDup_singleton].
  - reflexivity.
  - done.
  - reflexivity.
  - discriminate.
  - exists b', f'. split; [exact E|]. split; [reflexivity|]. rewrite Ht by left. reflexivity.
Defined.
