(* ===== verification/CompactionSafety.v ===== *)
(** * Compacting a window of segments loses no latest record

    [window_pass] and what it calls, on segments whose batches decode to known records: the map built from the
    compaction indices or from a chunk of the newest segment holds offsets of records of the window only, so that
    a rewritten segment keeps the latest record of every key. *)

From Stdlib Require Import Strings.String Sorting.Sorted.
From S2P Require Import Prelude Vint IobufParser Record RecordBatch SegmentIndex SegmentIndexProps KeyOffsetMap CompactionIndex Compaction.
From S2P Require Import CompactionWindow CompactionFilter.
Import compacted_index index_facts.

(** ** Lists of intervals in order *)

Definition in_order (l : list (Z * Z)) : Prop :=
  Forall (fun p => p.1 <= p.2) l /\ StronglySorted (fun a b => a.2 <= b.2) l.

Lemma sublist_Forall {A} (P : A -> Prop) (l1 l2 : list A) : l1 `sublist_of` l2 -> Forall P l2 -> Forall P l1.
Proof.
  rewrite !Forall_forall. intros Hs H x Hx. apply H. eapply elem_of_submseteq; [exact Hx|]. by apply sublist_submseteq.
Qed.

Lemma in_order_sublist l1 l2 : l1 `sublist_of` l2 -> in_order l2 -> in_order l1.
Proof.
  intros Hs [H1 H2]. split; [by eapply sublist_Forall|]. clear H1. induction Hs as [|x l1 l2 Hs IH|x l1 l2 Hs IH].
  - constructor.
  - apply StronglySorted_inv in H2 as [H2 Hx]. constructor; [by apply IH|by eapply sublist_Forall].
  - apply StronglySorted_inv in H2 as [H2 _]. by apply IH.
Qed.

Lemma in_order_last l p : in_order l -> p ∈ l -> exists q, last l = Some q /\ p.1 <= q.2.
Proof.
  intros [H1 H2] Hp. induction l as [|x l IH]; [by apply elem_of_nil in Hp|].
  apply Forall_cons in H1 as [Hx H1]. apply StronglySorted_inv in H2 as [H2 Hl]. rewrite last_cons.
  apply elem_of_cons in Hp as [->|Hp].
  - destruct (last l) as [q|] eqn:E; [|by exists x]. exists q. split; [done|].
    apply last_Some_elem_of in E. rewrite Forall_forall in Hl. specialize (Hl q E). cbn in *. lia.
  - destruct (IH H1 H2 Hp) as (q & -> & Hq). by exists q.
Qed.

(** ** The records of a window *)

Section safety.
Variable E : environment.
Context `{!CrcLaws (en_crc_extend E)} `{!CodecLaws (en_uncompress E) (en_compress E)}.
Hypothesis place_permutes : forall l kv, en_place E l kv ≡ₚ kv :: l.

Abbreviation stored_batch := (stored (en_crc_extend E) (en_uncompress E)).

(** A segment whose batches hold the records [rss], and whose reader sees all of them. *)
Record segment_holds (seg : segment) (rss : list (list record)) : Prop := {
  sh_stored : Forall2 stored_batch (sg_batches seg) rss;
  sh_order : in_order (span <$> sg_batches seg);
  sh_range : Forall (fun p => sg_base_offset seg <= p.2 /\ p.1 <= sg_dirty_offset seg /\ is_s 64 p.1) (span <$> sg_batches seg);
  sh_count : blen (items (sg_batches seg) rss) < 2 ^ 40;
}.

Lemma read_all start max bs : Forall (fun p => start <= p.2 /\ p.1 <= max /\ is_s 64 p.1) (span <$> bs) -> read_batches start max bs = bs.
Proof.
  induction bs as [|b bs IH]; [done|]. rewrite fmap_cons. intros [(H1 & H2 & _) H]%Forall_cons. cbn [span fst snd] in *.
  cbn [read_batches]. rewrite (proj2 (Z.ltb_ge _ _)), (proj2 (Z.ltb_ge _ _)) by done. by rewrite IH.
Qed.

Lemma read_holds seg rss : segment_holds seg rss -> segment_full_reader seg None = sg_batches seg.
Proof. intros [_ _ Hr _]. by apply read_all. Qed.

(** A record that is to survive for as long as it is the latest of its key. *)
Definition live (ntp : topic_namespace) (x : item) : bool :=
  negb (it_control x) && is_filterable (it_type x)
  && negb (is_removable_control_batch ntp (it_type x) (en_tx_batch_compaction_enabled E)) && negb (is_tombstone (it_rec x)).

Definition newest (X : list item) (x : item) : Prop :=
  forall y, y ∈ X -> it_key y = it_key x -> it_offset y <= it_offset x.

(** *** Indexing records *)

(** The entry of a record. *)
Definition entry_item (x : item) : entry :=
  {| e_type := type_key; e_key := it_key x; e_offset := it_base x; e_delta := offset_delta (it_rec x) |}.

Abbreviation held w := (entry_of <$> spill_key_index._midx w).
Abbreviation writer := (writer_ok (en_crc_extend E)).

(** A writer that holds the latest entries of the keys of [xs], and entries of [xs] only. *)
Definition writes (w : spill_key_index.t) (xs : list item) : Prop :=
  exists es, writer (blen xs) es w /\ covered e_full (entry_item <$> xs) (es ++ held w) /\ es ++ held w ⊆ entry_item <$> xs.

Lemma writes_nothing mem : writes (spill_key_index.make mem) [].
Proof. exists []. split; [by apply (make_ok (en_crc_extend E))|]. split; [|done]. intros e He. by apply elem_of_nil in He. Qed.

#[local] Instance writes_permuted w : Proper ((≡ₚ) ==> impl) (writes w).
Proof.
  intros xs ys Hp (es & Hw & Hc & Hs). assert (He : entry_item <$> xs ≡ₚ entry_item <$> ys) by (by rewrite Hp).
  exists es. split; [|split].
  - unfold blen in *. by rewrite <- (Permutation_length Hp).
  - intros e Hin. apply Hc. by rewrite He.
  - intros e Hin. rewrite <- He. by apply Hs.
Qed.

Lemma index_records_ok h recs w calls xs : Forall record_wf recs -> is_s 64 (base_offset h) -> writes w xs ->
  exists w' calls', fold_res (fun '(w, calls) r =>
       w ← spill_key_index.index_record (en_crc_extend E) (en_idx_mem_usage E) (en_place E) (en_resources E calls) (type h) (is_control_header h)
             (key r) (base_offset h) (offset_delta r) w;
       Ok ((w, S calls), false)) (w, calls) recs = Ok (w', calls') /\ writes w' (rev (item_of h <$> recs) ++ xs).
Proof.
  intros Hr Hb. revert w calls xs. induction Hr as [|r recs Hr _ IH]; intros w calls xs Hw; [by exists w, calls|].
  destruct Hw as (es & Hw & Hc & Hs). cbn [fold_res]. rewrite index_record_by.
  destruct (index_by_ok (en_crc_extend E) (en_idx_mem_usage E) (en_place E) place_permutes e_full (blen xs) es (en_resources E calls)
    (entry_item (item_of h r)) (entry_item <$> xs) w Hw eq_refl) as (es' & w' & Ei & Hw' & Hc' & Hs'); [|done|done|].
  { split; [done|done|apply (wf_offset_delta _ Hr)]. }
  change {| e_type := type_key; e_key := enhance_key _ _ _; e_offset := _; e_delta := _ |} with (entry_item (item_of h r)).
  rewrite Ei. cbn [mbind res_bind].
  destruct (IH w' (S calls) (item_of h r :: xs)) as (w2 & calls2 & E2 & Hw2).
  { exists es'. rewrite blen_cons, Z.add_comm. by rewrite fmap_cons. }
  exists w2, calls2. split; [exact E2|]. cbn [rev fmap list_fmap]. by rewrite <- app_assoc.
Qed.

Lemma index_batch_ok b recs w calls xs : stored_batch b recs -> is_s 64 (base_offset (header b)) -> writes w xs ->
  exists w' calls', index_batch_plain E b w calls = Ok (w', calls') /\ writes w' (rev (item_of (header b) <$> recs) ++ xs).
Proof.
  intros [_ (b0 & Hd & Hb & Hs & Hk)] Hbase Hw. unfold index_batch_plain. unfold decoded in Hd. rewrite Hd. cbn [mbind res_bind].
  unfold index_batch_records. rewrite (for_each_res_encoded _ _ b0 recs) by done.
  destruct (index_records_ok (header b0) recs w calls xs) as (w' & calls' & Ei & Hw'); [apply (po_wf _ _ Hb)| |done|].
  { by destruct Hs as [-> _]. }
  exists w', calls'. split; [exact Ei|]. erewrite list_fmap_ext; [exact Hw'|]. intros i r _. symmetry. by apply item_of_same.
Qed.

(** The file a writer is closed to: keys that do not fit an entry are cut. *)
Lemma close_writes_cut w xs : writes w xs -> blen xs < 2 ^ 40 ->
  exists f es, spill_key_index.close (en_crc_extend E) w = Ok f /\ file_entries f = Ok es /\
    verify_integrity (en_crc_extend E) f = Ok tt /\
    covered e_full (cut <$> (entry_item <$> xs)) es /\ es ⊆ cut <$> (entry_item <$> xs).
Proof.
  intros (es & Hw & Hc & Hs) Hn. destruct (close_reads (en_crc_extend E) _ _ _ Hw Hn) as (f & Hf & He & Hv & _).
  exists f, (cut <$> (es ++ held w)). do 3 (split; [done|]). split.
  - intros r (r0 & -> & Hr)%list_elem_of_fmap. destruct (Hc r0 Hr) as (e & Hin & Hk & Hle). exists (cut e).
    split; [by apply list_elem_of_fmap_2|]. unfold cut, e_full in *. cbn [e_key e_offset e_delta]. by rewrite Hk.
  - intros r (r0 & -> & Hr)%list_elem_of_fmap. by apply list_elem_of_fmap_2, Hs.
Qed.

Lemma cut_short_items xs : Forall (fun x => blen (it_key x) <= spill_key_index.max_key_size) xs ->
  cut <$> (entry_item <$> xs) = entry_item <$> xs.
Proof. intros H. apply cut_short_list. by apply Forall_fmap. Qed.

Lemma close_writes w xs : writes w xs -> blen xs < 2 ^ 40 -> Forall (fun x => blen (it_key x) <= spill_key_index.max_key_size) xs ->
  exists f es, spill_key_index.close (en_crc_extend E) w = Ok f /\ file_entries f = Ok es /\
    verify_integrity (en_crc_extend E) f = Ok tt /\ covered e_full (entry_item <$> xs) es /\ es ⊆ entry_item <$> xs.
Proof. intros Hw Hn Hk. rewrite <- (cut_short_items xs Hk). by apply close_writes_cut. Qed.

Section window.
Variable X : list item.

(** [seg'] is a version of [seg] from which no latest record of the window is missing. *)
Definition thins (seg seg' : segment) : Prop :=
  sg_ntp seg' = sg_ntp seg /\
  forall rss, segment_holds seg rss -> items (sg_batches seg) rss ⊆ X ->
  exists rss', segment_holds seg' rss' /\ items (sg_batches seg') rss' `sublist_of` items (sg_batches seg) rss /\
    forall x, x ∈ items (sg_batches seg) rss -> live (sg_ntp seg) x = true -> newest X x -> x ∈ items (sg_batches seg') rss'.

Lemma thins_trans a b c : thins a b -> thins b c -> thins a c.
Proof.
  intros [N1 H1] [N2 H2]. split; [congruence|]. intros rss Ha HX. destruct (H1 rss Ha HX) as (rb & Hb & Hsb & Hkb).
  destruct (H2 rb Hb) as (rc & Hc & Hsc & Hkc).
  { intros x Hx. apply HX. eapply elem_of_submseteq; [exact Hx|]. by apply sublist_submseteq. }
  exists rc. split; [done|]. split; [by etrans|]. intros x Hx Hl Hn. apply Hkc; [by apply Hkb|by rewrite N1|done].
Qed.

Lemma thins_same seg seg' : sg_ntp seg' = sg_ntp seg -> sg_batches seg' = sg_batches seg ->
  sg_base_offset seg' = sg_base_offset seg -> sg_dirty_offset seg' = sg_dirty_offset seg -> thins seg seg'.
Proof.
  intros N Hb Hs Hd. split; [done|]. intros rss [H1 H2 H3 H4] _. exists rss. rewrite Hb. split; [|done].
  split; by rewrite Hb, ?Hs, ?Hd.
Qed.

Lemma thins_refl seg : thins seg seg.
Proof. by apply thins_same. Qed.

#[local] Instance thins_preorder : PreOrder thins.
Proof. split; [exact thins_refl|exact thins_trans]. Qed.

Lemma each_thins (f : segment -> res segment) segs segs' r :
  (forall seg seg', f seg = Ok seg' -> thins seg seg') -> each f segs = (segs', r) -> Forall2 thins segs segs'.
Proof.
  intros Hf. revert segs' r. induction segs as [|s segs IH]; intros segs' r; cbn [each].
  { intros [= <- <-]. constructor. }
  destruct (f s) as [s'| |] eqn:Es; [|intros [= <- <-]..].
  - destruct (each f segs) as [rest r'] eqn:Ee. intros [= <- <-]. constructor; [by apply Hf|by eapply IH].
  - done.
  - done.
Qed.

Lemma finish_window_thins now c seg r : mark_segment_as_finished_window_compaction now seg c = Ok r -> thins seg r.2.
Proof.
  unfold mark_segment_as_finished_window_compaction. destruct c; [|intros [= <-]; by apply thins_same].
  destruct (maybe_set_clean_compact_timestamp _ _) as [[|] x]; [|intros [= <-]; by apply thins_same].
  destruct (flush x); [|done|done]. intros [= <-]. by apply thins_same.
Qed.

(** *** Rewriting a segment *)

Abbreviation remains kc latest := (zip_with (remaining kc latest)).

Lemma kept_concat_sublist kc latest bs rss : length bs = length rss ->
  items bs (remains kc latest bs rss) `sublist_of` items bs rss.
Proof.
  revert rss. induction bs as [|b bs IH]; intros [|recs rss] Hl; try done. unfold items in *. cbn. apply sublist_app; [|by apply IH; injection Hl].
  apply fmap_sublist. unfold remaining. destruct (is_filterable _); [apply kept_sublist|done].
Qed.

(** A live record for which the test holds remains. *)
Lemma live_remains kc latest bs rss x : kc_tx_batch_compaction_enabled kc = en_tx_batch_compaction_enabled E ->
  length bs = length rss -> x ∈ items bs rss -> live (kc_ntp kc) x = true -> latest x = true ->
  x ∈ items bs (remains kc latest bs rss).
Proof.
  intros He. revert rss. induction bs as [|b bs IH]; intros [|recs rss] Hl Hx Hlive Hlatest; try done. injection Hl as Hl.
  unfold items in *. cbn [zip_with concat] in *. apply elem_of_app in Hx as [Hx|Hx]; apply elem_of_app; [left|right; by apply IH].
  apply list_elem_of_fmap in Hx as (r & -> & Hr). apply list_elem_of_fmap_2. unfold live in Hlive. cbn [item_of it_control it_type it_rec] in Hlive.
  unfold remaining. destruct (is_control_header (header b)) eqn:Ec; [done|]. destruct (is_filterable (type (header b))) eqn:Ef; [|done].
  destruct (is_removable_control_batch _ _ _) eqn:Er; [done|]. destruct (is_tombstone r) eqn:Et; [done|].
  induction recs as [|r0 recs IHr]; [by apply elem_of_nil in Hr|]. cbn [kept]. apply elem_of_app.
  apply elem_of_cons in Hr as [->|Hr]; [left|right; by apply IHr].
  assert (keep_record kc (fun b r => latest (item_of (header b) r)) b r0 (bool_decide (recs = [])) = true) as ->; [|set_solver].
  unfold keep_record, can_discard. rewrite He, Er, Et, Ec, Hlatest. apply orb_true_iff. right. by rewrite orb_true_r.
Qed.

(** What a pass of compaction asks of a record, for a segment. *)
Definition keep_of (cfg : compaction_config) (seg : segment) : keep_config :=
  {| kc_ntp := sg_ntp seg; kc_placeholder_enabled := en_placeholder_enabled E; kc_segment_last_offset := sg_committed_offset seg;
     kc_past_tombstone_delete_horizon := is_past_tombstone_delete_horizon (en_now E) seg cfg;
     kc_past_tx_delete_horizon := is_past_transaction_batch_delete_horizon (en_now E) (en_tx_batch_compaction_enabled E) seg cfg;
     kc_tx_batch_compaction_enabled := en_tx_batch_compaction_enabled E |}.

(** The batches a segment is rewritten to take its place. *)
Lemma rewritten_holds cfg is_latest latest w seg cs f rss : segment_holds seg rss ->
  Forall2 (fun b recs => answered latest is_latest (header b) recs) (sg_batches seg) rss ->
  copy_segment E cfg is_latest w seg = Ok cs ->
  exists outs, segment_holds (swap_files (cs_batches cs) (restore_index seg cs) f seg) outs /\
    items (cs_batches cs) outs = items (sg_batches seg) (remains (keep_of cfg seg) latest (sg_batches seg) rss).
Proof.
  intros Hsh Ha Hcs. unfold copy_segment in Hcs. rewrite (read_holds _ _ Hsh) in Hcs. destruct Hsh as [Hst Hord Hran Hcnt].
  fold (keep_of cfg seg) in Hcs. change (sg_committed_offset seg) with (kc_segment_last_offset (keep_of cfg seg)) in Hcs.
  destruct (copy_all_batches _ _ _ _ _ _ _ _ _ _ _ _ _ _ _ _ _ _ Hst Ha Hcs) as (out & outs & Eb & Hst' & Hit & Hsp & Em).
  cbn [new_copy cs_batches app] in Eb. subst out. pose proof (Forall2_length _ _ _ Hst) as Hlen.
  assert (Hd : sg_dirty_offset (swap_files (cs_batches cs) (restore_index seg cs) f seg) = ix_max_offset (cs_idx cs)) by done.
  exists outs. split; [|done]. split.
  - done.
  - by eapply in_order_sublist.
  - rewrite Hd, Em. cbn [swap_files sg_batches sg_base_offset].
    pose proof (in_order_sublist _ _ Hsp Hord) as Hord'. apply Forall_forall. intros p Hp.
    pose proof (sublist_Forall _ _ _ Hsp Hran) as Hr. rewrite Forall_forall in Hr. destruct (Hr p Hp) as (H1 & _ & H2).
    split; [done|]. split; [|done]. destruct (in_order_last _ p Hord' Hp) as (q & Hq & Hle).
    rewrite fmap_last in Hq. destruct (last (cs_batches cs)) as [b|]; [|done]. by injection Hq as <-.
  - cbn [swap_files sg_batches]. rewrite Hit. pose proof (sublist_length _ _ (kept_concat_sublist (keep_of cfg seg) latest _ _ Hlen)).
    unfold blen in *. lia.
Qed.

Lemma rewritten_thins cfg is_latest latest w seg cs f :
  (forall rss, segment_holds seg rss -> items (sg_batches seg) rss ⊆ X ->
     Forall2 (fun b recs => answered latest is_latest (header b) recs) (sg_batches seg) rss) ->
  (forall x, x ∈ X -> newest X x -> latest x = true) ->
  copy_segment E cfg is_latest w seg = Ok cs ->
  thins seg (swap_files (cs_batches cs) (restore_index seg cs) f seg).
Proof.
  intros Hans Hlatest Hcs. split; [done|]. intros rss Hsh HX.
  destruct (rewritten_holds cfg is_latest latest w seg cs f rss Hsh (Hans rss Hsh HX) Hcs) as (outs & Hsh' & Hit).
  pose proof (Forall2_length _ _ _ (sh_stored _ _ Hsh)) as Hlen.
  exists outs. split; [done|]. cbn [swap_files sg_batches]. rewrite Hit. split; [by apply kept_concat_sublist|].
  intros x Hx Hl Hn. apply live_remains; try done. by apply Hlatest; [apply HX|].
Qed.

(** *** Rewriting with a map of the window's offsets *)

Section with_map.
Context {M : Type} `{HM : key_offset_map M} {K : list Z -> Prop} {HL : KeyOffsetMapLaws M K}.
Hypothesis window_keys : forall x, x ∈ X -> K (it_key x).

(** A key at an offset stands for a record of the window, not below [lo]. *)
Definition in_window (lo : Z) (k : list Z) (o : Z) : Prop := exists y, y ∈ X /\ it_key y = k /\ it_offset y = o /\ lo <= o.

(** A map whose offsets are those of records of the window, and that is full when it has refused a key. *)
Definition filled (lo cap : Z) (ok : bool) (m : M) : Prop :=
  exists g, models m g /\ (forall k o, g !! k = Some o -> in_window lo k o) /\ map_capacity m = cap /\ (ok = false -> cap <= Z.of_nat (size g)).

(** Every offset of the map is that of a record of the window. *)
Definition sound (m : M) : Prop := exists g, models m g /\ forall k o, g !! k = Some o -> in_window no_offset k o.

Lemma in_window_K lo k o : in_window lo k o -> K k.
Proof. intros (y & Hy & <- & _). by apply window_keys. Qed.

Lemma it_offset_range x : no_offset <= it_offset x <= int64_max.
Proof. unfold no_offset, it_offset. pose proof (swrap_range 64 (it_base x + offset_delta (it_rec x)) ltac:(lia)). ranges. Qed.

Lemma in_window_any lo k o : in_window lo k o -> in_window no_offset k o.
Proof. intros (y & ? & ? & <- & _). exists y. pose proof (it_offset_range y). split_and!; [done|done|done|lia]. Qed.

Lemma filled_is_sound lo cap ok m : filled lo cap ok m -> sound m.
Proof. intros (g & Hg & Hs & _). exists g. split; [done|]. intros k o Ek. by eapply in_window_any, Hs. Qed.

Lemma put_filled lo cap k o m : filled lo cap true m -> in_window lo k o ->
  exists m' b, put k o m = Ok (m', b) /\ filled lo cap b m'.
Proof.
  intros (g & Hg & Hs & <- & _) Hko. assert (Ho : no_offset <= o).
  { destruct (in_window_any _ _ _ Hko) as (y & _ & _ & _ & ?). done. }
  destruct (put_models m g k o Hg (in_window_K _ _ _ Hko) Ho) as (m' & -> & Hm' & Hcap).
  exists m', (has_room k (map_capacity m) g). split; [done|]. eexists. split; [exact Hm'|].
  destruct (has_room k _ g) eqn:Er; (split; [|split; [done|]]); try done.
  - intros k' o'. unfold insert_max. destruct (decide (k = k')) as [<-|].
    + rewrite lookup_insert_eq. intros [= <-]. destruct (g !! k) as [o'|] eqn:Eg; cbn; [|done].
      destruct (Z.max_spec o o') as [[_ ->]|[_ ->]]; [by apply Hs|done].
    + rewrite lookup_insert_ne by done. apply Hs.
  - intros _. unfold has_room in Er. apply orb_false_elim in Er as [_ Er]. by apply Z.ltb_ge in Er.
Qed.

Lemma put_sound k o m : sound m -> in_window no_offset k o -> exists m' b, put k o m = Ok (m', b) /\ sound m'.
Proof.
  intros (g & Hg & Hs) Hko. destruct (put_filled no_offset (map_capacity m) k o m) as (m' & b & Ep & Hm'); [by exists g|done|].
  exists m', b. split; [done|]. by eapply filled_is_sound.
Qed.

Lemma reset_filled lo m : (exists g, models m g) -> filled lo (map_capacity m) true (KeyOffsetMap.reset m).
Proof. intros [g Hg]. exists ∅. destruct (reset_models m g Hg) as [H1 H2]. split_and!; [done| |done|done]. intros k o. by rewrite lookup_empty. Qed.

Lemma reset_sound m : (exists g, models m g) -> sound (KeyOffsetMap.reset m).
Proof. intros Hm. by eapply filled_is_sound, (reset_filled no_offset). Qed.

Definition latest_in (g : gmap (list Z) Z) (x : item) : bool :=
  match g !! it_key x with None => true | Some o => o <=? it_offset x end.

Lemma latest_answered m g h recs : models m g -> (forall r, r ∈ recs -> K (it_key (item_of h r))) ->
  answered (latest_in g) (is_latest_record_for_enhanced_key m) h recs.
Proof.
  intros Hg Hk b r Hs Hsk Hr. unfold is_latest_record_for_enhanced_key, latest_in.
  change (enhance_key (type (header b)) (is_control_header (header b)) (key r)) with (it_key (item_of (header b) r)).
  change (record_offset b r) with (it_offset (item_of (header b) r)). rewrite (item_of_same _ _ r Hs Hsk).
  rewrite (get_models m g) by (done || by apply Hk). cbn [mbind res_bind]. by destruct (g !! _).
Qed.

Lemma items_batch bs rss b recs : (b, recs) ∈ zip bs rss -> forall r, r ∈ recs -> item_of (header b) r ∈ items bs rss.
Proof.
  revert rss. induction bs as [|b0 bs IH]; intros [|recs0 rss] Hin r Hr; cbn [zip zip_with] in Hin; try by apply elem_of_nil in Hin.
  unfold items in *. cbn. apply elem_of_app. apply elem_of_cons in Hin as [[= <- <-]|Hin].
  - left. by apply list_elem_of_fmap_2.
  - right. by eapply IH.
Qed.

Lemma Forall2_zip {A B} (P : A -> B -> Prop) l k : length l = length k -> (forall x y, (x, y) ∈ zip l k -> P x y) -> Forall2 P l k.
Proof.
  revert k. induction l as [|x l IH]; intros [|y k] Hl H; try done. injection Hl as Hl. constructor.
  - apply H. cbn. left.
  - apply IH; [done|]. intros. apply H. cbn. by right.
Qed.

Lemma deduplicate_thins cfg m seg cs f : sound m -> deduplicate_segment E cfg m seg = Ok cs ->
  thins seg (swap_files (cs_batches cs) (restore_index seg cs) f seg).
Proof.
  intros (g & Hg & Hs). unfold deduplicate_segment. destruct (sg_closed seg); [done|]. cbn [throw_if mbind res_bind].
  apply (rewritten_thins cfg _ (latest_in g)).
  - intros rss Hsh HX. apply Forall2_zip; [by eapply Forall2_length, sh_stored|]. intros b recs Hin.
    apply (latest_answered m g); [done|]. intros r Hr. apply window_keys, HX. by eapply items_batch.
  - intros x _ Hn. unfold latest_in. destruct (g !! it_key x) as [o|] eqn:Eg; [|done].
    destruct (Hs _ _ Eg) as (y & Hy & Hk & <- & _). apply Z.leb_le. by apply Hn.
Qed.

Lemma rewrite_thins cfg m fin clean seg seg' : sound m ->
  rewrite_segment_with_offset_map E cfg m fin clean seg = Ok seg' -> thins seg seg'.
Proof.
  intros Hm. unfold rewrite_segment_with_offset_map.
  assert (Hfin : forall s s' c, ('(_, s) ← mark_segment_as_finished_window_compaction (en_now E) s c; Ok s) = Ok s' -> thins s s').
  { intros s s' c. destruct (mark_segment_as_finished_window_compaction (en_now E) s c) as [[d s1]| |] eqn:Ef; [|done|done].
    intros [= <-]. apply (finish_window_thins _ _ _ _ Ef). }
  destruct (_ >? _); [by apply Hfin|]. destruct (negb _); [by apply Hfin|].
  destruct (deduplicate_segment E cfg m seg) as [cs| |] eqn:Ed; [|done|done]. cbn [mbind res_bind].
  destruct (deref _) as [w| |]; [|done|done]. cbn [mbind res_bind]. destruct (spill_key_index.close _ w) as [f| |]; [|done|done].
  cbn [mbind res_bind]. destruct (sg_closed seg); [done|]. cbn [throw_if mbind res_bind].
  pose proof (deduplicate_thins cfg m seg cs (Some f) Hm Ed) as Ht. set (sw := swap_files _ _ _ _) in *.
  destruct (if fin then _ else _) as [s1| |] eqn:E1; [|done|done]. cbn [mbind res_bind].
  destruct (flush _) as [x| |]; [|done|done]. intros [= <-]. eapply thins_trans; [exact Ht|].
  apply (thins_trans sw s1); [|by apply thins_same]. destruct fin; [by apply (Hfin sw s1 clean)|injection E1 as <-; apply thins_refl].
Qed.

Lemma window_rewrite_thins cfg m start seg seg' : sound m -> window_rewrite E cfg m start seg = Ok seg' -> thins seg seg'.
Proof.
  intros Hm. unfold window_rewrite. destruct (sg_closed seg); [intros [= <-]; apply thins_refl|].
  destruct (needs_rewrite _ _ _ _) as [[|]| |]; [|..|done|done]; cbn [mbind res_bind negb]; [by apply rewrite_thins|].
  destruct (mark_segment_as_finished_window_compaction _ _ _) as [[d s1]| |] eqn:Ef; [|done|done].
  intros [= <-]. apply (finish_window_thins _ _ _ _ Ef).
Qed.

Lemma chunk_rewrite_thins cfg m seg seg' : sound m -> chunk_rewrite E cfg m seg = Ok seg' -> thins seg seg'.
Proof.
  intros Hm. unfold chunk_rewrite. destruct (sg_closed seg); [intros [= <-]; apply thins_refl|].
  destruct (needs_rewrite _ _ _ _) as [[|]| |]; [|..|done|done]; cbn [mbind res_bind negb]; [by apply rewrite_thins|].
  intros [= <-]. apply thins_refl.
Qed.

(** *** The map built from the compaction indices *)

Hypothesis window_short : forall x, x ∈ X -> blen (it_key x) <= spill_key_index.max_key_size.

(** A segment of the window whose compaction index, if it can be read, has entries of the window only. *)
Definition index_sound (seg : segment) : Prop := forall f es, sg_compacted_index seg = Some f ->
  verify_integrity (en_crc_extend E) f = Ok tt -> file_entries f = Ok es -> Forall (fun e => in_window no_offset (e_key e) (e_full e)) es.

Definition in_this_window (seg : segment) : Prop := exists rss, segment_holds seg rss /\ items (sg_batches seg) rss ⊆ X.

Lemma thins_in_window seg seg' : thins seg seg' -> in_this_window seg -> in_this_window seg'.
Proof.
  intros [_ H] (rss & Hsh & HX). destruct (H rss Hsh HX) as (rss' & Hsh' & Hs & _). exists rss'. split; [done|].
  intros x Hx. apply HX. eapply elem_of_submseteq; [exact Hx|]. by apply sublist_submseteq.
Qed.

Lemma item_in_window x : x ∈ X -> in_window no_offset (it_key x) (it_offset x).
Proof. exists x. split_and!; [done|done|done|]. apply it_offset_range. Qed.

Lemma rebuild_loop_ok ntp bs rss x w calls xs : Forall2 stored_batch bs rss -> Forall (fun p => is_s 64 p.1) (span <$> bs) -> writes w xs ->
  exists w' ys, rebuild_loop E ntp bs x w calls = Ok w' /\ writes w' ys /\ ys ⊆+ items bs rss ++ xs.
Proof.
  intros Hst. revert x w calls xs. induction Hst as [|b recs bs rss Hb Hst IH]; intros x w calls xs Hr Hw; [by exists w, xs|].
  rewrite fmap_cons in Hr. apply Forall_cons in Hr as [Hbase Hr]. cbn [rebuild_loop].
  destruct (tx_reducer.step _ _ _ _ _) as [[|] x']; cbn [mbind res_bind].
  - destruct (index_batch_ok b recs w calls xs Hb Hbase Hw) as (w1 & calls1 & -> & Hw1). cbn [mbind res_bind].
    destruct (IH x' w1 calls1 _ Hr Hw1) as (w' & ys & Ew & Hw' & Hs). exists w', ys. split; [done|]. split; [done|]. rewrite Hs.
    unfold items. cbn [zip_with concat]. rewrite <- app_assoc, <- Permutation_rev. apply Permutation_submseteq.
    rewrite !app_assoc. f_equiv. apply Permutation_app_comm.
  - destruct (IH x' w calls xs Hr Hw) as (w' & ys & Ew & Hw' & Hs). exists w', ys. split; [done|]. split; [done|].
    unfold items. cbn [zip_with concat]. rewrite <- app_assoc. by apply submseteq_inserts_l.
Qed.

Lemma rebuild_ok seg seg' : in_this_window seg -> rebuild_compaction_index E seg = Ok seg' -> thins seg seg' /\ index_sound seg'.
Proof.
  intros (rss & Hsh & HX). unfold rebuild_compaction_index. destruct (sg_closed seg); [done|]. cbn [throw_if mbind res_bind].
  rewrite (read_holds _ _ Hsh). destruct Hsh as [Hst _ Hr Hn].
  set (x0 := {| tx_reducer._aborted_txs := _ |}).
  destruct (rebuild_loop_ok (sg_ntp seg) _ _ x0 _ 0 [] Hst ltac:(by eapply Forall_impl; [exact Hr|naive_solver])
    (writes_nothing spill_key_index.default_max_mem)) as (w & ys & -> & Hw & Hs). cbn [mbind res_bind]. rewrite app_nil_r in Hs.
  assert (Hys : forall y, y ∈ ys -> y ∈ X) by (intros y Hy; apply HX; by eapply elem_of_submseteq).
  destruct (close_writes w ys Hw) as (f & es & -> & He & _ & _ & Hsub).
  { apply submseteq_length in Hs. unfold blen in *. lia. }
  { apply Forall_forall. intros y Hy. by apply window_short, Hys. }
  intros [= <-]. split; [by apply thins_same|]. intros f' es' [= <-] _ He'. rewrite He in He'. injection He' as <-.
  apply Forall_forall. intros e Hin. apply Hsub, list_elem_of_fmap in Hin as (y & -> & Hy). by apply item_in_window, Hys.
Qed.

Lemma maybe_rebuild_ok seg st seg' : in_this_window seg -> index_sound seg -> maybe_rebuild_compaction_index E seg = Ok (st, seg') ->
  thins seg seg' /\ index_sound seg'.
Proof.
  intros Hw Hi. unfold maybe_rebuild_compaction_index. cbn [rebuild_until_valid]. destruct (sg_closed seg); [done|]. cbn [throw_if mbind res_bind].
  destruct (negb _); [intros [= _ <-]; by split; [apply thins_refl|]|].
  destruct (rebuild_compaction_index E seg) as [s1| |] eqn:Er; [|done|done]. cbn [mbind res_bind].
  destruct (sg_closed s1); [done|]. cbn [throw_if mbind res_bind]. destruct (negb _); [|done]. intros [= _ <-]. by apply rebuild_ok.
Qed.

Lemma put_entries_sound es m : sound m -> Forall (fun e => in_window no_offset (e_key e) (e_full e)) es ->
  exists m' b, put_entries es m = Ok (m', b) /\ sound m'.
Proof.
  intros Hm Hes. revert m Hm. induction Hes as [|e es He _ IH]; intros m Hm; cbn [put_entries]; [by exists m, true|].
  unfold put_entry. destruct (put_sound _ _ m Hm He) as (m1 & b & -> & Hm1). cbn [mbind res_bind].
  destruct b; [by apply IH|by exists m1, false].
Qed.

Lemma build_for_segment_sound seg m r : sound m -> index_sound seg -> build_offset_map_for_segment E seg m = Ok r -> sound r.1.
Proof.
  intros Hm Hi. unfold build_offset_map_for_segment. destruct (sg_compacted_index seg) as [f|] eqn:Ef; [|done]. cbn [mbind res_bind].
  destruct (verify_integrity _ f) as [[]| |] eqn:Ev; [|done|done]. cbn [mbind res_bind].
  destruct (file_entries f) as [es| |] eqn:Ee; [|done|done]. cbn [mbind res_bind].
  destruct (put_entries_sound es m Hm (Hi f es Ef Ev Ee)) as (m' & b & -> & Hm'). by intros [= <-].
Qed.

Lemma build_loop_ok segs newer m min r : sound m -> Forall in_this_window segs -> Forall index_sound segs ->
  build_loop E segs newer m min = Ok r -> Forall2 thins (rev segs ++ newer) r.1.1 /\ sound r.1.2.
Proof.
  revert newer m min. induction segs as [|seg older IH]; intros newer m min Hm Hw Hi; cbn [build_loop]; [by intros [= <-]|].
  apply Forall_cons in Hw as [Hw1 Hw]. apply Forall_cons in Hi as [Hi1 Hi]. cbn [rev]. rewrite <- app_assoc. cbn [app].
  destruct (has_clean_compact_timestamp seg); [by apply IH|].
  destruct (maybe_rebuild_compaction_index E seg) as [[st s1]|e|] eqn:Er; [| |done].
  2:{ destruct e; try done. by intros [= <-]. }
  destruct (maybe_rebuild_ok seg st s1 Hw1 Hi1 Er) as [Ht Hs1].
  destruct (build_offset_map_for_segment E s1 m) as [[m' full]| |] eqn:Eb; [|done|done]. cbn [mbind res_bind].
  pose proof (build_for_segment_sound _ _ _ Hm Hs1 Eb) as Hm'. cbn [fst] in Hm'.
  assert (Hnew : Forall2 thins (rev older ++ seg :: newer) (rev older ++ s1 :: newer)).
  { by f_equiv; constructor. }
  destruct full; cbn [negb]; [|by intros [= <-]]. intros Hb. destruct (IH (s1 :: newer) m' _ Hm' Hw Hi Hb) as [Ht' Hr]. split; [|done].
  by etrans; [exact Hnew|].
Qed.

(** *** The map of a chunk of the newest segment *)

Lemma map_records_filled start cap h recs m : is_control_header h = false -> (forall r, r ∈ recs -> item_of h r ∈ X) -> filled start cap true m ->
  exists m' ok, fold_res (fun '(m, _) r =>
         '(m, success) ← maybe_index_record_in_map start (base_offset h) (type h) r m;
         Ok ((m, success), negb success)) (m, true) recs = Ok (m', ok) /\ filled start cap ok m'.
Proof.
  intros Hc. revert m. induction recs as [|r recs IH]; intros m Hr Hm; [by exists m, true|]. cbn [fold_res].
  unfold maybe_index_record_in_map. change (s64 (base_offset h + offset_delta r)) with (it_offset (item_of h r)).
  replace (enhance_key (type h) false (key r)) with (it_key (item_of h r)) by (unfold it_key; cbn; by rewrite Hc).
  destruct (it_offset (item_of h r) <? start) eqn:El; cbn [mbind res_bind negb].
  - apply IH; [intros; apply Hr; by right|done].
  - apply Z.ltb_ge in El. destruct (put_filled start cap (it_key (item_of h r)) (it_offset (item_of h r)) m Hm) as (m1 & b1 & -> & Hm1).
    { exists (item_of h r). split_and!; [apply Hr; left|done|done|done]. }
    cbn [mbind res_bind]. destruct b1; cbn [negb]; [|by exists m1, false]. apply IH; [intros; apply Hr; by right|done].
Qed.

Lemma map_batch_filled start cap b recs m : stored_batch b recs -> (forall r, r ∈ recs -> item_of (header b) r ∈ X) -> filled start cap true m ->
  exists m' ok, map_building_batch E start b m = Ok (m', ok) /\ filled start cap ok m'.
Proof.
  intros [_ (b0 & Hd & Hb & Hs & Hk)] Hr Hm. unfold map_building_batch. unfold is_compactible.
  destruct (is_control_header (header b)) eqn:Ec; [by exists m, true|]. destruct (is_filterable _); cbn [negb]; [|by exists m, true].
  unfold decoded in Hd. rewrite Hd. cbn [mbind res_bind]. rewrite (for_each_res_encoded _ _ b0 recs) by done.
  apply map_records_filled; [destruct Hk as [_ ->]; done| |done]. intros r Hin. rewrite (item_of_same _ _ r Hs Hk). by apply Hr.
Qed.

Lemma map_loop_filled start cap bs rss m : Forall2 stored_batch bs rss -> items bs rss ⊆ X -> filled start cap true m ->
  exists m' ok, map_building_loop E start bs m = Ok (m', ok) /\ filled start cap ok m'.
Proof.
  intros Hst. revert m. induction Hst as [|b recs bs rss Hb Hst IH]; intros m HX Hm; cbn [map_building_loop]; [by exists m, true|].
  unfold items in HX. cbn in HX.
  destruct (map_batch_filled start cap b recs m Hb) as (m1 & ok & -> & Hm1); [|done|].
  { intros r Hr. apply HX. apply elem_of_app. left. by apply list_elem_of_fmap_2. }
  cbn [mbind res_bind]. destruct ok; [|by exists m1, false]. apply IH; [|done]. intros x Hx. apply HX, elem_of_app. by right.
Qed.

(** What the reader returns from an offset on. *)
Lemma read_stored start max bs rss : Forall2 stored_batch bs rss -> exists rss', Forall2 stored_batch (read_batches start max bs) rss' /\
  items (read_batches start max bs) rss' ⊆ items bs rss.
Proof.
  induction 1 as [|b recs bs rss Hb Hst (rss' & IH1 & IH2)]; [by exists []|]. cbn [read_batches].
  destruct (max <? _); [exists []; split; [constructor|intros x Hx; by apply elem_of_nil in Hx]|].
  unfold items in *. cbn [zip_with concat]. destruct (_ <? start).
  - exists rss'. split; [done|]. set_solver.
  - exists (recs :: rss'). split; [by constructor|]. cbn [zip_with concat]. set_solver.
Qed.

Lemma index_chunk_filled seg o m r : in_this_window seg -> (exists g, models m g) ->
  index_chunk_of_segment_for_map E seg o m = Ok r ->
  filled (next_indexed o) (map_capacity m) r.1.2 r.1.1 /\ r.2 = max_offset r.1.1.
Proof.
  intros (rss & Hsh & HX) Hm. unfold index_chunk_of_segment_for_map. destruct (sg_closed seg); [done|]. cbn [throw_if mbind res_bind].
  unfold segment_full_reader. destruct (read_stored (default (sg_base_offset seg) (Some (next_indexed o))) (sg_dirty_offset seg) _ _ (sh_stored _ _ Hsh))
    as (rss' & Hst & Hsub).
  destruct (map_loop_filled (next_indexed o) (map_capacity m) _ rss' (KeyOffsetMap.reset m) Hst) as (m' & ok & -> & Hm'); [by etrans|by apply reset_filled|].
  by intros [= <-].
Qed.

Lemma all_in_window segs segs' : Forall2 thins segs segs' -> Forall in_this_window segs -> Forall in_this_window segs'.
Proof.
  induction 1 as [|s s' segs segs' H _ IH]; [done|]. intros [H1 H2]%Forall_cons. constructor; [by eapply thins_in_window|by apply IH].
Qed.

Lemma last_in_window segs seg : Forall in_this_window segs -> last segs = Some seg -> in_this_window seg.
Proof. intros Hw El. rewrite Forall_forall in Hw. by apply Hw, last_Some_elem_of. Qed.

Lemma chunk_rewrites_thin cfg m segs segs' r : sound m -> each (chunk_rewrite E cfg m) segs = (segs', r) -> Forall2 thins segs segs'.
Proof. intros Hm. apply each_thins. intros s s'. by apply chunk_rewrite_thins. Qed.

Lemma chunk_loop_ok fuel cfg o segs m : Forall in_this_window segs -> (exists g, models m g) ->
  Forall2 thins segs (chunk_loop E fuel cfg o segs m).1.1.
Proof.
  revert o segs m. induction fuel as [|fuel IH]; intros o segs m Hw Hm; [done|]. cbn [chunk_loop].
  destruct (last segs) as [seg|] eqn:El; [|done].
  destruct (index_chunk_of_segment_for_map E seg o m) as [[[m' full] o']| |] eqn:Ei; [|done|done].
  destruct (index_chunk_filled _ _ _ _ (last_in_window _ _ Hw El) Hm Ei) as [Hf _]. cbn [fst snd] in Hf.
  destruct (each _ segs) as [segs' r] eqn:Ee.
  pose proof (chunk_rewrites_thin _ _ _ _ _ (filled_is_sound _ _ _ _ Hf) Ee) as Ht.
  destruct r; [|done|done]. destruct full; [done|]. etrans; [exact Ht|]. apply IH; [by eapply all_in_window|].
  destruct Hf as (g & Hg & _). by exists g.
Qed.

(** One round of the loop: it ends, or goes on with another chunk. *)
Definition chunk_once (cfg : compaction_config) (last_indexed_offset : Z) (segs : list segment) (m : M)
    : (list segment * M * res unit) + (Z * list segment * M) :=
  match last segs with
  | None => inl (segs, m, Crash)
  | Some seg =>
      match index_chunk_of_segment_for_map E seg last_indexed_offset m with
      | Throw e => inl (segs, m, Throw e)
      | Crash => inl (segs, m, Crash)
      | Ok (m, segment_fully_indexed, last_indexed_offset) =>
          let '(segs, r) := each (chunk_rewrite E cfg m) segs in
          match r with
          | Ok _ => if segment_fully_indexed : bool then inl (segs, m, Ok tt) else inr (last_indexed_offset, segs, m)
          | Throw e => inl (segs, m, Throw e)
          | Crash => inl (segs, m, Crash)
          end
      end
  end.

(** The loop ends with [r] after [n] rounds. *)
Inductive chunk_rounds (cfg : compaction_config) : Z -> list segment -> M -> nat -> list segment * M * res unit -> Prop :=
  | rounds_end o segs m r : chunk_once cfg o segs m = inl r -> chunk_rounds cfg o segs m 1 r
  | rounds_more o segs m o' segs' m' n r : chunk_once cfg o segs m = inr (o', segs', m') ->
      chunk_rounds cfg o' segs' m' n r -> chunk_rounds cfg o segs m (S n) r.

Lemma chunk_loop_step fuel cfg o segs m : chunk_loop E (S fuel) cfg o segs m =
  match chunk_once cfg o segs m with inl r => r | inr (o', segs', m') => chunk_loop E fuel cfg o' segs' m' end.
Proof.
  cbn [chunk_loop]. unfold chunk_once. destruct (last segs) as [seg|]; [|done].
  destruct (index_chunk_of_segment_for_map E seg o m) as [[[m' full] o']| |]; [|done|done].
  destruct (each _ segs) as [segs' [| |]]; [|done|done]. by destruct full.
Qed.

Lemma rounds_loop cfg o segs m n r fuel : chunk_rounds cfg o segs m n r -> (n <= fuel)%nat -> chunk_loop E fuel cfg o segs m = r.
Proof.
  intros H. revert fuel. induction H as [o segs m r Ho|o segs m o' segs' m' n r Ho _ IH]; intros [|fuel] Hf; try lia; rewrite chunk_loop_step, Ho; [done|].
  apply IH. lia.
Qed.

(** The records of the window above an offset. *)
Definition above (o : Z) : nat := length (base.filter (fun x => o < it_offset x) X).

Lemma above_lt o o' y : o < o' -> y ∈ X -> it_offset y = o' -> (above o' < above o)%nat.
Proof.
  intros Ho Hy Ey. unfold above.
  rewrite <- (list_filter_filter_l (fun x => o' < it_offset x) (fun x => o < it_offset x) X) by (intros; lia).
  apply (length_filter_lt _ _ y); [apply list_elem_of_filter; split; [lia|done]|lia].
Qed.

Lemma next_indexed_above o : no_offset <= o < int64_max -> o < next_indexed o.
Proof.
  intros Ho. unfold no_offset in Ho. unfold next_indexed. destruct (o <? 0) eqn:E1; [apply Z.ltb_lt in E1; lia|]. apply Z.ltb_ge in E1.
  rewrite (proj2 (Z.eqb_neq o int64_max)) by lia. rewrite swrap_id by ranges. lia.
Qed.

(** A chunk that leaves a part of the segment ends above the last one, at a record of the window. *)
Lemma chunk_progress o m : 1 <= map_capacity m -> no_offset <= o < int64_max -> filled (next_indexed o) (map_capacity m) false m ->
  o < max_offset m /\ (above (max_offset m) < above o)%nat /\ exists y, y ∈ X /\ it_offset y = max_offset m.
Proof.
  intros Hcap Ho (g & Hg & Hs & _ & Hfull). specialize (Hfull eq_refl). pose proof (next_indexed_above o Ho) as Hnext.
  destruct (max_models m g Hg) as (_ & Hmax & Hin).
  destruct (map_choose g) as (k & v & Ek). { intros ->. rewrite map_size_empty in Hfull. lia. }
  destruct (Hs _ _ Ek) as (_ & _ & _ & _ & Hv). specialize (Hmax _ _ Ek). assert (Hlt : o < max_offset m) by lia.
  destruct Hin as [E0|[k' Ek']]; [lia|]. destruct (Hs _ _ Ek') as (y & Hy & _ & Ey & _).
  split; [done|]. split; [by eapply above_lt|by exists y].
Qed.

Lemma chunk_rounds_end cfg : (forall x, x ∈ X -> it_offset x < int64_max) ->
  forall n o segs m, (above o <= n)%nat -> Forall in_this_window segs -> (exists g, models m g) -> 1 <= map_capacity m ->
    no_offset <= o < int64_max ->
  exists k r, chunk_rounds cfg o segs m k r /\ (k <= S n)%nat.
Proof.
  intros Hoff. induction n as [n IH] using lt_wf_ind. intros o segs m Hn Hw Hm Hcap Ho.
  destruct (chunk_once cfg o segs m) as [r|[[o' segs'] m']] eqn:Eo; [exists 1%nat, r; split; [by constructor|lia]|].
  unfold chunk_once in Eo. destruct (last segs) as [seg|] eqn:El; [|done].
  destruct (index_chunk_of_segment_for_map E seg o m) as [[[m1 full] o1]| |] eqn:Ei; [|done|done].
  destruct (index_chunk_filled _ _ _ _ (last_in_window _ _ Hw El) Hm Ei) as [Hf Ho1]. cbn [fst snd] in Hf, Ho1.
  destruct (each _ segs) as [segs1 [r1| |]] eqn:Ee; [|done|done].
  pose proof (chunk_rewrites_thin _ _ _ _ _ (filled_is_sound _ _ _ _ Hf) Ee) as Ht. destruct full; [done|].
  injection Eo as <- <- <-. assert (Hcap1 : map_capacity m1 = map_capacity m) by (by destruct Hf as (g & _ & _ & ? & _)).
  rewrite <- Hcap1 in Hf, Hcap. destruct (chunk_progress o m1 Hcap Ho Hf) as (Hlt & Hab & y & Hy & Ey). rewrite <- Ho1 in Hlt, Hab, Ey.
  destruct (IH (above o1) ltac:(lia) o1 segs1 m1) as (k & r & Hr & Hk); [done|by eapply all_in_window| |done| |].
  - destruct Hf as (g & Hg & _). by exists g.
  - pose proof (Hoff y Hy). lia.
  - exists (S k), r. split; [|lia]. eapply rounds_more; [|exact Hr]. unfold chunk_once. by rewrite El, Ei, Ee.
Qed.

Lemma finish_chunked_ok segs : Forall2 thins segs (finish_chunked E segs).1.
Proof.
  unfold finish_chunked. destruct (each _ segs) as [segs' r] eqn:Ee.
  assert (Ht : Forall2 thins segs segs').
  { eapply each_thins; [|exact Ee]. intros s s'. cbv beta. destruct (mark_segment_as_finished_window_compaction _ _ _) as [[d s1]| |] eqn:Ef; [|done|done].
    intros [= <-]. apply (finish_window_thins _ _ _ _ Ef). }
  destruct r; [|done|done]. destruct (rev segs') as [|seg older] eqn:Er; [done|].
  destruct (mark_segment_as_finished_window_compaction _ _ _) as [[d s1]| |] eqn:Ef; [|done|done]. cbn [fst]. etrans; [exact Ht|].
  rewrite <- (rev_involutive segs'), Er. cbn [rev]. f_equiv. constructor; [|done]. apply (finish_window_thins _ _ _ _ Ef).
Qed.

Lemma chunked_ok fuel cfg segs window m : Forall in_this_window segs -> (exists g, models m g) ->
  Forall2 thins segs (chunked_sliding_window_compact E fuel cfg segs window m).1.1.
Proof.
  intros Hw Hm. unfold chunked_sliding_window_compact. destruct (last segs) as [seg|]; [|done]. destruct (sg_closed seg); [done|].
  pose proof (chunk_loop_ok fuel cfg no_offset segs m Hw Hm) as Hc. destruct (chunk_loop _ _ _ _ _ _) as [[segs1 m1] r]. cbn [fst] in Hc.
  destruct r; [|done|done]. pose proof (finish_chunked_ok segs1) as Hf. destruct (finish_chunked E segs1) as [segs2 r2]. cbn [fst] in Hf.
  destruct r2; cbn [fst]; by etrans.
Qed.

Lemma window_pass_ok fuel cfg segs window m : Forall in_this_window segs -> Forall index_sound segs -> (exists g, models m g) ->
  Forall2 thins segs (window_pass E fuel cfg segs window m).1.1.
Proof.
  intros Hw Hi Hm. unfold window_pass. unfold build_offset_map. destruct (throw_if _ _); [|done|done]. cbn [mbind res_bind].
  pose proof (build_loop_ok (rev segs) [] (KeyOffsetMap.reset m) None) as Hb.
  destruct (build_loop E (rev segs) [] (KeyOffsetMap.reset m) None) as [[[segs1 m1] min]| |]; [|done|done]. cbn [mbind res_bind].
  destruct (Hb _ (reset_sound m Hm) ltac:(by apply Forall_rev) ltac:(by apply Forall_rev) eq_refl) as [Ht Hm1].
  rewrite rev_involutive, app_nil_r in Ht. cbn [fst snd] in Ht, Hm1.
  pose proof (all_in_window _ _ Ht Hw) as Hw1.
  destruct min as [start|].
  - destruct (each _ segs1) as [segs2 r] eqn:Ee.
    assert (Ht2 : Forall2 thins segs1 segs2) by (eapply each_thins; [|exact Ee]; intros; by eapply window_rewrite_thins).
    destruct r; cbn [fst]; by etrans.
  - pose proof (chunked_ok fuel cfg segs1 window m1 Hw1) as Hc. destruct (chunked_sliding_window_compact _ _ _ _ _ _) as [[segs2 w2] r].
    destruct Hm1 as (g & Hg & _). destruct r; cbn [fst] in *; etrans; eauto.
Qed.
End with_map.
End window.

(** ** A pass over a window *)

Section properties.
Context {M : Type} `{HM : key_offset_map M} {K : list Z -> Prop} {HL : KeyOffsetMapLaws M K}.

(** Keys the map tells apart, and that a compaction index holds in full. *)
Definition good_keys (X : list item) : Prop :=
  forall x, x ∈ X -> K (it_key x) /\ blen (it_key x) <= spill_key_index.max_key_size.

(** The records of a window of segments. *)
Definition window_items (segs : list segment) (rsss : list (list (list record))) : list item :=
  concat (zip_with (fun seg rss => items (sg_batches seg) rss) segs rsss).

Lemma thins_items X ntp segs segs' : Forall2 (thins X) segs segs' -> Forall (fun s => sg_ntp s = ntp) segs ->
  forall rsss, Forall2 segment_holds segs rsss -> window_items segs rsss ⊆ X ->
  exists rsss', Forall2 segment_holds segs' rsss' /\ window_items segs' rsss' `sublist_of` window_items segs rsss /\
    forall x, x ∈ window_items segs rsss -> live ntp x = true -> newest X x -> x ∈ window_items segs' rsss'.
Proof.
  induction 1 as [|s s' segs segs' [_ Ht] _ IH]; intros Hn rsss Hh HX.
  { apply Forall2_nil_inv_l in Hh as ->. by exists []. }
  apply Forall2_cons_inv_l in Hh as (rss & rsss0 & Hs & Hh & ->). apply Forall_cons in Hn as [Hn1 Hn].
  unfold window_items in *. cbn [zip_with concat] in *.
  destruct (Ht rss Hs) as (rss' & Hs' & Hsub & Hk); [set_solver|].
  destruct (IH Hn rsss0 Hh) as (rsss' & Hh' & Hsub' & Hk'); [set_solver|].
  exists (rss' :: rsss'). cbn [zip_with concat]. split; [by constructor|]. split; [by apply sublist_app|].
  intros x [Hx|Hx]%elem_of_app Hl Hw; apply elem_of_app; [left; apply Hk; by rewrite ?Hn1|right; by apply Hk'].
Qed.

Lemma holds_in_window X rsss segs : Forall2 segment_holds segs rsss -> window_items segs rsss ⊆ X -> Forall (in_this_window X) segs.
Proof.
  induction 1 as [|s rss segs rsss Hs Hh IH]; intros HX; [constructor|]. unfold window_items in *. cbn [zip_with concat] in HX.
  constructor; [exists rss; split; [done|]; set_solver|apply IH; set_solver].
Qed.

(** C4: compacting a window of segments loses no latest value: whatever a pass does, whether the map holds the whole
    window, a part of it or only chunks of one segment, and whether it ends or fails half-way, the segments it
    leaves decode to a part of the records that were there, in their order, and hold the latest record of every
    key, unless that is a tombstone or belongs to a batch type that may be removed. *)
Theorem window_pass_keeps_latest fuel cfg ntp segs rsss window m :
  let X := window_items segs rsss in
  Forall2 segment_holds segs rsss -> Forall (fun s => sg_ntp s = ntp) segs -> Forall (index_sound X) segs ->
  good_keys X -> (exists g, models m g) ->
  exists rsss', Forall2 segment_holds (window_pass E fuel cfg segs window m).1.1 rsss' /\
    window_items (window_pass E fuel cfg segs window m).1.1 rsss' `sublist_of` X /\
    forall x, x ∈ X -> live ntp x = true -> newest X x -> x ∈ window_items (window_pass E fuel cfg segs window m).1.1 rsss'.
Proof.
  intros X Hh Hn Hi Hg Hm. apply (thins_items X ntp segs); try done.
  apply (window_pass_ok X); try done; [intros x Hx; by apply Hg..|].
  by apply (holds_in_window _ rsss).
Qed.

(** C34: compaction in chunks ends: with a map that has room for one key at least, every round that does not finish
    the newest segment indexes a record of it that no earlier round has reached, so that the loop ends, for
    whatever reason, within one more round than the window has records; the result does not depend on the fuel
    from there on. *)
Theorem chunked_compaction_ends cfg segs rsss m :
  let X := window_items segs rsss in
  Forall2 segment_holds segs rsss -> good_keys X -> (exists g, models m g) -> 1 <= map_capacity m ->
  (forall x, x ∈ X -> it_offset x < int64_max) ->
  exists n r, chunk_rounds cfg no_offset segs m n r /\ (n <= S (length X))%nat /\
    forall fuel, (n <= fuel)%nat -> chunk_loop E fuel cfg no_offset segs m = r.
Proof.
  intros X Hh Hg Hm Hcap Hoff. destruct (chunk_rounds_end X (fun x Hx => proj1 (Hg x Hx)) (fun x Hx => proj2 (Hg x Hx)) cfg Hoff (above X no_offset) no_offset segs m) as (n & r & Hr & Hn);
    [done|by apply (holds_in_window _ rsss)|done|done|done|].
  exists n, r. split; [done|]. split; [|intros fuel Hf; by eapply rounds_loop].
  pose proof (length_filter (fun x => no_offset < it_offset x) X). unfold above in Hn. lia.
Qed.
End properties.

(** ** Copies that come to their end *)

Section totality.
(** A codec that never fails. *)
Hypothesis compress_total : forall t p, exists q, en_compress E t p = Ok q.

Lemma compress_total_batch c t b recs : plain_ok b recs -> to_compression_type c = Ok t ->
  exists b', compress_batch (en_crc_extend E) (en_compress E) c b = Ok b'.
Proof.
  intros Hb Ht. unfold compress_batch. rewrite (po_plain _ _ Hb). cbn [throw_if mbind res_bind].
  assert (c <> none) by (by intros ->). rewrite bool_decide_eq_false_2 by done. cbn [throw_if mbind res_bind].
  rewrite Ht. cbn [mbind res_bind]. destruct (compress_total t (records b)) as [q ->]. cbn [mbind res_bind].
  eexists. apply (make_batch_reset _ _ _ c). cbn [attrs with_attrs with_timestamp]. eapply get_or_compression; [|done].
  apply (po_attrs _ _ Hb).
Qed.

Lemma stored_compression b recs : stored_batch b recs -> exists c, record_batch_attributes.get_compression (attrs (header b)) = Ok c /\
  (c = none \/ exists t, to_compression_type c = Ok t).
Proof.
  intros [_ (b0 & Hd & Hb & _)]. unfold decoded in Hd. destruct (compressed b) eqn:Ec.
  - unfold decompress_batch in Hd. rewrite Ec in Hd. cbn [negb throw_if mbind res_bind] in Hd.
    destruct (record_batch_attributes.get_compression _) as [c| |]; [|done|done]. cbn [mbind res_bind] in Hd.
    destruct (to_compression_type c) as [t| |] eqn:Et; [|done|done]. exists c. split; [done|]. right. by exists t.
  - injection Hd as ->. exists none. split; [|by left]. apply attrs_none, (po_attrs _ _ Hb).
Qed.

(** The records of a copy that are entered into the new compaction index. *)
Definition compactible_items (xs : list item) : list item :=
  base.filter (fun x => negb (it_control x) && is_filterable (it_type x) = true) xs.

Lemma compactible_batch h recs : compactible_items (item_of h <$> recs) = if is_compactible h then item_of h <$> recs else [].
Proof.
  unfold is_compactible. assert (Hc : forall r, negb (it_control (item_of h r)) && is_filterable (it_type (item_of h r))
    = negb (is_control_header h) && is_filterable (type h)) by done.
  induction recs as [|r recs IH]; [by repeat case_match|]. unfold compactible_items in *. rewrite fmap_cons, filter_cons, IH.
  destruct (is_control_header h) eqn:E1, (is_filterable (type h)) eqn:E2; case_decide as Hd; rewrite Hc, ?E1, ?E2 in Hd; done.
Qed.

(** The state of a copy that can go on. *)
Definition ready (with_index : bool) (base : Z) (xs : list item) (s : copy_state) : Prop :=
  columns_ok (cs_idx s) /\ ix_base_offset (cs_idx s) = base /\
  if with_index then exists w, cs_compacted_idx s = Some w /\ writes w xs else cs_compacted_idx s = None.

Lemma index_new_records wi batch recs s xs base : plain_ok batch recs -> is_s 64 (base_offset (header batch)) -> ready wi base xs s ->
  exists o calls, match cs_compacted_idx s with
                | Some w =>
                    if is_compactible (header batch)
                    then '(w, calls) ← index_batch_records (en_crc_extend E) (en_uninit E) (en_idx_mem_usage E) (en_place E) (en_resources E) batch w (cs_calls s);
                         Ok (Some w, calls)
                    else Ok (Some w, cs_calls s)
                | None => Ok (None, cs_calls s)
                end = Ok (o, calls) /\
    if wi then exists w, o = Some w /\ writes w (rev (compactible_items (item_of (header batch) <$> recs)) ++ xs) else o = None.
Proof.
  intros Hb H64 (_ & _ & Hw). destruct wi; [|rewrite Hw; by exists None, (cs_calls s)]. destruct Hw as (w & -> & Hws).
  rewrite compactible_batch. destruct (is_compactible _); [|by exists (Some w), (cs_calls s); split; [|exists w]].
  unfold index_batch_records. rewrite (for_each_res_encoded _ _ batch recs) by done.
  destruct (index_records_ok (header batch) recs w (cs_calls s) xs (po_wf _ _ Hb) H64 Hws) as (w' & calls & -> & Hw').
  exists (Some w'), calls. split; [done|]. by exists w'.
Qed.

Lemma append_batch_total wi c internal batch recs s base xs : plain_ok batch recs ->
  (c = none \/ exists t, to_compression_type c = Ok t) -> is_s 64 (base_offset (header batch)) -> base <= base_offset (header batch) ->
  ready wi base xs s ->
  exists s', append_batch (en_crc_extend E) (en_uninit E) (en_compress E) (en_idx_mem_usage E) (en_place E) (en_resources E) internal c batch s = Ok s' /\
    ready wi base (rev (compactible_items (item_of (header batch) <$> recs)) ++ xs) s'.
Proof.
  intros Hb Hc H64 Hbase Hr. unfold append_batch.
  destruct (index_new_records wi batch recs s xs base Hb H64 Hr) as (o & calls & -> & Ho). cbn [mbind res_bind].
  destruct Hr as (Hcol & Hix & _).
  assert (Hcb : exists b', (if decide (c <> none) then compress_batch (en_crc_extend E) (en_compress E) c batch else Ok batch) = Ok b' /\
    base_offset (header b') = base_offset (header batch)).
  { destruct (decide (c <> none)) as [Hn|]; [|by exists batch]. destruct Hc as [->|[t Ht]]; [done|].
    destruct (compress_total_batch c t batch recs Hb Ht) as [b' Hb']. exists b'. split; [done|].
    destruct (compress_same _ _ _ _ _ _ Hb Hb') as [[Hs _] _]. done. }
  destruct Hcb as (b' & -> & Hbo). cbn [mbind res_bind].
  edestruct (maybe_index_appended (u64 (cs_acc s + b_size_bytes (header b'))) (4096 * 8) (cs_file_byte_offset s) (base_offset (header b'))
    (last_offset (header b'))) as (ix & idx & -> & Ha); [exact Hcol|by rewrite Hix, Hbo|]. cbn [mbind res_bind].
  eexists. split; [done|]. destruct Ha as (Hb1 & _ & _ & Hc1 & _). split; [done|]. split; [cbn; congruence|]. exact Ho.
Qed.

Section copying.
Variables (kc : keep_config) (latest : item -> bool) (is_latest : record_batch -> record -> res bool).
Variables (in_idempotent_window : record_batch_header -> bool) (placeholders unset internal : bool).
Abbreviation copy_of bs := (copy_all (en_crc_extend E) (en_uninit E) (en_uncompress E) (en_compress E) (en_idx_mem_usage E) (en_place E)
  (en_resources E) (filter (en_crc_extend E) (en_uninit E) in_idempotent_window (should_keep is_latest kc) (kc_segment_last_offset kc) placeholders unset)
  internal bs).

Lemma same_items h h' ks : same_batch h h' -> same_kind h h' \/ ks = [] -> item_of h' <$> ks = item_of h <$> ks.
Proof. intros Hs [Hk| ->]; [|done]. apply list_fmap_ext. intros i r _. by apply item_of_same. Qed.

Lemma copy_reduce_total wi b recs s base xs : stored_batch b recs -> answered latest is_latest (header b) recs ->
  is_s 64 (base_offset (header b)) -> base <= base_offset (header b) -> ready wi base xs s ->
  exists s', copy_reduce (en_crc_extend E) (en_uninit E) (en_uncompress E) (en_compress E) (en_idx_mem_usage E) (en_place E)
  (en_resources E) (filter (en_crc_extend E) (en_uninit E) in_idempotent_window (should_keep is_latest kc) (kc_segment_last_offset kc) placeholders unset)
  internal b s = Ok s' /\ ready wi base (rev (compactible_items (item_of (header b) <$> remaining kc latest b recs)) ++ xs) s'.
Proof.
  intros Hst Hans H64 Hbase Hr. destruct (stored_compression b recs Hst) as (c & Hc & Hct).
  pose proof Hst as [_ (b0 & Hd & Hb & Hs & Hk)]. unfold copy_reduce, decoded in *. rewrite Hc. cbn [mbind res_bind].
  destruct (filter_any (en_crc_extend E) (en_uninit E) (en_uncompress E) in_idempotent_window kc latest is_latest placeholders unset
    b b0 recs (cs_flags s) Hst Hb Hs Hk Hans) as (o & f' & Ef & Ho).
  assert (Hgo : exists s', filter_and_append (en_crc_extend E) (en_uninit E) (en_compress E) (en_idx_mem_usage E) (en_place E)
    (en_resources E) (filter (en_crc_extend E) (en_uninit E) in_idempotent_window (should_keep is_latest kc) (kc_segment_last_offset kc) placeholders unset)
    internal c b0 s = Ok s' /\ ready wi base (rev (compactible_items (item_of (header b) <$> remaining kc latest b recs)) ++ xs) s').
  { unfold filter_and_append. rewrite Ef. cbn [mbind res_bind]. destruct o as [b1|].
    - destruct Ho as (Hb1 & Hs1 & _ & Hk1). rewrite <- (same_items _ _ _ Hs1 Hk1). pose proof Hs1 as [Eb _].
      eapply append_batch_total; [done|done|by rewrite Eb|by rewrite Eb|exact Hr].
    - rewrite Ho. by eexists. }
  destruct Hgo as (s' & Hgo & Hr'). exists s'. split; [|done].
  destruct (compressed b); cbn [negb]; [by rewrite Hd|by injection Hd as ->].
Qed.

Lemma copy_all_total wi bs rss s base xs : Forall2 stored_batch bs rss -> Forall2 (fun b recs => answered latest is_latest (header b) recs) bs rss ->
  Forall (fun p => base <= p.1 /\ is_s 64 p.1) (span <$> bs) -> ready wi base xs s ->
  exists s', copy_of bs s = Ok s' /\ ready wi base (rev (compactible_items (items bs (zip_with (remaining kc latest) bs rss))) ++ xs) s'.
Proof.
  intros Hst. revert s xs. induction Hst as [|b recs bs rss Hb Hst IH]; intros s xs Hans Hr Hs; [by exists s|].
  apply Forall2_cons in Hans as [Ha Hans]. rewrite fmap_cons in Hr. apply Forall_cons in Hr as [[H1 H2] Hr]. cbn [copy_all].
  destruct (copy_reduce_total wi b recs s base xs Hb Ha H2 H1 Hs) as (s1 & -> & Hs1). cbn [mbind res_bind].
  destruct (IH s1 _ Hans Hr Hs1) as (s2 & -> & Hs2). exists s2. split; [done|]. unfold items in *. cbn [zip_with concat].
  unfold compactible_items in *. rewrite filter_app, rev_app_distr, <- app_assoc. exact Hs2.
Qed.
End copying.

(** ** Self compaction of a segment *)

Lemma generate_ok es l : Forall (fun e => compacted_offset_list._base l <= e_full e) es ->
  exists l', compacted_offset_list.generate es l = Ok l' /\ compacted_offset_list._to_keep l ⊆ compacted_offset_list._to_keep l' /\
    compacted_offset_list._base l' = compacted_offset_list._base l /\
    forall e, e ∈ es -> compacted_offset_list.contains (e_full e) l' = true.
Proof.
  revert l. induction es as [|e es IH]; intros l Hb; cbn [compacted_offset_list.generate].
  { exists l. split_and!; try done. intros e He. by apply elem_of_nil in He. }
  apply Forall_cons in Hb as [He Hb]. unfold compacted_offset_list.add. rewrite (proj2 (Z.leb_le _ _) He). cbn [vassert mbind res_bind].
  destruct (IH {| compacted_offset_list._base := compacted_offset_list._base l;
                  compacted_offset_list._to_keep := {[u32 (s64 (e_full e - compacted_offset_list._base l))]} ∪ compacted_offset_list._to_keep l |} Hb)
    as (l' & Hl' & Hs & Hbase & Hc). cbn [compacted_offset_list._base compacted_offset_list._to_keep] in *.
  exists l'. split; [exact Hl'|]. split; [set_solver|]. split; [done|]. intros e' [->|He']%elem_of_cons; [|by apply Hc].
  unfold compacted_offset_list.contains. rewrite Hbase. apply bool_decide_eq_true. set_solver.
Qed.

Lemma finish_self_ok now seg : columns_ok (_state (sg_index seg)) -> exists d seg', mark_segment_as_finished_self_compaction now seg = Ok (d, seg') /\
  sg_ntp seg' = sg_ntp seg /\ sg_batches seg' = sg_batches seg /\ sg_base_offset seg' = sg_base_offset seg /\
  sg_dirty_offset seg' = sg_dirty_offset seg /\ sg_compacted_index seg' = sg_compacted_index seg /\ columns_ok (_state (sg_index seg')).
Proof.
  intros Hc. unfold mark_segment_as_finished_self_compaction, maybe_set_self_compact_timestamp.
  destruct (self_compact_timestamp _); [by exists false, seg|]. unfold flush. cbn [_needs_persistence negb _state].
  rewrite index_size_ok by done. cbn [mbind res_bind]. by do 2 eexists.
Qed.

Lemma flush_ok x : columns_ok (_state x) -> exists x', flush x = Ok x'.
Proof. intros Hc. unfold flush. destruct (negb _); [by eexists|]. rewrite index_size_ok by done. by eexists. Qed.

(** The segment with its new files, marked and persisted. *)
Lemma self_finished cs f seg : columns_ok (cs_idx cs) -> exists seg',
  (let seg := swap_files (cs_batches cs) (restore_index seg cs) (Some f) seg in
   and_then seg (mark_segment_as_finished_self_compaction (en_now E) seg) (fun '(_, seg) =>
   and_then seg (flush (sg_index seg)) (fun x =>
   (set_segment_index x (sg_finished_windowed_compaction seg) seg, Ok tt)))) = (seg', Ok tt) /\
  sg_batches seg' = cs_batches cs /\ sg_compacted_index seg' = Some f /\
  forall rss, segment_holds (swap_files (cs_batches cs) (restore_index seg cs) (Some f) seg) rss -> segment_holds seg' rss.
Proof.
  intros Hc. cbv zeta. set (sw := swap_files _ _ _ _). destruct (finish_self_ok (en_now E) sw) as (d & s1 & -> & _ & H1 & H2 & H3 & H4 & H5); [done|].
  cbn [and_then]. destruct (flush_ok _ H5) as [x ->]. cbn [and_then]. eexists. split; [done|]. split; [exact H1|]. split; [exact H4|].
  intros rss [S1 S2 S3 S4]. split; cbn [set_segment_index sg_batches sg_base_offset sg_dirty_offset]; by rewrite H1, ?H2, ?H3.
Qed.

Definition offsets_answer (l : compacted_offset_list.t) (x : item) : bool := compacted_offset_list.contains (it_offset x) l.

Lemma offsets_answered l bs rss : length bs = length rss ->
  Forall2 (fun b recs => answered (offsets_answer l) (fun b r => Ok (compacted_offset_list.contains (record_offset b r) l)) (header b) recs) bs rss.
Proof.
  intros Hl. apply Forall2_zip; [done|]. intros b recs _ b' r Hs Hk _. unfold offsets_answer. rewrite <- (item_of_same _ _ r Hs Hk). done.
Qed.

Lemma self_copy_ok cfg seg rss l : segment_holds seg rss -> Forall (fun p => ix_base_offset (seg_state seg) <= p.1) (span <$> sg_batches seg) ->
  exists cs outs, copy_segment E cfg (fun b r => Ok (compacted_offset_list.contains (record_offset b r) l)) None seg = Ok cs /\
    columns_ok (cs_idx cs) /\
    (forall f, segment_holds (swap_files (cs_batches cs) (restore_index seg cs) (Some f) seg) outs) /\
    items (cs_batches cs) outs = items (sg_batches seg) (zip_with (remaining (keep_of cfg seg) (offsets_answer l)) (sg_batches seg) rss).
Proof.
  intros Hsh Hbase. pose proof Hsh as [Hst _ Hr _]. pose proof (Forall2_length _ _ _ Hst) as Hlen.
  pose proof (offsets_answered l _ _ Hlen) as Hans.
  assert (Hspan : Forall (fun p => ix_base_offset (seg_state seg) <= p.1 /\ is_s 64 p.1) (span <$> sg_batches seg)).
  { rewrite Forall_forall in *. intros p Hp. split; [by apply Hbase|by apply Hr]. }
  destruct (copy_all_total (keep_of cfg seg) (offsets_answer l) _ (is_batch_in_idempotent_window (en_hooks E)) (en_placeholder_enabled E)
    (en_tx_batch_compaction_enabled E) (sg_internal_topic seg) false (sg_batches seg) rss
    (new_copy (make_empty_index (ix_base_offset (seg_state seg)) (en_apply_delta_time_offset E)) None) (ix_base_offset (seg_state seg)) []
    Hst Hans Hspan) as (cs & Hcs & Hcol & _); [done|].
  rewrite <- (read_holds _ _ Hsh) in Hcs. destruct (rewritten_holds cfg _ (offsets_answer l) None seg cs None rss Hsh Hans Hcs) as (outs & Hsh' & Hit).
  exists cs, outs. split; [exact Hcs|]. split; [done|]. split; [|done]. intros f. by destruct Hsh' as [S1 S2 S3 S4].
Qed.

(** Records of batches whose offsets do not overlap. *)
Definition batches_apart (xs : list item) : Prop :=
  forall a b, a ∈ xs -> b ∈ xs -> it_base a < it_base b -> it_offset a < it_offset b.

(** The batch of a record that is as late is as late. *)
Lemma apart_offsets ys e1 e2 : batches_apart ys -> e1 ∈ entry_item <$> ys -> e2 ∈ entry_item <$> ys ->
  e_full e1 <= e_full e2 -> e_offset e1 <= e_offset e2.
Proof.
  intros Ha (a & -> & H1)%list_elem_of_fmap (b & -> & H2)%list_elem_of_fmap Hle. cbn [entry_item e_offset] in *.
  destruct (Z.le_gt_cases (it_base a) (it_base b)) as [|Hlt]; [done|]. pose proof (Ha b a H2 H1 Hlt).
  change (it_offset a <= it_offset b) in Hle. lia.
Qed.

(** The cleaned compaction index has for every entry one of the same key of a batch that is as late, and one that
    is as late itself where no batch has two entries of the key. *)
Lemma cleaned_index_ok f es ys : file_entries f = Ok es -> index_entries_ok es -> es ⊆ entry_item <$> ys -> batches_apart ys ->
  exists g es', do_write_clean_compacted_index (en_crc_extend E) (en_idx_mem_usage E) (en_place E) (en_hasher E) (en_tree_mem_usage E)
      (en_resources E) compaction_key_reducer.default_max_memory_usage f = Ok g /\
    file_entries g = Ok es' /\ detect_compaction_index_state (en_crc_extend E) (Some g) = already_compacted /\ es' ⊆ es /\
    forall r, r ∈ es -> exists e, e ∈ es' /\ e_key e = e_key r /\ e_offset r <= e_offset e /\
      ((forall a b, a ∈ es -> b ∈ es -> e_key a = e_key r -> e_key b = e_key r -> e_offset a = e_offset b -> a = b) -> e_full r <= e_full e).
Proof.
  intros He Hok Hsub Ha.
  destruct (write_clean_index (en_crc_extend E) (en_idx_mem_usage E) (en_place E) place_permutes (en_hasher E) (en_tree_mem_usage E)
    (en_resources E) compaction_key_reducer.default_max_memory_usage f es He Hok) as (g & es' & Hg & Hge & Hst & Hsub' & Hcov).
  exists g, es'. do 4 (split; [done|]). intros r Hr.
  destruct (reducer_facts.bitmap_covers (en_hasher E) (en_tree_mem_usage E) compaction_key_reducer.default_max_memory_usage es
    (ix_count _ Hok) r Hr) as (i & e1 & Hi & Hk1 & Hle1 & Hin).
  destruct (Hcov e1) as (e2 & He2 & Hk2 & Hle2); [by eapply chosen_elem|].
  pose proof (list_elem_of_lookup_2 _ _ _ Hi) as He1. exists e2. split; [done|]. split; [congruence|].
  pose proof (apart_offsets ys r e1 Ha ltac:(by apply Hsub) ltac:(by apply Hsub) Hle1). split; [lia|]. intros Hone.
  destruct (Z.le_gt_cases (e_full e1) (e_full e2)) as [|Hgt]; [lia|].
  pose proof (apart_offsets ys e2 e1 Ha ltac:(by apply Hsub, Hsub') ltac:(by apply Hsub) ltac:(lia)).
  rewrite (Hone e1 e2) in Hgt; [lia|done|by apply Hsub'|done|congruence|lia].
Qed.

(** C13: self compaction of a segment keeps the newest value of every key its index knows, up to the records of
    one batch.  For a segment whose batches do not overlap, with a compaction index that holds entries of
    records [ys] of the segment and, for each of them, one of its key that is as late, with keys that fit an
    entry, and with a codec that does not fail: self compaction comes to its end, whatever the memory limits make the
    reducer and the writer spill; the segment decodes to a part of the records it had, in their order; and
    where [x] is the newest record of its key in [ys], and the records of this key in the batch of [x] are not of
    the kinds that may be removed (tombstones, control batches), one of them stays, which is [x] itself where its batch has no other
    record of the key ([same_batch_entry_is_lost] shows that it can be another where it has).  The
    new compaction index is marked as compacted, holds entries of the old one only, and for every entry of the
    old one an entry of the key of a batch that is as late, which is as late itself where no batch has two entries of the key. *)
Theorem self_compaction_keeps_latest cfg seg rss f es ys :
  segment_holds seg rss -> sg_closed seg = false -> Forall (fun p => ix_base_offset (seg_state seg) <= p.1) (span <$> sg_batches seg) ->
  sg_compacted_index seg = Some f -> file_entries f = Ok es -> index_entries_ok es ->
  es ⊆ entry_item <$> ys -> covered e_full (entry_item <$> ys) es ->
  ys ⊆ items (sg_batches seg) rss -> batches_apart ys -> Forall (fun y => sg_base_offset seg <= it_offset y) ys ->
  exists seg' rss' f' es', do_self_compact_segment E cfg seg = (seg', Ok tt) /\ segment_holds seg' rss' /\
    items (sg_batches seg') rss' `sublist_of` items (sg_batches seg) rss /\
    (forall x, x ∈ ys -> newest ys x ->
       (forall y, y ∈ ys -> it_key y = it_key x -> it_base y = it_base x -> live (sg_ntp seg) y = true) ->
       exists y, y ∈ ys /\ it_key y = it_key x /\ it_base y = it_base x /\ y ∈ items (sg_batches seg') rss') /\
    sg_compacted_index seg' = Some f' /\ detect_compaction_index_state (en_crc_extend E) (Some f') = already_compacted /\
    file_entries f' = Ok es' /\ es' ⊆ es /\
    forall r, r ∈ es -> exists e, e ∈ es' /\ e_key e = e_key r /\ e_offset r <= e_offset e /\
      ((forall a b, a ∈ es -> b ∈ es -> e_key a = e_key r -> e_key b = e_key r -> e_offset a = e_offset b -> a = b) -> e_full r <= e_full e).
Proof.
  intros Hsh Hcl Hbase Hf He Hok Hsub Hcov Hys Ha Hlow. unfold do_self_compact_segment. rewrite Hcl, Hf. cbn [throw_if and_then mbind res_bind].
  destruct (cleaned_index_ok f es ys He Hok Hsub Ha) as (g & es' & -> & Hg & Hst & Hsub' & Hcov').
  cbn [and_then]. set (seg1 := set_compacted_index (Some g) seg). unfold do_copy_segment_data, generate_compacted_list. rewrite Hg. cbn [mbind res_bind].
  destruct (generate_ok es' {| compacted_offset_list._base := sg_base_offset seg1; compacted_offset_list._to_keep := ∅ |})
    as (l & -> & _ & _ & Hl).
  { apply Forall_forall. intros e Hin. apply Hsub', Hsub, list_elem_of_fmap in Hin as (y & -> & Hy). rewrite Forall_forall in Hlow. by apply Hlow. }
  assert (Hsh1 : segment_holds seg1 rss) by (by destruct Hsh).
  cbn [mbind res_bind]. destruct (self_copy_ok cfg seg1 rss l Hsh1 Hbase) as (cs & outs & -> & Hcol & Hsh' & Hit). cbn [and_then].
  destruct (self_finished cs g seg1 Hcol) as (seg' & Hend & Hb & Hi & Hh). exists seg', outs, g, es'.
  pose proof (Forall2_length _ _ _ (sh_stored _ _ Hsh)) as Hlen.
  split; [exact Hend|]. split; [by apply Hh|]. rewrite Hb, Hit. split; [by apply kept_concat_sublist|]. split; [|by split_and!].
  intros x Hx Hn Hlive.
  destruct (Hcov (entry_item x)) as (e & He' & Hk & Hle); [by apply list_elem_of_fmap_2|].
  pose proof (apart_offsets ys (entry_item x) e Ha ltac:(by apply list_elem_of_fmap_2) ltac:(by apply Hsub) Hle) as Hbx.
  destruct (Hcov' e He') as (e' & Hin & Hk' & Hle' & _).
  pose proof (Hsub' _ Hin) as Hin'. apply Hsub, list_elem_of_fmap in Hin' as (y & -> & Hy).
  cbn [entry_item e_key e_offset] in *. assert (Hky : it_key y = it_key x) by congruence.
  assert (Hyx : it_base y = it_base x).
  { destruct (Z.lt_trichotomy (it_base x) (it_base y)) as [Hlt|[|]]; [|done|lia].
    pose proof (Ha x y Hx Hy Hlt). pose proof (Hn y Hy Hky). lia. }
  exists y. do 3 (split; [done|]). apply live_remains; [done|done|by apply Hys|by apply Hlive|]. by apply (Hl (entry_item y)).
Qed.

Section with_map.
Context {M : Type} `{HM : key_offset_map M} {K : list Z -> Prop} {HL : KeyOffsetMapLaws M K}.

(** C10: deduplicating a segment comes to its end, with a codec that does not fail, and is exact: the new batches
    decode to the records that are to be kept, in order, and to no others, and the compaction index written with them can be
    read back, holds entries of the kept records of compactible batches only, and for each of them one of its key
    that is as late.  The other kept records (control batches and batches of a type that is not compacted) are not indexed, and a key
    that is too long for an entry stands in the index by its first bytes ([cut]), as the code writes it. *)
Theorem deduplication_is_exact cfg m g seg rss : segment_holds seg rss -> models m g ->
  (forall x, x ∈ items (sg_batches seg) rss -> K (it_key x)) ->
  sg_closed seg = false -> Forall (fun p => ix_base_offset (seg_state seg) <= p.1) (span <$> sg_batches seg) ->
  exists cs outs w f es, deduplicate_segment E cfg m seg = Ok cs /\ Forall2 stored_batch (cs_batches cs) outs /\
    items (cs_batches cs) outs
      = items (sg_batches seg) (zip_with (remaining (keep_of cfg seg) (latest_in g)) (sg_batches seg) rss) /\
    cs_compacted_idx cs = Some w /\ spill_key_index.close (en_crc_extend E) w = Ok f /\ file_entries f = Ok es /\
    covered e_full (cut <$> (entry_item <$> compactible_items (items (cs_batches cs) outs))) es /\
    es ⊆ cut <$> (entry_item <$> compactible_items (items (cs_batches cs) outs)).
Proof.
  intros Hsh Hg Hk Hcl Hbase. unfold deduplicate_segment. rewrite Hcl. cbn [throw_if mbind res_bind].
  unfold copy_segment. rewrite (read_holds _ _ Hsh). destruct Hsh as [Hst _ Hr Hn]. fold (keep_of cfg seg).
  change (sg_committed_offset seg) with (kc_segment_last_offset (keep_of cfg seg)).
  pose proof (Forall2_length _ _ _ Hst) as Hlen.
  assert (Hans : Forall2 (fun b recs => answered (latest_in g) (is_latest_record_for_enhanced_key m) (header b) recs) (sg_batches seg) rss).
  { apply Forall2_zip; [done|]. intros b recs Hin. apply (latest_answered m g); [done|]. intros r Hr'. apply Hk. by eapply items_batch. }
  assert (Hspan : Forall (fun p => ix_base_offset (seg_state seg) <= p.1 /\ is_s 64 p.1) (span <$> sg_batches seg)).
  { rewrite Forall_forall in *. intros p Hp. split; [by apply Hbase|by apply Hr]. }
  destruct (copy_all_total (keep_of cfg seg) (latest_in g) (is_latest_record_for_enhanced_key m)
    (is_batch_in_idempotent_window (en_hooks E)) (en_placeholder_enabled E) (en_tx_batch_compaction_enabled E) (sg_internal_topic seg)
    true (sg_batches seg) rss (new_copy (make_empty_index (ix_base_offset (seg_state seg)) (en_apply_delta_time_offset E))
      (Some (spill_key_index.make spill_key_index.default_max_mem))) (ix_base_offset (seg_state seg)) [] Hst Hans Hspan)
    as (cs & Hcs & _ & _ & w & Hw & Hws).
  { split; [done|]. split; [done|]. eexists. split; [done|]. apply writes_nothing. }
  destruct (copy_all_batches _ _ _ _ _ _ _ _ _ _ _ _ _ _ _ _ _ _ Hst Hans Hcs) as (out & outs & Eb & Hst' & Hit & _).
  cbn [new_copy cs_batches app] in Eb. subst out. rewrite app_nil_r, <- Hit in Hws.
  assert (Hsub : items (cs_batches cs) outs `sublist_of` items (sg_batches seg) rss) by (rewrite Hit; by apply kept_concat_sublist).
  pose proof (sublist_length _ _ Hsub) as Hl. set (ys := compactible_items _) in *.
  rewrite <- (Permutation_rev ys) in Hws. destruct (close_writes_cut w ys Hws) as (f & es & Hf & He & _ & Hc & Hse).
  { unfold blen in *. pose proof (length_filter (fun x => negb (it_control x) && is_filterable (it_type x) = true) (items (cs_batches cs) outs)).
    unfold ys, compactible_items. lia. }
  by exists cs, outs, w, f, es.
Qed.
End with_map.
End totality.
End safety.

(** ** Examples *)

Definition example_environment : environment := {|
  en_crc_extend := sum_extend; en_uninit := fun _ => 0; en_uncompress := mark_uncompress; en_compress := mark_compress;
  en_idx_mem_usage := fun _ => 0; en_place := fun l kv => l ++ [kv]; en_resources := example_env; en_hasher := foldl Z.add 0;
  en_tree_mem_usage := example_tree_mem;
  en_hooks := {| transactional_stm_type := None; aborted_tx_ranges := fun _ _ => []; is_tx_abort := fun _ => false;
                 is_batch_in_idempotent_window := fun _ => false |};
  en_now := 5000; en_retention_timestamp := fun _ => 0; en_tx_batch_compaction_enabled := true; en_placeholder_enabled := true;
  en_apply_delta_time_offset := true |}.

Definition example_config : compaction_config :=
  {| max_removable_local_log_offset := 1000; max_tombstone_remove_offset := 1000; max_tx_end_remove_offset := 1000;
     tombstone_retention_ms := None; tx_retention_ms := None; min_lag_ms := 0 |}.

Definition example_record (d k v : Z) : record := make_record 0 d d (Some [k]) (Some [v]) [].

Definition example_compacted_batch (base : Z) (recs : list record) : record_batch :=
  let h := {| header_crc := 0; b_size_bytes := 0; base_offset := base; type := raft_data; crc := 0; attrs := 0;
              last_offset_delta := blen recs - 1; first_timestamp := 1000; max_timestamp := 1000; producer_id := -1; producer_epoch := -1;
              base_sequence := -1; record_count := blen recs; ctx_term := 1; ctx_owner_shard := None |} in
  {| header := reset_size_checksum_metadata sum_extend h [encode_records recs]; records := [encode_records recs]; compressed := false |}.

Definition example_first : list record := [example_record 0 97 1; example_record 1 98 2].
Definition example_second : list record := [example_record 0 97 3; example_record 1 99 4].

Definition example_compacted_segment (base : Z) (recs : list record) (es : list entry) : segment :=
  {| sg_ntp := {| tn_ns := "kafka"; tn_tp := "topic" |}; sg_internal_topic := false; sg_batches := [example_compacted_batch base recs];
     sg_base_offset := base; sg_committed_offset := base + 1; sg_stable_offset := base + 1; sg_dirty_offset := base + 1;
     sg_index := make_segment_index 32768 base true None None true None true true; sg_compacted_index := Some (example_file es);
     sg_has_appender := false; sg_closed := false; sg_finished_windowed_compaction := false |}.

Definition example_old : segment := example_compacted_segment 10 example_first [example_entry 97 10 0; example_entry 98 10 1].
Definition example_new : segment := example_compacted_segment 20 example_second [example_entry 97 20 0; example_entry 99 20 1].

Lemma example_segment_holds base recs es : (base = 10 /\ recs = example_first) \/ (base = 20 /\ recs = example_second) ->
  segment_holds example_environment (example_compacted_segment base recs es) [recs].
Proof.
  intros H. assert (Hwf : Forall record_wf recs).
  { destruct H as [[_ ->]|[_ ->]]; (repeat apply Forall_cons_2; [apply make_record_wf..|constructor]; (split; [concrete..|constructor|concrete|concrete|concrete])). }
  assert (Hp : plain_ok (example_compacted_batch base recs) recs).
  { split; [done|by cbn; rewrite app_nil_r|done| |done|split; [concrete|done]|].
    - destruct H as [[_ ->]|[_ ->]]; concrete.
    - destruct H as [[_ ->]|[_ ->]]; (apply NoDup_cons; split; [by rewrite list_elem_of_singleton|apply NoDup_singleton]). }
  split.
  - constructor; [|constructor]. by apply stored_plain.
  - split; [constructor; [|constructor]|constructor; constructor]. destruct H as [[-> ->]|[-> ->]]; concrete.
  - constructor; [|constructor]. destruct H as [[-> ->]|[-> ->]]; split_and!; concrete.
  - destruct H as [[-> ->]|[-> ->]]; concrete.
Qed.

Lemma example_index_sound base recs es X : file_entries (example_file es) = Ok es ->
  (forall e, e ∈ es -> exists x, x ∈ X /\ e = entry_item x) -> index_sound example_environment X (example_compacted_segment base recs es).
Proof.
  intros He Hx f es' [= <-] _ He'. rewrite He in He'. injection He' as <-. apply Forall_forall. intros e Hin.
  destruct (Hx e Hin) as (x & Hin' & ->). by apply item_in_window.
Qed.

Definition example_items (base : Z) (recs : list record) : list item :=
  (fun r => {| it_type := raft_data; it_control := false; it_base := base; it_rec := r |}) <$> recs.

(** The cases of membership in the lists of the examples. *)
Ltac each_item H :=
  cbn [example_items example_first example_second fmap list_fmap app] in H;
  repeat (apply elem_of_cons in H as [->|H]); try (exfalso; exact (proj1 (elem_of_nil _) H)).

Lemma window_pass_keeps_latest_witness :
  let segs := [example_old; example_new] in
  let r := window_pass (M := simple_key_offset_map.t) example_environment 10 example_config segs None (simple_key_offset_map.make None) in
  exists rsss', Forall2 (segment_holds example_environment) r.1.1 rsss' /\
    window_items r.1.1 rsss' `sublist_of` example_items 10 example_first ++ example_items 20 example_second /\
    forall x, x ∈ example_items 20 example_second -> x ∈ window_items r.1.1 rsss'.
Proof.
  intros segs r.
  assert (place_ok : forall l kv, en_place example_environment l kv ≡ₚ kv :: l).
  { intros l kv. symmetry. apply Permutation_cons_append. }
  assert (HX : window_items segs [[example_first]; [example_second]] = example_items 10 example_first ++ example_items 20 example_second) by done.
  destruct (window_pass_keeps_latest (M := simple_key_offset_map.t) (K := fun _ => True) example_environment (CodecLaws0 := mark_codec) place_ok 10
    example_config {| tn_ns := "kafka"; tn_tp := "topic" |} segs [[example_first]; [example_second]] None (simple_key_offset_map.make None))
    as (rsss' & H1 & H2 & H3).
  - constructor; [apply example_segment_holds; by left|constructor; [apply example_segment_holds; by right|constructor]].
  - by repeat constructor.
  - rewrite HX. constructor; [|constructor; [|constructor]]; (apply example_index_sound; [vm_compute; reflexivity|]);
      intros e [->|[->|[]%elem_of_nil]%elem_of_cons]%elem_of_cons.
    + eexists. split; [apply elem_of_app; left; left|reflexivity].
    + eexists. split; [apply elem_of_app; left; right; left|reflexivity].
    + eexists. split; [apply elem_of_app; right; left|reflexivity].
    + eexists. split; [apply elem_of_app; right; right; left|reflexivity].
  - rewrite HX. intros x Hx. split; [done|]. revert x Hx. apply Forall_forall. vm_compute; repeat constructor; discriminate.
  - exists ∅. split; [done|]. apply is_max_empty.
  - exists rsss'. rewrite HX in H2, H3. split; [exact H1|]. split; [exact H2|]. intros x Hx.
    apply H3; [apply elem_of_app; by right|each_item Hx; reflexivity|].
    intros y Hy. each_item Hx; each_item Hy; vm_compute; congruence.
Defined.

Lemma example_place l kv : en_place example_environment l kv ≡ₚ kv :: l.
Proof. symmetry. apply Permutation_cons_append. Qed.

Lemma deduplication_is_exact_witness :
  let m := {| simple_key_offset_map._map := {[enhance_key raft_data false [97] := 20]}; simple_key_offset_map._max_offset := 20;
              simple_key_offset_map._max_keys := 1000 |} in
  exists cs outs w f es, deduplicate_segment example_environment example_config m example_old = Ok cs /\
    Forall2 (stored sum_extend mark_uncompress) (cs_batches cs) outs /\
    items (cs_batches cs) outs = [{| it_type := raft_data; it_control := false; it_base := 10; it_rec := example_record 1 98 2 |}] /\
    cs_compacted_idx cs = Some w /\ spill_key_index.close sum_extend w = Ok f /\ file_entries f = Ok es /\
    covered e_full (cut <$> (entry_item <$> compactible_items (items (cs_batches cs) outs))) es /\
    es ⊆ cut <$> (entry_item <$> compactible_items (items (cs_batches cs) outs)).
Proof.
  intros m.
  destruct (deduplication_is_exact (M := simple_key_offset_map.t) (K := fun _ => True) example_environment (CodecLaws0 := mark_codec)
    example_place (fun t p => ex_intro _ _ eq_refl) example_config m {[enhance_key raft_data false [97] := 20]} example_old [example_first])
    as (cs & outs & w & f & es & H1 & H2 & H3 & H4).
  - apply example_segment_holds. by left.
  - split; [done|]. split; [concrete|]. split; [|right; exists (enhance_key raft_data false [97]); apply lookup_singleton_eq].
    intros k o [_ <-]%lookup_singleton_Some. done.
  - done.
  - done.
  - constructor; [concrete|constructor].
  - exists cs, outs, w, f, es. split; [exact H1|]. split; [exact H2|]. split; [|exact H4]. rewrite H3. vm_compute. reflexivity.
Defined.

Lemma self_compaction_keeps_latest_witness :
  exists seg' rss', do_self_compact_segment example_environment example_config example_old = (seg', Ok tt) /\
    segment_holds example_environment seg' rss' /\
    forall x, x ∈ example_items 10 example_first -> x ∈ items (sg_batches seg') rss'.
Proof.
  destruct (self_compaction_keeps_latest example_environment (CodecLaws0 := mark_codec) example_place (fun t p => ex_intro _ _ eq_refl)
    example_config example_old [example_first] (example_file [example_entry 97 10 0; example_entry 98 10 1])
    [example_entry 97 10 0; example_entry 98 10 1] (example_items 10 example_first))
    as (seg' & rss' & f' & es' & H1 & H2 & _ & H3 & _).
  - apply example_segment_holds. by left.
  - done.
  - constructor; [concrete|constructor].
  - done.
  - vm_compute. reflexivity.
  - split; [by repeat constructor|repeat apply Forall_cons_2; [split; concrete..|constructor]|repeat apply Forall_cons_2; [concrete..|constructor]|concrete].
  - done.
  - intros r Hr. exists r. by split_and!.
  - done.
  - intros a b H1 H2. each_item H1; each_item H2; vm_compute; intros; congruence.
  - cbn [example_items example_first fmap list_fmap]. repeat apply Forall_cons_2; [concrete..|constructor].
  - exists seg', rss'. split; [exact H1|]. split; [exact H2|]. intros x Hx.
    destruct (H3 x Hx) as (y & Hy & Hk & _ & Hin).
    + intros y Hy. each_item Hx; each_item Hy; vm_compute; congruence.
    + intros y Hy _ _. each_item Hy; vm_compute; reflexivity.
    + each_item Hx; each_item Hy; try exact Hin; exfalso; revert Hk; vm_compute; congruence.
Defined.

(** A map for one key: the newest segment takes two rounds. *)
Lemma chunked_compaction_ends_witness :
  exists n r, chunk_rounds (M := simple_key_offset_map.t) example_environment example_config no_offset [example_old; example_new]
      (simple_key_offset_map.make (Some 1)) n r /\ (n <= 5)%nat /\
    forall fuel, (n <= fuel)%nat -> chunk_loop example_environment fuel example_config no_offset [example_old; example_new]
      (simple_key_offset_map.make (Some 1)) = r.
Proof.
  assert (HX : window_items [example_old; example_new] [[example_first]; [example_second]]
    = example_items 10 example_first ++ example_items 20 example_second) by done.
  destruct (chunked_compaction_ends (M := simple_key_offset_map.t) (K := fun _ => True) example_environment (CodecLaws0 := mark_codec) example_place
    example_config [example_old; example_new] [[example_first]; [example_second]] (simple_key_offset_map.make (Some 1)))
    as (n & r & H1 & H2 & H3).
  - constructor; [apply example_segment_holds; by left|constructor; [apply example_segment_holds; by right|constructor]].
  - rewrite HX. intros x Hx. split; [done|]. each_item Hx; concrete.
  - exists ∅. split; [done|]. apply is_max_empty.
  - done.
  - rewrite HX. intros x Hx. each_item Hx; concrete.
  - rewrite HX in H2. exists n, r. by split_and!.
Defined.
